(* ===== verification/_CoqProject ===== *)
-Q . S2P
Prelude.v
GoStrings.v
Utf8.v
Spaces.v
Visible.v
GoTime.v
Json.v
Encode.v
AuditLog.v
AuditStore.v
AuditTrail.v
Registry.v
Signer.v
Access.v
Blocklist.v
Quarantine.v
QuarantineStore.v
QuarantineHistory.v
Quota.v
QuotaHistory.v
Redact.v
JsonStrings.v
RegistryStore.v
Prog.v
GatewayTypes.v
ToolSchema.v
Routing.v
Fleet.v
HealthRows.v
Dispatch.v
DispatchSafety.v
DispatchTrail.v
DispatchResult.v
CallSlots.v
Rounds.v
World.v
Moments.v
RoundsSafety.v
RoundsInvariant.v
RowsOrder.v
ChildEnv.v
OciPlan.v
OciDialer.v
RestEgress.v
RestOperations.v
JsonCanon.v
RestPath.v
RestRequest.v
RestSets.v
RestCall.v
Config.v
ConfigLoad.v
Dialer.v
Reload.v
Control.v
ServeControl.v
Oidc.v
AdminPorts.v
AdminAccess.v
AdminDecisions.v
AdminManage.v
AdminActions.v
OpenapiDoc.v
OpenapiSchema.v
OpenapiOps.v
