(* ===== verification/Prelude.v ===== *)
(** * Gatte: a verification library for the gateway's core

    Gatte is an MCP gateway: it brings up the backends a registry names, lists their tools, keeps every
    tool in quarantine until an operator vets it, and forwards an analyst's calls to them under a
    policy, a quota and a tamper-evident trail.  The library translates that core, definition by
    definition, and proves what makes it correct.  Paths below are under [src/].

    ** The parts, and where they are modelled

    - Text, time, encodings, shared by all: GoStrings, Utf8 (strings as bytes, runes), Spaces (what
      [strings.TrimSpace] trims), GoTime ([time.Time] and RFC 3339), Json (the grammar of [encoding/json]), JsonStrings (its strings, written and read
      back), Encode (SHA-256, HMAC, length-prefixed fields).
    - Untrusted text made visible, [internal/visible]: Visible.
    - The trail, [internal/audit], [internal/audit/sqlite]: AuditLog (records, the chain's bytes),
      AuditStore (the SQLite table and its operations), AuditTrail (their theorems).
    - The registry's entries, their table and their signatures, [internal/registry],
      [internal/registry/sqlite], [internal/signer]: Registry, RegistryStore, Signer.
    - Who may call what, [internal/access], [internal/access/sqlite]: Access (roles, policy), Blocklist
      (the kill switch and its table).
    - The tool quarantine, [internal/quarantine], [internal/quarantine/sqlite]: Quarantine (one tool's
      state machine), QuarantineStore (the two tables), QuarantineHistory (every history of operations).
    - The consumption quota, [internal/quota], [internal/quota/sqlite]: Quota, QuotaHistory.
    - Masking credentials, [internal/gateway/redact.go] and [scrubJSON]: Redact.
    - The gateway, [internal/gateway]:
      Prog (programs over effects: a tree of what is done next, given each answer);
      GatewayTypes (names, definitions, results, errors, the reasons of rows);
      ToolSchema ([validateSchema], [resolveOutputSchema]);
      Routing ([mergeRoutes], the quota's coverage, [specChanged]);
      Fleet (every field under [Gateway.mu], each section that holds the lock as one function);
      HealthRows (the rows the fleet's steps owe, and the machine a reader of the trail runs on them);
      Dispatch ([Dispatch], [ListTools], [AdmitCaller] and the rows they write, as programs), with its
      theorems in DispatchSafety, DispatchTrail, DispatchResult and, for all interleavings of calls,
      CallSlots;
      Rounds ([Connect], [Reconcile], [Refresh], [ApplyPolicy], [Redial], [Close], the reports, as
      programs over the fleet's steps and the ports' effects);
      World (a round interleaved with calls and commands; the logic of [triple]s), Moments (the
      invariant), RoundsSafety (each piece of a round), RoundsInvariant (whole rounds), RowsOrder (one
      interleaving that puts rows out of order).
    - The adapters that dial a backend: ChildEnv ([envpolicy.go], [stdio/stdio.go]: the environment of a
      local process, and its dial); OciPlan, OciDialer ([oci/invocation.go], [oci/oci.go]: the command line
      of a container, and its life from the dial to its removal); and for a REST API, [resthttp/], RestEgress
      ([egress.go]: which addresses may be reached), RestOperations ([operation.go]: which operation sets
      are served), JsonCanon and RestSets (canonical JSON, and the set's stored form), RestPath, RestRequest
      and RestCall ([resthttp.go]: the path, the request, the exchange and its result).
    - The configuration, [internal/config]: Config ([config.go]: the sections and [Validate], each fault in
      order), ConfigLoad ([load.go], and the policy, the plan, the keys and the limits a configuration gives).
    - One dialer for every transport, [cmd/mcp-gateway/dialer.go]: Dialer, with the console's two questions
      about an entry before it registers or signs it.
    - The serving process: Reload ([internal/reload]: what a new configuration changes, and what waits for a
      restart), Control ([internal/control], [internal/control/sqlite]: the operator's requests and their
      store), ServeControl ([cmd/mcp-gateway/serve_control.go], [serve_blocks.go], the [round] of [serve.go]:
      requests taken, applied and answered, as programs).
    - Tokens, [internal/access/oidc]: Oidc.
    - The operator's actions, [internal/admin]: AdminPorts ([service.go]: the ports, the answers, the row
      every action writes), AdminAccess ([access.go], [tools.go], [review_set.go]: blocks, approvals,
      clearances), AdminManage ([maintenance.go], [manage.go], [accounts.go], [internal/idp/idp.go]), and the
      theorems over them in AdminDecisions and AdminActions, which also holds [offboard.go].

    How they meet: a call ([Dispatch]) reads the routing table the rounds build, the quarantine's [Usable],
    the policy and the quota, and writes the trail; a round ([Reconcile], [Refresh]) reads the registry,
    verifies signatures, dials, hands every listing to the quarantine and installs the table.  The
    programs call the pure parts directly ([Usable], [Authorize], [Verify], [Validate], [scrubJSON],
    [mergeRoutes]); a store is an effect whose answer any run may choose, so the theorems about programs
    hold for whatever the stores' own operations, proved in their files, can answer.  The configuration is
    where the policy, the quota plan, the trusted keys and the container limits come from; the serving
    process reloads the first two between rounds; an operator action changes a store the gateway reads, or
    files a request the serving process answers.

    ** What the theorems show

    - Calls: nothing reaches a backend before every gate has passed, in order, and the allowed row is
      written ([no_call_before_every_gate]); the rows are those that go with the answer
      ([answer_is_booked]); a panic is contained ([panic_is_contained]); a result given was checked
      and scrubbed ([result_is_checked]); a list shows exactly what may be called ([ListTools_exact]);
      the concurrency cap holds over all interleavings and no slot leaks ([concurrency_cap],
      [calls_drain]).
    - The gateway at work, at every moment and whatever interleaves: the table is well formed
      ([table_is_sound]), connections do not leak ([no_connection_leaks]), a Reconcile ends and brings
      the connections to the registry ([reconcile_converges]), the rows of the states of life form an
      exact machine in the order of the steps ([rows_tell_the_states]); what the table and the coverage
      checks compute ([mergeRoutes_exact], [coverage_exact], [validateSchema_exact]).
    - Histories of each store: a usable tool was vetted at its fingerprint ([usable_is_vetted]), the
      quota's bound ([quota_bound]), the kill switch ([kill_switch_holds], [blocklist_refinement]), the
      trail's chain ([known_head_fixes_trail], [recorded_trail_verifies]), the registry's table as a map
      from names to entries ([registry_refines]).
    - Adapters: every container a dial may have made is held, removed or named ([container_lifecycle]), its
      command line is the adapter's own ([container_contract]) and independent of the secrets
      ([secrets_stay_out]); a REST call connects only where the address policy, a table of blocks
      ([egress_is_the_table]), allows ([no_forbidden_connection]), its request stays on the signed path
      ([request_stays_on_its_path]), the credential is alone in its slot ([credential_has_its_slot]) and
      in nothing that comes back ([call_hides_the_credential]), and every run of it is one of six
      ([rest_call_exact]); an operation set is served exactly when it meets its contract
      ([operations_contract]) and keeps its meaning through its stored form ([operation_set_roundtrip]).
    - Configuration: one that loads is one the gateway can serve ([loaded_config_serves]); under it the
      console refuses what the dialer would refuse and nothing else ([console_refuses_what_the_dialer_refuses]);
      the difference a reload reports is the difference in authorisation ([reload_diff_tells_reach]).
    - Operators: a request is answered once, by the store ([control_refines]) and by the process
      ([requests_are_answered]); every action's answer is true to what its run changed and wrote
      ([operator_actions_are_accounted]); a decision is of what was shown ([decisions_are_of_what_was_shown]).
    - Identities: a token is turned into one only when the provider vouches for it ([identity_is_vouched]).
    - Decisions and encodings: the policy, the registry's contract, signatures, masking.
    Each property's comment names its claim; the other theorems are marked as facts.

    ** Bounds and fuel

    Recursions that are not structural take the length of the text they read as fuel, and lemmas say it is
    enough: [Utf8.chunks_fuel], [Json.value_fuel] (whose other bound, the nesting of 10000, is
    [encoding/json]'s own), [ToolSchema.unquote_fuel_enough]; [Redact.mark_form] and the digit printers
    are proved by what they produce.  [Prog.prog] is inductive: a program ends whatever is answered.
    Counters, sizes, durations and instants are unbounded integers ([Z]); the quota's counters are
    bounded by their limits ([quota_bound]).

    ** What is simplified

    Errors from outside are the sentinels they wrap; logging and counters' names are left out; contexts
    appear where the code branches on them.  The texts of refusals are kinds of error.  Go's random order
    of a map range, the process's environment, the text of a floating-point number and the parsers of
    [net/netip], [net/url] and [mime] are type classes too ([MapRange], [ProcessEnv], [FloatText],
    [AddrParser], [UrlParser], [MediaTypes]); host names are lower-cased byte by byte.  The goroutines of a round run one after another in an
    order the environment chooses: they share only the locked steps.  At most one round is in progress
    ([refreshMu]); between any two steps of it a call may find a process dead, an operator redial, the
    state store be written, the gateway be closed.  Unicode tables, the printable runes of [strconv],
    [net/url], Ed25519, the hash and the JSON schema library are type classes; each theorem that needs
    more of one than its type says so, and its witness instantiates it.  The registry holds one entry
    per name: a hypothesis of RoundsInvariant, and what [registry_refines] proves of [List].

    Of the configuration, TOML's decoder is a parameter, with the port names of [net.LookupPort] and the
    files read; of a token, go-oidc's verification, whose documented contract is the hypothesis of
    [identity_is_vouched]; of the console, [net/mail]'s parser ([MailParser]).  The ports of an operator's
    action are effects, the quarantine's with its contract ([honest]); answers are values before JSON, and
    the sentences that go with a code are left out.

    ** Not modelled

    - The ingestion of an OpenAPI document ([resthttp/openapi.go], [resthttp/fetch.go]): an offline command
      whose result, the operation set, is checked again wherever it is read; that check is modelled.
    - The surfaces: MCP over HTTP ([gateway/httpapi]), the administration's HTTP and web fronts
      ([adminhttp], [web]), the commands ([cmd/]): routing, encoding, flags and pages around the operations
      above.
    - The administration's reads, its waiting for the serving process, OAuth connections, and the walk over
      the directories above a root backend's files ([trust.go]).
    - Token buckets over floating-point rates ([authlimit.go]), whose verdict is an effect of the calls.
    - Network and files: telemetry, the trail's JSON-lines copy, the vault's external program, the identity
      provider's users file, atomic replacement of files, the tables' DDL, the store of backend health, the
      lab. *)
From Stdlib Require Import ZArith Lia Ascii.
From stdpp Require Export base strings list gmap sorting.

#[global] Open Scope Z_scope.
#[global] Set Default Goal Selector "!".

(** ** Results: Go's [(value, error)] pairs *)

Inductive result (E A : Type) : Type :=
| Ok (a : A)
| Err (e : E).
Arguments Ok {E A} a.
Arguments Err {E A} e.

Declare Scope gatte_scope.
Delimit Scope gatte_scope with gatte.
#[global] Open Scope gatte_scope.

Definition rbind {E A B} (r : result E A) (k : A -> result E B) : result E B :=
  match r with Ok a => k a | Err e => Err e end.

Notation "x <-? c ;; k" := (rbind c (fun x => k))
  (at level 60, c at next level, right associativity) : gatte_scope.

Definition is_ok {E A} (r : result E A) : bool :=
  match r with Ok _ => true | Err _ => false end.

#[global] Instance result_eq_dec {E A} `{EqDecision E, EqDecision A} : EqDecision (result E A).
Proof. solve_decision. Defined.

Lemma rbind_Ok_inv {E A B} (r : result E A) (k : A -> result E B) b :
  rbind r k = Ok b -> exists a, r = Ok a /\ k a = Ok b.
Proof. destruct r; simpl; [eauto | discriminate]. Qed.

(** ** Tactics *)

(** [lia] with quotients and remainders by constants. *)
Ltac Zify.zify_post_hook ::= Z.to_euclidean_division_equations.

(** [deex] opens every existential and conjunction among the hypotheses. *)
Ltac deex :=
  repeat match goal with
  | H : exists x, _ |- _ => let x' := fresh x in destruct H as [x' H]
  | H : _ /\ _ |- _ => destruct H
  end.

(** [case_on_match H] splits on the innermost matched expression of [H]. *)
Ltac case_on_match H :=
  match type of H with
  | context [match ?e with _ => _ end] =>
      lazymatch e with
      | context [match _ with _ => _ end] => fail
      | _ => let E := fresh "E" in destruct e eqn:E
      end
  end.

(** ** Byte-wise string order: what [slices.Sort] sorts Go strings by *)

Fixpoint str_leb (a b : string) : bool :=
  match a, b with
  | EmptyString, _ => true
  | String _ _, EmptyString => false
  | String x a', String y b' =>
      match N.compare (N_of_ascii x) (N_of_ascii y) with
      | Lt => true
      | Gt => false
      | Eq => str_leb a' b'
      end
  end.

Definition str_le (a b : string) : Prop := str_leb a b = true.

#[global] Instance str_le_dec a b : Decision (str_le a b) := decide (str_leb a b = true).

Lemma N_of_ascii_inj x y : N_of_ascii x = N_of_ascii y -> x = y.
Proof. intros H. rewrite <- (ascii_N_embedding x), <- (ascii_N_embedding y). congruence. Qed.

Lemma str_leb_refl a : str_leb a a = true.
Proof. induction a as [|x a IH]; simpl; [done|]. by rewrite N.compare_refl. Qed.

#[global] Instance str_le_total : Total str_le.
Proof.
  intros a. unfold str_le. induction a as [|x a IH]; intros [|y b]; simpl; auto.
  rewrite (N.compare_antisym (N_of_ascii x)).
  destruct (N.compare_spec (N_of_ascii x) (N_of_ascii y)); simpl; auto.
Qed.

#[global] Instance str_le_trans : Transitive str_le.
Proof.
  intros a. unfold str_le. induction a as [|x a IH]; intros [|y b] [|z c]; simpl; try done.
  intros H1 H2.
  destruct (N.compare_spec (N_of_ascii x) (N_of_ascii y)),
    (N.compare_spec (N_of_ascii y) (N_of_ascii z)),
    (N.compare_spec (N_of_ascii x) (N_of_ascii z)); try done; try lia; eauto.
Qed.

#[global] Instance str_le_antisymm : AntiSymm (=) str_le.
Proof.
  intros a. unfold str_le. induction a as [|x a IH]; intros [|y b]; simpl; try done.
  rewrite (N.compare_antisym (N_of_ascii x)).
  destruct (N.compare_spec (N_of_ascii x) (N_of_ascii y)) as [Heq| |]; simpl; try done.
  intros. f_equal; [by apply N_of_ascii_inj | eauto].
Qed.

#[global] Instance str_le_refl : Reflexive str_le.
Proof. intros a. apply str_leb_refl. Qed.

(** [slices.Sort] on strings. *)
Definition sort_strings (l : list string) : list string := merge_sort str_le l.

Lemma sort_strings_Permutation l : sort_strings l ≡ₚ l.
Proof. apply merge_sort_Permutation. Qed.

Lemma sort_strings_sorted l : StronglySorted str_le (sort_strings l).
Proof. apply StronglySorted_merge_sort; apply _. Qed.

Lemma elem_of_sort_strings x l : x ∈ sort_strings l <-> x ∈ l.
Proof. by rewrite sort_strings_Permutation. Qed.

Lemma sort_strings_NoDup l : NoDup (sort_strings l) <-> NoDup l.
Proof. by rewrite sort_strings_Permutation. Qed.

Lemma sort_strings_unique l1 l2 : l1 ≡ₚ l2 -> sort_strings l1 = sort_strings l2.
Proof.
  intros H. apply (StronglySorted_unique str_le); try apply sort_strings_sorted.
  by rewrite !sort_strings_Permutation.
Qed.

#[global] Instance sort_strings_proper : Proper ((≡ₚ) ==> (=)) sort_strings.
Proof. intros l1 l2. apply sort_strings_unique. Qed.

(** A list sorted strictly by a key of its elements: what [slices.SortFunc] by name gives for
    pairwise distinct names. *)
Definition sort_by {A} (key : A -> string) (l : list A) : list A :=
  merge_sort (fun a b => str_le (key a) (key b)) l.

Lemma sort_by_Permutation {A} (key : A -> string) l : sort_by key l ≡ₚ l.
Proof. apply merge_sort_Permutation. Qed.

Lemma elem_of_sort_by {A} (key : A -> string) x l : x ∈ sort_by key l <-> x ∈ l.
Proof. by rewrite sort_by_Permutation. Qed.

Lemma sort_by_sorted {A} (key : A -> string) (l : list A) :
  StronglySorted (fun a b => str_le (key a) (key b)) (sort_by key l).
Proof.
  apply StronglySorted_merge_sort.
  - intros a b c ??. by etrans.
  - intros a b. apply str_le_total.
Qed.

(** The first occurrences of a list, in order: a Go loop that skips what it has already seen. *)
Fixpoint dedup (l : list string) : list string :=
  match l with
  | [] => []
  | x :: l' => x :: filter (fun y => y <> x) (dedup l')
  end.

Lemma elem_of_dedup x l : x ∈ dedup l <-> x ∈ l.
Proof.
  induction l as [|y l IH]; simpl; [done|].
  rewrite !elem_of_cons, list_elem_of_filter, IH. destruct (decide (x = y)); naive_solver.
Qed.

Lemma NoDup_dedup l : NoDup (dedup l).
Proof.
  induction l as [|y l IH]; simpl; constructor.
  - rewrite list_elem_of_filter. naive_solver.
  - by apply NoDup_filter.
Qed.

Lemma existsb_elem {A} (f : A -> bool) l : existsb f l = true <-> exists x, x ∈ l /\ f x = true.
Proof. rewrite existsb_exists. by setoid_rewrite list_elem_of_In. Qed.

(** ** Finite sequences of steps of a transition relation *)

Section star.
Context {A : Type} (R : A -> A -> Prop).

Inductive star : A -> A -> Prop :=
| star_refl a : star a a
| star_snoc a b c : star a b -> R b c -> star a c.

Lemma star_trans a b c : star a b -> star b c -> star a c.
Proof. intros H1 H2. induction H2; eauto using star. Qed.

(** An invariant of the initial state and of every step holds of every reachable state. *)
Lemma star_invariant (P : A -> Prop) a b :
  P a -> (forall x y, P x -> R x y -> P y) -> star a b -> P b.
Proof. intros Ha Hs H. induction H; eauto. Qed.
End star.
Arguments star {A} R _ _.

(** ** Strings as byte sequences *)

Lemma string_app_cons x (a b : string) : String x a +:+ b = String x (a +:+ b).
Proof. reflexivity. Qed.

Lemma string_app_nil_l (b : string) : "" +:+ b = b.
Proof. reflexivity. Qed.

Lemma string_app_nil_r (s : string) : s +:+ "" = s.
Proof. induction s as [|x s IH]; [done|]. by rewrite string_app_cons, IH. Qed.

Lemma string_app_assoc (a b c : string) : a +:+ (b +:+ c) = (a +:+ b) +:+ c.
Proof. induction a as [|x a IH]; [done|]. by rewrite !string_app_cons, IH. Qed.

Lemma string_length_app (a b : string) :
  String.length (a +:+ b) = (String.length a + String.length b)%nat.
Proof. induction a as [|x a IH]; [done|]. rewrite string_app_cons. simpl. by rewrite IH. Qed.

(** Two concatenations whose first halves have the same length agree half by half. *)
Lemma string_app_inj_length (a1 a2 b1 b2 : string) :
  String.length a1 = String.length a2 -> a1 +:+ b1 = a2 +:+ b2 -> a1 = a2 /\ b1 = b2.
Proof.
  revert a2. induction a1 as [|x a1 IH]; intros [|y a2]; try done.
  rewrite !string_app_cons. intros Hl H. injection H as -> H. injection Hl as Hl.
  destruct (IH a2 Hl H). by subst.
Qed.

Lemma string_length_zero (s : string) : String.length s = 0%nat -> s = "".
Proof. by destruct s. Qed.

(** The length of a Go string, which the language bounds by the largest [int]. *)
Definition blen (s : string) : Z := Z.of_nat (String.length s).

Definition max_int : Z := 2 ^ 63 - 1.

Definition go_string (s : string) : Prop := blen s <= max_int.

Create HintDb gatte discriminated.
#[export] Hint Resolve elem_of_sort_strings sort_strings_sorted NoDup_dedup : gatte.
#[export] Hint Rewrite @elem_of_sort_strings @elem_of_dedup string_app_nil_r string_length_app : gatte.

(** ** Histories of operations, and their simulation by what a port promises *)

Fixpoint run_history {Op S A} (step : Op -> S -> S * A) (ops : list Op) (s : S) : S * list A :=
  match ops with
  | [] => (s, [])
  | op :: rest => let '(s1, a) := step op s in let '(s2, answers) := run_history step rest s1 in (s2, a :: answers)
  end.

Lemma run_history_app {Op S A} (step : Op -> S -> S * A) ops1 ops2 s :
  (run_history step (ops1 ++ ops2) s).1 = (run_history step ops2 (run_history step ops1 s).1).1.
Proof.
  revert s. induction ops1 as [|op ops1 IH]; intros s; [done|]. cbn [app run_history]. destruct (step op s) as [s1 a].
  specialize (IH s1). destruct (run_history step (ops1 ++ ops2) s1), (run_history step ops1 s1). done.
Qed.

Lemma run_history_sim {Op S T A} (R : S -> T -> Prop) (ok : Op -> Prop) (f : Op -> S -> S * A) (g : Op -> T -> T * A) :
  (forall op s t, ok op -> R s t -> (f op s).2 = (g op t).2 /\ R (f op s).1 (g op t).1) ->
  forall ops s t, Forall ok ops -> R s t ->
  (run_history f ops s).2 = (run_history g ops t).2 /\ R (run_history f ops s).1 (run_history g ops t).1.
Proof.
  intros Hstep ops s t Hok. revert s t. induction Hok as [|op ops Hop _ IH]; intros s t HR; cbn [run_history]; [done|].
  destruct (Hstep op s t Hop HR) as [Ha HR']. destruct (f op s) as [s1 a], (g op t) as [t1 b]. cbn [fst snd] in *.
  specialize (IH s1 t1 HR'). destruct (run_history f ops s1), (run_history g ops t1). cbn [fst snd] in *.
  destruct IH as [-> ?]. by subst.
Qed.

Lemma run_history_invariant {Op S A} (P : S -> Prop) (step : Op -> S -> S * A) :
  (forall op s, P s -> P (step op s).1) -> forall ops s, P s -> P (run_history step ops s).1.
Proof.
  intros Hstep ops. induction ops as [|op ops IH]; intros s HP; cbn [run_history]; [done|].
  specialize (Hstep op s HP). destruct (step op s) as [s1 a]. cbn [fst] in Hstep. specialize (IH s1 Hstep).
  by destruct (run_history step ops s1).
Qed.
