(* ===== verification/GoStrings.v ===== *)
(** * The parts of Go's [strings], [unicode/utf8] and [encoding] packages the gateway uses

    A Go string (and a [[]byte]) is a [string] of 8-bit [ascii] characters.  Nothing here maps to
    code of the repository: these are the standard-library functions its definitions call. *)
From Stdlib Require Import ZArith Lia Ascii.
From stdpp Require Import base strings list.
From S2P Require Import Prelude.

(** ** Bytes *)

Definition bz (a : ascii) : Z := Z.of_N (N_of_ascii a).

Definition zb (z : Z) : ascii := ascii_of_N (Z.to_N (z mod 256)).

Lemma bz_range a : 0 <= bz a < 256.
Proof. unfold bz. pose proof (N_ascii_bounded a). lia. Qed.

Lemma bz_zb z : bz (zb z) = z mod 256.
Proof.
  unfold bz, zb. pose proof (Z.mod_pos_bound z 256).
  rewrite N_ascii_embedding; [|lia]. rewrite Z2N.id; lia.
Qed.

Lemma bz_inj a b : bz a = bz b -> a = b.
Proof. unfold bz. intros H. apply N_of_ascii_inj. lia. Qed.

Lemma zb_bz a : zb (bz a) = a.
Proof. apply bz_inj. rewrite bz_zb, Z.mod_small; [done|apply bz_range]. Qed.

(** ** Slicing and searching *)

Fixpoint str_take (n : nat) (s : string) : string :=
  match n, s with
  | S n', String a s' => String a (str_take n' s')
  | _, _ => ""
  end.

Fixpoint str_drop (n : nat) (s : string) : string :=
  match n, s with
  | S n', String _ s' => str_drop n' s'
  | _, _ => s
  end.

(** [strings.HasPrefix]. *)
Fixpoint has_prefix (s p : string) : bool :=
  match p, s with
  | EmptyString, _ => true
  | String b p', String a s' => bool_decide (a = b) && has_prefix s' p'
  | _, _ => false
  end.

(** [strings.CutPrefix]: [None] for [ok = false]. *)
Definition cut_prefix (s p : string) : option string :=
  if has_prefix s p then Some (str_drop (String.length p) s) else None.

Lemma has_prefix_spec s p : has_prefix s p = true <-> exists rest, s = p +:+ rest.
Proof.
  revert s. induction p as [|b p IH]; intros s; simpl.
  - split; [intros _; by exists s|]. by destruct s.
  - destruct s as [|a s]; simpl.
    + split; [done|]. intros [rest H]. by rewrite string_app_cons in H.
    + rewrite andb_true_iff, bool_decide_eq_true, IH. split.
      * intros [-> [rest ->]]. by exists rest.
      * intros [rest H]. rewrite string_app_cons in H. injection H as -> ->. eauto.
Qed.

Lemma str_drop_app_length p rest : str_drop (String.length p) (p +:+ rest) = rest.
Proof. induction p as [|b p IH]; [done|]. by rewrite string_app_cons. Qed.

Lemma cut_prefix_spec s p rest : cut_prefix s p = Some rest <-> s = p +:+ rest.
Proof.
  unfold cut_prefix. destruct (has_prefix s p) eqn:H.
  - apply has_prefix_spec in H as [r ->]. rewrite str_drop_app_length.
    split; [by intros [= ->]|]. by intros ->%(inj (String.append p)).
  - split; [done|]. intros ->. assert (Hp : has_prefix (p +:+ rest) p = true); [|congruence].
    apply has_prefix_spec. eauto.
Qed.

(** [strings.Contains]. *)
Fixpoint str_contains (s sub : string) : bool :=
  has_prefix s sub ||
  match s with EmptyString => false | String _ s' => str_contains s' sub end.

(** [strings.Cut] at a one-byte separator. *)
Fixpoint cut (s : string) (sep : ascii) : option (string * string) :=
  match s with
  | EmptyString => None
  | String a s' =>
      if bool_decide (a = sep) then Some ("", s')
      else match cut s' sep with
           | Some (before, after) => Some (String a before, after)
           | None => None
           end
  end.

Fixpoint contains_byte (s : string) (c : ascii) : bool :=
  match s with
  | EmptyString => false
  | String a s' => bool_decide (a = c) || contains_byte s' c
  end.

Fixpoint str_forallb (f : ascii -> bool) (s : string) : bool :=
  match s with EmptyString => true | String a s' => f a && str_forallb f s' end.

Fixpoint str_map (f : ascii -> ascii) (s : string) : string :=
  match s with EmptyString => "" | String a s' => String (f a) (str_map f s') end.

(** ASCII case folding: [strings.ToLower] on the ASCII strings it is applied to here. *)
Definition lower_byte (a : ascii) : ascii :=
  if (65 <=? bz a) && (bz a <=? 90) then zb (bz a + 32) else a.

Definition to_lower (s : string) : string := str_map lower_byte s.

(** [strings.TrimSpace] removes the UTF-8 encodings of the White_Space code points from both
    ends.  No such encoding is a suffix of another one's bytes that starts a rune, so trimming the
    right end is trimming the reversed string by the reversed encodings. *)
Definition bytes (l : list Z) : string := String.string_of_list_ascii (map zb l).

Definition spaces : list string :=
  map bytes ([[9]; [10]; [11]; [12]; [13]; [32]; [0xC2; 0x85]; [0xC2; 0xA0]; [0xE1; 0x9A; 0x80]]
    ++ map (fun z => [0xE2; 0x80; z])
         [0x80; 0x81; 0x82; 0x83; 0x84; 0x85; 0x86; 0x87; 0x88; 0x89; 0x8A; 0xA8; 0xA9; 0xAF]
    ++ [[0xE2; 0x81; 0x9F]; [0xE3; 0x80; 0x80]]).

Fixpoint trim_left_with (pats : list string) (fuel : nat) (s : string) : string :=
  match fuel with
  | O => s
  | S fuel' =>
      match find (fun p => has_prefix s p) pats with
      | Some p => trim_left_with pats fuel' (str_drop (String.length p) s)
      | None => s
      end
  end.

Definition str_rev (s : string) : string :=
  String.string_of_list_ascii (rev (String.list_ascii_of_string s)).

Definition trim_space (s : string) : string :=
  let l := trim_left_with spaces (String.length s) s in
  str_rev (trim_left_with (map str_rev spaces) (String.length l) (str_rev l)).

(** [strings.TrimSpace(s) == ""], the test every validation rule makes. *)
Definition blank (s : string) : bool := bool_decide (trim_space s = "").

(** [s == strings.TrimSpace(s)]. *)
Definition trimmed (s : string) : bool := bool_decide (s = trim_space s).

Example trim_space_ex1 : trim_space "  a b
 " = "a b".
Proof. vm_compute. reflexivity. Qed.
Example trim_space_ex2 : trim_space (bytes [0xE3; 0x80; 0x80; 97; 0xC2; 0xA0]) = "a".
Proof. vm_compute. reflexivity. Qed.
Example trim_space_ex3 : trim_space (bytes [0xA0; 97; 0x85]) = bytes [0xA0; 97; 0x85].
Proof. vm_compute. reflexivity. Qed.

(** *** What trimming removes *)

(** The bytes of the encodings of white space. *)
Definition space_byte (a : ascii) : bool :=
  ((9 <=? bz a) && (bz a <=? 13)) || (bz a =? 32) || (128 <=? bz a).

Lemma str_forallb_app_iff f a b :
  str_forallb f (a +:+ b) = true <-> str_forallb f a = true /\ str_forallb f b = true.
Proof.
  induction a as [|x a IH]; [by split; [|intros []]|]. rewrite string_app_cons. simpl.
  rewrite !andb_true_iff, IH. tauto.
Qed.

Lemma cut_no_byte u c t : contains_byte u c = false -> cut (u +:+ String c t) c = Some (u, t).
Proof.
  induction u as [|a u IH]; simpl; [by rewrite bool_decide_eq_true_2|].
  intros [Ha Hu]%orb_false_iff. rewrite Ha. by rewrite IH.
Qed.

Lemma has_prefix_drop s p : has_prefix s p = true -> s = p +:+ str_drop (String.length p) s.
Proof. intros [r ->]%has_prefix_spec. by rewrite str_drop_app_length. Qed.

Lemma trim_left_with_bytes f pats fuel s :
  Forall (fun p => str_forallb f p = true) pats ->
  exists pre, s = pre +:+ trim_left_with pats fuel s /\ str_forallb f pre = true.
Proof.
  intros Hp. revert s. induction fuel as [|fuel IH]; intros s; simpl; [by exists ""|].
  destruct (List.find (fun p => has_prefix s p) pats) as [p|] eqn:Hf; [|by exists ""].
  apply find_some in Hf as [Hin Hpre]. apply has_prefix_drop in Hpre.
  destruct (IH (str_drop (String.length p) s)) as (pre & Hs & Hb).
  exists (p +:+ pre). rewrite <- string_app_assoc, <- Hs. split; [done|].
  apply str_forallb_app_iff. split; [|done]. rewrite Forall_forall in Hp. by apply Hp, list_elem_of_In.
Qed.

Lemma str_rev_forallb f s : str_forallb f (str_rev s) = str_forallb f s.
Proof.
  unfold str_rev. assert (H : forall l, str_forallb f (String.string_of_list_ascii l) = forallb f l).
  { induction l as [|x l IH]; [done|]. simpl. by rewrite IH. }
  rewrite H. rewrite <- (String.string_of_list_ascii_of_string s) at 2. rewrite H.
  apply eq_true_iff_eq. rewrite !forallb_forall. by setoid_rewrite <- in_rev.
Qed.

Lemma str_rev_length s : String.length (str_rev s) = String.length s.
Proof.
  unfold str_rev. assert (H : forall l, String.length (String.string_of_list_ascii l) = length l).
  { induction l as [|x l IH]; simpl; [done|by rewrite IH]. }
  rewrite H, length_rev, <- H. by rewrite String.string_of_list_ascii_of_string.
Qed.

Lemma spaces_bytes : forallb (str_forallb space_byte) spaces = true.
Proof. vm_compute. reflexivity. Qed.

(** A blank string holds nothing but bytes of white space. *)
Lemma blank_bytes s : blank s = true -> str_forallb space_byte s = true.
Proof.
  unfold blank, trim_space. rewrite bool_decide_eq_true. intros H.
  destruct (trim_left_with_bytes space_byte spaces (String.length s) s) as (pre & Hs & Hp).
  { apply Forall_forall. intros p Hq. pose proof spaces_bytes as Hb. rewrite forallb_forall in Hb.
    by apply Hb, list_elem_of_In. }
  set (l := trim_left_with spaces (String.length s) s) in *.
  destruct (trim_left_with_bytes space_byte (map str_rev spaces) (String.length l) (str_rev l)) as (pre' & Hl & Hp').
  { apply Forall_forall. intros p (q & <- & Hq)%list_elem_of_In%in_map_iff. rewrite str_rev_forallb.
    pose proof spaces_bytes as Hb. rewrite forallb_forall in Hb. by apply Hb. }
  assert (He : trim_left_with (map str_rev spaces) (String.length l) (str_rev l) = "").
  { apply (f_equal String.length) in H. apply string_length_zero. rewrite <- str_rev_length. exact H. }
  rewrite He, string_app_nil_r in Hl. rewrite Hs, str_forallb_app_iff. split; [done|].
  by rewrite <- str_rev_forallb, Hl.
Qed.

(** ** UTF-8 *)

Definition rune_error : Z := 0xFFFD.

Definition in_range (lo hi z : Z) : bool := (lo <=? z) && (z <=? hi).

(** What a lead byte announces: the sequence's length and the range of its second byte. *)
Definition lead_info (b : Z) : option (nat * Z * Z) :=
  if in_range 0xC2 0xDF b then Some (2%nat, 0x80, 0xBF)
  else if b =? 0xE0 then Some (3%nat, 0xA0, 0xBF)
  else if b =? 0xED then Some (3%nat, 0x80, 0x9F)
  else if in_range 0xE1 0xEF b then Some (3%nat, 0x80, 0xBF)
  else if b =? 0xF0 then Some (4%nat, 0x90, 0xBF)
  else if in_range 0xF1 0xF3 b then Some (4%nat, 0x80, 0xBF)
  else if b =? 0xF4 then Some (4%nat, 0x80, 0x8F)
  else None.

Definition cont (a : ascii) : bool := in_range 0x80 0xBF (bz a).

Definition tail6 (a : ascii) : Z := Z.land (bz a) 0x3F.

(** [utf8.DecodeRuneInString]: the rune and how many bytes it took. *)
Definition decode_rune (s : string) : Z * nat :=
  match s with
  | EmptyString => (rune_error, 0%nat)
  | String a s1 =>
      let b0 := bz a in
      if b0 <? 0x80 then (b0, 1%nat)
      else match lead_info b0, s1 with
      | Some (2%nat, lo, hi), String a1 _ =>
          if in_range lo hi (bz a1)
          then (Z.lor (Z.shiftl (Z.land b0 0x1F) 6) (tail6 a1), 2%nat) else (rune_error, 1%nat)
      | Some (3%nat, lo, hi), String a1 (String a2 _) =>
          if in_range lo hi (bz a1) && cont a2
          then (Z.lor (Z.shiftl (Z.land b0 0x0F) 12) (Z.lor (Z.shiftl (tail6 a1) 6) (tail6 a2)), 3%nat)
          else (rune_error, 1%nat)
      | Some (4%nat, lo, hi), String a1 (String a2 (String a3 _)) =>
          if in_range lo hi (bz a1) && cont a2 && cont a3
          then (Z.lor (Z.shiftl (Z.land b0 0x07) 18)
                 (Z.lor (Z.shiftl (tail6 a1) 12) (Z.lor (Z.shiftl (tail6 a2) 6) (tail6 a3))), 4%nat)
          else (rune_error, 1%nat)
      | _, _ => (rune_error, 1%nat)
      end
  end.

(** The sequence of runes a [for ... DecodeRuneInString] loop visits, each with its bytes. *)
Fixpoint chunks (fuel : nat) (s : string) : list (Z * string) :=
  match fuel with
  | O => []
  | S fuel' =>
      match s with
      | EmptyString => []
      | _ => let (r, k) := decode_rune s in (r, str_take k s) :: chunks fuel' (str_drop k s)
      end
  end.

Definition runes (s : string) : list (Z * string) := chunks (String.length s) s.

(** A byte that is not valid UTF-8: [r == utf8.RuneError && size == 1]. *)
Definition invalid_chunk (c : Z * string) : bool :=
  (fst c =? rune_error) && (String.length (snd c) =? 1)%nat.

(** [utf8.ValidString]. *)
Definition valid_string (s : string) : bool := forallb (fun c => negb (invalid_chunk c)) (runes s).

(** [utf8.RuneCountInString]. *)
Definition rune_count (s : string) : Z := Z.of_nat (length (runes s)).

(** [utf8.RuneStart]. *)
Definition rune_start (a : ascii) : bool := negb (Z.land (bz a) 0xC0 =? 0x80).

(** ** Digits *)

Definition hex_digit (upper : bool) (d : Z) : ascii :=
  zb (if d <? 10 then 48 + d else (if upper then 55 else 87) + d).

(** [hex.EncodeToString]. *)
Fixpoint hex_encode (s : string) : string :=
  match s with
  | EmptyString => ""
  | String a s' =>
      String (hex_digit false (bz a / 16)) (String (hex_digit false (bz a mod 16)) (hex_encode s'))
  end.

(** [%0NX]: at least [width] upper-case hexadecimal digits. *)
Fixpoint hex_digits (fuel : nat) (z : Z) (acc : string) : string :=
  match fuel with
  | O => acc
  | S fuel' => if z =? 0 then acc else hex_digits fuel' (z / 16) (String (hex_digit true (z mod 16)) acc)
  end.

Definition pad_left (width : nat) (s : string) : string :=
  String.string_of_list_ascii (repeat "0"%char (width - String.length s)) +:+ s.

Definition fmt_hex (width : nat) (z : Z) : string := pad_left width (hex_digits 16 z "").

Example fmt_hex_ex : fmt_hex 4 0x202E = "202E" /\ fmt_hex 4 0x7 = "0007" /\ fmt_hex 4 0xE0001 = "E0001".
Proof. vm_compute. done. Qed.
