(* ===== verification/Utf8.v ===== *)
(** * Facts about UTF-8 decoding

    The decoding loop of [GoStrings] visits every byte once, does not depend on its fuel, and
    reads a self-delimiting chunk the same way whatever follows it. *)
From Stdlib Require Import ZArith Lia Ascii.
From stdpp Require Import base strings list.
From S2P Require Import Prelude.
From S2P Require Import GoStrings.

(** A chunk [decode_rune] reads whole and accepts. *)
Definition self_delimiting (r : Z) (c : string) : Prop :=
  c <> "" /\ decode_rune c = (r, String.length c) /\ invalid_chunk (r, c) = false.

(** The concatenation of the bytes of a list of chunks. *)
Definition flatten (l : list (Z * string)) : string := foldr (fun c acc => snd c +:+ acc) "" l.

Lemma str_take_drop k s : str_take k s +:+ str_drop k s = s.
Proof.
  revert s. induction k as [|k IH]; intros [|a s]; try done.
  simpl. by rewrite string_app_cons, IH.
Qed.

Lemma str_drop_length k s : String.length (str_drop k s) = (String.length s - k)%nat.
Proof. revert s. induction k as [|k IH]; intros [|a s]; simpl; auto. Qed.

Lemma str_take_length k s : String.length (str_take k s) = Nat.min k (String.length s).
Proof. revert s. induction k as [|k IH]; intros [|a s]; simpl; auto. Qed.

Lemma str_take_app a b : str_take (String.length a) (a +:+ b) = a.
Proof. induction a as [|x a IH]; [done|]. rewrite string_app_cons. simpl. by rewrite IH. Qed.

Lemma str_drop_app a b : str_drop (String.length a) (a +:+ b) = b.
Proof. induction a as [|x a IH]; [done|]. by rewrite string_app_cons. Qed.

Lemma decode_rune_size s :
  s <> "" -> (1 <= snd (decode_rune s) <= String.length s)%nat.
Proof.
  destruct s as [|a s]; [done|]. intros _. unfold decode_rune.
  repeat case_match; simpl in *; subst; simpl; lia.
Qed.

Lemma decode_rune_ascii a s : bz a < 0x80 -> decode_rune (String a s) = (bz a, 1%nat).
Proof. intros H. simpl. by rewrite (proj2 (Z.ltb_lt _ _) H). Qed.

Lemma decode_rune_app r c rest :
  self_delimiting r c -> decode_rune (c +:+ rest) = (r, String.length c).
Proof.
  intros (Hne & Hd & Hinv). revert Hd Hinv.
  destruct c as [|a0 [|a1 [|a2 [|a3 c]]]]; [done| | | |];
    rewrite !string_app_cons; unfold decode_rune, invalid_chunk;
    repeat case_match; simpl in *; intros; simplify_eq; try done; congruence.
Qed.

Lemma chunks_fuel n m s :
  (String.length s <= n)%nat -> (String.length s <= m)%nat -> chunks n s = chunks m s.
Proof.
  revert m s. induction n as [|n IH]; intros m s Hn Hm.
  { rewrite (string_length_zero s) by lia. by destruct m. }
  destruct s as [|a s]; [by destruct m|]. destruct m as [|m]; [simpl in Hm; lia|].
  cbn [chunks]. pose proof (decode_rune_size (String a s) ltac:(done)) as Hk.
  destruct (decode_rune (String a s)) as [r k]. simpl in Hk, Hn, Hm.
  f_equal. apply IH; rewrite str_drop_length; simpl; lia.
Qed.

Lemma runes_nil : runes "" = [].
Proof. reflexivity. Qed.

Lemma runes_step s r k :
  s <> "" -> decode_rune s = (r, k) -> runes s = (r, str_take k s) :: runes (str_drop k s).
Proof.
  intros Hs Hd. unfold runes. destruct s as [|a s]; [done|].
  pose proof (decode_rune_size (String a s) Hs) as Hk. rewrite Hd in Hk. simpl in Hk.
  cbn [String.length chunks]. rewrite Hd. f_equal.
  apply chunks_fuel; rewrite str_drop_length; simpl; lia.
Qed.

Lemma runes_cons r c rest : self_delimiting r c -> runes (c +:+ rest) = (r, c) :: runes rest.
Proof.
  intros Hc. pose proof (decode_rune_app r c rest Hc) as Hd. destruct Hc as (Hne & _).
  rewrite (runes_step (c +:+ rest) r (String.length c)); [| |done].
  - by rewrite str_take_app, str_drop_app.
  - destruct c; [done|]. by rewrite string_app_cons.
Qed.

Lemma self_delimiting_ascii a : bz a < 0x80 -> self_delimiting (bz a) (String a "").
Proof.
  intros H. split_and!; [done|by apply decode_rune_ascii|].
  unfold invalid_chunk, rune_error. simpl. rewrite andb_false_iff. left.
  apply Z.eqb_neq. lia.
Qed.

Lemma runes_ascii a s : bz a < 0x80 -> runes (String a s) = (bz a, String a "") :: runes s.
Proof. intros H. by apply (runes_cons (bz a) (String a "") s), self_delimiting_ascii. Qed.

(** Strong induction on the decoding of a string. *)
Lemma runes_ind (P : string -> Prop) :
  P "" ->
  (forall s r k, s <> "" -> decode_rune s = (r, k) -> P (str_drop k s) -> P s) ->
  forall s, P s.
Proof.
  intros H0 HS s. remember (String.length s) as n eqn:Hn. revert s Hn.
  induction (lt_wf n) as [n _ IH]. intros s ->.
  destruct (decide (s = "")) as [->|Hs]; [done|].
  destruct (decode_rune s) as [r k] eqn:Hd. apply (HS s r k Hs Hd).
  pose proof (decode_rune_size s Hs) as Hk. rewrite Hd in Hk. simpl in Hk.
  eapply IH; [|done]. rewrite str_drop_length. lia.
Qed.

Lemma flatten_runes s : flatten (runes s) = s.
Proof.
  induction s as [|s r k Hs Hd IH] using runes_ind; [done|].
  rewrite (runes_step s r k Hs Hd). simpl. by rewrite IH, str_take_drop.
Qed.

Lemma decode_rune_take s r k :
  s <> "" -> decode_rune s = (r, k) -> invalid_chunk (r, str_take k s) = false ->
  self_delimiting r (str_take k s).
Proof.
  intros Hs Hd Hinv. pose proof (decode_rune_size s Hs) as Hk. rewrite Hd in Hk. simpl in Hk.
  assert (Hl : String.length (str_take k s) = k) by (rewrite str_take_length; lia).
  split_and!; [intros He; rewrite He in Hl; simpl in Hl; lia| |done].
  assert (Hk1 : k = 1%nat -> r <> rune_error).
  { intros -> ->. unfold invalid_chunk in Hinv. cbn [fst snd] in Hinv. by rewrite Hl in Hinv. }
  rewrite Hl. clear Hinv Hk Hl Hs.
  destruct s as [|a0 s]; simpl in Hd; [by simplify_eq|].
  destruct (bz a0 <? 128) eqn:H0; [injection Hd as <- <-; simpl; by rewrite H0|].
  destruct (lead_info (bz a0)) as [[[n lo] hi]|] eqn:H1; [|naive_solver].
  destruct n as [|[|[|[|[|n]]]]]; try naive_solver;
    destruct s as [|a1 [|a2 [|a3 s]]]; try naive_solver;
    match type of Hd with (if ?b then _ else _) = _ => destruct b eqn:H2 end; try naive_solver;
    injection Hd as <- <-; simpl; by rewrite H0, H1, H2.
Qed.

(** Every chunk of a string that is not an invalid byte is self-delimiting. *)
Lemma runes_self_delimiting s r c :
  (r, c) ∈ runes s -> invalid_chunk (r, c) = false -> self_delimiting r c.
Proof.
  induction s as [|s r' k Hs Hd IH] using runes_ind; [by intros ?%elem_of_nil|].
  rewrite (runes_step s r' k Hs Hd). intros [[= -> ->]|Hin]%elem_of_cons Hinv; [|by apply IH].
  by apply decode_rune_take.
Qed.

(** Decoding the concatenation of self-delimiting chunks gives the chunks back. *)
Lemma runes_flatten l :
  Forall (fun c => self_delimiting (fst c) (snd c)) l -> runes (flatten l) = l.
Proof.
  induction 1 as [|[r c] l Hc _ IH]; [done|]. simpl.
  rewrite (runes_cons r c) by done. by rewrite IH.
Qed.

Lemma runes_flatten_app l rest :
  Forall (fun c => self_delimiting (fst c) (snd c)) l -> runes (flatten l +:+ rest) = l ++ runes rest.
Proof.
  induction 1 as [|[r c] l Hc _ IH]; [done|]. simpl.
  rewrite <- string_app_assoc, (runes_cons r c) by done. by rewrite IH.
Qed.

Lemma flatten_app l1 l2 : flatten (l1 ++ l2) = flatten l1 +:+ flatten l2.
Proof.
  induction l1 as [|c l1 IH]; [done|]. simpl. by rewrite IH, string_app_assoc.
Qed.

Lemma valid_string_runes s :
  valid_string s = true <-> Forall (fun c => self_delimiting (fst c) (snd c)) (runes s).
Proof.
  unfold valid_string. rewrite forallb_True_iff || rewrite forallb_forall. split.
  - intros H. apply Forall_forall. intros [r c] Hin. apply runes_self_delimiting with s; [done|].
    specialize (H (r, c)). rewrite <- list_elem_of_In, negb_true_iff in H. by apply H.
  - rewrite Forall_forall. intros H [r c] Hin%list_elem_of_In. rewrite negb_true_iff.
    by destruct (H _ Hin) as (_ & _ & ?).
Qed.
