(* ===== verification/Spaces.v ===== *)
(** * White space that trimming removes

    A string with no white-space code point is what [strings.TrimSpace] leaves it; a chunk that starts
    a rune is decoded the same after any text. *)
From Stdlib Require Import ZArith Lia Ascii.
From stdpp Require Import base strings list.
From S2P Require Import Prelude.
From S2P Require Import GoStrings.
From S2P Require Import Utf8.

(** [unicode.IsSpace], as the code points whose encodings [strings.TrimSpace] removes. *)
Definition space_rune (r : Z) : bool := existsb (fun p => match runes p with [(s, _)] => s =? r | _ => false end) spaces.

(** [strings.IndexFunc(s, unicode.IsSpace) >= 0]. *)
Definition containsSpace (s : string) : bool := existsb (fun c => space_rune (fst c)) (runes s).

Definition starts_rune (s : string) : bool :=
  match s with EmptyString => true | String a _ => (bz a <? 0x80) || (0xc0 <=? bz a) end.

Lemma lead_info_second b n lo hi a : lead_info b = Some (n, lo, hi) -> (bz a <? 0x80) || (0xc0 <=? bz a) = true ->
  in_range lo hi (bz a) = false /\ cont a = false.
Proof.
  intros Hl Ha. assert (0x80 <= lo /\ hi <= 0xbf) as [Hlo Hhi].
  { revert Hl. unfold lead_info. repeat (case_match; [by intros [= _ <- <-]|]). done. }
  unfold cont, in_range. apply orb_true_iff in Ha as [Ha%Z.ltb_lt|Ha%Z.leb_le]; split; apply andb_false_iff.
  - left. apply Z.leb_gt. lia.
  - left. apply Z.leb_gt. lia.
  - right. apply Z.leb_gt. lia.
  - right. apply Z.leb_gt. lia.
Qed.

Lemma decode_rune_start s b : s <> "" -> starts_rune b = true -> decode_rune (s +:+ b) = decode_rune s.
Proof.
  intros Hs Hb. destruct b as [|b0 b]; [by rewrite string_app_nil_r|]. cbn [starts_rune] in Hb.
  destruct s as [|a0 s]; [done|]. rewrite string_app_cons. cbn [decode_rune]. destruct (bz a0 <? 0x80); [done|].
  destruct (lead_info (bz a0)) as [[[n lo] hi]|] eqn:Hl; [|done]. destruct (lead_info_second _ _ _ _ _ Hl Hb) as [H1 H2].
  destruct n as [|[|[|[|[|n]]]]]; try done; destruct s as [|a1 [|a2 [|a3 s]]]; rewrite ?string_app_nil_l, ?string_app_cons, ?string_app_nil_l; try done;
    destruct b as [|b1 [|b2 b]]; rewrite ?string_app_cons, ?string_app_nil_l, ?H1, ?H2, ?andb_false_r; try done.
Qed.

Lemma runes_app_start s b : starts_rune b = true -> runes (s +:+ b) = runes s ++ runes b.
Proof.
  intros Hb. induction s as [|s r k Hs Hd IH] using runes_ind; [done|].
  pose proof (decode_rune_size s Hs) as Hk. rewrite Hd in Hk. cbn [snd] in Hk.
  assert (Happ : s +:+ b = str_take k s +:+ (str_drop k s +:+ b)) by (by rewrite string_app_assoc, str_take_drop).
  assert (Hlen : String.length (str_take k s) = k) by (rewrite str_take_length; lia).
  rewrite (runes_step s r k Hs Hd), (runes_step (s +:+ b) r k).
  - assert (Ht : str_take k (s +:+ b) = str_take k s).
    { rewrite Happ. pose proof (str_take_app (str_take k s) (str_drop k s +:+ b)) as H. by rewrite Hlen in H. }
    assert (Hdr : str_drop k (s +:+ b) = str_drop k s +:+ b).
    { rewrite Happ. pose proof (str_drop_app (str_take k s) (str_drop k s +:+ b)) as H. by rewrite Hlen in H. }
    by rewrite Ht, Hdr, IH.
  - destruct s; [done|]. by rewrite string_app_cons.
  - by rewrite decode_rune_start.
Qed.

(** ** Reversal *)

Lemma list_ascii_app a b : String.list_ascii_of_string (a +:+ b) = String.list_ascii_of_string a ++ String.list_ascii_of_string b.
Proof. induction a as [|x a IH]; [done|]. rewrite string_app_cons. cbn. by rewrite IH. Qed.

Lemma string_of_list_app l1 l2 : String.string_of_list_ascii (l1 ++ l2) = String.string_of_list_ascii l1 +:+ String.string_of_list_ascii l2.
Proof. induction l1 as [|x l IH]; [done|]. cbn. by rewrite IH, string_app_cons. Qed.

Lemma str_rev_app a b : str_rev (a +:+ b) = str_rev b +:+ str_rev a.
Proof. unfold str_rev. by rewrite list_ascii_app, rev_app_distr, string_of_list_app. Qed.

Lemma str_rev_involutive a : str_rev (str_rev a) = a.
Proof.
  unfold str_rev. rewrite String.list_ascii_of_string_of_list_ascii, rev_involutive. apply String.string_of_list_ascii_of_string.
Qed.

(** ** Trimming *)

Definition space_encoding (p : string) : bool :=
  starts_rune p && match runes p with [(r, c)] => bool_decide (c = p) && space_rune r && negb (bool_decide (p = "")) && negb (invalid_chunk (r, c)) | _ => false end.

Lemma space_encodings : forallb space_encoding spaces = true.
Proof. vm_compute. done. Qed.

Lemma space_runes p : p ∈ spaces -> exists r, runes p = [(r, p)] /\ space_rune r = true /\ starts_rune p = true /\ self_delimiting r p.
Proof.
  intros Hp. pose proof space_encodings as H. rewrite forallb_forall in H. apply list_elem_of_In, H in Hp. unfold space_encoding in Hp.
  apply andb_true_iff in Hp as [Hs Hp]. destruct (runes p) as [|[r c] [|]] eqn:Hr; try done. rewrite !andb_true_iff in Hp.
  destruct Hp as [[[->%bool_decide_eq_true Hsp] _] Hinv%negb_true_iff]. exists r. split_and!; try done.
  apply (runes_self_delimiting p); [rewrite Hr; apply list_elem_of_here|done].
Qed.

Lemma trim_left_none pats fuel s : (forall p, p ∈ pats -> has_prefix s p = false) -> trim_left_with pats fuel s = s.
Proof.
  intros H. destruct fuel as [|fuel]; [done|]. cbn. destruct (find _ pats) as [p|] eqn:Hf; [|done].
  apply find_some in Hf as [Hin Hp]. apply list_elem_of_In in Hin. by rewrite H in Hp.
Qed.

Lemma trim_space_id s : containsSpace s = false -> trim_space s = s.
Proof.
  intros Hs. assert (Hno : forall r c, (r, c) ∈ runes s -> space_rune r = false).
  { intros r c Hin. apply not_true_is_false. intros Hr. unfold containsSpace in Hs. apply not_true_iff_false in Hs. apply Hs.
    apply existsb_elem. by exists (r, c). }
  assert (Hleft : forall p, p ∈ spaces -> has_prefix s p = false).
  { intros p Hp. apply not_true_is_false. intros [rest ->]%has_prefix_spec. destruct (space_runes p Hp) as (r & _ & Hr & _ & Hd).
    rewrite (runes_cons r p rest Hd) in Hno. specialize (Hno r p (list_elem_of_here _ _)). congruence. }
  unfold trim_space. rewrite (trim_left_none spaces _ _ Hleft). cbv zeta. rewrite trim_left_none; [apply str_rev_involutive|].
  intros q Hq. apply list_elem_of_fmap in Hq as (p & -> & Hp). apply not_true_is_false. intros [rest Hr]%has_prefix_spec.
  apply (f_equal str_rev) in Hr. rewrite str_rev_involutive, str_rev_app, str_rev_involutive in Hr. subst s.
  destruct (space_runes p Hp) as (r & Hrp & Hsp & Hst & _). rewrite (runes_app_start _ _ Hst), Hrp in Hno.
  specialize (Hno r p). rewrite Hno in Hsp; [done|]. apply elem_of_app. right. apply list_elem_of_here.
Qed.
