(* ===== verification/Visible.v ===== *)
(** * Untrusted text made visible ([internal/visible])

    [Hides], [Hidden] and [Escape] of [visible.go].  The Unicode category tables of Go's [unicode]
    package are a parameter ([UnicodeTables]): the code consults them above U+007E only.
    The theorem is the one the package exists for: what [Escape] returns hides nothing. *)
From Stdlib Require Import ZArith Lia Ascii.
From stdpp Require Import base strings list.
From S2P Require Import Prelude.
From S2P Require Import GoStrings.
From S2P Require Import Utf8.

(** The membership tests [Hides] makes of Go's Unicode tables. *)
Class UnicodeTables := {
  is_graphic : Z -> bool;                 (* unicode.IsGraphic *)
  in_Co : Z -> bool;                      (* unicode.Co *)
  in_Zs : Z -> bool;                      (* unicode.Zs *)
  in_Variation_Selector : Z -> bool;
  in_Other_Default_Ignorable : Z -> bool
}.

Section visible.
Context `{UT : UnicodeTables}.

Definition Hides (r : Z) : bool :=
  if r =? 0x20 then false
  else if (r <? 0x20) || (r =? 0x7f) then true
  else if r <? 0x7f then false
  else if negb (is_graphic r) || in_Co r then true
  else if in_Zs r then true
  else if in_Variation_Selector r || in_Other_Default_Ignorable r then true
  else false.

(** The test [Hidden] and [Escape] share: a chunk that would be rewritten. *)
Definition hidden_chunk (c : Z * string) : bool := invalid_chunk c || Hides (fst c).

Definition Hidden (s : string) : Z :=
  foldl (fun n c => if hidden_chunk c then n + 1 else n) 0 (runes s).

(** One step of [Escape]'s loop. *)
Definition escape_chunk (c : Z * string) : string :=
  if invalid_chunk c then
    "\x{" +:+ match snd c with String a _ => fmt_hex 2 (bz a) | EmptyString => "" end +:+ "}"
  else if Hides (fst c) then "\u{" +:+ fmt_hex 4 (fst c) +:+ "}"
  else snd c.

Definition Escape (s : string) : string :=
  if Hidden s =? 0 then s
  else foldl (fun b c => b +:+ escape_chunk c) "" (runes s).

(** ** A string with nothing hidden *)

Definition clean (s : string) : Prop :=
  Forall (fun c => self_delimiting (fst c) (snd c) /\ Hides (fst c) = false) (runes s).

Lemma Hidden_foldl l n :
  foldl (fun n c => if hidden_chunk c then n + 1 else n) n l
  = n + Z.of_nat (length (filter (fun c => hidden_chunk c = true) l)).
Proof.
  revert n. induction l as [|c l IH]; intros n; cbn [foldl]; [simpl; lia|].
  rewrite IH, filter_cons. case_decide as Hc.
  - rewrite Hc. simpl. lia.
  - rewrite (not_true_is_false _ Hc). lia.
Qed.

Lemma Hidden_zero_clean s : Hidden s = 0 <-> clean s.
Proof.
  unfold Hidden, clean. rewrite Hidden_foldl, Forall_forall. split.
  - intros H [r c] Hin. simpl.
    assert (Hc : hidden_chunk (r, c) = false).
    { destruct (hidden_chunk (r, c)) eqn:Hc; [|done]. exfalso.
      assert (Hf : (r, c) ∈ filter (fun c => hidden_chunk c = true) (runes s))
        by by apply list_elem_of_filter.
      destruct (filter (fun c => hidden_chunk c = true) (runes s)) as [|x l];
        [by apply elem_of_nil in Hf|simpl in H; lia]. }
    apply orb_false_iff in Hc as [Hi Hh]. split; [|done].
    by apply runes_self_delimiting with s.
  - intros H. assert (Hf : filter (fun c => hidden_chunk c = true) (runes s) = []); [|by rewrite Hf].
    destruct (filter (fun c => hidden_chunk c = true) (runes s)) as [|x l] eqn:Hf; [done|].
    exfalso. assert (Hx : x ∈ x :: l) by apply list_elem_of_here.
    rewrite <- Hf, list_elem_of_filter in Hx. destruct Hx as [Hx Hin].
    destruct (H x Hin) as [(_ & _ & Hi) Hh]. unfold hidden_chunk in Hx.
    destruct x as [r c]. simpl in *. by rewrite Hi, Hh in Hx.
Qed.

Lemma clean_valid s : clean s -> valid_string s = true.
Proof. rewrite valid_string_runes. intros H. eapply Forall_impl; [exact H|]. by intros ? []. Qed.

Lemma clean_app a b : clean a -> clean b -> clean (a +:+ b).
Proof.
  unfold clean. intros Ha Hb. rewrite <- (flatten_runes a), runes_flatten_app.
  - by apply Forall_app.
  - eapply Forall_impl; [exact Ha|]. by intros ? [].
Qed.

Lemma clean_chunk r c : self_delimiting r c -> Hides r = false -> clean c.
Proof.
  intros Hc Hr. unfold clean. rewrite <- (string_app_nil_r c), (runes_cons r c "") by done.
  apply Forall_cons. split; [done|apply Forall_nil_2].
Qed.

Lemma clean_nil : clean "".
Proof. apply Forall_nil_2. Qed.

(** ** Printable ASCII is clean *)

Definition printable (a : ascii) : bool := in_range 0x20 0x7e (bz a).

Lemma Hides_printable a : printable a = true -> Hides (bz a) = false.
Proof.
  unfold printable, in_range, Hides. rewrite andb_true_iff, !Z.leb_le. intros [H1 H2].
  destruct (Z.eqb_spec (bz a) 0x20) as [|Hn]; [done|].
  rewrite (proj2 (Z.ltb_ge _ _)), (proj2 (Z.eqb_neq (bz a) 0x7f)), (proj2 (Z.ltb_lt _ _)) by lia.
  done.
Qed.

Lemma clean_printable s : str_forallb printable s = true -> clean s.
Proof.
  induction s as [|a s IH]; simpl; [intros; apply clean_nil|].
  intros [Ha Hs]%andb_true_iff. apply (clean_app (String a "") s); [|auto].
  apply (clean_chunk (bz a)); [|by apply Hides_printable].
  apply self_delimiting_ascii. unfold printable, in_range in Ha.
  rewrite andb_true_iff, !Z.leb_le in Ha. lia.
Qed.

Lemma str_forallb_app f a b : str_forallb f (a +:+ b) = str_forallb f a && str_forallb f b.
Proof.
  induction a as [|x a IH]; [done|]. rewrite string_app_cons. simpl. by rewrite IH, andb_assoc.
Qed.

Lemma printable_hex_digit d : 0 <= d < 16 -> printable (hex_digit true d) = true.
Proof.
  intros Hd. assert (H : forallb (fun d => printable (hex_digit true (Z.of_nat d))) (seq 0 16) = true)
    by by vm_compute.
  rewrite forallb_forall in H. specialize (H (Z.to_nat d)). rewrite Z2Nat.id in H by lia.
  apply H, in_seq. lia.
Qed.

Lemma printable_hex_digits fuel z acc :
  0 <= z -> str_forallb printable acc = true -> str_forallb printable (hex_digits fuel z acc) = true.
Proof.
  revert z acc. induction fuel as [|fuel IH]; intros z acc Hz Ha; simpl; [done|].
  case_match; [done|]. apply IH; [by apply Z.div_pos|]. simpl. rewrite Ha, andb_true_r.
  apply printable_hex_digit. by apply Z.mod_pos_bound.
Qed.

Lemma printable_fmt_hex w z : 0 <= z -> str_forallb printable (fmt_hex w z) = true.
Proof.
  intros Hz. unfold fmt_hex, pad_left. rewrite str_forallb_app, printable_hex_digits, andb_true_r by done.
  generalize (w - String.length (hex_digits 16 z ""))%nat as n. induction n as [|n IH]; [done|].
  simpl. by rewrite IH.
Qed.

Lemma decode_rune_nonneg s : 0 <= fst (decode_rune s).
Proof.
  destruct s as [|a s]; simpl; [done|]. pose proof (bz_range a).
  repeat case_match; simpl; try done; try lia;
    repeat (apply Z.lor_nonneg; split); try apply Z.shiftl_nonneg; apply Z.land_nonneg; right; done.
Qed.

Lemma runes_nonneg s r c : (r, c) ∈ runes s -> 0 <= r.
Proof.
  induction s as [|s r' k Hs Hd IH] using runes_ind; [by intros ?%elem_of_nil|].
  rewrite (runes_step s r' k Hs Hd). intros [[= -> ->]|Hin]%elem_of_cons; [|by apply IH].
  pose proof (decode_rune_nonneg s) as H. by rewrite Hd in H.
Qed.

Lemma clean_escape_chunk s c : c ∈ runes s -> clean (escape_chunk c).
Proof.
  destruct c as [r c]. intros Hin. unfold escape_chunk. simpl. case_match eqn:Hi.
  { apply clean_printable. rewrite !str_forallb_app. destruct c as [|a c]; [done|].
    rewrite printable_fmt_hex; [done|apply bz_range]. }
  case_match eqn:Hh.
  - apply clean_printable. rewrite !str_forallb_app, printable_fmt_hex; [done|].
    by apply runes_nonneg with s c.
  - apply clean_chunk with r; [|done]. by apply runes_self_delimiting with s.
Qed.

Lemma clean_foldl_escape l b :
  clean b -> Forall (fun c => clean (escape_chunk c)) l ->
  clean (foldl (fun b c => b +:+ escape_chunk c) b l).
Proof.
  intros Hb Hl. revert b Hb. induction Hl as [|c l Hc _ IH]; intros b Hb; simpl; [done|].
  apply IH. by apply clean_app.
Qed.

Lemma Escape_clean s : clean (Escape s).
Proof.
  unfold Escape. case_match eqn:H.
  - by apply Hidden_zero_clean, Z.eqb_eq.
  - apply clean_foldl_escape; [apply clean_nil|]. apply Forall_forall.
    intros c Hc. by apply clean_escape_chunk with s.
Qed.

Lemma Escape_id s : Hidden s = 0 -> Escape s = s.
Proof. unfold Escape. by intros ->. Qed.
End visible.
