(* ===== verification/GoTime.v ===== *)
(** * Go's [time.Time], and its RFC 3339 text form

    A [time] is an instant (nanoseconds since 0001-01-01T00:00:00Z, the zero time) and the offset
    of its location in seconds east of UTC.  The parts of package [time] the gateway uses:
    [IsZero], [UTC], [Truncate], [Add], [Sub], [Before], [After], and [Format]/[Parse] at the
    layout [time.RFC3339Nano].  The theorem is that parsing a formatted time gives it back. *)
From Stdlib Require Import ZArith Lia Ascii.
From stdpp Require Import base strings list.
From S2P Require Import Prelude.
From S2P Require Import GoStrings.
From S2P Require Import Utf8.

Record time := Time { inst : Z; zone : Z }.

#[global] Instance time_eq_dec : EqDecision time.
Proof. solve_decision. Defined.

(** [time.Duration], in nanoseconds. *)
Definition nanosecond : Z := 1.
Definition second : Z := 1000000000.
Definition minute : Z := 60 * second.
Definition hour : Z := 60 * minute.

Definition zero_time : time := Time 0 0.

Definition IsZero (t : time) : bool := inst t =? 0.

Definition UTC (t : time) : time := Time (inst t) 0.

(** [Truncate] works on the time since the zero time; a duration <= 0 leaves [t] as it is. *)
Definition Truncate (t : time) (d : Z) : time :=
  if d <=? 0 then t else Time (inst t - inst t mod d) (zone t).

Definition Add (t : time) (d : Z) : time := Time (inst t + d) (zone t).

(** [Sub] saturates at the largest and smallest [time.Duration]. *)
Definition Sub (t u : time) : Z := Z.max (- 2 ^ 63) (Z.min (2 ^ 63 - 1) (inst t - inst u)).

Definition Before (t u : time) : bool := inst t <? inst u.
Definition After (t u : time) : bool := inst u <? inst t.

(** ** The calendar *)

Definition leap (y : Z) : bool := (y mod 4 =? 0) && (negb (y mod 100 =? 0) || (y mod 400 =? 0)).

Definition days_in (m y : Z) : Z :=
  if m =? 2 then (if leap y then 29 else 28)
  else if (m =? 4) || (m =? 6) || (m =? 9) || (m =? 11) then 30 else 31.

(** Days since 0000-03-01 of a date of the proleptic Gregorian calendar, and back. *)
Definition days_of_civil (y m d : Z) : Z :=
  let y' := if m <=? 2 then y - 1 else y in
  let doy := (153 * (if m <=? 2 then m + 9 else m - 3) + 2) / 5 + d - 1 in
  y' / 400 * 146097 + (y' mod 400 * 365 + y' mod 400 / 4 - y' mod 400 / 100 + doy).

(** The date of day [doe] (0 to 146096) of the 400-year era [era]. *)
Definition civil_of_era (era doe : Z) : Z * Z * Z :=
  let yoe := (doe - doe / 1460 + doe / 36524 - doe / 146096) / 365 in
  let doy := doe - (365 * yoe + yoe / 4 - yoe / 100) in
  let mp := (5 * doy + 2) / 153 in
  let d := doy - (153 * mp + 2) / 5 + 1 in
  let m := if mp <? 10 then mp + 3 else mp - 9 in
  (yoe + era * 400 + (if m <=? 2 then 1 else 0), m, d).

Definition civil_of_days (z : Z) : Z * Z * Z := civil_of_era (z / 146097) (z mod 146097).

(** The zero time is day 306 of that count. *)
Definition epoch_days : Z := 306.

(** The year of an era and the day of that year (both from March) of day [doe]. *)
Definition era_year (doe : Z) : Z := (doe - doe / 1460 + doe / 36524 - doe / 146096) / 365.
Definition era_day (doe : Z) : Z :=
  doe - (365 * era_year doe + era_year doe / 4 - era_year doe / 100).

Lemma era_year_bounds doe : 0 <= doe < 146097 -> 0 <= era_year doe <= 399.
Proof. unfold era_year. lia. Qed.

Lemma era_day_bounds doe : 0 <= doe < 146097 -> 0 <= era_day doe <= 365.
Proof.
  intros H. unfold era_day, era_year.
  assert (Hc : doe / 36524 = 0 \/ doe / 36524 = 1 \/ doe / 36524 = 2 \/ doe / 36524 = 3
    \/ doe / 36524 = 4) by lia.
  destruct Hc as [Hc|[Hc|[Hc|[Hc|Hc]]]]; rewrite Hc; lia.
Qed.

(** The 366th day of a year from March exists in leap years only. *)
Lemma era_day_leap doe : 0 <= doe < 146097 -> era_day doe = 365 -> leap (era_year doe + 1) = true.
Proof.
  intros H Hd. unfold leap. rewrite andb_true_iff, orb_true_iff, negb_true_iff, Z.eqb_neq, !Z.eqb_eq.
  unfold era_day, era_year in *.
  assert (Hc : doe / 36524 = 0 \/ doe / 36524 = 1 \/ doe / 36524 = 2 \/ doe / 36524 = 3
    \/ doe / 36524 = 4) by lia.
  destruct Hc as [Hc|[Hc|[Hc|[Hc|Hc]]]]; rewrite Hc in *; lia.
Qed.

(** Evaluate the closed conditions of the goal's conditionals. *)
Ltac eval_ifs :=
  repeat match goal with
  | |- context [if ?b then _ else _] =>
      let v := eval vm_compute in b in
      lazymatch v with
      | true => change b with true
      | false => change b with false
      end; cbv iota
  end.

Lemma era_month_cases (P : Z -> Prop) mp :
  0 <= mp <= 11 -> P 0 -> P 1 -> P 2 -> P 3 -> P 4 -> P 5 -> P 6 -> P 7 -> P 8 -> P 9 -> P 10 -> P 11 ->
  P mp.
Proof.
  intros H. intros. assert (mp = 0 \/ mp = 1 \/ mp = 2 \/ mp = 3 \/ mp = 4 \/ mp = 5 \/ mp = 6 \/ mp = 7
    \/ mp = 8 \/ mp = 9 \/ mp = 10 \/ mp = 11) as Hm by lia.
  repeat (destruct Hm as [->|Hm]; [done|]). by subst.
Qed.

(** Within an era, the civil date of a day is a date of the calendar and counts back. *)
Lemma civil_of_era_spec doe y m d :
  0 <= doe < 146097 -> civil_of_era 0 doe = (y, m, d) ->
  days_of_civil y m d = doe /\ 1 <= m <= 12 /\ 1 <= d <= days_in m y.
Proof.
  intros H. unfold civil_of_era. cbv zeta. fold (era_year doe). fold (era_day doe).
  pose proof (era_year_bounds doe H) as Hy. pose proof (era_day_bounds doe H) as Hd.
  pose proof (era_day_leap doe H) as Hl.
  assert (He : doe = 365 * era_year doe + era_year doe / 4 - era_year doe / 100 + era_day doe)
    by (unfold era_day; lia).
  revert He Hl Hd Hy. generalize (era_year doe) as yoe, (era_day doe) as doy.
  intros yoe doy He Hl Hd Hy. set (mp := (5 * doy + 2) / 153).
  assert (Hmp : 0 <= mp <= 11 /\ mp * 153 <= 5 * doy + 2 < mp * 153 + 153) by (subst mp; lia).
  clearbody mp. destruct Hmp as [Hm12 Hmp]. revert Hmp. pattern mp.
  apply era_month_cases; [done|..]; intros Hmp [= <- <- <-]; unfold days_of_civil, days_in; cbv zeta;
    eval_ifs; rewrite ?Z.add_0_r; try (destruct (leap _) eqn:Hleap; cbv beta iota); split_and!; try lia;
    try (exfalso; assert (false = true) by (apply Hl; lia); done).
Qed.

Lemma leap_period y k : leap (y + k * 400) = leap y.
Proof.
  unfold leap.
  replace ((y + k * 400) mod 4) with (y mod 4)
    by (replace (k * 400) with ((k * 100) * 4) by lia; by rewrite Z_mod_plus_full).
  replace ((y + k * 400) mod 100) with (y mod 100)
    by (replace (k * 400) with ((k * 4) * 100) by lia; by rewrite Z_mod_plus_full).
  by rewrite Z_mod_plus_full.
Qed.

Lemma days_of_civil_period y m d k :
  days_of_civil (y + k * 400) m d = days_of_civil y m d + k * 146097.
Proof.
  unfold days_of_civil. cbv zeta.
  replace (if m <=? 2 then y + k * 400 - 1 else y + k * 400)
    with ((if m <=? 2 then y - 1 else y) + k * 400) by (case_match; lia).
  rewrite Z.div_add, Z_mod_plus_full by lia. lia.
Qed.

Lemma civil_of_era_period era doe :
  civil_of_era era doe
  = let '(y, m, d) := civil_of_era 0 doe in (y + era * 400, m, d).
Proof. unfold civil_of_era. cbv zeta. f_equal. f_equal. lia. Qed.

(** The civil date of a day is a date of the calendar, and counts back to that day. *)
Lemma civil_of_days_spec z y m d :
  civil_of_days z = (y, m, d) ->
  days_of_civil y m d = z /\ 1 <= m <= 12 /\ 1 <= d <= days_in m y.
Proof.
  unfold civil_of_days. rewrite civil_of_era_period.
  pose proof (civil_of_era_spec (z mod 146097)) as H.
  destruct (civil_of_era 0 (z mod 146097)) as [[y0 m0] d0].
  specialize (H y0 m0 d0 (Z.mod_pos_bound z 146097 eq_refl) eq_refl). intros [= <- <- <-].
  rewrite days_of_civil_period. unfold days_in in *. rewrite leap_period.
  pose proof (Z_div_mod_eq_full z 146097). split_and!; lia.
Qed.

(** ** Digits *)

Definition digit (d : Z) : ascii := zb (48 + d).

Definition is_digit (a : ascii) : bool := in_range 48 57 (bz a).

(** The [w] low decimal digits of [z]. *)
Fixpoint fixed (w : nat) (z : Z) : string :=
  match w with O => "" | S w' => fixed w' (z / 10) +:+ String (digit (z mod 10)) "" end.

(** All the decimal digits of [z >= 0]. *)
Fixpoint dec_digits (fuel : nat) (z : Z) (acc : string) : string :=
  match fuel with
  | O => acc
  | S fuel' =>
      if z <? 10 then String (digit z) acc
      else dec_digits fuel' (z / 10) (String (digit (z mod 10)) acc)
  end.

Definition dec (z : Z) : string := if z <? 0 then "-" +:+ dec_digits 40 (- z) "" else dec_digits 40 z "".

(** [time]'s [appendInt]: [z] in decimal, zero-padded to [w] digits. *)
Definition append_int (w : nat) (z : Z) : string :=
  if in_range 0 (10 ^ Z.of_nat w - 1) z then fixed w z else dec z.

Fixpoint uint (acc : Z) (s : string) : Z :=
  match s with EmptyString => acc | String a s' => uint (acc * 10 + (bz a - 48)) s' end.

(** ** Formatting *)

Definition year_of (t : time) : Z :=
  let '(y, _, _) := civil_of_days ((inst t / second + zone t) / 86400 + epoch_days) in y.

Fixpoint trim_zeros (s : string) : string :=
  match s with
  | EmptyString => ""
  | String a s' =>
      match trim_zeros s' with
      | EmptyString => if bool_decide (a = "0"%char) then "" else String a ""
      | t => String a t
      end
  end.

Definition format_frac (ns : Z) : string := if ns =? 0 then "" else "." +:+ trim_zeros (fixed 9 ns).

Definition format_zone (z : Z) : string :=
  if z =? 0 then "Z"
  else
    let mins := Z.quot z 60 in
    (if mins <? 0 then "-" else "+")
      +:+ append_int 2 (Z.abs mins / 60) +:+ ":" +:+ append_int 2 (Z.abs mins mod 60).

Definition format_clock (sod : Z) : string :=
  append_int 2 (sod / 3600) +:+ ":" +:+ append_int 2 (sod / 60 mod 60) +:+ ":" +:+ append_int 2 (sod mod 60).

(** [t.Format(time.RFC3339Nano)]. *)
Definition format_time (t : time) : string :=
  let secs := inst t / second + zone t in
  let '(y, m, d) := civil_of_days (secs / 86400 + epoch_days) in
  append_int 4 y +:+ "-" +:+ append_int 2 m +:+ "-" +:+ append_int 2 d +:+ "T"
    +:+ format_clock (secs mod 86400)
    +:+ format_frac (inst t mod second) +:+ format_zone (zone t).

(** ** Parsing: package [time]'s RFC 3339 parser ([parseRFC3339]) *)

Definition take_uint (n : nat) (lo hi : Z) (s : string) : option (Z * string) :=
  let ds := str_take n s in
  if (String.length ds =? n)%nat && str_forallb is_digit ds && in_range lo hi (uint 0 ds)
  then Some (uint 0 ds, str_drop n s) else None.

Definition take_byte (c : ascii) (s : string) : option string :=
  match s with
  | String a s' => if bool_decide (a = c) then Some s' else None
  | EmptyString => None
  end.

Fixpoint span_digits (s : string) : string * string :=
  match s with
  | String a s' => if is_digit a then let (d, r) := span_digits s' in (String a d, r) else ("", s)
  | EmptyString => ("", "")
  end.

Definition take_frac (s : string) : Z * string :=
  match s with
  | String "."%char s' =>
      match span_digits s' with
      | (EmptyString, _) => (0, s)
      | (ds, rest) => (uint 0 (str_take 9 (ds +:+ "000000000")), rest)
      end
  | _ => (0, s)
  end.

Definition take_zone (s : string) : option Z :=
  match s with
  | String "Z"%char EmptyString => Some 0
  | String c s1 =>
      match take_uint 2 0 23 s1 with
      | Some (hr, s2) =>
          match take_byte ":" s2 with
          | Some s3 =>
              match take_uint 2 0 59 s3 with
              | Some (mm, EmptyString) =>
                  let off := (hr * 60 + mm) * 60 in
                  if bool_decide (c = "-"%char) then Some (- off)
                  else if bool_decide (c = "+"%char) then Some off else None
              | _ => None
              end
          | None => None
          end
      | None => None
      end
  | EmptyString => None
  end.

Notation "'let?' ' pat := c 'in' k" := (match c with Some pat => k | None => None end)
  (at level 10, pat pattern, c at level 100, k at level 200) : gatte_scope.

Definition parse_date (s : string) : option (Z * string) :=
  let? '(y, s) := take_uint 4 0 9999 s in let? 's := take_byte "-" s in
  let? '(m, s) := take_uint 2 1 12 s in let? 's := take_byte "-" s in
  let? '(d, s) := take_uint 2 1 (days_in m y) s in Some (days_of_civil y m d, s).

Definition parse_clock (s : string) : option (Z * string) :=
  let? '(h, s) := take_uint 2 0 23 s in let? 's := take_byte ":" s in
  let? '(mi, s) := take_uint 2 0 59 s in let? 's := take_byte ":" s in
  let? '(se, s) := take_uint 2 0 59 s in Some (h * 3600 + mi * 60 + se, s).

Definition parse_rfc3339 (s : string) : option time :=
  let? '(days, s) := parse_date s in let? 's := take_byte "T" s in
  let? '(sod, s) := parse_clock s in
  let (ns, s) := take_frac s in
  let? 'off := take_zone s in
  Some (Time (((days - epoch_days) * 86400 + sod - off) * second + ns) off).

(** *** The general layout parser ([time.parse]), for the layouts the gateway names

    It is more lenient than the RFC 3339 one: an hour of one digit, a comma before the fraction, and
    offsets of up to 24 hours and 60 minutes. *)

(** [getnum(s, false)]. *)
Definition take_hour (s : string) : option (Z * string) :=
  match take_uint 2 0 99 s with
  | Some (h, rest) => if h <=? 23 then Some (h, rest) else None
  | None => take_uint 1 0 9 s
  end.

Definition lax_clock (s : string) : option (Z * string) :=
  let? '(h, s) := take_hour s in let? 's := take_byte ":" s in
  let? '(mi, s) := take_uint 2 0 59 s in let? 's := take_byte ":" s in
  let? '(se, s) := take_uint 2 0 59 s in Some (h * 3600 + mi * 60 + se, s).

Definition lax_frac (s : string) : Z * string :=
  match s with
  | String ","%char s' =>
      match span_digits s' with
      | (EmptyString, _) => (0, s)
      | (ds, rest) => (uint 0 (str_take 9 (ds +:+ "000000000")), rest)
      end
  | _ => take_frac s
  end.

Definition lax_zone (s : string) : option Z :=
  match s with
  | String "Z"%char EmptyString => Some 0
  | String c s1 =>
      match take_uint 2 0 24 s1 with
      | Some (hr, s2) =>
          match take_byte ":" s2 with
          | Some s3 =>
              match take_uint 2 0 60 s3 with
              | Some (mm, EmptyString) =>
                  let off := (hr * 60 + mm) * 60 in
                  if bool_decide (c = "-"%char) then Some (- off)
                  else if bool_decide (c = "+"%char) then Some off else None
              | _ => None
              end
          | None => None
          end
      | None => None
      end
  | EmptyString => None
  end.

Definition parse_lax (s : string) : option time :=
  let? '(days, s) := parse_date s in let? 's := take_byte "T" s in
  let? '(sod, s) := lax_clock s in
  let (ns, s) := lax_frac s in
  let? 'off := lax_zone s in
  Some (Time (((days - epoch_days) * 86400 + sod - off) * second + ns) off).

(** [time.Parse(time.RFC3339Nano, s)]: the fast parser, then the general one. *)
Definition parse_time (s : string) : option time :=
  match parse_rfc3339 s with Some t => Some t | None => parse_lax s end.

(** The layout [2006-01-02T15:04:05.000000000Z]: a fraction of exactly nine digits (an [atoi], which
    takes a sign in the first place), then a literal Z, and no offset: the time is in UTC. *)
Definition take_nanos (s : string) : option (Z * string) :=
  match s with
  | String c s' =>
      if bool_decide (c = "."%char) || bool_decide (c = ","%char) then
        match take_uint 9 0 999999999 s' with
        | Some r => Some r
        | None =>
            match s' with
            | String "+"%char s'' => take_uint 8 0 99999999 s''
            | String "-"%char s'' => take_uint 8 0 0 s''
            | _ => None
            end
        end
      else None
  | EmptyString => None
  end.

Definition parse_fixed (s : string) : option time :=
  let? '(days, s) := parse_date s in let? 's := take_byte "T" s in
  let? '(sod, s) := lax_clock s in
  let? '(ns, s) := take_nanos s in
  let? 's := take_byte "Z" s in
  if bool_decide (s = "") then Some (Time (((days - epoch_days) * 86400 + sod) * second + ns) 0) else None.

(** [t.Format] at that layout, for a [t] in UTC. *)
Definition format_fixed (t : time) : string :=
  let secs := inst t / second + zone t in
  let '(y, m, d) := civil_of_days (secs / 86400 + epoch_days) in
  append_int 4 y +:+ "-" +:+ append_int 2 m +:+ "-" +:+ append_int 2 d +:+ "T"
    +:+ format_clock (secs mod 86400) +:+ "." +:+ append_int 9 (inst t mod second) +:+ "Z".

(** ** The round trip *)

(** The times the text form represents exactly: a four-digit year and a whole-minute offset
    of less than a day. *)
Definition formattable (t : time) : Prop :=
  0 <= year_of t <= 9999 /\ zone t mod 60 = 0 /\ Z.abs (zone t) < 86400.

Example format_time_ex :
  format_time (Time (63893739845 * second + 120000000) (-10800)) = "2025-09-17T18:04:05.12-03:00".
Proof. vm_compute. reflexivity. Qed.
Example parse_time_ex :
  parse_time "2025-09-17T18:04:05.12-03:00" = Some (Time (63893739845 * second + 120000000) (-10800)).
Proof. vm_compute. reflexivity. Qed.

Lemma bz_digit d : 0 <= d < 10 -> bz (digit d) = 48 + d.
Proof. intros H. unfold digit. rewrite bz_zb, Z.mod_small; lia. Qed.

Lemma is_digit_digit d : 0 <= d < 10 -> is_digit (digit d) = true.
Proof.
  intros H. unfold is_digit, in_range. rewrite bz_digit, andb_true_iff, !Z.leb_le by done. lia.
Qed.

Lemma forallb_app_string f a b : str_forallb f (a +:+ b) = str_forallb f a && str_forallb f b.
Proof.
  induction a as [|x a IH]; [done|]. rewrite string_app_cons. simpl. by rewrite IH, andb_assoc.
Qed.

Lemma fixed_length w z : String.length (fixed w z) = w.
Proof. revert z. induction w as [|w IH]; intros z; simpl; [done|]. rewrite string_length_app, IH. simpl. lia. Qed.

Lemma fixed_digits w z : str_forallb is_digit (fixed w z) = true.
Proof.
  revert z. induction w as [|w IH]; intros z; simpl; [done|].
  rewrite forallb_app_string, IH. simpl. rewrite is_digit_digit by (apply Z.mod_pos_bound; lia). done.
Qed.

Lemma uint_app acc a b : uint acc (a +:+ b) = uint (uint acc a) b.
Proof. revert acc. induction a as [|x a IH]; intros acc; [done|]. rewrite string_app_cons. apply IH. Qed.

Lemma uint_fixed w z : 0 <= z < 10 ^ Z.of_nat w -> uint 0 (fixed w z) = z.
Proof.
  revert z. induction w as [|w IH]; intros z Hz.
  { change (10 ^ Z.of_nat 0) with 1 in Hz. simpl. lia. }
  rewrite Nat2Z.inj_succ, Z.pow_succ_r in Hz by lia. cbn [fixed].
  rewrite uint_app, IH by lia. cbn [uint]. rewrite bz_digit by lia. lia.
Qed.

Lemma append_int_fixed w z : 0 <= z < 10 ^ Z.of_nat w -> append_int w z = fixed w z.
Proof.
  intros H. unfold append_int, in_range.
  rewrite (proj2 (Z.leb_le _ _)), (proj2 (Z.leb_le _ _)) by lia. done.
Qed.

Lemma take_uint_append w lo hi z rest :
  0 <= z < 10 ^ Z.of_nat w -> lo <= z <= hi ->
  take_uint w lo hi (append_int w z +:+ rest) = Some (z, rest).
Proof.
  intros Hz Hr. rewrite append_int_fixed by done. unfold take_uint. cbv zeta.
  pose proof (str_take_app (fixed w z) rest) as Ht. rewrite fixed_length in Ht. rewrite Ht.
  pose proof (str_drop_app (fixed w z) rest) as Hd. rewrite fixed_length in Hd. rewrite Hd.
  rewrite fixed_length, Nat.eqb_refl, fixed_digits, uint_fixed by done. unfold in_range.
  by rewrite (proj2 (Z.leb_le _ _)), (proj2 (Z.leb_le _ _)) by lia.
Qed.

Lemma take_byte_cons c rest : take_byte c (String c rest) = Some rest.
Proof. simpl. by rewrite bool_decide_true. Qed.

(** *** The fraction *)

Lemma trim_zeros_spec s : exists k,
  trim_zeros s +:+ String.string_of_list_ascii (repeat "0"%char k) = s.
Proof.
  induction s as [|a s [k IH]]; [by exists 0%nat|]. cbn [trim_zeros].
  destruct (trim_zeros s) as [|b t] eqn:Ht.
  - rewrite string_app_nil_l in IH. case_bool_decide; subst.
    + by exists (S k).
    + exists k. by rewrite string_app_cons.
  - exists k. rewrite string_app_cons. by rewrite IH.
Qed.

Lemma trim_zeros_digits s : str_forallb is_digit s = true -> str_forallb is_digit (trim_zeros s) = true.
Proof.
  intros H. destruct (trim_zeros_spec s) as [k Hk]. rewrite <- Hk, forallb_app_string in H.
  by apply andb_true_iff in H as [? _].
Qed.

Lemma span_digits_app d rest :
  str_forallb is_digit d = true ->
  (forall a r, rest = String a r -> is_digit a = false) ->
  span_digits (d +:+ rest) = (d, rest).
Proof.
  intros Hd Hr. induction d as [|a d IH].
  - rewrite string_app_nil_l. destruct rest as [|a r]; simpl; [done|]. by rewrite (Hr a r eq_refl).
  - rewrite string_app_cons. simpl in *. apply andb_true_iff in Hd as [-> Hd]. by rewrite IH.
Qed.

Lemma uint_zeros acc k : uint acc (String.string_of_list_ascii (repeat "0"%char k)) = acc * 10 ^ Z.of_nat k.
Proof.
  revert acc. induction k as [|k IH]; intros acc; [simpl; lia|].
  rewrite Nat2Z.inj_succ, Z.pow_succ_r by lia. simpl. rewrite IH. change (bz "0") with 48. nia.
Qed.

Lemma zeros_length k : String.length (String.string_of_list_ascii (repeat "0"%char k)) = k.
Proof. induction k as [|k IH]; simpl; auto. Qed.

Lemma zeros_split k m : (k <= m)%nat ->
  String.string_of_list_ascii (repeat "0"%char m)
  = String.string_of_list_ascii (repeat "0"%char k) +:+ String.string_of_list_ascii (repeat "0"%char (m - k)).
Proof.
  revert m. induction k as [|k IH]; intros m Hm; [by rewrite Nat.sub_0_r|].
  destruct m as [|m]; [lia|]. simpl. rewrite string_app_cons, <- IH by lia. done.
Qed.

Lemma take_frac_format n rest :
  0 <= n < second -> (forall a r, rest = String a r -> is_digit a = false /\ a <> "."%char) ->
  take_frac (format_frac n +:+ rest) = (n, rest).
Proof.
  intros Hn Hr. unfold format_frac. destruct (Z.eqb_spec n 0) as [->|Hnz].
  { rewrite string_app_nil_l. destruct rest as [|a r]; [done|].
    destruct (Hr a r eq_refl) as [_ Ha]. unfold take_frac.
    repeat case_match; simplify_eq; done. }
  rewrite <- string_app_assoc, string_app_cons, string_app_nil_l. unfold take_frac.
  pose proof (fixed_digits 9 n) as Hd. pose proof (uint_fixed 9 n) as Hu.
  pose proof (fixed_length 9 n) as Hl. revert Hd Hu Hl. generalize (fixed 9 n) as f. intros f Hd Hu Hl.
  rewrite span_digits_app; [|by apply trim_zeros_digits|intros; by apply (Hr a r)].
  destruct (trim_zeros_spec f) as [k Hk].
  assert (Hkl : String.length (trim_zeros f) = (9 - k)%nat /\ (k <= 9)%nat).
  { rewrite <- Hk, string_length_app, zeros_length in Hl. lia. }
  destruct (trim_zeros f) as [|a t] eqn:Ht.
  { exfalso. rewrite string_app_nil_l in Hk. rewrite <- Hk, uint_zeros in Hu.
    change second with (10 ^ Z.of_nat 9) in Hn. specialize (Hu Hn). lia. }
  assert (Hz : (String a t +:+ "000000000") = f +:+ String.string_of_list_ascii (repeat "0"%char (9 - k))).
  { change "000000000" with (String.string_of_list_ascii (repeat "0"%char 9)).
    rewrite (zeros_split k 9), string_app_assoc, Hk by lia. done. }
  rewrite Hz. pose proof (str_take_app f) as Htk. rewrite Hl in Htk. rewrite Htk, Hu; [done|].
  change second with (10 ^ Z.of_nat 9) in Hn. done.
Qed.

(** *** The offset *)

Lemma take_zone_format z :
  z mod 60 = 0 -> Z.abs z < 86400 -> take_zone (format_zone z) = Some z.
Proof.
  intros Hm Ha. unfold format_zone. destruct (Z.eqb_spec z 0) as [->|Hz]; [done|]. cbv zeta.
  set (mins := Z.quot z 60). assert (Hq : z = mins * 60) by (subst mins; lia). clearbody mins. subst z.
  assert (Habs : Z.abs mins < 1440) by lia.
  assert (Hh : forall c, c = "-"%char \/ c = "+"%char ->
    take_zone (String c (append_int 2 (Z.abs mins / 60) +:+ ":" +:+ append_int 2 (Z.abs mins mod 60)))
    = Some (if bool_decide (c = "-"%char) then - (Z.abs mins * 60) else Z.abs mins * 60)).
  { intros c Hc. unfold take_zone.
    rewrite take_uint_append by (change (10 ^ Z.of_nat 2) with 100; lia).
    rewrite string_app_cons, string_app_nil_l, take_byte_cons.
    pose proof (take_uint_append 2 0 59 (Z.abs mins mod 60) "") as Hmm.
    rewrite string_app_nil_r in Hmm. rewrite Hmm by (change (10 ^ Z.of_nat 2) with 100; lia).
    replace ((Z.abs mins / 60 * 60 + Z.abs mins mod 60) * 60) with (Z.abs mins * 60) by lia.
    by destruct Hc as [-> | ->]. }
  destruct (Z.ltb_spec mins 0); rewrite string_app_cons, string_app_nil_l, Hh by auto; simpl; f_equal; lia.
Qed.

Lemma format_zone_head z a r : format_zone z = String a r -> is_digit a = false /\ a <> "."%char.
Proof.
  unfold format_zone. cbv zeta. repeat case_match; rewrite ?string_app_cons; intros [= <- _]; by vm_compute.
Qed.

(** Parsing a formatted time gives the time back. *)
Lemma parse_rfc3339_format_time t : formattable t -> parse_rfc3339 (format_time t) = Some t.
Proof.
  destruct t as [i z]. unfold formattable, year_of, format_time, parse_rfc3339. cbn [inst zone].
  intros (Hy & Hzm & Hza). set (secs := i / second + z) in *.
  destruct (civil_of_days (secs / 86400 + epoch_days)) as [[y m] d] eqn:Hc.
  apply civil_of_days_spec in Hc as (Hdays & Hm & Hd). cbv zeta.
  assert (Hd31 : 1 <= d <= 31) by (revert Hd; unfold days_in; repeat case_match; lia).
  unfold parse_date.
  rewrite take_uint_append by (change (10 ^ Z.of_nat 4) with 10000; lia).
  rewrite (string_app_cons "-"), string_app_nil_l, take_byte_cons.
  rewrite take_uint_append by (change (10 ^ Z.of_nat 2) with 100; lia).
  rewrite (string_app_cons "-"), string_app_nil_l, take_byte_cons.
  rewrite take_uint_append by (change (10 ^ Z.of_nat 2) with 100; lia).
  rewrite (string_app_cons "T"), string_app_nil_l, take_byte_cons.
  unfold parse_clock, format_clock. rewrite <- !string_app_assoc.
  assert (Hs : 0 <= secs mod 86400 < 86400) by lia.
  rewrite take_uint_append by (change (10 ^ Z.of_nat 2) with 100; lia).
  rewrite (string_app_cons ":"), string_app_nil_l, take_byte_cons.
  rewrite take_uint_append by (change (10 ^ Z.of_nat 2) with 100; lia).
  rewrite (string_app_cons ":"), string_app_nil_l, take_byte_cons.
  rewrite take_uint_append by (change (10 ^ Z.of_nat 2) with 100; lia).
  rewrite take_frac_format; [|unfold second; lia|apply format_zone_head].
  rewrite take_zone_format by done. f_equal. f_equal. rewrite Hdays. subst secs. unfold second. lia.
Qed.

Lemma parse_format_time t : formattable t -> parse_time (format_time t) = Some t.
Proof. intros H. unfold parse_time. by rewrite parse_rfc3339_format_time. Qed.

Lemma format_time_inj t u : formattable t -> formattable u -> format_time t = format_time u -> t = u.
Proof.
  intros Ht Hu H. apply (inj Some). rewrite <- (parse_format_time t), <- (parse_format_time u) by done.
  by rewrite H.
Qed.

(** ** Whole seconds in UTC: the layout [time.RFC3339] *)

Definition whole_seconds (t : time) : time := Time (inst t - inst t mod second) 0.
Definition format_seconds (t : time) : string := format_time (whole_seconds t).

(** A clock reading within the years the layout writes. *)
Definition clock_reading (t : time) : Prop := zone t = 0 /\ 0 <= year_of t <= 9999.

Lemma parse_format_seconds t : clock_reading t -> parse_time (format_seconds t) = Some (whole_seconds t).
Proof.
  intros [Hz Hy]. apply parse_format_time. unfold formattable, whole_seconds, year_of in *. cbn [inst zone].
  rewrite Hz in Hy. replace ((inst t - inst t mod second) / second) with (inst t / second) by (unfold second; lia).
  split; [done|]. done.
Qed.

(** ** The fixed-width layout: a round trip, and an order *)

(** A time in UTC with a four-digit year. *)
Definition utc_formattable (t : time) : Prop := zone t = 0 /\ 0 <= year_of t <= 9999.

Lemma take_hour_append h rest :
  0 <= h <= 23 -> take_hour (append_int 2 h +:+ rest) = Some (h, rest).
Proof.
  intros Hh. unfold take_hour. rewrite take_uint_append by (change (10 ^ Z.of_nat 2) with 100; lia).
  by rewrite (proj2 (Z.leb_le h 23)) by lia.
Qed.

Lemma parse_format_fixed t : utc_formattable t -> parse_fixed (format_fixed t) = Some t.
Proof.
  destruct t as [i z]. unfold utc_formattable, year_of, format_fixed, parse_fixed. cbn [inst zone].
  intros [-> Hy]. rewrite Z.add_0_r in *. set (secs := i / second) in *.
  destruct (civil_of_days (secs / 86400 + epoch_days)) as [[y m] d] eqn:Hc.
  apply civil_of_days_spec in Hc as (Hdays & Hm & Hd). cbv zeta.
  assert (Hd31 : 1 <= d <= 31) by (revert Hd; unfold days_in; repeat case_match; lia).
  unfold parse_date.
  rewrite take_uint_append by (change (10 ^ Z.of_nat 4) with 10000; lia).
  rewrite (string_app_cons "-"), string_app_nil_l, take_byte_cons.
  rewrite take_uint_append by (change (10 ^ Z.of_nat 2) with 100; lia).
  rewrite (string_app_cons "-"), string_app_nil_l, take_byte_cons.
  rewrite take_uint_append by (change (10 ^ Z.of_nat 2) with 100; lia).
  rewrite (string_app_cons "T"), string_app_nil_l, take_byte_cons.
  unfold lax_clock, format_clock. rewrite <- !string_app_assoc.
  assert (Hs : 0 <= secs mod 86400 < 86400) by lia.
  rewrite take_hour_append by lia.
  rewrite (string_app_cons ":"), string_app_nil_l, take_byte_cons.
  rewrite take_uint_append by (change (10 ^ Z.of_nat 2) with 100; lia).
  rewrite (string_app_cons ":"), string_app_nil_l, take_byte_cons.
  rewrite take_uint_append by (change (10 ^ Z.of_nat 2) with 100; lia).
  rewrite (string_app_cons "."), string_app_nil_l. unfold take_nanos. rewrite bool_decide_true by done.
  cbn [orb]. rewrite take_uint_append by (change (10 ^ Z.of_nat 9) with second; unfold second; lia).
  rewrite take_byte_cons. cbn. f_equal. f_equal. rewrite Hdays. subst secs. unfold second. lia.
Qed.

(** Byte order on a fixed-width prefix decides, and a tie passes on to what follows. *)
Lemma str_leb_fixed_app w x y a b :
  0 <= x < 10 ^ Z.of_nat w -> 0 <= y < 10 ^ Z.of_nat w ->
  str_leb (fixed w x +:+ a) (fixed w y +:+ b) = (x <? y) || ((x =? y) && str_leb a b).
Proof.
  revert x y a b. induction w as [|w IH]; intros x y a b Hx Hy.
  { change (10 ^ Z.of_nat 0) with 1 in *. replace x with 0 by lia. by replace y with 0 by lia. }
  rewrite Nat2Z.inj_succ, Z.pow_succ_r in Hx, Hy by lia. cbn [fixed].
  rewrite <- !string_app_assoc, IH by lia. rewrite !string_app_cons, !string_app_nil_l. cbn [str_leb].
  assert (Hc : (N_of_ascii (digit (x mod 10)) ?= N_of_ascii (digit (y mod 10)))%N = (x mod 10 ?= y mod 10)).
  { pose proof (bz_digit (x mod 10) ltac:(lia)) as H1. pose proof (bz_digit (y mod 10) ltac:(lia)) as H2.
    unfold bz in H1, H2. rewrite <- N2Z.inj_compare, H1, H2.
    destruct (Z.compare_spec (x mod 10) (y mod 10)), (Z.compare_spec (48 + x mod 10) (48 + y mod 10)); try done; lia. }
  rewrite Hc.
  destruct (Z.compare_spec (x mod 10) (y mod 10)), (Z.ltb_spec (x / 10) (y / 10)), (Z.eqb_spec (x / 10) (y / 10)),
    (Z.ltb_spec x y), (Z.eqb_spec x y); simpl; try done; lia.
Qed.

Lemma str_leb_app_same a x y : str_leb (a +:+ x) (a +:+ y) = str_leb x y.
Proof.
  induction a as [|c a IH]; [done|]. rewrite !string_app_cons. simpl. by rewrite N.compare_refl.
Qed.

(** Years from March: the days before one, and within one. *)
Definition year_start (y : Z) : Z := 365 * y + y / 4 - y / 100 + y / 400.

Lemma days_of_civil_alt y m d :
  days_of_civil y m d
  = if m <=? 2 then year_start (y - 1) + (153 * (m + 9) + 2) / 5 + d - 1
    else year_start y + (153 * (m - 3) + 2) / 5 + d - 1.
Proof. unfold days_of_civil, year_start. destruct (m <=? 2); lia. Qed.

Lemma year_start_mono a b : a <= b -> year_start a <= year_start b.
Proof. unfold year_start. lia. Qed.

Lemma year_start_lt a b : a < b -> year_start a + 365 <= year_start b.
Proof. unfold year_start. lia. Qed.

Lemma year_start_succ y : year_start (y + 1) = year_start y + (if leap (y + 1) then 366 else 365).
Proof.
  unfold year_start, leap.
  destruct (Z.eqb_spec ((y + 1) mod 4) 0), (Z.eqb_spec ((y + 1) mod 100) 0), (Z.eqb_spec ((y + 1) mod 400) 0);
    simpl; lia.
Qed.

Definition valid_date (y m d : Z) : Prop := 1 <= m <= 12 /\ 1 <= d <= days_in m y.

Ltac split_month m :=
  assert (m = 1 \/ m = 2 \/ m = 3 \/ m = 4 \/ m = 5 \/ m = 6 \/ m = 7 \/ m = 8 \/ m = 9 \/ m = 10
    \/ m = 11 \/ m = 12) as Hmonth by lia;
  repeat destruct Hmonth as [->|Hmonth]; try subst m.

(** The first day of a month, and how many it has. *)
Definition month_start (y m : Z) : Z := days_of_civil y m 1.

Lemma month_start_succ y m :
  1 <= m <= 11 -> month_start y (m + 1) = month_start y m + days_in m y.
Proof.
  intros Hm. unfold month_start. rewrite !days_of_civil_alt. unfold days_in.
  pose proof (year_start_succ (y - 1)) as Hy. replace (y - 1 + 1) with y in Hy by lia.
  destruct (leap y); split_month m; simpl; lia.
Qed.

Lemma month_start_year y : month_start (y + 1) 1 = month_start y 12 + days_in 12 y.
Proof. unfold month_start. rewrite !days_of_civil_alt. unfold days_in. simpl. replace (y + 1 - 1) with y by lia. lia. Qed.

Lemma month_start_next y m :
  1 <= m <= 12 -> month_start y m + days_in m y = month_start (if m =? 12 then y + 1 else y) (if m =? 12 then 1 else m + 1).
Proof.
  intros Hm. destruct (Z.eqb_spec m 12) as [->|]; [by rewrite month_start_year|].
  by rewrite month_start_succ by lia.
Qed.

Lemma month_start_mono y1 m1 y2 m2 :
  1 <= m1 <= 12 -> 1 <= m2 <= 12 -> y1 * 12 + m1 <= y2 * 12 + m2 -> month_start y1 m1 <= month_start y2 m2.
Proof.
  intros H1 H2 H. unfold month_start. rewrite !days_of_civil_alt.
  pose proof (year_start_lt y1 y2). pose proof (year_start_lt y1 (y2 - 1)).
  pose proof (year_start_lt (y1 - 1) y2). pose proof (year_start_lt (y1 - 1) (y2 - 1)).
  destruct (Z.leb_spec m1 2), (Z.leb_spec m2 2).
  - destruct (Z.eq_dec y1 y2) as [->|]; lia.
  - lia.
  - destruct (Z.eq_dec y1 (y2 - 1)) as [->|]; lia.
  - destruct (Z.eq_dec y1 y2) as [->|]; lia.
Qed.

Lemma days_of_civil_lex y1 m1 d1 y2 m2 d2 :
  valid_date y1 m1 d1 -> valid_date y2 m2 d2 ->
  y1 * 12 + m1 < y2 * 12 + m2 -> days_of_civil y1 m1 d1 < days_of_civil y2 m2 d2.
Proof.
  intros [H1 Hd1] [H2 Hd2] H.
  assert (E : forall y m d, days_of_civil y m d = month_start y m + d - 1).
  { intros. unfold month_start. rewrite !days_of_civil_alt. case_match; lia. }
  rewrite !E. pose proof (month_start_next y1 m1 H1) as Hn.
  assert (month_start (if m1 =? 12 then y1 + 1 else y1) (if m1 =? 12 then 1 else m1 + 1) <= month_start y2 m2).
  { apply month_start_mono; destruct (Z.eqb_spec m1 12); lia. }
  lia.
Qed.

(** The text order of two ends is their order in time. *)
Lemma str_leb_format_fixed t u :
  utc_formattable t -> utc_formattable u -> str_leb (format_fixed t) (format_fixed u) = (inst t <=? inst u).
Proof.
  destruct t as [i z], u as [i' z']. unfold utc_formattable, year_of, format_fixed, format_clock. cbn [inst zone].
  intros [-> Hy] [-> Hy']. rewrite !Z.add_0_r in *. cbv zeta.
  set (s := i / second) in *. set (s' := i' / second) in *.
  destruct (civil_of_days (s / 86400 + epoch_days)) as [[y m] d] eqn:Hc.
  destruct (civil_of_days (s' / 86400 + epoch_days)) as [[y' m'] d'] eqn:Hc'.
  apply civil_of_days_spec in Hc as (Hdays & Hv). apply civil_of_days_spec in Hc' as (Hdays' & Hv').
  assert (Hd31 : 1 <= d <= 31) by (revert Hv; unfold days_in; repeat case_match; lia).
  assert (Hd31' : 1 <= d' <= 31) by (revert Hv'; unfold days_in; repeat case_match; lia).
  pose proof (days_of_civil_lex y m d y' m' d' Hv Hv') as L1.
  pose proof (days_of_civil_lex y' m' d' y m d Hv' Hv) as L2.
  assert (L3 : y = y' -> m = m' -> days_of_civil y m d - d = days_of_civil y' m' d' - d').
  { intros <- <-. rewrite !days_of_civil_alt. case_match; lia. }
  destruct Hv as [Hm _], Hv' as [Hm' _]. rewrite Hdays, Hdays' in *.
  rewrite !(append_int_fixed 4), !(append_int_fixed 2), !(append_int_fixed 9) by
    (try change (10 ^ Z.of_nat 4) with 10000; try change (10 ^ Z.of_nat 2) with 100;
     try change (10 ^ Z.of_nat 9) with second; unfold second; lia).
  rewrite <- !string_app_assoc.
  repeat (rewrite str_leb_fixed_app by
    (try change (10 ^ Z.of_nat 4) with 10000; try change (10 ^ Z.of_nat 2) with 100;
     try change (10 ^ Z.of_nat 9) with second; unfold second; lia);
    rewrite ?str_leb_app_same).
  rewrite str_leb_refl, andb_true_r.
  assert (Hi : i = s * second + i mod second) by (subst s; unfold second; lia).
  assert (Hi' : i' = s' * second + i' mod second) by (subst s'; unfold second; lia).
  assert (Hn : 0 <= i mod second < second) by (unfold second; lia).
  assert (Hn' : 0 <= i' mod second < second) by (unfold second; lia).
  clear Hdays Hdays'. clearbody s s'.
  revert Hi Hi' Hn Hn'. generalize (i mod second) as n, (i' mod second) as n'. intros n n' -> -> Hn Hn'.
  apply eq_true_iff_eq.
  repeat first [rewrite orb_true_iff | rewrite andb_true_iff | rewrite Z.ltb_lt | rewrite Z.eqb_eq | rewrite Z.leb_le].
  unfold second in *.
  assert (Hs : s = s / 86400 * 86400 + (s mod 86400) / 3600 * 3600 + ((s mod 86400) / 60) mod 60 * 60 + (s mod 86400) mod 60) by lia.
  assert (Hs' : s' = s' / 86400 * 86400 + (s' mod 86400) / 3600 * 3600 + ((s' mod 86400) / 60) mod 60 * 60 + (s' mod 86400) mod 60) by lia.
  assert (Hb : 0 <= (s mod 86400) / 3600 < 24 /\ 0 <= ((s mod 86400) / 60) mod 60 < 60 /\ 0 <= (s mod 86400) mod 60 < 60) by lia.
  assert (Hb' : 0 <= (s' mod 86400) / 3600 < 24 /\ 0 <= ((s' mod 86400) / 60) mod 60 < 60 /\ 0 <= (s' mod 86400) mod 60 < 60) by lia.
  revert Hs Hs' Hb Hb' L1 L2 L3.
  generalize (s / 86400) as D, (s' / 86400) as D', ((s mod 86400) / 3600) as h, ((s' mod 86400) / 3600) as h',
    ((s mod 86400) / 60 mod 60) as k, ((s' mod 86400) / 60 mod 60) as k', ((s mod 86400) mod 60) as e,
    ((s' mod 86400) mod 60) as e'.
  intros D D' h h' k k' e e' -> -> Hb Hb' L1 L2 L3. lia.
Qed.
