(* ===== verification/Json.v ===== *)
(** * JSON texts, as [encoding/json] accepts them

    The grammar of the scanner behind [json.Valid] and [json.Unmarshal]: white space, strict
    numbers, strings with no raw control byte, nesting of at most 10000.  A parsed text keeps its
    numbers and strings as written. *)
From Stdlib Require Import ZArith Lia Ascii.
From stdpp Require Import base strings list.
From S2P Require Import Prelude.
From S2P Require Import GoStrings.
From S2P Require Import GoTime.

Inductive json :=
| JNull
| JBool (b : bool)
| JNum (text : string)
| JStr (text : string)          (* the bytes between the quotes, escapes as written *)
| JArr (items : list json)
| JObj (members : list (string * json)).

Definition is_space (a : ascii) : bool :=
  (bz a =? 32) || (bz a =? 9) || (bz a =? 10) || (bz a =? 13).

Fixpoint skip_space (s : string) : string :=
  match s with
  | String a s' => if is_space a then skip_space s' else s
  | EmptyString => ""
  end.

(** ** Scalars *)

Definition is_hex (a : ascii) : bool :=
  in_range 48 57 (bz a) || in_range 65 70 (bz a) || in_range 97 102 (bz a).

(** The rest of a string literal after its opening quote: its body and what follows the closing
    quote. *)
Fixpoint string_body (s : string) : option (string * string) :=
  match s with
  | EmptyString => None
  | String a s' =>
      if bz a =? 34 then Some ("", s')
      else if bz a <? 32 then None
      else if bz a =? 92 then
        match s' with
        | String c s'' =>
            if existsb (Z.eqb (bz c)) [98; 102; 110; 114; 116; 92; 47; 34] then
              match string_body s'' with
              | Some (b, rest) => Some (String a (String c b), rest)
              | None => None
              end
            else if bz c =? 117 then
              match s'' with
              | String h1 (String h2 (String h3 (String h4 s4))) =>
                  if is_hex h1 && is_hex h2 && is_hex h3 && is_hex h4 then
                    match string_body s4 with
                    | Some (b, rest) =>
                        Some (String a (String c (String h1 (String h2 (String h3 (String h4 b))))), rest)
                    | None => None
                    end
                  else None
              | _ => None
              end
            else None
        | EmptyString => None
        end
      else match string_body s' with
           | Some (b, rest) => Some (String a b, rest)
           | None => None
           end
  end.

(** The integer part: a zero alone, or digits that start with no zero. *)
Definition int_part (s : string) : option (string * string) :=
  match s with
  | String a s' =>
      if bz a =? 48 then Some (String a "", s')
      else match span_digits s with
           | (EmptyString, _) => None
           | r => Some r
           end
  | EmptyString => None
  end.

Definition frac_part (s : string) : option (string * string) :=
  match s with
  | String a s' =>
      if bz a =? 46 then
        match span_digits s' with
        | (EmptyString, _) => None
        | (ds, rest) => Some (String a ds, rest)
        end
      else Some ("", s)
  | EmptyString => Some ("", "")
  end.

Definition exp_part (s : string) : option (string * string) :=
  match s with
  | String a s' =>
      if (bz a =? 101) || (bz a =? 69) then
        let (sign, s1) := match s' with
          | String c s1 => if (bz c =? 43) || (bz c =? 45) then (String c "", s1) else ("", s')
          | EmptyString => ("", s') end in
        match span_digits s1 with
        | (EmptyString, _) => None
        | (ds, rest) => Some (String a sign +:+ ds, rest)
        end
      else Some ("", s)
  | EmptyString => Some ("", "")
  end.

Definition number (s : string) : option (string * string) :=
  let (sign, s0) := match s with
    | String a s' => if bz a =? 45 then (String a "", s') else ("", s)
    | EmptyString => ("", s) end in
  let? '(i, s1) := int_part s0 in
  let? '(f, s2) := frac_part s1 in
  let? '(e, s3) := exp_part s2 in
  Some (sign +:+ i +:+ f +:+ e, s3).

Definition literal (s : string) : option (json * string) :=
  match cut_prefix s "null" with
  | Some r => Some (JNull, r)
  | None => match cut_prefix s "true" with
            | Some r => Some (JBool true, r)
            | None => match cut_prefix s "false" with
                      | Some r => Some (JBool false, r)
                      | None => let? '(n, r) := number s in Some (JNum n, r)
                      end
            end
  end.

(** ** Values

    [fuel] bounds the recursion by the text's length; [depth] is what is left of the nesting
    limit. *)

Section values.
Context {J : Type}.
Variable value : nat -> string -> option (J * string).

(** The rest of an array after an element: [,] and another, or the end. *)
Fixpoint elements (fuel : nat) (depth : nat) (acc : list J) (s : string) : option (list J * string) :=
  match fuel with
  | O => None
  | S fuel' =>
      let? '(v, s1) := value depth s in
      match skip_space s1 with
      | String a s2 =>
          if bz a =? 44 then elements fuel' depth (acc ++ [v]) s2
          else if bz a =? 93 then Some (acc ++ [v], s2) else None
      | EmptyString => None
      end
  end.

Fixpoint members (fuel : nat) (depth : nat) (acc : list (string * J)) (s : string) :
    option (list (string * J) * string) :=
  match fuel with
  | O => None
  | S fuel' =>
      match skip_space s with
      | String q s1 =>
          if bz q =? 34 then
            let? '(k, s2) := string_body s1 in
            match skip_space s2 with
            | String c s3 =>
                if bz c =? 58 then
                  let? '(v, s4) := value depth s3 in
                  match skip_space s4 with
                  | String e s5 =>
                      if bz e =? 44 then members fuel' depth (acc ++ [(k, v)]) s5
                      else if bz e =? 125 then Some (acc ++ [(k, v)], s5) else None
                  | EmptyString => None
                  end
                else None
            | EmptyString => None
            end
          else None
      | EmptyString => None
      end
  end.
End values.

Fixpoint value (fuel : nat) (depth : nat) (s : string) : option (json * string) :=
  match fuel with
  | O => None
  | S fuel' =>
      match skip_space s with
      | String a s1 =>
          if bz a =? 34 then let? '(b, r) := string_body s1 in Some (JStr b, r)
          else if bz a =? 91 then
            match depth with
            | O => None
            | S d =>
                match skip_space s1 with
                | String "]"%char r => Some (JArr [], r)
                | _ => let? '(l, r) := elements (value fuel') fuel' d [] s1 in Some (JArr l, r)
                end
            end
          else if bz a =? 123 then
            match depth with
            | O => None
            | S d =>
                match skip_space s1 with
                | String "}"%char r => Some (JObj [], r)
                | _ => let? '(l, r) := members (value fuel') fuel' d [] s1 in Some (JObj l, r)
                end
            end
          else literal (String a s1)
      | EmptyString => None
      end
  end.

Definition maxNestingDepth : nat := Z.to_nat 10000.

Definition parse_json (s : string) : option json :=
  match value (S (String.length s)) maxNestingDepth s with
  | Some (v, r) => if bool_decide (skip_space r = "") then Some v else None
  | None => None
  end.

(** ** The fuel is enough

    Every part of a text read leaves a shorter one, so a text's length bounds the recursion. *)

#[local] Abbreviation len := String.length.

Lemma skip_space_le s : (len (skip_space s) <= len s)%nat.
Proof. induction s as [|a s IH]; simpl; [lia|]. destruct (is_space a); simpl; lia. Qed.

Lemma string_body_lt s b r : string_body s = Some (b, r) -> (len r < len s)%nat.
Proof.
  remember (len s) as n eqn:Hn. revert s b r Hn. induction (lt_wf n) as [n _ IH]. intros s b r ->.
  destruct s as [|a s]; simpl; [done|]. repeat case_match; intros [=]; subst;
    repeat match goal with
    | H : string_body ?x = Some (_, r) |- _ => specialize (IH (len x) ltac:(simpl; lia) x _ _ eq_refl H)
    end; simpl in *; lia.
Qed.

Lemma span_digits_le s ds r : span_digits s = (ds, r) -> (len r <= len s)%nat /\ (ds <> "" -> (len r < len s)%nat).
Proof.
  revert ds r. induction s as [|a s IH]; intros ds r; simpl; [by intros [= <- <-]|].
  destruct (is_digit a); [|intros [= <- <-]; simpl; split; [lia|done]].
  destruct (span_digits s) as [ds' r'] eqn:Hs. intros [= <- <-]. destruct (IH _ _ eq_refl) as [H1 _]. split; [|intros _]; simpl; lia.
Qed.

Lemma int_part_lt s i r : int_part s = Some (i, r) -> (len r < len s)%nat.
Proof.
  destruct s as [|a s]; [done|]. unfold int_part. case_match; [intros [= <- <-]; simpl; lia|].
  destruct (span_digits (String a s)) as [[|d ds] r'] eqn:Hs; [done|]. intros [= <- <-].
  by apply span_digits_le in Hs as [_ Hs]; apply Hs.
Qed.

Lemma frac_part_le s f r : frac_part s = Some (f, r) -> (len r <= len s)%nat.
Proof.
  destruct s as [|a s]; simpl; [by intros [= <- <-]|]. case_match; [|by intros [= <- <-]; simpl; lia].
  destruct (span_digits s) as [[|d ds] r'] eqn:Hs; [done|]. intros [= <- <-]. apply span_digits_le in Hs. lia.
Qed.

Lemma exp_part_le s e r : exp_part s = Some (e, r) -> (len r <= len s)%nat.
Proof.
  destruct s as [|a s]; simpl; [by intros [= <- <-]|]. case_match; [|by intros [= <- <-]; simpl; lia].
  set (p := match s with "" => _ | String _ _ => _ end). assert (Hp : (len p.2 <= len s)%nat).
  { subst p. destruct s as [|c s]; [done|]. case_match; simpl; lia. }
  destruct p as [sign s1]. simpl in Hp. destruct (span_digits s1) as [[|d ds] r'] eqn:Hs; [done|]. intros [= <- <-].
  apply span_digits_le in Hs. lia.
Qed.

Lemma number_lt s n r : number s = Some (n, r) -> (len r < len s)%nat.
Proof.
  unfold number. set (p := match s with "" => _ | String _ _ => _ end). assert (Hp : (len p.2 <= len s)%nat).
  { subst p. destruct s as [|c s]; [done|]. case_match; simpl; lia. }
  destruct p as [sign s0]. simpl in Hp.
  destruct (int_part s0) as [[i s1]|] eqn:Hi; simpl; [|done]. destruct (frac_part s1) as [[f s2]|] eqn:Hf; simpl; [|done].
  destruct (exp_part s2) as [[e s3]|] eqn:He; simpl; [|done]. intros [= <- <-].
  apply int_part_lt in Hi. apply frac_part_le in Hf. apply exp_part_le in He. lia.
Qed.

Lemma literal_lt s j r : literal s = Some (j, r) -> (len r < len s)%nat.
Proof.
  unfold literal.
  assert (Hc : forall p r', p <> "" -> cut_prefix s p = Some r' -> (len r' < len s)%nat).
  { intros p r' Hp ->%cut_prefix_spec. rewrite string_length_app. destruct p; [done|]. simpl. lia. }
  repeat (case_match; [by intros [= <- <-]; eapply Hc; [|eassumption]|]).
  destruct (number s) as [[n r']|] eqn:Hn; simpl; [|done]. intros [= <- <-]. by apply number_lt in Hn.
Qed.

(** Two readers of a value that leave less than they read, and agree on texts of at most [n] bytes. *)
Definition shortens (v : nat -> string -> option (json * string)) : Prop :=
  forall depth s j r, v depth s = Some (j, r) -> (len r < len s)%nat.
Definition agree (n : nat) (v1 v2 : nat -> string -> option (json * string)) : Prop :=
  forall depth s, (len s <= n)%nat -> v1 depth s = v2 depth s.

Lemma elements_lt v f depth acc s l r : shortens v -> elements v f depth acc s = Some (l, r) -> (len r < len s)%nat.
Proof.
  intros Hv. revert acc s. induction f as [|f IH]; intros acc s; simpl; [done|].
  destruct (v depth s) as [[j s1]|] eqn:Hj; simpl; [|done]. apply Hv in Hj. pose proof (skip_space_le s1).
  destruct (skip_space s1) as [|a s2]; simpl in *; [done|]. case_match; [intros H1%IH; lia|].
  case_match; [|done]. intros [= <- <-]. lia.
Qed.

Lemma members_lt v f depth acc s l r : shortens v -> members v f depth acc s = Some (l, r) -> (len r < len s)%nat.
Proof.
  intros Hv. revert acc s. induction f as [|f IH]; intros acc s; simpl; [done|].
  pose proof (skip_space_le s). destruct (skip_space s) as [|q s1]; simpl in *; [done|]. case_match; [|done].
  destruct (string_body s1) as [[k s2]|] eqn:Hk; simpl; [|done]. apply string_body_lt in Hk. pose proof (skip_space_le s2).
  destruct (skip_space s2) as [|c s3]; simpl in *; [done|]. case_match; [|done].
  destruct (v depth s3) as [[j s4]|] eqn:Hj; simpl; [|done]. apply Hv in Hj. pose proof (skip_space_le s4).
  destruct (skip_space s4) as [|e s5]; simpl in *; [done|]. case_match; [intros ?%IH; lia|].
  case_match; [|done]. intros [= <- <-]. lia.
Qed.

Lemma value_shortens f : shortens (value f).
Proof.
  induction f as [|f IH]; intros depth s j r; simpl; [done|].
  pose proof (skip_space_le s). destruct (skip_space s) as [|a s1]; simpl in *; [done|]. pose proof (skip_space_le s1).
  case_match.
  { destruct (string_body s1) as [[b r']|] eqn:Hb; simpl; [|done]. intros [= <- <-]. apply string_body_lt in Hb. lia. }
  assert (He : forall d, (let? '(l, r') := elements (value f) f d [] s1 in Some (JArr l, r')) = Some (j, r) -> (len r < len s)%nat).
  { intros d. destruct (elements _ _ _ _ _) as [[l r']|] eqn:Hl; simpl; [|done]. intros [= <- <-]. apply elements_lt in Hl; [lia|done]. }
  assert (Hm : forall d, (let? '(l, r') := members (value f) f d [] s1 in Some (JObj l, r')) = Some (j, r) -> (len r < len s)%nat).
  { intros d. destruct (members _ _ _ _ _) as [[l r']|] eqn:Hl; simpl; [|done]. intros [= <- <-]. apply members_lt in Hl; [lia|done]. }
  case_match; [|case_match; [|by intros ?%literal_lt; simpl in *; lia]].
  all: destruct depth as [|d]; [done|]; destruct (skip_space s1) as [|c s2]; [apply He || apply Hm|]; simpl in *.
  all: repeat (case_match; try (apply He || apply Hm)); intros [= <- <-]; lia.
Qed.

Lemma elements_agree v1 v2 n f g depth acc s :
  agree n v1 v2 -> shortens v1 -> (len s <= n)%nat -> (len s < f)%nat -> (len s < g)%nat ->
  elements v1 f depth acc s = elements v2 g depth acc s.
Proof.
  intros Ha Hv. revert g acc s. induction f as [|f IH]; intros [|g] acc s Hn Hf Hg; simpl; try lia.
  rewrite <- (Ha depth s Hn). destruct (v1 depth s) as [[j s1]|] eqn:Hj; simpl; [|done]. apply Hv in Hj.
  pose proof (skip_space_le s1). destruct (skip_space s1) as [|a s2]; simpl in *; [done|].
  case_match; [apply IH; lia|done].
Qed.

Lemma members_agree v1 v2 n f g depth acc s :
  agree n v1 v2 -> shortens v1 -> (len s <= n)%nat -> (len s < f)%nat -> (len s < g)%nat ->
  members v1 f depth acc s = members v2 g depth acc s.
Proof.
  intros Ha Hv. revert g acc s. induction f as [|f IH]; intros [|g] acc s Hn Hf Hg; simpl; try lia.
  pose proof (skip_space_le s). destruct (skip_space s) as [|q s1]; simpl in *; [done|]. case_match; [|done].
  destruct (string_body s1) as [[k s2]|] eqn:Hk; simpl; [|done]. apply string_body_lt in Hk. pose proof (skip_space_le s2).
  destruct (skip_space s2) as [|c s3]; simpl in *; [done|]. case_match; [|done].
  rewrite <- (Ha depth s3) by lia. destruct (v1 depth s3) as [[j s4]|] eqn:Hj; simpl; [|done]. apply Hv in Hj.
  pose proof (skip_space_le s4). destruct (skip_space s4) as [|e s5]; simpl in *; [done|].
  case_match; [apply IH; lia|done].
Qed.

(** Fuel past the length of the text changes nothing: [value] reads it to its end. *)
Lemma value_fuel f g depth s : (len s < f)%nat -> (len s < g)%nat -> value f depth s = value g depth s.
Proof.
  revert g depth s. induction f as [|f IH]; intros [|g] depth s Hf Hg; simpl; try lia.
  pose proof (skip_space_le s). destruct (skip_space s) as [|a s1]; simpl in *; [done|].
  assert (Ha : agree (len s1) (value f) (value g)) by (intros d x Hx; apply IH; lia).
  case_match; [done|]. case_match; [|case_match; [|done]].
  - destruct depth as [|d]; [done|].
    rewrite (elements_agree _ _ _ f g d [] s1 Ha (value_shortens f)) by lia. done.
  - destruct depth as [|d]; [done|].
    rewrite (members_agree _ _ _ f g d [] s1 Ha (value_shortens f)) by lia. done.
Qed.

(** [json.Valid]. *)
Definition json_valid (s : string) : bool := bool_decide (is_Some (parse_json s)).

(** [json.Unmarshal(data, &l)] for an [l] of type [[]json.RawMessage]: how many elements, with [null]
    leaving the slice empty. *)
Definition unmarshal_array (s : string) : option nat :=
  match parse_json s with
  | Some (JArr l) => Some (length l)
  | Some JNull => Some 0%nat
  | _ => None
  end.

(** A text with its double quotes written as single ones. *)
Definition dq (s : string) : string := str_map (fun a => if bz a =? 39 then "034"%char else a) s.

Example json_ex1 :
  unmarshal_array (dq " [ {'a' : 1, 'b':[]}, null ,-0.5e+3,'x\u00e9\n' ] ") = Some 4%nat.
Proof. vm_compute. reflexivity. Qed.
Example json_ex2 : json_valid "[01]" = false /\ json_valid "[1,]" = false /\ json_valid "{}" = true
  /\ json_valid "nul" = false /\ json_valid "" = false.
Proof. vm_compute. done. Qed.
