(* ===== verification/Encode.v ===== *)
(** * SHA-256, HMAC and length-prefixed fields

    Go's [crypto/sha256], [crypto/hmac] and [encoding/binary] as the gateway uses them.  The
    components are stated over any hash with 32-byte digests ([HashFunction]), so their theorems
    rest on nothing else about it; [sha256] is the instance, written out from FIPS 180-4 so that the
    definitions compute.  [field] is the encoding the audit chain, the entry signatures and the tool
    fingerprints share: an 8-byte big-endian length before each value. *)
From Stdlib Require Import ZArith Lia Ascii.
From stdpp Require Import base strings list.
From S2P Require Import Prelude.
From S2P Require Import GoStrings.
From S2P Require Import Utf8.

(** ** Big-endian integers *)

Fixpoint be (n : nat) (z : Z) : string :=
  match n with O => "" | S n' => be n' (z / 256) +:+ String (zb z) "" end.

(** [binary.BigEndian.PutUint64] / [AppendUint64] of [uint64(z)]. *)
Definition be64 (z : Z) : string := be 8 (z mod 2 ^ 64).

Fixpoint be_val (acc : Z) (s : string) : Z :=
  match s with EmptyString => acc | String a s' => be_val (acc * 256 + bz a) s' end.

Lemma be_length n z : String.length (be n z) = n.
Proof. revert z. induction n as [|n IH]; intros z; simpl; [done|]. rewrite string_length_app, IH. simpl. lia. Qed.

Lemma be_val_app acc a b : be_val acc (a +:+ b) = be_val (be_val acc a) b.
Proof. revert acc. induction a as [|x a IH]; intros acc; [done|]. rewrite string_app_cons. apply IH. Qed.

Lemma be_val_be n z : 0 <= z < 256 ^ Z.of_nat n -> be_val 0 (be n z) = z.
Proof.
  revert z. induction n as [|n IH]; intros z Hz.
  { change (256 ^ Z.of_nat 0) with 1 in Hz. simpl. lia. }
  rewrite Nat2Z.inj_succ, Z.pow_succ_r in Hz by lia. cbn [be].
  rewrite be_val_app, IH by (split; [apply Z.div_pos|apply Z.div_lt_upper_bound]; lia).
  cbn [be_val]. rewrite bz_zb. pose proof (Z.div_mod z 256). lia.
Qed.

Lemma be64_length z : String.length (be64 z) = 8%nat.
Proof. apply be_length. Qed.

Lemma be64_inj a b : 0 <= a < 2 ^ 64 -> 0 <= b < 2 ^ 64 -> be64 a = be64 b -> a = b.
Proof.
  unfold be64. intros Ha Hb H. rewrite !Z.mod_small in H by done.
  rewrite <- (be_val_be 8 a), <- (be_val_be 8 b), H; done.
Qed.

(** ** Length-prefixed fields *)

Definition field (v : string) : string := be64 (blen v) +:+ v.

Lemma blen_nonneg s : 0 <= blen s.
Proof. unfold blen. lia. Qed.

Lemma go_string_be64 s : go_string s -> 0 <= blen s < 2 ^ 64.
Proof. unfold go_string, max_int. pose proof (blen_nonneg s). lia. Qed.

(** Field boundaries are recoverable: the encoding of a field followed by anything determines
    both. *)
Lemma field_app_inj v1 v2 r1 r2 :
  go_string v1 -> go_string v2 -> field v1 +:+ r1 = field v2 +:+ r2 -> v1 = v2 /\ r1 = r2.
Proof.
  intros H1 H2 H. unfold field in H. rewrite <- !string_app_assoc in H.
  apply string_app_inj_length in H as [Hl H]; [|by rewrite !be64_length].
  apply be64_inj in Hl; [|by apply go_string_be64..].
  apply string_app_inj_length in H; [done|]. unfold blen in Hl. lia.
Qed.

Definition fields (l : list string) : string := foldr (fun v acc => field v +:+ acc) "" l.

Lemma fields_app_inj l1 l2 r1 r2 :
  Forall go_string l1 -> Forall go_string l2 -> length l1 = length l2 ->
  fields l1 +:+ r1 = fields l2 +:+ r2 -> l1 = l2 /\ r1 = r2.
Proof.
  intros H1. revert l2. induction H1 as [|v1 l1 Hv1 _ IH]; intros [|v2 l2] H2 Hl H; try done.
  apply Forall_cons in H2 as [Hv2 H2]. simpl in H. rewrite <- !string_app_assoc in H.
  apply field_app_inj in H as [-> H]; [|done..].
  destruct (IH l2 H2 ltac:(simpl in Hl; lia) H) as [-> ->]. done.
Qed.

Lemma fields_inj l1 l2 :
  Forall go_string l1 -> Forall go_string l2 -> length l1 = length l2 -> fields l1 = fields l2 -> l1 = l2.
Proof.
  intros H1 H2 Hl H. apply (fields_app_inj l1 l2 "" ""); [done..|]. by rewrite !string_app_nil_r.
Qed.

(** ** The hash *)

Class HashFunction := {
  sum256 : string -> string;                                  (* sha256.Sum256 *)
  sum256_length : forall s, String.length (sum256 s) = 32%nat
}.

(** Two different inputs with one digest. *)
Definition collision `{HashFunction} (a b : string) : Prop := a <> b /\ sum256 a = sum256 b.

Lemma hex_encode_length s : String.length (hex_encode s) = (2 * String.length s)%nat.
Proof. induction s as [|a s IH]; simpl; lia. Qed.

Lemma hex_digit_inj d1 d2 :
  0 <= d1 < 16 -> 0 <= d2 < 16 -> hex_digit false d1 = hex_digit false d2 -> d1 = d2.
Proof.
  unfold hex_digit. intros H1 H2 H. apply (f_equal bz) in H. rewrite !bz_zb in H.
  destruct (Z.ltb_spec d1 10), (Z.ltb_spec d2 10); rewrite !Z.mod_small in H; lia.
Qed.

Lemma hex_encode_inj a b : hex_encode a = hex_encode b -> a = b.
Proof.
  revert b. induction a as [|x a IH]; intros [|y b]; simpl; try done.
  intros Hx. injection Hx as H1 H2 Hx. pose proof (bz_range x). pose proof (bz_range y).
  apply hex_digit_inj in H1; [|lia..]. apply hex_digit_inj in H2; [|lia..].
  f_equal; [|by apply IH]. apply bz_inj. lia.
Qed.

(** A hex digest: what [hex.EncodeToString(h.Sum(nil))] returns. *)
Definition hex_sum256 `{HashFunction} (s : string) : string := hex_encode (sum256 s).

Lemma hex_sum256_length `{HashFunction} s : String.length (hex_sum256 s) = 64%nat.
Proof. unfold hex_sum256. by rewrite hex_encode_length, sum256_length. Qed.

Lemma hex_sum256_nonempty `{HashFunction} s : hex_sum256 s <> "".
Proof. intros He. pose proof (hex_sum256_length s) as Hl. by rewrite He in Hl. Qed.

(** Equal hex digests come from equal inputs or exhibit a collision of the hash. *)
Lemma hex_sum256_inj `{HashFunction} a b : hex_sum256 a = hex_sum256 b -> a = b \/ collision a b.
Proof.
  intros Hs%hex_encode_inj. destruct (decide (a = b)); [by left|right; by split].
Qed.

(** ** SHA-256 *)

Module sha256.
Definition mask : Z := 0xffffffff.
Definition add32 (x y : Z) : Z := Z.land (x + y) mask.
Definition rotr (x n : Z) : Z := Z.lor (Z.shiftr x n) (Z.land (Z.shiftl x (32 - n)) mask).

(** The constants of FIPS 180-4, in decimal. *)
Definition init : list Z := [
  1779033703; 3144134277; 1013904242; 2773480762; 1359893119; 2600822924;
  528734635; 1541459225].

Definition rounds : list Z := [
  1116352408; 1899447441; 3049323471; 3921009573; 961987163; 1508970993;
  2453635748; 2870763221; 3624381080; 310598401; 607225278; 1426881987;
  1925078388; 2162078206; 2614888103; 3248222580; 3835390401; 4022224774;
  264347078; 604807628; 770255983; 1249150122; 1555081692; 1996064986;
  2554220882; 2821834349; 2952996808; 3210313671; 3336571891; 3584528711;
  113926993; 338241895; 666307205; 773529912; 1294757372; 1396182291;
  1695183700; 1986661051; 2177026350; 2456956037; 2730485921; 2820302411;
  3259730800; 3345764771; 3516065817; 3600352804; 4094571909; 275423344;
  430227734; 506948616; 659060556; 883997877; 958139571; 1322822218;
  1537002063; 1747873779; 1955562222; 2024104815; 2227730452; 2361852424;
  2428436474; 2756734187; 3204031479; 3329325298].

Definition small0 x := Z.lxor (rotr x 7) (Z.lxor (rotr x 18) (Z.shiftr x 3)).
Definition small1 x := Z.lxor (rotr x 17) (Z.lxor (rotr x 19) (Z.shiftr x 10)).
Definition big0 x := Z.lxor (rotr x 2) (Z.lxor (rotr x 13) (rotr x 22)).
Definition big1 x := Z.lxor (rotr x 6) (Z.lxor (rotr x 11) (rotr x 25)).
Definition ch x y z := Z.lxor (Z.land x y) (Z.land (Z.lxor x mask) z).
Definition maj x y z := Z.lxor (Z.land x y) (Z.lxor (Z.land x z) (Z.land y z)).

(** The message schedule: from a window of 16 words, the next one. *)
Fixpoint schedule (n : nat) (w : list Z) : list Z :=
  match n, w with
  | S n', w0 :: ((w1 :: _) as rest) =>
      w0 :: schedule n' (rest ++ [add32 (add32 (small1 (nth 14 w 0)) (nth 9 w 0)) (add32 (small0 w1) w0)])
  | _, _ => w
  end.

Definition round (st : list Z) (kw : Z * Z) : list Z :=
  match st with
  | [a; b; c; d; e; f; g; h] =>
      let t1 := add32 (add32 h (big1 e)) (add32 (ch e f g) (add32 (fst kw) (snd kw))) in
      let t2 := add32 (big0 a) (maj a b c) in
      [add32 t1 t2; a; b; c; add32 d t1; e; f; g]
  | _ => st
  end.

Definition block (st : list Z) (w : list Z) : list Z :=
  zip_with add32 st (foldl round st (zip rounds (schedule 48 w))).

Fixpoint words (l : list Z) : list Z :=
  match l with
  | a :: b :: c :: d :: l' => (a * 16777216 + b * 65536 + c * 256 + d) :: words l'
  | _ => []
  end.

Fixpoint run (n : nat) (st : list Z) (w : list Z) : list Z :=
  match n with
  | O => st
  | S n' => match w with [] => st | _ => run n' (block st (take 16 w)) (drop 16 w) end
  end.

Definition string_bytes (s : string) : list Z := map bz (String.list_ascii_of_string s).

Definition pad (s : string) : list Z :=
  let n := String.length s in
  string_bytes s ++ [128] ++ repeat 0 (Z.to_nat ((55 - Z.of_nat n) mod 64))
    ++ string_bytes (be64 (8 * Z.of_nat n)).

Definition digest (s : string) : string :=
  let st := run (S (String.length s)) init (words (pad s)) in
  str_take 32 (foldr (fun w acc => be 4 w +:+ acc) (be 32 0) st).

Lemma digest_length s : String.length (digest s) = 32%nat.
Proof.
  unfold digest. rewrite str_take_length.
  assert (H : forall l, (32 <= String.length (foldr (fun w acc => be 4 w +:+ acc) (be 32 0) l))%nat); [|].
  { induction l as [|x l IH]; cbn [foldr]; [by rewrite be_length|]. rewrite string_length_app. lia. }
  specialize (H (run (S (String.length s)) init (words (pad s)))). lia.
Qed.
End sha256.

#[export] Instance sha256_hash : HashFunction :=
  {| sum256 := sha256.digest; sum256_length := sha256.digest_length |}.

Example sha256_abc :
  hex_encode (sha256.digest "abc") = "ba7816bf8f01cfea414140de5dae2223b00361a396177a9cb410ff61f20015ad".
Proof. vm_compute. reflexivity. Qed.

(** A cheap 32-byte digest, the value of the input modulo 2^256: a second instance, for evaluating the
    definitions on small inputs.  An instance to be named, never found by search. *)
Definition weak_hash : HashFunction :=
  {| sum256 := fun s => be 32 (be_val 0 s); sum256_length := fun s => be_length 32 (be_val 0 s) |}.

(** [hmac.New(sha256.New, key)] fed [msg], for keys of at most the block size. *)
Definition hmac256 `{HashFunction} (key msg : string) : string :=
  let k := key +:+ String.string_of_list_ascii (repeat (zb 0) (64 - String.length key)) in
  let xor c := str_map (fun a => zb (Z.lxor (bz a) c)) k in
  sum256 (xor 0x5c +:+ sum256 (xor 0x36 +:+ msg)).
