(* ===== verification/AuditLog.v ===== *)
(** * The audit trail: records and the hash chain ([internal/audit/audit.go])

    [Record], its validation, [DisplayName], and the bytes the chain hashes.  The storage adapter is
    AuditStore.v.  The theorems here: whatever an identity provider states as a name, the name stored
    is one [Validate] accepts; and the bytes hashed determine the record. *)
From Stdlib Require Import ZArith Lia Ascii.
From stdpp Require Import base strings list.
From S2P Require Import Prelude.
From S2P Require Import GoStrings.
From S2P Require Import Utf8.
From S2P Require Import Visible.
From S2P Require Import GoTime.
From S2P Require Import Encode.

#[local] Opaque format_time.

Record AuditRecord := {
  AnalystIdentity : string;
  Tool : string;
  TargetUpstream : string;
  Timestamp : time;
  Outcome : string;
  Reason : string;
  SourceAddress : string;
  AnalystName : string
}.

#[global] Instance AuditRecord_eq_dec : EqDecision AuditRecord.
Proof. solve_decision. Defined.

Definition MaxAnalystNameBytes : Z := 256.

Definition OutcomeAllowed : string := "allowed".
Definition OutcomeDenied : string := "denied".
Definition OutcomeFailed : string := "failed".

Definition Outcome_Valid (o : string) : bool :=
  bool_decide (o = OutcomeAllowed) || bool_decide (o = OutcomeDenied) || bool_decide (o = OutcomeFailed).

Inductive record_error :=
| IdentityEmpty | ToolEmpty | UpstreamEmpty | TimestampZero | OutcomeInvalid | NameTooLong | NameHidden.

#[global] Instance record_error_eq_dec : EqDecision record_error.
Proof. solve_decision. Defined.

(** ** Names and validation *)

Section names.
Context `{UT : UnicodeTables}.

(** U+2026. *)
Definition ellipsis : string := bytes [0xE2; 0x80; 0xA6].

(** [for cut > 0 && !utf8.RuneStart(name[cut]) { cut-- }]; [cut] is inside [name]. *)
Fixpoint cut_at (name : string) (cut : nat) : nat :=
  match cut with
  | O => O
  | S cut' =>
      match String.get cut name with
      | Some b => if rune_start b then cut else cut_at name cut'
      | None => cut_at name cut'
      end
  end.

Definition DisplayName (subject name : string) : string :=
  let name := trim_space name in
  if bool_decide (name = "") || bool_decide (name = subject) then ""
  else
    let name := Escape name in
    if blen name <=? MaxAnalystNameBytes then name
    else str_take (cut_at name (Z.to_nat (MaxAnalystNameBytes - blen ellipsis))) name +:+ ellipsis.

Definition Validate (r : AuditRecord) : list record_error :=
  (if bool_decide (AnalystIdentity r = "") then [IdentityEmpty] else [])
  ++ (if bool_decide (Tool r = "") then [ToolEmpty] else [])
  ++ (if bool_decide (TargetUpstream r = "") then [UpstreamEmpty] else [])
  ++ (if IsZero (Timestamp r) then [TimestampZero] else [])
  ++ (if negb (Outcome_Valid (Outcome r)) then [OutcomeInvalid] else [])
  ++ (if MaxAnalystNameBytes <? blen (AnalystName r) then [NameTooLong] else [])
  ++ (if negb (valid_string (AnalystName r)) || (0 <? Hidden (AnalystName r)) then [NameHidden] else []).
End names.

(** ** The bytes the chain hashes *)

Definition chainTag : string := "mcp-gateway/audit/chain/v1".
Definition chainTagNamed : string := "mcp-gateway/audit/chain/v2".
Definition GenesisHash : string := "".

Definition appendField (buf v : string) : string := (buf +:+ be64 (blen v)) +:+ v.

Definition Canonical (r : AuditRecord) : string :=
  let tag := if bool_decide (AnalystName r = "") then chainTag else chainTagNamed in
  let buf := "" in
  let buf := appendField buf tag in
  let buf := appendField buf (AnalystIdentity r) in
  let buf := appendField buf (Tool r) in
  let buf := appendField buf (TargetUpstream r) in
  let buf := appendField buf (format_time (Timestamp r)) in
  let buf := appendField buf (Outcome r) in
  let buf := appendField buf (Reason r) in
  let buf := appendField buf (SourceAddress r) in
  if bool_decide (AnalystName r = "") then buf else appendField buf (AnalystName r).

(** What [ChainHash] hashes. *)
Definition chain_input (prev : string) (r : AuditRecord) : string := appendField (Canonical r) prev.

Definition ChainHash `{HashFunction} (prev : string) (r : AuditRecord) : string :=
  hex_sum256 (chain_input prev r).

Record ChainLink := { Prev : string; Hash : string }.

(** ** Proofs: names *)

Lemma rune_start_cont a : 0x80 <= bz a <= 0xBF -> rune_start a = false.
Proof.
  intros Ha. unfold rune_start. apply negb_false_iff, Z.eqb_eq.
  assert (Hall : forallb (fun n => Z.land (Z.of_nat n) 0xC0 =? 0x80) (seq 0x80 64) = true)
    by by vm_compute.
  rewrite forallb_forall in Hall. specialize (Hall (Z.to_nat (bz a))).
  rewrite Z2Nat.id in Hall by lia. apply Z.eqb_eq, Hall, in_seq. lia.
Qed.

Lemma lead_info_range b n lo hi : lead_info b = Some (n, lo, hi) -> 0x80 <= lo /\ hi <= 0xBF.
Proof. unfold lead_info. repeat case_match; intros; simplify_eq; lia. Qed.

(** The bytes of a rune after its first are not rune starts. *)
Lemma self_delimiting_inner r c i b :
  self_delimiting r c -> String.get (S i) c = Some b -> rune_start b = false.
Proof.
  intros (_ & Hd & Hinv) Hb. unfold cont in *.
  destruct c as [|a0 c]; [done|]. cbn [String.get] in Hb. unfold decode_rune in Hd. cbv zeta in Hd.
  destruct (bz a0 <? 128); [destruct c; [done|simplify_eq/=]|].
  assert (Hone : forall d, (d, 1%nat) = (r, String.length (String a0 c)) -> False).
  { intros d [= -> Hc]. destruct c; [done|]. simpl in Hc. lia. }
  destruct (lead_info (bz a0)) as [[[n lo] hi]|] eqn:Hl; [|by apply Hone in Hd].
  apply lead_info_range in Hl. unfold cont, in_range in Hd.
  assert (Hc : forall a x y, (x <=? bz a) && (bz a <=? y) = true -> 128 <= x -> y <= 191 -> rune_start a = false).
  { intros a x y [H1%Z.leb_le H2%Z.leb_le]%andb_true_iff ??. apply rune_start_cont. lia. }
  destruct n as [|[|[|[|[|n]]]]], c as [|a1 [|a2 [|a3 c]]]; try (exfalso; eapply Hone; exact Hd);
    match type of Hd with (if ?e then _ else _) = _ => destruct e eqn:He end;
    try (exfalso; eapply Hone; exact Hd); pose proof (f_equal snd Hd) as Hlen; simpl in Hlen; try lia;
    try (destruct c; [|simpl in Hlen; lia]);
    repeat match goal with H : _ && _ = true |- _ => apply andb_true_iff in H as [? ?] end;
    repeat (destruct i as [|i]; [cbn [String.get] in Hb; injection Hb as <-|cbn [String.get] in Hb]); try done;
    (eapply Hc; [apply andb_true_iff; split; eassumption|lia|lia]).
Qed.

Lemma str_get_app_r a b i : (String.length a <= i)%nat -> String.get i (a +:+ b) = String.get (i - String.length a) b.
Proof.
  revert i. induction a as [|x a IH]; intros i Hi; [by rewrite Nat.sub_0_r|].
  rewrite string_app_cons. destruct i as [|i]; simpl in Hi; [lia|]. simpl. apply IH. lia.
Qed.

Lemma str_get_app_l a b i : (i < String.length a)%nat -> String.get i (a +:+ b) = String.get i a.
Proof.
  revert i. induction a as [|x a IH]; intros i Hi; [simpl in Hi; lia|].
  rewrite string_app_cons. destruct i as [|i]; [done|]. simpl in *. apply IH. lia.
Qed.

Lemma str_take_app_r a b n : (String.length a <= n)%nat -> str_take n (a +:+ b) = a +:+ str_take (n - String.length a) b.
Proof.
  revert n. induction a as [|x a IH]; intros n Hn; [by rewrite Nat.sub_0_r|].
  rewrite !string_app_cons. destruct n as [|n]; simpl in Hn; [lia|]. simpl. rewrite IH by lia. done.
Qed.

Section name_proofs.
Context `{UT : UnicodeTables}.

(** Cutting a clean string before a rune start leaves a clean string. *)
Lemma clean_take l n b :
  Forall (fun c => self_delimiting (fst c) (snd c) /\ Hides (fst c) = false) l ->
  String.get n (flatten l) = Some b -> rune_start b = true -> clean (str_take n (flatten l)).
Proof.
  intros Hl. revert n. induction Hl as [|[r c] l [Hc Hh] _ IH]; intros n Hb Hs; [by destruct n|].
  simpl in *. destruct n as [|n]; [apply clean_nil|].
  destruct (decide (S n < String.length c)%nat) as [Hlt|Hge].
  - rewrite str_get_app_l in Hb by done. by rewrite (self_delimiting_inner r c n b Hc Hb) in Hs.
  - rewrite str_get_app_r in Hb by lia. rewrite str_take_app_r by lia.
    apply clean_app; [by apply clean_chunk with r|by apply IH].
Qed.

Lemma cut_at_clean s n :
  clean s -> (n < String.length s)%nat -> clean (str_take (cut_at s n) s) /\ (cut_at s n <= n)%nat.
Proof.
  intros Hs. induction n as [|n IH]; intros Hn; [split; [apply clean_nil|simpl; lia]|].
  cbn [cut_at]. destruct IH as [IH1 IH2]; [lia|]. case_match eqn:Hb; [|split; [done|lia]].
  case_match eqn:Hr; [|split; [done|lia]]. split; [|done].
  rewrite <- (flatten_runes s) in Hb |- *. by apply (clean_take _ _ _ Hs Hb).
Qed.

Lemma clean_ellipsis : Hides 0x2026 = false -> clean ellipsis.
Proof. intros Hh. apply (clean_chunk 0x2026); [|done]. split_and!; vm_compute; congruence. Qed.

Lemma DisplayName_cases subject name :
  Hides 0x2026 = false ->
  clean (DisplayName subject name) /\ blen (DisplayName subject name) <= MaxAnalystNameBytes.
Proof.
  intros He. unfold DisplayName. cbv zeta.
  destruct (bool_decide (trim_space name = "") || _); [split; [apply clean_nil|done]|].
  pose proof (Escape_clean (trim_space name)) as Hc. revert Hc.
  generalize (Escape (trim_space name)) as s. intros s Hc.
  destruct (Z.leb_spec (blen s) MaxAnalystNameBytes) as [|Hlong]; [done|].
  change (Z.to_nat (MaxAnalystNameBytes - blen ellipsis)) with 253%nat.
  unfold blen, MaxAnalystNameBytes in *.
  destruct (cut_at_clean s 253 Hc ltac:(lia)) as [Hcut Hle]. split.
  - apply clean_app; [done|by apply clean_ellipsis].
  - rewrite string_length_app, str_take_length. change (String.length ellipsis) with 3%nat. lia.
Qed.
End name_proofs.

(** ** Proofs: what the chain covers *)

(** The fields [ChainHash] writes, in order. *)
Definition chain_fields (prev : string) (r : AuditRecord) : list string :=
  [if bool_decide (AnalystName r = "") then chainTag else chainTagNamed; AnalystIdentity r; Tool r;
   TargetUpstream r; format_time (Timestamp r); Outcome r; Reason r; SourceAddress r]
  ++ (if bool_decide (AnalystName r = "") then [] else [AnalystName r]) ++ [prev].

Lemma chain_input_fields prev r : chain_input prev r = fields (chain_fields prev r).
Proof.
  unfold chain_input, Canonical, chain_fields, appendField. cbv zeta.
  destruct (bool_decide (AnalystName r = "")); cbn [fields foldr app]; unfold field;
    rewrite ?string_app_nil_r, ?string_app_nil_l, <- ?string_app_assoc; done.
Qed.

(** The values that fit a Go string. *)
Definition go_record (r : AuditRecord) : Prop :=
  Forall go_string [AnalystIdentity r; Tool r; TargetUpstream r; format_time (Timestamp r); Outcome r;
                    Reason r; SourceAddress r; AnalystName r].

(** Two records that say the same, instants written out. *)
Definition same_record (r s : AuditRecord) : Prop :=
  AnalystIdentity r = AnalystIdentity s /\ Tool r = Tool s /\ TargetUpstream r = TargetUpstream s
  /\ format_time (Timestamp r) = format_time (Timestamp s) /\ Outcome r = Outcome s
  /\ Reason r = Reason s /\ SourceAddress r = SourceAddress s /\ AnalystName r = AnalystName s.

Lemma chain_fields_go prev r : go_record r -> go_string prev -> Forall go_string (chain_fields prev r).
Proof.
  unfold go_record. rewrite !Forall_cons. intros (?&?&?&?&?&?&?&?&_) ?. unfold chain_fields.
  apply Forall_app. split; [|apply Forall_app; split; [case_match|]];
    rewrite ?Forall_cons; split_and?; try done.
  by case_match.
Qed.

Lemma chain_fields_tag prev r :
  exists rest, chain_fields prev r = (if bool_decide (AnalystName r = "") then chainTag else chainTagNamed) :: rest.
Proof. by eexists. Qed.

Lemma chain_input_inj p q r s :
  go_record r -> go_record s -> go_string p -> go_string q ->
  chain_input p r = chain_input q s -> same_record r s /\ p = q.
Proof.
  intros Hr Hs Hp Hq Heq. rewrite !chain_input_fields in Heq.
  pose proof (chain_fields_go p r Hr Hp) as Hgr. pose proof (chain_fields_go q s Hs Hq) as Hgs.
  assert (Htag : bool_decide (AnalystName r = "") = bool_decide (AnalystName s = "")).
  { destruct (chain_fields_tag p r) as [lr Hlr], (chain_fields_tag q s) as [ls Hls].
    rewrite Hlr, Hls in Heq. cbn [fields foldr] in Heq.
    rewrite Hlr in Hgr. rewrite Hls in Hgs. apply Forall_cons in Hgr as [Hgr _], Hgs as [Hgs _].
    apply field_app_inj in Heq as [Heq _]; [|done..].
    destruct (bool_decide (AnalystName r = "")), (bool_decide (AnalystName s = "")); done. }
  apply fields_inj in Heq; [|done|done|unfold chain_fields; rewrite Htag; by case_match].
  unfold chain_fields in Heq. rewrite Htag in Heq. unfold same_record.
  destruct (bool_decide (AnalystName s = "")) eqn:Hn; cbn [app] in Heq; injection Heq as ????????; subst.
  - apply bool_decide_eq_true in Hn, Htag. rewrite Hn, Htag. split_and!; done.
  - split_and!; done.
Qed.

Lemma ChainHash_length `{HashFunction} prev r : String.length (ChainHash prev r) = 64%nat.
Proof. apply hex_sum256_length. Qed.

Lemma ChainHash_go `{HashFunction} prev r : go_string (ChainHash prev r).
Proof. unfold go_string, blen. by rewrite ChainHash_length. Qed.

Lemma ChainHash_not_genesis `{HashFunction} prev r : ChainHash prev r <> GenesisHash.
Proof. apply hex_sum256_nonempty. Qed.

Lemma ChainHash_inj `{HashFunction} p q r s :
  go_record r -> go_record s -> go_string p -> go_string q -> ChainHash p r = ChainHash q s ->
  same_record r s /\ p = q \/ collision (chain_input p r) (chain_input q s).
Proof.
  intros ???? [Heq|Hc]%hex_sum256_inj; [left; by apply chain_input_inj|by right].
Qed.

(** ** Theorems *)

Section theorems.
Context `{UT : UnicodeTables}.

(** Fact [DisplayName_validates]: the analyst's name the gateway stores never makes a record invalid.
    Whatever subject and name the identity provider states (invalid UTF-8, control characters, any
    length), a record that is otherwise acceptable and carries [DisplayName subject name] passes
    [Validate]: the name is at most 256 bytes, valid UTF-8 and hides nothing.  It is empty exactly
    when the name says nothing the subject does not, and a short readable name is kept as it is.
    The hypothesis is the one fact about Unicode used: U+2026 is displayed. *)
Theorem DisplayName_validates r subject name :
  Hides 0x2026 = false ->
  AnalystName r = DisplayName subject name ->
  AnalystIdentity r <> "" -> Tool r <> "" -> TargetUpstream r <> "" -> IsZero (Timestamp r) = false ->
  Outcome_Valid (Outcome r) = true ->
  Validate r = []
  /\ (trim_space name = "" \/ trim_space name = subject -> AnalystName r = "")
  /\ (trim_space name <> "" -> trim_space name <> subject -> clean (trim_space name) ->
      blen (trim_space name) <= 256 -> AnalystName r = trim_space name).
Proof.
  intros He Hn Hi Ht Hu Hz Ho. pose proof (DisplayName_cases subject name He) as [Hc Hl].
  rewrite <- Hn in Hc, Hl. split_and!.
  - unfold Validate. rewrite !bool_decide_eq_false_2, Hz, Ho by done.
    rewrite (proj2 (Z.ltb_ge _ _) Hl), (clean_valid _ Hc). apply Hidden_zero_clean in Hc. by rewrite Hc.
  - intros Hb. rewrite Hn. unfold DisplayName. cbv zeta.
    destruct Hb as [Hb|Hb]; rewrite (bool_decide_eq_true_2 _ Hb), ?orb_true_r; done.
  - intros H1 H2 H3 H4. rewrite Hn. unfold DisplayName. cbv zeta.
    rewrite !bool_decide_eq_false_2 by done. apply Hidden_zero_clean in H3. rewrite (Escape_id _ H3).
    unfold MaxAnalystNameBytes. by rewrite (proj2 (Z.leb_le _ _) H4).
Qed.
End theorems.

(** Every code point displayed, for evaluating the definitions. *)
Definition demo_tables : UnicodeTables :=
  {| is_graphic := fun _ => true; in_Co := fun _ => false; in_Zs := fun _ => false;
     in_Variation_Selector := fun _ => false; in_Other_Default_Ignorable := fun _ => false |}.

Definition demo_name : string := "Ana " +:+ bytes [0x0a; 0xff] +:+ " " +:+ String.string_of_list_ascii (repeat "x"%char 300).

Definition demo_record : AuditRecord :=
  {| AnalystIdentity := "u1"; Tool := "siem.search"; TargetUpstream := "siem";
     Timestamp := Time (63893739845 * second) 0; Outcome := OutcomeAllowed; Reason := "";
     SourceAddress := "10.0.0.9"; AnalystName := DisplayName (UT := demo_tables) "u1" demo_name |}.

Lemma DisplayName_validates_witness :
  Validate (UT := demo_tables) demo_record = []
  /\ blen (AnalystName demo_record) = 256 /\ str_take 24 (AnalystName demo_record) = "Ana \u{000A}\x{FF} xxxxx".
Proof.
  split; [|by vm_compute].
  apply (DisplayName_validates (UT := demo_tables) demo_record "u1" demo_name); by vm_compute.
Defined.
