(* ===== verification/AuditStore.v ===== *)
(** * The audit trail in SQLite ([internal/audit/sqlite])

    [audit_records] as the texts its columns hold, in id order, with the AUTOINCREMENT counter and the
    one row of [audit_chain_meta].  [RecordChained], [backfillChain], [VerifyChain], [List],
    [ChainOrder], [Page] and the two reads of the console.  A [database] is whatever the file holds:
    the theorems about verification quantify over every table, not only those the adapter wrote. *)
From Stdlib Require Import ZArith Lia Ascii.
From stdpp Require Import base strings list.
From S2P Require Import Prelude.
From S2P Require Import GoStrings.
From S2P Require Import Utf8.
From S2P Require Import Visible.
From S2P Require Import GoTime.
From S2P Require Import Encode.
From S2P Require Import AuditLog.

#[local] Opaque format_time parse_time.

Record row := {
  id : Z;
  analyst_identity : string;
  tool : string;
  target_upstream : string;
  timestamp : string;
  outcome : string;
  reason : string;
  source_address : string;
  analyst_name : string;
  prev_hash : string;
  hash : string
}.

(** [audit_records] ordered by its primary key, the AUTOINCREMENT counter, and
    [retroactive_boundary_id] when [audit_chain_meta] has its row. *)
Record database := { audit_records : list row; sqlite_sequence : Z; chain_meta : option Z }.

Inductive statement := Conn | Begin | ReadHead | Insert | Commit.

Inductive store_error :=
| ErrInvalid (es : list record_error)
| Storage (s : statement)
| BadTimestamp (rid : Z)
| ReadFailed.

#[global] Instance statement_eq_dec : EqDecision statement.
Proof. solve_decision. Defined.
#[global] Instance store_error_eq_dec : EqDecision store_error.
Proof. solve_decision. Defined.

(** The columns of a row as a record, its timestamp still to be parsed. *)
Definition row_record (r : row) (t : time) : AuditRecord :=
  {| AnalystIdentity := analyst_identity r; Tool := tool r; TargetUpstream := target_upstream r;
     Timestamp := t; Outcome := outcome r; Reason := reason r; SourceAddress := source_address r;
     AnalystName := analyst_name r |}.

Definition scan_row (r : row) : option AuditRecord :=
  match parse_time (timestamp r) with Some t => Some (row_record r t) | None => None end.

Definition record_row (i : Z) (rec : AuditRecord) (link : ChainLink) : row :=
  {| id := i; analyst_identity := AnalystIdentity rec; tool := Tool rec;
     target_upstream := TargetUpstream rec; timestamp := format_time (Timestamp rec);
     outcome := Outcome rec; reason := Reason rec; source_address := SourceAddress rec;
     analyst_name := AnalystName rec; prev_hash := Prev link; hash := Hash link |}.

(** [MAX(id)], 0 for no rows: the rows are in id order. *)
Definition last_id (l : list row) : Z := match last l with Some r => id r | None => 0 end.

(** The hash of the last row, or what stands before the first. *)
Definition end_hash (before : string) (l : list row) : string :=
  match last l with Some r => hash r | None => before end.

(** ** Writing *)

Section write.
Context `{UT : UnicodeTables} `{HF : HashFunction}.

(** [fails] says which of the call's statements fail.  Every failure after BEGIN IMMEDIATE rolls
    back; the write lock makes the statements of one call one step. *)
Definition RecordChained (fails : statement -> bool) (d : database) (rec : AuditRecord)
  : database * result store_error ChainLink :=
  match Validate rec with
  | (_ :: _) as es => (d, Err (ErrInvalid es))
  | [] =>
      if fails Conn then (d, Err (Storage Conn))
      else if fails Begin then (d, Err (Storage Begin))
      else if fails ReadHead then (d, Err (Storage ReadHead))
      else
        let prev := end_hash GenesisHash (audit_records d) in
        let link := {| Prev := prev; Hash := ChainHash prev rec |} in
        if fails Insert then (d, Err (Storage Insert))
        else
          let i := Z.max (sqlite_sequence d) (last_id (audit_records d)) + 1 in
          if fails Commit then (d, Err (Storage Commit))
          else ({| audit_records := audit_records d ++ [record_row i rec link];
                   sqlite_sequence := i; chain_meta := chain_meta d |}, Ok link)
  end.

(** [UPDATE audit_records SET prev_hash = ?, hash = ? WHERE id = ?]. *)
Definition set_hashes (prev h : string) (i : Z) (l : list row) : list row :=
  map (fun r => if id r =? i then
    {| id := id r; analyst_identity := analyst_identity r; tool := tool r;
       target_upstream := target_upstream r; timestamp := timestamp r; outcome := outcome r;
       reason := reason r; source_address := source_address r; analyst_name := analyst_name r;
       prev_hash := prev; hash := h |} else r) l.

(** The rows [backfillChain] selects, scanned. *)
Fixpoint scan_unhashed (l : list row) : result store_error (list (Z * AuditRecord)) :=
  match l with
  | [] => Ok []
  | r :: l' =>
      match scan_row r with
      | None => Err (BadTimestamp (id r))
      | Some rec => rest <-? scan_unhashed l';; Ok ((id r, rec) :: rest)
      end
  end.

Fixpoint chain_onto (prev : string) (boundary : Z) (todo : list (Z * AuditRecord)) (l : list row)
  : list row * Z :=
  match todo with
  | [] => (l, boundary)
  | (i, rec) :: todo' =>
      let h := ChainHash prev rec in
      chain_onto h i todo' (set_hashes prev h i l)
  end.

Definition backfillChain (d : database) : result store_error database :=
  match chain_meta d with
  | Some _ => Ok d
  | None =>
      let l := audit_records d in
      todo <-? scan_unhashed (filter (fun r => hash r = "") l);;
      let prev := end_hash GenesisHash (filter (fun r => hash r <> "") l) in
      let '(l', boundary) := chain_onto prev 0 todo l in
      Ok {| audit_records := l'; sqlite_sequence := sqlite_sequence d; chain_meta := Some boundary |}
  end.
End write.

(** ** Verifying *)

(** [ChainBreak.Want]: a recomputed hash, or the text saying the timestamp does not parse. *)
Inductive wanted := WantHash (h : string) | WantReadable.

Record ChainBreak := { Position : Z; Broken : AuditRecord; Want : wanted; Got : string }.

Record ChainCheck := {
  Count : Z; Head : string; FirstBreak : option ChainBreak; RetroactivelyChained : Z
}.

Definition Intact (c : ChainCheck) : bool := match FirstBreak c with None => true | Some _ => false end.

Section verify.
Context `{HF : HashFunction}.

(** The record an unreadable row is reported as: its scan stopped before the outcome was set. *)
Definition unreadable_record (r : row) : AuditRecord :=
  {| AnalystIdentity := analyst_identity r; Tool := tool r; TargetUpstream := target_upstream r;
     Timestamp := zero_time; Outcome := ""; Reason := reason r; SourceAddress := source_address r;
     AnalystName := analyst_name r |}.

Fixpoint verify_rows (boundary : Z) (check : ChainCheck) (prev : string) (l : list row) : ChainCheck :=
  match l with
  | [] => {| Count := Count check; Head := prev; FirstBreak := FirstBreak check;
             RetroactivelyChained := RetroactivelyChained check |}
  | r :: l' =>
      match scan_row r with
      | None =>
          {| Count := Count check + 1; Head := hash r;
             FirstBreak := match FirstBreak check with
               | None => Some {| Position := Count check + 1; Broken := unreadable_record r;
                                 Want := WantReadable; Got := hash r |}
               | b => b
               end;
             RetroactivelyChained := RetroactivelyChained check |}
      | Some rec =>
          let count := Count check + 1 in
          let retro := RetroactivelyChained check + (if id r <=? boundary then 1 else 0) in
          let want := ChainHash (prev_hash r) rec in
          let brk := match FirstBreak check with
            | None => if negb (bool_decide (prev_hash r = prev)) || negb (bool_decide (hash r = want))
                      then Some {| Position := count; Broken := rec;
                                   Want := WantHash (ChainHash prev rec); Got := hash r |}
                      else None
            | b => b
            end in
          verify_rows boundary {| Count := count; Head := Head check; FirstBreak := brk;
                                  RetroactivelyChained := retro |} (hash r) l'
      end
  end.

(** [VerifyChain]; [None] is a read that failed. *)
Definition VerifyChain (db : option database) : result store_error ChainCheck :=
  match db with
  | None => Err ReadFailed
  | Some d =>
      let boundary := match chain_meta d with Some b => b | None => 0 end in
      Ok (verify_rows boundary {| Count := 0; Head := GenesisHash; FirstBreak := None;
                                  RetroactivelyChained := 0 |} GenesisHash (audit_records d))
  end.
End verify.

(** ** Reading *)

Fixpoint scan_records (l : list row) : result store_error (list AuditRecord) :=
  match l with
  | [] => Ok []
  | r :: l' =>
      match scan_row r with
      | None => Err (BadTimestamp (id r))
      | Some rec => rest <-? scan_records l';; Ok (rec :: rest)
      end
  end.

Definition ChainOrder (db : option database) : result store_error (list AuditRecord) :=
  match db with None => Err ReadFailed | Some d => scan_records (audit_records d) end.

(** [slices.SortStableFunc] by [Timestamp.Compare]. *)
Fixpoint insert_stable (r : AuditRecord) (l : list AuditRecord) : list AuditRecord :=
  match l with
  | [] => [r]
  | s :: l' => if inst (Timestamp r) <=? inst (Timestamp s) then r :: l else s :: insert_stable r l'
  end.

Definition sort_stable (l : list AuditRecord) : list AuditRecord := foldr insert_stable [] l.

Definition List (db : option database) : result store_error (list AuditRecord) :=
  records <-? ChainOrder db;; Ok (sort_stable records).

Record TrailQuery := {
  QBefore : Z; QSince : time; QUntil : time; QSubject : string; QOutcome : string; QSource : string;
  QTool : string; QServer : string; QLimit : Z
}.

(** A filter left empty filters nothing. *)
Definition column_match (v col : string) : bool := bool_decide (v = "") || bool_decide (col = v).

Definition column_filters (q : TrailQuery) (r : row) : bool :=
  column_match (QSubject q) (analyst_identity r) && column_match (QOutcome q) (outcome r)
  && column_match (QSource q) (source_address r) && column_match (QTool q) (tool r)
  && column_match (QServer q) (target_upstream r).

Definition before_bound (q : TrailQuery) (p : Z) : bool := negb (0 <? QBefore q) || (p <? QBefore q).

Definition in_window (q : TrailQuery) (t : time) : bool :=
  (IsZero (QSince q) || negb (Before t (QSince q))) && (IsZero (QUntil q) || Before t (QUntil q)).

(** The loop over the rows, newest first.  On a contiguous trail the database has filtered already and
    the position is the id; otherwise positions count down from the row count. *)
Fixpoint page_loop (contiguous : bool) (q : TrailQuery) (pos : Z) (out : list (Z * AuditRecord)) (l : list row)
  : result store_error (list (Z * AuditRecord) * bool) :=
  match l with
  | [] => Ok (out, false)
  | r :: l' =>
      let pos := if contiguous then pos else pos - 1 in
      let p := if contiguous then id r else pos in
      if negb contiguous && negb (before_bound q p && column_filters q r) then page_loop contiguous q pos out l'
      else match parse_time (timestamp r) with
      | None => Err (BadTimestamp (id r))
      | Some t =>
          if negb (in_window q t) then page_loop contiguous q pos out l'
          else if Z.of_nat (length out) =? QLimit q then Ok (out, true)
          else page_loop contiguous q pos (out ++ [(p, row_record r t)]) l'
      end
  end.

Definition Page (db : option database) (q : TrailQuery) : result store_error (list (Z * AuditRecord) * bool) :=
  match db with
  | None => Err ReadFailed
  | Some d =>
      let l := audit_records d in
      let count := Z.of_nat (length l) in
      let contiguous := count =? last_id l in
      let selected := if contiguous
        then filter (fun r => before_bound q (id r) && column_filters q r = true) l else l in
      page_loop contiguous q (count + 1) [] (rev selected)
  end.

(** [SELECT 1 FROM audit_records WHERE analyst_identity = ? LIMIT 1]. *)
Definition HasAnalyst (db : option database) (identity : string) : result store_error bool :=
  match db with
  | None => Err ReadFailed
  | Some d => Ok (existsb (fun r => bool_decide (analyst_identity r = identity)) (audit_records d))
  end.

(** ** Proofs: intact tables *)

Section chain_proofs.
Context `{HF : HashFunction}.

(** A row that links to [before] and carries its own hash. *)
Definition linked (before : string) (r : row) : Prop :=
  prev_hash r = before /\ exists rec, scan_row r = Some rec /\ hash r = ChainHash before rec.

(** A table every row of which links to the one before it. *)
Fixpoint intact_from (before : string) (l : list row) : Prop :=
  match l with [] => True | r :: l' => linked before r /\ intact_from (hash r) l' end.

#[local] Instance linked_dec before r : Decision (linked before r).
Proof.
  unfold linked. destruct (scan_row r) as [rec|]; [|right; naive_solver].
  destruct (decide (prev_hash r = before)); [|right; naive_solver].
  destruct (decide (hash r = ChainHash before rec)); [left; eauto|right; naive_solver].
Defined.

Lemma end_hash_nil before : end_hash before [] = before.
Proof. done. Qed.

Lemma end_hash_cons before r l : end_hash before (r :: l) = end_hash (hash r) l.
Proof.
  unfold end_hash. destruct l as [|s l]; [done|]. change (last (r :: s :: l)) with (last (s :: l)).
  destruct (last (s :: l)) eqn:E; [done|]. by apply last_None in E.
Qed.

Lemma end_hash_snoc before l r : end_hash before (l ++ [r]) = hash r.
Proof. unfold end_hash. by rewrite last_snoc. Qed.

Lemma intact_from_app before l1 l2 :
  intact_from before (l1 ++ l2) <-> intact_from before l1 /\ intact_from (end_hash before l1) l2.
Proof.
  revert before. induction l1 as [|r l1 IH]; intros before; simpl; [by rewrite end_hash_nil; tauto|].
  rewrite IH, end_hash_cons. tauto.
Qed.

Lemma intact_from_snoc before l r :
  intact_from before (l ++ [r]) <-> intact_from before l /\ linked (end_hash before l) r.
Proof. rewrite intact_from_app. simpl. tauto. Qed.

Lemma linked_nonempty before r : linked before r -> hash r <> GenesisHash.
Proof. intros (_ & rec & _ & ->). apply ChainHash_not_genesis. Qed.

Lemma intact_end_hash_go before l : go_string before -> intact_from before l -> go_string (end_hash before l).
Proof.
  intros Hb. destruct l as [|r l _] using rev_ind; [done|]. rewrite intact_from_snoc, end_hash_snoc.
  intros (_ & _ & rec & _ & ->). apply ChainHash_go.
Qed.

Lemma genesis_go : go_string GenesisHash.
Proof. by unfold go_string, max_int. Qed.

Lemma rows_cases before l :
  intact_from before l
  \/ exists pre r post, l = pre ++ r :: post /\ intact_from before pre /\ ~ linked (end_hash before pre) r.
Proof.
  revert before. induction l as [|r l IH]; intros before; [by left|].
  destruct (decide (linked before r)) as [Hr|Hr]; [|right; by exists [], r, l].
  destruct (IH (hash r)) as [Hl|(pre & s & post & -> & Hpre & Hs)]; [left; by split|right].
  exists (r :: pre), s, post. rewrite end_hash_cons. by split_and!.
Qed.

(** ** Proofs: the walk *)

Definition check_of (n : Z) (h : string) (k : Z) : ChainCheck :=
  {| Count := n; Head := h; FirstBreak := None; RetroactivelyChained := k |}.

Definition retro_count (boundary : Z) (l : list row) : Z :=
  Z.of_nat (length (filter (fun r => id r <= boundary) l)).

Lemma verify_rows_intact boundary n h k before l rest :
  intact_from before l ->
  verify_rows boundary (check_of n h k) before (l ++ rest)
  = verify_rows boundary (check_of (n + Z.of_nat (length l)) h (k + retro_count boundary l))
      (end_hash before l) rest.
Proof.
  revert n k before. induction l as [|r l IH]; intros n k before Hl.
  { rewrite end_hash_nil. unfold retro_count. simpl. by rewrite !Z.add_0_r. }
  destruct Hl as [(Hp & rec & Hs & Hh) Hl]. cbn [app verify_rows]. rewrite Hs. cbv zeta.
  cbn [FirstBreak Count RetroactivelyChained Head check_of].
  rewrite Hp, (bool_decide_eq_true_2 _ eq_refl), (bool_decide_eq_true_2 _ Hh). cbn [negb orb].
  fold (check_of (n + 1) h (k + (if id r <=? boundary then 1 else 0))). rewrite IH by done.
  rewrite end_hash_cons. f_equal. unfold check_of, retro_count. rewrite filter_cons. f_equal.
  - cbn [length]. lia.
  - destruct (Z.leb_spec (id r) boundary), (decide (id r <= boundary)); try lia. cbn [length]. lia.
Qed.

(** A break once found is the one reported. *)
Lemma verify_rows_break boundary check before l b :
  FirstBreak check = Some b -> FirstBreak (verify_rows boundary check before l) = Some b.
Proof.
  revert check before. induction l as [|r l IH]; intros check before Hb; cbn [verify_rows]; [done|].
  case_match; cbv zeta; [|by rewrite Hb]. apply IH. cbn [FirstBreak]. by rewrite Hb.
Qed.

Lemma verify_rows_unlinked boundary n h k before r l :
  ~ linked before r ->
  exists b, FirstBreak (verify_rows boundary (check_of n h k) before (r :: l)) = Some b
    /\ Position b = n + 1 /\ Got b = hash r.
Proof.
  intros Hr. cbn [verify_rows]. destruct (scan_row r) as [rec|] eqn:Hs; cbv zeta; [|by eexists].
  cbn [FirstBreak check_of Count].
  destruct (negb (bool_decide (prev_hash r = before)) || negb (bool_decide (hash r = ChainHash (prev_hash r) rec))) eqn:Hb.
  - eexists. split; [by apply verify_rows_break|done].
  - exfalso. apply orb_false_iff in Hb as [H1 H2].
    apply negb_false_iff, bool_decide_eq_true in H1, H2. apply Hr. subst before. split; eauto.
Qed.

Lemma VerifyChain_intact d :
  intact_from GenesisHash (audit_records d) ->
  VerifyChain (Some d)
  = Ok (check_of (Z.of_nat (length (audit_records d))) (end_hash GenesisHash (audit_records d))
         (retro_count (match chain_meta d with Some b => b | None => 0 end) (audit_records d))).
Proof.
  intros H. unfold VerifyChain. fold (check_of 0 GenesisHash 0).
  rewrite <- (app_nil_r (audit_records d)) at 1. by rewrite verify_rows_intact.
Qed.

Lemma VerifyChain_cases d c :
  VerifyChain (Some d) = Ok c ->
  (FirstBreak c = None /\ intact_from GenesisHash (audit_records d))
  \/ exists b pre r post, FirstBreak c = Some b /\ audit_records d = pre ++ r :: post
       /\ intact_from GenesisHash pre /\ ~ linked (end_hash GenesisHash pre) r
       /\ Position b = Z.of_nat (length pre) + 1 /\ Got b = hash r.
Proof.
  intros H. destruct (rows_cases GenesisHash (audit_records d)) as [Hi|(pre & r & post & Hd & Hpre & Hr)].
  - left. rewrite VerifyChain_intact in H by done. by injection H as <-.
  - right. unfold VerifyChain in H. fold (check_of 0 GenesisHash 0) in H. injection H as <-.
    rewrite Hd, verify_rows_intact by done.
    destruct (verify_rows_unlinked (match chain_meta d with Some b => b | None => 0 end)
      (0 + Z.of_nat (length pre)) GenesisHash
      (0 + retro_count (match chain_meta d with Some b => b | None => 0 end) pre) _ r post Hr)
      as (b & Hb & Hp & Hg).
    exists b, pre, r, post. split_and!; try done; lia.
Qed.
End chain_proofs.

(** ** Proofs: one head, one trail *)

Section head_proofs.
Context `{HF : HashFunction}.

Definition go_row (r : row) : Prop := forall rec, scan_row r = Some rec -> go_record rec.

(** Two rows that read as the same record, at the same place of the same chain. *)
Definition same_row (r s : row) : Prop :=
  prev_hash r = prev_hash s /\ hash r = hash s
  /\ exists x y, scan_row r = Some x /\ scan_row s = Some y /\ same_record x y.

(** Two rows whose hashes were computed over different bytes and are equal. *)
Definition colliding_rows (r s : row) : Prop :=
  exists x y, scan_row r = Some x /\ scan_row s = Some y
    /\ collision (chain_input (prev_hash r) x) (chain_input (prev_hash s) y).

Lemma linked_same_hash p q r s :
  go_string p -> go_string q -> go_row r -> go_row s -> linked p r -> linked q s -> hash r = hash s ->
  (p = q /\ same_row r s) \/ colliding_rows r s.
Proof.
  intros Hp Hq Hr Hs (Hpr & x & Hx & Hhr) (Hqs & y & Hy & Hhs) Hh.
  rewrite Hhr, Hhs in Hh. apply ChainHash_inj in Hh as [[Hsame Hpq]|Hc]; [| |by apply Hr|by apply Hs|done..].
  - left. split; [done|]. split; [congruence|]. split; [rewrite Hhr, Hhs|eauto].
    rewrite Hpq. unfold ChainHash, chain_input, Canonical. by destruct Hsame as (->&->&->&->&->&->&->&->).
  - right. exists x, y. by rewrite Hpr, Hqs.
Qed.

Lemma same_head l1 l2 :
  intact_from GenesisHash l1 -> intact_from GenesisHash l2 -> Forall go_row l1 -> Forall go_row l2 ->
  end_hash GenesisHash l1 = end_hash GenesisHash l2 ->
  Forall2 same_row l1 l2 \/ exists r s, r ∈ l1 /\ s ∈ l2 /\ colliding_rows r s.
Proof.
  revert l2. induction l1 as [|r l1 IH] using rev_ind; intros l2.
  { destruct l2 as [|s l2 _] using rev_ind; [by left; constructor|].
    rewrite intact_from_snoc, end_hash_snoc. intros _ [_ Hs%linked_nonempty] _ _ Hh. by symmetry in Hh. }
  rewrite intact_from_snoc, end_hash_snoc. destruct l2 as [|s l2 _] using rev_ind.
  { intros [_ Hr%linked_nonempty] _ _ _ Hh. done. }
  rewrite intact_from_snoc, end_hash_snoc, !Forall_app, !Forall_singleton.
  intros [Hl1 Hr] [Hl2 Hs] [Hg1 Hgr] [Hg2 Hgs] Hh.
  destruct (linked_same_hash _ _ r s (intact_end_hash_go _ _ genesis_go Hl1)
    (intact_end_hash_go _ _ genesis_go Hl2) Hgr Hgs Hr Hs Hh) as [[Hpq Hsame]|Hc].
  - destruct (IH l2 Hl1 Hl2 Hg1 Hg2 Hpq) as [Hf|(a & b & Ha & Hb & Hab)].
    + left. apply Forall2_app; [done|by constructor].
    + right. exists a, b. rewrite !elem_of_app. auto.
  - right. exists r, s. rewrite !elem_of_app, !list_elem_of_singleton. auto.
Qed.
End head_proofs.

(** ** Proofs: recording *)

Lemma scan_records_app l1 l2 r1 r2 :
  scan_records l1 = Ok r1 -> scan_records l2 = Ok r2 -> scan_records (l1 ++ l2) = Ok (r1 ++ r2).
Proof.
  revert r1. induction l1 as [|r l1 IH]; intros r1; simpl; [by intros [= <-]|].
  destruct (scan_row r); [|done]. intros (rs & Hrs & [= <-])%rbind_Ok_inv H2.
  by rewrite (IH rs Hrs H2).
Qed.

Lemma scan_record_row i rec link :
  formattable (Timestamp rec) -> scan_row (record_row i rec link) = Some rec.
Proof.
  intros Hf. unfold scan_row, record_row. cbn [timestamp]. rewrite parse_format_time by done.
  by destruct rec.
Qed.

Section record_proofs.
Context `{UT : UnicodeTables} `{HF : HashFunction}.

(** One call, every branch. *)
Lemma RecordChained_cases fails d rec d' out :
  RecordChained fails d rec = (d', out) ->
  match out with
  | Err e => d' = d /\ ((Validate rec <> [] /\ e = ErrInvalid (Validate rec))
                        \/ (Validate rec = [] /\ exists s, fails s = true /\ e = Storage s))
  | Ok link =>
      Validate rec = [] /\ (forall s, fails s = false)
      /\ Prev link = end_hash GenesisHash (audit_records d) /\ Hash link = ChainHash (Prev link) rec
      /\ exists i, last_id (audit_records d) < i /\ sqlite_sequence d < i
         /\ d' = {| audit_records := audit_records d ++ [record_row i rec link]; sqlite_sequence := i;
                    chain_meta := chain_meta d |}
  end.
Proof.
  unfold RecordChained. destruct (Validate rec) as [|e es].
  2: { intros [= <- <-]. split; [done|]. left. split; [discriminate|reflexivity]. }
  destruct (fails Conn) eqn:H1; [intros [= <- <-]; split; [done|right; eauto]|].
  destruct (fails Begin) eqn:H2; [intros [= <- <-]; split; [done|right; eauto]|].
  destruct (fails ReadHead) eqn:H3; [intros [= <- <-]; split; [done|right; eauto]|]. cbv zeta.
  destruct (fails Insert) eqn:H4; [intros [= <- <-]; split; [done|right; eauto]|].
  destruct (fails Commit) eqn:H5; [intros [= <- <-]; split; [done|right; eauto]|].
  intros [= <- <-]. split_and!; try done; [by intros []|].
  eexists. split_and!; [| |done]; cbn [audit_records sqlite_sequence]; lia.
Qed.

(** A sequence of calls on one database, and the records they accepted. *)
Fixpoint record_all (d : database) (calls : list ((statement -> bool) * AuditRecord))
  : database * list (result store_error ChainLink) :=
  match calls with
  | [] => (d, [])
  | (fails, rec) :: calls' =>
      let '(d1, out) := RecordChained fails d rec in
      let '(d2, outs) := record_all d1 calls' in (d2, out :: outs)
  end.

Fixpoint accepted (calls : list ((statement -> bool) * AuditRecord)) (outs : list (result store_error ChainLink))
  : list AuditRecord :=
  match calls, outs with
  | (_, rec) :: calls', out :: outs' => if is_ok out then rec :: accepted calls' outs' else accepted calls' outs'
  | _, _ => []
  end.

(** The hash of the last link returned. *)
Fixpoint last_link (before : string) (outs : list (result store_error ChainLink)) : string :=
  match outs with
  | [] => before
  | Ok l :: outs' => last_link (Hash l) outs'
  | Err _ :: outs' => last_link before outs'
  end.

Definition above (b : Z) (d : database) : Prop := b <= sqlite_sequence d /\ retro_count b (audit_records d) = 0.

Lemma record_all_cases calls d d' outs recs b :
  record_all d calls = (d', outs) -> Forall (fun c => formattable (Timestamp c.2)) calls ->
  intact_from GenesisHash (audit_records d) -> scan_records (audit_records d) = Ok recs -> above b d ->
  intact_from GenesisHash (audit_records d') /\ scan_records (audit_records d') = Ok (recs ++ accepted calls outs)
  /\ end_hash GenesisHash (audit_records d') = last_link (end_hash GenesisHash (audit_records d)) outs
  /\ above b d' /\ chain_meta d' = chain_meta d.
Proof.
  intros H Hf. revert d d' outs recs H.
  induction Hf as [|[fails rec] calls Hrec _ IH]; intros d d' outs recs H Hi Hs Hb; cbn [record_all] in H.
  { injection H as <- <-. by rewrite app_nil_r. }
  destruct (RecordChained fails d rec) as [d1 out] eqn:Hc.
  destruct (record_all d1 calls) as [d2 outs'] eqn:Ha. injection H as <- <-.
  pose proof (RecordChained_cases _ _ _ _ _ Hc) as Hcase. destruct out as [link|e]; cbn [accepted is_ok last_link].
  - destruct Hcase as (_ & _ & Hp & Hh & i & Hi1 & Hi2 & ->). destruct Hb as [Hb1 Hb2].
    rewrite (cons_middle rec recs (accepted calls outs')), app_assoc.
    specialize (IH _ _ _ (recs ++ [rec]) Ha). cbn [audit_records chain_meta] in IH.
    rewrite end_hash_snoc in IH. apply IH.
    + apply intact_from_snoc. split; [done|]. split; [done|]. exists rec.
      rewrite scan_record_row by done. split; [done|]. by rewrite <- Hp.
    + apply scan_records_app; [done|]. cbn [scan_records]. by rewrite scan_record_row.
    + split; cbn [sqlite_sequence audit_records]; [lia|]. unfold retro_count in *.
      rewrite filter_app, filter_cons, filter_nil, decide_False by (cbn [id record_row]; lia).
      by rewrite app_nil_r.
  - destruct Hcase as [-> _]. by apply IH.
Qed.
End record_proofs.
