(* ===== verification/AuditTrail.v ===== *)
(** * Theorems about the audit trail

    About AuditStore.v: what an intact chain and a known head say about the rows, what a sequence of
    recordings leaves on disk, what the migration's backfill does and does not vouch for, and the order
    and the positions the reads return. *)
From Stdlib Require Import ZArith Lia Ascii.
From stdpp Require Import base strings list sorting.
From S2P Require Import Prelude.
From S2P Require Import GoStrings.
From S2P Require Import Utf8.
From S2P Require Import Visible.
From S2P Require Import GoTime.
From S2P Require Import Encode.
From S2P Require Import AuditLog.
From S2P Require Import AuditStore.

#[local] Opaque format_time parse_time.

(** ** The backfill *)

Section backfill.
Context `{HF : HashFunction}.

Definition with_hashes (prev h : string) (r : row) : row :=
  {| id := id r; analyst_identity := analyst_identity r; tool := tool r;
     target_upstream := target_upstream r; timestamp := timestamp r; outcome := outcome r;
     reason := reason r; source_address := source_address r; analyst_name := analyst_name r;
     prev_hash := prev; hash := h |}.

Lemma set_hashes_map prev h i l :
  set_hashes prev h i l = map (fun r => if id r =? i then with_hashes prev h r else r) l.
Proof. done. Qed.

Lemma set_hashes_other prev h i l : i ∉ map id l -> set_hashes prev h i l = l.
Proof.
  intros Hi. rewrite set_hashes_map. induction l as [|r l IH]; [done|]. simpl in *.
  apply not_elem_of_cons in Hi as [Hr Hl]. rewrite IH by done.
  by rewrite (proj2 (Z.eqb_neq _ _) (not_eq_sym Hr)).
Qed.

Lemma set_hashes_at prev h pre r post :
  NoDup (map id (pre ++ r :: post)) ->
  set_hashes prev h (id r) (pre ++ r :: post) = pre ++ with_hashes prev h r :: post.
Proof.
  rewrite map_app. cbn [map]. intros (_ & Hpre & (Hpost & _)%NoDup_cons)%NoDup_app.
  assert (Hp : id r ∉ map id pre) by (intros Hin; apply (Hpre _ Hin); apply list_elem_of_here).
  rewrite set_hashes_map, map_app, <- !set_hashes_map, set_hashes_other by done. f_equal.
  rewrite set_hashes_map. cbn [map]. rewrite Z.eqb_refl, <- set_hashes_map, set_hashes_other by done. done.
Qed.

Lemma with_hashes_ids prev h l r post :
  map id (l ++ with_hashes prev h r :: post) = map id (l ++ r :: post).
Proof. by rewrite !map_app. Qed.

(** The rows of [l] chained one onto the next, from [prev]. *)
Fixpoint relink (prev : string) (l : list row) : list row :=
  match l with
  | [] => []
  | r :: l' =>
      match scan_row r with
      | Some rec => let h := ChainHash prev rec in with_hashes prev h r :: relink h l'
      | None => r :: l'
      end
  end.

Lemma chain_onto_relink prev b pre l todo :
  NoDup (map id (pre ++ l)) -> scan_unhashed l = Ok todo ->
  chain_onto prev b todo (pre ++ l) = (pre ++ relink prev l, match last l with Some r => id r | None => b end).
Proof.
  revert prev b pre todo. induction l as [|r l IH]; intros prev b pre todo Hn Hs; cbn [scan_unhashed] in Hs.
  { injection Hs as <-. done. }
  destruct (scan_row r) as [rec|] eqn:Hr; [|done].
  apply rbind_Ok_inv in Hs as (rest & Hrest & [= <-]). cbn [chain_onto relink]. rewrite Hr. cbv zeta.
  rewrite set_hashes_at, (cons_middle (with_hashes _ _ r)), app_assoc by done.
  rewrite IH; [| |done].
  - rewrite <- app_assoc. cbn [app]. f_equal. destruct l as [|s l]; [done|].
    change (last (r :: s :: l)) with (last (s :: l)).
    destruct (last (s :: l)) eqn:E; [done|]. by apply last_None in E.
  - rewrite <- app_assoc. cbn [app]. by rewrite with_hashes_ids.
Qed.

Lemma relink_intact prev l todo : scan_unhashed l = Ok todo -> intact_from prev (relink prev l).
Proof.
  revert prev todo. induction l as [|r l IH]; intros prev todo Hs; [done|]. cbn [scan_unhashed] in Hs.
  destruct (scan_row r) as [rec|] eqn:Hr; [|done]. apply rbind_Ok_inv in Hs as (rest & Hrest & _).
  cbn [relink]. rewrite Hr. cbv zeta. split; [|by apply IH with rest].
  split; [done|]. exists rec. split; [|done]. exact Hr.
Qed.

Lemma relink_columns prev l : Forall2 (fun r r' => exists p h, r' = with_hashes p h r) l (relink prev l).
Proof.
  revert prev. assert (Hrefl : forall l, Forall2 (fun r r' => exists p h, r' = with_hashes p h r) l l).
  { induction l0 as [|s l0 IH0]; constructor; [|done]. exists (prev_hash s), (hash s). by destruct s. }
  induction l as [|r l IH]; intros prev; cbn [relink]; [done|].
  destruct (scan_row r); [|apply Hrefl]. constructor; [eauto|apply IH].
Qed.

Lemma filter_all (P : row -> Prop) `{forall r, Decision (P r)} l :
  Forall P l -> filter P l = l.
Proof. induction 1 as [|r l Hr _ IH]; [done|]. by rewrite filter_cons, decide_True, IH. Qed.

Lemma filter_none (P : row -> Prop) `{forall r, Decision (P r)} l :
  Forall (fun r => ~ P r) l -> filter P l = [].
Proof. induction 1 as [|r l Hr _ IH]; [done|]. by rewrite filter_cons, decide_False, IH. Qed.

(** The backfill of a table whose unhashed rows are its newest. *)
Lemma backfillChain_suffix d hashed fresh d' :
  chain_meta d = None -> audit_records d = hashed ++ fresh -> NoDup (map id (audit_records d)) ->
  Forall (fun r => hash r <> "") hashed -> Forall (fun r => hash r = "") fresh ->
  backfillChain d = Ok d' ->
  audit_records d' = hashed ++ relink (end_hash GenesisHash hashed) fresh
  /\ chain_meta d' = Some (match last fresh with Some r => id r | None => 0 end)
  /\ intact_from (end_hash GenesisHash hashed) (relink (end_hash GenesisHash hashed) fresh).
Proof.
  intros Hm Hd Hn Hh Hf H. unfold backfillChain in H. rewrite Hm in H.
  apply rbind_Ok_inv in H as (todo & Htodo & H). rewrite Hd in *.
  rewrite filter_app, (filter_none _ hashed), (filter_all _ fresh) in Htodo by done.
  rewrite filter_app, (filter_all _ hashed), (filter_none _ fresh), app_nil_r in H.
  2: { eapply Forall_impl; [exact Hf|]. intros r Hr Hc. by apply Hc. }
  2: done.
  cbn [app] in Htodo. rewrite (chain_onto_relink _ 0 hashed fresh todo Hn Htodo) in H.
  injection H as <-. split_and!; [done|done|by apply relink_intact with todo].
Qed.

(** The backfill of any table: a row that carries a hash is left alone. *)
Lemma chain_onto_keeps todo prev b l l' b' r :
  chain_onto prev b todo l = (l', b') -> r ∈ l -> id r ∉ map fst todo -> r ∈ l'.
Proof.
  revert prev b l. induction todo as [|[i rec] todo IH]; intros prev b l H Hr Hi; cbn [chain_onto] in H.
  { by injection H as <- <-. }
  cbv zeta in H. simpl in Hi. apply not_elem_of_cons in Hi as [Hri Hi].
  apply (IH _ _ _ H); [|done]. rewrite set_hashes_map. apply list_elem_of_fmap.
  exists r. by rewrite (proj2 (Z.eqb_neq _ _) Hri).
Qed.

Lemma scan_unhashed_ids l todo : scan_unhashed l = Ok todo -> map fst todo = map id l.
Proof.
  revert todo. induction l as [|r l IH]; intros todo; simpl; [by intros [= <-]|].
  destruct (scan_row r); [|done]. intros (rest & Hrest & [= <-])%rbind_Ok_inv. simpl. by rewrite (IH rest).
Qed.

Lemma NoDup_ids_inj l r s : NoDup (map id l) -> r ∈ l -> s ∈ l -> id r = id s -> r = s.
Proof.
  induction l as [|x l IH]; [by intros _ ?%elem_of_nil|]. simpl.
  intros [Hx Hn]%NoDup_cons Hr Hs Heq. apply elem_of_cons in Hr as [->|Hr], Hs as [->|Hs]; auto.
  - exfalso. apply Hx. rewrite Heq. by apply list_elem_of_fmap_2.
  - exfalso. apply Hx. rewrite <- Heq. by apply list_elem_of_fmap_2.
Qed.

Lemma backfillChain_keeps d d' r :
  NoDup (map id (audit_records d)) -> backfillChain d = Ok d' ->
  r ∈ audit_records d -> hash r <> "" -> r ∈ audit_records d'.
Proof.
  intros Hn H Hr Hh. unfold backfillChain in H. destruct (chain_meta d); [by injection H as <-|].
  apply rbind_Ok_inv in H as (todo & Htodo & H).
  destruct (chain_onto _ 0 todo (audit_records d)) as [l' b'] eqn:Hc. injection H as <-. cbn [audit_records].
  apply (chain_onto_keeps _ _ _ _ _ _ r Hc Hr). rewrite (scan_unhashed_ids _ _ Htodo).
  intros (s & Heq & [Hs Hin]%list_elem_of_filter)%list_elem_of_fmap.
  rewrite (NoDup_ids_inj _ r s Hn Hr Hin Heq) in Hh. done.
Qed.
End backfill.

(** ** The stable sort *)

Definition at_or_before (r s : AuditRecord) : Prop := inst (Timestamp r) <= inst (Timestamp s).

Lemma insert_stable_Permutation r l : insert_stable r l ≡ₚ r :: l.
Proof.
  induction l as [|s l IH]; simpl; [done|]. case_match; [done|]. rewrite IH. apply Permutation_swap.
Qed.

Lemma sort_stable_Permutation l : sort_stable l ≡ₚ l.
Proof. induction l as [|r l IH]; simpl; [done|]. by rewrite insert_stable_Permutation, IH. Qed.

Lemma insert_stable_sorted r l : StronglySorted at_or_before l -> StronglySorted at_or_before (insert_stable r l).
Proof.
  induction 1 as [|s l Hl IH Hs]; simpl; [by repeat constructor|].
  destruct (Z.leb_spec (inst (Timestamp r)) (inst (Timestamp s))) as [Hle|Hlt].
  - constructor; [by constructor|]. constructor; [done|]. eapply Forall_impl; [exact Hs|].
    unfold at_or_before. intros x Hx. lia.
  - constructor; [done|]. rewrite insert_stable_Permutation. constructor; [|done]. unfold at_or_before. lia.
Qed.

Lemma sort_stable_sorted l : StronglySorted at_or_before (sort_stable l).
Proof. induction l as [|r l IH]; simpl; [constructor|by apply insert_stable_sorted]. Qed.

Lemma insert_stable_ties t r l :
  filter (fun s => inst (Timestamp s) = t) (insert_stable r l) = filter (fun s => inst (Timestamp s) = t) (r :: l).
Proof.
  induction l as [|s l IH]; simpl; [done|].
  destruct (Z.leb_spec (inst (Timestamp r)) (inst (Timestamp s))) as [Hle|Hlt]; [done|].
  rewrite filter_cons, IH, !filter_cons. repeat case_decide; try done. lia.
Qed.

Lemma sort_stable_ties t l :
  filter (fun s => inst (Timestamp s) = t) (sort_stable l) = filter (fun s => inst (Timestamp s) = t) l.
Proof.
  induction l as [|r l IH]; [done|]. cbn [sort_stable foldr]. rewrite insert_stable_ties, !filter_cons.
  fold (sort_stable l). by rewrite IH.
Qed.

(** ** Pages *)

(** Each row with its chain position. *)
Definition positioned (l : list row) : list (Z * row) := imap (fun i r => (Z.of_nat i + 1, r)) l.

(** What a query makes of a row at a position. *)
Definition pick (q : TrailQuery) (x : Z * row) : option (Z * AuditRecord) :=
  if before_bound q x.1 && column_filters q x.2 then
    match parse_time (timestamp x.2) with
    | Some t => if in_window q t then Some (x.1, row_record x.2 t) else None
    | None => None
    end
  else None.

Definition readable (r : row) : Prop := parse_time (timestamp r) <> None.

(** The page [out] becomes once [rest] is appended, and whether something is left over. *)
Definition page_of (q : TrailQuery) (out rest : list (Z * AuditRecord)) : list (Z * AuditRecord) * bool :=
  (take (Z.to_nat (QLimit q)) (out ++ rest), QLimit q <? Z.of_nat (length (out ++ rest))).

Lemma positioned_snoc l r : positioned (l ++ [r]) = positioned l ++ [(Z.of_nat (length l) + 1, r)].
Proof. unfold positioned. rewrite imap_app. cbn. by rewrite Nat.add_0_r. Qed.

Lemma page_of_full q out x rest :
  0 <= QLimit q -> Z.of_nat (length out) = QLimit q -> page_of q out (x :: rest) = (out, true).
Proof.
  intros Hq Hl. unfold page_of. f_equal.
  - rewrite take_app_le, take_ge by lia. done.
  - apply Z.ltb_lt. rewrite length_app. simpl. lia.
Qed.

(** One row of the loop, its own filters passed or not. *)
Lemma page_step q p r rest out loop :
  readable r -> 0 <= QLimit q -> Z.of_nat (length out) <= QLimit q ->
  before_bound q p && column_filters q r = true ->
  (forall out, Z.of_nat (length out) <= QLimit q -> loop out = Ok (page_of q out rest)) ->
  match parse_time (timestamp r) with
  | None => Err (BadTimestamp (id r))
  | Some t =>
      if negb (in_window q t) then loop out
      else if Z.of_nat (length out) =? QLimit q then Ok (out, true)
      else loop (out ++ [(p, row_record r t)])
  end = Ok (E := store_error) (page_of q out (match pick q (p, r) with Some x => x :: rest | None => rest end)).
Proof.
  intros Hr Hq Hl Hf IH. unfold pick. cbn [fst snd]. rewrite Hf.
  destruct (parse_time (timestamp r)) as [t|] eqn:Ht; [|done].
  destruct (in_window q t); cbn [negb]; [|by apply IH].
  destruct (Z.eqb_spec (Z.of_nat (length out)) (QLimit q)) as [He|Hne].
  - by rewrite page_of_full.
  - rewrite IH by (rewrite length_app; simpl; lia). unfold page_of. by rewrite <- app_assoc.
Qed.

Lemma page_loop_gap q l out :
  Forall readable l -> 0 <= QLimit q -> Z.of_nat (length out) <= QLimit q ->
  page_loop false q (Z.of_nat (length l) + 1) out (rev l)
  = Ok (page_of q out (omap (pick q) (rev (positioned l)))).
Proof.
  intros Hr Hq. revert out. induction l as [|r l IH] using rev_ind; intros out Hl.
  { unfold page_of. simpl. rewrite app_nil_r, take_ge by lia. rewrite (proj2 (Z.ltb_ge _ _)) by lia. done. }
  rewrite Forall_app, Forall_singleton in Hr. destruct Hr as [Hr Hr1].
  rewrite positioned_snoc, !rev_app_distr. cbn [rev app page_loop omap list_omap]. cbv zeta.
  rewrite length_app. cbn [length].
  replace (Z.of_nat (length l + 1) + 1 - 1) with (Z.of_nat (length l) + 1) by lia. cbn [negb andb].
  destruct (before_bound q _ && column_filters q r) eqn:Hf; cbn [negb].
  - apply (page_step q _ r _ out (fun out => page_loop false q (Z.of_nat (length l) + 1) out (rev l))); try done.
    intros out' Hl'. by apply IH.
  - unfold pick at 1. cbn [fst snd]. rewrite Hf. by apply IH.
Qed.

Lemma page_loop_contiguous q pos l out :
  Forall readable l -> 0 <= QLimit q -> Z.of_nat (length out) <= QLimit q ->
  page_loop true q pos out (filter (fun r => before_bound q (id r) && column_filters q r = true) l)
  = Ok (page_of q out (omap (pick q) (map (fun r => (id r, r)) l))).
Proof.
  intros Hr Hq. revert out. induction Hr as [|r l Hr _ IH]; intros out Hl.
  { unfold page_of. simpl. rewrite app_nil_r, take_ge by lia. rewrite (proj2 (Z.ltb_ge _ _)) by lia. done. }
  rewrite filter_cons. cbn [map omap list_omap]. case_decide as Hf.
  - cbn [page_loop negb andb]. cbv zeta.
    by apply (page_step q _ r _ out (fun out => page_loop true q pos out (filter _ l))).
  - apply not_true_is_false in Hf. unfold pick at 1. cbn [fst snd]. rewrite Hf. by apply IH.
Qed.

(** The ids an AUTOINCREMENT column gives: positive and increasing, perhaps with gaps. *)
Definition autoincremented (l : list row) : Prop :=
  StronglySorted Z.lt (map id l) /\ Forall (fun r => 1 <= id r) l.

Lemma last_id_snoc l r : last_id (l ++ [r]) = id r.
Proof. unfold last_id. by rewrite last_snoc. Qed.

Lemma autoincremented_snoc l r :
  autoincremented (l ++ [r]) -> autoincremented l /\ last_id l < id r /\ 1 <= id r.
Proof.
  unfold autoincremented. rewrite map_app, Forall_app, Forall_singleton. intros [Hs [Hf Hr]].
  apply StronglySorted_app in Hs as (Hlt & Hs & _). split_and!; [done..| |done].
  destruct l as [|s l _] using rev_ind; [change (last_id []) with 0; lia|]. rewrite last_id_snoc.
  apply Hlt; [|apply list_elem_of_here]. rewrite map_app. apply elem_of_app. right. apply list_elem_of_here.
Qed.

Lemma autoincremented_length l : autoincremented l -> Z.of_nat (length l) <= last_id l.
Proof.
  induction l as [|r l IH] using rev_ind; [done|]. intros (Hl & Hr & _)%autoincremented_snoc.
  rewrite last_id_snoc, length_app. simpl. specialize (IH Hl). lia.
Qed.

Lemma contiguous_positions l :
  autoincremented l -> Z.of_nat (length l) = last_id l -> positioned l = map (fun r => (id r, r)) l.
Proof.
  induction l as [|r l IH] using rev_ind; [done|]. intros (Hl & Hr & _)%autoincremented_snoc Hn.
  rewrite last_id_snoc, length_app in Hn. simpl in Hn. pose proof (autoincremented_length l Hl).
  rewrite positioned_snoc, map_app, IH by (done || lia). cbn [map]. repeat f_equal. lia.
Qed.

Lemma filter_rev {A} (P : A -> Prop) `{forall x, Decision (P x)} l : filter P (rev l) = rev (filter P l).
Proof.
  induction l as [|x l IH]; [done|]. simpl. rewrite filter_app, IH, !filter_cons, filter_nil.
  case_decide; simpl; [done|by rewrite app_nil_r].
Qed.

Lemma scan_records_length l recs : scan_records l = Ok recs -> length recs = length l.
Proof.
  revert recs. induction l as [|r l IH]; intros recs; cbn [scan_records]; [by intros [= <-]|].
  destruct (scan_row r); [|done]. intros (rest & Hrest & [= <-])%rbind_Ok_inv. simpl. by rewrite (IH rest).
Qed.

(** ** Theorems *)

Section theorems.
Context `{UT : UnicodeTables} `{HF : HashFunction}.

(** C26 [known_head_fixes_trail]: one recorded head determines the whole trail.  If two databases, each
    whatever an attacker may have written, both verify without a break and report the same head, then
    they hold the same records in the same order, linked the same way, or two rows exhibit a
    collision of the hash on the bytes the chain covers.  Nothing is assumed about lengths, ids,
    boundaries or how the rows came to be: truncation, insertion, deletion, edits of any covered
    column and any re-chaining all change the head. *)
Theorem known_head_fixes_trail d1 d2 c1 c2 :
  VerifyChain (Some d1) = Ok c1 -> VerifyChain (Some d2) = Ok c2 ->
  Intact c1 = true -> Intact c2 = true -> Head c1 = Head c2 ->
  Forall go_row (audit_records d1) -> Forall go_row (audit_records d2) ->
  Forall2 same_row (audit_records d1) (audit_records d2)
  \/ exists r s, r ∈ audit_records d1 /\ s ∈ audit_records d2 /\ colliding_rows r s.
Proof.
  intros H1 H2 I1 I2 Hh G1 G2. unfold Intact in *.
  destruct (VerifyChain_cases d1 c1 H1) as [[_ A1]|(b1 & ? & ? & ? & B1 & _)]; [|by rewrite B1 in I1].
  destruct (VerifyChain_cases d2 c2 H2) as [[_ A2]|(b2 & ? & ? & ? & B2 & _)]; [|by rewrite B2 in I2].
  rewrite VerifyChain_intact in H1, H2 by done. injection H1 as <-. injection H2 as <-.
  by apply same_head.
Qed.

(** Fact [VerifyChain_reports_first_break]: verification of an arbitrary table.  It reports no break
    exactly when every row links to the one before and carries its own hash, and then the head is the
    last row's and every row was counted.  Otherwise the reported position is that of the first row
    that is unreadable, does not link or does not hash: every row before it is intact. *)
Theorem VerifyChain_reports_first_break d c :
  VerifyChain (Some d) = Ok c ->
  (FirstBreak c = None <-> intact_from GenesisHash (audit_records d))
  /\ (FirstBreak c = None ->
      Count c = Z.of_nat (length (audit_records d)) /\ Head c = end_hash GenesisHash (audit_records d))
  /\ (forall b, FirstBreak c = Some b -> exists pre r post,
      audit_records d = pre ++ r :: post /\ Position b = Z.of_nat (length pre) + 1 /\ Got b = hash r
      /\ intact_from GenesisHash pre /\ ~ linked (end_hash GenesisHash pre) r).
Proof.
  intros H. destruct (VerifyChain_cases d c H) as [[Hn Hi]|(b & pre & r & post & Hb & Hd & Hpre & Hr & Hp & Hg)].
  - split_and!; [done| |by rewrite Hn]. intros _. rewrite VerifyChain_intact in H by done. by injection H as <-.
  - rewrite Hb. split_and!; [|done|].
    + split; [done|]. rewrite Hd, intact_from_app. intros [_ [Hl _]]. done.
    + intros b' [= <-]. by exists pre, r, post.
Qed.

(** C27 [recorded_trail_verifies]: what the gateway writes, verifies.  From an empty migrated database,
    any sequence of [RecordChained] calls, any of whose statements may fail, leaves a trail that holds
    exactly the records whose calls reported success, in call order and as they were given, and that
    verifies with one count per accepted record, the hash last returned as its head, and nothing
    counted as chained after the fact.  The timestamps are ones the text layout represents. *)
Theorem recorded_trail_verifies d calls d' outs :
  backfillChain {| audit_records := []; sqlite_sequence := 0; chain_meta := None |} = Ok d ->
  record_all d calls = (d', outs) ->
  Forall (fun c => formattable (Timestamp c.2)) calls ->
  ChainOrder (Some d') = Ok (accepted calls outs)
  /\ VerifyChain (Some d')
     = Ok {| Count := Z.of_nat (length (accepted calls outs)); Head := last_link GenesisHash outs;
             FirstBreak := None; RetroactivelyChained := 0 |}.
Proof.
  intros [= <-] H Hf.
  destruct (record_all_cases _ _ _ _ [] 0 H Hf I eq_refl (conj (Z.le_refl 0) eq_refl))
    as (Hi & Hs & He & [_ Hz] & Hm).
  split; [done|]. rewrite VerifyChain_intact, He, Hm by done. cbn [chain_meta]. rewrite Hz. unfold check_of.
  by rewrite <- (scan_records_length _ _ Hs).
Qed.

(** Fact [RecordChained_atomic]: one call writes one whole row or nothing.  It succeeds exactly when the
    record is valid and no statement fails; then the row appended holds the record's columns, an id
    above every id ever given, the previous row's hash and the record's own, which are the link
    returned.  On any error the table is as it was, and an invalid record is reported with every rule
    it breaks. *)
Theorem RecordChained_atomic fails d rec d' out :
  RecordChained fails d rec = (d', out) ->
  (is_ok out = true <-> Validate rec = [] /\ forall s, fails s = false)
  /\ (forall link, out = Ok link ->
       Prev link = end_hash GenesisHash (audit_records d) /\ Hash link = ChainHash (Prev link) rec
       /\ exists i, audit_records d' = audit_records d ++ [record_row i rec link]
            /\ last_id (audit_records d) < i /\ sqlite_sequence d < i /\ sqlite_sequence d' = i)
  /\ (forall e, out = Err e -> d' = d /\ (Validate rec <> [] -> e = ErrInvalid (Validate rec))).
Proof.
  intros H. apply RecordChained_cases in H. destruct out as [link|e].
  - destruct H as (Hv & Hf & Hp & Hh & i & Hi1 & Hi2 & ->). split_and!; [done| |done].
    intros l [= <-]. split_and!; [done..|]. by exists i.
  - destruct H as [-> H]. split_and!; [|done|].
    + split; [done|]. intros [Hv Hf]. destruct H as [[Hn _]|(_ & s & Hs & _)]; [done|]. by rewrite Hf in Hs.
    + intros e' [= <-]. split; [done|]. by destruct H as [[_ ?]|[? _]].
Qed.

(** Fact [backfill_never_resigns]: the migration cannot be used to sign an edited trail.  Whatever the
    table holds, a row that carries a hash survives the backfill untouched.  When the unhashed rows
    are the newest ones, they are chained onto the existing tail with their columns as they stand, and
    the whole trail verifies afterwards exactly when the rows already hashed verified by
    themselves. *)
Theorem backfill_never_resigns d d' :
  NoDup (map id (audit_records d)) -> backfillChain d = Ok d' ->
  (forall r, r ∈ audit_records d -> hash r <> "" -> r ∈ audit_records d')
  /\ (forall hashed fresh, chain_meta d = None -> audit_records d = hashed ++ fresh ->
      Forall (fun r => hash r <> "") hashed -> Forall (fun r => hash r = "") fresh ->
      (exists tail, audit_records d' = hashed ++ tail
        /\ Forall2 (fun r r' => exists p h, r' = with_hashes p h r) fresh tail)
      /\ (intact_from GenesisHash (audit_records d') <-> intact_from GenesisHash hashed)
      /\ chain_meta d' = Some (last_id fresh)).
Proof.
  intros Hn H. split; [intros r; by apply backfillChain_keeps|].
  intros hashed fresh Hm Hd Hh Hf.
  destruct (backfillChain_suffix d hashed fresh d' Hm Hd Hn Hh Hf H) as (Hd' & Hm' & Hi).
  split_and!; [|rewrite Hd', intact_from_app; tauto|done].
  eexists. split; [done|apply relink_columns].
Qed.

(** Fact [deleting_meta_clears_disclosure]: the retroactive boundary does not survive the loss of its
    row.  When [audit_chain_meta] is empty and every row carries a hash, the backfill writes boundary
    0, so a trail that was chained after the fact is reported as chained when written: no row is
    counted as retroactive. *)
Theorem deleting_meta_clears_disclosure d :
  chain_meta d = None -> Forall (fun r => hash r <> "") (audit_records d) ->
  autoincremented (audit_records d) -> intact_from GenesisHash (audit_records d) ->
  exists d' c, backfillChain d = Ok d' /\ audit_records d' = audit_records d
    /\ VerifyChain (Some d') = Ok c /\ Intact c = true /\ RetroactivelyChained c = 0.
Proof.
  intros Hm Hh [_ Hid] Hi. unfold backfillChain. rewrite Hm, filter_none.
  2: { eapply Forall_impl; [exact Hh|]. intros r Hr Hc. by apply Hr. }
  cbn [scan_unhashed rbind chain_onto]. eexists _, _. split_and!; [done|done|by apply VerifyChain_intact|done|].
  cbn [chain_meta audit_records check_of RetroactivelyChained]. unfold retro_count.
  rewrite filter_none; [done|]. eapply Forall_impl; [exact Hid|]. intros r Hr. simpl in *. lia.
Qed.

(** Fact [List_chronological]: [List] returns every record of the trail, once, oldest instant first
    whatever zone or precision it was written with, and records of one instant in chain order. *)
Theorem List_chronological db l :
  List db = Ok l ->
  exists records, ChainOrder db = Ok records /\ l ≡ₚ records
    /\ StronglySorted at_or_before l
    /\ forall t, filter (fun r => inst (Timestamp r) = t) l = filter (fun r => inst (Timestamp r) = t) records.
Proof.
  intros (records & Hr & [= <-])%rbind_Ok_inv. exists records. split_and!; [done| | |].
  - apply sort_stable_Permutation.
  - apply sort_stable_sorted.
  - intros t. apply sort_stable_ties.
Qed.

(** Fact [Page_exact]: both ways of paging are the same paging.  On a trail whose rows are readable,
    [Page] returns the newest [Limit] matching records, newest first, each with the chain position
    [VerifyChain] gives it, and says whether more match, whether the ids run without a gap (the
    filters then run in the database and the position is the id) or rows were deleted (positions are
    counted). *)
Theorem Page_exact d q :
  autoincremented (audit_records d) -> Forall readable (audit_records d) -> 0 <= QLimit q ->
  Page (Some d) q
  = let matching := omap (pick q) (rev (positioned (audit_records d))) in
    Ok (take (Z.to_nat (QLimit q)) matching, QLimit q <? Z.of_nat (length matching)).
Proof.
  intros Ha Hr Hq. cbv zeta. unfold Page. cbv zeta.
  destruct (Z.eqb_spec (Z.of_nat (length (audit_records d))) (last_id (audit_records d))) as [He|Hne].
  - rewrite <- filter_rev, page_loop_contiguous; [| |done|simpl; lia].
    + by rewrite (contiguous_positions _ Ha He), map_rev.
    + by apply Forall_rev.
  - by rewrite page_loop_gap by (done || simpl; lia).
Qed.
End theorems.

(** ** The theorems at concrete inputs *)

Definition demo_call (at_ : Z) (o : string) : AuditRecord :=
  {| AnalystIdentity := "u1"; Tool := "siem.search"; TargetUpstream := "siem";
     Timestamp := Time (at_ * second) 0; Outcome := o; Reason := ""; SourceAddress := "10.0.0.9";
     AnalystName := "" |}.

Definition no_fault (s : statement) : bool := false.
Definition fault_at (f : statement) (s : statement) : bool := bool_decide (s = f).

Definition demo_empty : database := {| audit_records := []; sqlite_sequence := 0; chain_meta := Some 0 |}.

(** Three calls, the second refused by the database; the last is earlier than the first. *)
Definition demo_calls : list ((statement -> bool) * AuditRecord) :=
  [(no_fault, demo_call 63893739845 OutcomeAllowed); (fault_at Insert, demo_call 63893739846 OutcomeDenied);
   (no_fault, demo_call 63893739800 OutcomeFailed)].

Definition demo_trail : database :=
  fst (record_all (UT := demo_tables) (HF := weak_hash) demo_empty demo_calls).

Definition demo_head : string :=
  last_link GenesisHash (snd (record_all (UT := demo_tables) (HF := weak_hash) demo_empty demo_calls)).

Definition demo_query : TrailQuery :=
  {| QBefore := 0; QSince := zero_time; QUntil := zero_time; QSubject := "u1"; QOutcome := ""; QSource := "";
     QTool := ""; QServer := ""; QLimit := 1 |}.

(** The trail after its first row was deleted, and before any row carried a hash. *)
Definition demo_gap : database :=
  {| audit_records := drop 1 (audit_records demo_trail); sqlite_sequence := 2; chain_meta := Some 0 |}.
Definition demo_legacy : database :=
  {| audit_records := map (with_hashes "" "") (audit_records demo_trail); sqlite_sequence := 2; chain_meta := None |}.
Definition demo_unmeta : database :=
  {| audit_records := audit_records demo_trail; sqlite_sequence := 2; chain_meta := None |}.

Lemma autoincremented_ids l ids :
  map id l = ids -> StronglySorted Z.lt ids -> Forall (Z.le 1) ids -> autoincremented l.
Proof. intros <- Hs Hf. split; [done|]. by rewrite Forall_fmap in Hf. Qed.

Lemma demo_trail_ids : map id (audit_records demo_trail) = [1; 2].
Proof. vm_compute. reflexivity. Qed.

Lemma demo_trail_autoincremented : autoincremented (audit_records demo_trail).
Proof. apply (autoincremented_ids _ _ demo_trail_ids); repeat constructor; lia. Qed.

Lemma recorded_trail_verifies_witness :
  ChainOrder (Some demo_trail) = Ok [demo_call 63893739845 OutcomeAllowed; demo_call 63893739800 OutcomeFailed]
  /\ VerifyChain (HF := weak_hash) (Some demo_trail)
     = Ok {| Count := 2; Head := demo_head; FirstBreak := None; RetroactivelyChained := 0 |}.
Proof.
  apply (recorded_trail_verifies (UT := demo_tables) (HF := weak_hash) demo_empty demo_calls demo_trail
    (snd (record_all (UT := demo_tables) (HF := weak_hash) demo_empty demo_calls))).
  - reflexivity.
  - apply surjective_pairing.
  - repeat constructor; vm_compute; congruence.
Defined.

Definition go_rowb (r : row) : bool :=
  match scan_row r with
  | None => true
  | Some rec => forallb (fun s => blen s <=? max_int)
      [AnalystIdentity rec; Tool rec; TargetUpstream rec; format_time (Timestamp rec); Outcome rec;
       Reason rec; SourceAddress rec; AnalystName rec]
  end.

Lemma go_rowb_go l : forallb go_rowb l = true -> Forall go_row l.
Proof.
  rewrite forallb_forall, Forall_forall. intros H r Hr%list_elem_of_In rec Hrec. specialize (H r Hr).
  unfold go_rowb in H. rewrite Hrec, forallb_forall in H. unfold go_record. rewrite Forall_forall.
  intros s Hs%list_elem_of_In. by apply Z.leb_le, H.
Qed.

Lemma known_head_fixes_trail_witness :
  Forall2 same_row (audit_records demo_trail) (audit_records demo_trail)
  \/ exists r s, r ∈ audit_records demo_trail /\ s ∈ audit_records demo_trail
       /\ colliding_rows (HF := weak_hash) r s.
Proof.
  pose (c := {| Count := 2; Head := demo_head; FirstBreak := None; RetroactivelyChained := 0 |}).
  apply (known_head_fixes_trail (HF := weak_hash) demo_trail demo_trail c c);
    [vm_compute; reflexivity|vm_compute; reflexivity|reflexivity|reflexivity|reflexivity| |];
    apply go_rowb_go; vm_compute; reflexivity.
Defined.

Lemma VerifyChain_reports_first_break_witness :
  exists c b, VerifyChain (HF := weak_hash) (Some demo_gap) = Ok c /\ FirstBreak c = Some b /\ Position b = 1
    /\ ~ intact_from (HF := weak_hash) GenesisHash (audit_records demo_gap).
Proof.
  assert (Hv : match VerifyChain (HF := weak_hash) (Some demo_gap) with
    | Ok c => match FirstBreak c with Some b => Position b =? 1 | None => false end
    | Err _ => false
    end = true) by (vm_compute; reflexivity).
  destruct (VerifyChain (HF := weak_hash) (Some demo_gap)) as [c|e] eqn:Hc; [|discriminate].
  destruct (FirstBreak c) as [b|] eqn:Hb; [|discriminate].
  pose proof (VerifyChain_reports_first_break (HF := weak_hash) demo_gap c Hc) as (Hi & _ & _).
  exists c, b. split; [reflexivity|]. split; [exact Hb|]. split; [by apply Z.eqb_eq|].
  rewrite <- Hi, Hb. discriminate.
Defined.

Lemma RecordChained_atomic_witness :
  is_ok (snd (RecordChained (UT := demo_tables) (HF := weak_hash) no_fault demo_empty (demo_call 63893739845 OutcomeAllowed))) = true
  /\ fst (RecordChained (UT := demo_tables) (HF := weak_hash) (fault_at Commit) demo_trail (demo_call 63893739845 OutcomeAllowed))
     = demo_trail.
Proof.
  split.
  - apply (RecordChained_atomic (UT := demo_tables) (HF := weak_hash) no_fault demo_empty
      (demo_call 63893739845 OutcomeAllowed) _ _ (surjective_pairing _)).
    split; [vm_compute; reflexivity|reflexivity].
  - destruct (RecordChained (UT := demo_tables) (HF := weak_hash) (fault_at Commit) demo_trail
      (demo_call 63893739845 OutcomeAllowed)) as [d' out] eqn:H.
    destruct (RecordChained_atomic (UT := demo_tables) (HF := weak_hash) _ _ _ _ _ H) as (_ & _ & He).
    destruct out as [l|e]; [vm_compute in H; discriminate|]. by destruct (He e eq_refl).
Defined.

Lemma demo_legacy_NoDup : NoDup (map id (audit_records demo_legacy)).
Proof.
  assert (Hids : map id (audit_records demo_legacy) = [1; 2]) by (vm_compute; reflexivity).
  rewrite Hids. apply (bool_decide_eq_true_1 _). reflexivity.
Qed.

Lemma backfill_never_resigns_witness :
  exists d', backfillChain (HF := weak_hash) demo_legacy = Ok d'
    /\ intact_from (HF := weak_hash) GenesisHash (audit_records d') /\ chain_meta d' = Some 2.
Proof.
  destruct (backfillChain (HF := weak_hash) demo_legacy) as [d'|e] eqn:H; [|vm_compute in H; discriminate].
  exists d'. split; [reflexivity|].
  pose proof demo_legacy_NoDup as Hn.
  destruct (backfill_never_resigns (HF := weak_hash) demo_legacy d' Hn H) as [_ Hb].
  destruct (Hb [] (audit_records demo_legacy)) as (_ & Hi & Hm);
    [reflexivity|reflexivity|constructor| |split; [by apply Hi|rewrite Hm; vm_compute; reflexivity]].
  unfold demo_legacy. cbn [audit_records]. apply Forall_fmap, Forall_forall. intros r _. reflexivity.
Defined.

Lemma deleting_meta_clears_disclosure_witness :
  exists d' c, backfillChain (HF := weak_hash) demo_unmeta = Ok d' /\ audit_records d' = audit_records demo_unmeta
    /\ VerifyChain (HF := weak_hash) (Some d') = Ok c /\ Intact c = true /\ RetroactivelyChained c = 0.
Proof.
  apply (deleting_meta_clears_disclosure (HF := weak_hash) demo_unmeta).
  - reflexivity.
  - apply Forall_forall. intros r Hr%list_elem_of_In.
    assert (Hb : forallb (fun r => bool_decide (hash r <> "")) (audit_records demo_unmeta) = true)
      by (vm_compute; reflexivity).
    rewrite forallb_forall in Hb. apply (bool_decide_eq_true_1 _ (Hb r Hr)).
  - apply demo_trail_autoincremented.
  - pose proof (VerifyChain_cases (HF := weak_hash) demo_unmeta) as Hc.
    assert (Hv : match VerifyChain (HF := weak_hash) (Some demo_unmeta) with
      | Ok c => Intact c | Err _ => false end = true) by (vm_compute; reflexivity).
    destruct (VerifyChain (HF := weak_hash) (Some demo_unmeta)) as [c|e]; [|discriminate].
    destruct (Hc c eq_refl) as [[_ ?]|(b & ? & ? & ? & Hb & _)]; [assumption|].
    unfold Intact in Hv. rewrite Hb in Hv. discriminate.
Defined.

Lemma List_chronological_witness :
  exists l, List (Some demo_trail) = Ok l /\ StronglySorted at_or_before l
    /\ map Outcome l = [OutcomeFailed; OutcomeAllowed].
Proof.
  destruct (List (Some demo_trail)) as [l|e] eqn:H; [|vm_compute in H; discriminate].
  destruct (List_chronological (Some demo_trail) l H) as (records & _ & _ & Hs & _).
  exists l. split; [done|]. split; [done|]. vm_compute in H. injection H as <-. reflexivity.
Defined.

Lemma Page_exact_witness :
  Page (Some demo_gap) demo_query = Ok ([(1, demo_call 63893739800 OutcomeFailed)], false)
  /\ Page (Some demo_trail) demo_query = Ok ([(2, demo_call 63893739800 OutcomeFailed)], true).
Proof.
  assert (Hr : Forall readable (audit_records demo_trail)).
  { apply Forall_forall. intros r Hr. unfold readable.
    assert (Hb : forallb (fun r => bool_decide (is_Some (parse_time (timestamp r)))) (audit_records demo_trail) = true)
      by (vm_compute; reflexivity).
    rewrite forallb_forall in Hb. apply list_elem_of_In, Hb, bool_decide_eq_true in Hr as [? ->]. done. }
  split.
  - rewrite (Page_exact demo_gap demo_query); [vm_compute; reflexivity| |by apply Forall_drop|done].
    apply (autoincremented_ids _ [2]); [vm_compute; reflexivity| |]; repeat constructor; lia.
  - rewrite (Page_exact demo_trail demo_query); [vm_compute; reflexivity| |done|done].
    apply demo_trail_autoincremented.
Defined.
