(* ===== verification/Registry.v ===== *)
(** * The upstream registry's entries ([internal/registry/registry.go])

    [UpstreamServer] and [Validate] with its helpers, every rule in the code's order and with its
    own error.  The regular expressions are written as the byte tests they make; [net/url]'s parser
    is a parameter ([UrlParser]), of which the code reads the scheme and the host. *)
From Stdlib Require Import ZArith Lia Ascii.
From stdpp Require Import base strings list.
From S2P Require Import Prelude.
From S2P Require Import GoStrings.
From S2P Require Import GoTime.
From S2P Require Import Json.

(** [url.Parse]: [None] when it returns an error. *)
Record url := { Scheme : string; Host : string }.
Class UrlParser := { url_parse : string -> option url }.

(** ** Data *)

(** Go's string types with named constants: any other text is a value too. *)
Abbreviation Transport := string (only parsing).
Definition TransportStdio : Transport := "stdio".
Definition TransportHTTP : Transport := "http".
Definition TransportOCI : Transport := "oci".

Abbreviation AuthKind := string (only parsing).
Definition AuthNone : AuthKind := "".
Definition AuthBearer : AuthKind := "bearer".
Definition AuthHeader : AuthKind := "header".
Definition AuthQuery : AuthKind := "query".


Definition AuthKind_Valid (k : AuthKind) : bool :=
  bool_decide (k = AuthNone) || bool_decide (k = AuthBearer)
  || bool_decide (k = AuthHeader) || bool_decide (k = AuthQuery).

Definition NamesLocation (k : AuthKind) : bool := bool_decide (k = AuthHeader) || bool_decide (k = AuthQuery).

Record UpstreamServer := {
  Name : string; STransport : Transport; Command : string; Args : list string; Image : string;
  URL : string; EnvVarNames : list string; SAuthKind : AuthKind; AuthName : string;
  Operations : string; CreatedAt : time; UpdatedAt : time
}.

Definition nameSeparator : string := ".".
Definition ReservedName : string := "gatte".

(** ** The grammars *)

Definition is_upper (a : ascii) : bool := in_range 65 90 (bz a).
Definition is_lower (a : ascii) : bool := in_range 97 122 (bz a).
Definition is_alnum (a : ascii) : bool := is_upper a || is_lower a || is_digit a.

(** [^[A-Za-z0-9][A-Za-z0-9_-]*$]. *)
Definition safeUpstreamName (s : string) : bool :=
  match s with
  | EmptyString => false
  | String a s' => is_alnum a && str_forallb (fun b => is_alnum b || (bz b =? 95) || (bz b =? 45)) s'
  end.

(** [strings.EqualFold] against an ASCII constant, for a name the grammar accepted. *)
Definition equal_fold (s t : string) : bool := bool_decide (to_lower s = to_lower t).

Definition ValidName (name : string) : bool := safeUpstreamName name && negb (equal_fold name ReservedName).

Definition is_lower_hex (a : ascii) : bool := is_digit a || in_range 97 102 (bz a).

(** [\s] of package [regexp]. *)
Definition regexp_space (a : ascii) : bool :=
  (bz a =? 9) || (bz a =? 10) || (bz a =? 12) || (bz a =? 13) || (bz a =? 32).

(** [^[^@\s]+@sha256:[0-9a-f]{64}$]. *)
Definition digestPinned (image : string) : bool :=
  match cut image "@" with
  | Some (before, after) =>
      negb (bool_decide (before = "")) && str_forallb (fun a => negb (regexp_space a)) before
      && match cut_prefix after "sha256:" with
         | Some hex => (String.length hex =? 64)%nat && str_forallb is_lower_hex hex
         | None => false
         end
  | None => false
  end.

(** The characters of [authNameChars]. *)
Definition auth_name_char (a : ascii) : bool :=
  is_alnum a || existsb (Z.eqb (bz a)) [33; 35; 36; 37; 38; 39; 42; 43; 46; 94; 95; 96; 124; 126; 45].

Definition authNameChars (s : string) : bool := negb (bool_decide (s = "")) && str_forallb auth_name_char s.

Definition controlHeaderSlots : list string :=
  ["host"; "content-length"; "transfer-encoding"; "connection"; "upgrade"; "te"; "trailer"; "keep-alive"; "cookie"].

Definition isControlHeaderSlot (name : string) : bool :=
  let folded := str_map (fun a => if bz a =? 95 then "-"%char else a) (to_lower name) in
  bool_decide (folded ∈ controlHeaderSlots) || has_prefix folded "proxy-".

(** ** Validation *)

Inductive registry_error :=
| NameEmpty | NameSeparator | NameGrammar | NameReserved
| CommandEmpty | ImageUnused (t : Transport) | CommandUnused | URLUnused
| ImageEmpty | ImageNotPinned
| URLEmpty | URLInvalid | URLScheme | URLNoHost
| AuthKindInvalid | KeylessEnv | KeylessAuthName | SecretCount (n : Z)
| AuthNameEmpty | AuthNameToken | AuthNameControl | AuthNameUnused
| OperationsEmpty | OperationsMalformed | OperationsNone
| TransportUnknown
| AuthKindNonHTTP | AuthNameNonHTTP | OperationsNonHTTP
| EnvEmpty | EnvShape.

#[global] Instance registry_error_eq_dec : EqDecision registry_error.
Proof. solve_decision. Defined.

(** A rule: an error when it is broken, then the rules after it. *)
Definition guard_err (broken : bool) (e : registry_error) (k : option registry_error) : option registry_error :=
  if broken then Some e else k.

Notation "'refuse' e 'if_' b ;; k" := (guard_err b e k) (at level 60, e at level 9, b at level 50, right associativity) : gatte_scope.

Definition first_err (a b : option registry_error) : option registry_error :=
  match a with Some e => Some e | None => b end.

Definition validateImage (image : string) : option registry_error :=
  refuse ImageEmpty if_ blank image;;
  refuse ImageNotPinned if_ negb (digestPinned image);;
  None.

Definition rejectImage (t : Transport) (image : string) : option registry_error :=
  if blank image then None else Some (ImageUnused t).

Definition rejectUnusedByOCI (e : registry_error) (value : string) : option registry_error :=
  if blank value then None else Some e.

Definition validateAuthName (name : string) : option registry_error :=
  refuse AuthNameEmpty if_ blank name;;
  refuse AuthNameToken if_ negb (authNameChars name);;
  None.

Fixpoint check_env_names (names : list string) : option registry_error :=
  match names with
  | [] => None
  | name :: rest =>
      refuse EnvEmpty if_ blank name;;
      refuse EnvShape if_ existsb (fun c => contains_byte name c) ["="%char; " "%char; "009"%char; "010"%char; "013"%char];;
      check_env_names rest
  end.

Section validate.
Context `{UrlParser}.

Definition validateHTTP (s : UpstreamServer) : option registry_error :=
  first_err (rejectImage TransportHTTP (Image s)) (
  refuse CommandUnused if_ negb (blank (Command s));;
  refuse URLEmpty if_ blank (URL s);;
  match url_parse (URL s) with
  | None => Some URLInvalid
  | Some u =>
      refuse URLScheme if_ negb (bool_decide (Scheme u = "http") || bool_decide (Scheme u = "https"));;
      refuse URLNoHost if_ bool_decide (Host u = "");;
      refuse AuthKindInvalid if_ negb (AuthKind_Valid (SAuthKind s));;
      first_err
        (if bool_decide (SAuthKind s = AuthNone) then
           refuse KeylessEnv if_ negb (bool_decide (EnvVarNames s = []));;
           refuse KeylessAuthName if_ negb (blank (AuthName s));;
           None
         else
           refuse (SecretCount (Z.of_nat (length (EnvVarNames s)))) if_ negb (length (EnvVarNames s) =? 1)%nat;;
           if NamesLocation (SAuthKind s) then
             first_err (validateAuthName (AuthName s)) (
             refuse AuthNameControl if_ bool_decide (SAuthKind s = AuthHeader) && isControlHeaderSlot (AuthName s);;
             None)
           else
             refuse AuthNameUnused if_ negb (blank (AuthName s));;
             None) (
      refuse OperationsEmpty if_ bool_decide (Operations s = "");;
      match unmarshal_array (Operations s) with
      | None => Some OperationsMalformed
      | Some n => refuse OperationsNone if_ (n =? 0)%nat;; None
      end)
  end).

Definition Validate (s : UpstreamServer) : option registry_error :=
  refuse NameEmpty if_ blank (Name s);;
  refuse NameSeparator if_ str_contains (Name s) nameSeparator;;
  refuse NameGrammar if_ negb (safeUpstreamName (Name s));;
  refuse NameReserved if_ equal_fold (Name s) ReservedName;;
  first_err
    (if bool_decide (STransport s = TransportStdio) then
       refuse CommandEmpty if_ blank (Command s);;
       rejectImage TransportStdio (Image s)
     else if bool_decide (STransport s = TransportOCI) then
       first_err (validateImage (Image s)) (
       first_err (rejectUnusedByOCI CommandUnused (Command s)) (
       rejectUnusedByOCI URLUnused (URL s)))
     else if bool_decide (STransport s = TransportHTTP) then validateHTTP s
     else Some TransportUnknown) (
  first_err
    (if bool_decide (STransport s = TransportHTTP) then None
     else
       refuse AuthKindNonHTTP if_ negb (bool_decide (SAuthKind s = AuthNone));;
       refuse AuthNameNonHTTP if_ negb (blank (AuthName s));;
       refuse OperationsNonHTTP if_ negb (bool_decide (Operations s = ""));;
       None)
  (check_env_names (EnvVarNames s))).
End validate.

(** ** What validation accepts *)

Lemma guard_err_None b e k : guard_err b e k = None <-> b = false /\ k = None.
Proof. destruct b; simpl; naive_solver. Qed.

Lemma first_err_None a b : first_err a b = None <-> a = None /\ b = None.
Proof. destruct a; simpl; naive_solver. Qed.

Lemma if_err_None (b : bool) (e : registry_error) : (if b then None else Some e) = None <-> b = true.
Proof. by destruct b. Qed.

Create HintDb verr.
#[local] Hint Rewrite guard_err_None first_err_None if_err_None negb_false_iff : verr.

Definition env_name_ok (n : string) : Prop :=
  blank n = false
  /\ Forall (fun c => contains_byte n c = false) ["="%char; " "%char; "009"%char; "010"%char; "013"%char].

Lemma check_env_names_None names : check_env_names names = None <-> Forall env_name_ok names.
Proof.
  induction names as [|n names IH]; simpl; [by split|].
  rewrite !guard_err_None, IH, Forall_cons. unfold env_name_ok.
  rewrite !orb_false_iff, !Forall_cons. intuition (auto using Forall_nil_2).
Qed.

(** The bytes a registered name may have: none is white space, none the separator. *)
Lemma is_alnum_space a : is_alnum a = true -> space_byte a = false.
Proof.
  unfold is_alnum, is_upper, is_lower, is_digit, space_byte, in_range.
  rewrite !orb_true_iff, !orb_false_iff, !andb_true_iff, andb_false_iff, !Z.leb_le, !Z.leb_gt, Z.eqb_neq. lia.
Qed.

Lemma safeUpstreamName_nonblank n : safeUpstreamName n = true -> blank n = false.
Proof.
  destruct n as [|a n]; simpl; [done|]. intros [Ha%is_alnum_space _]%andb_true_iff.
  apply not_true_is_false. intros [Hs _]%blank_bytes%andb_true_iff. congruence.
Qed.

Lemma str_forallb_contains f s c : str_forallb f s = true -> f c = false -> contains_byte s c = false.
Proof.
  induction s as [|a s IH]; simpl; [done|]. intros [Ha Hs]%andb_true_iff Hc.
  rewrite IH, orb_false_r by done. apply bool_decide_false. intros ->. congruence.
Qed.

Lemma safeUpstreamName_no_dot n : safeUpstreamName n = true -> contains_byte n "." = false.
Proof.
  intros H. apply (str_forallb_contains (fun b => is_alnum b || (bz b =? 95) || (bz b =? 45))); [|done].
  destruct n as [|a n]; [done|]. simpl in *. apply andb_true_iff in H as [-> ->]. done.
Qed.

Lemma str_contains_byte s c : str_contains s (String c "") = contains_byte s c.
Proof.
  induction s as [|a s IH]; [done|]. cbn [str_contains has_prefix contains_byte]. rewrite IH.
  destruct s; simpl; rewrite ?andb_true_r; done.
Qed.

Lemma cut_app s c b r : cut s c = Some (b, r) -> s = b +:+ String c r.
Proof.
  revert b. induction s as [|a s IH]; intros b; simpl; [done|]. case_bool_decide as Ha; [by intros [= <- <-]; subst|].
  destruct (cut s c) as [[b' r']|]; [|done]. intros [= <- <-]. rewrite string_app_cons. by rewrite (IH b').
Qed.

Lemma digestPinned_nonblank i : digestPinned i = true -> blank i = false.
Proof.
  unfold digestPinned. destruct (cut i "@") as [[b r]|] eqn:Hc; [|done]. intros _.
  apply cut_app in Hc. subst. apply not_true_is_false.
  intros [_ Hs]%blank_bytes%str_forallb_app_iff. simpl in Hs. done.
Qed.

Lemma authNameChars_nonblank n : authNameChars n = true -> blank n = false.
Proof.
  unfold authNameChars. rewrite andb_true_iff, negb_true_iff, bool_decide_eq_false. intros [Hne Hc].
  destruct n as [|a n]; [done|]. simpl in Hc. apply andb_true_iff in Hc as [Ha _].
  apply not_true_is_false. intros [Hs _]%blank_bytes%andb_true_iff.
  unfold auth_name_char in Ha. apply orb_true_iff in Ha as [Ha%is_alnum_space|Ha]; [congruence|].
  apply existsb_exists in Ha as (z & Hz & He%Z.eqb_eq). unfold space_byte in Hs. rewrite He in Hs.
  simpl in Hz. repeat destruct Hz as [<-|Hz]; done.
Qed.

(** The entry contract, rule by rule. *)
Definition http_auth_ok (s : UpstreamServer) : Prop :=
  SAuthKind s = AuthNone /\ EnvVarNames s = [] /\ blank (AuthName s) = true
  \/ (exists n, EnvVarNames s = [n])
     /\ (SAuthKind s = AuthBearer /\ blank (AuthName s) = true
         \/ SAuthKind s = AuthHeader /\ authNameChars (AuthName s) = true /\ isControlHeaderSlot (AuthName s) = false
         \/ SAuthKind s = AuthQuery /\ authNameChars (AuthName s) = true).

Definition no_http_fields (s : UpstreamServer) : Prop :=
  SAuthKind s = AuthNone /\ blank (AuthName s) = true /\ Operations s = "".

Section contract.
Context `{UrlParser}.

Definition well_formed (s : UpstreamServer) : Prop :=
  ValidName (Name s) = true
  /\ (STransport s = TransportStdio /\ blank (Command s) = false /\ blank (Image s) = true /\ no_http_fields s
      \/ STransport s = TransportOCI /\ digestPinned (Image s) = true /\ blank (Command s) = true
         /\ blank (URL s) = true /\ no_http_fields s
      \/ STransport s = TransportHTTP /\ blank (Image s) = true /\ blank (Command s) = true
         /\ blank (URL s) = false
         /\ (exists u, url_parse (URL s) = Some u /\ (Scheme u = "http" \/ Scheme u = "https") /\ Host u <> "")
         /\ http_auth_ok s
         /\ exists n, unmarshal_array (Operations s) = Some (S n))
  /\ Forall env_name_ok (EnvVarNames s).

Lemma length_one {A} (l : list A) : (length l =? 1)%nat = true <-> exists x, l = [x].
Proof.
  destruct l as [|a [|b l]]; simpl; split; try done; try (by intros [? ?]). by exists a.
Qed.

Lemma http_auth_None s :
  (AuthKind_Valid (SAuthKind s) = true /\
   (if bool_decide (SAuthKind s = AuthNone) then
      refuse KeylessEnv if_ negb (bool_decide (EnvVarNames s = []));;
      refuse KeylessAuthName if_ negb (blank (AuthName s));; None
    else
      refuse (SecretCount (Z.of_nat (length (EnvVarNames s)))) if_ negb (length (EnvVarNames s) =? 1)%nat;;
      if NamesLocation (SAuthKind s) then
        first_err (validateAuthName (AuthName s)) (
        refuse AuthNameControl if_ bool_decide (SAuthKind s = AuthHeader) && isControlHeaderSlot (AuthName s);; None)
      else refuse AuthNameUnused if_ negb (blank (AuthName s));; None) = None) <-> http_auth_ok s.
Proof.
  unfold http_auth_ok, AuthKind_Valid, NamesLocation, validateAuthName.
  rewrite !orb_true_iff, !bool_decide_eq_true. pose proof (authNameChars_nonblank (AuthName s)) as Hn. split.
  - intros [Hv Hc]. case_bool_decide as Hk; autorewrite with verr in Hc; rewrite ?bool_decide_eq_true in Hc.
    { left. tauto. }
    right. destruct Hc as [Hl%length_one Hc]. split; [done|].
    destruct Hv as [[[?|Hb]|Hb]|Hb]; [done|rewrite Hb in *; simpl in Hc; autorewrite with verr in Hc..]; [left|right; left|right; right]; tauto.
  - intros [(Hk & He & Ha)|[Hl%length_one [(Hk & Ha)|[(Hk & Ha & Hcs)|(Hk & Ha)]]]]; rewrite Hk; simpl;
      autorewrite with verr; rewrite ?bool_decide_eq_true; tauto.
Qed.

Lemma validateHTTP_None s :
  validateHTTP s = None <->
  blank (Image s) = true /\ blank (Command s) = true /\ blank (URL s) = false
  /\ (exists u, url_parse (URL s) = Some u /\ (Scheme u = "http" \/ Scheme u = "https") /\ Host u <> "")
  /\ http_auth_ok s /\ exists n, unmarshal_array (Operations s) = Some (S n).
Proof.
  unfold validateHTTP, rejectImage. rewrite <- http_auth_None.
  rewrite first_err_None, if_err_None, !guard_err_None, negb_false_iff.
  destruct (url_parse (URL s)) as [u|]; [|naive_solver].
  rewrite !guard_err_None, !first_err_None, guard_err_None, !negb_false_iff, orb_true_iff, !bool_decide_eq_true,
    !bool_decide_eq_false.
  assert (Ho : (Operations s <> "" /\ match unmarshal_array (Operations s) with
      | Some n => refuse OperationsNone if_ (n =? 0)%nat;; None | None => Some OperationsMalformed end = None)
      <-> exists n, unmarshal_array (Operations s) = Some (S n)).
  { split.
    - intros [_ Hm]. destruct (unmarshal_array (Operations s)) as [[|n]|]; [done|by exists n|done].
    - intros [n Hm]. rewrite Hm. split; [|done]. intros He. by rewrite He in Hm. }
  rewrite Ho. naive_solver.
Qed.

Lemma no_http_None s :
  (refuse AuthKindNonHTTP if_ negb (bool_decide (SAuthKind s = AuthNone));;
   refuse AuthNameNonHTTP if_ negb (blank (AuthName s));;
   refuse OperationsNonHTTP if_ negb (bool_decide (Operations s = ""));; None) = None <-> no_http_fields s.
Proof. unfold no_http_fields. autorewrite with verr. rewrite !bool_decide_eq_true. tauto. Qed.

Lemma Validate_None s : Validate s = None <-> well_formed s.
Proof.
  unfold Validate, well_formed, ValidName. rewrite !guard_err_None, !first_err_None, check_env_names_None.
  rewrite andb_true_iff, !negb_false_iff, negb_true_iff.
  pose proof (safeUpstreamName_nonblank (Name s)) as Hb. pose proof (safeUpstreamName_no_dot (Name s)) as Hd.
  unfold nameSeparator. rewrite str_contains_byte.
  assert (Ht : ((if bool_decide (STransport s = TransportStdio) then
       refuse CommandEmpty if_ blank (Command s);; rejectImage TransportStdio (Image s)
     else if bool_decide (STransport s = TransportOCI) then
       first_err (validateImage (Image s)) (
       first_err (rejectUnusedByOCI CommandUnused (Command s)) (rejectUnusedByOCI URLUnused (URL s)))
     else if bool_decide (STransport s = TransportHTTP) then validateHTTP s
     else Some TransportUnknown) = None
    /\ (if bool_decide (STransport s = TransportHTTP) then None
        else refuse AuthKindNonHTTP if_ negb (bool_decide (SAuthKind s = AuthNone));;
             refuse AuthNameNonHTTP if_ negb (blank (AuthName s));;
             refuse OperationsNonHTTP if_ negb (bool_decide (Operations s = ""));; None) = None) <->
    (STransport s = TransportStdio /\ blank (Command s) = false /\ blank (Image s) = true /\ no_http_fields s
      \/ STransport s = TransportOCI /\ digestPinned (Image s) = true /\ blank (Command s) = true
         /\ blank (URL s) = true /\ no_http_fields s
      \/ STransport s = TransportHTTP /\ blank (Image s) = true /\ blank (Command s) = true
         /\ blank (URL s) = false
         /\ (exists u, url_parse (URL s) = Some u /\ (Scheme u = "http" \/ Scheme u = "https") /\ Host u <> "")
         /\ http_auth_ok s
         /\ exists n, unmarshal_array (Operations s) = Some (S n))).
  { assert (TransportStdio <> TransportOCI /\ TransportStdio <> TransportHTTP /\ TransportOCI <> TransportHTTP)
      as (N1 & N2 & N3) by done.
    rewrite <- !no_http_None, <- validateHTTP_None. pose proof (digestPinned_nonblank (Image s)).
    unfold rejectImage, rejectUnusedByOCI, validateImage.
    case_bool_decide as H1; [rewrite H1; simpl; autorewrite with verr; intuition congruence|].
    case_bool_decide as H2; [rewrite H2; simpl; autorewrite with verr; intuition congruence|].
    case_bool_decide as H3; [rewrite H3; simpl; intuition congruence|]. intuition congruence. }
  rewrite <- Ht. intuition auto.
Qed.
End contract.

(** ** Properties *)

Section properties.
Context `{UrlParser}.

(** Fact [entry_contract]: [Validate] accepts exactly the entries of the contract: a name of the safe
    grammar that is not the reserved one, and per transport exactly the fields that transport uses,
    an image pinned by digest, a URL with a scheme the gateway dials, a credential location that
    agrees with the single secret it injects and is no control header, at least one operation, and
    only names of environment variables.  In particular no accepted name holds the separator. *)
Theorem entry_contract s :
  (Validate s = None <-> well_formed s)
  /\ (Validate s = None -> contains_byte (Name s) "." = false /\ to_lower (Name s) <> ReservedName).
Proof.
  split; [apply Validate_None|]. intros [Hn _]%Validate_None.
  unfold ValidName, equal_fold in Hn. rewrite andb_true_iff, negb_true_iff, bool_decide_eq_false in Hn.
  destruct Hn as [Hg Hr]. split; [by apply safeUpstreamName_no_dot|]. exact Hr.
Qed.
End properties.

(** ** Witnesses *)

Definition demo_url : UrlParser :=
  {| url_parse := fun s => match cut_prefix s "https://" with
                           | Some h => Some {| Scheme := "https"; Host := h |}
                           | None => None end |}.

Definition demo_stdio : UpstreamServer :=
  {| Name := "threatintel"; STransport := TransportStdio; Command := "/usr/bin/threatintel"; Args := ["--stdio"];
     Image := ""; URL := ""; EnvVarNames := ["TI_KEY"]; SAuthKind := AuthNone; AuthName := "";
     Operations := ""; CreatedAt := zero_time; UpdatedAt := zero_time |}.

Definition demo_http (kind : AuthKind) (auth : string) (env : list string) : UpstreamServer :=
  {| Name := "casemgmt"; STransport := TransportHTTP; Command := ""; Args := []; Image := "";
     URL := "https://cases.example"; EnvVarNames := env; SAuthKind := kind; AuthName := auth;
     Operations := "[{}]"; CreatedAt := zero_time; UpdatedAt := zero_time |}.

Lemma entry_contract_witness :
  Validate (H := demo_url) demo_stdio = None /\ contains_byte (Name demo_stdio) "." = false.
Proof.
  assert (Hv : Validate (H := demo_url) demo_stdio = None) by (vm_compute; reflexivity).
  split; [exact Hv|]. apply (proj2 (entry_contract (H := demo_url) demo_stdio) Hv).
Defined.

(** Fact [keyless_http_accepted]: an http entry with no authentication at all validates, although the
    declaration of [AuthNone] says it is refused for http; and a credential header is refused in any
    case and with underscores for hyphens. *)
Theorem keyless_http_accepted :
  Validate (H := demo_url) (demo_http AuthNone "" []) = None
  /\ Validate (H := demo_url) (demo_http AuthHeader "X-API-Key" ["KEY"]) = None
  /\ Validate (H := demo_url) (demo_http AuthHeader "Transfer_ENCODING" ["KEY"]) = Some AuthNameControl.
Proof. vm_compute. done. Qed.
