(* ===== verification/Signer.v ===== *)
(** * The definition signer ([internal/signer/signer.go], [internal/signer/sqlite])

    The canonical bytes a signature covers, in their three layouts, and the verifier's decision
    against the configured trust anchor.  Ed25519 itself is a parameter ([Ed25519]); so is the hash.
    The theorems: the bytes determine what an entry instructs the gateway to run, and no stored key
    ever decides a verification. *)
From Stdlib Require Import ZArith Lia Ascii.
From stdpp Require Import base strings list gmap sorting.
From S2P Require Import Prelude.
From S2P Require Import GoStrings.
From S2P Require Import GoTime.
From S2P Require Import Encode.
From S2P Require Import Registry.

(** [crypto/ed25519]: keys and signatures are byte strings; [ed25519_sign] is of the private key,
    whose last 32 bytes are its public key. *)
Class Ed25519 := {
  ed25519_verify : string -> string -> string -> bool;      (* public key, message, signature *)
  ed25519_sign : string -> string -> string                 (* private key, message *)
}.

Definition PublicKeySize : Z := 32.
Definition PrivateKeySize : Z := 64.
Definition SignatureSize : Z := 64.

(** ** The canonical bytes *)

Definition canonicalTag : string := "mcp-gateway/signer/canonical/v1".
Definition canonicalTagImage : string := "mcp-gateway/signer/canonical/v2-image".
Definition canonicalTagV3HTTP : string := "mcp-gateway/signer/canonical/v3-http".

Definition appendField (buf v : string) : string := (buf +:+ be64 (blen v)) +:+ v.
Definition appendCount (buf : string) (n : nat) : string := buf +:+ be64 (Z.of_nat n).

Section canonical.
Context `{HashFunction}.

Definition Canonical (s : UpstreamServer) : string :=
  let withImage := negb (bool_decide (Image s = "")) || bool_decide (STransport s = TransportOCI) in
  let isHTTP := bool_decide (STransport s = TransportHTTP) in
  let buf := "" in
  let buf := if isHTTP then appendField buf canonicalTagV3HTTP
             else if withImage then appendField buf canonicalTagImage
             else appendField buf canonicalTag in
  let buf := appendField buf (Name s) in
  let buf := appendField buf (STransport s) in
  let buf := appendField buf (Command s) in
  let buf := appendField buf (URL s) in
  let buf := if withImage then appendField buf (Image s) else buf in
  let buf := appendCount buf (length (Args s)) in
  let buf := foldl appendField buf (Args s) in
  let envVarNames := sort_strings (EnvVarNames s) in
  let buf := appendCount buf (length envVarNames) in
  let buf := foldl appendField buf envVarNames in
  if isHTTP then
    let buf := appendField buf (SAuthKind s) in
    let buf := appendField buf (AuthName s) in
    appendField buf (sum256 (Operations s))
  else buf.
End canonical.

(** ** Signing and verifying *)

Record Signature := { SigBytes : string; PublicKey : string }.

Inductive signer_error :=
| ErrNoKey
| ErrNoKeyAt (i : nat)
| MalformedPublicKey | MalformedSignature             (* ErrInvalidSignature *)
| NoTrustedKey | DoesNotMatch | UntrustedKey          (* ErrInvalidSignature *)
| ErrSignatureNotFound.

(** The errors that wrap [ErrInvalidSignature]. *)
Definition ErrInvalidSignature (e : signer_error) : bool :=
  match e with
  | MalformedPublicKey | MalformedSignature | NoTrustedKey | DoesNotMatch | UntrustedKey => true
  | _ => false
  end.

Definition NewSigner (key : string) : result signer_error string :=
  if blen key =? PrivateKeySize then Ok key else Err ErrNoKey.

(** [key.Public()]. *)
Definition SignerPublicKey (key : string) : string := str_drop 32 key.

(** A verifier is its trusted keys. *)
Fixpoint new_verifier_from (i : nat) (trusted : list string) : result signer_error (list string) :=
  match trusted with
  | [] => Ok []
  | pub :: rest =>
      if blen pub =? PublicKeySize then keys <-? new_verifier_from (S i) rest;; Ok (pub :: keys)
      else Err (ErrNoKeyAt i)
  end.

Definition NewVerifier (trusted : list string) : result signer_error (list string) := new_verifier_from 0 trusted.

Definition Trusts (v : list string) (pub : string) : bool := existsb (fun k => bool_decide (k = pub)) v.

Definition TrustedCount (v : list string) : Z := Z.of_nat (length v).

Section verify.
Context `{HashFunction, Ed25519}.

Definition Sign (key : string) (entry : UpstreamServer) : Signature :=
  {| SigBytes := ed25519_sign key (Canonical entry); PublicKey := SignerPublicKey key |}.

Definition Verify (v : list string) (entry : UpstreamServer) (sig : Signature) : result signer_error unit :=
  if negb (blen (PublicKey sig) =? PublicKeySize) then Err MalformedPublicKey
  else if negb (blen (SigBytes sig) =? SignatureSize) then Err MalformedSignature
  else
    let canonical := Canonical entry in
    if existsb (fun pub => ed25519_verify pub canonical (SigBytes sig)) v then Ok tt
    else if (length v =? 0)%nat then Err NoTrustedKey
    else if Trusts v (PublicKey sig) then Err DoesNotMatch
    else Err UntrustedKey.

Definition KeyFingerprint (pub : string) : string := "sha256:" +:+ hex_encode (sum256 pub).
End verify.

(** ** The signature table ([entry_signatures], keyed by the entry's name) *)

Abbreviation sig_table := (gmap string Signature).

Definition Put (t : sig_table) (name : string) (sig : Signature) : result signer_error sig_table :=
  if negb (blen (PublicKey sig) =? PublicKeySize) then Err MalformedPublicKey
  else if negb (blen (SigBytes sig) =? SignatureSize) then Err MalformedSignature
  else Ok (<[name := sig]> t).

Definition GetSignature (t : sig_table) (name : string) : result signer_error Signature :=
  match t !! name with Some sig => Ok sig | None => Err ErrSignatureNotFound end.

Definition DeleteSignature (t : sig_table) (name : string) : result signer_error sig_table :=
  match t !! name with Some _ => Ok (delete name t) | None => Err ErrSignatureNotFound end.

(** ** The canonical bytes as a sequence of fields *)

Lemma appendField_eq buf v : appendField buf v = buf +:+ field v.
Proof. unfold appendField, field. by rewrite string_app_assoc. Qed.

Lemma foldl_appendField buf l : foldl appendField buf l = buf +:+ fields l.
Proof.
  revert buf. induction l as [|v l IH]; intros buf; simpl; [by rewrite string_app_nil_r|].
  by rewrite IH, appendField_eq, <- string_app_assoc.
Qed.

Definition counted (l : list string) : string := be64 (Z.of_nat (length l)) +:+ fields l.

(** Slices a Go program can hold. *)
Definition go_slice (l : list string) : Prop := Forall go_string l /\ Z.of_nat (length l) <= max_int.

Lemma counted_app_inj l1 l2 r1 r2 :
  go_slice l1 -> go_slice l2 -> counted l1 +:+ r1 = counted l2 +:+ r2 -> l1 = l2 /\ r1 = r2.
Proof.
  intros [H1 N1] [H2 N2] H. unfold counted in H. rewrite <- !string_app_assoc in H.
  apply string_app_inj_length in H as [Hn H]; [|by rewrite !be64_length].
  apply be64_inj in Hn; [|unfold max_int in *; lia..]. by apply fields_app_inj in H; [|done|done|lia].
Qed.

Section injective.
Context `{HashFunction}.

Definition tag_of (s : UpstreamServer) : string :=
  if bool_decide (STransport s = TransportHTTP) then canonicalTagV3HTTP
  else if negb (bool_decide (Image s = "")) || bool_decide (STransport s = TransportOCI) then canonicalTagImage
  else canonicalTag.

Definition image_part (s : UpstreamServer) : string :=
  if negb (bool_decide (Image s = "")) || bool_decide (STransport s = TransportOCI) then field (Image s) else "".

Definition http_part (s : UpstreamServer) : string :=
  if bool_decide (STransport s = TransportHTTP)
  then field (SAuthKind s) +:+ field (AuthName s) +:+ field (sum256 (Operations s)) else "".

Lemma Canonical_fields s :
  Canonical s = fields [tag_of s; Name s; STransport s; Command s; URL s] +:+ image_part s
    +:+ counted (Args s) +:+ counted (sort_strings (EnvVarNames s)) +:+ http_part s.
Proof.
  unfold Canonical, tag_of, image_part, http_part, appendCount, counted. cbv zeta. cbn [fields foldr].
  rewrite !foldl_appendField.
  repeat case_match; rewrite ?foldl_appendField, ?appendField_eq, ?string_app_nil_l, ?string_app_nil_r,
    <- ?string_app_assoc; done.
Qed.

(** The fields of an entry a Go program can hold. *)
Definition holdable (s : UpstreamServer) : Prop :=
  Forall go_string [Name s; STransport s; Command s; URL s; Image s; SAuthKind s; AuthName s]
  /\ go_slice (Args s) /\ go_slice (EnvVarNames s).

(** No image on an http entry: what the layout of its canonical bytes assumes. *)
Definition image_layout (s : UpstreamServer) : Prop := STransport s = TransportHTTP -> Image s = "".

(** What an entry instructs the gateway to run and where its secret goes, up to the order of the
    environment variable names. *)
Definition same_definition (s t : UpstreamServer) : Prop :=
  Name s = Name t /\ STransport s = STransport t /\ Command s = Command t /\ URL s = URL t
  /\ Image s = Image t /\ Args s = Args t /\ EnvVarNames s ≡ₚ EnvVarNames t
  /\ (STransport s = TransportHTTP ->
      SAuthKind s = SAuthKind t /\ AuthName s = AuthName t
      /\ (Operations s = Operations t \/ collision (Operations s) (Operations t))).

Lemma tag_go_string s : go_string (tag_of s).
Proof. unfold tag_of. repeat case_match; by vm_compute. Qed.

Lemma go_slice_sort l : go_slice l -> go_slice (sort_strings l).
Proof.
  intros [Hf Hl]. unfold go_slice. rewrite (Permutation_length (sort_strings_Permutation l)).
  by rewrite sort_strings_Permutation.
Qed.

Lemma Canonical_inj s t :
  holdable s -> holdable t -> image_layout s -> image_layout t ->
  Canonical s = Canonical t -> same_definition s t.
Proof.
  intros (Hs & As & Es) (Ht & At & Et) Is It Hc0. rewrite !Canonical_fields in Hc0.
  rewrite !Forall_cons in Hs, Ht.
  destruct Hs as (S1 & S2 & S3 & S4 & S5 & S6 & S7 & _). destruct Ht as (T1 & T2 & T3 & T4 & T5 & T6 & T7 & _).
  apply fields_app_inj in Hc0 as [Hf H0]; [|by repeat constructor; try apply tag_go_string..|done].
  injection Hf as Htag Hn Htr Hc Hu.
  assert (Himg : Image s = Image t /\ counted (Args s) +:+ counted (sort_strings (EnvVarNames s)) +:+ http_part s
    = counted (Args t) +:+ counted (sort_strings (EnvVarNames t)) +:+ http_part t).
  { unfold image_part, tag_of, image_layout in *. rewrite Htr in *.
    destruct (decide (STransport t = TransportHTTP)) as [Hh|Hh].
    { rewrite (Is Hh), (It Hh), Hh in H0. split; [by rewrite Is, It|exact H0]. }
    rewrite (bool_decide_false (STransport t = TransportHTTP)) in Htag by done.
    destruct (negb (bool_decide (Image s = "")) || _) eqn:W1,
      (negb (bool_decide (Image t = "")) || _) eqn:W2; try discriminate Htag.
    - apply field_app_inj in H0; done.
    - apply orb_false_iff in W1 as [W1 _], W2 as [W2 _].
      rewrite negb_false_iff, bool_decide_eq_true in W1, W2. split; [by rewrite W1, W2|exact H0]. }
  destruct Himg as [Hi H'].
  apply counted_app_inj in H' as [Ha H']; [|done..].
  apply counted_app_inj in H' as [He H']; [|by apply go_slice_sort..].
  unfold same_definition. split_and!; try done.
  - rewrite <- (sort_strings_Permutation (EnvVarNames s)), <- (sort_strings_Permutation (EnvVarNames t)). by rewrite He.
  - intros Hh. unfold http_part in H'. rewrite <- Htr, bool_decide_true in H' by done.
    apply field_app_inj in H' as [-> H']; [|done..]. apply field_app_inj in H' as [-> H']; [|done..].
    apply (f_equal (str_drop 8)) in H'. unfold field in H'.
    split_and!; [done..|]. destruct (decide (Operations s = Operations t)) as [|Hne]; [by left|right].
    split; [done|].
    pose proof (str_drop_app_length (be64 (blen (sum256 (Operations s)))) (sum256 (Operations s))) as D1.
    pose proof (str_drop_app_length (be64 (blen (sum256 (Operations t)))) (sum256 (Operations t))) as D2.
    rewrite be64_length in D1, D2. by rewrite <- D1, <- D2.
Qed.

Lemma Canonical_same s t :
  Name s = Name t -> STransport s = STransport t -> Command s = Command t -> URL s = URL t ->
  Image s = Image t -> Args s = Args t -> EnvVarNames s ≡ₚ EnvVarNames t ->
  (STransport s = TransportHTTP -> SAuthKind s = SAuthKind t /\ AuthName s = AuthName t /\ Operations s = Operations t) ->
  Canonical s = Canonical t.
Proof.
  intros Hn Ht Hc Hu Hi Ha He Hh. rewrite !Canonical_fields. unfold tag_of, image_part, http_part.
  rewrite Hn, Hc, Hu, Hi, Ha, (sort_strings_unique _ _ He), Ht in *.
  case_bool_decide as Hx; [|done]. destruct (Hh Hx) as (-> & -> & ->). done.
Qed.
End injective.

(** ** Facts about the verifier *)

Section verifier.
Context `{HashFunction, Ed25519}.

Lemma Verify_Ok v e sig :
  Verify v e sig = Ok tt <->
  blen (PublicKey sig) = PublicKeySize /\ blen (SigBytes sig) = SignatureSize
  /\ exists pub, pub ∈ v /\ ed25519_verify pub (Canonical e) (SigBytes sig) = true.
Proof.
  unfold Verify. rewrite <- existsb_elem.
  destruct (Z.eqb_spec (blen (PublicKey sig)) PublicKeySize); simpl; [|naive_solver].
  destruct (Z.eqb_spec (blen (SigBytes sig)) SignatureSize); simpl; [|naive_solver].
  destruct (existsb _ v) eqn:He; [naive_solver|]. split; [|naive_solver]. by repeat case_match.
Qed.

Lemma Verify_Err v e sig err : Verify v e sig = Err err -> ErrInvalidSignature err = true.
Proof. unfold Verify. repeat case_match; by intros [= <-]. Qed.

Lemma new_verifier_from_Ok i trusted v :
  new_verifier_from i trusted = Ok v <-> v = trusted /\ Forall (fun k => blen k = PublicKeySize) trusted.
Proof.
  revert i v. induction trusted as [|k ks IH]; intros i v; simpl; [naive_solver|].
  rewrite Forall_cons. destruct (Z.eqb_spec (blen k) PublicKeySize) as [Hk|]; [|naive_solver]. split.
  - intros (ks' & [-> Hf]%IH & [= <-])%rbind_Ok_inv. done.
  - intros [-> [_ Hf]]. by rewrite (proj2 (IH (S i) ks) (conj eq_refl Hf)).
Qed.

(** ** Properties *)

(** Fact [canonical_binds_definition]: the signed bytes determine an entry's definition. Two entries a
    Go program can hold have the same canonical bytes exactly when they agree on the name, the
    transport, the command, the URL, the image, the arguments in order, the set of environment
    names and, for http, the credential location and the operations (or their operations are a
    SHA-256 collision); timestamps never matter. *)
Theorem canonical_binds_definition s t :
  holdable s -> holdable t -> image_layout s -> image_layout t ->
  (Canonical s = Canonical t -> same_definition s t)
  /\ (same_definition s t -> ~ collision (Operations s) (Operations t) -> Canonical s = Canonical t).
Proof.
  intros Hs Ht Is It. split; [by apply Canonical_inj|].
  intros (?&?&?&?&?&?&?&Hh) Hc. apply Canonical_same; try done.
  intros Hx. destruct (Hh Hx) as (?&?&[?|?]); [done|by destruct Hc].
Qed.

(** Fact [verify_trust_anchor]: [Verify] accepts exactly a well-formed signature one of the configured
    keys verifies over the entry's canonical bytes; the key stored beside the signature decides
    nothing (any other well-formed one gives the same acceptance), an empty trust anchor accepts
    nothing, and every refusal is an invalid-signature error. *)
Theorem verify_trust_anchor trusted v e bytes :
  NewVerifier trusted = Ok v ->
  (forall pub, Verify v e {| SigBytes := bytes; PublicKey := pub |} = Ok tt <->
     blen pub = PublicKeySize /\ blen bytes = SignatureSize
     /\ exists k, k ∈ trusted /\ ed25519_verify k (Canonical e) bytes = true)
  /\ (forall pub pub', blen pub = PublicKeySize -> blen pub' = PublicKeySize ->
        Verify v e {| SigBytes := bytes; PublicKey := pub |} = Ok tt ->
        Verify v e {| SigBytes := bytes; PublicKey := pub' |} = Ok tt)
  /\ (forall pub err, Verify v e {| SigBytes := bytes; PublicKey := pub |} = Err err ->
        ErrInvalidSignature err = true).
Proof.
  intros [-> _]%new_verifier_from_Ok. split_and!.
  - intros pub. apply Verify_Ok.
  - intros pub pub' _ Hp (_ & Hb & Hk)%Verify_Ok. by apply Verify_Ok.
  - intros pub err. apply Verify_Err.
Qed.


(** Fact [sign_then_verify]: what [Sign] produces with a trusted key is stored, read back and accepted. *)
Theorem sign_then_verify key k trusted v e t :
  (forall m, ed25519_verify (SignerPublicKey key) m (ed25519_sign key m) = true
             /\ blen (ed25519_sign key m) = SignatureSize) ->
  NewSigner key = Ok k -> NewVerifier trusted = Ok v -> SignerPublicKey k ∈ trusted ->
  exists t', Put t (Name e) (Sign k e) = Ok t'
    /\ GetSignature t' (Name e) = Ok (Sign k e) /\ Verify v e (Sign k e) = Ok tt.
Proof.
  intros Hed Hk [-> Hf]%new_verifier_from_Ok Hin. unfold NewSigner in Hk.
  destruct (Z.eqb_spec (blen key) PrivateKeySize) as [Hl|]; [|done]. injection Hk as <-.
  rewrite Forall_forall in Hf. pose proof (Hf _ Hin) as Hp. destruct (Hed (Canonical e)) as [Hv Hs].
  unfold Put. cbn [PublicKey SigBytes Sign]. rewrite Hp, Hs. simpl. eexists. split; [done|]. split.
  - unfold GetSignature. by rewrite lookup_insert_eq.
  - apply Verify_Ok. eauto.
Qed.
End verifier.

(** ** The layout of an http entry that carries an image

    [Canonical] writes the image of any entry that has one, under the http tag as well, so the http
    layout is not unambiguous on its own: an image there shifts the argument count. *)
Definition http_entry (args : list string) (image : string) : UpstreamServer :=
  {| Name := "cases"; STransport := TransportHTTP; Command := ""; Args := args; Image := image; URL := "https://c";
     EnvVarNames := []; SAuthKind := AuthNone; AuthName := ""; Operations := "[{}]";
     CreatedAt := zero_time; UpdatedAt := zero_time |}.

(** Fact [http_image_ambiguous]: two http entries with different arguments have the same canonical
    bytes, one of them with an image, which the layout assumes an http entry never has. *)
Theorem http_image_ambiguous `{HashFunction} :
  let args := ["a"; "b"; "c"; "d"; "e"; "f"; "g"] in
  Canonical (http_entry (be64 7 :: args) "") = Canonical (http_entry args (be64 8))
  /\ be64 7 :: args <> args.
Proof. split; [|done]. rewrite !Canonical_fields. unfold http_part, http_entry. cbn [SAuthKind AuthName Operations STransport].
  rewrite bool_decide_true by done. generalize (field (sum256 "[{}]")). intros d.
  vm_compute. reflexivity.
Qed.

(** ** Witnesses *)

(** A stand-in for Ed25519: the public key is the private key's second half, and a signature is
    accepted when it is the signer's own. *)
Definition demo_ed : Ed25519 :=
  {| ed25519_sign := fun k m => str_take 32 (sum256 (str_drop 32 k +:+ m)) +:+ str_drop 32 k;
     ed25519_verify := fun pub m b => bool_decide (b = str_take 32 (sum256 (pub +:+ m)) +:+ pub) |}.

Definition demo_key : string := be 32 1 +:+ be 32 2.

Lemma demo_holdable : holdable demo_stdio.
Proof. unfold holdable, go_slice. split_and!; repeat constructor; by vm_compute. Qed.

Lemma canonical_binds_definition_witness :
  same_definition demo_stdio demo_stdio.
Proof.
  apply (proj1 (@canonical_binds_definition sha256_hash demo_stdio demo_stdio demo_holdable demo_holdable
    ltac:(discriminate) ltac:(discriminate))). reflexivity.
Defined.

Lemma verify_trust_anchor_witness :
  Verify (H := weak_hash) (H0 := demo_ed) [be 32 2] demo_stdio
    {| SigBytes := be 64 0; PublicKey := be 32 9 |} <> Ok tt.
Proof.
  intros Hv. destruct (proj1 (proj1 (@verify_trust_anchor weak_hash demo_ed [be 32 2] [be 32 2] demo_stdio (be 64 0)
    ltac:(vm_compute; reflexivity)) (be 32 9)) Hv) as (_ & _ & k & Hk & Hv').
  apply list_elem_of_singleton in Hk. subst k. vm_compute in Hv'. discriminate.
Defined.

(** A stand-in whose key accepts its signature of one message only. *)
Definition demo_ed_one (m0 : string) : Ed25519 :=
  {| ed25519_sign := fun k m => be 64 0;
     ed25519_verify := fun pub m b => bool_decide (m = m0) && bool_decide (b = be 64 0) |}.

Definition demo_ed_stdio : Ed25519 := demo_ed_one (Canonical (H := weak_hash) demo_stdio).


(** A stand-in that signs every message with zeros, which its key accepts. *)
Definition demo_ed_all : Ed25519 :=
  {| ed25519_sign := fun k m => be 64 0; ed25519_verify := fun pub m b => bool_decide (b = be 64 0) |}.

Lemma sign_then_verify_witness :
  exists t', Put ∅ (Name demo_stdio) (Sign (H := weak_hash) (H0 := demo_ed_all) demo_key demo_stdio) = Ok t'
    /\ GetSignature t' (Name demo_stdio) = Ok (Sign (H := weak_hash) (H0 := demo_ed_all) demo_key demo_stdio)
    /\ Verify (H := weak_hash) (H0 := demo_ed_all) [be 32 2] demo_stdio
         (Sign (H := weak_hash) (H0 := demo_ed_all) demo_key demo_stdio) = Ok tt.
Proof.
  apply (@sign_then_verify weak_hash demo_ed_all demo_key demo_key [be 32 2] [be 32 2] demo_stdio ∅).
  - intros m. split; [|reflexivity]. apply bool_decide_eq_true_2. reflexivity.
  - vm_compute. reflexivity.
  - vm_compute. reflexivity.
  - vm_compute. apply list_elem_of_here.
Defined.
