(* ===== verification/Access.v ===== *)
(** * Access control: roles, the policy and what it authorises ([internal/access/access.go])

    A role is a list of namespaced tool names plus per-backend grants; a policy maps a caller's
    identity-provider groups to roles.  Go maps are [gmap]s; where the code ranges over one, the
    definition takes its entries in the order visited, and the theorems hold for every order. *)
From Stdlib Require Import ZArith Lia Ascii.
From stdpp Require Import base strings list gmap sorting.
From S2P Require Import Prelude.
From S2P Require Import GoStrings.

(** ** Data *)

Record Identity := { Subject : string; IdName : string; Groups : list string }.

Record Role := {
  RoleName : string;
  Tools : list string;
  Grants : gmap string (list string);
  NonRead : bool
}.

Definition GrantAll : string := "*".
Definition nameSeparator : string := ".".

(** The zero [Role], which indexing a Go map at a missing key returns. *)
Definition zero_role : Role := {| RoleName := ""; Tools := []; Grants := ∅; NonRead := false |}.

(** ** What a role allows *)

Definition AllowsExplicitly (r : Role) (tool : string) : bool := bool_decide (tool ∈ Tools r).

(** The test [Allows] makes of one entry of [Grants]. *)
Definition grant_matches (tool backend : string) (ids : list string) : bool :=
  match cut_prefix tool (backend +:+ nameSeparator) with
  | None => false
  | Some rest =>
      if bool_decide (rest = "") then false
      else bool_decide (GrantAll ∈ ids) || bool_decide (rest ∈ ids)
  end.

Definition Allows (r : Role) (tool : string) : bool :=
  if bool_decide (tool ∈ Tools r) then true
  else existsb (fun e => grant_matches tool e.1 e.2) (map_to_list (Grants r)).

(** ** Validation: every problem, in the order the code reports them *)

Inductive role_error :=
| NameUntrimmed | NameEmpty
| ToolUntrimmed (tool : string) | ToolEmpty
| BackendEmpty | BackendUntrimmed (b : string) | BackendWildcard | BackendSeparator (b : string)
| AllAlongside (b : string)
| IdEmpty (b : string) | IdUntrimmed (b id : string) | IdSeparator (b id : string) | IdDuplicate (b id : string).

(** The loop over one grant's tool ids, with the [seen] set. *)
Fixpoint check_ids (b : string) (seen : list string) (ids : list string) : list role_error :=
  match ids with
  | [] => []
  | id :: rest =>
      if blank id then IdEmpty b :: check_ids b seen rest
      else if negb (trimmed id) then IdUntrimmed b id :: check_ids b seen rest
      else if bool_decide (id = GrantAll) then check_ids b seen rest
      else if str_contains id nameSeparator then IdSeparator b id :: check_ids b seen rest
      else if bool_decide (id ∈ seen) then IdDuplicate b id :: check_ids b (id :: seen) rest
      else check_ids b (id :: seen) rest
  end.

Definition check_backend (b : string) : list role_error :=
  if blank b then [BackendEmpty]
  else if negb (trimmed b) then [BackendUntrimmed b]
  else if bool_decide (b = GrantAll) then [BackendWildcard]
  else if str_contains b nameSeparator then [BackendSeparator b]
  else [].

Definition validateGrants (r : Role) : list role_error :=
  flat_map (fun b =>
    let ids := default [] (Grants r !! b) in
    check_backend b
    ++ (if bool_decide (GrantAll ∈ ids) && (1 <? length ids)%nat then [AllAlongside b] else [])
    ++ check_ids b [] ids)
  (sort_strings (map fst (map_to_list (Grants r)))).

Definition ValidateRole (r : Role) : list role_error :=
  (if trimmed (RoleName r) then [] else [NameUntrimmed])
  ++ (if blank (RoleName r) then [NameEmpty] else [])
  ++ flat_map (fun tool =>
       (if trimmed tool then [] else [ToolUntrimmed tool]) ++ (if blank tool then [ToolEmpty] else []))
     (Tools r)
  ++ validateGrants r.

Inductive group_error := GroupEmpty | GroupUntrimmed (g : string).

Definition ValidateGroupName (g : string) : option group_error :=
  if blank g then Some GroupEmpty
  else if negb (trimmed g) then Some (GroupUntrimmed g)
  else None.

(** ** The policy *)

Record Policy := { roles : gmap string Role; groupToRole : gmap string string }.

Inductive policy_error :=
| InvalidRole (es : list role_error)
| DuplicateRole (name : string)
| InvalidGroup (e : group_error)
| ErrNoSuchRole (group role : string).

(** The role as it crosses the policy's boundary: every field copied, the slices and the map deep. *)
Definition cloneRole (r : Role) : Role :=
  {| RoleName := RoleName r; Tools := Tools r; Grants := Grants r; NonRead := NonRead r |}.

Fixpoint add_roles (byName : gmap string Role) (rs : list Role) : result policy_error (gmap string Role) :=
  match rs with
  | [] => Ok byName
  | r :: rest =>
      match ValidateRole r with
      | [] =>
          match byName !! RoleName r with
          | Some _ => Err (DuplicateRole (RoleName r))
          | None => add_roles (<[RoleName r := cloneRole r]> byName) rest
          end
      | es => Err (InvalidRole es)
      end
  end.

Fixpoint add_mapping (byName : gmap string Role) (mapping : gmap string string)
    (entries : list (string * string)) : result policy_error (gmap string string) :=
  match entries with
  | [] => Ok mapping
  | (group, roleName) :: rest =>
      match ValidateGroupName group with
      | Some e => Err (InvalidGroup e)
      | None =>
          match byName !! roleName with
          | None => Err (ErrNoSuchRole group roleName)
          | Some _ => add_mapping byName (<[group := roleName]> mapping) rest
          end
      end
  end.

(** [entries] is the mapping's entries in the order the range visits them. *)
Definition NewPolicy (rs : list Role) (entries : list (string * string)) : result policy_error Policy :=
  byName <-? add_roles ∅ rs;;
  mapping <-? add_mapping byName ∅ entries;;
  Ok {| roles := byName; groupToRole := mapping |}.

(** The role names an identity's groups map to, each once, in group order. *)
Definition role_name_step (p : Policy) (names : list string) (g : string) : list string :=
  match groupToRole p !! g with
  | Some roleName => if bool_decide (roleName ∈ names) then names else names ++ [roleName]
  | None => names
  end.

Definition role_names (p : Policy) (id : Identity) : list string :=
  foldl (role_name_step p) [] (Groups id).

Definition RolesFor (p : Policy) (id : Identity) : list Role :=
  map (fun n => cloneRole (default zero_role (roles p !! n))) (sort_strings (role_names p id)).

(** [fmt.Errorf("%w: ...", ErrForbidden, ...)]. *)
Inductive access_error := ErrForbidden (subject tool : string).

Definition Authorize (p : Policy) (id : Identity) (tool : string) : result access_error unit :=
  if existsb (fun r => Allows r tool) (RolesFor p id) then Ok tt
  else Err (ErrForbidden (Subject id) tool).

Definition AuthorizeNonRead (p : Policy) (id : Identity) (tool : string) : result access_error unit :=
  if existsb (fun r => NonRead r && AllowsExplicitly r tool) (RolesFor p id) then Ok tt
  else Err (ErrForbidden (Subject id) tool).

Definition AllowedTools (p : Policy) (id : Identity) (advertised : list string) : list string :=
  sort_strings (foldl (fun out tool =>
    if bool_decide (tool ∈ out) then out
    else if existsb (fun r => Allows r tool) (RolesFor p id) then out ++ [tool] else out)
  [] advertised).

(** ** Facts about one role *)

Lemma cloneRole_id r : cloneRole r = r.
Proof. by destruct r. Qed.

Lemma Allows_spec r tool :
  Allows r tool = true <->
  tool ∈ Tools r \/ exists b ids, Grants r !! b = Some ids /\ grant_matches tool b ids = true.
Proof.
  unfold Allows. case_bool_decide as Ht; [naive_solver|]. rewrite existsb_exists. split.
  - intros ([b ids] & Hin & Hm). right. exists b, ids. split; [|done].
    by apply elem_of_map_to_list, list_elem_of_In.
  - intros [?|(b & ids & Hl & Hm)]; [done|]. exists (b, ids). split; [|done].
    by apply list_elem_of_In, elem_of_map_to_list.
Qed.

Lemma grant_matches_spec tool b ids :
  grant_matches tool b ids = true <->
  exists rest, tool = b +:+ nameSeparator +:+ rest /\ rest <> "" /\ (GrantAll ∈ ids \/ rest ∈ ids).
Proof.
  unfold grant_matches. destruct (cut_prefix tool (b +:+ nameSeparator)) as [rest|] eqn:Hc.
  - apply cut_prefix_spec in Hc. rewrite <- string_app_assoc in Hc. subst tool.
    case_bool_decide as Hr.
    + split; [done|]. intros (rest' & H & Hne & _).
      apply (inj (String.append b)), (inj (String.append nameSeparator)) in H. by subst.
    + rewrite orb_true_iff, !bool_decide_eq_true. split; [naive_solver|].
      intros (rest' & H & _ & Hi).
      apply (inj (String.append b)), (inj (String.append nameSeparator)) in H. by subst.
  - split; [done|]. intros (rest & -> & _).
    assert (H : cut_prefix (b +:+ nameSeparator +:+ rest) (b +:+ nameSeparator) = Some rest); [|congruence].
    apply cut_prefix_spec. by rewrite string_app_assoc.
Qed.

(** No separator in a name. *)
Definition no_dot (s : string) : Prop := contains_byte s "." = false.

Lemma str_contains_dot s : str_contains s nameSeparator = contains_byte s ".".
Proof.
  induction s as [|a s IH]; [done|]. unfold nameSeparator in *. cbn [str_contains has_prefix contains_byte].
  rewrite IH. destruct s; simpl; rewrite ?andb_true_r; f_equal; apply bool_decide_ext; naive_solver.
Qed.

(** The first separator of a namespaced name ends the backend: two splits of one name at a
    separator, both with a backend that holds none, are the same split. *)
Lemma namespaced_inj b1 b2 r1 r2 :
  no_dot b1 -> no_dot b2 -> b1 +:+ nameSeparator +:+ r1 = b2 +:+ nameSeparator +:+ r2 -> b1 = b2 /\ r1 = r2.
Proof.
  unfold no_dot. revert b2. induction b1 as [|x b1 IH]; intros [|y b2] H1 H2 H; simpl in *.
  - by apply (inj (String.append nameSeparator)) in H.
  - rewrite string_app_cons in H. injection H as <- _. by rewrite bool_decide_true in H2.
  - rewrite string_app_cons in H. injection H as -> _. by rewrite bool_decide_true in H1.
  - rewrite !string_app_cons in H. injection H as -> H.
    apply orb_false_iff in H1 as [_ H1]. apply orb_false_iff in H2 as [_ H2].
    destruct (IH b2 H1 H2 H). by subst.
Qed.

(** A role that passed [ValidateRole] has no separator in a grant's key. *)
Lemma ValidateRole_grant_no_dot r b ids :
  ValidateRole r = [] -> Grants r !! b = Some ids -> no_dot b.
Proof.
  unfold ValidateRole. intros H Hb. do 3 apply app_eq_nil in H as [_ H].
  unfold validateGrants in H.
  assert (Hin : b ∈ sort_strings (map fst (map_to_list (Grants r)))).
  { rewrite elem_of_sort_strings. apply list_elem_of_In, in_map_iff. exists (b, ids).
    split; [done|]. by apply list_elem_of_In, elem_of_map_to_list. }
  apply list_elem_of_split in Hin as (l1 & l2 & Hl). rewrite Hl, flat_map_app in H.
  apply app_eq_nil in H as [_ H]. simpl in H.
  apply app_eq_nil in H as [H _]. apply app_eq_nil in H as [H _].
  unfold check_backend in H. unfold no_dot. rewrite <- str_contains_dot.
  repeat case_match; done.
Qed.

(** ** The policy *)

Lemma role_names_foldl p gs acc n :
  n ∈ foldl (role_name_step p) acc gs <-> n ∈ acc \/ exists g, g ∈ gs /\ groupToRole p !! g = Some n.
Proof.
  revert acc. induction gs as [|g gs IH]; intros acc; simpl; [set_solver|].
  rewrite IH. unfold role_name_step. destruct (groupToRole p !! g) as [rn|] eqn:Hg.
  - case_bool_decide; set_solver.
  - set_solver.
Qed.

Lemma elem_of_role_names p id n :
  n ∈ role_names p id <-> exists g, g ∈ Groups id /\ groupToRole p !! g = Some n.
Proof. unfold role_names. rewrite role_names_foldl. set_solver. Qed.

Lemma role_names_NoDup p id : NoDup (role_names p id).
Proof.
  unfold role_names. cut (forall acc, NoDup acc -> NoDup (foldl (role_name_step p) acc (Groups id))).
  { intros H. apply H. constructor. }
  induction (Groups id) as [|g gs IH]; intros acc H; simpl; [done|].
  apply IH. unfold role_name_step. destruct (groupToRole p !! g) as [rn|]; [|done].
  case_bool_decide; [done|]. apply NoDup_app. split_and!; [done|set_solver|apply NoDup_singleton].
Qed.

Lemma elem_of_RolesFor p id r :
  r ∈ RolesFor p id <-> exists g n, g ∈ Groups id /\ groupToRole p !! g = Some n
    /\ r = default zero_role (roles p !! n).
Proof.
  unfold RolesFor. rewrite list_elem_of_In, in_map_iff. split.
  - intros (n & <- & Hn%list_elem_of_In). rewrite elem_of_sort_strings in Hn.
    apply elem_of_role_names in Hn as (g & ? & ?). rewrite cloneRole_id. eauto.
  - intros (g & n & Hg & Hn & ->). exists n. rewrite cloneRole_id. split; [done|].
    apply list_elem_of_In, elem_of_sort_strings, elem_of_role_names. eauto.
Qed.

Lemma Authorize_spec p id tool :
  Authorize p id tool = Ok tt <-> exists r, r ∈ RolesFor p id /\ Allows r tool = true.
Proof. unfold Authorize. rewrite <- existsb_elem. by destruct (existsb _ _). Qed.

Lemma AuthorizeNonRead_spec p id tool :
  AuthorizeNonRead p id tool = Ok tt <->
  exists r, r ∈ RolesFor p id /\ NonRead r = true /\ tool ∈ Tools r.
Proof.
  unfold AuthorizeNonRead, AllowsExplicitly. split.
  - intros H. destruct (existsb _ _) eqn:He; [|done]. apply existsb_elem in He as (r & Hr & Hn).
    rewrite andb_true_iff, bool_decide_eq_true in Hn. naive_solver.
  - intros (r & Hr & Hn & Ht).
    assert (He : existsb (fun r => NonRead r && bool_decide (tool ∈ Tools r)) (RolesFor p id) = true); [|by rewrite He].
    apply existsb_elem. exists r. by rewrite Hn, bool_decide_true.
Qed.

Lemma AllowedTools_foldl rs adv acc :
  NoDup acc ->
  let out := foldl (fun out tool =>
    if bool_decide (tool ∈ out) then out
    else if existsb (fun r => Allows r tool) rs then out ++ [tool] else out) acc adv in
  NoDup out /\ forall t, t ∈ out <-> t ∈ acc \/ (t ∈ adv /\ existsb (fun r => Allows r t) rs = true).
Proof.
  revert acc. induction adv as [|x adv IH]; intros acc Hnd; simpl; [set_solver|].
  case_bool_decide as Hx.
  - destruct (IH acc Hnd) as [Hn Hi]. split; [done|]. intros t. rewrite Hi, elem_of_cons.
    split; [intros [?|[??]]; auto|intros [?|[[->|?] ?]]; auto].
  - destruct (existsb (fun r => Allows r x) rs) eqn:He.
    + destruct (IH (acc ++ [x])) as [Hn Hi].
      { apply NoDup_app. split_and!; [done|set_solver|apply NoDup_singleton]. }
      split; [done|]. intros t. rewrite Hi, elem_of_app, list_elem_of_singleton, elem_of_cons.
      split; [intros [[?| ->]|[??]]; auto|intros [?|[[->|?] ?]]; auto].
    + destruct (IH acc Hnd) as [Hn Hi]. split; [done|]. intros t. rewrite Hi, elem_of_cons.
      split; [intros [?|[??]]; auto|intros [?|[[->|?] ?]]; auto; congruence].
Qed.

(** *** Construction *)

Lemma add_roles_Ok rs byName m :
  add_roles byName rs = Ok m ->
  Forall (fun r => ValidateRole r = []) rs /\ NoDup (map RoleName rs)
  /\ (forall r, r ∈ rs -> byName !! RoleName r = None)
  /\ (forall n, m !! n = match byName !! n with
                        | Some r => Some r
                        | None => List.find (fun r => bool_decide (RoleName r = n)) rs
                        end).
Proof.
  revert byName. induction rs as [|r rs IH]; intros byName; simpl.
  { intros [= <-]. split_and!; [constructor|constructor|set_solver|].
    intros n. by destruct (byName !! n). }
  destruct (ValidateRole r) eqn:Hv; [|done]. destruct (byName !! RoleName r) eqn:Hb; [done|].
  intros H. apply IH in H as (Hf & Hnd & Hfresh & Hm). rewrite cloneRole_id in *. split_and!.
  - by constructor.
  - constructor; [|done]. intros Hin%list_elem_of_In%in_map_iff. destruct Hin as (r' & Hn & Hr'%list_elem_of_In).
    specialize (Hfresh r' Hr'). rewrite Hn, lookup_insert_eq in Hfresh. done.
  - intros r' [->|Hr']%elem_of_cons; [done|]. specialize (Hfresh r' Hr').
    by apply lookup_insert_None in Hfresh as [].
  - intros n. rewrite Hm. rewrite lookup_insert. case_decide as He.
    + subst. rewrite Hb. by rewrite bool_decide_true.
    + by rewrite bool_decide_false.
Qed.

Lemma add_mapping_Ok byName es mapping m :
  add_mapping byName mapping es = Ok m ->
  Forall (fun e => ValidateGroupName e.1 = None /\ is_Some (byName !! e.2)) es
  /\ m = foldl (fun m e => <[e.1 := e.2]> m) mapping es.
Proof.
  revert mapping. induction es as [|[g rn] es IH]; intros mapping; simpl.
  { intros [= <-]. split; [constructor|done]. }
  destruct (ValidateGroupName g) eqn:Hg; [done|]. destruct (byName !! rn) eqn:Hb; [|done].
  intros H. apply IH in H as [Hf ->]. split; [|done]. constructor; [|done]. simpl. eauto.
Qed.

Lemma foldl_insert_lookup (es : list (string * string)) (m : gmap string string) g n :
  NoDup (map fst es) ->
  (foldl (fun m e => <[e.1 := e.2]> m) m es !! g = Some n <->
   (g, n) ∈ es \/ (g ∉ map fst es /\ m !! g = Some n)).
Proof.
  revert m. induction es as [|[g' n'] es IH]; intros m Hnd; simpl.
  { set_solver. }
  apply NoDup_cons in Hnd as [Hg' Hnd]. rewrite IH by done.
  rewrite lookup_insert, elem_of_cons, not_elem_of_cons. simpl.
  case_decide as He; simplify_eq.
  - split; [intros [?|[? [= ->]]]; auto|].
    intros [[[= ->]|?]|[[? _] _]]; [right; by split|by left|done].
  - split; [intros [?|[??]]; auto; right; naive_solver|].
    intros [[[= -> ->]|?]|[[??]?]]; [done|by left|right; by split].
Qed.

(** A policy as [NewPolicy] builds it: every mapped group reaches a validated role of that name. *)
Definition policy_wf (p : Policy) : Prop :=
  (forall n r, roles p !! n = Some r -> RoleName r = n /\ ValidateRole r = [])
  /\ (forall g n, groupToRole p !! g = Some n -> ValidateGroupName g = None /\ is_Some (roles p !! n)).

Lemma find_role_Some rs n r :
  List.find (fun r => bool_decide (RoleName r = n)) rs = Some r -> r ∈ rs /\ RoleName r = n.
Proof. intros [Hin Hn]%find_some. by rewrite bool_decide_eq_true, <- list_elem_of_In in *. Qed.

Lemma find_role_unique rs r :
  NoDup (map RoleName rs) -> r ∈ rs -> List.find (fun r' => bool_decide (RoleName r' = RoleName r)) rs = Some r.
Proof.
  induction rs as [|r' rs IH]; [by intros _ ?%elem_of_nil|]. simpl.
  intros [Hr' Hnd]%NoDup_cons [->|Hin]%elem_of_cons; [by rewrite bool_decide_true|].
  case_bool_decide as He; [|by apply IH]. exfalso. apply Hr'. rewrite He.
  apply list_elem_of_In, in_map. by apply list_elem_of_In.
Qed.

(** What a successful [NewPolicy] means. *)
Lemma NewPolicy_Ok_inv rs es p :
  NewPolicy rs es = Ok p ->
  Forall (fun r => ValidateRole r = []) rs /\ NoDup (map RoleName rs)
  /\ Forall (fun e => ValidateGroupName e.1 = None /\ exists r, r ∈ rs /\ RoleName r = e.2) es
  /\ (forall n, roles p !! n = List.find (fun r => bool_decide (RoleName r = n)) rs)
  /\ groupToRole p = foldl (fun m e => <[e.1 := e.2]> m) ∅ es.
Proof.
  unfold NewPolicy. intros (byName & Ha & H)%rbind_Ok_inv.
  apply rbind_Ok_inv in H as (mapping & Hm & [= <-]).
  apply add_roles_Ok in Ha as (Hf & Hnd & _ & Hl). apply add_mapping_Ok in Hm as [He ->].
  assert (Hl' : forall n, byName !! n = List.find (fun r => bool_decide (RoleName r = n)) rs).
  { intros n. by rewrite Hl, lookup_empty. }
  split_and!; try done. eapply Forall_impl; [exact He|].
  intros [g n] [Hg [r Hr]]. split; [done|]. rewrite Hl' in Hr. apply find_role_Some in Hr. eauto.
Qed.

Lemma NewPolicy_wf rs es p : NewPolicy rs es = Ok p -> NoDup (map fst es) -> policy_wf p.
Proof.
  intros (Hf & Hnd & He & Hl & Hm)%NewPolicy_Ok_inv Hes. rewrite Forall_forall in Hf. rewrite Forall_forall in He. split.
  - intros n r Hr. rewrite Hl in Hr. apply find_role_Some in Hr as [Hin Hn]. auto.
  - intros g n Hg. rewrite Hm, foldl_insert_lookup, lookup_empty in Hg by done.
    destruct Hg as [Hg|[_ ?]]; [|done]. destruct (He _ Hg) as (Hv & r & Hr & Hn). simpl in *.
    split; [done|]. subst. rewrite Hl, find_role_unique; eauto.
Qed.

(** ** Properties *)

(** Fact [policy_decision_exact]: a policy that [NewPolicy] accepted authorises a caller for the tool
    [t] of the backend [up] exactly when one of the caller's groups is mapped to a configured role
    that names the tool, or whose grant on that very backend lists [t] or the wildcard.  No grant on
    one backend ever reaches another backend's tool. *)
Theorem policy_decision_exact rs es p id up t :
  NewPolicy rs es = Ok p -> NoDup (map fst es) -> no_dot up -> t <> "" ->
  Authorize p id (up +:+ nameSeparator +:+ t) = Ok tt <->
  exists g r, g ∈ Groups id /\ r ∈ rs /\ (g, RoleName r) ∈ es
    /\ (up +:+ nameSeparator +:+ t ∈ Tools r
        \/ exists ids, Grants r !! up = Some ids /\ (GrantAll ∈ ids \/ t ∈ ids)).
Proof.
  intros Hp Hes Hup Ht. destruct (NewPolicy_Ok_inv rs es p Hp) as (Hf & Hnd & He & Hl & Hm).
  assert (Hg : forall g n, groupToRole p !! g = Some n <-> (g, n) ∈ es).
  { intros g n. rewrite Hm, foldl_insert_lookup, lookup_empty by done. naive_solver. }
  assert (Ha : forall r, r ∈ rs -> Allows r (up +:+ nameSeparator +:+ t) = true <->
    up +:+ nameSeparator +:+ t ∈ Tools r \/ exists ids, Grants r !! up = Some ids /\ (GrantAll ∈ ids \/ t ∈ ids)).
  { intros r Hr. rewrite Allows_spec. rewrite Forall_forall in Hf. split; (intros [?|H]; [by left|right]).
    - destruct H as (b & ids & Hb & (rest & Heq & _ & Hi)%grant_matches_spec).
      apply namespaced_inj in Heq as [-> ->]; eauto using ValidateRole_grant_no_dot.
    - destruct H as (ids & Hb & Hi). exists up, ids. split; [done|]. apply grant_matches_spec. eauto. }
  rewrite Authorize_spec. setoid_rewrite elem_of_RolesFor. split.
  - intros (r & (g & n & Hgi & Hgn & ->) & Hr). rewrite Hg in Hgn.
    rewrite Forall_forall in He. destruct (He _ Hgn) as (_ & r' & Hr' & Hn). simpl in Hn. subst n.
    rewrite Hl, find_role_unique in Hr by done. simpl in Hr. exists g, r'. rewrite <- Ha by done. done.
  - intros (g & r & Hgi & Hr & Hgn & Hor). exists r. rewrite Ha by done. split; [|done].
    exists g, (RoleName r). rewrite Hg, Hl, find_role_unique by done. done.
Qed.

(** Fact [AllowedTools_exact]: the filtered list and the call gate are one decision. [AllowedTools]
    returns, sorted and without repeats, exactly the advertised names [Authorize] accepts. *)
Theorem AllowedTools_exact p id adv :
  StronglySorted str_le (AllowedTools p id adv) /\ NoDup (AllowedTools p id adv)
  /\ forall t, t ∈ AllowedTools p id adv <-> t ∈ adv /\ Authorize p id t = Ok tt.
Proof.
  unfold AllowedTools. destruct (AllowedTools_foldl (RolesFor p id) adv [] ltac:(constructor)) as [Hnd Hin].
  split_and!; [apply sort_strings_sorted|by apply sort_strings_NoDup|].
  intros t. rewrite elem_of_sort_strings, Hin, Authorize_spec, <- existsb_elem. set_solver.
Qed.

(** Fact [AuthorizeNonRead_narrower]: the sensitive gate accepts only what the ordinary gate accepts,
    and only through a role marked [NonRead] that names the tool: no wildcard satisfies it. *)
Theorem AuthorizeNonRead_narrower p id tool :
  AuthorizeNonRead p id tool = Ok tt ->
  Authorize p id tool = Ok tt
  /\ exists g n r, g ∈ Groups id /\ groupToRole p !! g = Some n /\ roles p !! n = Some r
       /\ NonRead r = true /\ tool ∈ Tools r.
Proof.
  intros (r & Hr & Hn & Ht)%AuthorizeNonRead_spec. split.
  - apply Authorize_spec. exists r. split; [done|]. apply Allows_spec. by left.
  - apply elem_of_RolesFor in Hr as (g & n & Hg & Hgn & ->). exists g, n.
    destruct (roles p !! n) as [r|]; [by exists r|done].
Qed.

(** Fact [NewPolicy_accepts]: [NewPolicy] accepts a configuration exactly when every role validates,
    no role name repeats and every mapped group is valid and names a defined role; what it builds is
    well formed, and a caller none of whose groups is mapped is then forbidden every tool. *)
Theorem NewPolicy_accepts rs es :
  NoDup (map fst es) ->
  (is_ok (NewPolicy rs es) = true <->
   Forall (fun r => ValidateRole r = []) rs /\ NoDup (map RoleName rs)
   /\ Forall (fun e => ValidateGroupName e.1 = None /\ exists r, r ∈ rs /\ RoleName r = e.2) es)
  /\ forall p, NewPolicy rs es = Ok p ->
       policy_wf p
       /\ forall id tool, (forall g, g ∈ Groups id -> g ∉ map fst es) ->
            Authorize p id tool = Err (ErrForbidden (Subject id) tool).
Proof.
  intros Hes. split.
  - split.
    + destruct (NewPolicy rs es) as [p|] eqn:Hp; [|done]. intros _.
      apply NewPolicy_Ok_inv in Hp as (?&?&?&_). done.
    + intros (Hf & Hnd & He).
      assert (Hr : forall byName, (forall r, r ∈ rs -> byName !! RoleName r = None) ->
        exists m, add_roles byName rs = Ok m).
      { clear He. revert Hf Hnd. induction rs as [|r rs IH]; intros Hf Hnd byName Hb; simpl; [eauto|].
        apply Forall_cons in Hf as [-> Hf]. apply NoDup_cons in Hnd as [Hr Hnd].
        rewrite (Hb r) by set_solver. apply IH; [done..|]. intros r' Hr'. rewrite cloneRole_id.
        rewrite lookup_insert_ne; [apply Hb; set_solver|]. intros Heq. apply Hr. rewrite Heq.
        apply list_elem_of_In, in_map. by apply list_elem_of_In. }
      destruct (Hr ∅) as [m Hm]; [intros; apply lookup_empty|].
      unfold NewPolicy. rewrite Hm. simpl. apply add_roles_Ok in Hm as (_ & _ & _ & Hl).
      assert (Hg : forall mapping, exists m', add_mapping m mapping es = Ok m').
      { clear Hes. induction es as [|[g n] es IH]; intros mapping; simpl; [eauto|].
        apply Forall_cons in He as [[Hv (r & Hin & Hn)] He]. simpl in *. rewrite Hv. subst n.
        rewrite Hl, lookup_empty, find_role_unique by done. by apply IH. }
      destruct (Hg ∅) as [m' ->]. done.
  - intros p Hp. split; [by apply (NewPolicy_wf rs es)|]. intros id tool Hno. unfold Authorize.
    destruct (existsb _ _) eqn:He; [|done]. exfalso.
    apply existsb_elem in He as (r & (g & n & Hgi & Hgn & _)%elem_of_RolesFor & _).
    apply NewPolicy_Ok_inv in Hp as (_ & _ & _ & _ & Hm).
    rewrite Hm, foldl_insert_lookup, lookup_empty in Hgn by done. destruct Hgn as [Hgn|[_ ?]]; [|done].
    apply (Hno g Hgi). apply list_elem_of_In, in_map_iff. exists (g, n). by rewrite <- list_elem_of_In.
Qed.

(** ** Witnesses *)

Definition demo_roles : list Role := [
  {| RoleName := "n1-triage"; Tools := ["casemgmt.list_cases"];
     Grants := {[ "docsearch" := ["*"]; "threatintel" := ["lookup_ip"; "decode"] ]}; NonRead := false |};
  {| RoleName := "dfir"; Tools := ["casemgmt.close_case"]; Grants := ∅; NonRead := true |} ].

Definition demo_groups : list (string * string) := [("soc", "n1-triage"); ("ir", "dfir")].

Definition demo_policy : Policy :=
  match NewPolicy demo_roles demo_groups with Ok p => p | Err _ => {| roles := ∅; groupToRole := ∅ |} end.

Definition ana : Identity := {| Subject := "u-ana"; IdName := "Ana"; Groups := ["staff"; "soc"] |}.
Definition bia : Identity := {| Subject := "u-bia"; IdName := "Bia"; Groups := ["ir"] |}.

Lemma demo_groups_NoDup : NoDup (map fst demo_groups).
Proof. apply NoDup_ListNoDup. repeat constructor; simpl; intros H; intuition discriminate. Defined.

Lemma policy_decision_exact_witness :
  NewPolicy demo_roles demo_groups = Ok demo_policy
  /\ Authorize demo_policy ana "threatintel.lookup_ip" = Ok tt
  /\ (Authorize demo_policy ana ("threatintel" +:+ nameSeparator +:+ "lookup_ip") = Ok tt <->
      exists g r, g ∈ Groups ana /\ r ∈ demo_roles /\ (g, RoleName r) ∈ demo_groups
        /\ ("threatintel" +:+ nameSeparator +:+ "lookup_ip" ∈ Tools r
            \/ exists ids, Grants r !! "threatintel" = Some ids /\ (GrantAll ∈ ids \/ "lookup_ip" ∈ ids))).
Proof.
  split; [vm_compute; reflexivity|]. split; [vm_compute; reflexivity|].
  apply policy_decision_exact; [vm_compute; reflexivity|apply demo_groups_NoDup|reflexivity|discriminate].
Defined.

Lemma AuthorizeNonRead_narrower_witness :
  AuthorizeNonRead demo_policy bia "casemgmt.close_case" = Ok tt
  /\ Authorize demo_policy bia "casemgmt.close_case" = Ok tt.
Proof.
  assert (H : AuthorizeNonRead demo_policy bia "casemgmt.close_case" = Ok tt) by (vm_compute; reflexivity).
  split; [exact H|]. apply (AuthorizeNonRead_narrower demo_policy bia "casemgmt.close_case" H).
Defined.

Lemma NewPolicy_accepts_witness :
  is_ok (NewPolicy demo_roles demo_groups) = true /\ policy_wf demo_policy.
Proof.
  split; [vm_compute; reflexivity|].
  apply (NewPolicy_accepts demo_roles demo_groups demo_groups_NoDup). vm_compute. reflexivity.
Defined.
