(* ===== verification/Blocklist.v ===== *)
(** * The per-analyst kill switch ([internal/access/block.go], [internal/access/sqlite])

    [ValidateSubject], [ValidateBlock] and [ActiveAt], then the SQLite adapter: the rows as the texts
    the table holds, every statement's condition as the code writes it.  The theorems relate the
    stored texts to an abstract map from subjects to blocks, for every table the adapter's own
    operations can reach. *)
From Stdlib Require Import ZArith Lia Ascii.
From stdpp Require Import base strings list gmap sorting.
From S2P Require Import Prelude.
From S2P Require Import GoStrings.
From S2P Require Import GoTime.

(** [unicode.Cf]: the invisible format characters. *)
Class FormatTable := { in_Cf : Z -> bool }.

(** [unicode.IsControl]. *)
Definition is_control (r : Z) : bool := in_range 0 0x1f r || in_range 0x7f 0x9f r.

(** [strings.IndexFunc(s, f) >= 0]. *)
Definition any_rune (f : Z -> bool) (s : string) : bool := existsb (fun c => f (fst c)) (runes s).

Record Block := { BSubject : string; Reason : string; By : string; At : time; Until : time }.

#[global] Instance Block_eq_dec : EqDecision Block.
Proof. solve_decision. Defined.

Definition maxBlockText : Z := 256.

Definition ActiveAt (b : Block) (t : time) : bool := IsZero (Until b) || Before t (Until b).

(** ** Validation *)

Inductive block_error :=
| SubjectEmpty | SubjectUntrimmed | SubjectTooLong | SubjectControl | SubjectFormat
| ReasonTooLong | ReasonControl | ByEmpty | AtZero | UntilNotAfter.

#[global] Instance block_error_eq_dec : EqDecision block_error.
Proof. solve_decision. Defined.

Section validate.
Context `{FormatTable}.

Definition ValidateSubject (subject : string) : option block_error :=
  if bool_decide (subject = "") then Some SubjectEmpty
  else if negb (bool_decide (trim_space subject = subject)) then Some SubjectUntrimmed
  else if maxBlockText <? blen subject then Some SubjectTooLong
  else if any_rune is_control subject then Some SubjectControl
  else if any_rune in_Cf subject then Some SubjectFormat
  else None.

Definition ValidateBlock (b : Block) : list block_error :=
  match ValidateSubject (BSubject b) with Some e => [e] | None => [] end
  ++ (if maxBlockText <? blen (Reason b) then [ReasonTooLong] else [])
  ++ (if any_rune is_control (Reason b) then [ReasonControl] else [])
  ++ (if blank (By b) then [ByEmpty] else [])
  ++ (if IsZero (At b) then [AtZero] else [])
  ++ (if negb (IsZero (Until b)) && negb (After (Until b) (At b)) then [UntilNotAfter] else []).
End validate.

(** ** The SQLite adapter

    [blocked_subjects] is a map from its primary key to the other columns; SQLite compares two TEXT
    values byte by byte. *)

Record row := { reason : string; blocked_by : string; blocked_at : string; blocked_until : string }.

Abbreviation table := (gmap string row).

Inductive store_error :=
| Invalid (es : list block_error)
| Unreadable (subject : string)      (* a stored time that does not parse *)
| ErrBlocklistUnavailable            (* the read failed *)
| NoEndNeverExpires.

Definition formatUntil (t : time) : string := if IsZero t then "" else format_fixed (UTC t).

(** [Blocked]: [db] is the outcome of the point read, [None] when the statement failed. *)
Definition Blocked (db : option table) (now : time) (subject : string) : result store_error bool :=
  match db with
  | None => Err ErrBlocklistUnavailable
  | Some t =>
      match t !! subject with
      | None => Ok false
      | Some r =>
          if bool_decide (blocked_until r = "") then Ok true
          else match parse_fixed (blocked_until r) with
               | None => Ok true
               | Some e => Ok (Before now e)
               end
      end
  end.

Definition row_of (b : Block) : row :=
  {| reason := Reason b; blocked_by := By b; blocked_at := format_time (UTC (At b));
     blocked_until := formatUntil (Until b) |}.

(** The upsert's [WHERE]: the stored block has an end and it is not after now, compared as text. *)
Definition replaceable (now : time) (r : row) : bool :=
  negb (bool_decide (blocked_until r = "")) && str_leb (blocked_until r) (formatUntil now).

(** The statement: the table after it, and whether it affected the row. *)
Definition upsert (t : table) (now : time) (b : Block) : table * bool :=
  match t !! BSubject b with
  | Some r => if replaceable now r then (<[BSubject b := row_of b]> t, true) else (t, false)
  | None => (<[BSubject b := row_of b]> t, true)
  end.

(** One row read back, as [Blocks] and [BlockReplacing] scan it. *)
Definition scan_block (subject : string) (r : row) : result store_error Block :=
  match parse_time (blocked_at r) with
  | None => Err (Unreadable subject)
  | Some a =>
      if bool_decide (blocked_until r = "") then
        Ok {| BSubject := subject; Reason := reason r; By := blocked_by r; At := a; Until := zero_time |}
      else match parse_fixed (blocked_until r) with
           | None => Err (Unreadable subject)
           | Some u => Ok {| BSubject := subject; Reason := reason r; By := blocked_by r; At := a; Until := u |}
           end
  end.

(** [ORDER BY blocked_at, subject]. *)
Definition row_le (x y : string * row) : Prop :=
  blocked_at x.2 = blocked_at y.2 /\ str_le x.1 y.1
  \/ blocked_at x.2 <> blocked_at y.2 /\ str_le (blocked_at x.2) (blocked_at y.2).

#[global] Instance row_le_dec x y : Decision (row_le x y).
Proof. unfold row_le. apply _. Defined.

Fixpoint scan_rows (rows : list (string * row)) : result store_error (list Block) :=
  match rows with
  | [] => Ok []
  | (s, r) :: rest => b <-? scan_block s r;; bs <-? scan_rows rest;; Ok (b :: bs)
  end.

Definition Blocks (t : table) : result store_error (list Block) :=
  scan_rows (merge_sort row_le (map_to_list t)).

Definition until_le (a b : Block) : Prop := inst (Until a) <= inst (Until b).

#[global] Instance until_le_dec a b : Decision (until_le a b).
Proof. unfold until_le. apply _. Defined.

(** [sort.SliceStable] by the end is the stable merge sort. *)
Definition Expired (t : table) (now : time) : result store_error (list Block) :=
  all <-? Blocks t;;
  Ok (merge_sort until_le (filter (fun b => ActiveAt b now = false) all)).

Definition RemoveExpired (t : table) (now : time) (subject : string) (until : time) :
    result store_error (table * bool) :=
  if IsZero until then Err NoEndNeverExpires
  else match t !! subject with
       | Some r =>
           if bool_decide (blocked_until r = formatUntil until)
              && str_leb (blocked_until r) (formatUntil now)
           then Ok (delete subject t, true) else Ok (t, false)
       | None => Ok (t, false)
       end.

Definition Unblock (t : table) (subject : string) : table * bool :=
  match t !! subject with Some _ => (delete subject t, true) | None => (t, false) end.

Section place.
Context `{FormatTable}.

Definition PlaceBlock (t : table) (now : time) (b : Block) : result store_error (table * bool) :=
  match ValidateBlock b with
  | [] => Ok (upsert t now b)
  | es => Err (Invalid es)
  end.

(** The read and the upsert are one transaction. *)
Definition BlockReplacing (t : table) (now : time) (b : Block) :
    result store_error (table * bool * option Block) :=
  match ValidateBlock b with
  | [] =>
      old <-? match t !! BSubject b with
              | None => Ok None
              | Some r => o <-? scan_block (BSubject b) r;; Ok (Some o)
              end;;
      let (t', n) := upsert t now b in
      if negb n then Ok (t, false, None) else Ok (t', true, old)
  | es => Err (Invalid es)
  end.
End place.

(** ** The abstract blocklist

    What the ports promise: a partial map from subjects to blocks, at whole instants in UTC. *)

Abbreviation spec := (gmap string Block).

Definition spec_blocked (m : spec) (now : time) (s : string) : bool :=
  match m !! s with Some b => ActiveAt b now | None => false end.

Definition spec_place (m : spec) (now : time) (b : Block) : spec * bool :=
  if spec_blocked m now (BSubject b) then (m, false) else (<[BSubject b := b]> m, true).

Definition spec_remove_expired (m : spec) (now : time) (s : string) (until : time) : spec * bool :=
  match m !! s with
  | Some b => if bool_decide (Until b = UTC until) && negb (ActiveAt b now) then (delete s m, true) else (m, false)
  | None => (m, false)
  end.

(** A block as it is stored: its instants in UTC. *)
Definition in_utc (b : Block) : Block :=
  {| BSubject := BSubject b; Reason := Reason b; By := By b; At := UTC (At b); Until := UTC (Until b) |}.

(** Years 0 to 9999, which both layouts write in four digits. *)
Definition four_digit_year (t : time) : Prop := 0 <= year_of (UTC t) <= 9999.

Definition storable (b : Block) : Prop := four_digit_year (At b) /\ four_digit_year (Until b).

(** A clock reading after the zero time. *)
Definition clock_ok (now : time) : Prop := 0 < inst now /\ four_digit_year now.

Definition represents (t : table) (m : spec) : Prop :=
  (forall s, t !! s = row_of <$> m !! s)
  /\ (forall s b, m !! s = Some b -> BSubject b = s /\ in_utc b = b /\ storable b).

(** ** The stored texts *)

Lemma four_digit_utc t : four_digit_year t -> utc_formattable (UTC t).
Proof. by split. Qed.

Lemma UTC_UTC t : UTC (UTC t) = UTC t.
Proof. done. Qed.

Lemma format_fixed_nonempty t : utc_formattable t -> format_fixed t <> "".
Proof. intros H He. pose proof (parse_format_fixed t H) as Hp. by rewrite He in Hp. Qed.

Lemma formatUntil_empty t : four_digit_year t -> formatUntil t = "" <-> IsZero t = true.
Proof.
  intros H. unfold formatUntil. destruct (IsZero t) eqn:Hz; [done|]. split; [|done].
  intros He. by apply format_fixed_nonempty in He; [|apply four_digit_utc].
Qed.

Lemma parse_formatUntil t : four_digit_year t -> IsZero t = false -> parse_fixed (formatUntil t) = Some (UTC t).
Proof. intros H Hz. unfold formatUntil. rewrite Hz. by apply parse_format_fixed, four_digit_utc. Qed.

Lemma formatUntil_inj t u :
  four_digit_year t -> four_digit_year u -> formatUntil t = formatUntil u -> UTC t = UTC u.
Proof.
  intros Ht Hu H. destruct (IsZero t) eqn:Zt.
  - assert (Zu : IsZero u = true) by (apply formatUntil_empty; [done|]; rewrite <- H; by apply formatUntil_empty).
    unfold IsZero in *. apply Z.eqb_eq in Zt, Zu. unfold UTC. by rewrite Zt, Zu.
  - assert (Zu : IsZero u = false).
    { apply not_true_is_false. intros Zu. apply formatUntil_empty in Zu; [|done].
      rewrite <- H in Zu. apply formatUntil_empty in Zu; [|done]. congruence. }
    apply (inj Some). rewrite <- (parse_formatUntil t), <- (parse_formatUntil u) by done. by rewrite H.
Qed.

Lemma str_leb_formatUntil t u :
  four_digit_year t -> four_digit_year u -> IsZero t = false -> IsZero u = false ->
  str_leb (formatUntil t) (formatUntil u) = (inst t <=? inst u).
Proof.
  intros Ht Hu Zt Zu. unfold formatUntil. rewrite Zt, Zu.
  by rewrite str_leb_format_fixed by by apply four_digit_utc.
Qed.

(** The upsert's textual condition says exactly that the stored block is over. *)
Lemma replaceable_spec now b :
  storable b -> clock_ok now -> replaceable now (row_of b) = negb (ActiveAt b now).
Proof.
  intros [_ Hu] [Hpos Hn]. unfold replaceable, ActiveAt, Before. cbn [blocked_until row_of].
  destruct (IsZero (Until b)) eqn:Hz.
  - by rewrite (proj2 (formatUntil_empty _ Hu) Hz).
  - assert (Hne : formatUntil (Until b) <> "").
    { rewrite formatUntil_empty by done. congruence. }
    rewrite bool_decide_false by done. cbn [negb andb orb].
    rewrite str_leb_formatUntil; [|done..|].
    + by rewrite Z.leb_antisym.
    + unfold IsZero. apply Z.eqb_neq. lia.
Qed.

Lemma scan_block_row b s : storable b -> scan_block s (row_of b) = Ok (in_utc {|
  BSubject := s; Reason := Reason b; By := By b; At := At b; Until := Until b |}).
Proof.
  intros [Ha Hu]. unfold scan_block. cbn [blocked_at blocked_until reason blocked_by row_of].
  rewrite parse_format_time.
  2:{ unfold formattable. cbn [zone UTC]. split_and!; [apply Ha|apply Ha|done|lia]. }
  destruct (IsZero (Until b)) eqn:Hz.
  - rewrite bool_decide_true by by apply formatUntil_empty. unfold in_utc. cbn.
    unfold UTC at 3. unfold IsZero in Hz. apply Z.eqb_eq in Hz. by rewrite Hz.
  - rewrite bool_decide_false.
    + by rewrite parse_formatUntil.
    + rewrite formatUntil_empty by done. congruence.
Qed.

Lemma represents_scan t m s b :
  represents t m -> m !! s = Some b -> t !! s = Some (row_of b) /\ scan_block s (row_of b) = Ok b.
Proof.
  intros [Hl Hw] Hm. rewrite Hl, Hm. split; [done|]. destruct (Hw s b Hm) as (Hs & Hu & Hst).
  rewrite scan_block_row by done. f_equal. rewrite <- Hu at 5. destruct b. simpl in *. by subst.
Qed.

Lemma row_of_in_utc b : row_of (in_utc b) = row_of b.
Proof. done. Qed.

Lemma represents_insert t m b :
  represents t m -> storable b -> represents (<[BSubject b := row_of b]> t) (<[BSubject b := in_utc b]> m).
Proof.
  intros [Hl Hw] Hs. split.
  - intros s. destruct (decide (s = BSubject b)) as [->|].
    + by rewrite !lookup_insert_eq.
    + by rewrite !lookup_insert_ne, Hl by done.
  - intros s b'. rewrite lookup_insert_Some. intros [[<- <-]|[_ Hm]]; [done|by apply Hw].
Qed.

Lemma represents_delete t m s : represents t m -> represents (delete s t) (delete s m).
Proof.
  intros [Hl Hw]. split.
  - intros s'. rewrite !lookup_delete. case_decide; [done|apply Hl].
  - intros s' b [_ H]%lookup_delete_Some. by apply Hw.
Qed.

Lemma represents_empty : represents ∅ ∅.
Proof. split; [intros s; by rewrite !lookup_empty|]. intros s b. by rewrite lookup_empty. Qed.

(** ** Each operation against the abstract one *)

Lemma Blocked_refines t m now s :
  represents t m -> Blocked (Some t) now s = Ok (spec_blocked m now s).
Proof.
  intros [Hl Hw]. unfold Blocked, spec_blocked. rewrite Hl. destruct (m !! s) as [b|] eqn:Hm; simpl; [|done].
  destruct (Hw s b Hm) as (_ & _ & [_ Hu]). unfold ActiveAt. destruct (IsZero (Until b)) eqn:Hz; simpl.
  - by rewrite bool_decide_true by by apply formatUntil_empty.
  - rewrite bool_decide_false by (rewrite formatUntil_empty by done; congruence).
    by rewrite parse_formatUntil.
Qed.

Lemma upsert_refines t m now b :
  represents t m -> clock_ok now -> storable b ->
  (upsert t now b).2 = (spec_place m now (in_utc b)).2
  /\ represents (upsert t now b).1 (spec_place m now (in_utc b)).1.
Proof.
  intros Hr Hn Hb. unfold upsert, spec_place, spec_blocked. cbn [BSubject in_utc].
  destruct Hr as [Hl Hw]. rewrite Hl. destruct (m !! BSubject b) as [o|] eqn:Hm; simpl.
  - rewrite replaceable_spec by (done || by eapply Hw). destruct (ActiveAt o now); simpl; [done|].
    split; [done|]. by apply represents_insert.
  - split; [done|]. by apply represents_insert.
Qed.

Lemma RemoveExpired_refines t m now s until :
  represents t m -> clock_ok now -> four_digit_year until -> IsZero until = false ->
  exists t', RemoveExpired t now s until = Ok (t', (spec_remove_expired m now s until).2)
    /\ represents t' (spec_remove_expired m now s until).1.
Proof.
  intros Hr Hn Hu Hz. unfold RemoveExpired, spec_remove_expired. rewrite Hz.
  pose proof Hr as [Hl Hw]. rewrite Hl. destruct (m !! s) as [b|] eqn:Hm; simpl; [|eauto].
  destruct (Hw s b Hm) as (_ & Hub & Hst). pose proof (replaceable_spec now b Hst Hn) as Hrep.
  unfold replaceable in Hrep. cbn [blocked_until row_of] in Hrep. destruct Hst as [_ Hbu].
  destruct (decide (Until b = UTC until)) as [He|He].
  - assert (Hf : formatUntil (Until b) = formatUntil until) by (by rewrite He).
    rewrite (bool_decide_true (formatUntil _ = _)), (bool_decide_true (Until b = _)) by done. simpl.
    rewrite bool_decide_false in Hrep by (rewrite Hf, formatUntil_empty by done; congruence).
    simpl in Hrep. rewrite Hrep. destruct (ActiveAt b now); simpl; eauto using represents_delete.
  - rewrite (bool_decide_false (formatUntil _ = _)), (bool_decide_false (Until b = _)); simpl; eauto.
    intros Hf. apply He. apply formatUntil_inj in Hf; [|done..]. rewrite <- Hf. by rewrite <- Hub.
Qed.

Lemma scan_rows_Ok (m : spec) (rows : list (string * row)) :
  (forall s r, (s, r) ∈ rows -> exists b, m !! s = Some b /\ scan_block s r = Ok b) ->
  exists bs, scan_rows rows = Ok bs /\ Forall2 (fun x b => m !! x.1 = Some b) rows bs.
Proof.
  induction rows as [|[s r] rows IH]; intros H; simpl.
  { exists []. split; [done|constructor]. }
  destruct (H s r ltac:(by left)) as (b & Hm & ->). simpl.
  destruct IH as (bs & -> & Hf); [intros; apply H; by right|].
  simpl. exists (b :: bs). split; [done|]. by constructor.
Qed.

Lemma map_fst_prod_map {A B K} (f : A -> B) (l : list (K * A)) : map fst (prod_map id f <$> l) = map fst l.
Proof. induction l as [|x l IH]; [done|]. cbn. by f_equal. Qed.

(** The listing is every stored block, each once. *)
Lemma Blocks_refines t m :
  represents t m -> exists bs, Blocks t = Ok bs /\ bs ≡ₚ map snd (map_to_list m).
Proof.
  intros Hr. unfold Blocks. pose proof (merge_sort_Permutation row_le (map_to_list t)) as Hp.
  destruct (scan_rows_Ok m (merge_sort row_le (map_to_list t))) as (bs & Hbs & Hf).
  { intros s r Hin. rewrite Hp in Hin. apply elem_of_map_to_list in Hin.
    pose proof Hr as [Hl Hw]. rewrite Hl in Hin. apply fmap_Some in Hin as (b & Hm & ->).
    exists b. split; [done|]. by apply (represents_scan t m s b). }
  exists bs. split; [done|].
  assert (Ht : t = row_of <$> m) by (apply map_eq; intros s; rewrite lookup_fmap; apply Hr).
  assert (Hk : bs = map (fun x => default {| BSubject := ""; Reason := ""; By := ""; At := zero_time; Until := zero_time |}
                      (m !! x)) (map fst (merge_sort row_le (map_to_list t)))).
  { clear -Hf. induction Hf as [|[s r] b rows bs Hm _ IH]; simpl; [done|]. simpl in Hm. by rewrite Hm, <- IH. }
  rewrite Hk, Hp, Ht, map_to_list_fmap, map_fst_prod_map, map_map.
  erewrite map_ext_in; [reflexivity|].
  intros [s' b'] Hin%list_elem_of_In%elem_of_map_to_list. simpl. by rewrite Hin.
Qed.

Lemma Expired_refines t m now :
  represents t m -> exists bs, Expired t now = Ok bs
    /\ (forall b, b ∈ bs <-> exists s, m !! s = Some b /\ ActiveAt b now = false)
    /\ Sorted until_le bs.
Proof.
  intros Hr. unfold Expired. destruct (Blocks_refines t m Hr) as (bs & -> & Hp). simpl.
  eexists. split; [done|]. split.
  - intros b. rewrite merge_sort_Permutation, list_elem_of_filter, Hp.
    rewrite list_elem_of_In, in_map_iff. setoid_rewrite <- list_elem_of_In. split.
    + intros [Ha ([s b'] & Hb & Hin%elem_of_map_to_list)]. simpl in Hb. subst. eauto.
    + intros (s & Hm & Ha). split; [done|]. exists (s, b). split; [done|]. by apply elem_of_map_to_list.
  - apply Sorted_merge_sort. intros x y. unfold until_le. lia.
Qed.

(** ** Histories of operations *)

Inductive blk_op :=
| OpBlock (b : Block)
| OpBlockReplacing (b : Block)
| OpUnblock (s : string)
| OpRemoveExpired (s : string) (until : time).

Definition blk_out : Type := result store_error (bool * option Block).

Section histories.
Context `{FormatTable}.

(** One operation of the adapter at a clock reading: the table after it and what it returned. *)
Definition apply_op (t : table) (now : time) (op : blk_op) : table * blk_out :=
  match op with
  | OpBlock b => match PlaceBlock t now b with Ok (t', n) => (t', Ok (n, None)) | Err e => (t, Err e) end
  | OpBlockReplacing b =>
      match BlockReplacing t now b with Ok (t', n, old) => (t', Ok (n, old)) | Err e => (t, Err e) end
  | OpUnblock s => let (t', n) := Unblock t s in (t', Ok (n, None))
  | OpRemoveExpired s u =>
      match RemoveExpired t now s u with Ok (t', n) => (t', Ok (n, None)) | Err e => (t, Err e) end
  end.

Definition spec_op (m : spec) (now : time) (op : blk_op) : spec * blk_out :=
  match op with
  | OpBlock b | OpBlockReplacing b =>
      match ValidateBlock b with
      | [] => let (m', n) := spec_place m now (in_utc b) in
              (m', Ok (n, match op with OpBlockReplacing _ => if n then m !! BSubject b else None | _ => None end))
      | es => (m, Err (Invalid es))
      end
  | OpUnblock s => (delete s m, Ok (bool_decide (is_Some (m !! s)), None))
  | OpRemoveExpired s u =>
      if IsZero u then (m, Err NoEndNeverExpires)
      else let (m', n) := spec_remove_expired m now s u in (m', Ok (n, None))
  end.

Definition run_ops {S} (step : S -> time -> blk_op -> S * blk_out) (st : S) (ops : list (time * blk_op)) :
    S * list blk_out :=
  foldl (fun acc x => let (st', o) := step acc.1 x.1 x.2 in (st', acc.2 ++ [o])) (st, []) ops.

(** What the adapter is handed: instants its layouts can write. *)
Definition op_ok (x : time * blk_op) : Prop :=
  clock_ok x.1 /\ match x.2 with
                  | OpBlock b | OpBlockReplacing b => storable b
                  | OpUnblock _ => True
                  | OpRemoveExpired _ u => four_digit_year u
                  end.

Lemma apply_op_refines t m now op :
  represents t m -> op_ok (now, op) ->
  (apply_op t now op).2 = (spec_op m now op).2 /\ represents (apply_op t now op).1 (spec_op m now op).1.
Proof.
  intros Hr [Hn Ho]. simpl in *. destruct op as [b|b|s|s u]; simpl in *.
  - unfold PlaceBlock. destruct (ValidateBlock b); [|done].
    destruct (upsert_refines t m now b Hr Hn Ho) as [Hb Ht].
    destruct (upsert t now b), (spec_place m now (in_utc b)). simpl in *. by subst.
  - unfold BlockReplacing. destruct (ValidateBlock b); [|done].
    destruct (upsert_refines t m now b Hr Hn Ho) as [Hb Ht].
    assert (Hold : match t !! BSubject b with
      | Some r => o <-? scan_block (BSubject b) r;; Ok (Some o) | None => Ok None end
      = (Ok (m !! BSubject b) : result store_error (option Block))).
    { destruct (m !! BSubject b) as [o|] eqn:Hm.
      - destruct (represents_scan t m _ o Hr Hm) as [-> Hs]. by rewrite Hs.
      - destruct Hr as [Hl _]. by rewrite Hl, Hm. }
    rewrite Hold. simpl. unfold upsert in *.
    destruct (spec_place m now (in_utc b)) as [m' n] eqn:Hp. simpl in *.
    destruct (t !! BSubject b) as [r|]; [destruct (replaceable now r)|]; simpl in *; by subst.
  - unfold Unblock. pose proof (represents_delete t m s Hr) as Hd. destruct Hr as [Hl Hw].
    rewrite Hl in *. destruct (m !! s) as [b|] eqn:Hm; simpl; [done|]. split; [done|].
    by rewrite delete_id.
  - destruct (IsZero u) eqn:Hz.
    + unfold RemoveExpired. by rewrite Hz.
    + destruct (RemoveExpired_refines t m now s u Hr Hn Ho Hz) as (t' & -> & Ht').
      by destruct (spec_remove_expired m now s u).
Qed.

Lemma run_ops_snoc {S} (step : S -> time -> blk_op -> S * blk_out) st ops x :
  run_ops step st (ops ++ [x])
  = ((step (run_ops step st ops).1 x.1 x.2).1, (run_ops step st ops).2 ++ [(step (run_ops step st ops).1 x.1 x.2).2]).
Proof. unfold run_ops. rewrite foldl_app. simpl. by destruct (step _ _ _). Qed.

Lemma run_ops_refines t m ops :
  represents t m -> Forall op_ok ops ->
  (run_ops apply_op t ops).2 = (run_ops spec_op m ops).2
  /\ represents (run_ops apply_op t ops).1 (run_ops spec_op m ops).1.
Proof.
  intros Hr. induction ops as [|[now op] ops IH] using rev_ind; [done|].
  intros [Ho Hx]%Forall_app. apply Forall_cons in Hx as [Hx _]. destruct (IH Ho) as [IH1 IH2].
  rewrite !run_ops_snoc. simpl. destruct (apply_op_refines _ _ now op IH2 Hx) as [H1 H2].
  by rewrite IH1, H1.
Qed.

Lemma spec_place_keeps m now b' s b :
  m !! s = Some b -> ActiveAt b now = true -> (spec_place m now b').1 !! s = Some b.
Proof.
  intros Hm Ha. unfold spec_place, spec_blocked. destruct (decide (BSubject b' = s)) as [->|Hne].
  - by rewrite Hm, Ha.
  - destruct (m !! BSubject b') as [o|]; [destruct (ActiveAt o now)|]; simpl; [done|..];
      by rewrite lookup_insert_ne.
Qed.

(** A stored block outlives every operation but its own [Unblock] while it is in force. *)
Lemma spec_op_keeps m now op s b :
  m !! s = Some b -> ActiveAt b now = true -> op <> OpUnblock s -> (spec_op m now op).1 !! s = Some b.
Proof.
  intros Hm Ha Hne. destruct op as [b'|b'|s'|s' u]; simpl.
  - destruct (ValidateBlock b'); [|done].
    pose proof (spec_place_keeps m now (in_utc b') s b Hm Ha). by destruct (spec_place m now (in_utc b')).
  - destruct (ValidateBlock b'); [|done].
    pose proof (spec_place_keeps m now (in_utc b') s b Hm Ha). by destruct (spec_place m now (in_utc b')).
  - rewrite lookup_delete_ne; [done|]. congruence.
  - destruct (IsZero u); [done|]. unfold spec_remove_expired. destruct (m !! s') as [o|] eqn:Ho; [|done].
    destruct (bool_decide _ && negb _) eqn:Hc; simpl; [|done].
    apply andb_true_iff in Hc as [_ Hc]. rewrite lookup_delete_ne; [done|].
    intros ->. rewrite Hm in Ho. injection Ho as <-. by rewrite Ha in Hc.
Qed.

(** C35 [blocklist_refinement]: any history of placements, replacements, unblocks and expiries from an
    empty table returns what the abstract map of blocks returns, operation by operation; after it the
    request path's point read of the stored texts is the abstract answer for every subject and
    clock, the listing is exactly the stored blocks and the expiry round sees exactly the blocks
    whose end has passed. *)
Theorem blocklist_refinement ops :
  Forall op_ok ops ->
  let t := (run_ops apply_op ∅ ops).1 in
  let m := (run_ops spec_op ∅ ops).1 in
  (run_ops apply_op ∅ ops).2 = (run_ops spec_op ∅ ops).2
  /\ (forall now s, Blocked (Some t) now s = Ok (spec_blocked m now s))
  /\ (exists bs, Blocks t = Ok bs /\ bs ≡ₚ map snd (map_to_list m))
  /\ (forall now, exists bs, Expired t now = Ok bs
        /\ (forall b, b ∈ bs <-> exists s, m !! s = Some b /\ ActiveAt b now = false) /\ Sorted until_le bs).
Proof.
  intros Ho t m. destruct (run_ops_refines ∅ ∅ ops represents_empty Ho) as [H1 H2].
  split; [exact H1|]. split; [intros; by apply Blocked_refines|].
  split; [by apply Blocks_refines|]. intros. by apply Expired_refines.
Qed.

(** Fact [kill_switch_holds]: once a block on a subject is stored, no operation but [Unblock] on that
    very subject lifts or rewrites it before its end: whatever else happens while it is in force, the
    same block is still listed and the request path still refuses the subject at every instant
    before its end. *)
Theorem kill_switch_holds ops1 ops2 bs b now :
  Forall op_ok (ops1 ++ ops2) ->
  Blocks (run_ops apply_op ∅ ops1).1 = Ok bs -> b ∈ bs ->
  Forall (fun x => ActiveAt b x.1 = true /\ x.2 <> OpUnblock (BSubject b)) ops2 ->
  ActiveAt b now = true ->
  Blocked (Some (run_ops apply_op ∅ (ops1 ++ ops2)).1) now (BSubject b) = Ok true
  /\ exists bs', Blocks (run_ops apply_op ∅ (ops1 ++ ops2)).1 = Ok bs' /\ b ∈ bs'.
Proof.
  intros Ho Hbs Hb H2 Ha. pose proof Ho as [Ho1 _]%Forall_app.
  destruct (run_ops_refines ∅ ∅ ops1 represents_empty Ho1) as [_ Hr1].
  destruct (run_ops_refines ∅ ∅ _ represents_empty Ho) as [_ Hr2].
  destruct (Blocks_refines _ _ Hr1) as (bs1 & Hbs1 & Hp1). rewrite Hbs in Hbs1. injection Hbs1 as <-.
  rewrite Hp1, list_elem_of_In, in_map_iff in Hb. destruct Hb as ([s b'] & Heq & Hin). simpl in Heq. subst b'.
  apply list_elem_of_In, elem_of_map_to_list in Hin.
  assert (Hs : BSubject b = s) by (destruct Hr1 as [_ Hw]; by apply (Hw s b)). rewrite Hs in *.
  assert (Hm : (run_ops spec_op ∅ (ops1 ++ ops2)).1 !! s = Some b).
  { clear Hr2 Ho. induction ops2 as [|[n op] ops2 IH] using rev_ind; [by rewrite app_nil_r|].
    apply Forall_app in H2 as [H2 Hx]. apply Forall_cons in Hx as [[Hx1 Hx2] _].
    rewrite app_assoc, run_ops_snoc. simpl. apply spec_op_keeps; [by apply IH|done|done]. }
  split.
  - erewrite Blocked_refines by done. unfold spec_blocked. by rewrite Hm, Ha.
  - destruct (Blocks_refines _ _ Hr2) as (bs2 & Hbs2 & Hp2). exists bs2. split; [done|].
    rewrite Hp2, list_elem_of_In, in_map_iff. exists (s, b). split; [done|].
    by apply list_elem_of_In, elem_of_map_to_list.
Qed.

(** Fact [blocklist_fails_closed]: the request path answers "not blocked" only for a subject with no
    row, or one whose row's end parses and is not after now: an unreadable end keeps the subject
    blocked, and a read that failed is an error and never an answer. *)
Theorem blocklist_fails_closed db now s :
  Blocked db now s = Ok false <->
  exists t, db = Some t /\
    (t !! s = None \/ exists r e, t !! s = Some r /\ parse_fixed (blocked_until r) = Some e /\ Before now e = false).
Proof.
  unfold Blocked. split.
  - destruct db as [t|]; [|done]. intros Hb. exists t. split; [done|].
    destruct (t !! s) as [r|] eqn:Hr; [right|by left]. case_bool_decide; [done|].
    destruct (parse_fixed (blocked_until r)) as [e|] eqn:Hp; [|done]. exists r, e.
    split_and!; [done..|congruence].
  - intros (t & -> & [->|(r & e & -> & Hp & Hbe)]); [done|].
    rewrite bool_decide_false by (intros He; by rewrite He in Hp). by rewrite Hp, Hbe.
Qed.
End histories.

(** ** The listing's order

    [blocked_at] is written with trailing zeros dropped, so its text order is not the order in time:
    the listing sorted by it puts a block placed at 12:00:05.1 before one placed at 12:00:05. *)
Definition demo_block (s : string) (at_ : time) (until : time) : Block :=
  {| BSubject := s; Reason := "lost laptop"; By := "op"; At := at_; Until := until |}.

Definition noon : time := Time (63893620805 * second) 0.

(** Fact [Blocks_not_oldest_first]: [Blocks] does not return the blocks oldest first, although its
    port promises that order: the second of these two is the older one. *)
Theorem Blocks_not_oldest_first :
  let t : table := <["a" := row_of (demo_block "a" noon zero_time)]>
           (<["b" := row_of (demo_block "b" (Add noon 100000000) zero_time)]> ∅) in
  Blocks t = Ok [demo_block "b" (Add noon 100000000) zero_time; demo_block "a" noon zero_time]
  /\ Before noon (Add noon 100000000) = true.
Proof. vm_compute. split; reflexivity. Qed.

(** ** Witnesses *)

Definition no_format : FormatTable := {| in_Cf := fun r => r =? 0x200B |}.

Definition demo_ops : list (time * blk_op) :=
  [ (noon, OpBlock (demo_block "u-ana" noon (Add noon (2 * hour))));
    (Add noon second, OpBlock (demo_block "u-ana" (Add noon second) zero_time));
    (Add noon hour, OpRemoveExpired "u-ana" (Add noon (2 * hour)));
    (Add noon (3 * hour), OpRemoveExpired "u-ana" (Add noon (2 * hour))) ].

Ltac decide_op_ok :=
  repeat constructor; unfold four_digit_year; try (vm_compute; congruence).

Lemma demo_ops_ok : Forall op_ok demo_ops.
Proof. decide_op_ok. Qed.

Lemma blocklist_refinement_witness :
  Forall op_ok demo_ops
  /\ (run_ops (apply_op (H := no_format)) ∅ demo_ops).2 = [Ok (true, None); Ok (false, None); Ok (false, None); Ok (true, None)]
  /\ (run_ops (apply_op (H := no_format)) ∅ demo_ops).2 = (run_ops (spec_op (H := no_format)) ∅ demo_ops).2.
Proof.
  split; [exact demo_ops_ok|]. split; [vm_compute; reflexivity|].
  apply (@blocklist_refinement no_format demo_ops demo_ops_ok).
Defined.

Lemma kill_switch_holds_witness :
  Blocked (Some (run_ops (apply_op (H := no_format)) ∅ (take 1 demo_ops ++ take 2 (drop 1 demo_ops))).1)
    (Add noon (90 * minute)) "u-ana" = Ok true.
Proof.
  refine (proj1 (@kill_switch_holds no_format (take 1 demo_ops) (take 2 (drop 1 demo_ops))
    [demo_block "u-ana" noon (Add noon (2 * hour))] (demo_block "u-ana" noon (Add noon (2 * hour)))
    (Add noon (90 * minute)) _ _ _ _ _)).
  - decide_op_ok.
  - vm_compute. reflexivity.
  - apply list_elem_of_here.
  - repeat constructor; discriminate.
  - reflexivity.
Defined.
