(* ===== verification/Quarantine.v ===== *)
(** * The tool quarantine's domain ([internal/quarantine/quarantine.go])

    The fingerprint of a tool's definition, the state machine of one tool ([NewTool], [Observed],
    [Approved], [ApprovedFingerprint], [Cleared], [Revoked]), its single gate [Usable], and the
    review set a bulk approval names by its manifest. *)
From Stdlib Require Import ZArith Lia Ascii.
From stdpp Require Import base strings list sorting.
From S2P Require Import Prelude.
From S2P Require Import GoStrings.
From S2P Require Import GoTime.
From S2P Require Import Encode.

(** ** Fingerprints *)

Definition hashDomainTag : string := "mcp-gateway/quarantine/tool-identity/v1".
Definition hashDomainTagOutput : string := "mcp-gateway/quarantine/tool-identity/v2-output".

Record ToolIdentity := { TName : string; Description : string; InputSchema : string; OutputSchema : string }.

#[global] Instance ToolIdentity_eq_dec : EqDecision ToolIdentity.
Proof. solve_decision. Defined.

(** The hash state is the bytes written so far. *)
Definition writeField (h b : string) : string := (h +:+ be64 (blen b)) +:+ b.

Section fingerprint.
Context `{HashFunction}.

Definition hash_input (t : ToolIdentity) : string :=
  let h := "" in
  let h := if bool_decide (OutputSchema t = "") then writeField h hashDomainTag
           else writeField h hashDomainTagOutput in
  let h := writeField h (TName t) in
  let h := writeField h (Description t) in
  let h := writeField h (InputSchema t) in
  if negb (bool_decide (OutputSchema t = "")) then writeField h (OutputSchema t) else h.

Definition Hash (t : ToolIdentity) : string := hex_sum256 (hash_input t).
End fingerprint.

(** ** States *)

(** Go's string types: a row edited by hand may hold any text. *)
Abbreviation Status := string (only parsing).
Definition StatusPending : Status := "pending".
Definition StatusApproved : Status := "approved".
Definition StatusChanged : Status := "changed".

Abbreviation Class := string (only parsing).
Definition ClassSafe : Class := "".
Definition ClassSensitive : Class := "sensitive".


Definition Status_Valid (s : Status) : bool :=
  bool_decide (s = StatusPending) || bool_decide (s = StatusApproved) || bool_decide (s = StatusChanged).

Definition Class_Valid (c : Class) : bool := bool_decide (c = ClassSafe) || bool_decide (c = ClassSensitive).

Record Tool := {
  ServerName : string; ToolName : string; TStatus : Status; ApprovedHash : string; ObservedHash : string;
  TClass : Class; SensitiveClearedHash : string; FirstSeenAt : time; TUpdatedAt : time
}.

Inductive q_error :=
| ErrNotFound | ErrInvalidStatus | ErrInvalidClass | ErrNotApproved | ErrNotSensitive
| ErrChangedIsNotRevocable | ErrFingerprintMoved | ErrDefinitionNotKept | ErrDefinitionMismatch
| ErrReviewSetMoved | ErrReviewSetEmpty | ErrUnreadableTime.

(** ** The gate *)

Definition ApprovedAsAdvertised (t : Tool) : bool :=
  bool_decide (TStatus t = StatusApproved) && negb (bool_decide (ApprovedHash t = ""))
  && bool_decide (ObservedHash t = ApprovedHash t).

Definition Usable (t : Tool) : bool :=
  if negb (ApprovedAsAdvertised t) then false
  else if negb (bool_decide (TClass t = ClassSafe)) then
    negb (bool_decide (SensitiveClearedHash t = "")) && bool_decide (SensitiveClearedHash t = ApprovedHash t)
  else true.

(** ** Transitions *)

Definition NewTool (serverName toolName observedHash : string) (class : Class) (now : time) : Tool :=
  {| ServerName := serverName; ToolName := toolName; TStatus := StatusPending; ApprovedHash := "";
     ObservedHash := observedHash; TClass := class; SensitiveClearedHash := "";
     FirstSeenAt := now; TUpdatedAt := now |}.

Definition Observed (t : Tool) (observedHash : string) (class : Class) (now : time) : result q_error Tool :=
  if negb (Status_Valid (TStatus t)) then Err ErrInvalidStatus
  else if negb (Class_Valid class) then Err ErrInvalidClass
  else Ok {| ServerName := ServerName t; ToolName := ToolName t;
     TStatus := if bool_decide (TStatus t = StatusApproved) && negb (bool_decide (observedHash = ApprovedHash t))
                then StatusChanged else TStatus t;
     ApprovedHash := ApprovedHash t; ObservedHash := observedHash; TClass := class;
     SensitiveClearedHash := SensitiveClearedHash t; FirstSeenAt := FirstSeenAt t; TUpdatedAt := now |}.

Inductive Event := EventNone | EventFirstSeen | EventChanged.

Definition EventOf (before after : Tool) : Event :=
  if bool_decide (TStatus before = StatusApproved) && bool_decide (TStatus after = StatusChanged)
  then EventChanged else EventNone.

Definition Approved (t : Tool) (now : time) : Tool :=
  {| ServerName := ServerName t; ToolName := ToolName t; TStatus := StatusApproved;
     ApprovedHash := ObservedHash t; ObservedHash := ObservedHash t; TClass := TClass t;
     SensitiveClearedHash := if negb (bool_decide (ObservedHash t = ApprovedHash t)) then "" else SensitiveClearedHash t;
     FirstSeenAt := FirstSeenAt t; TUpdatedAt := now |}.

Definition Cleared (t : Tool) (now : time) : result q_error Tool :=
  if negb (Class_Valid (TClass t)) then Err ErrInvalidClass
  else if bool_decide (TClass t = ClassSafe) then Err ErrNotSensitive
  else if negb (bool_decide (TStatus t = StatusApproved)) || bool_decide (ApprovedHash t = "") then Err ErrNotApproved
  else Ok {| ServerName := ServerName t; ToolName := ToolName t; TStatus := TStatus t;
     ApprovedHash := ApprovedHash t; ObservedHash := ObservedHash t; TClass := TClass t;
     SensitiveClearedHash := ApprovedHash t; FirstSeenAt := FirstSeenAt t; TUpdatedAt := now |}.

Definition ApprovedFingerprint (t : Tool) (reviewedHash : string) (now : time) : result q_error Tool :=
  if negb (bool_decide (ObservedHash t = reviewedHash)) then Err ErrFingerprintMoved
  else Ok (Approved t now).

Definition Revoked (t : Tool) (now : time) : result q_error Tool :=
  if negb (Status_Valid (TStatus t)) then Err ErrInvalidStatus
  else if bool_decide (TStatus t = StatusChanged) then Err ErrChangedIsNotRevocable
  else Ok {| ServerName := ServerName t; ToolName := ToolName t; TStatus := StatusPending;
     ApprovedHash := ""; ObservedHash := ObservedHash t; TClass := TClass t;
     SensitiveClearedHash := ""; FirstSeenAt := FirstSeenAt t; TUpdatedAt := now |}.

(** ** Review sets *)

Definition NeedsReview (t : Tool) : bool := negb (bool_decide (TStatus t = StatusApproved)).

Definition manifestDomainTag : string := "mcp-gateway/quarantine/review-set/v1".

Definition ReviewSet (tools : list Tool) : list Tool :=
  sort_by ToolName (filter (fun t => NeedsReview t = true) tools).

Record Approval := { Before_ : Tool; After_ : Tool }.

Section manifest.
Context `{HashFunction}.

Definition manifest_input (serverName : string) (set : list Tool) : string :=
  let sorted := sort_by ToolName set in
  let h := writeField "" manifestDomainTag in
  let h := writeField h serverName in
  let h := writeField h (be64 (Z.of_nat (length sorted))) in
  foldl (fun h t =>
    writeField (writeField (writeField (writeField h (ToolName t)) (TStatus t)) (ObservedHash t)) (ApprovedHash t))
    h sorted.

Definition Manifest (serverName : string) (set : list Tool) : string := hex_sum256 (manifest_input serverName set).

Fixpoint approve_each (set : list Tool) (now : time) : result q_error (list Approval) :=
  match set with
  | [] => Ok []
  | t :: rest =>
      after <-? ApprovedFingerprint t (ObservedHash t) now;;
      out <-? approve_each rest now;;
      Ok ({| Before_ := t; After_ := after |} :: out)
  end.

Definition ApprovedSet (serverName : string) (tools : list Tool) (manifest : string) (now : time) :
    result q_error (list Approval) :=
  if negb (forallb (fun t => Status_Valid (TStatus t)) tools) then Err ErrInvalidStatus
  else
    let mine := filter (fun t => ServerName t = serverName) tools in
    let set := ReviewSet mine in
    if (length set =? 0)%nat then Err ErrReviewSetEmpty
    else if negb (bool_decide (Manifest serverName set = manifest)) then Err ErrReviewSetMoved
    else approve_each set now.
End manifest.

(** ** Facts about the encodings *)

Lemma writeField_eq h b : writeField h b = h +:+ field b.
Proof. unfold writeField, field. by rewrite string_app_assoc. Qed.

Section hash_facts.
Context `{HashFunction}.

Definition identity_fields (t : ToolIdentity) : list string :=
  (if bool_decide (OutputSchema t = "") then [hashDomainTag] else [hashDomainTagOutput])
  ++ [TName t; Description t; InputSchema t]
  ++ (if bool_decide (OutputSchema t = "") then [] else [OutputSchema t]).

Lemma hash_input_fields t : hash_input t = fields (identity_fields t).
Proof.
  unfold hash_input, identity_fields. cbv zeta.
  case_bool_decide; cbn [negb app fields foldr]; rewrite !writeField_eq;
    by rewrite ?string_app_nil_l, ?string_app_nil_r, <- ?string_app_assoc.
Qed.

Definition holdable_identity (t : ToolIdentity) : Prop :=
  Forall go_string [TName t; Description t; InputSchema t; OutputSchema t].

Lemma hash_input_inj a b :
  holdable_identity a -> holdable_identity b -> hash_input a = hash_input b -> a = b.
Proof.
  unfold holdable_identity. rewrite !Forall_cons. intros (A1 & A2 & A3 & A4 & _) (B1 & B2 & B3 & B4 & _) He.
  rewrite !hash_input_fields in He. unfold identity_fields in He.
  assert (Htag : field hashDomainTag <> field hashDomainTagOutput) by (vm_compute; congruence).
  assert (G1 : go_string hashDomainTag) by by vm_compute.
  assert (G2 : go_string hashDomainTagOutput) by by vm_compute.
  destruct a as [na da ia oa], b as [nb db ib ob]. simpl in *.
  case_bool_decide; case_bool_decide; simpl in He; subst.
  - apply (fields_inj [_; _; _; _] [_; _; _; _]) in He; [by simplify_eq|by repeat constructor..|done].
  - apply field_app_inj in He as [He _]; [by vm_compute in He|done..].
  - apply field_app_inj in He as [He _]; [by vm_compute in He|done..].
  - apply (fields_inj [_; _; _; _; _] [_; _; _; _; _]) in He; [by simplify_eq|by repeat constructor..|done].
Qed.

Lemma Hash_inj a b :
  holdable_identity a -> holdable_identity b -> Hash a = Hash b -> a = b \/ collision (hash_input a) (hash_input b).
Proof.
  intros Ha Hb [He|Hc]%hex_sum256_inj; [left; by apply hash_input_inj|by right].
Qed.

(** *** Manifests *)

(** What the manifest says of one entry. *)
Definition shown (t : Tool) : list string := [ToolName t; TStatus t; ObservedHash t; ApprovedHash t].

Lemma manifest_foldl l h :
  foldl (fun h t =>
    writeField (writeField (writeField (writeField h (ToolName t)) (TStatus t)) (ObservedHash t)) (ApprovedHash t))
    h l = h +:+ fields (flat_map shown l).
Proof.
  revert h. induction l as [|t l IH]; intros h; simpl; [by rewrite string_app_nil_r|].
  rewrite IH, !writeField_eq. by rewrite <- !string_app_assoc.
Qed.

Lemma manifest_input_fields srv set :
  manifest_input srv set
  = fields [manifestDomainTag; srv; be64 (Z.of_nat (length set))] +:+ fields (flat_map shown (sort_by ToolName set)).
Proof.
  unfold manifest_input. cbv zeta. rewrite manifest_foldl, !writeField_eq.
  rewrite (Permutation_length (sort_by_Permutation ToolName set)). simpl.
  by rewrite string_app_nil_l, string_app_nil_r, <- !string_app_assoc.
Qed.

Definition holdable_set (set : list Tool) : Prop :=
  Forall (fun t => Forall go_string (shown t)) set /\ Z.of_nat (length set) <= max_int.

Lemma flat_map_shown_inj l1 l2 :
  length l1 = length l2 -> flat_map shown l1 = flat_map shown l2 -> map shown l1 = map shown l2.
Proof.
  revert l2. induction l1 as [|t l1 IH]; intros [|u l2]; try done. simpl.
  intros Hl He. injection He as H1 H2 H3 H4 He. unfold shown at 1 3. rewrite (IH l2); [congruence|lia|done].
Qed.

Lemma flat_map_shown_length l : length (flat_map shown l) = (4 * length l)%nat.
Proof. induction l as [|t l IH]; [done|]. simpl. lia. Qed.

(** A manifest names one review set: the same server and, in name order, the same entries with the
    same status, observed fingerprint and baseline. *)
Lemma Manifest_inj srv1 srv2 s1 s2 :
  go_string srv1 -> go_string srv2 -> holdable_set s1 -> holdable_set s2 ->
  Manifest srv1 s1 = Manifest srv2 s2 ->
  (srv1 = srv2 /\ map shown (sort_by ToolName s1) = map shown (sort_by ToolName s2))
  \/ collision (manifest_input srv1 s1) (manifest_input srv2 s2).
Proof.
  intros G1 G2 [F1 N1] [F2 N2] [He|Hc]%hex_sum256_inj; [left|by right]. rewrite !manifest_input_fields in He.
  assert (Gt : go_string manifestDomainTag) by by vm_compute.
  assert (Gb : forall z, go_string (be64 z)).
  { intros z. unfold go_string, blen. rewrite be64_length. by vm_compute. }
  apply fields_app_inj in He as [Hh Hf]; [|by repeat constructor..|done].
  pose proof (f_equal (fun l => List.nth 1 l "") Hh) as Hs. pose proof (f_equal (fun l => List.nth 2 l "") Hh) as Hn.
  cbn [List.nth] in Hs, Hn. subst srv2. apply be64_inj in Hn; [|unfold max_int in *; lia..]. split; [done|].
  assert (Hl : length (sort_by ToolName s1) = length (sort_by ToolName s2)).
  { rewrite !(Permutation_length (sort_by_Permutation ToolName _)). lia. }
  assert (Hgo : forall s, Forall (fun t => Forall go_string (shown t)) s -> Forall go_string (flat_map shown (sort_by ToolName s))).
  { intros s Hs. apply Forall_flat_map. by rewrite sort_by_Permutation. }
  apply flat_map_shown_inj; [done|]. apply fields_inj; [by apply Hgo..| |done].
  by rewrite !flat_map_shown_length, Hl.
Qed.
End hash_facts.

(** ** Facts about the state machine *)

Lemma ApprovedAsAdvertised_spec t :
  ApprovedAsAdvertised t = true <->
  TStatus t = StatusApproved /\ ApprovedHash t <> "" /\ ObservedHash t = ApprovedHash t.
Proof.
  unfold ApprovedAsAdvertised. rewrite !andb_true_iff, negb_true_iff, bool_decide_eq_false, !bool_decide_eq_true. tauto.
Qed.

Lemma Usable_spec t :
  Usable t = true <->
  (TStatus t = StatusApproved /\ ApprovedHash t <> "" /\ ObservedHash t = ApprovedHash t)
  /\ (TClass t <> ClassSafe -> SensitiveClearedHash t = ApprovedHash t).
Proof.
  rewrite <- ApprovedAsAdvertised_spec. unfold Usable.
  destruct (ApprovedAsAdvertised t) eqn:Ha; simpl; [|naive_solver].
  apply ApprovedAsAdvertised_spec in Ha as (_ & Hn & _). case_bool_decide as Hc; simpl; [naive_solver|].
  rewrite andb_true_iff, negb_true_iff, bool_decide_eq_false, bool_decide_eq_true. naive_solver congruence.
Qed.

(** The invariant of one tool's state. *)
Definition tool_ok (t : Tool) : Prop :=
  Status_Valid (TStatus t) = true /\ Class_Valid (TClass t) = true
  /\ (TStatus t = StatusPending -> ApprovedHash t = "")
  /\ (TStatus t <> StatusPending -> ApprovedHash t <> "")
  /\ (TStatus t = StatusApproved -> ObservedHash t = ApprovedHash t)
  /\ (SensitiveClearedHash t = "" \/ SensitiveClearedHash t = ApprovedHash t)
  /\ ObservedHash t <> "".

Lemma Status_Valid_cases s :
  Status_Valid s = true <-> s = StatusPending \/ s = StatusApproved \/ s = StatusChanged.
Proof. unfold Status_Valid. rewrite !orb_true_iff, !bool_decide_eq_true. tauto. Qed.

Lemma NewTool_ok srv n h c now : h <> "" -> Class_Valid c = true -> tool_ok (NewTool srv n h c now).
Proof. intros Hh Hc. unfold tool_ok. simpl. split_and!; try done; by left. Qed.

Lemma Observed_ok t h c now t' : tool_ok t -> h <> "" -> Observed t h c now = Ok t' -> tool_ok t'.
Proof.
  intros (Hs & Hc & H1 & H2 & H3 & H4 & H5) Hh. unfold Observed. rewrite Hs. simpl.
  destruct (Class_Valid c) eqn:Hcv; simpl; [|done]. intros [= <-]. unfold tool_ok. simpl.
  case_bool_decide as Ha; simpl; [case_bool_decide as He; simpl|]; rewrite ?Ha in *; split_and!; try done;
    intros; try (apply H2; done); auto.
Qed.

Lemma Approved_ok t now : tool_ok t -> tool_ok (Approved t now).
Proof.
  intros (Hs & Hc & H1 & H2 & H3 & H4 & H5). unfold tool_ok. simpl. split_and!; try done.
  case_bool_decide as He; simpl; [|by left]. rewrite He. tauto.
Qed.

Lemma Cleared_ok t now t' : tool_ok t -> Cleared t now = Ok t' -> tool_ok t'.
Proof.
  intros (Hs & Hc & H1 & H2 & H3 & H4 & H5). unfold Cleared. repeat case_match; try done. intros [= <-].
  unfold tool_ok. simpl. split_and!; auto.
Qed.

Lemma Revoked_ok t now t' : tool_ok t -> Revoked t now = Ok t' -> tool_ok t'.
Proof.
  intros (Hs & Hc & H1 & H2 & H3 & H4 & H5). unfold Revoked. repeat case_match; try done. intros [= <-].
  unfold tool_ok. simpl. split_and!; try done. by left.
Qed.

Lemma approve_each_Ok set now :
  approve_each set now = Ok (map (fun t => {| Before_ := t; After_ := Approved t now |}) set).
Proof.
  induction set as [|t set IH]; simpl; [done|]. unfold ApprovedFingerprint.
  rewrite bool_decide_true by done. simpl. by rewrite IH.
Qed.

Lemma elem_of_ReviewSet t tools : t ∈ ReviewSet tools <-> t ∈ tools /\ TStatus t <> StatusApproved.
Proof.
  unfold ReviewSet. rewrite elem_of_sort_by, list_elem_of_filter. unfold NeedsReview.
  rewrite negb_true_iff, bool_decide_eq_false. tauto.
Qed.
