(* ===== verification/QuarantineStore.v ===== *)
(** * The quarantine's SQLite adapter ([internal/quarantine/sqlite])

    Two tables: [quarantined_tools], keyed by server and tool, whose status, class and time columns
    are texts read back by [scanTool]; and [tool_definitions], keyed by fingerprint.  Every method is
    one transaction: it returns the store after it, or an error and no change.  The theorems are over
    every history of operations from an empty store. *)
From Stdlib Require Import ZArith Lia Ascii.
From stdpp Require Import base strings list gmap sorting.
From S2P Require Import Prelude.
From S2P Require Import GoStrings.
From S2P Require Import GoTime.
From S2P Require Import Encode.
From S2P Require Import Quarantine.

Record tool_row := {
  status : string; approved_hash : string; observed_hash : string; class : string;
  sensitive_cleared_hash : string; first_seen_at : string; updated_at : string
}.

Record def_row := { def : ToolIdentity; def_first_seen_at : string }.

Record qstore := {
  quarantined_tools : gmap (string * string) tool_row;
  tool_definitions : gmap string def_row
}.

Definition empty_qstore : qstore := {| quarantined_tools := ∅; tool_definitions := ∅ |}.

(** ** Rows *)

Definition scanTool (k : string * string) (r : tool_row) : result q_error Tool :=
  if negb (Status_Valid (status r)) then Err ErrInvalidStatus
  else if negb (Class_Valid (class r)) then Err ErrInvalidClass
  else match parse_time (first_seen_at r), parse_time (updated_at r) with
       | Some f, Some u =>
           Ok {| ServerName := k.1; ToolName := k.2; TStatus := status r; ApprovedHash := approved_hash r;
                 ObservedHash := observed_hash r; TClass := class r;
                 SensitiveClearedHash := sensitive_cleared_hash r; FirstSeenAt := f; TUpdatedAt := u |}
       | _, _ => Err ErrUnreadableTime
       end.

Definition get (s : qstore) (k : string * string) : result q_error Tool :=
  match quarantined_tools s !! k with
  | Some r => scanTool k r
  | None => Err ErrNotFound
  end.

Definition tool_key (t : Tool) : string * string := (ServerName t, ToolName t).

Definition insert_tool (s : qstore) (t : Tool) : qstore :=
  {| quarantined_tools :=
       <[tool_key t := {| status := TStatus t; approved_hash := ApprovedHash t; observed_hash := ObservedHash t;
                          class := TClass t; sensitive_cleared_hash := SensitiveClearedHash t;
                          first_seen_at := format_time (FirstSeenAt t);
                          updated_at := format_time (TUpdatedAt t) |}]> (quarantined_tools s);
     tool_definitions := tool_definitions s |}.

(** The [UPDATE]: every column but the key and [first_seen_at]. *)
Definition update (s : qstore) (t : Tool) : result q_error qstore :=
  match quarantined_tools s !! tool_key t with
  | None => Err ErrNotFound
  | Some r =>
      Ok {| quarantined_tools :=
              <[tool_key t := {| status := TStatus t; approved_hash := ApprovedHash t;
                                 observed_hash := ObservedHash t; class := TClass t;
                                 sensitive_cleared_hash := SensitiveClearedHash t;
                                 first_seen_at := first_seen_at r;
                                 updated_at := format_time (TUpdatedAt t) |}]> (quarantined_tools s);
            tool_definitions := tool_definitions s |}
  end.

(** ** Definitions *)

(** [INSERT OR IGNORE]. *)
Definition keepDefinition (s : qstore) (hash : string) (t : ToolIdentity) (now : time) : qstore :=
  {| quarantined_tools := quarantined_tools s;
     tool_definitions :=
       match tool_definitions s !! hash with
       | Some _ => tool_definitions s
       | None => <[hash := {| def := t; def_first_seen_at := format_time now |}]> (tool_definitions s)
       end |}.

Definition referenced (s : qstore) (h : string) : bool :=
  existsb (fun e => bool_decide (approved_hash e.2 = h) || bool_decide (observed_hash e.2 = h))
    (map_to_list (quarantined_tools s)).

Definition prune_one (s : qstore) (h : string) : qstore :=
  if bool_decide (h = "") then s
  else if referenced s h then s
  else {| quarantined_tools := quarantined_tools s; tool_definitions := delete h (tool_definitions s) |}.

Definition pruneDefinitions (s : qstore) (candidates : list string) : qstore := foldl prune_one s candidates.

Definition pruneOrphans (s : qstore) : qstore :=
  {| quarantined_tools := quarantined_tools s;
     tool_definitions := filter (fun e => referenced s e.1 = true) (tool_definitions s) |}.

(** [ORDER BY server_name, tool_name] of one server's rows, or of all when the name is empty. *)
Definition row_key_le (a b : (string * string) * tool_row) : Prop :=
  a.1.1 = b.1.1 /\ str_le a.1.2 b.1.2 \/ a.1.1 <> b.1.1 /\ str_le a.1.1 b.1.1.

#[global] Instance row_key_le_dec a b : Decision (row_key_le a b).
Proof. unfold row_key_le. apply _. Defined.

Definition list_rows (s : qstore) (serverName : string) : list ((string * string) * tool_row) :=
  merge_sort row_key_le
    (filter (fun e => serverName = "" \/ e.1.1 = serverName) (map_to_list (quarantined_tools s))).

Fixpoint scan_tools (rows : list ((string * string) * tool_row)) : result q_error (list Tool) :=
  match rows with
  | [] => Ok []
  | (k, r) :: rest => t <-? scanTool k r;; ts <-? scan_tools rest;; Ok (t :: ts)
  end.

Definition list_tools (s : qstore) (serverName : string) : result q_error (list Tool) :=
  scan_tools (list_rows s serverName).

(** ** The methods *)

Section methods.
Context `{HashFunction}.

Definition Observe (s : qstore) (now : time) (serverName : string) (t : ToolIdentity) (cls : Class) :
    result q_error (qstore * Tool * Event) :=
  let observedHash := Hash t in
  if negb (Class_Valid cls) then Err ErrInvalidClass
  else
    let s1 := keepDefinition s observedHash t now in
    match get s1 (serverName, TName t) with
    | Ok prev =>
        next <-? Observed prev observedHash cls now;;
        s2 <-? update s1 next;;
        Ok (pruneDefinitions s2 [ObservedHash prev; ApprovedHash prev], next, EventOf prev next)
    | Err ErrNotFound =>
        let next := NewTool serverName (TName t) observedHash cls now in
        Ok (insert_tool s1 next, next, EventFirstSeen)
    | Err e => Err e
    end.

Definition Definition_ (s : qstore) (hash : string) : result q_error ToolIdentity :=
  match tool_definitions s !! hash with
  | None => Err ErrDefinitionNotKept
  | Some d => if bool_decide (Hash (def d) = hash) then Ok (def d) else Err ErrDefinitionMismatch
  end.

(** The shared read-transition-write of [Approve] and [ApproveFingerprint]. *)
Definition approve (s : qstore) (now : time) (k : string * string)
    (transition : Tool -> time -> result q_error Tool) : result q_error (qstore * Tool) :=
  prev <-? get s k;;
  next <-? transition prev now;;
  s1 <-? update s next;;
  Ok (pruneDefinitions s1 [ApprovedHash prev; ObservedHash prev], next).

Definition Approve (s : qstore) (now : time) (k : string * string) : result q_error (qstore * Tool) :=
  approve s now k (fun prev now => Ok (Approved prev now)).

Definition ApproveFingerprint (s : qstore) (now : time) (k : string * string) (reviewedHash : string) :
    result q_error (qstore * Tool) :=
  approve s now k (fun prev now => ApprovedFingerprint prev reviewedHash now).

Fixpoint write_approvals (s : qstore) (approvals : list Approval) : result q_error qstore :=
  match approvals with
  | [] => Ok s
  | a :: rest =>
      s1 <-? update s (After_ a);;
      write_approvals (pruneDefinitions s1 [ApprovedHash (Before_ a); ObservedHash (Before_ a)]) rest
  end.

Definition ApproveReviewSet (s : qstore) (now : time) (serverName manifest : string) :
    result q_error (qstore * list Approval) :=
  tools <-? list_tools s serverName;;
  approvals <-? ApprovedSet serverName tools manifest now;;
  s1 <-? write_approvals s approvals;;
  Ok (s1, approvals).

Definition Clear (s : qstore) (now : time) (k : string * string) : result q_error (qstore * Tool) :=
  prev <-? get s k;;
  next <-? Cleared prev now;;
  s1 <-? update s next;;
  Ok (s1, next).

Definition Revoke (s : qstore) (now : time) (k : string * string) : result q_error (qstore * Tool) :=
  prev <-? get s k;;
  next <-? Revoked prev now;;
  s1 <-? update s next;;
  Ok (pruneDefinitions s1 [ApprovedHash prev; ObservedHash prev], next).

Definition Forget (s : qstore) (serverName : string) : qstore * Z :=
  let s1 := {| quarantined_tools := filter (fun e => e.1.1 <> serverName) (quarantined_tools s);
               tool_definitions := tool_definitions s |} in
  (pruneOrphans s1,
   Z.of_nat (size (filter (fun e => e.1.1 = serverName) (quarantined_tools s)))).
End methods.

(** ** The abstract quarantine: a map of tools, and its labelled steps *)

Abbreviation qkey := (string * string)%type.
Abbreviation qspec := (gmap (string * string) Tool).

(** What the store's history is made of. *)
Inductive q_event :=
| EvObserved (k : qkey) (h : string) (c : Class)
| EvApproved (k : qkey) (h : string)
| EvCleared (k : qkey) (h : string)
| EvRevoked (k : qkey)
| EvForgot (serverName : string).

Inductive qstep : qspec -> q_event -> qspec -> Prop :=
| step_first_seen m k h c now :
    m !! k = None -> h <> "" -> Class_Valid c = true ->
    qstep m (EvObserved k h c) (<[k := NewTool k.1 k.2 h c now]> m)
| step_observed m k t h c now t' :
    m !! k = Some t -> h <> "" -> Observed t h c now = Ok t' -> qstep m (EvObserved k h c) (<[k := t']> m)
| step_approved m k t now :
    m !! k = Some t -> qstep m (EvApproved k (ObservedHash t)) (<[k := Approved t now]> m)
| step_cleared m k t now t' :
    m !! k = Some t -> Cleared t now = Ok t' -> qstep m (EvCleared k (ApprovedHash t)) (<[k := t']> m)
| step_revoked m k t now t' :
    m !! k = Some t -> Revoked t now = Ok t' -> qstep m (EvRevoked k) (<[k := t']> m)
| step_forgot m srv : qstep m (EvForgot srv) (filter (fun e => e.1.1 <> srv) m).

Inductive qsteps : qspec -> list q_event -> qspec -> Prop :=
| qsteps_nil m : qsteps m [] m
| qsteps_snoc m es m' e m'' : qsteps m es m' -> qstep m' e m'' -> qsteps m (es ++ [e]) m''.

Lemma qsteps_one m e m' : qstep m e m' -> qsteps m [e] m'.
Proof. intros Hs. apply (qsteps_snoc m [] m e m'); [constructor|done]. Qed.

Lemma qsteps_app m es m' es' m'' : qsteps m es m' -> qsteps m' es' m'' -> qsteps m (es ++ es') m''.
Proof.
  intros H1 H2. induction H2; [by rewrite app_nil_r|]. rewrite app_assoc. econstructor; eauto.
Qed.

(** ** What a store represents *)

Lemma referenced_spec s h :
  referenced s h = true <->
  exists k r, quarantined_tools s !! k = Some r /\ (approved_hash r = h \/ observed_hash r = h).
Proof.
  unfold referenced. rewrite existsb_elem. split.
  - intros ([k r] & Hin%elem_of_map_to_list & Hb). simpl in Hb.
    rewrite orb_true_iff, !bool_decide_eq_true in Hb. eauto.
  - intros (k & r & Hl & Hb). exists (k, r). split; [by apply elem_of_map_to_list|]. simpl.
    by rewrite orb_true_iff, !bool_decide_eq_true.
Qed.

(** A row the adapter wrote, and the tool it holds. *)
Definition row_holds (k : qkey) (r : tool_row) (t : Tool) : Prop :=
  scanTool k r = Ok t /\ tool_ok t.

Section represents.
Context `{HashFunction}.

(** The definitions kept are exactly the referenced ones, each under its own fingerprint. *)
Definition defs_ok (s : qstore) : Prop :=
  (forall h, is_Some (tool_definitions s !! h) <-> h <> "" /\ referenced s h = true)
  /\ (forall h d, tool_definitions s !! h = Some d -> Hash (def d) = h).

Definition rows_hold (s : qstore) (m : qspec) : Prop :=
  forall k, match quarantined_tools s !! k, m !! k with
            | Some r, Some t => row_holds k r t
            | None, None => True
            | _, _ => False
            end.

Definition represents (s : qstore) (m : qspec) : Prop := rows_hold s m /\ defs_ok s.

Lemma represents_get s m k :
  represents s m -> get s k = match m !! k with Some t => Ok t | None => Err ErrNotFound end.
Proof.
  intros [Ht _]. specialize (Ht k). unfold get.
  destruct (quarantined_tools s !! k), (m !! k); try done. by destruct Ht.
Qed.

Lemma represents_Some s m k t : represents s m -> m !! k = Some t ->
  exists r, quarantined_tools s !! k = Some r /\ row_holds k r t.
Proof.
  intros [Ht _] Hm. specialize (Ht k). rewrite Hm in Ht.
  destruct (quarantined_tools s !! k) as [r|]; [eauto|done].
Qed.

Lemma scanTool_fields k r t :
  scanTool k r = Ok t ->
  tool_key t = k /\ approved_hash r = ApprovedHash t /\ observed_hash r = ObservedHash t
  /\ parse_time (first_seen_at r) = Some (FirstSeenAt t).
Proof. unfold scanTool. repeat case_match; try done. intros [= <-]. by destruct k. Qed.

Lemma represents_key s m k t : represents s m -> m !! k = Some t -> tool_key t = k /\ tool_ok t.
Proof.
  intros Hr Hm. destruct (represents_Some s m k t Hr Hm) as (r & _ & [Hs Ho]).
  by apply scanTool_fields in Hs as [? _].
Qed.

Lemma empty_represents : represents empty_qstore ∅.
Proof.
  split; [intros k; by rewrite !lookup_empty|]. split.
  - intros h. simpl. rewrite lookup_empty. split; [by intros [? ?]|].
    intros [_ (k & r & Hl & _)%referenced_spec]. simpl in Hl. by rewrite lookup_empty in Hl.
  - intros h d. simpl. by rewrite lookup_empty.
Qed.

(** *** Pruning *)

Lemma prune_one_tools s h : quarantined_tools (prune_one s h) = quarantined_tools s.
Proof. unfold prune_one. by repeat case_match. Qed.

Lemma referenced_tools s1 s2 h : quarantined_tools s1 = quarantined_tools s2 -> referenced s1 h = referenced s2 h.
Proof. unfold referenced. by intros ->. Qed.

Lemma prune_one_lookup s c h :
  tool_definitions (prune_one s c) !! h
  = if decide (h = c /\ c <> "" /\ referenced s c = false) then None else tool_definitions s !! h.
Proof.
  unfold prune_one. case_bool_decide as Hc; [case_decide; [naive_solver|done]|].
  destruct (referenced s c) eqn:Hr; [case_decide; [naive_solver|done]|]. simpl.
  rewrite lookup_delete. repeat case_decide; naive_solver.
Qed.

Lemma pruneDefinitions_tools s cs : quarantined_tools (pruneDefinitions s cs) = quarantined_tools s.
Proof.
  unfold pruneDefinitions. revert s. induction cs as [|c cs IH]; intros s; simpl; [done|].
  by rewrite IH, prune_one_tools.
Qed.

Lemma pruneDefinitions_lookup s cs h :
  tool_definitions (pruneDefinitions s cs) !! h
  = if decide (h ∈ cs /\ h <> "" /\ referenced s h = false) then None else tool_definitions s !! h.
Proof.
  unfold pruneDefinitions. revert s. induction cs as [|c cs IH]; intros s; cbn [foldl].
  { case_decide as Hd; [|done]. destruct Hd as [Hd _]. by apply elem_of_nil in Hd. }
  rewrite IH, prune_one_lookup, (referenced_tools (prune_one s c) s) by apply prune_one_tools.
  repeat case_decide; rewrite ?elem_of_cons in *; try done; naive_solver.
Qed.

(** A write that may only have dropped references to [cs] is made whole by pruning them. *)
Lemma prune_defs_ok s cs :
  (forall h, is_Some (tool_definitions s !! h) -> h <> "" /\ (referenced s h = true \/ h ∈ cs)) ->
  (forall h, h <> "" -> referenced s h = true -> is_Some (tool_definitions s !! h)) ->
  (forall h d, tool_definitions s !! h = Some d -> Hash (def d) = h) ->
  defs_ok (pruneDefinitions s cs).
Proof.
  intros H1 H2 H3. split.
  - intros h. rewrite pruneDefinitions_lookup, (referenced_tools (pruneDefinitions s cs) s) by apply pruneDefinitions_tools.
    case_decide as Hd.
    + split; [by intros [? ?]|]. intros [_ Hr]. destruct Hd as (_ & _ & Hd). congruence.
    + split; [|intros []; auto]. intros Hs. destruct (H1 h Hs) as [Hn [Hr|Hin]]; [done|].
      split; [done|]. destruct (referenced s h); [done|]. by destruct Hd.
  - intros h d. rewrite pruneDefinitions_lookup. case_decide; [done|apply H3].
Qed.

(** *** One row written *)

(** The row an update or an insert leaves for [t]. *)
Definition written (s s1 : qstore) (t : Tool) : Prop :=
  exists r, quarantined_tools s1 = <[tool_key t := r]> (quarantined_tools s)
    /\ tool_definitions s1 = tool_definitions s /\ row_holds (tool_key t) r t.

Lemma written_rows s s1 m t : rows_hold s m -> written s s1 t -> rows_hold s1 (<[tool_key t := t]> m).
Proof.
  intros Hs (r & Ht & _ & Hr) k. rewrite Ht. destruct (decide (k = tool_key t)) as [->|Hk].
  - by rewrite !lookup_insert_eq.
  - rewrite !lookup_insert_ne by done. apply Hs.
Qed.

Lemma written_holds t f u a :
  tool_ok t -> parse_time f = Some (FirstSeenAt t) -> formattable a -> u = format_time a -> TUpdatedAt t = a ->
  row_holds (tool_key t) {| status := TStatus t; approved_hash := ApprovedHash t; observed_hash := ObservedHash t;
     class := TClass t; sensitive_cleared_hash := SensitiveClearedHash t; first_seen_at := f; updated_at := u |} t.
Proof.
  intros Ho Hf Ha -> Hu. split; [|done]. destruct Ho as (Hs & Hc & _). unfold scanTool. simpl. rewrite Hs, Hc. simpl.
  rewrite Hf, parse_format_time by done. subst a. by destruct t.
Qed.

Lemma update_written s m t0 t a :
  represents s m -> m !! tool_key t = Some t0 -> FirstSeenAt t = FirstSeenAt t0 -> tool_ok t ->
  TUpdatedAt t = a -> formattable a ->
  exists s1, update s t = Ok s1 /\ written s s1 t.
Proof.
  intros Hr Hm Hf Ho Hu Ha. destruct (represents_Some s m _ _ Hr Hm) as (r & Hl & [Hs _]).
  apply scanTool_fields in Hs as (_ & _ & _ & Hp). unfold update. rewrite Hl. eexists. split; [done|].
  eexists. split_and!; [done|done|]. eapply written_holds; [done| |done| |done]; [by rewrite Hf|by rewrite Hu].
Qed.

(** References after a write: those of the other rows and the written one's. *)
Lemma referenced_written s s1 t h :
  written s s1 t ->
  referenced s1 h = true <->
  (ApprovedHash t = h \/ ObservedHash t = h)
  \/ exists k r, k <> tool_key t /\ quarantined_tools s !! k = Some r /\ (approved_hash r = h \/ observed_hash r = h).
Proof.
  intros (r & Ht & _ & [Hr _]). apply scanTool_fields in Hr as (_ & <- & <- & _).
  rewrite referenced_spec, Ht. split.
  - intros (k & r' & [[<- <-]|[? ?]]%lookup_insert_Some & Hh); [by left|right; eauto].
  - intros [Hh|(k & r' & Hk & Hl & Hh)].
    + exists (tool_key t), r. by rewrite lookup_insert_eq.
    + exists k, r'. by rewrite lookup_insert_ne.
Qed.

(** The reference of a key's row, given the tool it holds. *)
Lemma referenced_before s m k0 t0 h :
  represents s m -> m !! k0 = Some t0 ->
  referenced s h = true <->
  (ApprovedHash t0 = h \/ ObservedHash t0 = h)
  \/ exists k r, k <> k0 /\ quarantined_tools s !! k = Some r /\ (approved_hash r = h \/ observed_hash r = h).
Proof.
  intros Hr Hm. destruct (represents_Some s m k0 t0 Hr Hm) as (r0 & Hl0 & [Hs _]).
  apply scanTool_fields in Hs as (_ & <- & <- & _). rewrite referenced_spec. split.
  - intros (k & r & Hl & Hh). destruct (decide (k = k0)) as [->|]; [left; congruence|right; eauto].
  - intros [Hh|(k & r & _ & Hl & Hh)]; eauto.
Qed.

(** A transition of a known tool whose new fingerprints are among the old ones or already kept. *)
Lemma write_prune_represents s0 s s1 m t0 t cs :
  represents s0 m -> m !! tool_key t = Some t0 ->
  quarantined_tools s = quarantined_tools s0 ->
  (forall h, is_Some (tool_definitions s !! h) -> h <> "" /\ (referenced s0 h = true \/ h = ObservedHash t)) ->
  (forall h, h <> "" -> referenced s0 h = true \/ h = ObservedHash t -> is_Some (tool_definitions s !! h)) ->
  (forall h d, tool_definitions s !! h = Some d -> Hash (def d) = h) ->
  written s s1 t ->
  ApprovedHash t = "" \/ ApprovedHash t = ObservedHash t \/ ApprovedHash t = ApprovedHash t0 ->
  ApprovedHash t0 ∈ cs -> ObservedHash t0 ∈ cs ->
  represents (pruneDefinitions s1 cs) (<[tool_key t := t]> m).
Proof.
  intros Hr Hm Hq D1 D2 D3 Hw Ha C1 C2. split.
  - intros k. rewrite pruneDefinitions_tools. apply (written_rows s); [|done].
    intros k'. rewrite Hq. apply Hr.
  - assert (Hd : tool_definitions s1 = tool_definitions s) by (by destruct Hw as (? & _ & ? & _)).
    apply prune_defs_ok; rewrite Hd; [| |done].
    + intros h Hs. destruct (D1 h Hs) as [Hn Hor]. split; [done|].
      rewrite (referenced_written s s1 t h Hw), Hq.
      destruct Hor as [Hb| ->]; [|left; left; by right].
      rewrite (referenced_before s0 m (tool_key t) t0 h Hr Hm) in Hb.
      destruct Hb as [[<-|<-]|Hb]; [by right|by right|left; by right].
    + intros h Hn Hb. apply D2; [done|]. rewrite (referenced_written s s1 t h Hw), Hq in Hb.
      rewrite (referenced_before s0 m (tool_key t) t0 h Hr Hm).
      destruct Hb as [[<-|<-]|Hb]; [|by right|left; by right].
      destruct Ha as [?|[?|Ha]]; [done|by right|left; left; left; congruence].
Qed.

(** ** Each method against the abstract steps *)

Lemma Hash_nonempty t : Hash t <> "".
Proof. apply hex_sum256_nonempty. Qed.

Lemma keepDefinition_lookup s hash t now h :
  tool_definitions (keepDefinition s hash t now) !! h
  = match tool_definitions s !! h with
    | Some d => Some d
    | None => if decide (h = hash) then Some {| def := t; def_first_seen_at := format_time now |} else None
    end.
Proof.
  unfold keepDefinition. simpl. destruct (tool_definitions s !! hash) as [d|] eqn:Hd.
  - destruct (tool_definitions s !! h) eqn:Hh; [done|]. case_decide; congruence.
  - destruct (decide (h = hash)) as [->|Hn]; [by rewrite lookup_insert_eq, Hd|].
    rewrite lookup_insert_ne by done. by destruct (tool_definitions s !! h).
Qed.

Lemma keepDefinition_defs s m t now :
  represents s m ->
  let s1 := keepDefinition s (Hash t) t now in
  (forall h, is_Some (tool_definitions s1 !! h) -> h <> "" /\ (referenced s h = true \/ h = Hash t))
  /\ (forall h, h <> "" -> referenced s h = true \/ h = Hash t -> is_Some (tool_definitions s1 !! h))
  /\ (forall h d, tool_definitions s1 !! h = Some d -> Hash (def d) = h).
Proof.
  intros [_ [D1 D2]] s1. subst s1. split_and!.
  - intros h. rewrite keepDefinition_lookup. destruct (tool_definitions s !! h) as [d|] eqn:Hd.
    + intros _. destruct (proj1 (D1 h) ltac:(eauto)). eauto.
    + case_decide as He; [|by intros []]. intros _. subst. split; [apply Hash_nonempty|by right].
  - intros h Hn Hor. rewrite keepDefinition_lookup. destruct (tool_definitions s !! h) as [d|] eqn:Hd; [eauto|].
    destruct Hor as [Hr|He].
    + destruct (proj2 (D1 h) (conj Hn Hr)) as [d Hd']. congruence.
    + rewrite decide_True by done. eauto.
  - intros h d. rewrite keepDefinition_lookup. destruct (tool_definitions s !! h) as [d'|] eqn:Hd.
    + intros [= <-]. eauto.
    + case_decide; [|done]. by intros [= <-].
Qed.

Lemma Observed_fields t h c now t' :
  Observed t h c now = Ok t' ->
  tool_key t' = tool_key t /\ FirstSeenAt t' = FirstSeenAt t /\ TUpdatedAt t' = now
  /\ ObservedHash t' = h /\ ApprovedHash t' = ApprovedHash t.
Proof. unfold Observed. repeat case_match; by intros [= <-]. Qed.

Lemma Cleared_fields t now t' :
  Cleared t now = Ok t' ->
  tool_key t' = tool_key t /\ FirstSeenAt t' = FirstSeenAt t /\ TUpdatedAt t' = now
  /\ ObservedHash t' = ObservedHash t /\ ApprovedHash t' = ApprovedHash t.
Proof. unfold Cleared. repeat case_match; by intros [= <-]. Qed.

Lemma Revoked_fields t now t' :
  Revoked t now = Ok t' ->
  tool_key t' = tool_key t /\ FirstSeenAt t' = FirstSeenAt t /\ TUpdatedAt t' = now
  /\ ObservedHash t' = ObservedHash t /\ ApprovedHash t' = "".
Proof. unfold Revoked. repeat case_match; by intros [= <-]. Qed.

Lemma represents_defs s m : represents s m ->
  (forall h, is_Some (tool_definitions s !! h) -> h <> "" /\ referenced s h = true)
  /\ (forall h, h <> "" -> referenced s h = true -> is_Some (tool_definitions s !! h))
  /\ (forall h d, tool_definitions s !! h = Some d -> Hash (def d) = h).
Proof. intros [_ [D1 D2]]. split_and!; [apply D1|intros; by apply D1|done]. Qed.

(** A transition that keeps the observed fingerprint, written and pruned. *)
Lemma same_observation_represents s m t0 t now cs :
  represents s m -> m !! tool_key t = Some t0 -> FirstSeenAt t = FirstSeenAt t0 -> tool_ok t ->
  TUpdatedAt t = now -> formattable now -> ObservedHash t = ObservedHash t0 ->
  ApprovedHash t = "" \/ ApprovedHash t = ObservedHash t \/ ApprovedHash t = ApprovedHash t0 ->
  ApprovedHash t0 ∈ cs -> ObservedHash t0 ∈ cs ->
  exists s1, update s t = Ok s1 /\ represents (pruneDefinitions s1 cs) (<[tool_key t := t]> m).
Proof.
  intros Hr Hm Hf Ho Hu Hn Hob Ha C1 C2.
  destruct (update_written s m t0 t now Hr Hm Hf Ho Hu Hn) as (s1 & Hup & Hw). exists s1. split; [done|].
  destruct (represents_defs s m Hr) as (D1 & D2 & D3).
  assert (Href : referenced s (ObservedHash t) = true).
  { rewrite (referenced_before s m (tool_key t) t0) by done. left. right. congruence. }
  apply (write_prune_represents s s s1 m t0 t cs); try done.
  - intros h Hs. destruct (D1 h Hs). auto.
  - intros h Hne [?| ->]; auto.
Qed.

Lemma approve_step s m k now tr t0 t :
  represents s m -> m !! k = Some t0 -> formattable now ->
  tr t0 now = Ok t -> t = Approved t0 now ->
  exists s', approve s now k tr = Ok (s', t) /\ represents s' (<[k := t]> m)
    /\ update s t = Ok (default s (match update s t with Ok x => Some x | _ => None end))
    /\ s' = pruneDefinitions (default s (match update s t with Ok x => Some x | _ => None end))
              [ApprovedHash t0; ObservedHash t0].
Proof.
  intros Hr Hm Hn Htr ->. destruct (represents_key s m k t0 Hr Hm) as [Hk Ho].
  assert (Hk' : tool_key (Approved t0 now) = k) by done.
  destruct (same_observation_represents s m t0 (Approved t0 now) now [ApprovedHash t0; ObservedHash t0])
    as (s1 & Hup & Hrep); try done.
  - by rewrite Hk'.
  - by apply Approved_ok.
  - right. left. done.
  - by left.
  - right. by left.
  - unfold approve. rewrite (represents_get s m k Hr), Hm. simpl. rewrite Htr. simpl. rewrite Hup. simpl.
    rewrite Hk' in Hrep. eauto.
Qed.

Lemma Approve_refines s m now k s' t :
  represents s m -> formattable now -> Approve s now k = Ok (s', t) ->
  exists t0, m !! k = Some t0 /\ t = Approved t0 now /\ represents s' (<[k := t]> m).
Proof.
  intros Hr Hn Ha. destruct (m !! k) as [t0|] eqn:Hm.
  - destruct (approve_step s m k now (fun prev now => Ok (Approved prev now)) t0 _ Hr Hm Hn eq_refl eq_refl)
      as (s1 & Hs & Hrep & _). unfold Approve in Ha. rewrite Hs in Ha. injection Ha as <- <-. eauto.
  - unfold Approve, approve in Ha. by rewrite (represents_get s m k Hr), Hm in Ha.
Qed.

Lemma ApproveFingerprint_refines s m now k f s' t :
  represents s m -> formattable now -> ApproveFingerprint s now k f = Ok (s', t) ->
  exists t0, m !! k = Some t0 /\ ObservedHash t0 = f /\ t = Approved t0 now /\ represents s' (<[k := t]> m).
Proof.
  intros Hr Hn Ha. unfold ApproveFingerprint in Ha. destruct (m !! k) as [t0|] eqn:Hm.
  - destruct (decide (ObservedHash t0 = f)) as [He|He].
    + destruct (approve_step s m k now (fun prev now => ApprovedFingerprint prev f now) t0 (Approved t0 now) Hr Hm Hn)
        as (s1 & Hs & Hrep & _); [unfold ApprovedFingerprint; by rewrite bool_decide_true|done|].
      rewrite Hs in Ha. injection Ha as <- <-. eauto.
    + unfold approve in Ha. rewrite (represents_get s m k Hr), Hm in Ha. simpl in Ha.
      unfold ApprovedFingerprint in Ha. by rewrite bool_decide_false in Ha.
  - unfold approve in Ha. by rewrite (represents_get s m k Hr), Hm in Ha.
Qed.

Lemma Clear_refines s m now k s' t :
  represents s m -> formattable now -> Clear s now k = Ok (s', t) ->
  exists t0, m !! k = Some t0 /\ Cleared t0 now = Ok t /\ represents s' (<[k := t]> m).
Proof.
  intros Hr Hn Ha. unfold Clear in Ha. rewrite (represents_get s m k Hr) in Ha.
  destruct (m !! k) as [t0|] eqn:Hm; [|done]. simpl in Ha.
  apply rbind_Ok_inv in Ha as (t1 & Hc & Ha). apply rbind_Ok_inv in Ha as (s1 & Hu & [= <- <-]).
  destruct (represents_key s m k t0 Hr Hm) as [Hk Ho]. pose proof (Cleared_fields t0 now t1 Hc) as (F1 & F2 & F3 & F4 & F5).
  exists t0. split_and!; [done..|].
  destruct (update_written s m t0 t1 now Hr) as (s2 & Hu' & Hw); [by rewrite F1, Hk|done|by eapply Cleared_ok|done|done|].
  rewrite Hu in Hu'. injection Hu' as <-. rewrite <- Hk, <- F1. split.
  - apply (written_rows s); [apply Hr|done].
  - assert (Hd : tool_definitions s1 = tool_definitions s) by (by destruct Hw as (? & _ & ? & _)).
    destruct Hr as [Hrow [D1 D2]]. split; rewrite Hd; [|done]. intros h. rewrite D1.
    rewrite (referenced_written s s1 t1 h Hw), F1, Hk, F4, F5.
    by rewrite (referenced_before s m k t0 h (conj Hrow (conj D1 D2)) Hm).
Qed.

Lemma Revoke_refines s m now k s' t :
  represents s m -> formattable now -> Revoke s now k = Ok (s', t) ->
  exists t0, m !! k = Some t0 /\ Revoked t0 now = Ok t /\ represents s' (<[k := t]> m).
Proof.
  intros Hr Hn Ha. unfold Revoke in Ha. rewrite (represents_get s m k Hr) in Ha.
  destruct (m !! k) as [t0|] eqn:Hm; [|done]. simpl in Ha.
  apply rbind_Ok_inv in Ha as (t1 & Hc & Ha). apply rbind_Ok_inv in Ha as (s1 & Hu & [= <- <-]).
  destruct (represents_key s m k t0 Hr Hm) as [Hk Ho]. pose proof (Revoked_fields t0 now t1 Hc) as (F1 & F2 & F3 & F4 & F5).
  exists t0. split_and!; [done..|].
  destruct (same_observation_represents s m t0 t1 now [ApprovedHash t0; ObservedHash t0]) as (s2 & Hu' & Hrep);
    try done; [by rewrite F1, Hk|by eapply Revoked_ok|by left|by left|right; by left|].
  rewrite Hu in Hu'. injection Hu' as <-. by rewrite <- Hk, <- F1.
Qed.

Lemma Observe_refines s m now srv id c s' t ev :
  represents s m -> formattable now -> Observe s now srv id c = Ok (s', t, ev) ->
  let k := (srv, TName id) in
  represents s' (<[k := t]> m) /\ Class_Valid c = true
  /\ ((m !! k = None /\ t = NewTool srv (TName id) (Hash id) c now /\ ev = EventFirstSeen)
      \/ exists t0, m !! k = Some t0 /\ Observed t0 (Hash id) c now = Ok t /\ ev = EventOf t0 t).
Proof.
  intros Hr Hn Ho k. unfold Observe in Ho. destruct (Class_Valid c) eqn:Hc; [|done]. simpl in Ho.
  set (s1 := keepDefinition s (Hash id) id now) in *.
  assert (Hg : get s1 k = match m !! k with Some t => Ok t | None => Err ErrNotFound end)
    by exact (represents_get s m k Hr).
  fold k in Ho. rewrite Hg in Ho.
  pose proof (keepDefinition_defs s m id now Hr) as (D1 & D2 & D3). fold s1 in D1, D2, D3.
  destruct (m !! k) as [t0|] eqn:Hm.
  - apply rbind_Ok_inv in Ho as (t1 & Hob & Ho). apply rbind_Ok_inv in Ho as (s2 & Hu & [= <- <- <-]).
    destruct (represents_key s m k t0 Hr Hm) as [Hk Hok].
    pose proof (Observed_fields t0 _ _ _ _ Hob) as (F1 & F2 & F3 & F4 & F5).
    assert (Hok' : tool_ok t1) by (eapply Observed_ok; [done|apply Hash_nonempty|done]).
    assert (Hw : written s1 s2 t1).
    { destruct (represents_Some s m k t0 Hr Hm) as (r & Hl & [Hs _]).
      apply scanTool_fields in Hs as (_ & _ & _ & Hp).
      unfold update in Hu. change (quarantined_tools s1) with (quarantined_tools s) in Hu.
      rewrite F1, Hk, Hl in Hu. injection Hu as <-. eexists. rewrite F1, Hk. split_and!; [done|done|].
      rewrite <- Hk, <- F1. eapply written_holds; [done|by rewrite F2|done|by rewrite F3|done]. }
    split_and!; [|done|right; eauto]. rewrite <- Hk, <- F1.
    apply (write_prune_represents s s1 s2 m t0 t1 [ObservedHash t0; ApprovedHash t0]); try done.
    + by rewrite F1, Hk.
    + intros h Hs. rewrite F4. by apply D1.
    + intros h Hne. rewrite F4. by apply D2.
    + right. by right.
    + right. by left.
    + by left.
  - injection Ho as <- <- <-. split_and!; [|done|by left]. set (t := NewTool srv (TName id) (Hash id) c now).
    assert (Hw : written s1 (insert_tool s1 t) t).
    { eexists. split_and!; [done|done|].
      eapply written_holds; [apply NewTool_ok; [apply Hash_nonempty|done]|by apply parse_format_time|done|done|done]. }
    split; [apply (written_rows s1 _ m t); [apply Hr|done]|].
    assert (Href : forall h, h <> "" -> referenced (insert_tool s1 t) h = true <-> referenced s h = true \/ h = Hash id).
    { intros h Hne. rewrite (referenced_written s1 _ t h Hw), (referenced_spec s). split.
      - intros [[He|He]|(k' & r & _ & Hl & Hh)]; [by symmetry in He|by right|left; eauto].
      - intros [(k' & r & Hl & Hh)| ->]; [|left; by right]. right. exists k', r. split_and!; [|done|done].
        intros ->. destruct Hr as [Hr _]. specialize (Hr k). fold k in Hl. change (tool_key t) with k in Hl.
        by rewrite Hl, Hm in Hr. }
    split.
    + intros h. change (tool_definitions (insert_tool s1 t)) with (tool_definitions s1). split.
      * intros Hs. destruct (D1 h Hs) as [Hne Hor]. split; [done|]. by apply Href.
      * intros [Hne Hh%Href]; [|done]. by apply D2.
    + exact D3.
Qed.

Lemma Forget_refines s m srv :
  represents s m ->
  represents (Forget s srv).1 (filter (fun e => e.1.1 <> srv) m : qspec).
Proof.
  intros [Hrow [D1 D2]]. unfold Forget. cbn [fst].
  set (s1 := {| quarantined_tools := filter (fun e => e.1.1 <> srv) (quarantined_tools s);
                tool_definitions := tool_definitions s |}). split.
  - intros k. change (quarantined_tools (pruneOrphans s1)) with (filter (fun e => e.1.1 <> srv) (quarantined_tools s)).
    rewrite !map_lookup_filter. specialize (Hrow k).
    destruct (quarantined_tools s !! k) as [r|], (m !! k) as [t|]; simpl; try done.
    by case_guard; simpl.
  - assert (Hd : forall h, tool_definitions (pruneOrphans s1) !! h
      = if referenced s1 h then tool_definitions s !! h else None).
    { intros h. unfold pruneOrphans. cbn [tool_definitions]. rewrite map_lookup_filter.
      change (tool_definitions s1) with (tool_definitions s).
      destruct (tool_definitions s !! h) as [d|]; simpl; [|by destruct (referenced s1 h)].
      case_guard as Hg; simpl in *; [by rewrite Hg|]. by destruct (referenced s1 h). }
    split.
    + intros h. change (referenced (pruneOrphans s1) h) with (referenced s1 h). rewrite Hd.
      assert (Hsub : referenced s1 h = true -> referenced s h = true).
      { rewrite !referenced_spec. intros (k & r & [Hl _]%map_lookup_filter_Some & Hh). eauto. }
      destruct (referenced s1 h); [|split; [by intros []|by intros []]]. rewrite D1. split; [by intros []|].
      intros [? _]. auto.
    + intros h d. rewrite Hd. case_match; [apply D2|done].
Qed.

Lemma scan_tools_Ok (m : qspec) (rows : list (qkey * tool_row)) :
  (forall k r, (k, r) ∈ rows -> exists t, m !! k = Some t /\ scanTool k r = Ok t) ->
  exists ts, scan_tools rows = Ok ts /\ map tool_key ts = map fst rows
    /\ (forall t, t ∈ ts <-> exists k r, (k, r) ∈ rows /\ scanTool k r = Ok t).
Proof.
  induction rows as [|[k r] rows IH]; intros Hm; simpl.
  { exists []. split_and!; [done|done|]. intros t. split; [by intros ?%elem_of_nil|]. by intros (? & ? & ?%elem_of_nil & _). }
  destruct (Hm k r ltac:(by left)) as (t & _ & Ht).
  destruct IH as (ts & -> & Hk & Hin); [intros; apply Hm; by right|]. rewrite Ht. simpl.
  exists (t :: ts). split_and!; [done| |].
  - apply scanTool_fields in Ht as [Hkt _]. simpl. by rewrite Hk, Hkt.
  - intros t'. rewrite elem_of_cons, Hin. split.
    + intros [->|(k' & r' & Hin' & Hs)]; [exists k, r; split; [by left|done]|exists k', r'; split; [by right|done]].
    + intros (k' & r' & [[= -> ->]|Hin']%elem_of_cons & Hs); [left; congruence|right; eauto].
Qed.

Lemma list_tools_refines s m srv :
  represents s m ->
  exists ts, list_tools s srv = Ok ts /\ NoDup (map tool_key ts)
    /\ forall t, t ∈ ts <-> m !! tool_key t = Some t /\ (srv = "" \/ ServerName t = srv).
Proof.
  intros Hr. unfold list_tools.
  assert (Hin : forall k r, (k, r) ∈ list_rows s srv <-> quarantined_tools s !! k = Some r /\ (srv = "" \/ k.1 = srv)).
  { intros k r. unfold list_rows. rewrite merge_sort_Permutation, list_elem_of_filter, elem_of_map_to_list. simpl. tauto. }
  destruct (scan_tools_Ok m (list_rows s srv)) as (ts & Hts & Hk & Hel).
  { intros k r [Hl _]%Hin. destruct Hr as [Hrow _]. specialize (Hrow k). rewrite Hl in Hrow.
    destruct (m !! k) as [t|]; [|done]. destruct Hrow. eauto. }
  exists ts. split_and!; [done| |].
  - rewrite Hk. unfold list_rows. rewrite merge_sort_Permutation.
    eapply (sublist_NoDup _ (map fst (map_to_list (quarantined_tools s)))); [apply NoDup_fst_map_to_list|].
    apply (fmap_sublist fst), sublist_filter.
  - intros t. rewrite Hel. split.
    + intros (k & r & [Hl Hs]%Hin & Ht). pose proof (scanTool_fields k r t Ht) as [Hkt _]. subst k.
      split; [|done]. destruct Hr as [Hrow _]. specialize (Hrow (tool_key t)). rewrite Hl in Hrow.
      destruct (m !! tool_key t) as [t'|]; [|done]. destruct Hrow as [Ht' _]. congruence.
    + intros [Hm Hs]. destruct (represents_Some s m _ t Hr Hm) as (r & Hl & [Ht _]).
      exists (tool_key t), r. split; [|done]. by apply Hin.
Qed.

Lemma NoDup_tool_name (ts : list Tool) srv :
  NoDup (map tool_key ts) -> Forall (fun t => ServerName t = srv) ts -> NoDup (map ToolName ts).
Proof.
  induction ts as [|t ts IH]; simpl; [constructor|]. intros [Hn Hd]%NoDup_cons [Hs Hf]%Forall_cons.
  constructor; [|by apply IH]. intros (t' & Hnm & Hin)%list_elem_of_In%in_map_iff. apply Hn.
  apply list_elem_of_In, in_map_iff. exists t'. split; [|done]. rewrite Forall_forall in Hf.
  unfold tool_key. rewrite Hnm, Hs. f_equal. apply Hf. by apply list_elem_of_In.
Qed.

Definition approvals_of (set : list Tool) (now : time) : list Approval :=
  map (fun t => {| Before_ := t; After_ := Approved t now |}) set.

Lemma write_approvals_refines set now s m :
  represents s m -> formattable now -> NoDup (map tool_key set) ->
  (forall t, t ∈ set -> m !! tool_key t = Some t) ->
  exists s' m', write_approvals s (approvals_of set now) = Ok s' /\ represents s' m'
    /\ qsteps m (map (fun t => EvApproved (tool_key t) (ObservedHash t)) set) m'
    /\ forall t, t ∈ set -> m' !! tool_key t = Some (Approved t now).
Proof.
  intros Hr Hn. revert s m Hr. induction set as [|t set IH]; intros s m Hr Hnd Hm.
  { exists s, m. split_and!; [done|done|constructor|]. by intros t ?%elem_of_nil. }
  simpl in Hnd. apply NoDup_cons in Hnd as [Ht Hnd].
  assert (Hmt : m !! tool_key t = Some t) by (apply Hm; by left).
  destruct (represents_key s m _ t Hr Hmt) as [_ Hok].
  destruct (same_observation_represents s m t (Approved t now) now [ApprovedHash t; ObservedHash t])
    as (s1 & Hu & Hrep); try done.
  { by apply Approved_ok. } { right. by left. } { by left. } { right. by left. }
  change (tool_key (Approved t now)) with (tool_key t) in Hrep.
  destruct (IH _ _ Hrep Hnd) as (s' & m' & Hw & Hrep' & Hsteps & Hall).
  { intros t' Hin. rewrite lookup_insert_ne; [by apply Hm; right|]. intros He. apply Ht. rewrite He.
    apply list_elem_of_In, in_map. by apply list_elem_of_In. }
  exists s', m'. simpl. rewrite Hu. simpl. split_and!; [done|done| |].
  - apply (qsteps_app m [_] (<[tool_key t := Approved t now]> m)); [|done].
    apply qsteps_one. by constructor.
  - intros t' [->|Hin]%elem_of_cons; [|by apply Hall].
    assert (Hkeep : forall es m1 m2, qsteps m1 es m2 -> (forall e, e ∈ es -> exists k h, e = EvApproved k h /\ k <> tool_key t) ->
      m2 !! tool_key t = m1 !! tool_key t).
    { clear. intros es m1 m2 Hq. induction Hq as [|m1 es m2 e m3 Hq IHq Hst]; intros He; [done|].
      rewrite <- IHq by (intros e' Hin; apply He, elem_of_app; by left).
      destruct (He e) as (k & h & -> & Hk); [apply elem_of_app; right; apply list_elem_of_here|].
      inversion Hst; subst. by rewrite lookup_insert_ne. }
    rewrite (Hkeep _ _ _ Hsteps); [by rewrite lookup_insert_eq|].
    intros e (t2 & <- & Hin)%list_elem_of_In%in_map_iff. exists (tool_key t2), (ObservedHash t2). split; [done|].
    intros He. apply Ht. rewrite <- He. by apply list_elem_of_In, in_map.
Qed.

(** The review set of a server in a represented store. *)
Definition review_set (m : qspec) (srv : string) (set : list Tool) : Prop :=
  NoDup (map tool_key set) /\ StronglySorted (fun a b => str_le (ToolName a) (ToolName b)) set
  /\ forall t, t ∈ set <-> m !! tool_key t = Some t /\ ServerName t = srv /\ TStatus t <> StatusApproved.

Lemma ApproveReviewSet_refines s m now srv manifest s' approvals :
  represents s m -> formattable now -> ApproveReviewSet s now srv manifest = Ok (s', approvals) ->
  exists set m', review_set m srv set /\ set <> [] /\ approvals = approvals_of set now
    /\ Manifest srv set = manifest /\ represents s' m'
    /\ qsteps m (map (fun t => EvApproved (tool_key t) (ObservedHash t)) set) m'
    /\ forall t, t ∈ set -> m' !! tool_key t = Some (Approved t now).
Proof.
  intros Hr Hn Ha. unfold ApproveReviewSet in Ha.
  destruct (list_tools_refines s m srv Hr) as (ts & Hts & Hnd & Hel). rewrite Hts in Ha. simpl in Ha.
  apply rbind_Ok_inv in Ha as (apps & Hs & Ha). apply rbind_Ok_inv in Ha as (s1 & Hw & [= -> ->]).
  unfold ApprovedSet in Hs. destruct (forallb _ ts) eqn:Hv; [|done]. cbn [negb] in Hs. cbv zeta in Hs.
  set (set := ReviewSet (filter (fun t => ServerName t = srv) ts)) in *.
  destruct (length set =? 0)%nat eqn:Hl; [done|]. case_bool_decide as Hm; [|done]. cbn [negb] in Hs.
  rewrite approve_each_Ok in Hs. injection Hs as <-.
  assert (Hset : review_set m srv set).
  { unfold review_set. subst set. split_and!.
    - unfold ReviewSet. rewrite sort_by_Permutation.
      eapply sublist_NoDup; [exact Hnd|]. apply (fmap_sublist tool_key).
      etrans; apply sublist_filter.
    - apply sort_by_sorted.
    - intros t. rewrite elem_of_ReviewSet, list_elem_of_filter, Hel. naive_solver. }
  destruct (write_approvals_refines set now s m Hr Hn) as (s2 & m' & Hw' & Hrep & Hq & Hall).
  { apply Hset. } { intros t Hin. by apply Hset in Hin as [? _]. }
  unfold approvals_of in Hw'. rewrite Hw in Hw'. injection Hw' as <-.
  exists set, m'. split_and!; try done. intros He. by rewrite He in Hl.
Qed.
End represents.
