(* ===== verification/QuarantineHistory.v ===== *)
(** * Histories of the quarantine: what a usable tool's past must hold

    Every operation of the store as one datatype, run from an empty store; each successful one leaves
    its events in the history.  The theorems: the store refines the abstract labelled steps, a usable
    tool was approved by a human at exactly the fingerprint it advertises with nothing since that
    would have withdrawn it, a change is sticky, and the definitions kept are those referenced. *)
From Stdlib Require Import ZArith Lia Ascii.
From stdpp Require Import base strings list gmap sorting.
From S2P Require Import Prelude.
From S2P Require Import GoStrings.
From S2P Require Import GoTime.
From S2P Require Import Encode.
From S2P Require Import Quarantine.
From S2P Require Import QuarantineStore.

Inductive q_op :=
| OpObserve (now : time) (srv : string) (id : ToolIdentity) (c : Class)
| OpApprove (now : time) (k : qkey)
| OpApproveFingerprint (now : time) (k : qkey) (f : string)
| OpApproveReviewSet (now : time) (srv manifest : string)
| OpClear (now : time) (k : qkey)
| OpRevoke (now : time) (k : qkey)
| OpForget (srv : string).

Section histories.
Context `{HashFunction}.

(** One operation: the store after it and the events it adds; an error changes nothing. *)
Definition apply_q (s : qstore) (op : q_op) : qstore * list q_event :=
  match op with
  | OpObserve now srv id c =>
      match Observe s now srv id c with
      | Ok (s', _, _) => (s', [EvObserved (srv, TName id) (Hash id) c])
      | Err _ => (s, []) end
  | OpApprove now k =>
      match Approve s now k with
      | Ok (s', t) => (s', [EvApproved k (ApprovedHash t)]) | Err _ => (s, []) end
  | OpApproveFingerprint now k f =>
      match ApproveFingerprint s now k f with
      | Ok (s', t) => (s', [EvApproved k (ApprovedHash t)]) | Err _ => (s, []) end
  | OpApproveReviewSet now srv manifest =>
      match ApproveReviewSet s now srv manifest with
      | Ok (s', l) => (s', map (fun a => EvApproved (tool_key (After_ a)) (ApprovedHash (After_ a))) l)
      | Err _ => (s, []) end
  | OpClear now k =>
      match Clear s now k with
      | Ok (s', t) => (s', [EvCleared k (SensitiveClearedHash t)]) | Err _ => (s, []) end
  | OpRevoke now k =>
      match Revoke s now k with Ok (s', _) => (s', [EvRevoked k]) | Err _ => (s, []) end
  | OpForget srv => ((Forget s srv).1, [EvForgot srv])
  end.

Definition run_q (s : qstore) (ops : list q_op) : qstore * list q_event :=
  foldl (fun acc op => ((apply_q acc.1 op).1, acc.2 ++ (apply_q acc.1 op).2)) (s, []) ops.

(** The adapter's clock is [time.Now().UTC()]: a time its text form represents. *)
Definition q_op_ok (op : q_op) : Prop :=
  match op with
  | OpObserve now _ _ _ | OpApprove now _ | OpApproveFingerprint now _ _ | OpApproveReviewSet now _ _
  | OpClear now _ | OpRevoke now _ => formattable now
  | OpForget _ => True
  end.

Lemma apply_q_refines s m op :
  represents s m -> q_op_ok op ->
  exists m', represents (apply_q s op).1 m' /\ qsteps m (apply_q s op).2 m'.
Proof.
  intros Hr Ho. destruct op as [now srv id c|now k|now k f|now srv mf|now k|now k|srv]; simpl in *.
  - destruct (Observe s now srv id c) as [[[s' t] ev]|] eqn:Hs; [|exists m; by split; [|constructor]].
    destruct (Observe_refines s m now srv id c s' t ev Hr Ho Hs) as (Hrep & Hc & Hcase).
    eexists. split; [exact Hrep|]. apply qsteps_one. destruct Hcase as [(Hm & -> & _)|(t0 & Hm & Hob & _)].
    + exact (step_first_seen m (srv, TName id) (Hash id) c now Hm (Hash_nonempty id) Hc).
    + by apply step_observed with t0 now; [|apply Hash_nonempty|].
  - destruct (Approve s now k) as [[s' t]|] eqn:Hs; [|exists m; by split; [|constructor]].
    destruct (Approve_refines s m now k s' t Hr Ho Hs) as (t0 & Hm & -> & Hrep).
    eexists. split; [exact Hrep|]. by apply qsteps_one, step_approved.
  - destruct (ApproveFingerprint s now k f) as [[s' t]|] eqn:Hs; [|exists m; by split; [|constructor]].
    destruct (ApproveFingerprint_refines s m now k f s' t Hr Ho Hs) as (t0 & Hm & _ & -> & Hrep).
    eexists. split; [exact Hrep|]. by apply qsteps_one, step_approved.
  - destruct (ApproveReviewSet s now srv mf) as [[s' l]|] eqn:Hs; [|exists m; by split; [|constructor]].
    destruct (ApproveReviewSet_refines s m now srv mf s' l Hr Ho Hs) as (set & m' & _ & _ & -> & _ & Hrep & Hq & _).
    exists m'. split; [done|]. unfold approvals_of. simpl. by rewrite map_map.
  - destruct (Clear s now k) as [[s' t]|] eqn:Hs; [|exists m; by split; [|constructor]].
    destruct (Clear_refines s m now k s' t Hr Ho Hs) as (t0 & Hm & Hc & Hrep).
    eexists. split; [exact Hrep|]. apply qsteps_one.
    assert (He : SensitiveClearedHash t = ApprovedHash t0) by (revert Hc; unfold Cleared; repeat case_match; by intros [= <-]).
    simpl. rewrite He. by apply step_cleared with now.
  - destruct (Revoke s now k) as [[s' t]|] eqn:Hs; [|exists m; by split; [|constructor]].
    destruct (Revoke_refines s m now k s' t Hr Ho Hs) as (t0 & Hm & Hc & Hrep).
    eexists. split; [exact Hrep|]. by apply qsteps_one, step_revoked with t0 now.
  - eexists. split; [by apply Forget_refines|]. apply qsteps_one. constructor.
Qed.

Lemma run_q_snoc s ops op :
  run_q s (ops ++ [op])
  = ((apply_q (run_q s ops).1 op).1, (run_q s ops).2 ++ (apply_q (run_q s ops).1 op).2).
Proof. unfold run_q. by rewrite foldl_app. Qed.

Lemma run_q_refines ops :
  Forall q_op_ok ops ->
  exists m, represents (run_q empty_qstore ops).1 m /\ qsteps ∅ (run_q empty_qstore ops).2 m.
Proof.
  induction ops as [|op ops IH] using rev_ind.
  { intros _. exists ∅. split; [apply empty_represents|constructor]. }
  intros [Ho Hx]%Forall_app. apply Forall_cons in Hx as [Hx _]. destruct (IH Ho) as (m & Hr & Hq).
  destruct (apply_q_refines _ m op Hr Hx) as (m' & Hr' & Hq'). exists m'. rewrite run_q_snoc. simpl.
  split; [done|]. by apply qsteps_app with m.
Qed.
End histories.

(** ** What the history holds of a tool *)

(** An event after which an approval of [k] at fingerprint [f] still stands. *)
Definition keeps_approval (k : qkey) (f : string) (e : q_event) : Prop :=
  match e with
  | EvObserved k' f' _ | EvApproved k' f' => k' = k -> f' = f
  | EvCleared _ _ => True
  | EvRevoked k' => k' <> k
  | EvForgot srv => srv <> k.1
  end.

(** An event after which a clearance of [k] at fingerprint [f] still stands. *)
Definition keeps_clearance (k : qkey) (f : string) (e : q_event) : Prop :=
  match e with
  | EvApproved k' f' => k' = k -> f' = f
  | EvObserved _ _ _ | EvCleared _ _ => True
  | EvRevoked k' => k' <> k
  | EvForgot srv => srv <> k.1
  end.

(** [e] happened, and everything after it satisfies [P]. *)
Definition since (e : q_event) (P : q_event -> Prop) (h : list q_event) : Prop :=
  exists h1 h2, h = h1 ++ e :: h2 /\ Forall P h2.

Lemma since_snoc e P h x : since e P h -> P x -> since e P (h ++ [x]).
Proof.
  intros (h1 & h2 & -> & Hf) Hx. exists h1, (h2 ++ [x]). rewrite <- app_assoc. split; [done|].
  by apply Forall_app_2; [|apply Forall_singleton].
Qed.

Lemma since_now e P h : since e P (h ++ [e]).
Proof. exists h, []. by split. Qed.

(** What the history records of the tool under [k]. *)
Definition vetted (h : list q_event) (k : qkey) (t : Tool) : Prop :=
  tool_ok t
  /\ (TStatus t = StatusApproved ->
      since (EvApproved k (ApprovedHash t)) (keeps_approval k (ApprovedHash t)) h)
  /\ (SensitiveClearedHash t <> "" ->
      since (EvCleared k (SensitiveClearedHash t)) (keeps_clearance k (SensitiveClearedHash t)) h).

Lemma vetted_other h k t e :
  vetted h k t ->
  (forall f, keeps_approval k f e) -> (forall f, keeps_clearance k f e) -> vetted (h ++ [e]) k t.
Proof. intros (Ho & Ha & Hc) H1 H2. split_and!; [done|..]; intros; apply since_snoc; auto. Qed.

Lemma vetted_observed h k t f c now t' :
  vetted h k t -> f <> "" -> Observed t f c now = Ok t' -> vetted (h ++ [EvObserved k f c]) k t'.
Proof.
  intros (Ho & Ha & Hc) Hf Hob. split; [by eapply Observed_ok|]. revert Hob. unfold Observed.
  destruct (Status_Valid (TStatus t)) eqn:Hs; [|done]. destruct (Class_Valid c); [|done]. intros [= <-]. simpl. split.
  - case_bool_decide as Hst; simpl; [|by intros ?].
    case_bool_decide as He; simpl; [|done]. intros _. apply since_snoc; [by apply Ha|]. by intros _.
  - intros Hn. by apply since_snoc; [apply Hc|].
Qed.

Lemma vetted_approved h k t now : vetted h k t -> vetted (h ++ [EvApproved k (ObservedHash t)]) k (Approved t now).
Proof.
  intros (Ho & Ha & Hc). split; [by apply Approved_ok|]. split; simpl.
  - intros _. apply since_now.
  - case_bool_decide as He; simpl; [|done]. intros Hn. apply since_snoc; [by apply Hc|].
    intros _. destruct Ho as (_ & _ & _ & _ & _ & [?|?] & _); congruence.
Qed.

Lemma vetted_cleared h k t now t' :
  vetted h k t -> Cleared t now = Ok t' -> vetted (h ++ [EvCleared k (ApprovedHash t)]) k t'.
Proof.
  intros (Ho & Ha & Hc) Hcl. split; [by eapply Cleared_ok|]. revert Hcl. unfold Cleared. repeat case_match; try done.
  intros [= <-]. simpl. split; [|intros _; apply since_now]. intros Hs. by apply since_snoc; [apply Ha|].
Qed.

Lemma vetted_revoked h k t now t' : vetted h k t -> Revoked t now = Ok t' -> vetted (h ++ [EvRevoked k]) k t'.
Proof.
  intros (Ho & _) Hrv. split; [by eapply Revoked_ok|]. revert Hrv. unfold Revoked. repeat case_match; try done.
  by intros [= <-].
Qed.

(** An event on one key leaves every other key's record standing. *)
Ltac other_key := let Hne := fresh in intros ? ? Hne; split; simpl; try done; intros; congruence.

Lemma qsteps_vetted h m : qsteps ∅ h m -> forall k t, m !! k = Some t -> vetted h k t.
Proof.
  intros Hq. remember (∅ : qspec) as m0. induction Hq as [m0|m0 h m e m' Hq IH Hst]; intros k t.
  { subst. by rewrite lookup_empty. }
  specialize (IH Heqm0).
  assert (Hins : forall k0 t0', (m' = <[k0 := t0']> m) -> vetted (h ++ [e]) k0 t0' ->
    (forall k f, k <> k0 -> keeps_approval k f e /\ keeps_clearance k f e) -> m' !! k = Some t -> vetted (h ++ [e]) k t).
  { intros k0 t0' -> Hv Hother. rewrite lookup_insert_Some. intros [[<- <-]|[Hne Hm]]; [done|].
    apply vetted_other; [by apply IH|..]; intros f; by apply Hother. }
  inversion Hst as [m1 k0 f c now Hm Hf Hc|m1 k0 t0 f c now t0' Hm Hf Hob|m1 k0 t0 now Hm|m1 k0 t0 now t0' Hm Hcl
    |m1 k0 t0 now t0' Hm Hrv|m1 srv]; subst; eauto 1.
  - eapply Hins; [done| |other_key].
    split; [by apply NewTool_ok|]. by split.
  - eapply Hins; [done|by eapply vetted_observed; eauto|other_key].
  - eapply Hins; [done|by apply vetted_approved; auto|other_key].
  - eapply Hins; [done|by eapply vetted_cleared; eauto|other_key].
  - eapply Hins; [done|by eapply vetted_revoked; eauto|other_key].
  - intros [Hm Hs]%map_lookup_filter_Some. simpl in Hs. apply vetted_other; [by apply IH|..]; intros f; simpl; congruence.
Qed.

(** A set built from a list has at most as many elements. *)
Lemma size_list_to_set_le (l : list string) : (size (list_to_set l : gset string) <= length l)%nat.
Proof.
  induction l as [|x l IH]; [by rewrite list_to_set_nil, size_empty|].
  rewrite list_to_set_cons, size_union_alt, size_singleton. simpl.
  pose proof (subseteq_size (list_to_set l ∖ {[x]}) (list_to_set l : gset string) ltac:(set_solver)). lia.
Qed.

(** ** Properties *)

Section properties.
Context `{HashFunction}.

(** C8 [usable_is_vetted]: after any history of observations, approvals, bulk approvals, clearances,
    revocations and deregistrations from an empty store, a tool the gate calls usable was approved by
    an operator at exactly the fingerprint it now advertises, and since that approval every
    observation of it had that fingerprint, it was not revoked and its server was not forgotten; a
    tool that can act was also cleared at that fingerprint, and neither revoked, forgotten nor
    approved at another fingerprint since. *)
Theorem usable_is_vetted ops k t :
  Forall q_op_ok ops ->
  get (run_q empty_qstore ops).1 k = Ok t -> Usable t = true ->
  let h := (run_q empty_qstore ops).2 in
  since (EvApproved k (ObservedHash t)) (keeps_approval k (ObservedHash t)) h
  /\ (TClass t <> ClassSafe -> since (EvCleared k (ObservedHash t)) (keeps_clearance k (ObservedHash t)) h).
Proof.
  intros Ho Hg Hu h. destruct (run_q_refines ops Ho) as (m & Hr & Hq).
  rewrite (represents_get _ m k Hr) in Hg. destruct (m !! k) as [t'|] eqn:Hm; [|done]. injection Hg as ->.
  destruct (qsteps_vetted _ _ Hq k t Hm) as (_ & Ha & Hc).
  apply Usable_spec in Hu as [(Hs & Hne & He) Hcl]. rewrite He. split; [by apply Ha|].
  intros Hcls. rewrite <- (Hcl Hcls). apply Hc. by rewrite Hcl.
Qed.

Lemma qsteps_changed m h m' k t :
  qsteps m h m' -> m !! k = Some t -> TStatus t = StatusChanged ->
  Forall (fun e => (forall f, e <> EvApproved k f) /\ e <> EvForgot k.1) h ->
  exists t', m' !! k = Some t' /\ TStatus t' = StatusChanged.
Proof.
  intros Hq Hm Hst. induction Hq as [|m h m1 e m2 Hq IH Hs]; [eauto|].
  intros [Hf He]%Forall_app. apply Forall_cons in He as [[He1 He2] _].
  destruct (IH Hm Hf) as (t1 & Hm1 & Hst1). clear IH.
  inversion Hs as [m0 k0 f c now Hk|m0 k0 t0 f c now t0' Hk _ Hob|m0 k0 t0 now Hk|m0 k0 t0 now t0' Hk Hcl
    |m0 k0 t0 now t0' Hk Hrv|m0 srv]; subst.
  1-5: destruct (decide (k0 = k)) as [->|Hne]; [|exists t1; rewrite lookup_insert_ne by done; done].
  - congruence.
  - rewrite lookup_insert_eq. eexists. split; [done|]. assert (t0 = t1) as -> by congruence.
    revert Hob. unfold Observed. repeat case_match; try done; intros [= <-]; simpl; rewrite ?Hst1; done.
  - by destruct (He1 (ObservedHash t0)).
  - assert (t0 = t1) as -> by congruence. revert Hcl. unfold Cleared. rewrite Hst1. by repeat case_match.
  - assert (t0 = t1) as -> by congruence. revert Hrv. unfold Revoked. rewrite Hst1. by repeat case_match.
  - exists t1. split; [|done]. apply map_lookup_filter_Some. split; [done|]. simpl. congruence.
Qed.

(** C10 [changed_is_sticky]: once an approved tool has been seen with another definition it stays
    changed, and unusable, whatever is observed afterwards (the approved definition again included)
    and whatever else the store is asked, until an operator approves it or its server is
    deregistered. *)
Theorem changed_is_sticky ops1 ops2 k t :
  Forall q_op_ok (ops1 ++ ops2) ->
  get (run_q empty_qstore ops1).1 k = Ok t -> TStatus t = StatusChanged ->
  Forall (fun e => (forall f, e <> EvApproved k f) /\ e <> EvForgot k.1)
    (run_q (run_q empty_qstore ops1).1 ops2).2 ->
  exists t', get (run_q (run_q empty_qstore ops1).1 ops2).1 k = Ok t'
    /\ TStatus t' = StatusChanged /\ Usable t' = false.
Proof.
  intros [Ho1 Ho2]%Forall_app Hg Hst Hf. destruct (run_q_refines ops1 Ho1) as (m1 & Hr1 & _).
  rewrite (represents_get _ m1 k Hr1) in Hg. destruct (m1 !! k) as [t0|] eqn:Hm; [|done]. injection Hg as ->.
  assert (Hrun : exists m2, represents (run_q (run_q empty_qstore ops1).1 ops2).1 m2
      /\ qsteps m1 (run_q (run_q empty_qstore ops1).1 ops2).2 m2).
  { clear Hf. induction ops2 as [|op ops2 IH] using rev_ind; [exists m1; by split; [|constructor]|].
    apply Forall_app in Ho2 as [Ho2 Hx]. apply Forall_cons in Hx as [Hx _]. destruct (IH Ho2) as (m & Hr & Hq).
    destruct (apply_q_refines _ m op Hr Hx) as (m' & Hr' & Hq'). exists m'. rewrite run_q_snoc. simpl.
    split; [done|]. by apply qsteps_app with m. }
  destruct Hrun as (m2 & Hr2 & Hq2). destruct (qsteps_changed m1 _ m2 k t Hq2 Hm Hst Hf) as (t' & Hm2 & Hst').
  exists t'. rewrite (represents_get _ m2 k Hr2), Hm2. split_and!; [done..|].
  apply not_true_is_false. intros [(Hs & _) _]%Usable_spec. rewrite Hst' in Hs. done.
Qed.

(** C24 [bulk_approval_is_what_was_shown]: a bulk approval that names the manifest of the set an
    operator was shown approves exactly that set, entry for entry at the fingerprints shown, in one
    transaction; if what it approved differs from what was shown, the two sets are a SHA-256
    collision. *)
Theorem bulk_approval_is_what_was_shown ops now srv shown_set s' approvals :
  Forall q_op_ok ops -> formattable now -> go_string srv -> holdable_set shown_set ->
  holdable_set (map Before_ approvals) ->
  ApproveReviewSet (run_q empty_qstore ops).1 now srv (Manifest srv shown_set) = Ok (s', approvals) ->
  (map shown (sort_by ToolName shown_set) = map shown (sort_by ToolName (map Before_ approvals))
   \/ collision (manifest_input srv shown_set) (manifest_input srv (map Before_ approvals)))
  /\ Forall (fun a => get (run_q empty_qstore ops).1 (tool_key (Before_ a)) = Ok (Before_ a)
       /\ TStatus (Before_ a) <> StatusApproved
       /\ get s' (tool_key (Before_ a)) = Ok (After_ a)
       /\ TStatus (After_ a) = StatusApproved /\ ApprovedHash (After_ a) = ObservedHash (Before_ a)) approvals.
Proof.
  intros Ho Hn Hg Hs Ha Hap. destruct (run_q_refines ops Ho) as (m & Hr & _).
  destruct (ApproveReviewSet_refines _ m now srv _ s' approvals Hr Hn Hap)
    as (set & m' & (_ & _ & Hset) & _ & -> & Hm & Hrep & _ & Hall).
  assert (Hb : map Before_ (approvals_of set now) = set).
  { unfold approvals_of. rewrite map_map. apply map_id. }
  rewrite Hb in *. split.
  - symmetry in Hm. apply Manifest_inj in Hm as [[_ ?]|?]; [by left|by right|done..].
  - apply Forall_forall. intros a (t & <- & Hin%list_elem_of_In)%list_elem_of_In%in_map_iff. simpl.
    destruct (proj1 (Hset t) Hin) as (Hmt & _ & Hst).
    rewrite (represents_get _ m _ Hr), Hmt, (represents_get s' m' _ Hrep), (Hall t Hin). done.
Qed.

(** Fact [definitions_kept]: after any history the store keeps exactly the definitions some tool names
    as its approved or observed fingerprint, at most two per tool; asking for any of them returns a
    definition of that very fingerprint, and asking for any other is answered "not kept". *)
Theorem definitions_kept ops h :
  Forall q_op_ok ops ->
  let s := (run_q empty_qstore ops).1 in
  (size (tool_definitions s) <= 2 * size (quarantined_tools s))%nat
  /\ ((exists id, Definition_ s h = Ok id /\ Hash id = h)
      /\ (exists k t, get s k = Ok t /\ h <> "" /\ (ApprovedHash t = h \/ ObservedHash t = h))
      \/ Definition_ s h = Err ErrDefinitionNotKept
         /\ forall k t, get s k = Ok t -> h <> "" -> ApprovedHash t <> h /\ ObservedHash t <> h).
Proof.
  intros Ho s. destruct (run_q_refines ops Ho) as (m & Hr & _). fold s in Hr. pose proof Hr as [Hrow [D1 D2]].
  assert (Href : forall h, referenced s h = true <-> exists k t, get s k = Ok t /\ (ApprovedHash t = h \/ ObservedHash t = h)).
  { intros h'. rewrite referenced_spec. split.
    - intros (k & r & Hl & Hh). specialize (Hrow k). rewrite Hl in Hrow. destruct (m !! k) as [t|] eqn:Hm; [|done].
      destruct Hrow as [Hsc _]. exists k, t. unfold get. rewrite Hl. split; [done|].
      apply scanTool_fields in Hsc as (_ & <- & <- & _). done.
    - intros (k & t & Hg & Hh). unfold get in Hg. destruct (quarantined_tools s !! k) as [r|] eqn:Hl; [|done].
      exists k, r. apply scanTool_fields in Hg as (_ & -> & -> & _). done. }
  split.
  - rewrite <- size_dom. transitivity (size (list_to_set
      (flat_map (fun e => [approved_hash e.2; observed_hash e.2]) (map_to_list (quarantined_tools s))) : gset string)).
    + apply subseteq_size. intros h' Hd%elem_of_dom. apply D1 in Hd as [_ (k & r & Hl & Hh)%referenced_spec].
      apply elem_of_list_to_set, list_elem_of_In, in_flat_map. exists (k, r). split.
      * by apply list_elem_of_In, elem_of_map_to_list.
      * simpl. naive_solver.
    + etrans; [apply size_list_to_set_le|]. rewrite <- length_map_to_list.
      generalize (map_to_list (quarantined_tools s)). intros l. induction l; simpl; lia.
  - unfold Definition_. destruct (tool_definitions s !! h) as [d|] eqn:Hd.
    + left. rewrite (bool_decide_true _ (D2 h d Hd)). split; [eauto|].
      destruct (proj1 (D1 h) ltac:(eauto)) as [Hn Hrf]. apply Href in Hrf as (k & t & ? & ?). eauto.
    + right. split; [done|]. intros k t Hg Hn.
      assert (Hno : ~ (ApprovedHash t = h \/ ObservedHash t = h)).
      { intros Hor. destruct (proj2 (D1 h)) as [d' Hd']; [|congruence]. split; [done|]. apply Href. eauto. }
      tauto.
Qed.

(** Fact [fingerprint_binds]: a fingerprint names one definition: two tools with equal fingerprints have
    the same name, description and schemas, or their encodings are a SHA-256 collision. *)
Theorem fingerprint_binds a b :
  holdable_identity a -> holdable_identity b ->
  Hash a = Hash b <-> a = b \/ (a <> b /\ collision (hash_input a) (hash_input b)).
Proof.
  intros Ha Hb. split.
  - intros He. destruct (decide (a = b)) as [|Hne]; [by left|right]. split; [done|].
    by apply Hash_inj in He as [?|?].
  - intros [->|(_ & _ & Hc)]; [done|]. unfold Hash, hex_sum256. by rewrite Hc.
Qed.
End properties.

(** Fact [only_humans_widen]: of the transitions of a well-formed tool, an observation makes an
    unusable tool usable only when the tool is approved at the fingerprint observed and its class
    moves from one that can act to the safe one; a revocation never leaves a usable tool; and an
    approval or a clearance records the fingerprint the tool advertises. *)
Theorem only_humans_widen t now t' :
  tool_ok t ->
  (forall h c, Observed t h c now = Ok t' -> Usable t = false -> Usable t' = true ->
     TStatus t = StatusApproved /\ h = ApprovedHash t /\ TClass t = ClassSensitive /\ c = ClassSafe)
  /\ (Revoked t now = Ok t' -> Usable t' = false)
  /\ ApprovedHash (Approved t now) = ObservedHash t
  /\ (Cleared t now = Ok t' -> SensitiveClearedHash t' = ObservedHash t /\ Usable t' = true).
Proof.
  intros (Hs & Hc & H1 & H2 & H3 & H4 & H5). split_and!.
  - intros h c Hob Hu Hu'. apply Usable_spec in Hu' as [(Hst & Hne & He) Hcl].
    assert (Hnu : ~ Usable t = true) by congruence. rewrite Usable_spec in Hnu. revert Hob. unfold Observed.
    rewrite Hs. destruct (Class_Valid c) eqn:Hcv; [|done]. intros [= <-]. simpl in *.
    destruct (bool_decide (TStatus t = StatusApproved) && _) eqn:Hb; [done|].
    rewrite Hst in *. rewrite bool_decide_true in Hb by done. simpl in Hb.
    rewrite negb_false_iff, bool_decide_eq_true in Hb. subst h.
    unfold Class_Valid in Hc, Hcv. rewrite orb_true_iff, !bool_decide_eq_true in Hc, Hcv.
    destruct (decide (TClass t = ClassSafe)) as [Ht|Ht]; [exfalso; apply Hnu; tauto|].
    destruct (decide (c = ClassSafe)) as [|Hcs]; [tauto|]. exfalso. apply Hnu. tauto.
  - unfold Revoked. repeat case_match; try done. by intros [= <-].
  - done.
  - unfold Cleared. destruct (Class_Valid (TClass t)); [|done]. simpl. case_bool_decide as Hsf; [done|].
    destruct (negb (bool_decide (TStatus t = StatusApproved)) || bool_decide (ApprovedHash t = "")) eqn:Hb; [done|].
    apply orb_false_iff in Hb as [Hb1 Hb2]. rewrite negb_false_iff, bool_decide_eq_true in Hb1.
    rewrite bool_decide_eq_false in Hb2. intros [= <-]. simpl. rewrite <- H3 by done. split; [done|].
    apply Usable_spec. simpl. split; [|done]. rewrite H3 by done. done.
Qed.

(** Fact [approval_can_restore_clearance]: an approval alone can make a tool that acts usable: a cleared
    tool that changed and then advertised the approved definition again is served on the next
    approval, without a second clearance, although the port says only [Clear] can take such a tool
    into the usable set. *)
Theorem approval_can_restore_clearance f now :
  f <> "" ->
  let t := {| ServerName := "casemgmt"; ToolName := "submit"; TStatus := StatusChanged; ApprovedHash := f;
              ObservedHash := f; TClass := ClassSensitive; SensitiveClearedHash := f;
              FirstSeenAt := now; TUpdatedAt := now |} in
  tool_ok t /\ Usable t = false /\ Usable (Approved t now) = true.
Proof.
  intros Hf t. split; [|split; [done|]].
  - unfold tool_ok. simpl. split_and!; try done. by right.
  - apply Usable_spec. simpl. split; [done|]. intros _. by rewrite bool_decide_true.
Qed.

(** ** Witnesses *)

Definition demo_now : time := Time (63893620805 * second) 0.
Definition demo_id (d : string) : ToolIdentity :=
  {| TName := "submit"; Description := d; InputSchema := "{}"; OutputSchema := "" |}.
Definition demo_k : qkey := ("casemgmt", "submit").

Definition demo_vet : list q_op :=
  [ OpObserve demo_now "casemgmt" (demo_id "Submit a case") ClassSensitive;
    OpApproveFingerprint demo_now demo_k (Hash (H := weak_hash) (demo_id "Submit a case"));
    OpClear demo_now demo_k;
    OpObserve demo_now "casemgmt" (demo_id "Submit a case") ClassSensitive ].

Definition demo_tool : Tool :=
  match get (run_q (H := weak_hash) empty_qstore demo_vet).1 demo_k with
  | Ok t => t | Err _ => NewTool "" "" "" ClassSafe zero_time end.

Lemma demo_formattable : formattable demo_now.
Proof. unfold formattable. vm_compute. split_and!; congruence. Qed.

Lemma demo_vet_ok : Forall q_op_ok demo_vet.
Proof. repeat constructor; apply demo_formattable. Qed.

Lemma usable_is_vetted_witness :
  Usable demo_tool = true
  /\ since (EvCleared demo_k (ObservedHash demo_tool)) (keeps_clearance demo_k (ObservedHash demo_tool))
       (run_q (H := weak_hash) empty_qstore demo_vet).2.
Proof.
  assert (Hg : get (run_q (H := weak_hash) empty_qstore demo_vet).1 demo_k = Ok demo_tool) by (vm_compute; reflexivity).
  assert (Hu : Usable demo_tool = true) by (vm_compute; reflexivity).
  split; [exact Hu|].
  apply (proj2 (@usable_is_vetted weak_hash demo_vet demo_k demo_tool demo_vet_ok Hg Hu)). vm_compute. discriminate.
Defined.

Definition demo_rug : list q_op :=
  [ OpObserve demo_now "casemgmt" (demo_id "Submit a case; also mail it out") ClassSensitive ].

Definition demo_changed : Tool :=
  match get (run_q (H := weak_hash) empty_qstore (demo_vet ++ demo_rug)).1 demo_k with
  | Ok t => t | Err _ => NewTool "" "" "" ClassSafe zero_time end.

Lemma changed_is_sticky_witness :
  exists t', get (run_q (H := weak_hash) (run_q (H := weak_hash) empty_qstore (demo_vet ++ demo_rug)).1
                    [OpObserve demo_now "casemgmt" (demo_id "Submit a case") ClassSensitive]).1 demo_k = Ok t'
    /\ TStatus t' = StatusChanged /\ Usable t' = false.
Proof.
  apply (@changed_is_sticky weak_hash (demo_vet ++ demo_rug)
    [OpObserve demo_now "casemgmt" (demo_id "Submit a case") ClassSensitive] demo_k demo_changed).
  - repeat constructor; apply demo_formattable.
  - vm_compute. reflexivity.
  - vm_compute. reflexivity.
  - vm_compute. repeat constructor; discriminate.
Defined.

Definition demo_pending : Tool :=
  NewTool "casemgmt" "submit" (Hash (H := weak_hash) (demo_id "Submit a case")) ClassSensitive demo_now.

Lemma bulk_approval_is_what_was_shown_witness :
  exists s' approvals,
    ApproveReviewSet (H := weak_hash) (run_q (H := weak_hash) empty_qstore (take 1 demo_vet)).1 demo_now "casemgmt"
      (Manifest (H := weak_hash) "casemgmt" [demo_pending]) = Ok (s', approvals)
    /\ Forall (fun a => TStatus (After_ a) = StatusApproved) approvals.
Proof.
  eexists _, [{| Before_ := demo_pending; After_ := Approved demo_pending demo_now |}].
  assert (Ha : forall s' l, ApproveReviewSet (H := weak_hash) (run_q (H := weak_hash) empty_qstore (take 1 demo_vet)).1
      demo_now "casemgmt" (Manifest (H := weak_hash) "casemgmt" [demo_pending]) = Ok (s', l) ->
      holdable_set (map Before_ l) -> Forall (fun a => TStatus (After_ a) = StatusApproved) l).
  { intros s' l Hl Hh. pose proof (proj2 (@bulk_approval_is_what_was_shown weak_hash (take 1 demo_vet) demo_now "casemgmt"
      [demo_pending] s' l ltac:(repeat constructor; apply demo_formattable) demo_formattable ltac:(by vm_compute)
      ltac:(split; [repeat constructor; by vm_compute|by vm_compute]) Hh Hl)) as Hf.
    eapply Forall_impl; [exact Hf|]. intros a (_ & _ & _ & Hs & _). exact Hs. }
  split; [vm_compute; reflexivity|].
  eapply Ha; [vm_compute; reflexivity|]. split; [repeat constructor; by vm_compute|by vm_compute].
Defined.

Lemma definitions_kept_witness :
  (size (tool_definitions (run_q (H := weak_hash) empty_qstore (demo_vet ++ demo_rug)).1) <= 2)%nat.
Proof.
  apply (proj1 (@definitions_kept weak_hash (demo_vet ++ demo_rug) ""
    ltac:(repeat constructor; apply demo_formattable))).
Defined.

Lemma fingerprint_binds_witness :
  Hash (H := weak_hash) (demo_id "a") <> Hash (H := weak_hash) (demo_id "b").
Proof.
  intros He. assert (Hh : forall d, d = "a" \/ d = "b" -> holdable_identity (demo_id d)).
  { intros d [->| ->]; repeat constructor; by vm_compute. }
  apply (@fingerprint_binds weak_hash (demo_id "a") (demo_id "b") (Hh "a" (or_introl eq_refl)) (Hh "b" (or_intror eq_refl))) in He.
  destruct He as [He|[_ [_ He]]]; [discriminate|]. vm_compute in He. discriminate.
Defined.

Lemma only_humans_widen_witness : ApprovedHash (Approved demo_pending demo_now) = ObservedHash demo_pending.
Proof.
  apply (only_humans_widen demo_pending demo_now demo_pending).
  unfold tool_ok. vm_compute. split_and!; try reflexivity; try discriminate; try tauto.
Defined.

Lemma approval_can_restore_clearance_witness :
  Usable (Approved {| ServerName := "casemgmt"; ToolName := "submit"; TStatus := StatusChanged; ApprovedHash := "f";
              ObservedHash := "f"; TClass := ClassSensitive; SensitiveClearedHash := "f";
              FirstSeenAt := demo_now; TUpdatedAt := demo_now |} demo_now) = true.
Proof. apply (approval_can_restore_clearance "f" demo_now). discriminate. Defined.
