(* ===== verification/Quota.v ===== *)
(** * The consumption quota ([internal/quota], [internal/quota/sqlite])

    Declared accounts and their plan, the charges one call incurs, the gate, and the counters: a
    table keyed by analyst, account and the text of the window's start.  A reservation runs in one
    transaction whose statements may fail ([faults]); what it returns and what it leaves in the table
    are both part of the model. *)
From Stdlib Require Import ZArith Lia Ascii.
From stdpp Require Import base strings list gmap sorting.
From S2P Require Import Prelude.
From S2P Require Import GoStrings.
From S2P Require Import GoTime.

(** ** Accounts *)

Record Provider := { PName : string; Upstream : string; Limit : Z; Window : Z; PTools : list string }.

#[global] Instance Provider_eq_dec : EqDecision Provider.
Proof. solve_decision. Defined.

Inductive provider_error :=
| PNameUntrimmed | PNameEmpty | NoUpstream | LimitNotPositive | WindowNotPositive | NoTools
| PToolEmpty | PToolTwice (tool : string).

(** The loop over an account's tools, with its [seen] set. *)
Fixpoint check_tools (seen : list string) (tools : list string) : list provider_error :=
  match tools with
  | [] => []
  | tool :: rest =>
      if blank tool then PToolEmpty :: check_tools seen rest
      else if bool_decide (tool ∈ seen) then PToolTwice tool :: check_tools seen rest
      else check_tools (tool :: seen) rest
  end.

Definition ValidateProvider (p : Provider) : list provider_error :=
  (if trimmed (PName p) then [] else [PNameUntrimmed])
  ++ (if blank (PName p) then [PNameEmpty] else [])
  ++ (if blank (Upstream p) then [NoUpstream] else [])
  ++ (if Limit p <=? 0 then [LimitNotPositive] else [])
  ++ (if Window p <=? 0 then [WindowNotPositive] else [])
  ++ (if bool_decide (PTools p = []) then [NoTools] else [])
  ++ check_tools [] (PTools p).

Definition WindowStart (p : Provider) (t : time) : time := Truncate (UTC t) (Window p).

(** ** Charges and reservations *)

Record Charge := { CProvider : string; CLimit : Z; CWindowStart : time; CWindowEnd : time }.

Definition Fits (c : Charge) (used : Z) : bool := used <=? CLimit c.

Definition ChargeWindow (c : Charge) : Z := Sub (CWindowEnd c) (CWindowStart c).

Inductive charge_error :=
| ChargeNoProvider | ChargeLimit | ChargeZeroStart | ChargeNotUTC | ChargeEnd
| NoAnalyst | NoToolName | ZeroClock | NoCharges | ChargedTwice (provider : string).

Definition ValidateCharge (c : Charge) : list charge_error :=
  (if blank (CProvider c) then [ChargeNoProvider] else [])
  ++ (if CLimit c <=? 0 then [ChargeLimit] else [])
  ++ (if IsZero (CWindowStart c) then [ChargeZeroStart] else [])
  ++ (if zone (CWindowStart c) =? 0 then [] else [ChargeNotUTC])
  ++ (if After (CWindowEnd c) (CWindowStart c) then [] else [ChargeEnd]).

Record Reservation := { Analyst : string; Charges_ : list Charge }.

Fixpoint check_charges (seen : list string) (cs : list Charge) : list charge_error :=
  match cs with
  | [] => []
  | c :: rest =>
      match ValidateCharge c with
      | [] =>
          if bool_decide (CProvider c ∈ seen) then ChargedTwice (CProvider c) :: check_charges seen rest
          else check_charges (CProvider c :: seen) rest
      | es => es ++ check_charges seen rest
      end
  end.

Definition ValidateReservation (r : Reservation) : list charge_error :=
  (if blank (Analyst r) then [NoAnalyst] else [])
  ++ (if bool_decide (Charges_ r = []) then [NoCharges] else [])
  ++ check_charges [] (Charges_ r).

Inductive quota_error :=
| ErrExhausted (provider : string) (limit window : Z) (resetsAt : time)
| ErrInvalidReservation (es : list charge_error)
| StoreFault                                    (* a statement, the begin or the commit failed *)
| ErrUnavailable (cause : quota_error).

Definition Exhausted (c : Charge) : quota_error :=
  ErrExhausted (CProvider c) (CLimit c) (ChargeWindow c) (UTC (CWindowEnd c)).

(** ** The plan *)

Record Plan := { providers : list Provider; byTool : gmap string (list Provider); free : gset string }.

Inductive plan_error :=
| InvalidProvider (es : list provider_error)
| DuplicateProvider (name : string)
| FreeEmpty
| FreeDuplicate (name : string)
| FreeAndCharged (name : string).

Fixpoint collect_providers (byName : list string) (acc ps : list Provider) : result plan_error (list Provider) :=
  match ps with
  | [] => Ok acc
  | p :: rest =>
      match ValidateProvider p with
      | [] =>
          if bool_decide (PName p ∈ byName) then Err (DuplicateProvider (PName p))
          else collect_providers (PName p :: byName) (acc ++ [p]) rest
      | es => Err (InvalidProvider es)
      end
  end.

(** [p.byTool[tool] = append(p.byTool[tool], provider)]. *)
Definition add_tool (p : Provider) (m : gmap string (list Provider)) (tool : string) : gmap string (list Provider) :=
  <[tool := default [] (m !! tool) ++ [p]]> m.

Definition index_tools (ps : list Provider) : gmap string (list Provider) :=
  foldl (fun m p => foldl (add_tool p) m (PTools p)) ∅ ps.

Fixpoint collect_free (idx : gmap string (list Provider)) (fr : gset string) (tools : list string) :
    result plan_error (gset string) :=
  match tools with
  | [] => Ok fr
  | tool :: rest =>
      let name := trim_space tool in
      if bool_decide (name = "") then Err FreeEmpty
      else if bool_decide (name ∈ fr) then Err (FreeDuplicate name)
      else match idx !! name with
           | Some _ => Err (FreeAndCharged name)
           | None => collect_free idx ({[name]} ∪ fr) rest
           end
  end.

Definition NewPlan (ps : list Provider) (freeTools : list string) : result plan_error Plan :=
  collected <-? collect_providers [] [] ps;;
  let sorted := sort_by PName collected in
  let idx := index_tools sorted in
  fr <-? collect_free idx ∅ freeTools;;
  Ok {| providers := sorted; byTool := idx; free := fr |}.

Definition IsDeclared (p : Plan) (tool : string) : bool :=
  match byTool p !! tool with
  | Some _ => true
  | None => bool_decide (tool ∈ free p)
  end.

Definition FreeTools (p : Plan) : list string := sort_strings (elements (free p)).

Definition charge_of (p : Provider) (now : time) : Charge :=
  let start := WindowStart p now in
  {| CProvider := PName p; CLimit := Limit p; CWindowStart := start; CWindowEnd := Add start (Window p) |}.

Definition Charges (p : Plan) (tool : string) (now : time) : list Charge :=
  map (fun pr => charge_of pr now) (default [] (byTool p !! tool)).

(** ** The counters *)

Abbreviation counter_key := (string * string * string)%type.
Abbreviation counters := (gmap (string * string * string) Z).

(** Which statements of a transaction the database fails. *)
Record faults := { begin_fails : bool; debit_fails : string -> bool; commit_fails : bool }.

Definition no_faults : faults := {| begin_fails := false; debit_fails := fun _ => false; commit_fails := false |}.

Definition key_of (analyst : string) (c : Charge) : counter_key :=
  (analyst, CProvider c, format_time (CWindowStart c)).

(** The upsert and the value it returns. *)
Definition debit (t : counters) (analyst : string) (c : Charge) : counters * Z :=
  let used := match t !! key_of analyst c with Some u => u + 1 | None => 1 end in
  (<[key_of analyst c := used]> t, used).

(** The loop over the charges inside the transaction. *)
Fixpoint debit_all (f : faults) (t : counters) (analyst : string) (cs : list Charge) : result quota_error counters :=
  match cs with
  | [] => Ok t
  | c :: rest =>
      if debit_fails f (CProvider c) then Err StoreFault
      else
        let (t', used) := debit t analyst c in
        if negb (Fits c used) then Err (Exhausted c) else debit_all f t' analyst rest
  end.

(** The table after the call, rolled back on every path but the last. *)
Definition Reserve (f : faults) (t : counters) (r : Reservation) : counters * result quota_error unit :=
  match ValidateReservation r with
  | [] =>
      if begin_fails f then (t, Err StoreFault)
      else match debit_all f t (Analyst r) (Charges_ r) with
           | Err e => (t, Err e)
           | Ok t' => if commit_fails f then (t, Err StoreFault) else (t', Ok tt)
           end
  | es => (t, Err (ErrInvalidReservation es))
  end.

(** ** The gate *)

Definition GateAdmit (p : Plan) (f : faults) (t : counters) (analyst tool : string) (now : time) :
    counters * result quota_error unit :=
  if bool_decide (providers p = []) then (t, Ok tt)
  else if blank analyst then (t, Err (ErrUnavailable (ErrInvalidReservation [NoAnalyst])))
  else if blank tool then (t, Err (ErrUnavailable (ErrInvalidReservation [NoToolName])))
  else if IsZero now then (t, Err (ErrUnavailable (ErrInvalidReservation [ZeroClock])))
  else
    let charges := Charges p tool now in
    if bool_decide (charges = []) then (t, Ok tt)
    else
      let (t', res) := Reserve f t {| Analyst := analyst; Charges_ := charges |} in
      (t', match res with
           | Ok _ => Ok tt
           | Err (ErrExhausted pr l w at_) => Err (ErrExhausted pr l w at_)
           | Err e => Err (ErrUnavailable e)
           end).

(** ** An analyst's own standing ([self.go]) *)

Record Standing := { SProvider : string; SLimit : Z; SWindow : Z; Used : Z; ResetsAt : time }.

(** [SpentBy] of the adapter: one read per charge; [None] when a read fails. *)
Definition SpentBy (db : option counters) (analyst : string) (cs : list Charge) : option (list Z) :=
  match db with
  | None => None
  | Some t => Some (map (fun c => default 0 (t !! (analyst, CProvider c, format_time (UTC (CWindowStart c))))) cs)
  end.

Inductive standing_error := EmptyAnalyst | ReadFailed | WrongCount.

Definition standing_of (p : Provider) (now : time) (used : Z) : Standing :=
  {| SProvider := PName p; SLimit := Limit p; SWindow := Window p; Used := used;
     ResetsAt := Add (WindowStart p now) (Window p) |}.

(** [self] is the optional reader; the budgets come back with -1 when it cannot answer. *)
Definition StandingOf (p : Plan) (self : option (string -> list Charge -> option (list Z))) (analyst : string)
    (tools : list string) (now : time) : list Standing * option standing_error :=
  if bool_decide (providers p = []) || bool_decide (tools = []) then ([], None)
  else
    let named := filter (fun pr => existsb (fun t => bool_decide (t ∈ tools)) (PTools pr) = true) (providers p) in
    let charges := map (fun pr => charge_of pr now) named in
    let out := map (fun pr => standing_of pr now (-1)) named in
    match self with
    | None => (out, None)
    | Some read =>
        if bool_decide (out = []) then (out, None)
        else if bool_decide (analyst = "") then (out, Some EmptyAnalyst)
        else match read analyst charges with
             | None => (out, Some ReadFailed)
             | Some used =>
                 if negb (length used =? length out)%nat then (out, Some WrongCount)
                 else (zip_with (fun pr u => standing_of pr now u) named used, None)
             end
    end.

(** ** Facts about the plan *)

Lemma check_tools_NoDup seen tools :
  check_tools seen tools = [] -> NoDup tools /\ Forall (fun t => t ∉ seen) tools /\ Forall (fun t => blank t = false) tools.
Proof.
  revert seen. induction tools as [|t tools IH]; intros seen; simpl; [by repeat constructor|].
  destruct (blank t) eqn:Hb; [done|]. case_bool_decide as Hs; [done|].
  intros (Hd & Hf & Hbl)%IH. split_and!.
  - constructor; [|done]. intros Hin. rewrite Forall_forall in Hf. apply (Hf t Hin). by left.
  - constructor; [done|]. eapply Forall_impl; [exact Hf|]. intros x Hx Hin. apply Hx. by right.
  - by constructor.
Qed.

Lemma ValidateProvider_ok p :
  ValidateProvider p = [] -> 0 < Limit p /\ 0 < Window p /\ NoDup (PTools p) /\ PTools p <> [] /\ blank (PName p) = false.
Proof.
  unfold ValidateProvider. intros Hv.
  apply app_eq_nil in Hv as [_ Hv]. apply app_eq_nil in Hv as [Hn Hv]. apply app_eq_nil in Hv as [_ Hv].
  apply app_eq_nil in Hv as [Hl Hv]. apply app_eq_nil in Hv as [Hw Hv]. apply app_eq_nil in Hv as [Ht Hv].
  apply check_tools_NoDup in Hv as [Hd _].
  destruct (Z.leb_spec (Limit p) 0), (Z.leb_spec (Window p) 0); try done.
  case_bool_decide; [done|]. by destruct (blank (PName p)).
Qed.

Lemma collect_providers_Ok byName acc ps l :
  collect_providers byName acc ps = Ok l ->
  l = acc ++ ps /\ Forall (fun p => ValidateProvider p = []) ps /\ NoDup (map PName ps)
  /\ Forall (fun p => PName p ∉ byName) ps.
Proof.
  revert byName acc. induction ps as [|p ps IH]; intros byName acc; simpl.
  { intros [= <-]. rewrite app_nil_r. by repeat constructor. }
  destruct (ValidateProvider p) eqn:Hv; [|done]. case_bool_decide as Hb; [done|].
  intros (-> & Hf & Hd & Hn)%IH. rewrite <- app_assoc. split_and!; [done|by constructor| |].
  - constructor; [|done]. intros (q & Hq & Hin)%list_elem_of_In%in_map_iff. rewrite Forall_forall in Hn.
    apply (Hn q); [by apply list_elem_of_In|]. rewrite Hq. by left.
  - constructor; [done|]. eapply Forall_impl; [exact Hn|]. intros q Hq Hin. apply Hq. by right.
Qed.

Lemma add_tools_lookup p m tools tool :
  NoDup tools ->
  foldl (add_tool p) m tools !! tool
  = if decide (tool ∈ tools) then Some (default [] (m !! tool) ++ [p]) else m !! tool.
Proof.
  revert m. induction tools as [|x tools IH]; intros m Hd; cbn [foldl].
  { case_decide as Hin; [by apply elem_of_nil in Hin|done]. }
  apply NoDup_cons in Hd as [Hx Hd]. rewrite IH by done. unfold add_tool. rewrite lookup_insert.
  repeat case_decide; subst; rewrite ?elem_of_cons in *; simpl; try done; naive_solver.
Qed.

Definition spends (tool : string) (ps : list Provider) : list Provider := filter (fun p => tool ∈ PTools p) ps.

Lemma index_tools_lookup ps tool :
  Forall (fun p => NoDup (PTools p)) ps ->
  default [] (index_tools ps !! tool) = spends tool ps
  /\ (index_tools ps !! tool = None <-> spends tool ps = []).
Proof.
  unfold index_tools. intros Hf.
  assert (H : forall m, let m' := foldl (fun m p => foldl (add_tool p) m (PTools p)) m ps in
    default [] (m' !! tool) = default [] (m !! tool) ++ spends tool ps
    /\ (m' !! tool = None <-> m !! tool = None /\ spends tool ps = [])).
  { induction Hf as [|p ps Hp _ IH]; intros m; simpl.
    - rewrite app_nil_r. tauto.
    - destruct (IH (foldl (add_tool p) m (PTools p))) as [IH1 IH2]. rewrite IH1, IH2, add_tools_lookup by done.
      unfold spends. rewrite filter_cons. case_decide; simpl; [by rewrite <- app_assoc; split; [|naive_solver]|].
      done. }
  destruct (H ∅) as [H1 H2]. rewrite lookup_empty in *. simpl in *. split; [done|]. rewrite H2. tauto.
Qed.

(** What a plan that [NewPlan] built holds. *)
Definition plan_wf (p : Plan) : Prop :=
  Forall (fun pr => ValidateProvider pr = []) (providers p) /\ NoDup (map PName (providers p))
  /\ (forall tool, default [] (byTool p !! tool) = spends tool (providers p))
  /\ (forall tool, byTool p !! tool = None <-> spends tool (providers p) = [])
  /\ (forall tool, tool ∈ free p -> spends tool (providers p) = []).

Lemma collect_free_Ok idx fr tools fr' :
  collect_free idx fr tools = Ok fr' ->
  (forall t, t ∈ fr' <-> t ∈ fr \/ exists x, x ∈ tools /\ t = trim_space x)
  /\ ((forall t, t ∈ fr -> idx !! t = None) -> forall t, t ∈ fr' -> idx !! t = None).
Proof.
  revert fr. induction tools as [|x tools IH]; intros fr; simpl.
  { intros [= <-]. split; [set_solver|auto]. }
  case_bool_decide; [done|]. case_bool_decide; [done|]. destruct (idx !! trim_space x) eqn:Hi; [done|].
  intros [IH1 IH2]%IH. split.
  - intros t. rewrite IH1, elem_of_union, elem_of_singleton. setoid_rewrite elem_of_cons. naive_solver.
  - intros Hf. apply IH2. intros t. rewrite elem_of_union, elem_of_singleton. intros [->|?]; auto.
Qed.

Lemma NewPlan_inv ps fr p :
  NewPlan ps fr = Ok p -> providers p = sort_by PName ps /\ plan_wf p
  /\ (forall t, t ∈ free p <-> exists x, x ∈ fr /\ t = trim_space x).
Proof.
  unfold NewPlan. intros (l & Hc & H)%rbind_Ok_inv. cbv zeta in H. apply rbind_Ok_inv in H as (f & Hf & [= <-]).
  apply collect_providers_Ok in Hc as (-> & Hv & Hd & _). simpl in *.
  assert (Hn : Forall (fun p => NoDup (PTools p)) (sort_by PName ps)).
  { rewrite sort_by_Permutation. eapply Forall_impl; [exact Hv|]. by intros q (_ & _ & ? & _)%ValidateProvider_ok. }
  pose proof (fun t => index_tools_lookup (sort_by PName ps) t Hn) as Hi.
  apply collect_free_Ok in Hf as [Hf1 Hf2]. split; [done|]. split.
  - unfold plan_wf. simpl. split_and!.
    + by rewrite sort_by_Permutation.
    + by rewrite sort_by_Permutation.
    + apply Hi.
    + apply Hi.
    + intros t Ht. apply Hi. by apply Hf2; [set_solver|].
  - intros t. rewrite Hf1. set_solver.
Qed.

Lemma Charges_eq p tool now : plan_wf p -> Charges p tool now = map (fun pr => charge_of pr now) (spends tool (providers p)).
Proof. intros (_ & _ & Hb & _). unfold Charges. by rewrite Hb. Qed.

(** ** Facts about one reservation *)

Definition used_by (t : counters) (analyst : string) (c : Charge) : Z := default 0 (t !! key_of analyst c).

Lemma debit_eq t a c : debit t a c = (<[key_of a c := used_by t a c + 1]> t, used_by t a c + 1).
Proof. unfold debit, used_by. by destruct (t !! key_of a c). Qed.

Lemma debit_all_Ok f t a cs t' :
  NoDup (map (key_of a) cs) -> debit_all f t a cs = Ok t' ->
  Forall (fun c => used_by t a c + 1 <= CLimit c /\ t' !! key_of a c = Some (used_by t a c + 1)) cs
  /\ forall k, k ∉ map (key_of a) cs -> t' !! k = t !! k.
Proof.
  revert t. induction cs as [|c cs IH]; intros t; cbn [debit_all map].
  { intros _ [= <-]. split; [constructor|done]. }
  intros [Hc Hd]%NoDup_cons. destruct (debit_fails f (CProvider c)); [done|]. rewrite debit_eq.
  unfold Fits. destruct (Z.leb_spec (used_by t a c + 1) (CLimit c)) as [Hl|]; simpl; [|done].
  intros [Hf Ho]%(IH _ Hd). split.
  - constructor.
    + split; [done|]. rewrite Ho by done. by rewrite lookup_insert_eq.
    + rewrite Forall_forall in *. intros c' Hin. specialize (Hf c' Hin). unfold used_by in *.
      rewrite lookup_insert_ne in Hf; [done|]. intros He. apply Hc. rewrite He.
      apply list_elem_of_In, in_map. by apply list_elem_of_In.
  - intros k. rewrite not_elem_of_cons. intros [Hk1 Hk2]. rewrite Ho by done. by rewrite lookup_insert_ne.
Qed.

Lemma debit_all_total t a cs :
  NoDup (map (key_of a) cs) -> Forall (fun c => used_by t a c + 1 <= CLimit c) cs ->
  exists t', debit_all no_faults t a cs = Ok t'.
Proof.
  revert t. induction cs as [|c cs IH]; intros t; cbn [debit_all map]; [eauto|].
  intros [Hc Hd]%NoDup_cons [Hl Hf]%Forall_cons. rewrite debit_eq. unfold Fits.
  rewrite (proj2 (Z.leb_le _ _) Hl). simpl. apply IH; [done|].
  rewrite Forall_forall in *. intros c' Hin. unfold used_by in *. rewrite lookup_insert_ne; [by apply Hf|].
  intros He. apply Hc. rewrite He. apply list_elem_of_In, in_map. by apply list_elem_of_In.
Qed.

Lemma debit_all_Err f t a cs e :
  NoDup (map (key_of a) cs) -> debit_all f t a cs = Err e ->
  e = StoreFault \/ exists c, c ∈ cs /\ e = Exhausted c /\ CLimit c < used_by t a c + 1.
Proof.
  revert t. induction cs as [|c cs IH]; intros t; cbn [debit_all map]; [done|].
  intros [Hc Hd]%NoDup_cons. destruct (debit_fails f (CProvider c)); [intros [= <-]; by left|]. rewrite debit_eq.
  unfold Fits. destruct (Z.leb_spec (used_by t a c + 1) (CLimit c)) as [Hl|Hl]; simpl.
  - intros [?|(c' & Hin & -> & Hlt)]%(IH _ Hd); [by left|right]. exists c'. split_and!; [by right|done|].
    unfold used_by in *. rewrite lookup_insert_ne in Hlt; [done|]. intros He. apply Hc. rewrite He.
    apply list_elem_of_In, in_map. by apply list_elem_of_In.
  - intros [= <-]. right. exists c. split_and!; [by left|done|lia].
Qed.

Lemma check_charges_ok seen cs :
  check_charges seen cs = [] ->
  Forall (fun c => ValidateCharge c = []) cs /\ NoDup (map CProvider cs) /\ Forall (fun c => CProvider c ∉ seen) cs.
Proof.
  revert seen. induction cs as [|c cs IH]; intros seen; simpl; [by repeat constructor|].
  destruct (ValidateCharge c) eqn:Hv; [|done]. case_bool_decide as Hs; [done|].
  intros (Hf & Hd & Hn)%IH. split_and!; [by constructor| |].
  - constructor; [|done]. intros (q & Hq & Hin)%list_elem_of_In%in_map_iff. rewrite Forall_forall in Hn.
    apply (Hn q); [by apply list_elem_of_In|]. rewrite Hq. by left.
  - constructor; [done|]. eapply Forall_impl; [exact Hn|]. intros q Hq Hin. apply Hq. by right.
Qed.

Lemma NoDup_key_of a cs : NoDup (map CProvider cs) -> NoDup (map (key_of a) cs).
Proof.
  induction cs as [|c cs IH]; simpl; [constructor|]. intros [Hc Hd]%NoDup_cons. constructor; [|auto].
  intros (q & Hq & Hin)%list_elem_of_In%in_map_iff. apply Hc. unfold key_of in Hq. injection Hq as Hp _.
  rewrite <- Hp. by apply list_elem_of_In, in_map.
Qed.

Lemma ValidateReservation_ok r :
  ValidateReservation r = [] -> NoDup (map (key_of (Analyst r)) (Charges_ r)) /\ Charges_ r <> [].
Proof.
  unfold ValidateReservation. intros Hv. apply app_eq_nil in Hv as [_ Hv]. apply app_eq_nil in Hv as [Hn Hv].
  apply check_charges_ok in Hv as (_ & Hd & _). split; [by apply NoDup_key_of|].
  by case_bool_decide.
Qed.
