(* ===== verification/QuotaHistory.v ===== *)
(** * Histories of the quota: what the counters promise

    A run of calls through one gate over one table, with any database failures, in any order and at
    any clock readings.  The theorems: the counters are the admitted calls, no analyst passes a
    limit within a window nor twice the limit within any interval of a window's length, nothing is
    debited by a refused call, and an analyst is shown their own count. *)
From Stdlib Require Import ZArith Lia Ascii.
From stdpp Require Import base strings list gmap sorting.
From S2P Require Import Prelude.
From S2P Require Import GoStrings.
From S2P Require Import GoTime.
From S2P Require Import Quota.

Record gcall := { gfaults : faults; ganalyst : string; gtool : string; gnow : time }.

(** The table and the log of calls with what each was answered. *)
Definition gate_state : Type := counters * list (gcall * result quota_error unit).

Definition gate_step (p : Plan) (st : gate_state) (c : gcall) : gate_state :=
  let (t', res) := GateAdmit p (gfaults c) st.1 (ganalyst c) (gtool c) (gnow c) in (t', st.2 ++ [(c, res)]).

Definition run_gate (p : Plan) (calls : list gcall) : gate_state := foldl (gate_step p) (∅, []) calls.

(** The admitted calls of an analyst to an account's tools whose clock satisfies [P]. *)
Definition admitted_by (a : string) (pr : Provider) (P : time -> bool) (e : gcall * result quota_error unit) : bool :=
  is_ok e.2 && bool_decide (ganalyst e.1 = a) && bool_decide (gtool e.1 ∈ PTools pr) && P (gnow e.1).

Definition count (a : string) (pr : Provider) (P : time -> bool) (log : list (gcall * result quota_error unit)) : Z :=
  Z.of_nat (length (List.filter (admitted_by a pr P) log)).

(** Calls of one window, by its start or by the text its counter is keyed by. *)
Definition in_window (pr : Provider) (w : time) (now : time) : bool := bool_decide (WindowStart pr now = w).

Definition in_text (pr : Provider) (k : string) (now : time) : bool :=
  bool_decide (format_time (WindowStart pr now) = k).

#[local] Opaque format_time.

(** ** One call *)

Lemma GateAdmit_cases p f t a tool now t' res :
  plan_wf p -> GateAdmit p f t a tool now = (t', res) ->
  (exists e, res = Err e /\ t' = t
     /\ ((exists c, e = ErrUnavailable c)
         \/ exists pr, pr ∈ providers p /\ tool ∈ PTools pr /\ e = Exhausted (charge_of pr now)
              /\ Limit pr <= used_by t a (charge_of pr now)))
  \/ res = Ok tt
     /\ (spends tool (providers p) = [] /\ t' = t
         \/ (forall pr, pr ∈ providers p -> tool ∈ PTools pr ->
               used_by t a (charge_of pr now) + 1 <= Limit pr
               /\ t' !! key_of a (charge_of pr now) = Some (used_by t a (charge_of pr now) + 1))
            /\ (forall k, (forall pr, pr ∈ providers p -> tool ∈ PTools pr -> k <> key_of a (charge_of pr now)) ->
                  t' !! k = t !! k)).
Proof.
  intros Hwf. unfold GateAdmit. rewrite (Charges_eq p tool now Hwf).
  case_bool_decide as Hp; [intros [= <- <-]; right; split; [done|left]; by rewrite Hp|].
  destruct (blank a); [intros [= <- <-]; left; eexists; split_and!; [done|done|left; eauto]|].
  destruct (blank tool); [intros [= <- <-]; left; eexists; split_and!; [done|done|left; eauto]|].
  destruct (IsZero now); [intros [= <- <-]; left; eexists; split_and!; [done|done|left; eauto]|].
  set (cs := map (fun pr => charge_of pr now) (spends tool (providers p))).
  case_bool_decide as Hc.
  { intros [= <- <-]. right. split; [done|left]. split; [|done].
    subst cs. by destruct (spends tool (providers p)). }
  assert (Hin : forall c, c ∈ cs <-> exists pr, pr ∈ providers p /\ tool ∈ PTools pr /\ c = charge_of pr now).
  { intros c. subst cs. rewrite list_elem_of_In, in_map_iff. setoid_rewrite <- list_elem_of_In.
    unfold spends. setoid_rewrite list_elem_of_filter. naive_solver. }
  unfold Reserve. cbn [Analyst Charges_].
  destruct (ValidateReservation {| Analyst := a; Charges_ := cs |}) eqn:Hv.
  2:{ intros [= <- <-]. left. eexists. split_and!; [done|done|left; eauto]. }
  apply ValidateReservation_ok in Hv as [Hd _]. cbn [Analyst Charges_] in Hd.
  destruct (begin_fails f); [intros [= <- <-]; left; eexists; split_and!; [done|done|left; eauto]|].
  destruct (debit_all f t a cs) as [t1|e] eqn:Hda.
  - destruct (commit_fails f); [intros [= <- <-]; left; eexists; split_and!; [done|done|left; eauto]|].
    intros [= <- <-]. right. split; [done|right]. apply debit_all_Ok in Hda as [Hf Ho]; [|done].
    rewrite Forall_forall in Hf. split.
    + intros pr Hpr Ht. apply (Hf (charge_of pr now)). apply Hin. eauto.
    + intros k Hk. apply Ho. intros (c & <- & Hc')%list_elem_of_In%in_map_iff.
      apply list_elem_of_In, Hin in Hc' as (pr & Hpr & Ht & ->). by apply (Hk pr).
  - apply debit_all_Err in Hda as [->|(c & Hc' & -> & Hl)]; [..|done].
    + intros [= <- <-]. left. eexists. split_and!; [done|done|left; eauto].
    + intros [= <- <-]. left. eexists. split_and!; [done|done|right].
      apply Hin in Hc' as (pr & Hpr & Ht & ->). exists pr. split_and!; [done..|]. simpl in Hl. lia.
Qed.

(** ** The counters are the admitted calls *)

Definition counts_ok (p : Plan) (st : gate_state) : Prop :=
  forall a pr k, pr ∈ providers p ->
    default 0 (st.1 !! (a, PName pr, k)) = count a pr (in_text pr k) st.2
    /\ count a pr (in_text pr k) st.2 <= Limit pr.

Lemma count_snoc a pr P log e :
  count a pr P (log ++ [e]) = count a pr P log + (if admitted_by a pr P e then 1 else 0).
Proof.
  unfold count. rewrite List.filter_app, length_app. simpl.
  destruct (admitted_by a pr P e); simpl; lia.
Qed.

Lemma plan_wf_name p pr pr' :
  plan_wf p -> pr ∈ providers p -> pr' ∈ providers p -> PName pr = PName pr' -> pr = pr'.
Proof.
  intros (_ & Hd & _). generalize (providers p) Hd. clear. intros l. induction l as [|x l IH]; simpl.
  { by intros _ ?%elem_of_nil. }
  intros [Hx Hd]%NoDup_cons. rewrite !elem_of_cons. intros [->|H1] [->|H2] He; auto.
  - destruct Hx. rewrite He. by apply list_elem_of_In, in_map, list_elem_of_In.
  - destruct Hx. rewrite <- He. by apply list_elem_of_In, in_map, list_elem_of_In.
Qed.

Lemma plan_wf_limit p pr : plan_wf p -> pr ∈ providers p -> 0 < Limit pr /\ 0 < Window pr.
Proof.
  intros (Hf & _) Hin. rewrite Forall_forall in Hf. by destruct (ValidateProvider_ok pr (Hf pr Hin)) as (? & ? & _).
Qed.

Lemma gate_step_counts p st c : plan_wf p -> counts_ok p st -> counts_ok p (gate_step p st c).
Proof.
  intros Hwf Hok a pr k Hpr. unfold gate_step.
  destruct (GateAdmit p (gfaults c) st.1 (ganalyst c) (gtool c) (gnow c)) as [t' res] eqn:Hg. simpl.
  rewrite count_snoc. destruct (Hok a pr k Hpr) as [H1 H2].
  apply GateAdmit_cases in Hg as [(e & -> & -> & _)|[-> Hc]]; [| |done].
  { unfold admitted_by. simpl. split; lia. }
  unfold admitted_by. cbn [is_ok fst snd andb].
  destruct Hc as [[Hs ->]|[Hin Hout]].
  - assert (Hn : gtool c ∉ PTools pr).
    { intros Ht. assert (Hx : pr ∈ spends (gtool c) (providers p)) by by apply list_elem_of_filter.
      rewrite Hs in Hx. by apply elem_of_nil in Hx. }
    rewrite (bool_decide_false (gtool c ∈ PTools pr)), andb_false_r by done. simpl. split; lia.
  - destruct (bool_decide (ganalyst c = a) && bool_decide (gtool c ∈ PTools pr) && in_text pr k (gnow c)) eqn:Hb.
    + apply andb_true_iff in Hb as [[Ha Ht]%andb_true_iff Hk].
      unfold in_text in Hk. apply bool_decide_eq_true in Ha, Ht, Hk. subst a k.
      destruct (Hin pr Hpr Ht) as [Hl Hset]. unfold used_by, key_of in Hl, Hset.
      cbn [charge_of CProvider CWindowStart] in Hl, Hset. rewrite Hset. cbn [from_option id]. split; lia.
    + rewrite Hout; [split; lia|]. intros pr' Hpr' Ht' He. unfold key_of in He. injection He as -> Hn ->.
      cbn [charge_of CProvider] in Hn. assert (pr = pr') as <- by by apply (plan_wf_name p).
      unfold in_text in Hb. by rewrite !bool_decide_true in Hb.
Qed.

Lemma run_gate_snoc p calls c : run_gate p (calls ++ [c]) = gate_step p (run_gate p calls) c.
Proof. unfold run_gate. by rewrite foldl_app. Qed.

Lemma run_gate_counts p calls : plan_wf p -> counts_ok p (run_gate p calls).
Proof.
  intros Hwf. induction calls as [|c calls IH] using rev_ind.
  - intros a pr k Hpr. simpl. rewrite lookup_empty. pose proof (plan_wf_limit p pr Hwf Hpr).
    unfold count. simpl. lia.
  - rewrite run_gate_snoc. by apply gate_step_counts.
Qed.

Lemma count_le a pr P Q log : (forall now, P now = true -> Q now = true) -> count a pr P log <= count a pr Q log.
Proof.
  intros Hpq. unfold count. induction log as [|e log IH]; simpl; [lia|].
  unfold admitted_by in *. specialize (Hpq (gnow e.1)).
  destruct (P (gnow e.1)); [rewrite Hpq by done|]; rewrite ?andb_true_r, ?andb_false_r; repeat case_match; simpl; lia.
Qed.

Lemma count_or a pr P Q R log :
  (forall now, R now = true -> P now = true \/ Q now = true) ->
  count a pr R log <= count a pr P log + count a pr Q log.
Proof.
  intros Hr. unfold count. induction log as [|e log IH]; simpl; [lia|].
  unfold admitted_by in *. specialize (Hr (gnow e.1)).
  destruct (is_ok e.2 && bool_decide (ganalyst e.1 = a) && bool_decide (gtool e.1 ∈ PTools pr)); simpl; [|lia].
  destruct (R (gnow e.1)); [destruct Hr as [-> | ->]; [done|..]|]; repeat case_match; simpl; lia.
Qed.

Lemma count_window_le p calls a pr w :
  plan_wf p -> pr ∈ providers p -> count a pr (in_window pr w) (run_gate p calls).2 <= Limit pr.
Proof.
  intros Hwf Hpr. destruct (run_gate_counts p calls Hwf a pr (format_time w) Hpr) as [_ Hl].
  etrans; [|exact Hl]. apply count_le. intros now. unfold in_window, in_text. rewrite !bool_decide_eq_true. congruence.
Qed.

(** An interval of a window's length meets two windows. *)
Lemma interval_two_windows pr s now :
  0 < Window pr -> inst s <= inst now < inst s + Window pr ->
  in_window pr (WindowStart pr s) now = true \/ in_window pr (Add (WindowStart pr s) (Window pr)) now = true.
Proof.
  intros Hw Hn. unfold in_window. rewrite !bool_decide_eq_true. unfold WindowStart, Truncate, Add, UTC. simpl.
  rewrite (proj2 (Z.leb_gt (Window pr) 0)) by lia. simpl.
  set (w := Window pr) in *. pose proof (Z_div_mod_eq_full (inst s) w). pose proof (Z_div_mod_eq_full (inst now) w).
  pose proof (Z.mod_pos_bound (inst s) w Hw). pose proof (Z.mod_pos_bound (inst now) w Hw).
  assert (Hq : inst now / w = inst s / w \/ inst now / w = inst s / w + 1) by nia.
  destruct Hq as [Hq|Hq]; [left|right]; f_equal; nia.
Qed.

(** The texts of two windows' starts differ when the windows do. *)
Definition window_formattable (pr : Provider) (now : time) : Prop := 0 <= year_of (WindowStart pr now) <= 9999.

Lemma window_text_inj pr now now' :
  window_formattable pr now -> window_formattable pr now' ->
  format_time (WindowStart pr now) = format_time (WindowStart pr now') -> WindowStart pr now = WindowStart pr now'.
Proof.
  assert (Hz : forall n, zone (WindowStart pr n) = 0).
  { intros n. unfold WindowStart, Truncate. by case_match. }
  intros H1 H2. apply format_time_inj; unfold formattable; rewrite Hz; split_and!; try apply H1; try apply H2; done.
Qed.

(** ** Properties *)

(** C25 [quota_bound]: with the accounts [NewPlan] accepted, whatever calls arrive, in whatever order,
    at whatever clock readings and with whatever database failures, an analyst is never let through
    more than [Limit] times to an account's tools within one accounting window, and never more than
    twice [Limit] within any interval of the window's length. *)
Theorem quota_bound ps freeTools p calls a pr :
  NewPlan ps freeTools = Ok p -> pr ∈ providers p ->
  (forall w, count a pr (in_window pr w) (run_gate p calls).2 <= Limit pr)
  /\ (forall s, count a pr (fun now => (inst s <=? inst now) && (inst now <? inst s + Window pr)) (run_gate p calls).2
        <= 2 * Limit pr).
Proof.
  intros (_ & Hwf & _)%NewPlan_inv Hpr. split; [intros; by apply (count_window_le p)|].
  intros s. destruct (plan_wf_limit p pr Hwf Hpr) as [_ Hw].
  pose proof (count_window_le p calls a pr (WindowStart pr s) Hwf Hpr).
  pose proof (count_window_le p calls a pr (Add (WindowStart pr s) (Window pr)) Hwf Hpr).
  pose proof (count_or a pr (in_window pr (WindowStart pr s)) (in_window pr (Add (WindowStart pr s) (Window pr)))
    (fun now => (inst s <=? inst now) && (inst now <? inst s + Window pr)) (run_gate p calls).2) as Hor.
  etrans; [apply Hor|lia]. intros now. rewrite andb_true_iff, Z.leb_le, Z.ltb_lt.
  by apply interval_two_windows.
Qed.

(** Fact [refusals_are_exact]: every refusal is one of two classes and debits nothing; an exhausted
    one names an account of the tool whose whole limit the analyst has been let through in this very
    window, and an admitted call debits every account of the tool, each still within its limit. *)
Theorem refusals_are_exact ps freeTools p calls f a tool now t' res :
  NewPlan ps freeTools = Ok p ->
  let st := run_gate p calls in
  (forall pr e, pr ∈ providers p -> e ∈ st.2 -> window_formattable pr (gnow e.1)) ->
  (forall pr, pr ∈ providers p -> window_formattable pr now) ->
  GateAdmit p f st.1 a tool now = (t', res) ->
  match res with
  | Err (ErrExhausted name limit _ _) =>
      t' = st.1 /\ exists pr, pr ∈ providers p /\ tool ∈ PTools pr /\ name = PName pr /\ limit = Limit pr
        /\ count a pr (in_window pr (WindowStart pr now)) st.2 = Limit pr
  | Err (ErrUnavailable _) => t' = st.1
  | Err _ => False
  | Ok _ => forall pr, pr ∈ providers p -> tool ∈ PTools pr ->
      count a pr (in_window pr (WindowStart pr now)) st.2 < Limit pr
      /\ default 0 (t' !! key_of a (charge_of pr now)) = default 0 (st.1 !! key_of a (charge_of pr now)) + 1
  end.
Proof.
  intros (_ & Hwf & _)%NewPlan_inv st Hlog Hnow Hg.
  assert (Hcount : forall pr, pr ∈ providers p ->
    used_by st.1 a (charge_of pr now) = count a pr (in_window pr (WindowStart pr now)) st.2).
  { intros pr Hpr. destruct (run_gate_counts p calls Hwf a pr (format_time (WindowStart pr now)) Hpr) as [H1 _].
    unfold used_by, key_of, charge_of. cbn [CProvider CWindowStart]. fold st in H1. rewrite H1.
    unfold count. f_equal. f_equal. apply filter_ext_in. intros e Hin%list_elem_of_In.
    unfold admitted_by. f_equal. unfold in_text, in_window. apply bool_decide_ext. split; [|congruence].
    apply window_text_inj; [by apply Hlog|by apply Hnow]. }
  apply GateAdmit_cases in Hg as [(e & -> & -> & [[c ->]|(pr & Hpr & Ht & -> & Hl)])|[-> Hc]]; [..|done].
  - done.
  - simpl. split; [done|]. exists pr. split_and!; try done. rewrite Hcount in Hl by done.
    pose proof (count_window_le p calls a pr (WindowStart pr now) Hwf Hpr). subst st. lia.
  - intros pr Hpr Ht. destruct Hc as [[Hs _]|[Hin _]].
    + exfalso. assert (Hx : pr ∈ spends tool (providers p)) by by apply list_elem_of_filter.
      rewrite Hs in Hx. by apply elem_of_nil in Hx.
    + destruct (Hin pr Hpr Ht) as [Hl Hset]. rewrite <- Hcount by done. split; [lia|]. by rewrite Hset.
Qed.

(** Fact [reserve_all_or_nothing]: a reservation debits every account it names by one, or nothing.
    When the database fails nothing, it succeeds exactly when it is well formed and every counter
    stays within its limit. *)
Theorem reserve_all_or_nothing f t r t' res :
  Reserve f t r = (t', res) ->
  match res with
  | Ok _ => Forall (fun c => t' !! key_of (Analyst r) c = Some (used_by t (Analyst r) c + 1)
                             /\ used_by t (Analyst r) c < CLimit c) (Charges_ r)
            /\ forall k, k ∉ map (key_of (Analyst r)) (Charges_ r) -> t' !! k = t !! k
  | Err e => t' = t
  end
  /\ (is_ok (Reserve no_faults t r).2 = true <->
      ValidateReservation r = [] /\ Forall (fun c => used_by t (Analyst r) c < CLimit c) (Charges_ r)).
Proof.
  intros Hr. split.
  - revert Hr. unfold Reserve. destruct (ValidateReservation r) eqn:Hv; [|by intros [= <- <-]].
    apply ValidateReservation_ok in Hv as [Hd _].
    destruct (begin_fails f); [by intros [= <- <-]|].
    destruct (debit_all f t (Analyst r) (Charges_ r)) eqn:Hda; [|by intros [= <- <-]].
    destruct (commit_fails f); [by intros [= <- <-]|]. intros [= <- <-].
    apply debit_all_Ok in Hda as [Hf Ho]; [|done]. split; [|done].
    eapply Forall_impl; [exact Hf|]. intros c [Hl Hs]. split; [done|lia].
  - unfold Reserve. destruct (ValidateReservation r) eqn:Hv; [|naive_solver].
    apply ValidateReservation_ok in Hv as [Hd _]. simpl. split.
    + destruct (debit_all no_faults t (Analyst r) (Charges_ r)) eqn:Hda; [|done]. intros _. split; [done|].
      apply debit_all_Ok in Hda as [Hf _]; [|done]. eapply Forall_impl; [exact Hf|]. simpl. intros c [? _]. lia.
    + intros [_ Hf]. destruct (debit_all_total t (Analyst r) (Charges_ r) Hd) as [t1 ->]; [|done].
      eapply Forall_impl; [exact Hf|]. simpl. intros c ?. lia.
Qed.

(** Fact [new_plan_exact]: the plan [NewPlan] builds charges a tool exactly to the accounts that list
    it, by name, one charge each at the declared limit; a tool is declared exactly when an account
    lists it or it was named free; and no tool is both. *)
Theorem new_plan_exact ps freeTools p tool now :
  NewPlan ps freeTools = Ok p ->
  Charges p tool now = map (fun pr => charge_of pr now) (filter (fun pr => tool ∈ PTools pr) (sort_by PName ps))
  /\ NoDup (map CProvider (Charges p tool now))
  /\ (IsDeclared p tool = true <->
      (exists pr, pr ∈ ps /\ tool ∈ PTools pr) \/ exists x, x ∈ freeTools /\ tool = trim_space x)
  /\ ~ ((exists pr, pr ∈ ps /\ tool ∈ PTools pr) /\ exists x, x ∈ freeTools /\ tool = trim_space x).
Proof.
  intros (Hs & Hwf & Hfr)%NewPlan_inv. rewrite (Charges_eq p tool now Hwf). rewrite Hs.
  assert (Hex : (exists pr, pr ∈ ps /\ tool ∈ PTools pr) <-> spends tool (providers p) <> []).
  { rewrite Hs. unfold spends. split.
    - intros (pr & Hin & Ht) He. assert (Hx : pr ∈ filter (fun p => tool ∈ PTools p) (sort_by PName ps)).
      { apply list_elem_of_filter. by rewrite elem_of_sort_by. }
      rewrite He in Hx. by apply elem_of_nil in Hx.
    - destruct (filter (fun p => tool ∈ PTools p) (sort_by PName ps)) as [|pr l] eqn:He; [done|]. intros _.
      assert (Hx : pr ∈ pr :: l) by by left. rewrite <- He, list_elem_of_filter, elem_of_sort_by in Hx. naive_solver. }
  destruct Hwf as (_ & Hd & _ & Hnone & Hfree). split_and!.
  - done.
  - rewrite map_map. simpl. eapply sublist_NoDup; [exact Hd|]. rewrite Hs.
    apply (fmap_sublist PName), sublist_filter.
  - unfold IsDeclared. destruct (byTool p !! tool) as [l|] eqn:Hb.
    + split; [|done]. intros _. left. apply Hex. intros He. apply Hnone in He. congruence.
    + rewrite bool_decide_eq_true, Hfr. apply Hnone in Hb. rewrite Hex. tauto.
  - intros [He Hf]. apply Hex in He. apply He, Hfree. by apply Hfr.
Qed.

(** Fact [standing_is_own_count]: an analyst's standing names, by account, exactly the budgets the
    tools they were served spend, each with the number of their own calls let through in the current
    window (no other analyst's) when the counters can be read, and with -1 otherwise. *)
Theorem standing_is_own_count ps freeTools p calls a tools now :
  NewPlan ps freeTools = Ok p -> a <> "" -> tools <> [] ->
  let st := run_gate p calls in
  (forall pr e, pr ∈ providers p -> e ∈ st.2 -> window_formattable pr (gnow e.1)) ->
  (forall pr, pr ∈ providers p -> window_formattable pr now) ->
  let named := filter (fun pr => existsb (fun t => bool_decide (t ∈ tools)) (PTools pr) = true) (providers p) in
  StandingOf p (Some (SpentBy (Some st.1))) a tools now
    = (map (fun pr => standing_of pr now (count a pr (in_window pr (WindowStart pr now)) st.2)) named, None)
  /\ (StandingOf p (Some (SpentBy None)) a tools now).1 = map (fun pr => standing_of pr now (-1)) named.
Proof.
  intros (_ & Hwf & _)%NewPlan_inv Ha Ht st Hlog Hnow named. unfold StandingOf. fold named.
  rewrite (bool_decide_false (tools = [])), (bool_decide_false (a = "")), orb_false_r by done.
  destruct (decide (providers p = [])) as [Hp|Hp].
  { rewrite bool_decide_true by done. subst named. by rewrite Hp. }
  rewrite bool_decide_false by done.
  assert (Hz : forall pr, UTC (WindowStart pr now) = WindowStart pr now).
  { intros pr. unfold WindowStart, Truncate. by case_match. }
  assert (Hu : forall pr, pr ∈ named ->
    default 0 (st.1 !! (a, CProvider (charge_of pr now), format_time (UTC (CWindowStart (charge_of pr now)))))
    = count a pr (in_window pr (WindowStart pr now)) st.2).
  { intros pr [_ Hpr]%list_elem_of_filter. cbn [charge_of CProvider CWindowStart]. rewrite Hz.
    destruct (run_gate_counts p calls Hwf a pr (format_time (WindowStart pr now)) Hpr) as [H1 _].
    fold st in H1. rewrite H1. unfold count. f_equal. f_equal. apply filter_ext_in. intros e Hin%list_elem_of_In.
    unfold admitted_by. f_equal. unfold in_text, in_window. apply bool_decide_ext. split; [|congruence].
    apply window_text_inj; [by apply Hlog|by apply Hnow]. }
  destruct (decide (named = [])) as [Hn|Hn]; [by rewrite Hn|].
  rewrite bool_decide_false by (by destruct named). split; [|done].
  cbn [SpentBy]. rewrite !length_map, Nat.eqb_refl. cbn [negb]. f_equal. clear Hn. clearbody named.
  induction named as [|pr l IH]; [done|]. cbn [map zip_with]. apply f_equal2.
  - apply f_equal. apply Hu. by left.
  - apply IH. intros pr' Hin. apply Hu. by right.
Qed.

(** ** Witnesses *)

Definition vt : Provider :=
  {| PName := "virustotal"; Upstream := "threatintel"; Limit := 2; Window := 24 * hour;
     PTools := ["threatintel.lookup_ip"; "threatintel.lookup_hash"] |}.
Definition abuse : Provider :=
  {| PName := "abusech"; Upstream := "threatintel"; Limit := 1; Window := hour; PTools := ["threatintel.lookup_hash"] |}.

Definition demo_plan : Plan :=
  match NewPlan [vt; abuse] ["threatintel.decode"] with
  | Ok p => p | Err _ => {| providers := []; byTool := ∅; free := ∅ |} end.

Definition midnight : time := Time (63893577600 * second) 0.

Definition demo_call (tool : string) (now : time) : gcall :=
  {| gfaults := no_faults; ganalyst := "u-ana"; gtool := tool; gnow := now |}.

(** Two calls in the last second of a day and two in the first second of the next: all admitted. *)
Definition demo_calls : list gcall :=
  [ demo_call "threatintel.lookup_ip" (Add midnight (-1)); demo_call "threatintel.lookup_ip" (Add midnight (-1));
    demo_call "threatintel.lookup_ip" (Add midnight (-1));
    demo_call "threatintel.lookup_ip" midnight; demo_call "threatintel.lookup_hash" midnight ].

Lemma demo_plan_ok : NewPlan [vt; abuse] ["threatintel.decode"] = Ok demo_plan.
Proof. vm_compute. reflexivity. Qed.

Lemma demo_providers : providers demo_plan = [abuse; vt].
Proof. vm_compute. reflexivity. Qed.

(** The bound of the second half is reached: four calls within two seconds against a limit of two. *)
Lemma quota_bound_witness :
  count "u-ana" vt (in_window vt (WindowStart vt midnight)) (run_gate demo_plan demo_calls).2 <= Limit vt
  /\ count "u-ana" vt (fun now => (inst (Add midnight (- second)) <=? inst now)
       && (inst now <? inst (Add midnight (- second)) + Window vt)) (run_gate demo_plan demo_calls).2 = 4.
Proof.
  split; [|vm_compute; reflexivity].
  apply (proj1 (quota_bound [vt; abuse] ["threatintel.decode"] demo_plan demo_calls "u-ana" vt demo_plan_ok
    ltac:(rewrite demo_providers; apply list_elem_of_further, list_elem_of_here))).
Defined.

Lemma demo_windows now : inst midnight - 10 * second <= inst now <= inst midnight + 10 * second ->
  forall pr, pr ∈ providers demo_plan -> window_formattable pr now.
Proof.
  rewrite demo_providers. intros Hn pr Hpr. unfold window_formattable.
  assert (Hb : exists d, WindowStart pr now = Time (inst midnight - d * hour) 0 /\ 0 <= d <= 24).
  { unfold WindowStart, Truncate, UTC.
    apply elem_of_cons in Hpr as [->|Hpr]; [|apply list_elem_of_singleton in Hpr as ->]; cbn [inst zone Window abuse vt].
    - destruct (Z_lt_ge_dec (inst now) (inst midnight)); [exists 1|exists 0]; (split; [|lia]); simpl; f_equal;
        unfold midnight, hour, minute, second in *; cbn [inst] in *; lia.
    - destruct (Z_lt_ge_dec (inst now) (inst midnight)); [exists 24|exists 0]; (split; [|lia]); simpl; f_equal;
        unfold midnight, hour, minute, second in *; cbn [inst] in *; lia. }
  destruct Hb as (d & -> & Hd).
  assert (Hall : forallb (fun n => let y := year_of (Time (inst midnight - Z.of_nat n * hour) 0) in
    (0 <=? y) && (y <=? 9999)) (seq 0 25) = true) by (vm_compute; reflexivity).
  rewrite forallb_forall in Hall. specialize (Hall (Z.to_nat d)). rewrite Z2Nat.id in Hall by lia.
  cbv zeta in Hall. rewrite andb_true_iff, !Z.leb_le in Hall. apply Hall, in_seq. lia.
Qed.

Lemma demo_midnight_ok : inst midnight - 10 * second <= inst midnight <= inst midnight + 10 * second.
Proof. split; vm_compute; discriminate. Qed.

Lemma demo_log_windows pr e :
  pr ∈ providers demo_plan -> e ∈ (run_gate demo_plan demo_calls).2 -> window_formattable pr (gnow e.1).
Proof.
  intros Hpr He. apply demo_windows; [|exact Hpr].
  assert (Hall : forallb (fun e => (inst midnight - 10 * second <=? inst (gnow e.1))
    && (inst (gnow e.1) <=? inst midnight + 10 * second)) (run_gate demo_plan demo_calls).2 = true) by (vm_compute; reflexivity).
  rewrite forallb_forall in Hall. apply list_elem_of_In in He. specialize (Hall e He).
  rewrite andb_true_iff, !Z.leb_le in Hall. exact Hall.
Qed.

Definition demo_answer : counters * result quota_error unit :=
  GateAdmit demo_plan no_faults (run_gate demo_plan demo_calls).1 "u-ana" "threatintel.lookup_ip" midnight.

Lemma demo_exhausted : demo_answer.2 = Err (Exhausted (charge_of vt midnight)).
Proof. vm_compute. reflexivity. Qed.

Lemma refusals_are_exact_witness :
  exists pr, pr ∈ providers demo_plan /\ "virustotal" = PName pr
    /\ count "u-ana" pr (in_window pr (WindowStart pr midnight)) (run_gate demo_plan demo_calls).2 = Limit pr.
Proof.
  pose proof (refusals_are_exact [vt; abuse] ["threatintel.decode"] demo_plan demo_calls no_faults "u-ana"
    "threatintel.lookup_ip" midnight demo_answer.1 demo_answer.2
    demo_plan_ok demo_log_windows (demo_windows midnight demo_midnight_ok) (surjective_pairing demo_answer)) as Hr.
  rewrite demo_exhausted in Hr. destruct Hr as (_ & pr & H1 & _ & H3 & _ & H5).
  exists pr. split; [exact H1|]. split; [exact H3|exact H5].
Defined.

Lemma reserve_all_or_nothing_witness :
  is_ok (Reserve no_faults ∅ {| Analyst := "u-ana"; Charges_ := [charge_of vt midnight] |}).2 = true.
Proof.
  apply (proj2 (reserve_all_or_nothing no_faults ∅ {| Analyst := "u-ana"; Charges_ := [charge_of vt midnight] |}
    _ _ (surjective_pairing _))).
  split; [vm_compute; reflexivity|]. apply Forall_singleton. vm_compute. reflexivity.
Defined.

Lemma new_plan_exact_witness : IsDeclared demo_plan "threatintel.decode" = true.
Proof.
  apply (new_plan_exact [vt; abuse] ["threatintel.decode"] demo_plan "threatintel.decode" midnight demo_plan_ok).
  right. exists "threatintel.decode". split; [apply list_elem_of_here|vm_compute; reflexivity].
Defined.

Lemma standing_is_own_count_witness :
  (StandingOf demo_plan (Some (SpentBy (Some (run_gate demo_plan demo_calls).1))) "u-ana" ["threatintel.lookup_ip"] midnight).2
  = None.
Proof.
  pose proof (standing_is_own_count [vt; abuse] ["threatintel.decode"] demo_plan demo_calls "u-ana" ["threatintel.lookup_ip"]
    midnight demo_plan_ok ltac:(discriminate) ltac:(discriminate) demo_log_windows
    (demo_windows midnight demo_midnight_ok)) as [Hs _].
  rewrite Hs. reflexivity.
Defined.
