(* ===== verification/Redact.v ===== *)
(** * Masking credentials ([internal/gateway/redact.go], [scrubJSON] of [endpoint.go])

    [maskSpans] marks every byte of every occurrence of every rendering of a value, then rewrites the
    text once.  The renderings follow [strconv.Quote], [encoding/json] and [net/url]; which runes
    [strconv] prints is a parameter.  The theorems say exactly which bytes are replaced: every byte of
    every occurrence, and nothing else. *)
From Stdlib Require Import ZArith Lia Ascii.
From stdpp Require Import base strings list gmap.
From S2P Require Import Prelude.
From S2P Require Import GoStrings.
From S2P Require Import Utf8.
From S2P Require Import Json.

Definition redacted : string := "[redacted]".

(** ** The masking *)

(** [strings.Index]; [None] is -1. *)
Fixpoint index (s sub : string) : option nat :=
  if has_prefix s sub then Some O
  else match s with
  | EmptyString => None
  | String _ s' => match index s' sub with Some i => Some (S i) | None => None end
  end.

(** [for j := start; j < start+n; j++ { mask[j] = true }]. *)
Definition set_range (mask : list bool) (start n : nat) : list bool :=
  imap (fun j b => b || ((start <=? j)%nat && (j <? start + n)%nat)) mask.

(** The search for one form from byte [from] on; one step per occurrence, so the text's length bounds
    the steps. *)
Fixpoint mark_form (fuel : nat) (text form : string) (from : nat) (mask : list bool) (hit : bool)
  : list bool * bool :=
  match fuel with
  | O => (mask, hit)
  | S fuel' =>
      match index (str_drop from text) form with
      | None => (mask, hit)
      | Some i =>
          let start := (from + i)%nat in
          mark_form fuel' text form (start + 1) (set_range mask start (String.length form)) true
      end
  end.

Fixpoint mark_forms (text : string) (forms : list string) (mask : list bool) (hit : bool) : list bool * bool :=
  match forms with
  | [] => (mask, hit)
  | form :: forms' =>
      if bool_decide (form = "") then mark_forms text forms' mask hit
      else let '(mask, hit) := mark_form (S (String.length text)) text form 0 mask hit in
           mark_forms text forms' mask hit
  end.

Fixpoint mark_values (text : string) (formsByValue : list (list string)) (mask : list bool)
  : list bool * list bool :=
  match formsByValue with
  | [] => (mask, [])
  | forms :: rest =>
      let '(mask, h) := mark_forms text forms mask false in
      let '(mask, hs) := mark_values text rest mask in (mask, h :: hs)
  end.

(** Each maximal masked run becomes one placeholder; [in_run] says the previous byte was masked. *)
Fixpoint rewrite_masked (text : string) (mask : list bool) (in_run : bool) : string :=
  match text, mask with
  | String c text', b :: mask' =>
      if b then (if in_run then "" else redacted) +:+ rewrite_masked text' mask' true
      else String c (rewrite_masked text' mask' false)
  | _, _ => ""
  end.

Definition maskSpans (text : string) (formsByValue : list (list string)) : string * list bool :=
  let '(mask, hit) := mark_values text formsByValue (repeat false (String.length text)) in
  if existsb id mask then (rewrite_masked text mask false, hit) else (text, hit).

(** ** The renderings of a value *)

(** [strconv.IsPrint]. *)
Class PrintTable := { is_print : Z -> bool }.

Definition fmt_hex_lower (w : nat) (z : Z) : string := to_lower (fmt_hex w z).

Definition dquote : string := bytes [34].

(** One rune of [strconv.Quote] ([ascii_only]: of [QuoteToASCII]). *)
Definition quote_chunk `{PrintTable} (ascii_only : bool) (c : Z * string) : string :=
  let r := fst c in
  if invalid_chunk c then
    "\x" +:+ match snd c with String a _ => fmt_hex_lower 2 (bz a) | EmptyString => "" end
  else if (r =? 34) || (r =? 92) then "\" +:+ snd c
  else if (if ascii_only then (r <? 0x80) && is_print r else is_print r) then snd c
  else if r =? 7 then "\a" else if r =? 8 then "\b" else if r =? 12 then "\f"
  else if r =? 10 then "\n" else if r =? 13 then "\r" else if r =? 9 then "\t" else if r =? 11 then "\v"
  else if (r <? 0x20) || (r =? 0x7f) then "\x" +:+ fmt_hex_lower 2 r
  else if r <? 0x10000 then "\u" +:+ fmt_hex_lower 4 r
  else "\U" +:+ fmt_hex_lower 8 r.

Definition concat_chunks (f : Z * string -> string) (s : string) : string :=
  foldr (fun c acc => f c +:+ acc) "" (runes s).

(** [strconv.Quote] and [strconv.QuoteToASCII]. *)
Definition Quote `{PrintTable} (s : string) : string := dquote +:+ concat_chunks (quote_chunk false) s +:+ dquote.
Definition QuoteToASCII `{PrintTable} (s : string) : string := dquote +:+ concat_chunks (quote_chunk true) s +:+ dquote.

(** One rune of a JSON string as [encoding/json] writes it. *)
Definition json_chunk (escape_html : bool) (c : Z * string) : string :=
  let r := fst c in
  if invalid_chunk c then "\ufffd"
  else if (r =? 34) || (r =? 92) then "\" +:+ snd c
  else if r =? 8 then "\b" else if r =? 12 then "\f" else if r =? 10 then "\n"
  else if r =? 13 then "\r" else if r =? 9 then "\t"
  else if (r <? 0x20) || (escape_html && ((r =? 60) || (r =? 62) || (r =? 38))) then "\u" +:+ fmt_hex_lower 4 r
  else if (r =? 0x2028) || (r =? 0x2029) then "\u" +:+ fmt_hex_lower 4 r
  else snd c.

Definition json_string (escape_html : bool) (s : string) : string :=
  dquote +:+ concat_chunks (json_chunk escape_html) s +:+ dquote.

Definition unreserved (a : ascii) : bool :=
  let b := bz a in
  in_range 48 57 b || in_range 65 90 b || in_range 97 122 b
  || (b =? 45) || (b =? 95) || (b =? 46) || (b =? 126).

Fixpoint escape_bytes (keep : ascii -> bool) (plus : bool) (s : string) : string :=
  match s with
  | EmptyString => ""
  | String a s' =>
      (if plus && (bz a =? 32) then "+"
       else if keep a then String a ""
       else "%" +:+ fmt_hex 2 (bz a)) +:+ escape_bytes keep plus s'
  end.

(** [url.QueryEscape] and [url.PathEscape]. *)
Definition QueryEscape (s : string) : string := escape_bytes unreserved true s.
Definition PathEscape (s : string) : string :=
  escape_bytes (fun a => unreserved a || contains_byte "$&+:=@" a) false s.

(** [quoted[1 : len(quoted)-1]], for what is at least two bytes long. *)
Definition strip_quotes (quoted : string) : string := str_take (String.length quoted - 2) (str_drop 1 quoted).

(** [if body != "" && !slices.Contains(forms, body) { forms = append(forms, body) }]. *)
Definition add_form (forms : list string) (body : string) : list string :=
  if bool_decide (body = "") || bool_decide (body ∈ forms) then forms else forms ++ [body].

Definition add_quoted (forms : list string) (quoted : string) : list string :=
  if (2 <=? String.length quoted)%nat then add_form forms (strip_quotes quoted) else forms.

Definition jsonBodies (s : string) : list string :=
  add_quoted (add_quoted [] (json_string true s)) (json_string false s).

Section renderings.
Context `{PrintTable}.

Definition renderingsOf (value : string) : list string :=
  if bool_decide (value = "") then []
  else
    let forms := [value] in
    let forms := add_quoted forms (Quote value) in
    let forms := add_quoted forms (QuoteToASCII value) in
    let forms := foldl add_form forms (jsonBodies value) in
    foldl add_form forms [QueryEscape value; PathEscape value].

Definition jsonRenderingsOf (value : string) : list string :=
  foldl (fun forms r => foldl add_form forms (jsonBodies r)) [] (renderingsOf value).

(** ** The three entry points; [env] lists the map's entries, names once each *)

Definition MaskCredentials (text : string) (env : list (string * string)) : string * bool :=
  let '(out, hit) := maskSpans text (map (fun e => renderingsOf e.2) env) in
  (out, existsb id hit).

Inductive scrub_error := ErrResultUnscrubbable.

(** The names with a value, sorted. *)
Definition valued (env : list (string * string)) : list (string * string) :=
  sort_by fst (filter (fun e => e.2 <> "") env).

(** The scrubbed bytes, and the names that matched. *)
Definition scrubJSON (raw : string) (env : list (string * string)) : result scrub_error (string * list string) :=
  if bool_decide (raw = "") then Ok (raw, [])
  else
    let names := valued env in
    let '(out, matched) := maskSpans raw (map (fun e => jsonRenderingsOf e.2) names) in
    let hit := omap (fun x : (string * string) * bool => if x.2 then Some x.1.1 else None) (zip names matched) in
    if negb (existsb id matched) then Ok (raw, [])
    else if json_valid out then Ok (out, hit) else Err ErrResultUnscrubbable.

Definition ScrubJSON (raw : string) (env : list (string * string)) : result scrub_error (string * bool) :=
  r <-? scrubJSON raw env;; Ok (r.1, match r.2 with [] => false | _ => true end).
End renderings.

(** ** Proofs *)

(** [form] occurs in [text] at byte [start]. *)
Definition occurs (text form : string) (start : nat) : Prop := has_prefix (str_drop start text) form = true.

Definition marked (mask : list bool) (j : nat) : Prop := mask !! j = Some true.

(** Byte [j] is inside an occurrence of [form] that starts at [from] or later. *)
Definition covered (text form : string) (from j : nat) : Prop :=
  exists start, (from <= start <= j)%nat /\ occurs text form start /\ (j < start + String.length form)%nat.

Lemma str_drop_drop n m s : str_drop n (str_drop m s) = str_drop (m + n) s.
Proof.
  revert s. induction m as [|m IH]; intros s; [done|]. destruct s as [|a s]; simpl; [by destruct n|apply IH].
Qed.

Lemma has_prefix_length s p : has_prefix s p = true -> (String.length p <= String.length s)%nat.
Proof. intros [rest ->]%has_prefix_spec. rewrite string_length_app. lia. Qed.

Lemma occurs_bound text form start :
  form <> "" -> occurs text form start -> (start + String.length form <= String.length text)%nat.
Proof.
  intros Hne Ho%has_prefix_length. rewrite str_drop_length in Ho.
  destruct form; [done|]. simpl in *. lia.
Qed.

Lemma index_spec s sub :
  match index s sub with
  | Some i => has_prefix (str_drop i s) sub = true
              /\ forall j, (j < i)%nat -> has_prefix (str_drop j s) sub = false
  | None => forall j, has_prefix (str_drop j s) sub = false
  end.
Proof.
  induction s as [|a s IH]; cbn [index].
  - destruct (has_prefix "" sub) eqn:H; [split; [done|lia]|]. intros j. by destruct j.
  - destruct (has_prefix (String a s) sub) eqn:H; [split; [done|lia]|].
    destruct (index s sub) as [i|].
    + destruct IH as [IH1 IH2]. split; [done|]. intros [|j] Hj; [done|]. apply IH2. lia.
    + intros [|j]; [done|apply IH].
Qed.

Lemma set_range_length mask start n : length (set_range mask start n) = length mask.
Proof. apply length_imap. Qed.

Lemma set_range_marked mask start n j :
  (start + n <= length mask)%nat ->
  marked (set_range mask start n) j <-> marked mask j \/ (start <= j < start + n)%nat.
Proof.
  intros Hl. unfold marked, set_range. rewrite list_lookup_imap.
  destruct (mask !! j) as [b|] eqn:Hj; simpl.
  - rewrite (inj_iff Some), orb_true_iff, andb_true_iff, Nat.leb_le, Nat.ltb_lt, (inj_iff Some). tauto.
  - apply lookup_ge_None in Hj. split; [done|]. intros [?|?]; [done|lia].
Qed.

Lemma mark_form_spec fuel text form from mask hit mask' hit' :
  form <> "" -> length mask = String.length text -> (String.length text < from + fuel)%nat ->
  mark_form fuel text form from mask hit = (mask', hit') ->
  length mask' = length mask
  /\ (forall j, marked mask' j <-> marked mask j \/ covered text form from j)
  /\ (hit' = true <-> hit = true \/ exists start, (from <= start)%nat /\ occurs text form start).
Proof.
  intros Hne. revert from mask hit. induction fuel as [|fuel IH]; intros from mask hit Hl Hf H; cbn [mark_form] in H.
  { injection H as <- <-. split_and!; [done| |].
    - intros j. split; [by left|]. intros [?|(s & Hs & Ho%occurs_bound & _)]; [done|lia|done].
    - split; [by left|]. intros [?|(s & Hs & Ho%occurs_bound)]; [done|lia|done]. }
  pose proof (index_spec (str_drop from text) form) as Hi.
  destruct (index (str_drop from text) form) as [i|].
  2: { injection H as <- <-. split_and!; [done| |].
    - intros j. split; [by left|]. intros [?|(s & Hs & Ho & _)]; [done|].
      specialize (Hi (s - from)%nat). rewrite str_drop_drop in Hi.
      replace (from + (s - from))%nat with s in Hi by lia. unfold occurs in Ho. congruence.
    - split; [by left|]. intros [?|(s & Hs & Ho)]; [done|].
      specialize (Hi (s - from)%nat). rewrite str_drop_drop in Hi.
      replace (from + (s - from))%nat with s in Hi by lia. unfold occurs in Ho. congruence. }
  destruct Hi as [Hat Hbefore]. rewrite str_drop_drop in Hat. fold (occurs text form (from + i)) in Hat.
  pose proof (occurs_bound _ _ _ Hne Hat) as Hb.
  assert (Hfirst : forall s, (from <= s)%nat -> occurs text form s -> (from + i <= s)%nat).
  { intros s Hs Ho. destruct (decide (from + i <= s)%nat); [done|]. exfalso.
    specialize (Hbefore (s - from)%nat ltac:(lia)). rewrite str_drop_drop in Hbefore.
    replace (from + (s - from))%nat with s in Hbefore by lia. unfold occurs in Ho. congruence. }
  apply IH in H as (Hlen & Hm & Hh); [|by rewrite set_range_length|lia].
  rewrite set_range_length in Hlen. split_and!; [done| |].
  - intros j. rewrite Hm, set_range_marked by lia. split.
    + intros [[?|Hj]|(s & Hs & Ho & Hj)]; [by left| |]; right; [exists (from + i)%nat|exists s]; split_and!; auto; lia.
    + intros [?|(s & Hs & Ho & Hj)]; [tauto|]. pose proof (Hfirst s ltac:(lia) Ho).
      destruct (decide (s = from + i)%nat) as [->|]; [left; right; lia|right].
      exists s. split_and!; [lia..|done|done].
  - rewrite Hh. split; [intros _; right; exists (from + i)%nat; split; [lia|done]|by left].
Qed.

(** Byte [j] is inside an occurrence of one of [forms]. *)
Definition covered_by (text : string) (forms : list string) (j : nat) : Prop :=
  exists form, form ∈ forms /\ form <> "" /\ covered text form 0 j.

Definition occurs_one (text : string) (forms : list string) : Prop :=
  exists form start, form ∈ forms /\ form <> "" /\ occurs text form start.

Lemma covered_by_cons text form forms j :
  covered_by text (form :: forms) j <-> (form <> "" /\ covered text form 0 j) \/ covered_by text forms j.
Proof.
  unfold covered_by. split.
  - intros (f & [->|Hf]%elem_of_cons & Hn & Hc); [by left|right; eauto].
  - intros [[Hn Hc]|(f & Hf & Hn & Hc)]; [exists form|exists f]; rewrite elem_of_cons; auto.
Qed.

Lemma occurs_one_cons text form forms :
  occurs_one text (form :: forms)
  <-> (form <> "" /\ exists start, (0 <= start)%nat /\ occurs text form start) \/ occurs_one text forms.
Proof.
  unfold occurs_one. split.
  - intros (f & s & [->|Hf]%elem_of_cons & Hn & Hc); [left; split; [done|exists s; split; [lia|done]]|right; eauto].
  - intros [[Hn (s & _ & Hc)]|(f & s & Hf & Hn & Hc)]; [exists form, s|exists f, s]; rewrite elem_of_cons; auto.
Qed.

Lemma mark_forms_spec text forms mask hit mask' hit' :
  length mask = String.length text -> mark_forms text forms mask hit = (mask', hit') ->
  length mask' = length mask
  /\ (forall j, marked mask' j <-> marked mask j \/ covered_by text forms j)
  /\ (hit' = true <-> hit = true \/ occurs_one text forms).
Proof.
  revert mask hit. induction forms as [|form forms IH]; intros mask hit Hl H; cbn [mark_forms] in H.
  { injection H as <- <-. split_and!; [done| |].
    - intros j. split; [by left|]. intros [?|(f & Hf%elem_of_nil & _)]; done.
    - split; [by left|]. intros [?|(f & s & Hf%elem_of_nil & _)]; done. }
  case_bool_decide as Hne.
  - apply IH in H as (Hlen & Hm & Hh); [|done]. split_and!; [done| |].
    + intros j. rewrite Hm, covered_by_cons. tauto.
    + rewrite Hh, occurs_one_cons. tauto.
  - destruct (mark_form _ text form 0 mask hit) as [m1 h1] eqn:H1.
    apply mark_form_spec in H1 as (Hl1 & Hm1 & Hh1); [|done|done|lia].
    apply IH in H as (Hlen & Hm & Hh); [|congruence]. split_and!; [congruence| |].
    + intros j. rewrite Hm, Hm1, covered_by_cons. tauto.
    + rewrite Hh, Hh1, occurs_one_cons. tauto.
Qed.

Lemma mark_values_spec text values mask mask' hits :
  length mask = String.length text -> mark_values text values mask = (mask', hits) ->
  length mask' = length mask
  /\ (forall j, marked mask' j <-> marked mask j \/ exists forms, forms ∈ values /\ covered_by text forms j)
  /\ Forall2 (fun forms h => h = true <-> occurs_one text forms) values hits.
Proof.
  revert mask hits. induction values as [|forms values IH]; intros mask hits Hl H; cbn [mark_values] in H.
  { injection H as <- <-. split_and!; [done| |constructor].
    intros j. split; [by left|]. intros [?|(f & Hf%elem_of_nil & _)]; done. }
  destruct (mark_forms text forms mask false) as [m1 h1] eqn:H1.
  destruct (mark_values text values m1) as [m2 hs] eqn:H2. injection H as <- <-.
  apply mark_forms_spec in H1 as (Hl1 & Hm1 & Hh1); [|done].
  apply IH in H2 as (Hl2 & Hm2 & Hh2); [|congruence]. split_and!; [congruence| |].
  - intros j. rewrite Hm2, Hm1. split.
    + intros [[?|?]|(fs & Hfs & Hc)]; [by left|right; exists forms|right; exists fs]; rewrite elem_of_cons; auto.
    + intros [?|(fs & [->|Hfs]%elem_of_cons & Hc)]; [tauto|tauto|right; eauto].
  - constructor; [|done]. rewrite Hh1. split; [by intros [?|?]|by right].
Qed.

Lemma rewrite_unmasked text : rewrite_masked text (repeat false (String.length text)) false = text.
Proof. induction text as [|a text IH]; [done|]. simpl. by rewrite IH. Qed.

Lemma existsb_marked mask : existsb id mask = true <-> exists j, marked mask j.
Proof.
  rewrite existsb_elem. setoid_rewrite list_elem_of_lookup. unfold marked, id. split.
  - intros (b & [j Hj] & ->). eauto.
  - intros [j Hj]. eauto.
Qed.

Lemma unmarked_mask mask n :
  length mask = n -> existsb id mask = false -> mask = repeat false n.
Proof.
  intros <-. induction mask as [|[] mask IH]; simpl; [done|done|]. intros H. f_equal. auto.
Qed.

(** The mask [maskSpans] rewrites by. *)
Lemma maskSpans_spec text values out hits :
  maskSpans text values = (out, hits) ->
  exists mask, length mask = String.length text /\ out = rewrite_masked text mask false
    /\ (forall j, marked mask j <-> exists forms, forms ∈ values /\ covered_by text forms j)
    /\ Forall2 (fun forms h => h = true <-> occurs_one text forms) values hits.
Proof.
  unfold maskSpans. destruct (mark_values _ _ _) as [mask hs] eqn:H.
  apply mark_values_spec in H as (Hl & Hm & Hh); [|by rewrite repeat_length].
  rewrite repeat_length in Hl.
  assert (Hm' : forall j, marked mask j <-> exists forms, forms ∈ values /\ covered_by text forms j).
  { intros j. rewrite Hm. split; [|by right]. intros [Hr|?]; [|done]. unfold marked in Hr.
    apply list_elem_of_lookup_2, list_elem_of_In, repeat_spec in Hr. done. }
  destruct (existsb id mask) eqn:He; intros [= <- <-].
  - by exists mask.
  - exists mask. split_and!; try done. by rewrite (unmarked_mask _ _ Hl He), rewrite_unmasked.
Qed.

(** ** What the rewritten text shows *)

(** Text between masked runs: a first segment, then runs each followed by a segment. *)
Definition original (s0 : string) (l : list (string * string)) : string :=
  s0 +:+ foldr (fun x acc => x.1 +:+ x.2 +:+ acc) "" l.
Definition shown (s0 : string) (l : list (string * string)) : string :=
  s0 +:+ foldr (fun x acc => redacted +:+ x.2 +:+ acc) "" l.
Definition mask_of (s0 : string) (l : list (string * string)) : list bool :=
  repeat false (String.length s0)
  ++ foldr (fun x acc => repeat true (String.length x.1) ++ repeat false (String.length x.2) ++ acc) [] l.

Lemma rewrite_segments text mask :
  length mask = String.length text ->
  (exists s0 l, text = original s0 l /\ mask = mask_of s0 l /\ rewrite_masked text mask false = shown s0 l
     /\ Forall (fun x => x.1 <> "") l)
  /\ (exists r s0 l, text = r +:+ original s0 l /\ mask = repeat true (String.length r) ++ mask_of s0 l
     /\ rewrite_masked text mask true = shown s0 l /\ Forall (fun x => x.1 <> "") l).
Proof.
  revert mask. induction text as [|c text IH]; intros [|b mask] Hl; try done.
  { split; [by exists "", []|by exists "", "", []]. }
  destruct (IH mask) as [(s0 & l & Ht & Hm & Hr & Hn) (r & s1 & l1 & Ht1 & Hm1 & Hr1 & Hn1)]; [simpl in Hl; lia|].
  cbn [rewrite_masked]. destruct b.
  - rewrite Hr1. split.
    + exists "", ((String c r, s1) :: l1). split_and!; [|by rewrite Hm1|done|by constructor].
      rewrite Ht1. unfold original. cbn [foldr fst snd]. by rewrite string_app_cons.
    + exists (String c r), s1, l1. split_and!; [by rewrite Ht1|by rewrite Hm1|done|done].
  - rewrite Hr. split; [exists (String c s0), l|exists "", (String c s0), l]; split_and!; try done;
      try (by rewrite Ht); by rewrite Hm.
Qed.

(** Where a part of the text lies, and that the mask is [b] all along it. *)
Definition placed (text : string) (mask : list bool) (s : string) (b : bool) : Prop :=
  exists before after mb ma, text = before +:+ s +:+ after
    /\ mask = mb ++ repeat b (String.length s) ++ ma /\ length mb = String.length before.

Lemma placed_after text mask r n s b :
  placed text mask s b -> n = String.length r -> forall m, length m = n -> placed (r +:+ text) (m ++ mask) s b.
Proof.
  intros (before & after & mb & ma & -> & -> & Hl) -> m Hm.
  exists (r +:+ before), after, (m ++ mb), ma. rewrite <- !string_app_assoc, <- !app_assoc.
  split_and!; try done. rewrite string_length_app, length_app. lia.
Qed.

Lemma segments_placed s0 l :
  placed (original s0 l) (mask_of s0 l) s0 false
  /\ Forall (fun x => placed (original s0 l) (mask_of s0 l) x.1 true
                      /\ placed (original s0 l) (mask_of s0 l) x.2 false) l.
Proof.
  split; [by exists "", (foldr (fun x acc => x.1 +:+ x.2 +:+ acc) "" l), [], (foldr (fun x acc => repeat true (String.length x.1) ++ repeat false (String.length x.2) ++ acc) [] l)|].
  unfold original, mask_of.
  assert (H : Forall (fun x => placed (foldr (fun x acc => x.1 +:+ x.2 +:+ acc) "" l)
      (foldr (fun x acc => repeat true (String.length x.1) ++ repeat false (String.length x.2) ++ acc) [] l) x.1 true
    /\ placed (foldr (fun x acc => x.1 +:+ x.2 +:+ acc) "" l)
      (foldr (fun x acc => repeat true (String.length x.1) ++ repeat false (String.length x.2) ++ acc) [] l) x.2 false) l).
  { induction l as [|[r s] l IH]; [constructor|]. constructor; cbn [foldr fst snd].
    - split; [by exists "", (s +:+ foldr (fun x acc => x.1 +:+ x.2 +:+ acc) "" l), [], (repeat false (String.length s) ++ foldr (fun x acc => repeat true (String.length x.1) ++ repeat false (String.length x.2) ++ acc) [] l)|].
      apply placed_after with (String.length r); [|done|by rewrite repeat_length].
      by exists "", (foldr (fun x acc => x.1 +:+ x.2 +:+ acc) "" l), [], (foldr (fun x acc => repeat true (String.length x.1) ++ repeat false (String.length x.2) ++ acc) [] l).
    - eapply Forall_impl; [exact IH|]. intros x [H1 H2]. split;
        (apply placed_after with (String.length r); [|done|by rewrite repeat_length]);
        (apply placed_after with (String.length s); [done|done|by rewrite repeat_length]). }
  eapply Forall_impl; [exact H|]. intros x [H1 H2].
  split; (apply placed_after with (String.length s0); [done|done|by rewrite repeat_length]).
Qed.

Lemma repeat_lookup {A} (x : A) n k : (k < n)%nat -> repeat x n !! k = Some x.
Proof. revert k. induction n as [|n IH]; intros k Hk; [lia|]. destruct k as [|k]; [done|]. apply IH. lia. Qed.

Lemma str_drop_app_l k a b : (k <= String.length a)%nat -> str_drop k (a +:+ b) = str_drop k a +:+ b.
Proof.
  revert a. induction k as [|k IH]; intros a Hk; [done|]. destruct a as [|x a]; simpl in Hk; [lia|].
  rewrite string_app_cons. apply IH. lia.
Qed.

Lemma placed_marked text mask s b k :
  placed text mask s b -> (k < String.length s)%nat ->
  exists o, mask !! (o + k)%nat = Some b /\ forall form, occurs s form k -> occurs text form (o + k).
Proof.
  intros (before & after & mb & ma & -> & -> & Hl) Hk. exists (String.length before). split.
  - rewrite lookup_app_r by lia. rewrite Hl, Nat.add_comm, Nat.add_sub, lookup_app_l by (rewrite repeat_length; lia).
    by apply repeat_lookup.
  - intros form Ho. unfold occurs in *. rewrite <- str_drop_drop, str_drop_app.
    apply has_prefix_spec in Ho as [rest Hrest]. apply has_prefix_spec. exists (rest +:+ after).
    rewrite string_app_assoc, <- Hrest. apply str_drop_app_l. lia.
Qed.

(** [out] is [text] with every byte of every occurrence of a form, and no other byte, inside a run
    that one placeholder replaces: every byte of a replaced run is covered by an occurrence, and no
    segment left visible contains one. *)
Definition hides (values : list (list string)) (text out : string) : Prop :=
  exists s0 l, text = original s0 l /\ out = shown s0 l
    /\ Forall (fun x => x.1 <> "") l
    /\ (forall s forms form k, s ∈ s0 :: map snd l -> forms ∈ values -> form ∈ forms -> form <> "" -> ~ occurs s form k)
    /\ (forall r k, r ∈ map fst l -> (k < String.length r)%nat ->
          exists o forms, r = str_take (String.length r) (str_drop o text) /\ forms ∈ values /\ covered_by text forms (o + k)).

Lemma placed_drop text mask s b :
  placed text mask s b -> exists o, s = str_take (String.length s) (str_drop o text)
    /\ forall k, (k < String.length s)%nat -> mask !! (o + k)%nat = Some b.
Proof.
  intros (before & after & mb & ma & -> & -> & Hl). exists (String.length before). split.
  - by rewrite str_drop_app, str_take_app.
  - intros k Hk. rewrite lookup_app_r by lia. rewrite Hl, Nat.add_comm, Nat.add_sub.
    rewrite lookup_app_l by (rewrite repeat_length; lia). by apply repeat_lookup.
Qed.

Lemma maskSpans_hides text values out hits :
  maskSpans text values = (out, hits) ->
  hides values text out /\ Forall2 (fun forms h => h = true <-> occurs_one text forms) values hits.
Proof.
  intros (mask & Hl & -> & Hm & Hh)%maskSpans_spec. split; [|done].
  destruct (rewrite_segments text mask Hl) as [(s0 & l & Ht & Hmask & Hr & Hn) _].
  destruct (segments_placed s0 l) as [P0 PL]. rewrite <- Ht, <- Hmask in P0, PL.
  rewrite Forall_forall in PL. exists s0, l. split_and!; try done.
  - intros s forms form k Hs Hforms Hform Hne Ho.
    assert (Hp : placed text mask s false).
    { apply elem_of_cons in Hs as [->|(x & -> & Hx)%list_elem_of_fmap]; [done|by apply PL]. }
    pose proof (occurs_bound _ _ _ Hne Ho) as Hb.
    assert (Hk : (k < String.length s)%nat) by (destruct form; [done|simpl in Hb; lia]).
    destruct (placed_marked _ _ _ _ k Hp Hk) as (o & Hf & Hocc).
    assert (Hc : marked mask (o + k)).
    { apply Hm. exists forms. split; [done|]. exists form. split_and!; [done|done|].
      exists (o + k)%nat. split_and!; [lia|lia|by apply Hocc|destruct form; [done|simpl; lia]]. }
    unfold marked in Hc. congruence.
  - intros r k (x & -> & Hx)%list_elem_of_fmap Hk. destruct (PL x Hx) as [Hp _].
    destruct (placed_drop _ _ _ _ Hp) as (o & Ho & Ht'). specialize (Ht' k Hk).
    apply Hm in Ht' as (forms & Hforms & Hc). eauto.
Qed.

Section renderings_proofs.
Context `{PT : PrintTable}.

Lemma add_form_elem x forms body : x ∈ add_form forms body <-> x ∈ forms \/ (x = body /\ body <> "").
Proof.
  unfold add_form. destruct (bool_decide_reflect (body = "")) as [->|Hn]; simpl; [naive_solver|].
  case_bool_decide as Hb.
  - split; [by left|]. by intros [?|[-> _]].
  - rewrite elem_of_app, list_elem_of_singleton. naive_solver.
Qed.

Lemma foldl_add_form_elem x forms l : x ∈ foldl add_form forms l <-> x ∈ forms \/ (x ∈ l /\ x <> "").
Proof.
  revert forms. induction l as [|b l IH]; intros forms; simpl.
  - rewrite elem_of_nil. tauto.
  - rewrite IH, add_form_elem, elem_of_cons. naive_solver.
Qed.

Lemma foldl_jsonBodies_elem x forms l :
  x ∈ foldl (fun forms r => foldl add_form forms (jsonBodies r)) forms l
  <-> x ∈ forms \/ (exists r, r ∈ l /\ x ∈ jsonBodies r /\ x <> "").
Proof.
  revert forms. induction l as [|b l IH]; intros forms; simpl.
  - setoid_rewrite elem_of_nil. naive_solver.
  - rewrite IH, foldl_add_form_elem. setoid_rewrite elem_of_cons. naive_solver.
Qed.

(** What a JSON encoder writes for a value, between the quotes. *)
Definition json_body (escape_html : bool) (v : string) : string := concat_chunks (json_chunk escape_html) v.

Lemma strip_quotes_dquote b : strip_quotes (dquote +:+ b +:+ dquote) = b.
Proof.
  unfold strip_quotes. rewrite !string_length_app. change (String.length dquote) with 1%nat.
  change (str_drop 1 (dquote +:+ b +:+ dquote)) with (b +:+ dquote).
  replace (1 + (String.length b + 1) - 2)%nat with (String.length b) by lia. apply str_take_app.
Qed.

Lemma add_quoted_json forms h v : add_quoted forms (json_string h v) = add_form forms (json_body h v).
Proof.
  unfold add_quoted, json_string. rewrite strip_quotes_dquote, !string_length_app.
  by change (String.length dquote) with 1%nat; rewrite (proj2 (Nat.leb_le 2 _)) by lia.
Qed.

Lemma jsonBodies_elem x v : x ∈ jsonBodies v <-> (x = json_body true v \/ x = json_body false v) /\ x <> "".
Proof. unfold jsonBodies. rewrite !add_quoted_json, !add_form_elem, elem_of_nil. naive_solver. Qed.

Lemma add_quoted_incl x forms q : x ∈ forms -> x ∈ add_quoted forms q.
Proof. intros Hx. unfold add_quoted. case_match; [apply add_form_elem; by left|done]. Qed.

Lemma renderingsOf_self v : v <> "" -> v ∈ renderingsOf v.
Proof.
  intros Hv. unfold renderingsOf. rewrite bool_decide_eq_false_2 by done. cbv zeta.
  rewrite !foldl_add_form_elem. left. left. by do 2 apply add_quoted_incl; apply list_elem_of_here.
Qed.

Lemma renderingsOf_json v h : v <> "" -> json_body h v <> "" -> json_body h v ∈ renderingsOf v.
Proof.
  intros Hv Hb. unfold renderingsOf. rewrite bool_decide_eq_false_2 by done. cbv zeta.
  rewrite !foldl_add_form_elem. left. right. rewrite jsonBodies_elem. destruct h; auto.
Qed.

(** Every way an encoder writes the value inside a string literal is a form [scrubJSON] matches: once
    encoded, and encoded again by whoever embeds that text in another JSON string. *)
Lemma jsonRenderings_encoded v h1 h2 :
  v <> "" ->
  (json_body h1 v <> "" -> json_body h1 v ∈ jsonRenderingsOf v)
  /\ (json_body h1 v <> "" -> json_body h2 (json_body h1 v) <> "" -> json_body h2 (json_body h1 v) ∈ jsonRenderingsOf v).
Proof.
  intros Hv. unfold jsonRenderingsOf. split; intros H1; [|intros H2];
    rewrite foldl_jsonBodies_elem; right.
  - exists v. split; [by apply renderingsOf_self|]. split; [|done]. apply jsonBodies_elem. destruct h1; auto.
  - exists (json_body h1 v). split; [by apply renderingsOf_json|]. split; [|done]. apply jsonBodies_elem. destruct h2; auto.
Qed.
End renderings_proofs.

(** ** Theorems *)

Lemma hits_existsb text values hits :
  Forall2 (fun forms h => h = true <-> occurs_one text forms) values hits ->
  existsb id hits = true <-> exists forms, forms ∈ values /\ occurs_one text forms.
Proof.
  induction 1 as [|forms h values hits Hh _ IH]; simpl.
  - split; [done|]. by intros (? & ?%elem_of_nil & _).
  - unfold id at 1. rewrite orb_true_iff, IH, Hh. split.
    + intros [Ho|(fs & Hfs & Ho)]; [exists forms|exists fs]; rewrite elem_of_cons; auto.
    + intros (fs & [->|Hfs]%elem_of_cons & Ho); eauto.
Qed.

(** Nothing occurs: nothing changes. *)
Lemma hides_untouched values text out :
  hides values text out -> (forall forms, forms ∈ values -> ~ occurs_one text forms) -> out = text.
Proof.
  intros (s0 & l & -> & -> & Hn & _ & Hr) Hno. destruct l as [|[r s] l]; [done|].
  apply Forall_cons in Hn as [Hne _]. simpl in Hne. destruct r as [|a r]; [done|].
  destruct (Hr (String a r) 0%nat) as (o & forms & _ & Hf & form & Hin & Hn & start & _ & Ho & _);
    [apply list_elem_of_here|simpl; lia|].
  exfalso. apply (Hno forms Hf). by exists form, start.
Qed.

Section theorems.
Context `{PT : PrintTable}.

(** Fact [MaskCredentials_hides]: what an error text shows after masking.  The text is cut into visible
    segments and masked runs: no rendering of any value occurs inside a visible segment, whatever the
    order of the values and however they overlap; every byte of a masked run is covered by an
    occurrence of a rendering, so nothing else is lost; and a text in which no rendering occurs comes
    back as it was. *)
Theorem MaskCredentials_hides text env :
  let values := map (fun e => renderingsOf e.2) env in
  hides values text (MaskCredentials text env).1
  /\ ((MaskCredentials text env).2 = true <-> exists forms, forms ∈ values /\ occurs_one text forms)
  /\ ((MaskCredentials text env).2 = false -> (MaskCredentials text env).1 = text).
Proof.
  cbv zeta. unfold MaskCredentials. destruct (maskSpans _ _) as [out hit] eqn:H. cbn [fst snd].
  apply maskSpans_hides in H as [Hh Hf]. apply hits_existsb in Hf. split_and!; [done|done|].
  intros He. apply (hides_untouched _ _ _ Hh). intros forms Hin Ho.
  assert (existsb id hit = true) by (apply Hf; eauto). congruence.
Qed.

(** Fact [scrubJSON_contract]: what a tool result carries after the scrub.  Either nothing any value is
    written as inside JSON text occurs in it and it is returned byte for byte with no name reported;
    or it is returned masked, is still valid JSON, and the names reported are those of the values that
    occurred; or masking broke the JSON and the result is refused, never forwarded.  The forms matched
    include every value as an encoder writes it in a string, once or twice encoded, with or without
    HTML escaping. *)
Theorem scrubJSON_contract raw env :
  let values := map (fun e => jsonRenderingsOf e.2) (valued env) in
  match scrubJSON raw env with
  | Ok (out, hit) =>
      (out = raw /\ hit = [] /\ forall forms, forms ∈ values -> ~ occurs_one raw forms)
      \/ (json_valid out = true /\ hides values raw out
          /\ forall name, name ∈ hit <-> exists v, (name, v) ∈ valued env /\ occurs_one raw (jsonRenderingsOf v))
  | Err ErrResultUnscrubbable =>
      (exists forms, forms ∈ values /\ occurs_one raw forms)
      /\ exists out, hides values raw out /\ json_valid out = false
  end
  /\ (forall name v h1 h2, (name, v) ∈ env -> v <> "" ->
       exists forms, forms ∈ values
         /\ (json_body h1 v <> "" -> json_body h1 v ∈ forms)
         /\ (json_body h1 v <> "" -> json_body h2 (json_body h1 v) <> "" -> json_body h2 (json_body h1 v) ∈ forms)).
Proof.
  cbv zeta. split.
  - unfold scrubJSON. case_bool_decide as Hraw.
    { left. split_and!; [done..|]. intros forms _ (form & start & _ & Hn & Ho%occurs_bound); [|done].
      subst raw. destruct form; [done|]. simpl in Ho. lia. }
    cbv zeta. destruct (maskSpans _ _) as [out hits] eqn:H. apply maskSpans_hides in H as [Hh Hf].
    pose proof (hits_existsb _ _ _ Hf) as He.
    destruct (existsb id hits) eqn:Hx; cbn [negb].
    2: { left. split_and!; [done..|]. intros forms Hin Ho.
         assert (false = true) by (apply He; eauto). done. }
    destruct (json_valid out) eqn:Hj; [right|split; [by apply He|by exists out]].
    split_and!; [done|done|]. intros name. rewrite list_elem_of_omap. rewrite Forall2_fmap_l in Hf.
    split.
    + intros ([[n v] b] & Hin & Hb). apply list_elem_of_lookup in Hin as [i Hi].
      apply lookup_zip_Some in Hi as [Hv Hb']. simpl in Hb. destruct b; [|done]. injection Hb as ->.
      exists v. split; [by apply list_elem_of_lookup_2 with i|].
      by apply (Forall2_lookup_lr _ _ _ _ _ _ Hf Hv Hb').
    + intros (v & Hin & Ho). apply list_elem_of_lookup in Hin as [i Hi].
      destruct (Forall2_lookup_l _ _ _ _ _ Hf Hi) as (b & Hb & Hiff). simpl in Hiff. apply Hiff in Ho as ->.
      exists ((name, v), true). split; [|done]. apply list_elem_of_lookup_2 with i.
      by apply lookup_zip_Some.
  - intros name v h1 h2 Hin Hv. exists (jsonRenderingsOf v). split.
    + apply list_elem_of_fmap. exists (name, v). split; [done|]. unfold valued.
      apply elem_of_sort_by, list_elem_of_filter. by split.
    + by apply jsonRenderings_encoded.
Qed.
End theorems.

Definition demo_print : PrintTable := {| is_print := fun r => (0x20 <=? r) && negb (r =? 0x7f) |}.

Example mask_overlap :
  MaskCredentials (H := demo_print) "dial: 443 key=ab443cd" [("PORT", "443"); ("KEY", "ab443cd")]
  = ("dial: [redacted] key=[redacted]", true).
Proof. vm_compute. reflexivity. Qed.

Example scrub_escaped :
  scrubJSON (H := demo_print) (dq "{'text':'got a\u003cb'}") [("KEY", "a<b")] = Ok (dq "{'text':'got [redacted]'}", ["KEY"])
  /\ scrubJSON (H := demo_print) (dq "{'a':1}") [("KEY", ":")] = Err ErrResultUnscrubbable.
Proof. vm_compute. split; reflexivity. Qed.
