(* ===== verification/JsonStrings.v ===== *)
(** * JSON strings: writing and reading them, as [encoding/json] does

    [json_string] (Redact.v) writes a Go string; [unquote] is what [json.Unmarshal] makes of the body
    of a string literal.  The round trip holds for every string, up to the invalid bytes, which come
    back as U+FFFD; it gives the one of a list of strings, the form some columns are stored in. *)
From Stdlib Require Import ZArith Lia Ascii.
From stdpp Require Import base strings list.
From S2P Require Import Prelude.
From S2P Require Import GoStrings.
From S2P Require Import Utf8.
From S2P Require Import GoTime.
From S2P Require Import Json.
From S2P Require Import Redact.

(** [utf8.AppendRune], for a rune in range. *)
Definition append_rune (r : Z) : string :=
  if r <? 0x80 then bytes [r]
  else if r <? 0x800 then bytes [0xC0 + r / 64; 0x80 + r mod 64]
  else if r <? 0x10000 then bytes [0xE0 + r / 4096; 0x80 + r / 64 mod 64; 0x80 + r mod 64]
  else bytes [0xF0 + r / 262144; 0x80 + r / 4096 mod 64; 0x80 + r / 64 mod 64; 0x80 + r mod 64].

Definition hex_value (a : ascii) : Z :=
  let c := bz a in
  if in_range 48 57 c then c - 48 else if in_range 97 102 c then c - 87 else c - 55.

Definition getu4 (s : string) : option (Z * string) :=
  match s with
  | String b (String u (String h1 (String h2 (String h3 (String h4 rest))))) =>
      if (bz b =? 92) && (bz u =? 117) && is_hex h1 && is_hex h2 && is_hex h3 && is_hex h4 then
        Some (((hex_value h1 * 16 + hex_value h2) * 16 + hex_value h3) * 16 + hex_value h4, rest)
      else None
  | _ => None
  end.

Definition is_surrogate (r : Z) : bool := in_range 0xD800 0xDFFF r.

(** [utf16.DecodeRune], [rune_error] for no pair. *)
Definition utf16_decode (r1 r2 : Z) : Z :=
  if in_range 0xD800 0xDBFF r1 && in_range 0xDC00 0xDFFF r2
  then (r1 - 0xD800) * 1024 + (r2 - 0xDC00) + 0x10000 else rune_error.

(** The text a string literal stands for: [unquoteBytes] of its body. *)
Fixpoint unquote_fuel (fuel : nat) (s : string) : string :=
  match fuel with
  | O => ""
  | S n =>
      match s with
      | EmptyString => ""
      | String a s1 =>
          if bz a =? 92 then
            match getu4 s with
            | Some (r1, rest) =>
                if is_surrogate r1 then
                  match getu4 rest with
                  | Some (r2, rest2) =>
                      if utf16_decode r1 r2 =? rune_error then append_rune rune_error +:+ unquote_fuel n rest
                      else append_rune (utf16_decode r1 r2) +:+ unquote_fuel n rest2
                  | None => append_rune rune_error +:+ unquote_fuel n rest
                  end
                else append_rune r1 +:+ unquote_fuel n rest
            | None =>
                match s1 with
                | String c s2 =>
                    let z := bz c in
                    let out := if z =? 98 then 8 else if z =? 102 then 12 else if z =? 110 then 10
                               else if z =? 114 then 13 else if z =? 116 then 9 else z in
                    bytes [out] +:+ unquote_fuel n s2
                | EmptyString => ""
                end
            end
          else
            let '(r, k) := decode_rune s in
            (if (r =? rune_error) && (k =? 1)%nat then append_rune rune_error else str_take k s)
              +:+ unquote_fuel n (str_drop k s)
      end
  end.

Lemma getu4_lt s r rest : getu4 s = Some (r, rest) -> (String.length rest < String.length s)%nat.
Proof.
  destruct s as [|b [|u [|h1 [|h2 [|h3 [|h4 s]]]]]]; try done. unfold getu4. case_match; [|done].
  intros [= _ <-]. simpl. lia.
Qed.

(** Every round of the loop reads something, so the text's length bounds it. *)
Lemma unquote_fuel_enough n m s :
  (String.length s <= n)%nat -> (String.length s <= m)%nat -> unquote_fuel n s = unquote_fuel m s.
Proof.
  revert m s. induction n as [|n IH]; intros [|m] s Hn Hm; try (destruct s; simpl in *; [done|lia]).
  destruct s as [|a s]; [done|]. cbn [unquote_fuel]. case_match.
  - destruct (getu4 (String a s)) as [[r1 rest]|] eqn:H1.
    + apply getu4_lt in H1. repeat case_match; f_equal; apply IH;
        repeat match goal with H : getu4 rest = Some _ |- _ => apply getu4_lt in H end; simpl in *; lia.
    + destruct s as [|c s]; [done|]. simpl in *. f_equal. apply IH; lia.
  - destruct (decode_rune (String a s)) as [r k] eqn:Hk. f_equal.
    pose proof (decode_rune_size (String a s) ltac:(done)) as Hs. rewrite Hk in Hs. simpl in Hs.
    apply IH; rewrite str_drop_length; simpl in *; lia.
Qed.

Definition unquote (s : string) : string := unquote_fuel (String.length s) s.


(** ** What comes back: every invalid byte replaced by U+FFFD *)

Definition stands_for (c : Z * string) : string := if invalid_chunk c then append_rune rune_error else c.2.
Definition repaired (s : string) : string := concat_chunks stands_for s.

Lemma repaired_valid s : valid_string s = true -> repaired s = s.
Proof.
  unfold valid_string, repaired, concat_chunks. rewrite forallb_forall. intros H. transitivity (flatten (runes s)); [|apply flatten_runes].
  unfold flatten. revert H. generalize (runes s). induction l as [|c l IH]; intros H; [done|]. cbn [foldr].
  rewrite IH by (intros x Hx; apply H; by right). f_equal. unfold stands_for. specialize (H c (or_introl eq_refl)).
  by destruct (invalid_chunk c).
Qed.

(** ** The runes of a sequence of several bytes *)

Lemma lor_add x y k : 0 <= k -> 0 <= y < 2 ^ k -> Z.lor (Z.shiftl x k) y = x * 2 ^ k + y.
Proof.
  intros Hk Hy. rewrite <- Z.shiftl_mul_pow2 by done.
  assert (Hl : Z.land (Z.shiftl x k) y = 0); [|by rewrite Z.add_nocarry_lxor, Z.lxor_lor].
  rewrite <- (Z.mod_small y (2 ^ k)) by done. apply Z.bits_inj'. intros n Hn. rewrite Z.land_spec, Z.bits_0.
  destruct (Z.lt_ge_cases n k); [by rewrite Z.shiftl_spec_low|]. rewrite Z.mod_pow2_bits_high by lia. apply andb_false_r.
Qed.

Lemma zb_eq a z : z = bz a -> zb z = a.
Proof. intros ->. apply zb_bz. Qed.

Lemma tail6_mod a : tail6 a = bz a mod 64.
Proof. unfold tail6. by rewrite (Z.land_ones _ 6). Qed.

Lemma lead_info_spec b n lo hi :
  lead_info b = Some (n, lo, hi) ->
  0x80 <= lo /\ hi <= 0xBF /\ (n = 2%nat /\ 0xC2 <= b <= 0xDF
    \/ n = 3%nat /\ (b = 0xE0 /\ 0xA0 <= lo \/ 0xE1 <= b <= 0xEF)
    \/ n = 4%nat /\ (b = 0xF0 /\ 0x90 <= lo \/ 0xF1 <= b <= 0xF4)).
Proof.
  unfold lead_info, in_range.
  repeat (case_match; [intros [= <- <- <-]; rewrite ?andb_true_iff, ?Z.leb_le, ?Z.eqb_eq in *; lia|]). done.
Qed.

Lemma cont_range a : cont a = true -> 0x80 <= bz a <= 0xBF.
Proof. unfold cont, in_range. rewrite andb_true_iff, !Z.leb_le. done. Qed.

(** Bytes above ASCII only, and a rune above ASCII: nothing of it is escaped. *)
Lemma self_delimiting_cases r c :
  self_delimiting r c ->
  (exists a, c = String a "" /\ r = bz a /\ r < 0x80) \/ 0x80 <= r 
     /\ str_forallb (fun a => 0x80 <=? bz a) c = true /\ append_rune r = c.
Proof.
  intros (Hne & Hd & Hinv). destruct c as [|a0 c]; [done|]. cbn [decode_rune] in Hd.
  destruct (bz a0 <? 128) eqn:H0.
  { injection Hd as <- Hl. left. exists a0. destruct c; [|done]. apply Z.ltb_lt in H0. done. }
  right. apply Z.ltb_ge in H0.
  assert (Hbad : (rune_error, 1%nat) <> (r, String.length (String a0 c))).
  { intros [= <- Hl]. destruct c; [|done]. done. }
  destruct (lead_info (bz a0)) as [[[n lo] hi]|] eqn:H1; [|by destruct Hbad].
  apply lead_info_spec in H1 as (Hlo & Hhi & [[-> Hb]|[[-> Hb]|[-> Hb]]]);
    destruct c as [|a1 [|a2 [|a3 c]]]; try (by destruct Hbad);
    (match type of Hd with (if ?b then _ else _) = _ => destruct b eqn:H2; [|by destruct Hbad] end);
    rewrite ?andb_true_iff in H2; deex; try match goal with H : in_range _ _ _ = true |- _ => apply andb_true_iff in H as [?%Z.leb_le ?%Z.leb_le] end;
    repeat match goal with H : cont _ = true |- _ => apply cont_range in H end;
    apply pair_equal_spec in Hd as [<- Hl]; cbn in Hl; try lia; try (destruct c as [|? ?]; [|cbn in Hl; lia]);
    change 31 with (Z.ones 5); change 15 with (Z.ones 4); change 7 with (Z.ones 3); rewrite ?Z.land_ones by done;
    rewrite ?tail6_mod in *; clear Hbad Hinv Hne Hl.
  - rewrite lor_add by lia. set (r := _ + _). assert (Hr : r = (bz a0 - 192) * 64 + (bz a1 - 128)) by (subst r; lia).
    split; [lia|]. split; [cbn [str_forallb]; rewrite ?andb_true_iff, ?Z.leb_le; lia|].
    unfold append_rune. rewrite (proj2 (Z.ltb_ge r 128)), (proj2 (Z.ltb_lt r 2048)) by lia.
    unfold bytes. cbn [map String.string_of_list_ascii]. by rewrite (zb_eq a0), (zb_eq a1) by lia.
  - rewrite (lor_add _ _ 6), (lor_add _ _ 12) by lia. set (r := _ + _).
    assert (Hr : r = (bz a0 - 224) * 4096 + ((bz a1 - 128) * 64 + (bz a2 - 128))) by (subst r; lia).
    split; [lia|]. split; [cbn [str_forallb]; rewrite ?andb_true_iff, ?Z.leb_le; lia|].
    unfold append_rune. rewrite (proj2 (Z.ltb_ge r 128)), (proj2 (Z.ltb_ge r 2048)), (proj2 (Z.ltb_lt r 65536)) by lia.
    unfold bytes. cbn [map String.string_of_list_ascii]. by rewrite (zb_eq a0), (zb_eq a1), (zb_eq a2) by lia.
  - rewrite (lor_add _ _ 6), (lor_add _ _ 12), (lor_add _ _ 18) by lia. set (r := _ + _).
    assert (Hr : r = (bz a0 - 240) * 262144 + ((bz a1 - 128) * 4096 + ((bz a2 - 128) * 64 + (bz a3 - 128)))) by (subst r; lia).
    split; [lia|]. split; [cbn [str_forallb]; rewrite ?andb_true_iff, ?Z.leb_le; lia|].
    unfold append_rune. rewrite (proj2 (Z.ltb_ge r 128)), (proj2 (Z.ltb_ge r 2048)), (proj2 (Z.ltb_ge r 65536)) by lia.
    unfold bytes. cbn [map String.string_of_list_ascii]. by rewrite (zb_eq a0), (zb_eq a1), (zb_eq a2), (zb_eq a3) by lia.
Qed.

(** ** Reading back what is written for one rune *)

(** A piece of a literal: it is read whole, and it stands for [out]. *)
Definition reads_as (p out : string) : Prop :=
  (forall x, string_body (p +:+ x) = match string_body x with Some (b, r) => Some (p +:+ b, r) | None => None end)
  /\ (forall x, unquote (p +:+ x) = out +:+ unquote x).

Lemma unquote_step n x : (String.length x <= n)%nat -> unquote_fuel n x = unquote x.
Proof. intros H. by apply unquote_fuel_enough. Qed.

Lemma reads_high c r : self_delimiting r c -> 0x80 <= r -> str_forallb (fun a => 0x80 <=? bz a) c = true -> reads_as c c.
Proof.
  intros Hs Hr Hh. split; intros x.
  - clear Hs. revert Hh. induction c as [|a c IH]; [rewrite string_app_nil_l; by destruct (string_body x) as [[]|]|].
    cbn [str_forallb]. rewrite andb_true_iff, Z.leb_le. intros [Ha Hc]. rewrite string_app_cons. cbn [string_body].
    rewrite (proj2 (Z.eqb_neq _ _)), (proj2 (Z.ltb_ge _ _)), (proj2 (Z.eqb_neq (bz a) 92)) by lia. rewrite IH by done.
    by destruct (string_body x) as [[]|].
  - pose proof (decode_rune_app r c x Hs) as Hd. destruct Hs as (Hne & _ & Hinv). destruct c as [|a c]; [done|].
    cbn [str_forallb] in Hh. apply andb_true_iff in Hh as [Ha%Z.leb_le _].
    unfold unquote at 1. rewrite string_app_cons in *. cbn [String.length unquote_fuel].
    rewrite (proj2 (Z.eqb_neq (bz a) 92)) by lia. rewrite Hd. unfold invalid_chunk in Hinv. cbn [fst snd] in Hinv. rewrite Hinv.
    rewrite <- string_app_cons, str_take_app, str_drop_app. f_equal. apply unquote_step. rewrite string_length_app. lia.
Qed.

Lemma reads_plain a : 0x20 <= bz a < 0x80 -> bz a <> 34 -> bz a <> 92 -> reads_as (String a "") (String a "").
Proof.
  intros Ha H34 H92. split; intros x; rewrite !string_app_cons, string_app_nil_l.
  - cbn [string_body]. rewrite (proj2 (Z.eqb_neq _ _)), (proj2 (Z.ltb_ge _ _)), (proj2 (Z.eqb_neq (bz a) 92)) by lia.
    by destruct (string_body x) as [[]|].
  - unfold unquote at 1. cbn [String.length unquote_fuel]. rewrite (proj2 (Z.eqb_neq (bz a) 92)) by lia.
    rewrite (decode_rune_ascii a x) by lia. unfold rune_error. rewrite (proj2 (Z.eqb_neq (bz a) _)) by lia. cbn [andb].
    cbn [str_take str_drop]. rewrite string_app_cons, string_app_nil_l. f_equal; by apply unquote_step.
Qed.

(** The two-byte escapes, by the byte after the backslash. *)
Definition short_escapes : list (ascii * Z) :=
  map (fun '(c, z) => (zb c, z)) [(98, 8); (102, 12); (110, 10); (114, 13); (116, 9); (92, 92); (34, 34)].

Lemma reads_short c z : (c, z) ∈ short_escapes -> reads_as (String "\" (String c "")) (bytes [z]).
Proof.
  intros Hin.
  assert (Hc : existsb (Z.eqb (bz c)) [98; 102; 110; 114; 116; 92; 47; 34] = true /\ bz c <> 117
    /\ (if bz c =? 98 then 8 else if bz c =? 102 then 12 else if bz c =? 110 then 10
        else if bz c =? 114 then 13 else if bz c =? 116 then 9 else bz c) = z).
  { unfold short_escapes in Hin. cbn [map] in Hin. repeat (apply elem_of_cons in Hin as [[= -> ->]|Hin]; [by vm_compute|]).
    by apply elem_of_nil in Hin. }
  destruct Hc as (He & Hu & Hz). split; intros x; rewrite !string_app_cons, string_app_nil_l.
  - cbn [string_body]. change (bz "\" =? 34) with false. change (bz "\" <? 32) with false. change (bz "\" =? 92) with true.
    cbn match. rewrite He. by destruct (string_body x) as [[]|].
  - unfold unquote at 1. cbn [String.length]. remember (S (String.length x)) as n eqn:Hn. cbn [unquote_fuel]. change (bz "\" =? 92) with true. cbn match.
    assert (Hg : getu4 (String "\" (String c x)) = None).
    { destruct x as [|h1 [|h2 [|h3 [|h4 x]]]]; try done. unfold getu4. by rewrite (proj2 (Z.eqb_neq _ 117) Hu), andb_false_r. }
    rewrite Hg. cbv zeta. rewrite Hz, unquote_step by lia. done.
Qed.

Lemma reads_u h1 h2 h3 h4 r :
  is_hex h1 && is_hex h2 && is_hex h3 && is_hex h4 = true ->
  ((hex_value h1 * 16 + hex_value h2) * 16 + hex_value h3) * 16 + hex_value h4 = r -> is_surrogate r = false ->
  reads_as (String "\" (String "u" (String h1 (String h2 (String h3 (String h4 "")))))) (append_rune r).
Proof.
  intros Hh Hr Hs. split; intros x; rewrite !string_app_cons, string_app_nil_l.
  - cbn [string_body]. change (bz "\" =? 34) with false. change (bz "\" <? 32) with false. change (bz "\" =? 92) with true.
    change (existsb (Z.eqb (bz "u")) [98; 102; 110; 114; 116; 92; 47; 34]) with false. change (bz "u" =? 117) with true.
    cbn match. rewrite Hh. by destruct (string_body x) as [[]|].
  - unfold unquote at 1. cbn [String.length].
    remember (S (S (S (S (S (String.length x)))))) as n eqn:Hn. cbn [unquote_fuel]. change (bz "\" =? 92) with true. cbn match.
    assert (Hg : getu4 (String "\" (String "u" (String h1 (String h2 (String h3 (String h4 x)))))) = Some (r, x)).
    { unfold getu4. change (bz "\" =? 92) with true. change (bz "u" =? 117) with true. cbn [andb]. by rewrite Hh, Hr. }
    rewrite Hg, Hs. rewrite unquote_step by lia. done.
Qed.

(** The runes written [\uXXXX], and the digits they are written with. *)
Definition hex_ok (r : Z) : bool :=
  match fmt_hex_lower 4 r with
  | String h1 (String h2 (String h3 (String h4 ""))) =>
      is_hex h1 && is_hex h2 && is_hex h3 && is_hex h4 && negb (is_surrogate r)
      && ((((hex_value h1 * 16 + hex_value h2) * 16 + hex_value h3) * 16 + hex_value h4) =? r)
  | _ => false
  end.

Lemma hex_ok_all : forallb hex_ok (seqZ 0 128 ++ [0x2028; 0x2029]) = true.
Proof. vm_compute. reflexivity. Qed.

Lemma reads_hex r : 0 <= r < 128 \/ r = 0x2028 \/ r = 0x2029 -> reads_as ("\u" +:+ fmt_hex_lower 4 r) (append_rune r).
Proof.
  intros Hr. pose proof hex_ok_all as H. rewrite forallb_forall in H. specialize (H r).
  rewrite <- list_elem_of_In, elem_of_app, elem_of_seqZ, !elem_of_cons in H. unfold hex_ok in H.
  specialize (H ltac:(naive_solver lia)). destruct (fmt_hex_lower 4 r) as [|h1 [|h2 [|h3 [|h4 [|]]]]]; try done.
  apply andb_true_iff in H as [H He%Z.eqb_eq]. apply andb_true_iff in H as [H Hs%negb_true_iff]. by apply reads_u.
Qed.

Lemma append_rune_ascii a : bz a < 0x80 -> append_rune (bz a) = String a "".
Proof. intros Ha. unfold append_rune. rewrite (proj2 (Z.ltb_lt _ _)) by done. unfold bytes. cbn. by rewrite zb_bz. Qed.

Lemma json_ascii_reads h a : bz a < 0x80 -> reads_as (json_chunk h (bz a, String a "")) (String a "").
Proof.
  intros Ha. destruct (self_delimiting_ascii a Ha) as (_ & _ & Hinv). unfold json_chunk. rewrite Hinv. cbn [fst snd].
  pose proof (bz_range a) as Hr.
  assert (Hs : forall c z, (c, z) ∈ short_escapes -> bz a = z -> reads_as (String "\" (String c "")) (String a "")).
  { intros c z Hin Hz. replace (String a "") with (bytes [z]); [by apply reads_short|]. unfold bytes. cbn. by rewrite (zb_eq a). }
  assert (Hin : forall p, bool_decide (p ∈ short_escapes) = true -> p ∈ short_escapes) by (intros p; apply bool_decide_eq_true).
  destruct ((bz a =? 34) || (bz a =? 92)) eqn:Hq.
  { apply orb_true_iff in Hq as [Hq%Z.eqb_eq|Hq%Z.eqb_eq]; apply (Hs a (bz a)); try done;
      replace a with (zb (bz a)) by apply zb_bz; rewrite Hq; by apply Hin. }
  apply orb_false_iff in Hq as [H34%Z.eqb_neq H92%Z.eqb_neq].
  destruct (Z.eqb_spec (bz a) 8); [by apply (Hs "b"%char 8); [apply Hin|]|].
  destruct (Z.eqb_spec (bz a) 12); [by apply (Hs "f"%char 12); [apply Hin|]|].
  destruct (Z.eqb_spec (bz a) 10); [by apply (Hs "n"%char 10); [apply Hin|]|].
  destruct (Z.eqb_spec (bz a) 13); [by apply (Hs "r"%char 13); [apply Hin|]|].
  destruct (Z.eqb_spec (bz a) 9); [by apply (Hs "t"%char 9); [apply Hin|]|].
  case_match; [rewrite <- (append_rune_ascii a Ha); apply reads_hex; lia|].
  rewrite (proj2 (Z.eqb_neq _ 0x2028)), (proj2 (Z.eqb_neq _ 0x2029)) by lia. cbn [orb].
  apply orb_false_iff in H as [H%Z.ltb_ge _]. apply reads_plain; lia.
Qed.

Lemma json_chunk_reads h s c : c ∈ runes s -> reads_as (json_chunk h c) (stands_for c).
Proof.
  destruct c as [r c]. intros Hin. unfold stands_for. destruct (invalid_chunk (r, c)) eqn:Hinv.
  { unfold json_chunk. rewrite Hinv. by apply (reads_u "f" "f" "f" "d"). }
  pose proof (runes_self_delimiting s r c Hin Hinv) as Hs. cbn [snd].
  destruct (self_delimiting_cases r c Hs) as [(a & -> & -> & Ha)|(Hr & Hh & Ha)]; [by apply json_ascii_reads|].
  unfold json_chunk. rewrite Hinv. cbn [fst snd].
  repeat match goal with |- context [r =? ?z] => rewrite (proj2 (Z.eqb_neq r z)) by lia end.
  rewrite (proj2 (Z.ltb_ge r 32)), andb_false_r by lia. cbn [orb].
  destruct (Z.eqb_spec r 0x2028) as [->|]; [rewrite <- Ha; apply reads_hex; lia|].
  destruct (Z.eqb_spec r 0x2029) as [->|]; [rewrite <- Ha; apply reads_hex; lia|].
  by apply (reads_high c r).
Qed.

(** ** Whole strings *)

Lemma concat_reads (f g : Z * string -> string) l :
  Forall (fun c => reads_as (f c) (g c)) l ->
  reads_as (foldr (fun c acc => f c +:+ acc) "" l) (foldr (fun c acc => g c +:+ acc) "" l).
Proof.
  induction 1 as [|c l [Hb Hu] _ [IHb IHu]]; cbn [foldr].
  - split; intros x; rewrite !string_app_nil_l; [by destruct (string_body x) as [[]|]|done].
  - split; intros x; rewrite <- !string_app_assoc.
    + rewrite Hb, IHb. destruct (string_body x) as [[b r]|]; [by rewrite string_app_assoc|done].
    + by rewrite Hu, IHu.
Qed.

Lemma json_string_reads h s : reads_as (concat_chunks (json_chunk h) s) (repaired s).
Proof. apply concat_reads, Forall_forall. intros c Hc. by apply (json_chunk_reads h s). Qed.

(** The literal written for [s] is read whole, whatever follows it, and stands for [repaired s]. *)
Lemma string_body_json h s x :
  string_body (concat_chunks (json_chunk h) s +:+ dquote +:+ x) = Some (concat_chunks (json_chunk h) s, x).
Proof. rewrite (proj1 (json_string_reads h s)). change (string_body (dquote +:+ x)) with (Some (EmptyString, x)). cbn match. by rewrite string_app_nil_r. Qed.

Lemma unquote_json h s : unquote (concat_chunks (json_chunk h) s) = repaired s.
Proof.
  pose proof (proj2 (json_string_reads h s) "") as H. rewrite string_app_nil_r in H. rewrite H.
  change (unquote "") with "". apply string_app_nil_r.
Qed.

(** ** Lists of strings *)

Definition marshal_strings (l : list string) : string :=
  "[" +:+ String.concat "," (map (json_string true) l) +:+ "]".

(** [json.Unmarshal] into a nil [[]string]; [None] is an error. *)
Definition unmarshal_strings (raw : string) : option (list string) :=
  match parse_json raw with
  | Some JNull => Some []
  | Some (JArr l) => mapM (fun j => match j with JStr b => Some (unquote b) | JNull => Some "" | _ => None end) l
  | _ => None
  end.

Example unmarshal_strings_ex :
  unmarshal_strings (dq " [ 'a\n' , null,'\u00e9\\' ]") = Some ["a" +:+ bytes [10]; ""; bytes [195; 169; 92]]
  /\ unmarshal_strings "null" = Some [] /\ unmarshal_strings "[1]" = None.
Proof. vm_compute. done. Qed.

Lemma value_json_string f d s x :
  value (S f) d (json_string true s +:+ x) = Some (JStr (concat_chunks (json_chunk true) s), x).
Proof.
  unfold json_string. rewrite <- !string_app_assoc. set (rest := concat_chunks _ _ +:+ _).
  change (dquote +:+ rest) with (String (zb 34) rest). cbn [value skip_space]. change (is_space (zb 34)) with false. cbn match.
  change (bz (zb 34) =? 34) with true. cbn match. subst rest. by rewrite string_body_json.
Qed.

Definition bodies (l : list string) : list json := map (fun s => JStr (concat_chunks (json_chunk true) s)) l.

Lemma elements_json f g d acc s l x :
  (length l < g)%nat ->
  elements (value (S f)) g d acc (String.concat "," (map (json_string true) (s :: l)) +:+ String "]" x)
  = Some (acc ++ bodies (s :: l), x).
Proof.
  revert g acc s. induction l as [|s' l IH]; intros [|g] acc s Hg; simpl in Hg; try lia.
  - cbn [map String.concat elements]. rewrite value_json_string. done.
  - change (String.concat "," (map (json_string true) (s :: s' :: l)))
      with (json_string true s +:+ String "," (String.concat "," (map (json_string true) (s' :: l)))).
    rewrite <- string_app_assoc, string_app_cons. cbn [elements]. rewrite value_json_string. cbn [mbind option_bind].
    cbn [skip_space]. change (is_space ",") with false. cbn match. change (bz "," =? 44) with true. cbn match.
    rewrite IH by (simpl; lia). unfold bodies. cbn [map]. by rewrite <- app_assoc.
Qed.

Lemma concat_json_length s l :
  (length l < String.length (String.concat "," (map (json_string true) (s :: l))))%nat.
Proof.
  assert (Hs : forall s, (0 < String.length (json_string true s))%nat).
  { intros s'. unfold json_string. rewrite string_length_app. unfold dquote. simpl. lia. }
  revert s. induction l as [|s' l IH]; intros s; [apply Hs|].
  change (String.concat "," (map (json_string true) (s :: s' :: l)))
    with (json_string true s +:+ String "," (String.concat "," (map (json_string true) (s' :: l)))).
  rewrite string_length_app. cbn [String.length length]. specialize (IH s'). lia.
Qed.

Lemma skip_space_json s l x :
  skip_space (String.concat "," (map (json_string true) (s :: l)) +:+ x)
  = String.concat "," (map (json_string true) (s :: l)) +:+ x
  /\ exists y, String.concat "," (map (json_string true) (s :: l)) +:+ x = String (zb 34) y.
Proof.
  assert (H : exists y, String.concat "," (map (json_string true) (s :: l)) +:+ x = String (zb 34) y).
  { destruct l; cbn [map String.concat]; unfold json_string; rewrite <- ?string_app_assoc; eexists; reflexivity. }
  split; [|done]. destruct H as [y ->]. done.
Qed.

(** An array whose first element is a string. *)
Lemma value_array f d s y :
  skip_space s = String (zb 34) y ->
  value (S f) (S d) (String "[" s) = (let? '(l, r) := elements (value f) f d [] s in Some (JArr l, r)).
Proof.
  intros H. cbn [value skip_space]. change (is_space "[") with false. cbn match.
  change (bz "[" =? 34) with false. change (bz "[" =? 91) with true. cbn match. by rewrite H.
Qed.

Lemma parse_marshal l : parse_json (marshal_strings l) = Some (JArr (bodies l)).
Proof.
  unfold parse_json, marshal_strings. rewrite string_app_cons, string_app_nil_l. destruct l as [|s l]; [by vm_compute|].
  pose proof (concat_json_length s l) as Hl. destruct (skip_space_json s l "]") as [Hsk [y Hy]].
  set (body := String.concat "," _) in *. cbn [String.length]. rewrite string_length_app. cbn [String.length].
  replace (String.length body + 1)%nat with (S (String.length body)) by lia.
  change maxNestingDepth with (S (Nat.pred maxNestingDepth)).
  assert (Hv : value (S (S (S (String.length body)))) (S (Nat.pred maxNestingDepth)) (String "[" (body +:+ "]"))
    = Some (JArr (bodies (s :: l)), "")); [|by rewrite Hv].
  rewrite (value_array _ _ _ y) by (by rewrite Hsk). change "]" with (String "]" "") at 1. subst body.
  by rewrite elements_json by lia.
Qed.

(** A list of strings stored and read back: the list, with its invalid bytes replaced. *)
Lemma unmarshal_marshal l : unmarshal_strings (marshal_strings l) = Some (map repaired l).
Proof.
  unfold unmarshal_strings. rewrite parse_marshal. induction l as [|s l IH]; [done|].
  unfold bodies in *. cbn [map mapM] in *. rewrite unquote_json, IH. done.
Qed.
