(* ===== verification/RegistryStore.v ===== *)
(** * The registry's SQLite adapter ([internal/registry/sqlite])

    [upstream_servers] as the texts its columns hold, keyed by name.  [Register], [Get], [List],
    [UpdateImage] and [Deregister], each one statement or one transaction: a failure of the database
    changes nothing.  The theorem: the table implements the port, a map from names to entries, for every
    history of operations; and what [List] gives a round has one entry per name. *)
From Stdlib Require Import ZArith Lia Ascii.
From stdpp Require Import base strings list gmap sorting.
From S2P Require Import Prelude.
From S2P Require Import GoStrings.
From S2P Require Import Utf8.
From S2P Require Import GoTime.
From S2P Require Import Json.
From S2P Require Import JsonStrings.
From S2P Require Import Registry.

#[local] Opaque format_seconds parse_time.

(** ** The table *)

Record upstream_row := {
  c_transport : string; c_command : string; c_args : string; c_url : string; c_image : string; c_env : string;
  c_created : string; c_updated : string; c_authKind : string; c_authName : string; c_operations : string
}.

Inductive scan_error := BadArgs | BadEnv | BadCreated | BadUpdated.

Inductive repo_error :=
| ErrInvalid (e : registry_error)
| ErrNotOCI (t : Transport)                          (* wraps ErrInvalid too *)
| ErrAlreadyExists
| ErrNotFound
| Corrupt (e : scan_error)                           (* a stored text that does not decode *)
| DatabaseFault.

Section store.
Context `{UP : UrlParser}.

Abbreviation table := (gmap string upstream_row).

Definition row_of (s : UpstreamServer) (now : time) : upstream_row :=
  {| c_transport := STransport s; c_command := Command s; c_args := marshal_strings (Args s); c_url := URL s;
     c_image := Image s; c_env := marshal_strings (EnvVarNames s); c_created := format_seconds now;
     c_updated := format_seconds now; c_authKind := SAuthKind s; c_authName := AuthName s; c_operations := Operations s |}.

(** [scanUpstreamServer], of the row of that name. *)
Definition scanUpstreamServer (name : string) (r : upstream_row) : result scan_error UpstreamServer :=
  match unmarshal_strings (c_args r) with
  | None => Err BadArgs
  | Some args =>
      match unmarshal_strings (c_env r) with
      | None => Err BadEnv
      | Some env =>
          match parse_time (c_created r) with
          | None => Err BadCreated
          | Some created =>
              match parse_time (c_updated r) with
              | None => Err BadUpdated
              | Some updated =>
                  Ok {| Name := name; STransport := c_transport r; Command := c_command r; Args := args; Image := c_image r;
                        URL := c_url r; EnvVarNames := env; SAuthKind := c_authKind r; AuthName := c_authName r;
                        Operations := c_operations r; CreatedAt := created; UpdatedAt := updated |}
              end
          end
      end
  end.

(** [fault]: the database refused a statement, or the commit. *)
Definition Register (t : table) (fault : bool) (now : time) (s : UpstreamServer) : result repo_error table :=
  match Validate s with
  | Some e => Err (ErrInvalid e)
  | None =>
      if fault then Err DatabaseFault
      else match t !! Name s with
           | Some _ => Err ErrAlreadyExists
           | None => Ok (<[Name s := row_of s now]> t)
           end
  end.

Definition Get (t : table) (fault : bool) (name : string) : result repo_error UpstreamServer :=
  if fault then Err DatabaseFault
  else match t !! name with
       | None => Err ErrNotFound
       | Some r => match scanUpstreamServer name r with Ok s => Ok s | Err e => Err (Corrupt e) end
       end.

Fixpoint scan_all (rows : list (string * upstream_row)) : result repo_error (list UpstreamServer) :=
  match rows with
  | [] => Ok []
  | (name, r) :: rest =>
      match scanUpstreamServer name r with
      | Err e => Err (Corrupt e)
      | Ok s => match scan_all rest with Ok l => Ok (s :: l) | Err e => Err e end
      end
  end.

(** [ORDER BY name]. *)
Definition List (t : table) (fault : bool) : result repo_error (list UpstreamServer) :=
  if fault then Err DatabaseFault else scan_all (sort_by fst (map_to_list t)).

Definition with_image (s : UpstreamServer) (image : string) : UpstreamServer :=
  {| Name := Name s; STransport := STransport s; Command := Command s; Args := Args s; Image := image; URL := URL s;
     EnvVarNames := EnvVarNames s; SAuthKind := SAuthKind s; AuthName := AuthName s; Operations := Operations s;
     CreatedAt := CreatedAt s; UpdatedAt := UpdatedAt s |}.

Definition updated_at (s : UpstreamServer) (at_ : time) : UpstreamServer :=
  {| Name := Name s; STransport := STransport s; Command := Command s; Args := Args s; Image := Image s; URL := URL s;
     EnvVarNames := EnvVarNames s; SAuthKind := SAuthKind s; AuthName := AuthName s; Operations := Operations s;
     CreatedAt := CreatedAt s; UpdatedAt := at_ |}.

Definition update_row (r : upstream_row) (image : string) (now : time) : upstream_row :=
  {| c_transport := c_transport r; c_command := c_command r; c_args := c_args r; c_url := c_url r; c_image := image;
     c_env := c_env r; c_created := c_created r; c_updated := format_seconds now; c_authKind := c_authKind r;
     c_authName := c_authName r; c_operations := c_operations r |}.

(** The entry as stored, with the table; the transaction can fail where it starts and reads, or where it
    writes and commits. *)
Definition UpdateImage (t : table) (read_fault write_fault : bool) (now : time) (name image : string)
  : result repo_error (table * UpstreamServer) :=
  if read_fault then Err DatabaseFault
  else match t !! name with
       | None => Err ErrNotFound
       | Some r =>
           match scanUpstreamServer name r with
           | Err e => Err (Corrupt e)
           | Ok s =>
               if negb (bool_decide (STransport s = TransportOCI)) then Err (ErrNotOCI (STransport s))
               else match Validate (with_image s image) with
                    | Some e => Err (ErrInvalid e)
                    | None =>
                        if write_fault then Err DatabaseFault
                        else Ok (<[name := update_row r image now]> t, updated_at (with_image s image) (whole_seconds now))
                    end
           end
       end.

Definition Deregister (t : table) (fault : bool) (name : string) : result repo_error table :=
  if fault then Err DatabaseFault
  else match t !! name with None => Err ErrNotFound | Some _ => Ok (delete name t) end.

(** ** The port: a map from names to entries *)

Inductive repo_op :=
| OpRegister (fault : bool) (now : time) (s : UpstreamServer)
| OpUpdateImage (read_fault write_fault : bool) (now : time) (name image : string)
| OpDeregister (fault : bool) (name : string).

Definition op_clock (op : repo_op) : Prop :=
  match op with OpRegister _ now _ | OpUpdateImage _ _ now _ _ => clock_reading now | OpDeregister _ _ => True end.

Definition repo_answer := result repo_error (option UpstreamServer).

Definition apply_op (op : repo_op) (t : table) : table * repo_answer :=
  match op with
  | OpRegister fault now s =>
      match Register t fault now s with Ok t' => (t', Ok None) | Err e => (t, Err e) end
  | OpUpdateImage rf wf now name image =>
      match UpdateImage t rf wf now name image with Ok (t', s) => (t', Ok (Some s)) | Err e => (t, Err e) end
  | OpDeregister fault name =>
      match Deregister t fault name with Ok t' => (t', Ok None) | Err e => (t, Err e) end
  end.

(** An entry as the registry keeps it: its times whole seconds, its lists valid UTF-8. *)
Definition as_kept (s : UpstreamServer) (now : time) : UpstreamServer :=
  {| Name := Name s; STransport := STransport s; Command := Command s; Args := map repaired (Args s); Image := Image s;
     URL := URL s; EnvVarNames := map repaired (EnvVarNames s); SAuthKind := SAuthKind s; AuthName := AuthName s;
     Operations := Operations s; CreatedAt := whole_seconds now; UpdatedAt := whole_seconds now |}.

(** What the port promises of each operation. *)
Definition promised (op : repo_op) (m : gmap string UpstreamServer) : gmap string UpstreamServer * repo_answer :=
  match op with
  | OpRegister fault now s =>
      match Validate s with
      | Some e => (m, Err (ErrInvalid e))
      | None =>
          if fault then (m, Err DatabaseFault)
          else match m !! Name s with
               | Some _ => (m, Err ErrAlreadyExists)
               | None => (<[Name s := as_kept s now]> m, Ok None)
               end
      end
  | OpUpdateImage rf wf now name image =>
      if rf then (m, Err DatabaseFault)
      else match m !! name with
           | None => (m, Err ErrNotFound)
           | Some s =>
               if bool_decide (STransport s = TransportOCI) then
                 match Validate (with_image s image) with
                 | Some e => (m, Err (ErrInvalid e))
                 | None =>
                     let s' := updated_at (with_image s image) (whole_seconds now) in
                     if wf then (m, Err DatabaseFault) else (<[name := s']> m, Ok (Some s'))
                 end
               else (m, Err (ErrNotOCI (STransport s)))
           end
  | OpDeregister fault name =>
      if fault then (m, Err DatabaseFault)
      else match m !! name with None => (m, Err ErrNotFound) | Some _ => (delete name m, Ok None) end
  end.

(** ** The table holds the map *)

Definition holds (t : table) (m : gmap string UpstreamServer) : Prop :=
  forall name, match t !! name with
               | Some r => exists e, m !! name = Some e /\ scanUpstreamServer name r = Ok e
               | None => m !! name = None
               end.

Lemma scan_row_of s now : clock_reading now -> scanUpstreamServer (Name s) (row_of s now) = Ok (as_kept s now).
Proof.
  intros Hn. unfold scanUpstreamServer, row_of. cbn [c_args c_env c_created c_updated]. by rewrite !unmarshal_marshal, parse_format_seconds.
Qed.

Lemma scan_update_row name r image now e :
  clock_reading now -> scanUpstreamServer name r = Ok e ->
  scanUpstreamServer name (update_row r image now) = Ok (updated_at (with_image e image) (whole_seconds now)).
Proof.
  intros Hn. unfold scanUpstreamServer, update_row. cbn [c_args c_env c_created c_updated]. rewrite parse_format_seconds by done.
  destruct (unmarshal_strings (c_args r)); [|done]. destruct (unmarshal_strings (c_env r)); [|done].
  destruct (parse_time (c_created r)); [|done]. destruct (parse_time (c_updated r)); [|done]. by intros [= <-].
Qed.

Lemma scan_name name r e : scanUpstreamServer name r = Ok e -> Name e = name.
Proof. unfold scanUpstreamServer. repeat case_match; try done. by intros [= <-]. Qed.

Lemma holds_insert t m name r e :
  holds t m -> scanUpstreamServer name r = Ok e -> holds (<[name := r]> t) (<[name := e]> m).
Proof.
  intros Hh Hs n. destruct (decide (n = name)) as [->|Hne].
  - rewrite !lookup_insert_eq. eauto.
  - rewrite !lookup_insert_ne by done. apply Hh.
Qed.

Lemma holds_delete t m name : holds t m -> holds (delete name t) (delete name m).
Proof.
  intros Hh n. destruct (decide (n = name)) as [->|Hne]; [by rewrite !lookup_delete_eq|].
  rewrite !lookup_delete_ne by done. apply Hh.
Qed.

Lemma apply_promised op t m :
  op_clock op -> holds t m ->
  (apply_op op t).2 = (promised op m).2 /\ holds (apply_op op t).1 (promised op m).1.
Proof.
  intros Hc Hh. destruct op as [fault now s|rf wf now name image|fault name]; cbn [apply_op promised op_clock] in *.
  - unfold Register. destruct (Validate s); [done|]. destruct fault; [done|]. specialize (Hh (Name s)) as Hn.
    destruct (t !! Name s) as [r|]; [destruct Hn as (e & -> & _); done|]. rewrite Hn. cbn [fst snd]. split; [done|].
    by apply holds_insert, scan_row_of.
  - unfold UpdateImage. destruct rf; [done|]. specialize (Hh name) as Hn.
    destruct (t !! name) as [r|]; [|by rewrite Hn]. destruct Hn as (e & -> & Hs). rewrite Hs.
    case_bool_decide; [|done]. cbn [negb]. destruct (Validate _); [done|]. destruct wf; [done|]. cbn [fst snd]. split; [done|].
    by apply holds_insert, scan_update_row.
  - unfold Deregister. destruct fault; [done|]. specialize (Hh name) as Hn.
    destruct (t !! name) as [r|]; [destruct Hn as (e & -> & _)|by rewrite Hn]. split; [done|]. by apply holds_delete.
Qed.

(** ** The reads *)

Lemma Get_holds t m name :
  holds t m -> Get t false name = match m !! name with Some e => Ok e | None => Err ErrNotFound end.
Proof.
  intros Hh. specialize (Hh name). unfold Get. destruct (t !! name); [|by rewrite Hh]. by destruct Hh as (e & -> & ->).
Qed.

Lemma scan_all_holds t m rows :
  holds t m -> (forall nr, nr ∈ rows -> t !! nr.1 = Some nr.2) ->
  exists l, scan_all rows = Ok l /\ map Name l = map fst rows /\ Forall (fun e => m !! Name e = Some e) l.
Proof.
  intros Hh. induction rows as [|[name r] rows IH]; intros Hr; cbn [scan_all]; [by exists []|].
  destruct IH as (l & -> & Hm & Hl); [intros nr ?; apply Hr; by right|].
  specialize (Hr (name, r) (list_elem_of_here _ _)). cbn in Hr. specialize (Hh name). rewrite Hr in Hh.
  destruct Hh as (e & He & Hs). rewrite Hs. pose proof (scan_name _ _ _ Hs) as Hn. exists (e :: l).
  cbn [map]. rewrite Hm, Hn. split_and!; [done|done|]. constructor; [by rewrite Hn|done].
Qed.

(** What [List] returns: every entry once, by name. *)
Definition listed (m : gmap string UpstreamServer) (l : list UpstreamServer) : Prop :=
  StronglySorted str_le (map Name l) /\ NoDup (map Name l) /\ forall e, e ∈ l <-> m !! Name e = Some e.

Lemma sort_by_keys {A} (rows : list (string * A)) : StronglySorted str_le (map fst (sort_by fst rows)).
Proof.
  pose proof (sort_by_sorted fst rows) as H. induction H as [|x l Hs IH Hx]; [constructor|]. cbn. constructor; [done|].
  by apply Forall_fmap.
Qed.

Lemma List_holds t m : holds t m -> exists l, List t false = Ok l /\ listed m l.
Proof.
  intros Hh. unfold List.
  destruct (scan_all_holds t m (sort_by fst (map_to_list t)) Hh) as (l & -> & Hm & Hl).
  { intros [n r] Hin. rewrite elem_of_sort_by in Hin. by apply elem_of_map_to_list in Hin. }
  exists l. split; [done|]. unfold listed. rewrite Hm. split_and!.
  - apply sort_by_keys.
  - change (NoDup (sort_by fst (map_to_list t)).*1). rewrite sort_by_Permutation. apply NoDup_fst_map_to_list.
  - intros e. split; [by intros He; rewrite Forall_forall in Hl; apply Hl|]. intros He.
    assert (Hn : Name e ∈ map Name l).
    { rewrite Hm. apply list_elem_of_fmap. specialize (Hh (Name e)). destruct (t !! Name e) as [r|] eqn:Hr; [|congruence].
      exists (Name e, r). split; [done|]. by rewrite elem_of_sort_by; apply elem_of_map_to_list. }
    apply list_elem_of_fmap in Hn as (e' & Hn & Hin). rewrite Forall_forall in Hl. pose proof (Hl e' Hin) as He'.
    rewrite <- Hn, He in He'. by injection He' as ->.
Qed.

(** C37 [registry_refines]: the adapter implements the port.  For every history of operations, with faults
    of the database anywhere, the answers are those a map from names to entries gives, a failed
    operation changes nothing, and afterwards [Get] reads that map and [List] gives every entry of it
    once, by name; entries keep every field as registered, their times in whole seconds, and their
    lists up to bytes that are not UTF-8. *)
Theorem registry_refines ops :
  Forall op_clock ops ->
  let '(t, answers) := run_history apply_op ops ∅ in
  let '(m, promises) := run_history promised ops ∅ in
  answers = promises
  /\ (forall name, Get t false name = match m !! name with Some e => Ok e | None => Err ErrNotFound end)
  /\ exists l, List t false = Ok l /\ listed m l.
Proof.
  intros Hc. destruct (run_history_sim holds op_clock _ _ apply_promised ops ∅ ∅ Hc) as [Ha Hh]; [by intros n; rewrite !lookup_empty|].
  destruct (run_history apply_op ops ∅) as [t answers], (run_history promised ops ∅) as [m promises]. cbn [fst snd] in *.
  split_and!; [done|intros name; by apply Get_holds|by apply List_holds].
Qed.
End store.

(** ** Witness: an oci entry registered, refused a second time, its image replaced *)

Definition demo_parser : UrlParser := {| url_parse := fun _ => None |}.
Definition demo_digest : string := "@sha256:" +:+ String.string_of_list_ascii (repeat "a"%char 64).
Definition demo_oci : UpstreamServer :=
  {| Name := "casemgmt"; STransport := TransportOCI; Command := ""; Args := ["--title"; "<caf" +:+ bytes [195; 169] +:+ ">"];
     Image := "mcp-casemgmt" +:+ demo_digest; URL := ""; EnvVarNames := ["CASE_TOKEN"]; SAuthKind := AuthNone; AuthName := "";
     Operations := ""; CreatedAt := zero_time; UpdatedAt := zero_time |}.
Definition demo_clock : time := Time (63893739845 * second + 120000000) 0.
Definition demo_ops : list repo_op :=
  [OpRegister false demo_clock demo_oci; OpRegister false demo_clock demo_oci;
   OpUpdateImage false false demo_clock "casemgmt" ("mcp-casemgmt-2" +:+ demo_digest); OpDeregister true "casemgmt"].

Lemma demo_ops_clocks : Forall op_clock demo_ops.
Proof. repeat constructor; try (by vm_compute). Qed.

Lemma registry_refines_witness :
  Forall op_clock demo_ops
  /\ map is_ok (run_history (apply_op (UP := demo_parser)) demo_ops ∅).2 = [true; false; true; false]
  /\ (run_history (apply_op (UP := demo_parser)) demo_ops ∅).2 = (run_history (promised (UP := demo_parser)) demo_ops ∅).2.
Proof.
  split; [exact demo_ops_clocks|]. split; [vm_compute; reflexivity|].
  pose proof (registry_refines (UP := demo_parser) demo_ops demo_ops_clocks) as H.
  destruct (run_history apply_op demo_ops ∅) as [t answers], (run_history promised demo_ops ∅) as [m promises]. exact (proj1 H).
Defined.
