(* ===== verification/Prog.v ===== *)
(** * Programs with effects

    A Go function that reads and writes shared state, calls stores and backends, and may be cut short
    by a panic, as a tree: what it does next depends on what the environment answered.  An answer is
    the environment's, so a statement about every run of a program holds whatever other requests,
    operators or backends do in between.  [finally] and [contain] are Go's [defer] and [recover].
    [wp] is the postcondition calculus the theorems use; [runs] is the relation they are stated with. *)
From stdpp Require Import base list.
From S2P Require Import Prelude.

(** What an effect comes back with: a value, or a panic of the code that was called. *)
Inductive reply (R : Type) := Val (r : R) | Blew.
Arguments Val {R} r.
Arguments Blew {R}.

(** How a program ends.  [Panicked d] is an uncontained panic; [d] is whether it was raised after the
    point [after_mark] marks. *)
Inductive outcome (A : Type) := Done (a : A) | Panicked (d : bool).
Arguments Done {A} a.
Arguments Panicked {A} d.

(** An effect signature: the operations, their answers, and which of them run code that may panic. *)
Class Effects := {
  eff : Type;
  ans : eff -> Type;
  may_panic : eff -> bool
}.

Section prog.
Context `{E : Effects}.

Inductive prog (A : Type) : Type :=
| Ret (a : A)
| Panic (d : bool)
| Vis (e : eff) (k : reply (ans e) -> prog A).
Arguments Ret {A} a.
Arguments Panic {A} d.
Arguments Vis {A} e k.

Fixpoint bind {A B} (p : prog A) (f : A -> prog B) : prog B :=
  match p with
  | Ret a => f a
  | Panic d => Panic d
  | Vis e k => Vis e (fun r => bind (k r) f)
  end.

Definition trigger (e : eff) : prog (ans e) :=
  Vis e (fun r => match r with Val x => Ret x | Blew => Panic false end).

(** [defer fin()]: run on the way out, value or panic. *)
Fixpoint finally {A} (p : prog A) (fin : prog unit) : prog A :=
  match p with
  | Ret a => bind fin (fun _ => Ret a)
  | Panic d => bind fin (fun _ => Panic d)
  | Vis e k => Vis e (fun r => finally (k r) fin)
  end.

(** [defer] of a function that recovers: a panic becomes what [h] makes of it. *)
Fixpoint contain {A} (p : prog A) (h : bool -> prog A) : prog A :=
  match p with
  | Ret a => Ret a
  | Panic d => h d
  | Vis e k => Vis e (fun r => contain (k r) h)
  end.

(** The rest of a function after [dispatched = true]: a panic from here on finds the flag set. *)
Fixpoint after_mark {A} (p : prog A) : prog A :=
  match p with
  | Ret a => Ret a
  | Panic _ => Panic true
  | Vis e k => Vis e (fun r => after_mark (k r))
  end.

(** ** Runs *)

Record event := Ev { ev_eff : eff; ev_ans : reply (ans ev_eff) }.

Definition blew (ev : event) : bool := match ev_ans ev with Blew => true | Val _ => false end.

Definition ok_reply (e : eff) (r : reply (ans e)) : Prop :=
  match r with Val _ => True | Blew => may_panic e = true end.

Inductive runs {A} : prog A -> list event -> outcome A -> Prop :=
| runs_ret a : runs (Ret a) [] (Done a)
| runs_panic d : runs (Panic d) [] (Panicked d)
| runs_vis e k r tr out : ok_reply e r -> runs (k r) tr out -> runs (Vis e k) (Ev e r :: tr) out.

(** The run against an environment that answers each effect the same way every time. *)
Fixpoint exec {A} (h : forall e : eff, reply (ans e)) (p : prog A) : list event * outcome A :=
  match p with
  | Ret a => ([], Done a)
  | Panic d => ([], Panicked d)
  | Vis e k => let '(tr, out) := exec h (k (h e)) in (Ev e (h e) :: tr, out)
  end.

Lemma exec_runs {A} (h : forall e, reply (ans e)) (p : prog A) :
  (forall e, ok_reply e (h e)) -> runs p (fst (exec h p)) (snd (exec h p)).
Proof.
  intros Hh. induction p as [a|d|e k IH]; cbn [exec]; [constructor|constructor|].
  specialize (IH (h e)). destruct (exec h (k (h e))) as [tr out]. cbn [fst snd] in *. by constructor.
Qed.

Lemma exec_answers {A} (h : forall e, reply (ans e)) (p : prog A) ev :
  ev ∈ fst (exec h p) -> ev_ans ev = h (ev_eff ev).
Proof.
  induction p as [a|d|e k IH]; cbn [exec]; [by intros ?%not_elem_of_nil|by intros ?%not_elem_of_nil|].
  specialize (IH (h e)). destruct (exec h (k (h e))) as [tr out]. intros [->|Hin]%elem_of_cons; [done|by apply IH].
Qed.

(** ** Postconditions *)

Fixpoint wp {A} (p : prog A) (Q : list event -> outcome A -> Prop) : Prop :=
  match p with
  | Ret a => Q [] (Done a)
  | Panic d => Q [] (Panicked d)
  | Vis e k => forall r, ok_reply e r -> wp (k r) (fun tr out => Q (Ev e r :: tr) out)
  end.

Lemma wp_runs {A} (p : prog A) Q : wp p Q <-> forall tr out, runs p tr out -> Q tr out.
Proof.
  split.
  - intros H tr out Hr. revert Q H. induction Hr as [a|d|e k r tr out Hok _ IH]; intros Q H; cbn [wp] in H; try done.
    by apply (IH (fun tr out => Q (Ev e r :: tr) out)), H.
  - revert Q. induction p as [a|d|e k IH]; intros Q H; cbn [wp]; [apply H; constructor|apply H; constructor|].
    intros r Hok. apply IH. intros tr out Hr. apply H. by constructor.
Qed.

Lemma wp_mono {A} (p : prog A) (P Q : list event -> outcome A -> Prop) :
  (forall tr out, P tr out -> Q tr out) -> wp p P -> wp p Q.
Proof. rewrite !wp_runs. eauto. Qed.

Lemma wp_conj {A} (p : prog A) (P Q : list event -> outcome A -> Prop) :
  wp p P -> wp p Q -> wp p (fun tr out => P tr out /\ Q tr out).
Proof. rewrite !wp_runs. eauto. Qed.

Lemma wp_true {A} (p : prog A) (Q : list event -> outcome A -> Prop) : (forall tr out, Q tr out) -> wp p Q.
Proof. rewrite wp_runs. eauto. Qed.

Lemma wp_bind {A B} (p : prog A) (f : A -> prog B) Q :
  wp p (fun tr1 out => match out with
    | Done a => wp (f a) (fun tr2 out2 => Q (tr1 ++ tr2) out2)
    | Panicked d => Q tr1 (Panicked d)
    end) ->
  wp (bind p f) Q.
Proof.
  revert Q. induction p as [a|d|e k IH]; intros Q H; cbn [wp bind] in *; [done|done|].
  intros r Hok. apply IH. eapply wp_mono; [|by apply H]. by intros tr [a|d].
Qed.

Lemma wp_finally {A} (p : prog A) (fin : prog unit) Q :
  wp p (fun tr1 out => wp fin (fun tr2 out2 => Q (tr1 ++ tr2)
    match out2 with Done _ => out | Panicked d => Panicked d end)) ->
  wp (finally p fin) Q.
Proof.
  revert Q. induction p as [a|d|e k IH]; intros Q H; cbn [wp finally] in *.
  - apply wp_bind. eapply wp_mono; [|exact H]. intros tr [[]|d']; simpl; by rewrite ?app_nil_r.
  - apply wp_bind. eapply wp_mono; [|exact H]. intros tr [[]|d']; simpl; by rewrite ?app_nil_r.
  - intros r Hok. apply IH. eapply wp_mono; [|by apply H]. done.
Qed.

Lemma wp_contain {A} (p : prog A) (h : bool -> prog A) Q :
  wp p (fun tr1 out => match out with
    | Done a => Q tr1 (Done a)
    | Panicked d => wp (h d) (fun tr2 out2 => Q (tr1 ++ tr2) out2)
    end) ->
  wp (contain p h) Q.
Proof.
  revert Q. induction p as [a|d|e k IH]; intros Q H; cbn [wp contain] in *; [done|done|].
  intros r Hok. apply IH. eapply wp_mono; [|by apply H]. by intros tr [a|d].
Qed.

Lemma wp_after_mark {A} (p : prog A) Q :
  wp p (fun tr out => Q tr match out with Done a => Done a | Panicked _ => Panicked true end) ->
  wp (after_mark p) Q.
Proof.
  revert Q. induction p as [a|d|e k IH]; intros Q H; cbn [wp after_mark] in *; [done|done|].
  intros r Hok. apply IH. eapply wp_mono; [|by apply H]. done.
Qed.

Lemma wp_trigger (e : eff) Q :
  (forall x, Q [Ev e (Val x)] (Done x)) -> (may_panic e = true -> Q [Ev e Blew] (Panicked false)) ->
  wp (trigger e) Q.
Proof. intros HV HB [x|] Hok; [apply HV|by apply HB]. Qed.

(** The same, with the events so far in hand: how a proof walks along a program. *)
Definition wpa {A} (acc : list event) (p : prog A) (Q : list event -> outcome A -> Prop) : Prop :=
  wp p (fun tr out => Q (acc ++ tr) out).

Lemma wpa_runs {A} (p : prog A) Q : wpa [] p Q -> forall tr out, runs p tr out -> Q tr out.
Proof. unfold wpa. rewrite wp_runs. auto. Qed.

Lemma wpa_mono {A} acc (p : prog A) (P Q : list event -> outcome A -> Prop) :
  (forall tr out, P tr out -> Q tr out) -> wpa acc p P -> wpa acc p Q.
Proof. intros H. apply wp_mono. auto. Qed.

Lemma wpa_ret {A} acc (a : A) (Q : list event -> outcome A -> Prop) : Q acc (Done a) -> wpa acc (Ret a) Q.
Proof. unfold wpa. cbn [wp]. by rewrite app_nil_r. Qed.

Lemma wpa_panic {A} acc d (Q : list event -> outcome A -> Prop) : Q acc (Panicked d) -> wpa acc (Panic d) Q.
Proof. unfold wpa. cbn [wp]. by rewrite app_nil_r. Qed.

Lemma wpa_bind {A B} acc (p : prog A) (f : A -> prog B) Q :
  wpa acc p (fun tr out => match out with Done a => wpa tr (f a) Q | Panicked d => Q tr (Panicked d) end) ->
  wpa acc (bind p f) Q.
Proof.
  intros H. unfold wpa in *. apply wp_bind. eapply wp_mono; [|exact H]. intros tr [a|d]; [|done].
  apply wp_mono. intros tr2 out. by rewrite app_assoc.
Qed.

Lemma wpa_trigger acc (e : eff) Q :
  (forall x, Q (acc ++ [Ev e (Val x)]) (Done x)) ->
  (may_panic e = true -> Q (acc ++ [Ev e Blew]) (Panicked false)) ->
  wpa acc (trigger e) Q.
Proof. intros HV HB. by apply wp_trigger. Qed.

(** One effect and the rest. *)
Lemma wpa_step {B} acc (e : eff) (f : ans e -> prog B) Q :
  (forall x, wpa (acc ++ [Ev e (Val x)]) (f x) Q) ->
  (may_panic e = true -> Q (acc ++ [Ev e Blew]) (Panicked false)) ->
  wpa acc (bind (trigger e) f) Q.
Proof. intros HV HB. apply wpa_bind. by apply wpa_trigger. Qed.

Lemma wpa_finally {A} acc (p : prog A) (fin : prog unit) Q :
  wpa acc p (fun tr out => wpa tr fin (fun tr2 out2 =>
    Q tr2 match out2 with Done _ => out | Panicked d => Panicked d end)) ->
  wpa acc (finally p fin) Q.
Proof.
  intros H. unfold wpa in *. apply wp_finally. eapply wp_mono; [|exact H]. intros tr out.
  apply wp_mono. intros tr2 out2. by rewrite app_assoc.
Qed.

Lemma wpa_contain {A} acc (p : prog A) (h : bool -> prog A) Q :
  wpa acc p (fun tr out => match out with Done a => Q tr (Done a) | Panicked d => wpa tr (h d) Q end) ->
  wpa acc (contain p h) Q.
Proof.
  intros H. unfold wpa in *. apply wp_contain. eapply wp_mono; [|exact H]. intros tr [a|d]; [done|].
  apply wp_mono. intros tr2 out. by rewrite app_assoc.
Qed.

Lemma wpa_after_mark {A} acc (p : prog A) Q :
  wpa acc p (fun tr out => Q tr match out with Done a => Done a | Panicked _ => Panicked true end) ->
  wpa acc (after_mark p) Q.
Proof. intros H. unfold wpa in *. by apply wp_after_mark. Qed.

(** ** Effects a program never performs *)

Fixpoint never {A} (P : eff -> Prop) (p : prog A) : Prop :=
  match p with
  | Ret _ | Panic _ => True
  | Vis e k => ~ P e /\ forall r, never P (k r)
  end.

Lemma never_bind {A B} P (p : prog A) (f : A -> prog B) : never P p -> (forall a, never P (f a)) -> never P (bind p f).
Proof. intros Hp Hf. induction p as [a|d|e k IH]; cbn in *; [done|done|]. destruct Hp as [He Hk]. eauto. Qed.

Lemma never_finally {A} P (p : prog A) fin : never P p -> never P fin -> never P (finally p fin).
Proof.
  intros Hp Hf. induction p as [a|d|e k IH]; cbn in *; [by apply never_bind|by apply never_bind|].
  destruct Hp as [He Hk]. eauto.
Qed.

Lemma never_contain {A} P (p : prog A) h : never P p -> (forall d, never P (h d)) -> never P (contain p h).
Proof. intros Hp Hf. induction p as [a|d|e k IH]; cbn in *; [done|done|]. destruct Hp as [He Hk]. eauto. Qed.

Lemma never_after_mark {A} P (p : prog A) : never P p -> never P (after_mark p).
Proof. intros Hp. induction p as [a|d|e k IH]; cbn in *; [done|done|]. destruct Hp as [He Hk]. eauto. Qed.

Lemma never_trigger P e : ~ P e -> never P (trigger e).
Proof. intros He. split; [done|]. by intros [x|]. Qed.

Lemma never_wp {A} P (p : prog A) : never P p -> wp p (fun tr _ => Forall (fun ev => ~ P (ev_eff ev)) tr).
Proof.
  induction p as [a|d|e k IH]; cbn; [constructor|constructor|]. intros [He Hk] r _.
  eapply wp_mono; [|apply IH, Hk]. intros tr out H. by constructor.
Qed.

Lemma never_wpa {A} P acc (p : prog A) (Q : list event -> outcome A -> Prop) :
  never P p -> (forall tr out, Forall (fun ev => ~ P (ev_eff ev)) tr -> Q (acc ++ tr) out) -> wpa acc p Q.
Proof. intros Hp HQ. unfold wpa. eapply wp_mono; [|by apply never_wp]. intros tr out H. by apply HQ. Qed.

(** ** Programs whose only panics are those of the code they call *)

Definition blown (tr : list event) : bool := existsb blew tr.

Lemma blown_app tr1 tr2 : blown (tr1 ++ tr2) = blown tr1 || blown tr2.
Proof. apply existsb_app. Qed.

Lemma blown_snoc tr e : blown (tr ++ [Ev e Blew]) = true.
Proof. rewrite blown_app. simpl. apply orb_true_r. Qed.

Fixpoint plain {A} (p : prog A) : Prop :=
  match p with
  | Ret _ => True
  | Panic _ => False
  | Vis e k => (forall x, plain (k (Val x))) /\ k Blew = Panic false
  end.

Lemma plain_bind {A B} (p : prog A) (f : A -> prog B) : plain p -> (forall a, plain (f a)) -> plain (bind p f).
Proof.
  intros Hp Hf. induction p as [a|d|e k IH]; cbn in *; [done|done|]. destruct Hp as [Hv Hb]. split; [eauto|].
  by rewrite Hb.
Qed.

Lemma plain_trigger e : plain (trigger e).
Proof. by split. Qed.

Lemma plain_wp {A} (p : prog A) :
  plain p -> wp p (fun tr out => match out with
    | Done _ => blown tr = false
    | Panicked d => d = false /\ exists tr' e, tr = tr' ++ [Ev e Blew] /\ blown tr' = false
    end).
Proof.
  induction p as [a|d|e k IH]; cbn; [done|done|]. intros [Hv Hb] [x|] Hok.
  - eapply wp_mono; [|apply IH, Hv]. intros tr [a|d]; [done|]. intros (-> & tr' & e' & -> & Ht).
    split; [done|]. by exists (Ev e (Val x) :: tr'), e'.
  - rewrite Hb. cbn. split; [done|]. by exists [], e.
Qed.
End prog.
Arguments Ret {E A} a.
Arguments Panic {E A} d.
Arguments Vis {E A} e k.
Arguments Ev {E} ev_eff ev_ans.

Notation "x <- p ;; q" := (bind p (fun x => q)) (at level 60, p at next level, right associativity) : gatte_scope.
Notation "p ;;; q" := (bind p (fun _ => q)) (at level 60, right associativity) : gatte_scope.
