(* ===== verification/GatewayTypes.v ===== *)
(** * The gateway's data ([internal/gateway]: [gateway.go], [refusal.go], [health.go], parts of [endpoint.go])

    Names and their separator, tool definitions, results, the routing table's rows, the errors a call
    can end in and the closed set of reasons the trail records.  An error that comes from code outside
    a component (a store, a backend) is known only by the sentinels it wraps ([foreign]): that is all
    [errors.Is] can learn of it, and nothing else of it is kept. *)
From Stdlib Require Import ZArith Lia Ascii.
From stdpp Require Import base strings list gmap.
From S2P Require Import Prelude.
From S2P Require Import GoStrings.
From S2P Require Import GoTime.
From S2P Require Import Json.
From S2P Require Import Encode.
From S2P Require Import AuditLog.
From S2P Require Import Registry.
From S2P Require Import Quota.
From S2P Require Import Quarantine.
From S2P Require Import Access.

(** ** Names *)

Definition NameSeparator : string := ".".

Definition Namespaced (upstream tool : string) : string := upstream +:+ NameSeparator +:+ tool.

Definition SplitNamespaced (name : string) : option (string * string) :=
  match cut name "." with
  | Some (upstream, tool) =>
      if bool_decide (upstream = "") || bool_decide (tool = "") then None else Some (upstream, tool)
  | None => None
  end.

Definition unknownUpstream : string := "(unknown)".
Definition unnamedTool : string := "(unnamed)".
Definition unauthenticatedIdentity : string := "(unauthenticated)".
Definition authenticationTool : string := "(authentication)".
Definition gatewayItself : string := "(gateway)".
Definition gatewayActor : string := "(gateway)".
Definition requestTool : string := "(request)".
Definition backendHealthTool : string := "(backend health)".

Definition targetOf (namespacedTool : string) : string :=
  match SplitNamespaced namespacedTool with Some (upstream, _) => upstream | None => unknownUpstream end.

Definition MaxToolNameLen : Z := 64.
Definition MaxToolDefinitionBytes : Z := 65536.

Definition tool_name_byte (a : ascii) : bool :=
  let c := bz a in
  in_range 97 122 c || in_range 65 90 c || in_range 48 57 c || (c =? 95) || (c =? 45).

Definition ValidToolName (name : string) : bool :=
  if bool_decide (name = "") || (MaxToolNameLen <? blen name) then false else str_forallb tool_name_byte name.

(** ** Definitions, results, routes *)

Record ToolDef := {
  DName : string; DDescription : string; DInputSchema : string; DOutputSchema : string;
  SecurityClass : string
}.

Definition DefinitionSize (d : ToolDef) : Z :=
  blen (DName d) + blen (DDescription d) + blen (DInputSchema d) + blen (DOutputSchema d).

Definition identityOf (d : ToolDef) : ToolIdentity :=
  {| TName := DName d; Description := DDescription d; InputSchema := DInputSchema d; OutputSchema := DOutputSchema d |}.

(** Planned maintenance, as the table holds it and as a caller sees it. *)
Record Maintenance := {
  MTarget : string; MMessage : string; MUntil : time; MStartedAt : time; MSetBy : string; MSetAt : time
}.

Definition GatewayTarget : string := "(gateway)".

Definition UntilPassed (m : Maintenance) (now : time) : bool := negb (IsZero (MUntil m)) && After now (MUntil m).

Record MaintenanceNotice := { NMessage : string; NSince : time; NUntil : time; NUntilPassed : bool }.

Definition noticeOf (m : Maintenance) (now : time) : MaintenanceNotice :=
  {| NMessage := MMessage m; NSince := MStartedAt m; NUntil := MUntil m; NUntilPassed := UntilPassed m now |}.

Definition gatewayNotice (maint : gmap string Maintenance) (now : time) : option MaintenanceNotice :=
  match maint !! GatewayTarget with Some m => Some (noticeOf m now) | None => None end.

Record Result := { Content : string; StructuredContent : string; IsError : bool; Notice : option MaintenanceNotice }.

Definition resultSize (r : Result) : Z := blen (Content r) + blen (StructuredContent r).

(** A live connection, by identity: what comparing two [Upstream] interface values tells. *)
Abbreviation handle := Z.

(** A compiled output schema, from the JSON schema library: what it says of an instance. *)
Class SchemaValidator := { schema : Type; compile : string -> option schema; validates : schema -> string -> bool }.

Record route := { upstream : string; originalName : string }.

Record routedTool `{SV : SchemaValidator} := { rt_route : route; rt_def : ToolDef; rt_output : option schema }.

Record Caller := { CIdentity : Identity; SourceAddr : string }.

(** ** Errors *)

Inductive sentinel :=
| SCanceled | SDeadlineExceeded
| SNotFound                      (* quarantine.ErrNotFound *)
| SSubjectBlocked | SBlocklistUnavailable
| SUpstreamGone | SResultTooLarge | SSchemaViolation | SInternal.

#[global] Instance sentinel_eq_dec : EqDecision sentinel.
Proof. solve_decision. Defined.

(** The sentinels a foreign error wraps. *)
Abbreviation foreign := (list sentinel).

Definition wraps (e : foreign) (s : sentinel) : bool := bool_decide (s ∈ e).

(** [ctx.Err()]. *)
Inductive ctx_error := Canceled | DeadlineExceeded.

Abbreviation BackendState := string (only parsing).
Definition StateUp : BackendState := "up".
Definition StateReconnecting : BackendState := "reconnecting".
Definition StateDown : BackendState := "down".
Definition StateMaintenance : BackendState := "maintenance".

Record UnavailableError := {
  UBackend : string; UState : string; USince : time; ULastAttempt : time; UNextAttempt : time;
  UMaintenance : option MaintenanceNotice; UGateway : option MaintenanceNotice;
  UGone : bool                   (* the cause: ErrUpstreamGone, else ErrBackendUnavailable *)
}.

(** What [Dispatch] and [AdmitCaller] return. *)
Inductive gw_error :=
| CtxEnded (e : ctx_error)
| SubjectBlocked
| BlocklistUnavailable (e : foreign)
| RegistryUnavailable
| UnknownTool
| Forbidden (e : access_error)
| ToolQuarantined
| SensitiveNotGranted (e : access_error)
| QuarantineUnavailable (e : foreign)
| Unavailable (e : UnavailableError)
| ConcurrencyLimited (limit : Z) (gw : option MaintenanceNotice)
| QuotaExhausted (budget : quota_error) (gw : option MaintenanceNotice)
| QuotaRefused (e : quota_error)
| AuditFailed (e : foreign)
| CallInterrupted (e : foreign)            (* the caller's own context, or an internal error, wrapped *)
| CallTimeout (backend : string) (limit : Z) (gw : option MaintenanceNotice)
| BackendFailed (backend : string) (gw : option MaintenanceNotice)
| ResultTooLarge (tool : string) (limit : Z) (gw : option MaintenanceNotice)
| SchemaViolation
| ResultUnscrubbable
| Internal.

(** [errors.Is(err, quota.ErrExhausted)]: the typed refusal, alone or wrapped. *)
Fixpoint is_exhausted (e : quota_error) : bool :=
  match e with
  | ErrExhausted _ _ _ _ => true
  | ErrUnavailable cause => is_exhausted cause
  | ErrInvalidReservation _ | StoreFault => false
  end.

(** ** Reasons: declared strings, never text from outside *)

Definition reasonNotVisible : string := "not visible to caller".
Definition reasonAuthFailed : string := "authentication failed".
Definition reasonAuthFlood : string := "auth failures rate-limited".
Definition reasonUpstreamTimeout : string := "upstream timed out".
Definition reasonCallCancelled : string := "call cancelled".
Definition reasonUpstreamFailed : string := "upstream call failed".
Definition reasonUpstreamGone : string := "upstream gone".
Definition reasonResultTooLarge : string := "result too large".
Definition reasonResultSchemaViolation : string := "result violates output schema".
Definition reasonUnknownTool : string := "unknown tool".
Definition reasonForbidden : string := "forbidden".
Definition reasonQuarantined : string := "quarantined".
Definition reasonSensitiveNotGranted : string := "sensitive tool requires an explicit grant in a non-read role".
Definition reasonQuarantineUnavailable : string := "quarantine unavailable".
Definition reasonRegistryUnavailable : string := "registry unavailable".
Definition reasonQuotaExhausted : string := "quota exhausted".
Definition reasonQuotaUnavailable : string := "quota unavailable".
Definition reasonSubjectBlocked : string := "subject blocked".
Definition reasonBlocklistUnavailable : string := "blocklist unavailable".
Definition reasonConcurrencyLimited : string := "concurrency limited".
Definition reasonInternalError : string := "internal error".
Definition reasonBackendReconnecting : string := "backend unavailable: reconnecting".
Definition reasonBackendDown : string := "backend unavailable: down".
Definition reasonBackendMaintenance : string := "backend in maintenance".
Definition reasonBackendUpFirst : string := "backend up: first observed".
Definition reasonBackendDownPrefix : string := "backend down".
Definition reasonBackendUpPrefix : string := "backend up: down since".
Definition reasonBackendRemoved : string := "backend removed: no longer servable per the registry".

Definition classifyFailure (e : foreign) : string :=
  if wraps e SDeadlineExceeded then reasonUpstreamTimeout
  else if wraps e SCanceled then reasonCallCancelled
  else if wraps e SResultTooLarge then reasonResultTooLarge
  else if wraps e SSchemaViolation then reasonResultSchemaViolation
  else if wraps e SUpstreamGone then reasonUpstreamGone
  else if wraps e SInternal then reasonInternalError
  else reasonUpstreamFailed.

(** [UnavailableError.reason]. *)
Definition unavailable_reason (e : UnavailableError) : string :=
  if bool_decide (UState e = StateMaintenance) then reasonBackendMaintenance
  else if bool_decide (UState e = StateDown) then reasonBackendDown
  else reasonBackendReconnecting.

(** ** The quarantine and class gate of [admit], on the row read *)

Inductive gate := GateOk | GateQuarantined | GateNotGranted (e : access_error).

(** [admit] once the quarantine row is in hand. *)
Definition gate_tool (policy : Policy) (id : Identity) (name : string) (t : Quarantine.Tool) (d : ToolDef) : gate :=
  let sensitive := negb (bool_decide (TClass t = ClassSafe)) || negb (bool_decide (SecurityClass d = ClassSafe)) in
  if negb (Usable t) && negb (sensitive && ApprovedAsAdvertised t) then GateQuarantined
  else
    match (if sensitive then AuthorizeNonRead policy id name else Ok tt) with
    | Err e => GateNotGranted e
    | Ok _ => if negb (Usable t) then GateQuarantined else GateOk
    end.

(** An upstream that changes a declared output schema changes its tool's fingerprint (or shows a
    collision of the hash): [identityOf] hands the schema on, and [Hash] covers it. *)
Lemma output_schema_is_fingerprinted `{HashFunction} d s :
  holdable_identity (identityOf d) -> holdable_identity (identityOf {| DName := DName d; DDescription := DDescription d;
    DInputSchema := DInputSchema d; DOutputSchema := s; SecurityClass := SecurityClass d |}) ->
  s <> DOutputSchema d ->
  let d' := {| DName := DName d; DDescription := DDescription d; DInputSchema := DInputSchema d;
               DOutputSchema := s; SecurityClass := SecurityClass d |} in
  Hash (identityOf d') <> Hash (identityOf d) \/ collision (hash_input (identityOf d')) (hash_input (identityOf d)).
Proof.
  intros H1 H2 Hs d'. destruct (decide (Hash (identityOf d') = Hash (identityOf d))) as [He|]; [right|by left].
  apply Hash_inj in He as [He|?]; [|done|done|done]. exfalso. apply Hs. by injection He.
Qed.
