(* ===== verification/ToolSchema.v ===== *)
(** * What a tool's schemas must be ([internal/gateway/endpoint.go], [response.go])

    [validateSchema] and [resolveOutputSchema]: the checks discovery makes on the schemas a backend
    advertises, with what [encoding/json] does to get at them: duplicate keys, the folding of field
    names, [null], and numbers too large for a float.  Compiling an output schema is the JSON schema
    library's ([SchemaValidator]). *)
From Stdlib Require Import ZArith Lia Ascii.
From stdpp Require Import base strings list gmap.
From S2P Require Import Prelude.
From S2P Require Import GoStrings.
From S2P Require Import Utf8.
From S2P Require Import GoTime.
From S2P Require Import Json.
From S2P Require Import JsonStrings.
From S2P Require Import GatewayTypes.

(** ** Decoding: [json.Unmarshal] *)

(** [foldName], as far as it can meet an ASCII name: the two other letters that fold to ASCII ones. *)
Definition fold_rune (r : Z) : Z :=
  if in_range 97 122 r then r - 32 else if r =? 0x17F then 83 else if r =? 0x212A then 75 else r.

Definition fold_name (s : string) : list Z := map (fun c => fold_rune c.1) (runes s).

(** A member's key names this struct field. *)
Definition is_field (field key : string) : bool := bool_decide (fold_name key = fold_name field).

(** [strconv.ParseFloat(s, 64)] reports a range error: the decimal is at least half a unit past the
    largest float.  An exponent is read up to where the library stops adding digits. *)
Definition sat_exponent (digits : string) : Z :=
  foldl (fun e a => if e <? 10000 then e * 10 + (bz a - 48) else e) 0 (String.list_ascii_of_string digits).

Definition float_threshold : Z := 2 ^ 1024 - 2 ^ 970.

Definition digits_value (s : string) : Z :=
  foldl (fun v a => v * 10 + (bz a - 48)) 0 (String.list_ascii_of_string s).

Definition float_overflows (num : string) : bool :=
  let s := match num with String a s' => if bz a =? 45 then s' else num | EmptyString => "" end in
  let '(i, s1) := span_digits s in
  let '(f, s2) := match s1 with
    | String a s1' => if bz a =? 46 then span_digits s1' else ("", s1)
    | EmptyString => ("", "") end in
  let e := match s2 with
    | String _ s3 =>
        match s3 with
        | String a s4 => if bz a =? 45 then - sat_exponent s4 else if bz a =? 43 then sat_exponent s4 else sat_exponent s3
        | EmptyString => 0
        end
    | EmptyString => 0
    end in
  let m := digits_value (i +:+ f) in
  let e' := e - blen f in
  if m =? 0 then false
  else
    let magnitude := Z.log2 m + e' * 10 / 3 in
    if e' <? 0 then float_threshold * 10 ^ (- e') <=? m
    else if 1100 <? magnitude then true
    else float_threshold <=? m * 10 ^ e'.

(** [json.Unmarshal] into [any]: refused only for a number out of range. *)
Fixpoint any_ok (j : json) : bool :=
  match j with
  | JNum n => negb (float_overflows n)
  | JArr l => (fix all (l : list json) := match l with [] => true | v :: l' => any_ok v && all l' end) l
  | JObj l => (fix all (l : list (string * json)) := match l with [] => true | (_, v) :: l' => any_ok v && all l' end) l
  | _ => true
  end.

(** The value a [map[string]any] holds for a key: the last member of that name. *)
Definition member_value (l : list (string * json)) (key : string) : option json :=
  match List.find (fun kv => bool_decide (unquote kv.1 = key)) (reverse l) with Some kv => Some kv.2 | None => None end.

(** ** The header annotations *)

(** A property, as [headerSchemaProperty] decodes it; [props] in key order. *)
Inductive headerSchemaProperty := HeaderProp (type_ : string) (XMCPHeader : option json)
  (props : list (string * headerSchemaProperty)).

Definition zero_prop : headerSchemaProperty := HeaderProp "" None [].

(** A Go map's assignment, keeping the keys sorted. *)
Fixpoint set_prop (k : string) (p : headerSchemaProperty) (l : list (string * headerSchemaProperty))
  : list (string * headerSchemaProperty) :=
  match l with
  | [] => [(k, p)]
  | (k', p') :: l' =>
      if bool_decide (k = k') then (k, p) :: l'
      else if str_leb k k' then (k, p) :: l
      else (k', p') :: set_prop k p l'
  end.

(** [json.Unmarshal] into a fresh property; [None] is a type error anywhere inside. *)
Fixpoint decode_prop (j : json) : option headerSchemaProperty :=
  match j with
  | JNull => Some zero_prop
  | JObj l =>
      (fix fields (l : list (string * json)) (p : headerSchemaProperty) : option headerSchemaProperty :=
         match l with
         | [] => Some p
         | (k, v) :: rest =>
             let key := unquote k in
             let '(HeaderProp t x ps) := p in
             if is_field "type" key then
               match v with
               | JStr s => fields rest (HeaderProp (unquote s) x ps)
               | JNull => fields rest p
               | _ => None
               end
             else if is_field "x-mcp-header" key then fields rest (HeaderProp t (Some v) ps)
             else if is_field "properties" key then
               match v with
               | JNull => fields rest (HeaderProp t x [])
               | JObj ms =>
                   match (fix entries (ms : list (string * json)) (acc : list (string * headerSchemaProperty))
                            : option (list (string * headerSchemaProperty)) :=
                            match ms with
                            | [] => Some acc
                            | (k', v') :: ms' =>
                                match decode_prop v' with
                                | Some q => entries ms' (set_prop (unquote k') q acc)
                                | None => None
                                end
                            end) ms ps with
                   | Some ps' => fields rest (HeaderProp t x ps')
                   | None => None
                   end
               | _ => None
               end
             else fields rest p
         end) l zero_prop
  | _ => None
  end.

Definition isHTTPTokenChar (c : Z) : bool :=
  in_range 48 57 c || in_range 65 90 c || in_range 97 122 c
  || existsb (fun a => bz a =? c) (String.list_ascii_of_string "!#$%&'*+-.^_`|~").

Inductive header_error :=
| NonPrimitiveType (path type_ : string)
| NotANonEmptyString (path : string)
| NotAToken (path : string)
| DuplicateHeader (path : string).

(** The annotation of one property against the names already seen. *)
Definition check_header (path type_ : string) (x : option json) (seen : list string) : result header_error (list string) :=
  match x with
  | None => Ok seen
  | Some v =>
      if negb (bool_decide (type_ = "string") || bool_decide (type_ = "integer") || bool_decide (type_ = "boolean"))
      then Err (NonPrimitiveType path type_)
      else
        match match v with JStr s => unquote s | _ => "" end with
        | EmptyString => Err (NotANonEmptyString path)
        | header =>
            if negb (forallb (fun c => isHTTPTokenChar c.1) (runes header)) then Err (NotAToken path)
            else if bool_decide (to_lower header ∈ seen) then Err (DuplicateHeader path)
            else Ok (to_lower header :: seen)
        end
  end.

Definition join_path (prefix name : string) : string :=
  if bool_decide (prefix = "") then name else prefix +:+ "." +:+ name.

(** [validateHeadersIn] on the properties of one object, in key order. *)
Fixpoint validateHeader (p : headerSchemaProperty) (path : string) (seen : list string)
  : result header_error (list string) :=
  let '(HeaderProp t x ps) := p in
  seen1 <-? check_header path t x seen;;
  (fix each (ps : list (string * headerSchemaProperty)) (seen : list string) : result header_error (list string) :=
     match ps with
     | [] => Ok seen
     | (name, q) :: ps' =>
         seen1 <-? validateHeader q (join_path path name) seen;;
         each ps' seen1
     end) ps seen1.

Fixpoint validateHeadersIn (ps : list (string * headerSchemaProperty)) (prefix : string) (seen : list string)
  : result header_error (list string) :=
  match ps with
  | [] => Ok seen
  | (name, q) :: ps' =>
      seen1 <-? validateHeader q (join_path prefix name) seen;;
      validateHeadersIn ps' prefix seen1
  end.

Definition validateHeaderAnnotations (raw : json) : result header_error unit :=
  match decode_prop raw with
  | None => Ok tt
  | Some (HeaderProp _ _ ps) => _ <-? validateHeadersIn ps "" [];; Ok tt
  end.

Inductive schema_error :=
| SchemaAbsent | SchemaNotObject | SchemaNull | SchemaNoType | SchemaWrongType | SchemaHeader (e : header_error).

Definition validateSchema (raw : string) : result schema_error unit :=
  if bool_decide (raw = "") then Err SchemaAbsent
  else
    match parse_json raw with
    | Some JNull => Err SchemaNull
    | Some (JObj l) =>
        if negb (any_ok (JObj l)) then Err SchemaNotObject
        else
          match member_value l "type" with
          | None => Err SchemaNoType
          | Some (JStr t) =>
              if bool_decide (unquote t = "object") then
                match validateHeaderAnnotations (JObj l) with
                | Err e => Err (SchemaHeader e)
                | Ok _ => Ok tt
                end
              else Err SchemaWrongType
          | Some _ => Err SchemaWrongType
          end
    | _ => Err SchemaNotObject
    end.

(** [None] is a schema the library does not take; [Some None] is no schema. *)
Definition resolveOutputSchema `{SchemaValidator} (raw : string) : option (option schema) :=
  if bool_decide (raw = "") then Some None
  else match compile raw with Some s => Some (Some s) | None => None end.

Definition CheckInputSchema (raw : string) : result schema_error unit := validateSchema raw.
Definition CheckOutputSchema `{SchemaValidator} (raw : string) : bool := bool_decide (is_Some (resolveOutputSchema raw)).

(** ** On concrete schemas *)

Example schema_ex1 : validateSchema (dq "{'type':'object'}") = Ok tt
  /\ validateSchema "" = Err SchemaAbsent /\ validateSchema " null " = Err SchemaNull
  /\ validateSchema "[]" = Err SchemaNotObject /\ validateSchema "{}" = Err SchemaNoType
  /\ validateSchema (dq "{'type':'object','type':'array'}") = Err SchemaWrongType
  /\ validateSchema (dq "{'\u0074ype':'object','maximum':1e999}") = Err SchemaNotObject
  /\ validateSchema (dq "{'type':'object','maximum':1e308}") = Ok tt.
Proof. vm_compute. done. Qed.

Example schema_ex2 :
  validateSchema (dq "{'type':'object','properties':{'a':{'type':'string','x-mcp-header':'X-A'},'b':{'Type':'integer','X-MCP-Header':'x-a'}}}")
    = Err (SchemaHeader (DuplicateHeader "b"))
  /\ validateSchema (dq "{'type':'object','properties':{'a':{'type':'array','x-mcp-header':'X-A'}}}")
    = Err (SchemaHeader (NonPrimitiveType "a" "array"))
  /\ validateSchema (dq "{'type':'object','properties':{'a':{'properties':{'c':{'type':'string','x-mcp-header':'a b'}}}}}")
    = Err (SchemaHeader (NotAToken "a.c"))
  /\ validateSchema (dq "{'type':'object','properties':{'z':true,'a':{'type':'array','x-mcp-header':'X-A'}}}") = Ok tt.
Proof. vm_compute. done. Qed.

Example unquote_ex : unquote "a\ud83d\ude00\n\ud83dz" = "a" +:+ bytes [0xF0; 0x9F; 0x98; 0x80; 10; 0xEF; 0xBF; 0xBD] +:+ "z".
Proof. vm_compute. reflexivity. Qed.

(** ** What the walk decides *)

Section annotations.

(** Every annotation of a property and of those inside it, in the order of the walk. *)
Fixpoint annotations (p : headerSchemaProperty) : list (string * json) :=
  let '(HeaderProp t x ps) := p in
  match x with Some v => [(t, v)] | None => [] end
  ++ (fix all (ps : list (string * headerSchemaProperty)) : list (string * json) :=
        match ps with [] => [] | (_, q) :: ps' => annotations q ++ all ps' end) ps.

Definition all_annotations (ps : list (string * headerSchemaProperty)) : list (string * json) :=
  flat_map (fun np => annotations np.2) ps.

Definition header_of (v : json) : string := match v with JStr s => unquote s | _ => "" end.

(** An annotation the MCP library takes: a non-empty HTTP token on a primitive property. *)
Definition servable_annotation (a : string * json) : Prop :=
  (a.1 = "string" \/ a.1 = "integer" \/ a.1 = "boolean")
  /\ header_of a.2 <> "" /\ forallb (fun c => isHTTPTokenChar c.1) (runes (header_of a.2)) = true.

Definition lower_header (a : string * json) : string := to_lower (header_of a.2).

Lemma prop_induction (P : headerSchemaProperty -> Prop) :
  (forall t x ps, Forall (fun np => P np.2) ps -> P (HeaderProp t x ps)) -> forall p, P p.
Proof.
  intros H. fix IH 1. intros [t x ps]. apply H. induction ps as [|[name q] ps IHps]; constructor; [apply IH|exact IHps].
Qed.

Lemma validateHeader_unfold t x ps path seen :
  validateHeader (HeaderProp t x ps) path seen
  = (seen1 <-? check_header path t x seen;; validateHeadersIn ps path seen1).
Proof.
  cbn [validateHeader]. destruct (check_header path t x seen) as [seen1|e]; [|done]. cbn [rbind].
  revert seen1. induction ps as [|[name q] ps IH]; intros seen1; [done|]. cbn [validateHeadersIn].
  destruct (validateHeader q (join_path path name) seen1) as [seen2|e]; [|done]. cbn [rbind]. apply IH.
Qed.

Lemma annotations_unfold t x ps :
  annotations (HeaderProp t x ps) = match x with Some v => [(t, v)] | None => [] end ++ all_annotations ps.
Proof.
  cbn [annotations]. f_equal. unfold all_annotations. induction ps as [|[name q] ps IH]; [done|]. simpl. by rewrite IH.
Qed.

(** What a walk over [l] makes of the names seen. *)
Definition walked (l : list (string * json)) (seen : list string) (r : result header_error (list string)) : Prop :=
  match r with
  | Ok seen' => seen' = reverse (map lower_header l) ++ seen /\ Forall servable_annotation l /\ NoDup seen'
  | Err _ => ~ (Forall servable_annotation l /\ NoDup (reverse (map lower_header l) ++ seen))
  end.

Lemma walked_app l1 l2 seen r1 f :
  walked l1 seen r1 -> (forall seen1, NoDup seen1 -> walked l2 seen1 (f seen1)) -> walked (l1 ++ l2) seen (rbind r1 f).
Proof.
  intros H1 H2. destruct r1 as [seen1|e]; cbn [rbind] in *.
  - destruct H1 as (-> & Hf1 & Hn1). specialize (H2 _ Hn1). destruct (f _) as [seen2|e]; cbn [walked] in *;
      rewrite map_app, reverse_app, <- app_assoc, Forall_app; [naive_solver|tauto].
  - cbn [walked] in *. rewrite map_app, reverse_app, <- app_assoc, Forall_app. intros [[Hf _] Hn]. apply H1. split; [done|].
    by apply NoDup_app in Hn as (_ & _ & Hn).
Qed.

Lemma check_header_walked path t x seen :
  NoDup seen -> walked (match x with Some v => [(t, v)] | None => [] end) seen (check_header path t x seen).
Proof.
  intros Hn. destruct x as [v|]; cbn [check_header]; [|done].
  assert (Hh : match v with JStr s => unquote s | _ => "" end = header_of v) by done. rewrite Hh. clear Hh.
  destruct (negb _) eqn:Ht.
  { cbn [walked]. intros [Hf _]. apply Forall_cons in Hf as [[Hp _] _]. cbn in Hp.
    rewrite negb_true_iff, !orb_false_iff, !bool_decide_eq_false in Ht. tauto. }
  rewrite negb_false_iff, !orb_true_iff, !bool_decide_eq_true in Ht.
  destruct (header_of v) as [|a h] eqn:Hv.
  { cbn [walked]. intros [Hf _]. apply Forall_cons in Hf as [(_ & Hne & _) _]. cbn in Hne. congruence. }
  rewrite <- Hv in *. destruct (forallb _ _) eqn:Htok; cbn [negb].
  2: { cbn [walked]. intros [Hf _]. apply Forall_cons in Hf as [(_ & _ & Hk) _]. cbn in Hk. congruence. }
  case_bool_decide as Hs; cbn [walked map reverse].
  - intros [_ Hd]. by apply NoDup_cons in Hd as [Hd _].
  - split; [done|]. split; [|by constructor]. constructor; [|done]. split_and!; cbn; [tauto|congruence|done].
Qed.

Lemma validateHeader_walked p path seen : NoDup seen -> walked (annotations p) seen (validateHeader p path seen).
Proof.
  revert path seen. induction p as [t x ps IH] using prop_induction. intros path seen Hn.
  rewrite validateHeader_unfold, annotations_unfold. apply walked_app; [by apply check_header_walked|].
  clear seen Hn. induction IH as [|[name q] ps Hq _ IHps]; intros seen Hn; cbn [validateHeadersIn]; [done|].
  unfold all_annotations. cbn [flat_map]. apply walked_app; [by apply Hq|exact IHps].
Qed.

Lemma validateHeadersIn_walked ps prefix seen : NoDup seen -> walked (all_annotations ps) seen (validateHeadersIn ps prefix seen).
Proof.
  revert seen. induction ps as [|[name q] ps IH]; intros seen Hn; cbn [validateHeadersIn]; [done|].
  unfold all_annotations. cbn [flat_map]. apply walked_app; [by apply validateHeader_walked|exact IH].
Qed.

(** C21 [validateSchema_exact]: an input schema is taken exactly when it is a JSON object whose numbers
    fit a float, whose last [type] is the string [object], and whose header annotations, wherever they
    are nested, are all HTTP tokens on primitive properties and distinct whatever their case; a text
    that the annotation decoder cannot read at all is taken without that last check, as the MCP library
    skips it too. *)
Theorem validateSchema_exact raw :
  validateSchema raw = Ok tt <->
  exists l t, parse_json raw = Some (JObj l) /\ any_ok (JObj l) = true
    /\ member_value l "type" = Some (JStr t) /\ unquote t = "object"
    /\ match decode_prop (JObj l) with
       | None => True
       | Some (HeaderProp _ _ ps) => Forall servable_annotation (all_annotations ps)
           /\ NoDup (map lower_header (all_annotations ps))
       end.
Proof.
  unfold validateSchema. case_bool_decide as Hr.
  { subst. split; [done|]. intros (l & t & Hp & _). by vm_compute in Hp. }
  destruct (parse_json raw) as [[| | | | |l]|]; try (split; [done|]; by intros (? & ? & [=] & _)).
  assert (Hh : (exists u, validateHeaderAnnotations (JObj l) = Ok u) <->
    match decode_prop (JObj l) with
    | None => True
    | Some (HeaderProp _ _ ps) => Forall servable_annotation (all_annotations ps)
        /\ NoDup (map lower_header (all_annotations ps))
    end).
  { unfold validateHeaderAnnotations. destruct (decode_prop (JObj l)) as [[t x ps]|]; [|split; eauto].
    pose proof (validateHeadersIn_walked ps "" [] (NoDup_nil_2)) as Hw.
    destruct (validateHeadersIn ps "" []) as [seen|e]; cbn [rbind walked] in *; rewrite app_nil_r in Hw.
    - destruct Hw as (Hs & Hf & Hn). split; [|eauto]. intros _. split; [done|].
      by rewrite Hs, reverse_Permutation in Hn.
    - rewrite reverse_Permutation in Hw. split; [by intros [u [=]]|tauto]. }
  destruct (any_ok (JObj l)) eqn:Ha; cbn [negb].
  2: { split; [done|]. intros (l' & t & [= <-] & H & _). congruence. }
  destruct (member_value l "type") as [[| | |t| |]|] eqn:Hm; try (split; [done|]; intros (l' & t' & [= <-] & _ & H & _); congruence).
  case_bool_decide as Ht.
  2: { split; [done|]. intros (l' & t' & [= <-] & _ & H & H' & _). congruence. }
  destruct (validateHeaderAnnotations (JObj l)) as [u|e]; split; try done.
  - intros _. exists l, t. split_and!; try done. apply Hh. by exists u.
  - intros (l' & t' & [= <-] & _ & _ & _ & H). apply Hh in H as [u [=]].
Qed.
End annotations.
