(* ===== verification/Routing.v ===== *)
(** * The routing table and what may be in it ([internal/gateway/endpoint.go])

    The pure half of discovery: merging what the upstreams claim, the entries a dial depends on, the
    agreement between the quota plan and the registry, and the tools of a budgeted upstream that no
    account charges.  The programs that run them are in Rounds.v. *)
From Stdlib Require Import ZArith Lia Ascii.
From stdpp Require Import base strings list gmap.
From S2P Require Import Prelude.
From S2P Require Import GoStrings.
From S2P Require Import GoTime.
From S2P Require Import Json.
From S2P Require Import Registry.
From S2P Require Import Quota.
From S2P Require Import GatewayTypes.

(** ** What a dial depends on *)

Record UpstreamSpec := {
  SpName : string; SpTransport : string; SpCommand : string; SpArgs : list string; SpURL : string; SpImage : string;
  SpAuthKind : string; SpAuthName : string; SpOperations : string
}.

Definition specFor (e : UpstreamServer) : UpstreamSpec :=
  {| SpName := Name e; SpTransport := STransport e; SpCommand := Command e; SpArgs := Args e; SpURL := URL e;
     SpImage := Image e; SpAuthKind := SAuthKind e; SpAuthName := AuthName e; SpOperations := Operations e |}.

Definition specChanged (was now : UpstreamServer) : bool :=
  negb (bool_decide (STransport was = STransport now)) || negb (bool_decide (Command was = Command now))
  || negb (bool_decide (URL was = URL now)) || negb (bool_decide (Image was = Image now))
  || negb (bool_decide (Args was = Args now)) || negb (bool_decide (EnvVarNames was = EnvVarNames now)).

(** ** The table *)

Section table.
Context `{SV : SchemaValidator}.

Abbreviation table := (gmap string routedTool).

(** The keys of a Go map, sorted. *)
Definition sorted_keys {A} (m : gmap string A) : list string := sort_strings (map fst (map_to_list m)).

Inductive route_error :=
| Collides (upstream name : string)                 (* mergeRoutes *)
| UndeclaredTools (tools : list string).            (* withholdUndeclaredQuotaTools *)

(** One name of an upstream's candidates. *)
Definition merge_name (upstream : string) (candidates : table) (acc : table * list string * list route_error)
  (name : string) : table * list string * list route_error :=
  let '(merged, collisions, failures) := acc in
  match candidates !! name with
  | None => acc
  | Some rt =>
      match merged !! name with
      | Some _ => (merged, name :: collisions, failures ++ [Collides upstream name])
      | None => (<[name := rt]> merged, collisions, failures)
      end
  end.

(** One upstream's candidates folded into the table: the table, the names claimed twice, the errors. *)
Definition merge_one (upstream : string) (candidates : table) (acc : table * list string * list route_error)
  : table * list string * list route_error :=
  foldl (merge_name upstream candidates) acc (sorted_keys candidates).

Definition mergeRoutes (candidates : gmap string table) : table * list route_error :=
  let '(merged, collisions, failures) :=
    foldl (fun acc upstream =>
        match candidates !! upstream with Some c => merge_one upstream c acc | None => acc end)
      (∅, [], []) (sorted_keys candidates) in
  (foldr delete merged collisions, failures).

Definition routesOf (t : table) (u : string) : table :=
  filter (fun e : string * routedTool => upstream (rt_route e.2) = u) t.

(** ** The quota plan against the registry *)

Definition budgeted (plan : Plan) : list string := map Upstream (providers plan).

Inductive coverage_problem :=
| UpstreamNotRegistered (account upstream : string)
| CredentialShared (counted other env : string).

Definition not_registered (plan : Plan) (entries : list UpstreamServer) : list coverage_problem :=
  omap (fun p => if bool_decide (Upstream p ∈ map Name entries) then None
                 else Some (UpstreamNotRegistered (PName p) (Upstream p))) (providers plan).

(** [byEnvVar[name]]: the entries that carry a variable, once for each time they do. *)
Definition byEnvVar (entries : list UpstreamServer) (env : string) : list string :=
  flat_map (fun e => map (fun _ => Name e) (List.filter (String.eqb env) (EnvVarNames e))) entries.

(** The unbudgeted entries that carry a variable of a budgeted one. *)
Definition shares (plan : Plan) (entries : list UpstreamServer) : list (string * string * string) :=
  flat_map (fun e =>
      if bool_decide (Name e ∈ budgeted plan) then
        flat_map (fun env =>
            omap (fun other =>
                if bool_decide (other = Name e) then None
                else if bool_decide (other ∈ budgeted plan) then None
                else Some (Name e, other, env)) (byEnvVar entries env)) (EnvVarNames e)
      else []) entries.

(** The entries to stop serving, and the disagreements. *)
Definition quotaCoverage (plan : Plan) (entries : list UpstreamServer) : list string * list coverage_problem :=
  match providers plan with
  | [] => ([], [])
  | _ =>
      let problems := not_registered plan entries
        ++ map (fun s => CredentialShared s.1.1 s.1.2 s.2) (shares plan entries) in
      (map (fun s => s.1.2) (shares plan entries), problems)
  end.

(** [None] when the plan and the registry agree. *)
Definition CheckQuotaCoverage (plan : Plan) (entries : list UpstreamServer) : option (list coverage_problem) :=
  match (quotaCoverage plan entries).2 with [] => None | ps => Some ps end.

Definition undeclared_tool (plan : Plan) (tool : string) : bool :=
  match SplitNamespaced tool with
  | None => false
  | Some (upstream, _) => bool_decide (upstream ∈ budgeted plan) && negb (IsDeclared plan tool)
  end.

Definition UndeclaredQuotaTools (plan : Plan) (served : list string) : list string :=
  match providers plan with
  | [] => []
  | _ => sort_strings (List.filter (undeclared_tool plan) served)
  end.

Definition withholdUndeclaredQuotaTools (plan : Plan) (routes : table) : table * list route_error :=
  match UndeclaredQuotaTools plan (map fst (map_to_list routes)) with
  | [] => (routes, [])
  | undeclared => (foldr delete routes undeclared, [UndeclaredTools undeclared])
  end.

(** ** Facts *)

Lemma elem_of_sorted_keys {A} (m : gmap string A) k : k ∈ sorted_keys m <-> is_Some (m !! k).
Proof.
  unfold sorted_keys. rewrite elem_of_sort_strings. setoid_rewrite list_elem_of_fmap. split.
  - intros ([k' x] & -> & H%elem_of_map_to_list). by exists x.
  - intros [x Hx]. exists (k, x). split; [done|]. by apply elem_of_map_to_list.
Qed.

Lemma NoDup_sorted_keys {A} (m : gmap string A) : NoDup (sorted_keys m).
Proof. unfold sorted_keys. rewrite sort_strings_NoDup. apply NoDup_fst_map_to_list. Qed.

Lemma foldr_delete_lookup {A} (m : gmap string A) ks k :
  foldr delete m ks !! k = if bool_decide (k ∈ ks) then None else m !! k.
Proof.
  induction ks as [|k' ks IH]; simpl; [done|]. destruct (decide (k = k')) as [->|Hne].
  - rewrite lookup_delete_eq. by rewrite bool_decide_eq_true_2 by apply list_elem_of_here.
  - rewrite lookup_delete_ne by done. rewrite IH. apply (f_equal (fun b : bool => if b then None else m !! k)).
    apply bool_decide_ext. rewrite elem_of_cons. naive_solver.
Qed.

(** ** Merging *)

Section merging.
Variable candidates : gmap string table.

(** [u] claims [name] for [rt]. *)
Definition claims (u name : string) (rt : routedTool) : Prop :=
  exists t, candidates !! u = Some t /\ t !! name = Some rt.

(** The merge, one claim after another: an upstream, a name, a route. *)
Definition merge_claim (acc : table * list string * list route_error) (claim : string * string * routedTool)
  : table * list string * list route_error :=
  let '(u, name, rt) := claim in
  let '(merged, collisions, failures) := acc in
  match merged !! name with
  | Some _ => (merged, name :: collisions, failures ++ [Collides u name])
  | None => (<[name := rt]> merged, collisions, failures)
  end.

Definition claims_of (u : string) : list (string * string * routedTool) :=
  match candidates !! u with Some c => omap (fun k => pair (u, k) <$> c !! k) (sorted_keys c) | None => [] end.

Lemma merge_one_claims u c acc :
  merge_one u c acc = foldl merge_claim acc (omap (fun k => pair (u, k) <$> c !! k) (sorted_keys c)).
Proof.
  unfold merge_one. generalize (sorted_keys c). intros ks. revert acc. induction ks as [|k ks IH]; intros [[m cs] fs]; [done|].
  cbn [foldl]. rewrite IH. cbn [omap list_omap merge_name]. by destruct (c !! k).
Qed.

Lemma merge_claims us acc :
  foldl (fun acc upstream => match candidates !! upstream with Some c => merge_one upstream c acc | None => acc end) acc us
  = foldl merge_claim acc (us ≫= claims_of).
Proof.
  revert acc. induction us as [|u us IH]; intros acc; [done|]. cbn [foldl]. rewrite bind_cons, foldl_app, IH. f_equal.
  unfold claims_of. destruct (candidates !! u); [apply merge_one_claims|done].
Qed.

(** Who claims [name], and with which route, in the order they are merged. *)
Definition claimants (name : string) (l : list (string * string * routedTool)) : list (string * routedTool) :=
  omap (fun '(u, k, rt) => if bool_decide (k = name) then Some (u, rt) else None) l.

Lemma merge_claim_spec l m cs fs name :
  let '(m', cs', _) := foldl merge_claim (m, cs, fs) l in
  m' !! name = match m !! name with Some x => Some x | None => snd <$> head (claimants name l) end
  /\ (name ∈ cs' <-> name ∈ cs \/ claimants name l <> [] /\ (is_Some (m !! name) \/ (2 <= length (claimants name l))%nat)).
Proof.
  revert m cs fs. induction l as [|[[u k] rt] l IH]; intros m cs fs; cbn [foldl].
  { cbn. split; [by destruct (m !! name)|naive_solver]. }
  cbn [merge_claim]. unfold claimants. cbn [omap list_omap]. fold (claimants name l).
  destruct (m !! k) as [x|] eqn:Hk.
  - specialize (IH m (k :: cs) (fs ++ [Collides u k])). destruct (foldl _ _ _) as [[m' cs'] fs']. destruct IH as [-> ->].
    rewrite elem_of_cons. case_bool_decide as Hkn; subst; [rewrite Hk|]; split; naive_solver.
  - specialize (IH (<[k := rt]> m) cs fs). destruct (foldl _ _ _) as [[m' cs'] fs']. destruct IH as [-> ->].
    case_bool_decide as Hkn; subst; [|by rewrite lookup_insert_ne by done].
    rewrite lookup_insert_eq, Hk. cbn [head fmap option_fmap option_map snd length]. split; [done|].
    apply or_iff_compat_l. split.
    + intros [Hne _]. split; [done|]. right. destruct (claimants name l); cbn; [done|lia].
    + intros [_ [[? [=]]|Hl]]. split; [|left; eauto]. intros E. rewrite E in Hl. cbn in Hl. lia.
Qed.

Lemma claimants_app name l1 l2 : claimants name (l1 ++ l2) = claimants name l1 ++ claimants name l2.
Proof. apply omap_app. Qed.

(** An upstream claims a name at most once. *)
Lemma claimants_of name u :
  claimants name (claims_of u) = option_list (c ← candidates !! u; pair u <$> c !! name).
Proof.
  unfold claims_of. destruct (candidates !! u) as [c|]; [|done]. simpl.
  assert (H : forall ks, NoDup ks -> claimants name (omap (fun k => pair (u, k) <$> c !! k) ks)
    = if bool_decide (name ∈ ks) then option_list (pair u <$> c !! name) else []).
  { induction ks as [|k ks IH]; intros Hn; [done|]. apply NoDup_cons in Hn as [Hk Hn]. specialize (IH Hn).
    cbn [omap list_omap]. destruct (c !! k) as [rt|] eqn:Hc; cbn [fmap option_fmap option_map].
    - unfold claimants. cbn [omap list_omap]. fold (claimants name (omap (fun k => pair (u, k) <$> c !! k) ks)). rewrite IH.
      destruct (decide (k = name)) as [->|Hne].
      + rewrite (bool_decide_eq_true_2 (name = name)), (bool_decide_eq_false_2 (name ∈ ks)), bool_decide_eq_true_2, Hc
          by (done || apply list_elem_of_here). done.
      + rewrite (bool_decide_eq_false_2 (k = name)) by done.
        apply (f_equal (fun b : bool => if b then _ else [])), bool_decide_ext. rewrite elem_of_cons. naive_solver.
    - rewrite IH. destruct (decide (name = k)) as [->|Hne]; [rewrite Hc; by repeat case_bool_decide|].
      apply (f_equal (fun b : bool => if b then _ else [])), bool_decide_ext. rewrite elem_of_cons. naive_solver. }
  rewrite H by apply NoDup_sorted_keys. case_bool_decide as Hin; [done|].
  destruct (c !! name) eqn:Hc; [|done]. destruct Hin. apply elem_of_sorted_keys. eauto.
Qed.

Lemma claimants_all name us :
  claimants name (us ≫= claims_of) = omap (fun u => c ← candidates !! u; pair u <$> c !! name) us.
Proof.
  induction us as [|u us IH]; [done|]. rewrite bind_cons, claimants_app, IH, claimants_of. cbn [omap list_omap].
  by destruct (mbind (M := option) _ (candidates !! u)) as [y|].
Qed.

Lemma elem_of_claimants name u rt us :
  (u, rt) ∈ claimants name (us ≫= claims_of) <-> u ∈ us /\ claims u name rt.
Proof.
  rewrite claimants_all, list_elem_of_omap. unfold claims. split.
  - intros (u' & Hu & H). apply bind_Some in H as (c & Hc & H). apply fmap_Some in H as (rt' & Hr & [= -> ->]). eauto.
  - intros (Hu & c & Hc & Hr). exists u. split; [done|]. by rewrite Hc; simpl; rewrite Hr.
Qed.

Lemma claimants_NoDup name us : NoDup us -> NoDup (claimants name (us ≫= claims_of)).*1.
Proof.
  rewrite claimants_all. induction 1 as [|u us Hu Hn IH]; cbn [omap list_omap]; [constructor|].
  destruct (c ← candidates !! u; _) as [[u' rt]|] eqn:H; [|done]. cbn [fmap list_fmap].
  apply bind_Some in H as (c & _ & H). apply fmap_Some in H as (rt' & _ & [= -> ->]). constructor; [|done].
  intros ([u' r] & E & (x & Hx & H)%list_elem_of_omap)%list_elem_of_fmap. apply bind_Some in H as (c' & _ & H).
  apply fmap_Some in H as (? & _ & [= -> ->]). cbn in E. by subst.
Qed.

Lemma mergeRoutes_lookup name rt :
  (mergeRoutes candidates).1 !! name = Some rt <->
  exists u, claims u name rt /\ forall u' rt', claims u' name rt' -> u' = u.
Proof.
  unfold mergeRoutes. rewrite merge_claims. set (us := sorted_keys candidates).
  assert (Hin : forall u r, claims u name r <-> (u, r) ∈ claimants name (us ≫= claims_of)).
  { intros u r. rewrite elem_of_claimants. split; [|tauto]. intros Hc. split; [|done]. destruct Hc as (c & Hc & _).
    apply elem_of_sorted_keys. eauto. }
  pose proof (claimants_NoDup name us (NoDup_sorted_keys candidates)) as Hn.
  pose proof (merge_claim_spec (us ≫= claims_of) ∅ [] [] name) as Hs.
  destruct (foldl _ _ _) as [[m cs] fs]. destruct Hs as [Hm Hcs]. cbn [fst]. rewrite foldr_delete_lookup.
  setoid_rewrite Hin. rewrite lookup_empty in *. destruct (claimants name (us ≫= claims_of)) as [|[u1 r1] [|[u2 r2] l]] eqn:El.
  - rewrite Hm. case_bool_decide; split; try done; intros (u & Hu%not_elem_of_nil & _); done.
  - rewrite bool_decide_eq_false_2, Hm by (rewrite Hcs; cbn; rewrite elem_of_nil; intros [?|[_ [[? [=]]|?]]]; [done|lia]).
    setoid_rewrite list_elem_of_singleton. cbn. naive_solver.
  - rewrite bool_decide_eq_true_2 by (apply Hcs; right; split; [done|right; cbn; lia]). split; [done|].
    intros (u & _ & Hu). cbn in Hn. apply NoDup_cons in Hn as [Hn _]. exfalso. apply Hn.
    rewrite (Hu u1 r1), (Hu u2 r2) by set_solver. apply list_elem_of_here.
Qed.

(** C12 [mergeRoutes_exact]: the merged table serves a name exactly when one upstream claims it, and then
    with that upstream's route: a name two of them claim is served by neither. *)
Theorem mergeRoutes_exact name rt :
  (mergeRoutes candidates).1 !! name = Some rt <->
  exists u, claims u name rt /\ forall u' rt', claims u' name rt' -> u' = u.
Proof. apply mergeRoutes_lookup. Qed.
End merging.

(** ** Coverage *)

Lemma elem_of_byEnvVar entries env name :
  name ∈ byEnvVar entries env <-> exists e, e ∈ entries /\ Name e = name /\ env ∈ EnvVarNames e.
Proof.
  unfold byEnvVar. rewrite list_elem_of_In, in_flat_map. setoid_rewrite in_map_iff. setoid_rewrite filter_In.
  setoid_rewrite String.eqb_eq. split.
  - intros (e & He & x & <- & Hx & <-). exists e. by rewrite !list_elem_of_In.
  - intros (e & He & <- & Hx). exists e. rewrite list_elem_of_In in He. split; [done|]. exists env.
    by rewrite <- list_elem_of_In.
Qed.

(** [other] spends [counted]'s credential uncounted. *)
Definition spends_uncounted (plan : Plan) (entries : list UpstreamServer) (counted other env : string) : Prop :=
  exists e o, e ∈ entries /\ o ∈ entries /\ Name e = counted /\ Name o = other
    /\ counted ∈ budgeted plan /\ other ∉ budgeted plan /\ env ∈ EnvVarNames e /\ env ∈ EnvVarNames o.

Lemma elem_of_shares plan entries counted other env :
  (counted, other, env) ∈ shares plan entries <-> spends_uncounted plan entries counted other env.
Proof.
  unfold shares, spends_uncounted. rewrite list_elem_of_In, in_flat_map. split.
  - intros (e & He & H). rewrite <- list_elem_of_In in He. case_bool_decide as Hb; [|done].
    apply in_flat_map in H as (v & Hv & H). rewrite <- list_elem_of_In in Hv. rewrite <- list_elem_of_In in H.
    apply list_elem_of_omap in H as (o & Ho & H). case_bool_decide as H1; [done|]. case_bool_decide as H2; [done|].
    injection H as <- <- <-. apply elem_of_byEnvVar in Ho as (oe & Hoe & <- & Hov). exists e, oe. by split_and!.
  - intros (e & o & He & Ho & <- & <- & Hb & Hnb & Hv & Hov). exists e. rewrite <- list_elem_of_In. split; [done|].
    rewrite bool_decide_eq_true_2 by done. apply in_flat_map. exists env. rewrite <- !list_elem_of_In. split; [done|].
    apply list_elem_of_omap. exists (Name o). split; [apply elem_of_byEnvVar; by exists o|].
    rewrite bool_decide_eq_false_2 by (intros Heq; by rewrite Heq in Hnb). by rewrite bool_decide_eq_false_2.
Qed.

(** C13 [coverage_exact]: what agreement between the quota plan and the registry means.  The check passes
    exactly when every account names a registered upstream and no upstream without an account carries a
    variable, and so the credential, of one with an account; and the entries a round stops serving are
    exactly those. *)
Theorem coverage_exact plan entries :
  (CheckQuotaCoverage plan entries = None <->
     Forall (fun p => Upstream p ∈ map Name entries) (providers plan)
     /\ forall counted other env, ~ spends_uncounted plan entries counted other env)
  /\ (forall other, other ∈ (quotaCoverage plan entries).1 <->
       exists counted env, spends_uncounted plan entries counted other env).
Proof.
  unfold CheckQuotaCoverage, quotaCoverage. destruct (providers plan) as [|p0 ps] eqn:Hp.
  { assert (Hno : forall counted other env, ~ spends_uncounted plan entries counted other env).
    { intros counted other env (e & o & _ & _ & _ & _ & Hb & _). unfold budgeted in Hb. rewrite Hp in Hb. by apply not_elem_of_nil in Hb. }
    cbn [fst snd]. split; [split; [|done]; intros _; by split|]. intros other. split; [by intros ?%not_elem_of_nil|].
    intros (c & v & H). by destruct (Hno c other v). }
  rewrite <- Hp. cbn [fst snd]. split.
  - transitivity (not_registered plan entries = [] /\ shares plan entries = []).
    + destruct (not_registered plan entries), (shares plan entries); simpl; naive_solver.
    + apply Morphisms_Prop.and_iff_morphism.
      * unfold not_registered. rewrite Forall_forall. split.
        -- intros H p Hin. destruct (decide (Upstream p ∈ map Name entries)) as [|Hno]; [done|].
           assert (Hx : UpstreamNotRegistered (PName p) (Upstream p) ∈ @nil coverage_problem); [|by apply not_elem_of_nil in Hx].
           rewrite <- H. apply list_elem_of_omap. exists p. split; [done|]. by rewrite bool_decide_eq_false_2.
        -- intros H. apply elem_of_nil_inv. intros x (p & Hin & Hx)%list_elem_of_omap.
           by rewrite bool_decide_eq_true_2 in Hx by by apply H.
      * split.
        -- intros H c o v Hs. apply elem_of_shares in Hs. rewrite H in Hs. by apply not_elem_of_nil in Hs.
        -- intros H. apply elem_of_nil_inv. intros [[c o] v] Hin. apply elem_of_shares in Hin. by apply H in Hin.
  - intros other. rewrite list_elem_of_fmap. split.
    + intros ([[c o] v] & -> & Hin). exists c, v. by apply elem_of_shares.
    + intros (c & v & H). exists (c, other, v). split; [done|]. by apply elem_of_shares.
Qed.

Lemma elem_of_undeclared plan served tool :
  tool ∈ UndeclaredQuotaTools plan served <-> tool ∈ served /\ undeclared_tool plan tool = true.
Proof.
  unfold UndeclaredQuotaTools. destruct (providers plan) as [|p0 ps] eqn:Hp.
  - split; [by intros ?%not_elem_of_nil|]. intros [_ H]. unfold undeclared_tool in H.
    destruct (SplitNamespaced tool) as [[u x]|]; [|done]. unfold budgeted in H. rewrite Hp in H.
    by rewrite bool_decide_eq_false_2 in H by (by apply not_elem_of_nil).
  - rewrite elem_of_sort_strings, !list_elem_of_In, filter_In. done.
Qed.

(** The table installed is the one built, less exactly its undeclared tools. *)
Lemma withhold_lookup plan routes name :
  (withholdUndeclaredQuotaTools plan routes).1 !! name
  = if undeclared_tool plan name then None else routes !! name.
Proof.
  unfold withholdUndeclaredQuotaTools.
  assert (H : foldr delete routes (UndeclaredQuotaTools plan (map fst (map_to_list routes))) !! name
    = if undeclared_tool plan name then None else routes !! name).
  { rewrite foldr_delete_lookup. destruct (undeclared_tool plan name) eqn:Hu.
    - destruct (routes !! name) as [rt|] eqn:Hr; [|by destruct (bool_decide _)].
      rewrite bool_decide_eq_true_2; [done|]. apply elem_of_undeclared. split; [|done].
      apply list_elem_of_fmap. exists (name, rt). split; [done|]. by apply elem_of_map_to_list.
    - rewrite bool_decide_eq_false_2; [done|]. intros [_ Hx]%elem_of_undeclared. congruence. }
  destruct (UndeclaredQuotaTools _ _); exact H.
Qed.

Lemma routesOf_lookup t u name rt : routesOf t u !! name = Some rt <-> t !! name = Some rt /\ upstream (rt_route rt) = u.
Proof. unfold routesOf. by rewrite map_lookup_filter_Some. Qed.
End table.

(** ** What a change of an entry is compared by *)

Lemma specChanged_false was now :
  specChanged was now = false <->
  STransport was = STransport now /\ Command was = Command now /\ URL was = URL now /\ Image was = Image now
  /\ Args was = Args now /\ EnvVarNames was = EnvVarNames now.
Proof.
  unfold specChanged. rewrite !orb_false_iff, !negb_false_iff, !bool_decide_eq_true. tauto.
Qed.

(** Fact [specChanged_misses]: an entry whose credential location or operations an operator changed is
    not a changed entry for [specChanged], although a dialer is handed a different spec for it: the
    live connection made from the old entry is kept. *)
Theorem specChanged_misses e kind name ops :
  let e' := {| Name := Name e; STransport := STransport e; Command := Command e; Args := Args e; Image := Image e;
               URL := URL e; EnvVarNames := EnvVarNames e; SAuthKind := kind; AuthName := name; Operations := ops;
               CreatedAt := CreatedAt e; UpdatedAt := UpdatedAt e |} in
  specChanged e e' = false
  /\ (specFor e' = specFor e <-> kind = SAuthKind e /\ name = AuthName e /\ ops = Operations e).
Proof.
  cbv zeta. split; [by apply specChanged_false|]. unfold specFor. simpl. split; [by intros [= -> -> ->]|by intros (-> & -> & ->)].
Qed.
