(* ===== verification/Fleet.v ===== *)
(** * The fleet: what the gateway holds about its backends ([internal/gateway]: [endpoint.go], [health.go], [reload.go])

    The fields under [Gateway.mu] as one record, and each section that holds the lock as one function
    on it: a step no other request can see the middle of.  The rounds, the calls and the operator's
    commands are programs that perform these steps (Rounds.v, Dispatch.v). *)
From Stdlib Require Import ZArith Lia Ascii.
From stdpp Require Import base strings list gmap.
From S2P Require Import Prelude.
From S2P Require Import GoStrings.
From S2P Require Import GoTime.
From S2P Require Import Encode.
From S2P Require Import AuditLog.
From S2P Require Import Registry.
From S2P Require Import Quota.
From S2P Require Import Access.
From S2P Require Import GatewayTypes.
From S2P Require Import Routing.

(** ** Data *)

Abbreviation Cause := string (only parsing).
Definition CauseProcessGone : Cause := "process_gone".
Definition CauseNotBroughtUp : Cause := "not_brought_up".
Definition CauseHeldBack : Cause := "held_back".
Definition CauseNotListed : Cause := "not_listed".
Definition CauseRedial : Cause := "redial".

Record backendHealth := { bh_live : bool; bh_since : time; bh_lastAttempt : time; bh_cause : Cause }.

(** One row to write about a transition. *)
Record healthEvent := { he_backend : string; he_outcome : string; he_reason : string }.

Record ListedTool := { LTool : string; LHash : string }.

(** What [availability] reads of one backend under the lock. *)
Record health_view := {
  v_gone : option handle; v_unlisted : option handle; v_health : option backendHealth;
  v_lastRound : time; v_interval : Z
}.

(** [controls]: the policy and the quota gate one [ApplyPolicy] stored together. *)
Record controls := { ctl_policy : Policy; ctl_plan : Plan }.

Record fleet `{SV : SchemaValidator} := Fleet {
  f_conns : gmap string handle;                       (* the live connections *)
  f_creds : gmap string (gmap string string);         (* digests of what each was handed, by variable *)
  f_dialed : gmap string UpstreamServer;              (* the entry each was dialed from *)
  f_routes : gmap string routedTool;
  f_gone : gmap string handle;                        (* found dead, by connection *)
  f_unlisted : gmap string handle;                    (* connected, not yet listed *)
  f_confirmed : bool; f_suspended : bool; f_closed : bool;
  f_health : gmap string backendHealth;
  f_servable : option (gset string);                  (* [None] is the nil map *)
  f_heldBack : bool;
  f_lastRound : time;
  f_listing : gmap string (list ListedTool);
  f_dirtyListing : gset string;
  f_listingLoaded : bool;
  f_sigRefused : gmap string string;                  (* under refreshMu *)
  f_controls : controls                               (* an atomic pointer *)
}.

Section fleet.
Context `{SV : SchemaValidator}.

Abbreviation table := (gmap string routedTool).

(** [New]. *)
Definition new_fleet (ctl : controls) : fleet :=
  Fleet _ ∅ ∅ ∅ ∅ ∅ ∅ false false false ∅ None false zero_time ∅ ∅ false ∅ ctl.

Definition set_routes (r : table) (f : fleet) : fleet :=
  Fleet _ (f_conns f) (f_creds f) (f_dialed f) r (f_gone f) (f_unlisted f) (f_confirmed f) (f_suspended f) (f_closed f)
    (f_health f) (f_servable f) (f_heldBack f) (f_lastRound f) (f_listing f) (f_dirtyListing f) (f_listingLoaded f) (f_sigRefused f) (f_controls f).
Definition set_flags (confirmed suspended : bool) (f : fleet) : fleet :=
  Fleet _ (f_conns f) (f_creds f) (f_dialed f) (f_routes f) (f_gone f) (f_unlisted f) confirmed suspended (f_closed f)
    (f_health f) (f_servable f) (f_heldBack f) (f_lastRound f) (f_listing f) (f_dirtyListing f) (f_listingLoaded f) (f_sigRefused f) (f_controls f).
Definition set_conns (conns : gmap string handle) (dialed : gmap string UpstreamServer) (f : fleet) : fleet :=
  Fleet _ conns (f_creds f) dialed (f_routes f) (f_gone f) (f_unlisted f) (f_confirmed f) (f_suspended f) (f_closed f)
    (f_health f) (f_servable f) (f_heldBack f) (f_lastRound f) (f_listing f) (f_dirtyListing f) (f_listingLoaded f) (f_sigRefused f) (f_controls f).
Definition set_creds (creds : gmap string (gmap string string)) (f : fleet) : fleet :=
  Fleet _ (f_conns f) creds (f_dialed f) (f_routes f) (f_gone f) (f_unlisted f) (f_confirmed f) (f_suspended f) (f_closed f)
    (f_health f) (f_servable f) (f_heldBack f) (f_lastRound f) (f_listing f) (f_dirtyListing f) (f_listingLoaded f) (f_sigRefused f) (f_controls f).
Definition set_marks (gone unlisted : gmap string handle) (f : fleet) : fleet :=
  Fleet _ (f_conns f) (f_creds f) (f_dialed f) (f_routes f) gone unlisted (f_confirmed f) (f_suspended f) (f_closed f)
    (f_health f) (f_servable f) (f_heldBack f) (f_lastRound f) (f_listing f) (f_dirtyListing f) (f_listingLoaded f) (f_sigRefused f) (f_controls f).
Definition set_health (h : gmap string backendHealth) (f : fleet) : fleet :=
  Fleet _ (f_conns f) (f_creds f) (f_dialed f) (f_routes f) (f_gone f) (f_unlisted f) (f_confirmed f) (f_suspended f) (f_closed f)
    h (f_servable f) (f_heldBack f) (f_lastRound f) (f_listing f) (f_dirtyListing f) (f_listingLoaded f) (f_sigRefused f) (f_controls f).
Definition set_servable (s : option (gset string)) (held : bool) (f : fleet) : fleet :=
  Fleet _ (f_conns f) (f_creds f) (f_dialed f) (f_routes f) (f_gone f) (f_unlisted f) (f_confirmed f) (f_suspended f) (f_closed f)
    (f_health f) s held (f_lastRound f) (f_listing f) (f_dirtyListing f) (f_listingLoaded f) (f_sigRefused f) (f_controls f).
Definition set_lastRound (t : time) (f : fleet) : fleet :=
  Fleet _ (f_conns f) (f_creds f) (f_dialed f) (f_routes f) (f_gone f) (f_unlisted f) (f_confirmed f) (f_suspended f) (f_closed f)
    (f_health f) (f_servable f) (f_heldBack f) t (f_listing f) (f_dirtyListing f) (f_listingLoaded f) (f_sigRefused f) (f_controls f).
Definition set_listing (l : gmap string (list ListedTool)) (dirty : gset string) (loaded : bool) (f : fleet) : fleet :=
  Fleet _ (f_conns f) (f_creds f) (f_dialed f) (f_routes f) (f_gone f) (f_unlisted f) (f_confirmed f) (f_suspended f) (f_closed f)
    (f_health f) (f_servable f) (f_heldBack f) (f_lastRound f) l dirty loaded (f_sigRefused f) (f_controls f).
Definition set_sigRefused (s : gmap string string) (f : fleet) : fleet :=
  Fleet _ (f_conns f) (f_creds f) (f_dialed f) (f_routes f) (f_gone f) (f_unlisted f) (f_confirmed f) (f_suspended f) (f_closed f)
    (f_health f) (f_servable f) (f_heldBack f) (f_lastRound f) (f_listing f) (f_dirtyListing f) (f_listingLoaded f) s (f_controls f).

Definition set_controls (ctl : controls) (f : fleet) : fleet :=
  Fleet _ (f_conns f) (f_creds f) (f_dialed f) (f_routes f) (f_gone f) (f_unlisted f) (f_confirmed f) (f_suspended f) (f_closed f)
    (f_health f) (f_servable f) (f_heldBack f) (f_lastRound f) (f_listing f) (f_dirtyListing f) (f_listingLoaded f) (f_sigRefused f) ctl.

(** ** Reading *)

(** The route of a name, and the connection serving it. *)
Definition lookup_route (name : string) (f : fleet) : option (routedTool * option handle) :=
  match f_routes f !! name with
  | Some rt => Some (rt, f_conns f !! upstream (rt_route rt))
  | None => None
  end.

Definition view (interval : Z) (name : string) (f : fleet) : health_view :=
  {| v_gone := f_gone f !! name; v_unlisted := f_unlisted f !! name; v_health := f_health f !! name;
     v_lastRound := f_lastRound f; v_interval := interval |}.

Definition is_servable (f : fleet) (name : string) : bool :=
  match f_servable f with Some s => bool_decide (name ∈ s) | None => false end.

Definition servableNotConnected (conns : gmap string handle) (f : fleet) : list string :=
  match f_servable f with
  | None => []
  | Some s => sort_strings (List.filter (fun name => negb (bool_decide (is_Some (conns !! name)))) (elements s))
  end.

(** ** The state of life of a backend *)

Definition down_reason (cause : Cause) : string := reasonBackendDownPrefix +:+ ": " +:+ cause.
Definition up_reason (since : time) : string := reasonBackendUpPrefix +:+ " " +:+ format_seconds since.

(** What [observeLive] makes of one backend's record, and the row it earns. *)
Definition observe_record (b : option backendHealth) (name : string) (live : bool) (cause : Cause) (attempted : bool) (now : time)
  : backendHealth * option healthEvent :=
  let '(b1, ev) :=
    match b with
    | None =>
        ({| bh_live := live; bh_since := now; bh_lastAttempt := zero_time; bh_cause := "" |},
         Some {| he_backend := name; he_outcome := if live then OutcomeAllowed else OutcomeDenied;
                 he_reason := if live then reasonBackendUpFirst else down_reason cause |})
    | Some b =>
        if negb (eqb (bh_live b) live) && live then
          ({| bh_live := true; bh_since := now; bh_lastAttempt := bh_lastAttempt b; bh_cause := bh_cause b |},
           Some {| he_backend := name; he_outcome := OutcomeAllowed; he_reason := up_reason (bh_since b) |})
        else if negb (eqb (bh_live b) live) then
          ({| bh_live := false; bh_since := now; bh_lastAttempt := zero_time; bh_cause := bh_cause b |},
           Some {| he_backend := name; he_outcome := OutcomeDenied; he_reason := down_reason cause |})
        else (b, None)
    end in
  ({| bh_live := bh_live b1; bh_since := bh_since b1;
      bh_lastAttempt := if attempted then now else bh_lastAttempt b1;
      bh_cause := if live then "" else if bool_decide (cause = "") then bh_cause b1 else cause |}, ev).

Definition observeLive (name : string) (live : bool) (cause : Cause) (attempted : bool) (now : time) (f : fleet)
  : fleet * option healthEvent :=
  let '(b, ev) := observe_record (f_health f !! name) name live cause attempted now in
  (set_health (<[name := b]> (f_health f)) f, ev).

Definition forgetHealth (name : string) (f : fleet) : fleet * option healthEvent :=
  match f_health f !! name with
  | None => (f, None)
  | Some _ => (set_health (delete name (f_health f)) f,
               Some {| he_backend := name; he_outcome := OutcomeDenied; he_reason := reasonBackendRemoved |})
  end.

(** Whether a connection can take calls, and why not. *)
Definition life (frozen : bool) (dialed : gset string) (name : string) (f : fleet) : bool * Cause :=
  let up := f_conns f !! name in
  let alive := bool_decide (up <> None) && negb (bool_decide (f_gone f !! name = up)) in
  let live := alive && negb (bool_decide (f_unlisted f !! name = up)) in
  (live,
   if live then ""
   else if alive then CauseNotListed
   else if frozen then CauseHeldBack
   else if bool_decide (name ∈ dialed) then CauseNotBroughtUp
   else match f_health f !! name with
        | Some b => if bool_decide (bh_cause b = "") then CauseNotBroughtUp else bh_cause b
        | None => CauseNotBroughtUp
        end).

Definition settle_each (frozen : bool) (dialed : gset string) (now : time) (acc : fleet * list (option healthEvent))
  (name : string) : fleet * list (option healthEvent) :=
  let '(f, events) := acc in
  let '(live, cause) := life frozen dialed name f in
  let '(f1, ev) := observeLive name live cause (bool_decide (name ∈ dialed)) now f in
  (f1, events ++ [ev]).

Definition forget_each (next : gset string) (keep : list string) (acc : fleet * list (option healthEvent))
  (name : string) : fleet * list (option healthEvent) :=
  let '(f, events) := acc in
  if bool_decide (name ∈ next) || bool_decide (name ∈ keep) then acc
  else let '(f1, ev) := forgetHealth name f in (f1, events ++ [ev]).

(** [settleHealth]; [keep] lists the names a round could not measure. *)
Definition settleHealth (servable : list string) (keep : list string) (frozen : bool) (dialed : gset string) (now : time)
  (f : fleet) : fleet * list (option healthEvent) :=
  let next := list_to_set (C := gset string) servable in
  let '(f1, ev1) := foldl (settle_each frozen dialed now) (f, []) servable in
  let '(f2, ev2) := foldl (forget_each next keep) (f1, ev1) (sorted_keys (f_health f1)) in
  (set_servable (Some (next ∪ list_to_set (C := gset string) (sorted_keys (f_health f2)))) frozen f2, ev2).

Definition markGone (now : time) (name : string) (up : handle) (f : fleet) : fleet * option healthEvent :=
  if negb (bool_decide (f_conns f !! name = Some up)) then (f, None)
  else
    let f1 := set_marks (<[name := up]> (f_gone f)) (f_unlisted f) f in
    if bool_decide (f_servable f <> None) && negb (is_servable f name) then (f1, None)
    else
      let '(f2, ev) := observeLive name false CauseProcessGone false now f1 in
      if f_heldBack f2 then
        match f_health f2 !! name with
        | Some b => (set_health (<[name := {| bh_live := bh_live b; bh_since := bh_since b;
                                              bh_lastAttempt := bh_lastAttempt b; bh_cause := CauseHeldBack |}]> (f_health f2)) f2, ev)
        | None => (f2, ev)
        end
      else (f2, ev).

(** The gone marker of [name], read once: was it this connection? *)
Definition takeGone (name : string) (live : handle) (f : fleet) : fleet * bool :=
  match f_gone f !! name with
  | None => (f, false)
  | Some marked => (set_marks (delete name (f_gone f)) (f_unlisted f) f, bool_decide (marked = live))
  end.

Definition markListed (now : time) (name : string) (up : handle) (f : fleet) : fleet * option healthEvent :=
  if negb (bool_decide (f_unlisted f !! name = Some up)) then (f, None)
  else
    let f1 := set_marks (f_gone f) (delete name (f_unlisted f)) f in
    match f_health f1 !! name with
    | None => (f1, None)
    | Some _ => if bool_decide (f_gone f1 !! name = Some up) then (f1, None) else observeLive name true "" false now f1
    end.

(** ** The generations of the table *)

(** The handles to close come back with the step: closing is outside the lock. *)
Definition swap (conns : gmap string handle) (dialed : gmap string UpstreamServer) (routes : table) (f : fleet)
  : fleet * (bool * gmap string handle) :=
  if f_closed f then (f, (true, conns))
  else (set_routes routes (set_conns conns dialed f), (false, f_conns f)).

Definition swapRoutes (routes : table) (f : fleet) : fleet * bool :=
  if f_closed f then (f, true)
  else if negb (f_confirmed f) then (f, false)
  else (set_flags (f_confirmed f) false (set_routes routes f), false).

Definition drop_routes (drop : gset string) (t : table) : table :=
  filter (fun e : string * routedTool => upstream (rt_route e.2) ∉ drop) t.

Definition retire (names : list string) (drop : gset string) (f : fleet) : fleet * (bool * gmap string handle) :=
  if bool_decide (names = []) && bool_decide (drop = ∅) then (f, (false, ∅))
  else if f_closed f then (f, (true, ∅))
  else
    let going := filter (fun e : string * handle => e.1 ∈ names) (f_conns f) in
    let f1 := set_conns (foldr delete (f_conns f) names) (foldr delete (f_dialed f) names) f in
    let f2 := set_creds (foldr delete (f_creds f) names) f1 in
    let f3 := set_marks (foldr delete (f_gone f) names) (foldr delete (f_unlisted f) names) f2 in
    (set_routes (drop_routes drop (f_routes f3)) f3, (false, going)).

Definition adopt (add : gmap string (handle * UpstreamServer)) (f : fleet) : fleet * (bool * gmap string handle) :=
  if bool_decide (add = ∅) then (f, (f_closed f, ∅))
  else if f_closed f then (f, (true, fst <$> add))
  else (set_marks (f_gone f) ((fst <$> add) ∪ f_unlisted f)
         (set_conns ((fst <$> add) ∪ f_conns f) ((snd <$> add) ∪ f_dialed f) f), (false, ∅)).

Definition confirm (f : fleet) : fleet := set_flags true (f_suspended f) f.
Definition serving (f : fleet) : fleet := set_flags true false f.
Definition suspend (f : fleet) : fleet := set_routes ∅ (set_flags false true f).

Definition close (f : fleet) : fleet * gmap string handle :=
  if f_closed f then (f, ∅)
  else
    (Fleet _ ∅ ∅ ∅ ∅ ∅ (f_unlisted f) (f_confirmed f) (f_suspended f) true (f_health f) (f_servable f) (f_heldBack f)
       (f_lastRound f) (f_listing f) (f_dirtyListing f) (f_listingLoaded f) (f_sigRefused f) (f_controls f), f_conns f).

(** ** Listings, signatures, credentials *)

Definition recordListing (name : string) (listed : list ListedTool) (f : fleet) : fleet :=
  set_listing (<[name := listed]> (f_listing f)) ({[name]} ∪ f_dirtyListing f) (f_listingLoaded f) f.

(** The stored listings, under those this process already made. *)
Definition loadListings (stored : gmap string (list ListedTool)) (f : fleet) : fleet :=
  set_listing (f_listing f ∪ stored) (f_dirtyListing f) true f.

Inductive sig_refusal := SigUnsigned | SigInvalid | SigUnmeasured.

Definition registryEntryTool : string := "(registry entry)".
Definition reasonSignatureRefused : string := "signature refused".

Definition signature_reason (e : sig_refusal) : string :=
  match e with
  | SigUnsigned => reasonSignatureRefused +:+ ": unsigned"
  | _ => reasonSignatureRefused +:+ ": invalid"
  end.

(** [noteSignature]: the reason of the row it writes, if any. *)
Definition noteSignature (name : string) (r : option sig_refusal) (f : fleet) : fleet * option string :=
  match r with
  | None => (set_sigRefused (delete name (f_sigRefused f)) f, None)
  | Some SigUnmeasured => (f, None)
  | Some e =>
      if bool_decide (f_sigRefused f !! name = Some (signature_reason e)) then (f, None)
      else (set_sigRefused (<[name := signature_reason e]> (f_sigRefused f)) f, Some (signature_reason e))
  end.

Definition forgetSignatures (entries : list UpstreamServer) (f : fleet) : fleet :=
  set_sigRefused (filter (fun e : string * string => e.1 ∈ map Name entries) (f_sigRefused f)) f.

Definition rememberCredentials (upstream : string) (digests : gmap string string) (f : fleet) : fleet :=
  set_creds (<[upstream := digests]> (f_creds f)) f.

(** The digests [CredentialDrift] compares: of connected upstreams that are not http. *)
Definition drift_snapshot (f : fleet) : gmap string (gmap string string) :=
  filter (fun e : string * gmap string string =>
      (bool_decide (f_conns f !! e.1 <> None)
       && match f_dialed f !! e.1 with Some entry => negb (bool_decide (STransport entry = TransportHTTP)) | None => true end) = true)
    (f_creds f).

(** ** The operator *)

Inductive redial_answer := RedialClosed | RedialNotServable | RedialHeldBack | RedialNotConnected | Redialled (ev : option healthEvent).

Definition redial (now : time) (name : string) (f : fleet) : fleet * redial_answer :=
  if f_closed f then (f, RedialClosed)
  else
    let up := f_conns f !! name in
    if bool_decide (up = None) && negb (is_servable f name) then (f, RedialNotServable)
    else if f_heldBack f then (f, RedialHeldBack)
    else match up with
         | None => (f, RedialNotConnected)
         | Some u =>
             if bool_decide (f_gone f !! name = Some u) then (f, RedialNotConnected)
             else
               let f1 := set_marks (<[name := u]> (f_gone f)) (f_unlisted f) f in
               match f_health f1 !! name with
               | None => (f1, Redialled None)
               | Some _ => let '(f2, ev) := observeLive name false CauseRedial false now f1 in (f2, Redialled ev)
               end
         end.

(** The locked half of [ApplyPolicy]: the controls are stored and the routes the new plan leaves
    undeclared go.  [None] is closed. *)
Definition apply_controls (ctl : controls) (f : fleet) : fleet * option (list string) :=
  if f_closed f then (f, None)
  else
    let undeclared := UndeclaredQuotaTools (ctl_plan ctl) (map fst (map_to_list (f_routes f))) in
    (set_routes (foldr delete (f_routes f) undeclared) (set_controls ctl f), Some undeclared).

Record Status := {
  StUpstreams : Z; StTools : Z; StSuspended : bool; BackendsUp : Z; BackendsReconnecting : Z; BackendsDown : Z
}.

Definition count_health (p : backendHealth -> bool) (f : fleet) : Z :=
  Z.of_nat (length (List.filter (fun e => p e.2) (map_to_list (f_health f)))).

(** The half of [Status] the table answers. *)
Definition fleet_status (f : fleet) : Status :=
  {| StUpstreams := Z.of_nat (size (f_conns f)); StTools := Z.of_nat (size (f_routes f)); StSuspended := f_suspended f;
     BackendsUp := count_health bh_live f;
     BackendsReconnecting := count_health (fun b => negb (bh_live b) && negb (bool_decide (bh_cause b = CauseHeldBack))) f;
     BackendsDown := count_health (fun b => negb (bh_live b) && bool_decide (bh_cause b = CauseHeldBack)) f |}.

Definition BackendState (name : string) (f : fleet) : bool * Cause * bool :=
  match f_health f !! name with Some b => (bh_live b, bh_cause b, true) | None => (false, "", false) end.

(** ** What is persisted ([health.Snapshot]) *)

Definition nextAttempt (v : health_view) : time :=
  if IsZero (v_lastRound v) || (v_interval v <=? 0) then zero_time else Add (v_lastRound v) (v_interval v).

Record BackendRecord := {
  RBackend : string; RLive : bool; RSince : time; RLastAttempt : time; RNextAttempt : time; RCause : Cause; RUpdatedAt : time
}.

Record ServeStatus := { SsBoot : time; SsLastRoundAt : time; SsRoundInterval : Z }.

Record Snapshot := {
  SnBackends : list BackendRecord; SnListings : gmap string (list ListedTool); SnListedAt : time; SnServe : option ServeStatus
}.

Definition record_of (interval : Z) (now : time) (f : fleet) (nb : string * backendHealth) : BackendRecord :=
  {| RBackend := nb.1; RLive := bh_live nb.2; RSince := bh_since nb.2; RLastAttempt := bh_lastAttempt nb.2;
     RNextAttempt := if negb (bh_live nb.2) && negb (bool_decide (bh_cause nb.2 = CauseHeldBack))
                     then nextAttempt (view interval nb.1 f) else zero_time;
     RCause := bh_cause nb.2; RUpdatedAt := now |}.

(** The states of life, and the listings not yet written. *)
Definition snapshot_state (boot : time) (interval : Z) (round : bool) (now : time) (f : fleet) : Snapshot :=
  {| SnBackends := map (record_of interval now f) (sort_by fst (map_to_list (f_health f)));
     SnListings := set_to_map (fun name => (name, default [] (f_listing f !! name))) (f_dirtyListing f);
     SnListedAt := now;
     SnServe := if round && (0 <? interval)
                then Some {| SsBoot := boot; SsLastRoundAt := now; SsRoundInterval := interval |} else None |}.

Definition clear_dirty (written : gmap string (list ListedTool)) (f : fleet) : fleet :=
  set_listing (f_listing f) (filter (fun name => name ∉ dom written) (f_dirtyListing f)) (f_listingLoaded f) f.

(** ** The steps by name *)

Inductive fleet_op :=
| OpRead                                             (* the copies taken under the lock *)
| OpSuspend | OpServing | OpConfirm | OpClose
| OpLastRound (t : time)
| OpSwap (conns : gmap string handle) (dialed : gmap string UpstreamServer) (routes : table)
| OpSwapRoutes (routes : table)
| OpRetire (names : list string) (drop : gset string)
| OpAdopt (add : gmap string (handle * UpstreamServer))
| OpTakeGone (name : string) (live : handle)
| OpMarkGone (now : time) (name : string) (up : handle)
| OpMarkListed (now : time) (name : string) (up : handle)
| OpSettle (servable keep : list string) (frozen : bool) (dialed : gset string) (now : time)
| OpRecordListing (name : string) (listed : list ListedTool)
| OpLoadListings (stored : gmap string (list ListedTool))
| OpNoteSignature (name : string) (r : option sig_refusal)
| OpForgetSignatures (entries : list UpstreamServer)
| OpRemember (upstream : string) (digests : gmap string string)
| OpRedial (now : time) (name : string)
| OpApply (ctl : controls)
| OpClearDirty (written : gmap string (list ListedTool)).

Definition fans (op : fleet_op) : Type :=
  match op with
  | OpRead => fleet
  | OpSuspend | OpServing | OpConfirm | OpLastRound _ | OpRecordListing _ _ | OpLoadListings _
  | OpForgetSignatures _ | OpRemember _ _ | OpClearDirty _ => unit
  | OpClose => gmap string handle
  | OpSwap _ _ _ | OpRetire _ _ | OpAdopt _ => bool * gmap string handle
  | OpSwapRoutes _ | OpTakeGone _ _ => bool
  | OpMarkGone _ _ _ | OpMarkListed _ _ _ => option healthEvent
  | OpSettle _ _ _ _ _ => list (option healthEvent)
  | OpNoteSignature _ _ => option string
  | OpRedial _ _ => redial_answer
  | OpApply _ => option (list string)
  end.

Definition fleet_step (op : fleet_op) (f : fleet) : fleet * fans op :=
  match op with
  | OpRead => (f, f)
  | OpSuspend => (suspend f, tt)
  | OpServing => (serving f, tt)
  | OpConfirm => (confirm f, tt)
  | OpClose => close f
  | OpLastRound t => (set_lastRound t f, tt)
  | OpSwap conns dialed routes => swap conns dialed routes f
  | OpSwapRoutes routes => swapRoutes routes f
  | OpRetire names drop => retire names drop f
  | OpAdopt add => adopt add f
  | OpTakeGone name live => takeGone name live f
  | OpMarkGone now name up => markGone now name up f
  | OpMarkListed now name up => markListed now name up f
  | OpSettle servable keep frozen dialed now => settleHealth servable keep frozen dialed now f
  | OpRecordListing name listed => (recordListing name listed f, tt)
  | OpLoadListings stored => (loadListings stored f, tt)
  | OpNoteSignature name r => noteSignature name r f
  | OpForgetSignatures entries => (forgetSignatures entries f, tt)
  | OpRemember upstream digests => (rememberCredentials upstream digests f, tt)
  | OpRedial now name => redial now name f
  | OpApply ctl => apply_controls ctl f
  | OpClearDirty written => (clear_dirty written f, tt)
  end.
End fleet.
