(* ===== verification/HealthRows.v ===== *)
(** * The rows about a backend follow its state of life ([internal/gateway/health.go])

    Every step of the fleet that changes a backend's state of life returns the row to write about it.
    Read one after another by the small machine of [advance] - unknown, live, not live - those rows
    give back exactly the states the gateway holds: what an alerting system that only sees the trail
    relies on. *)
From Stdlib Require Import ZArith Lia Ascii.
From stdpp Require Import base strings list gmap.
From S2P Require Import Prelude.
From S2P Require Import GoStrings.
From S2P Require Import GoTime.
From S2P Require Import AuditLog.
From S2P Require Import Registry.
From S2P Require Import GatewayTypes.
From S2P Require Import Routing.
From S2P Require Import Fleet.

(** ** The reader of the rows *)

Definition known_causes : list Cause := [CauseProcessGone; CauseNotBroughtUp; CauseHeldBack; CauseNotListed; CauseRedial].

(** The state a row says its backend is in now, from the state it was in: [None] is unknown, and a
    row that does not fit is refused. *)
Definition tells (was : option bool) (ev : healthEvent) : option (option bool) :=
  if bool_decide (he_outcome ev = OutcomeAllowed) then
    match was with
    | None => if bool_decide (he_reason ev = reasonBackendUpFirst) then Some (Some true) else None
    | Some false => if String.prefix reasonBackendUpPrefix (he_reason ev) then Some (Some true) else None
    | Some true => None
    end
  else if negb (bool_decide (he_outcome ev = OutcomeDenied)) then None
  else if bool_decide (he_reason ev ∈ map down_reason known_causes) then
    match was with Some false => None | _ => Some (Some false) end
  else if bool_decide (he_reason ev = reasonBackendRemoved) then
    match was with Some _ => Some None | None => None end
  else None.

Definition advance (m : gmap string bool) (ev : healthEvent) : option (gmap string bool) :=
  match tells (m !! he_backend ev) ev with
  | Some now => Some (partial_alter (fun _ => now) (he_backend ev) m)
  | None => None
  end.

Fixpoint replay (m : gmap string bool) (rows : list healthEvent) : option (gmap string bool) :=
  match rows with
  | [] => Some m
  | ev :: rest => match advance m ev with Some m' => replay m' rest | None => None end
  end.

Lemma replay_app m rows1 rows2 m1 :
  replay m rows1 = Some m1 -> replay m (rows1 ++ rows2) = replay m1 rows2.
Proof.
  revert m. induction rows1 as [|ev rows1 IH]; intros m; simpl; [by intros [= ->]|].
  destruct (advance m ev); [apply IH|done].
Qed.

Section rows.
Context `{SV : SchemaValidator}.

Definition lives (f : fleet) : gmap string bool := bh_live <$> f_health f.

(** What a record of a backend holds: a cause exactly when it is not live. *)
Definition recorded (b : backendHealth) : Prop :=
  if bh_live b then bh_cause b = "" else bh_cause b ∈ known_causes.

Definition causes_kept (f : fleet) : Prop := map_Forall (fun _ b => recorded b) (f_health f).

(** The rows a step of the fleet hands back to be written. *)
Definition rows_of (op : fleet_op) : fans op -> list healthEvent :=
  match op return fans op -> list healthEvent with
  | OpMarkGone _ _ _ | OpMarkListed _ _ _ => fun ev => omap id [ev]
  | OpSettle _ _ _ _ _ => fun evs => omap id evs
  | OpRedial _ _ => fun r => match r with Redialled ev => omap id [ev] | _ => [] end
  | _ => fun _ => []
  end.

Fixpoint run_steps (ops : list fleet_op) (f : fleet) : fleet * list healthEvent :=
  match ops with
  | [] => (f, [])
  | op :: rest =>
      let '(f1, ans) := fleet_step op f in
      let '(f2, rows) := run_steps rest f1 in
      (f2, rows_of op ans ++ rows)
  end.

(** From [f] to [f'] with these rows: the rows tell it, and the causes stay in order. *)
Definition told (f : fleet) (rows : list healthEvent) (f' : fleet) : Prop :=
  causes_kept f -> replay (lives f) rows = Some (lives f') /\ causes_kept f'.

Lemma told_same f f' : f_health f' = f_health f -> told f [] f'.
Proof. unfold told, lives, causes_kept. by intros ->. Qed.

Lemma told_trans f1 f2 f3 rows1 rows2 : told f1 rows1 f2 -> told f2 rows2 f3 -> told f1 (rows1 ++ rows2) f3.
Proof. intros H1 H2 Hc. destruct (H1 Hc) as [E1 C1], (H2 C1) as [E2 C2]. split; [|done]. by rewrite (replay_app _ _ _ _ E1). Qed.

(** ** [observeLive] *)

Lemma prefix_app (p s : string) : String.prefix p (p +:+ s) = true.
Proof. induction p as [|c p IH]; [by destruct s|]. simpl. destruct (ascii_dec c c); [done|congruence]. Qed.

(** A cause to report: one the operator knows, when the backend is not live. *)
Definition reportable (live : bool) (cause : Cause) : Prop := live = false -> cause ∈ known_causes.

Lemma known_cause_nonempty cause : cause ∈ known_causes -> cause <> "".
Proof. intros H%(bool_decide_pack _) ->. by vm_compute in H. Qed.

Lemma tells_up_first name :
  tells None {| he_backend := name; he_outcome := OutcomeAllowed; he_reason := reasonBackendUpFirst |} = Some (Some true).
Proof. done. Qed.

Lemma tells_up name since :
  tells (Some false) {| he_backend := name; he_outcome := OutcomeAllowed; he_reason := up_reason since |} = Some (Some true).
Proof. unfold tells, up_reason. cbn [he_outcome he_reason]. by rewrite bool_decide_eq_true_2, prefix_app. Qed.

Lemma tells_down name was cause :
  was <> Some false -> cause ∈ known_causes ->
  tells was {| he_backend := name; he_outcome := OutcomeDenied; he_reason := down_reason cause |} = Some (Some false).
Proof.
  intros Hw Hc. unfold tells. cbn [he_outcome he_reason]. rewrite bool_decide_eq_false_2 by done.
  rewrite bool_decide_eq_true_2 by done. cbn [negb].
  rewrite bool_decide_eq_true_2 by (by apply list_elem_of_fmap_2). by destruct was as [[]|].
Qed.

Lemma tells_removed name live :
  tells (Some live) {| he_backend := name; he_outcome := OutcomeDenied; he_reason := reasonBackendRemoved |} = Some None.
Proof. done. Qed.

Lemma observe_record_tells b name live cause attempted now b' ev :
  reportable live cause -> (forall r, b = Some r -> recorded r) ->
  observe_record b name live cause attempted now = (b', ev) ->
  recorded b' /\ bh_live b' = live
  /\ match ev with
     | Some e => he_backend e = name /\ tells (bh_live <$> b) e = Some (Some live)
     | None => bh_live <$> b = Some live
     end.
Proof.
  intros Hr Hb. unfold observe_record, recorded.
  assert (Hn : live = false -> bool_decide (cause = "") = false).
  { intros Hl. apply bool_decide_eq_false_2, known_cause_nonempty, Hr, Hl. }
  destruct b as [b|].
  - specialize (Hb b eq_refl). destruct b as [l s a c]. unfold recorded in Hb. cbn [bh_live bh_cause] in Hb.
    destruct live, l; cbn [eqb negb andb bh_live bh_cause fmap option_fmap option_map]; intros [= <- <-];
      cbn [bh_live bh_cause he_backend]; rewrite ?Hn by done; split_and!; eauto using tells_up, tells_down.
  - destruct live; cbn [fmap option_fmap option_map]; intros [= <- <-]; cbn [bh_live bh_cause he_backend];
      rewrite ?Hn by done; split_and!; eauto using tells_up_first, tells_down.
Qed.

Lemma observeLive_told name live cause attempted now f f' ev :
  reportable live cause -> observeLive name live cause attempted now f = (f', ev) -> told f (omap id [ev]) f'.
Proof.
  intros Hr. unfold observeLive. destruct (observe_record _ _ _ _ _ _) as [b e] eqn:Ho. intros [= <- <-] Hc.
  destruct (observe_record_tells _ _ _ _ _ _ _ _ Hr (fun r Hr => Hc name r Hr) Ho) as (Hb & Hl & He).
  split.
  2: { unfold causes_kept. cbn [f_health set_health]. by apply map_Forall_insert_2. }
  unfold lives. cbn [f_health set_health]. rewrite fmap_insert, Hl. destruct e as [e|]; cbn [omap list_omap id replay].
  - destruct He as [Hn He]. unfold advance. by rewrite Hn, lookup_fmap, He.
  - f_equal. symmetry. apply insert_id. by rewrite lookup_fmap.
Qed.

Lemma forgetHealth_told name f f' ev : forgetHealth name f = (f', ev) -> told f (omap id [ev]) f'.
Proof.
  unfold forgetHealth. destruct (f_health f !! name) as [b|] eqn:Hb; intros [= <- <-]; [|by apply told_same].
  intros Hc. unfold lives, causes_kept. cbn [f_health set_health omap list_omap id replay]. split.
  - unfold advance. cbn [he_backend]. rewrite lookup_fmap, Hb. cbn [fmap option_fmap option_map].
    by rewrite tells_removed, fmap_delete.
  - by apply map_Forall_delete.
Qed.

(** ** The steps *)

Lemma known_cause cause : bool_decide (cause ∈ known_causes) = true -> cause ∈ known_causes.
Proof. by intros ?%bool_decide_eq_true. Qed.

Lemma reportable_known live cause : bool_decide (cause ∈ known_causes) = true -> reportable live cause.
Proof. intros H _. by apply known_cause. Qed.

Lemma life_reportable frozen dialed name f : causes_kept f -> reportable (life frozen dialed name f).1 (life frozen dialed name f).2.
Proof.
  intros Hc Hl. unfold life in *. cbn [fst snd] in *. rewrite Hl.
  destruct (f_health f !! name) as [b|] eqn:Hb; [specialize (Hc _ _ Hb); unfold recorded in Hc|];
    repeat case_match; try (by apply known_cause); try done.
  by rewrite Hc in *.
Qed.

(** The rows gathered so far tell the way from [f0]. *)
Definition gathered (f0 : fleet) (acc : fleet * list (option healthEvent)) : Prop := told f0 (omap id acc.2) acc.1.

Lemma gathered_app f0 f evs f' ev : gathered f0 (f, evs) -> (causes_kept f -> told f (omap id [ev]) f') -> gathered f0 (f', evs ++ [ev]).
Proof.
  unfold gathered. cbn [fst snd]. intros H1 H2 Hc. rewrite omap_app. destruct (H1 Hc) as [E1 C1], (H2 C1 C1) as [E2 C2].
  split; [|done]. by rewrite (replay_app _ _ _ _ E1).
Qed.

Lemma foldl_gathered (body : fleet * list (option healthEvent) -> string -> fleet * list (option healthEvent)) f0 names acc :
  (forall acc name, gathered f0 acc -> gathered f0 (body acc name)) -> gathered f0 acc -> gathered f0 (foldl body acc names).
Proof. intros Hb. revert acc. induction names as [|name names IH]; intros acc H; [done|]. by apply IH, Hb. Qed.

Lemma settle_each_gathered frozen dialed now f0 acc name : gathered f0 acc -> gathered f0 (settle_each frozen dialed now acc name).
Proof.
  destruct acc as [f evs]. intros H. cbn [settle_each]. destruct (life frozen dialed name f) as [live cause] eqn:Hl.
  destruct (observeLive _ _ _ _ _ _) as [f1 ev] eqn:Ho. apply (gathered_app _ _ _ _ _ H). intros Hc.
  apply (observeLive_told _ _ _ _ _ _ _ _ ltac:(pose proof (life_reportable frozen dialed name f Hc) as Hr; by rewrite Hl in Hr) Ho).
Qed.

Lemma forget_each_gathered next keep f0 acc name : gathered f0 acc -> gathered f0 (forget_each next keep acc name).
Proof.
  destruct acc as [f evs]. intros H. cbn [forget_each]. case_match; [done|].
  destruct (forgetHealth name f) as [f1 ev] eqn:Hf. apply (gathered_app _ _ _ _ _ H). intros _. by eapply forgetHealth_told.
Qed.

Lemma settleHealth_told servable keep frozen dialed now f f' evs :
  settleHealth servable keep frozen dialed now f = (f', evs) -> told f (omap id evs) f'.
Proof.
  unfold settleHealth.
  assert (H1 : gathered f (foldl (settle_each frozen dialed now) (f, []) servable)).
  { apply foldl_gathered; [intros; by apply settle_each_gathered|]. by apply told_same. }
  destruct (foldl (settle_each _ _ _) _ _) as [f1 ev1].
  assert (H2 : gathered f (foldl (forget_each (list_to_set servable) keep) (f1, ev1) (sorted_keys (f_health f1)))).
  { by apply foldl_gathered; [intros; apply forget_each_gathered|]. }
  destruct (foldl (forget_each _ _) _ _) as [f2 ev2]. by intros [= <- <-].
Qed.

Lemma markGone_told now name up f f' ev : markGone now name up f = (f', ev) -> told f (omap id [ev]) f'.
Proof.
  unfold markGone. case_match; [by intros [= <- <-]; apply told_same|]. case_match; [by intros [= <- <-]; apply told_same|].
  destruct (observeLive _ _ _ _ _ _) as [f2 ev2] eqn:Ho.
  assert (Ht : told f (omap id [ev2]) f2) by (exact (observeLive_told _ _ _ _ _ _ _ _ (reportable_known false CauseProcessGone eq_refl) Ho)).
  case_match; [|by intros [= <- <-]]. destruct (f_health f2 !! name) as [b|] eqn:Hb; [|by intros [= <- <-]].
  intros [= <- <-] Hc. destruct (Ht Hc) as [E C]. unfold lives, causes_kept in *. cbn [f_health set_health]. split.
  - rewrite E, fmap_insert. f_equal. symmetry. apply insert_id. by rewrite lookup_fmap, Hb.
  - apply map_Forall_insert_2; [|done]. unfold recorded. cbn [bh_live bh_cause].
    assert (Hl : bh_live b = false); [|rewrite Hl; by apply known_cause].
    unfold observeLive in Ho. destruct (observe_record _ _ _ _ _ _) as [b' e] eqn:Hr. injection Ho as <- <-.
    cbn [f_health set_health] in Hb. rewrite lookup_insert_eq in Hb. injection Hb as <-.
    by apply (observe_record_tells _ _ _ _ _ _ _ _ (reportable_known false CauseProcessGone eq_refl) (fun r Hr => Hc name r Hr)) in Hr as (_ & Hl & _).
Qed.

Lemma markListed_told now name up f f' ev : markListed now name up f = (f', ev) -> told f (omap id [ev]) f'.
Proof.
  unfold markListed. case_match; [by intros [= <- <-]; apply told_same|]. case_match; [|by intros [= <- <-]; apply told_same].
  case_match; [by intros [= <- <-]; apply told_same|]. intros Ho.
  by apply (observeLive_told _ _ _ _ _ _ _ _ (fun e => False_ind _ (diff_true_false e)) Ho).
Qed.

Lemma redial_told now name f f' r :
  redial now name f = (f', r) -> told f (match r with Redialled ev => omap id [ev] | _ => [] end) f'.
Proof.
  unfold redial. repeat (case_match; [by intros [= <- <-]; apply told_same|]).
  destruct (f_conns f !! name) as [u|]; [|by intros [= <- <-]; apply told_same].
  case_match; [by intros [= <- <-]; apply told_same|]. case_match; [|by intros [= <- <-]; apply told_same].
  destruct (observeLive _ _ _ _ _ _) as [f2 ev] eqn:Ho. intros [= <- <-].
  exact (observeLive_told _ _ _ _ _ _ _ _ (reportable_known false CauseRedial eq_refl) Ho).
Qed.

Lemma fleet_step_told op f : told f (rows_of op (fleet_step op f).2) (fleet_step op f).1.
Proof.
  destruct op; cbn [fleet_step rows_of];
    first
      [by eapply markGone_told, surjective_pairing|by eapply markListed_told, surjective_pairing
      |by eapply settleHealth_told, surjective_pairing|by eapply redial_told, surjective_pairing|apply told_same]; try done;
    unfold close, swap, swapRoutes, retire, adopt, takeGone, noteSignature, apply_controls; by repeat case_match.
Qed.

(** C9 [rows_tell_the_states]: whatever the steps of a gateway's life - rounds, calls that find a process
    dead, redials, in any order - the rows its steps write, taken in the order of the steps, are read
    one by one by the machine unknown/live/not live, none of them out of place, and give back exactly
    the state of life the gateway holds of every backend; and it holds a cause, one of the known ones,
    for exactly the backends that are not live. *)
Theorem rows_tell_the_states ctl ops :
  let '(f, rows) := run_steps ops (new_fleet ctl) in
  replay ∅ rows = Some (lives f) /\ causes_kept f.
Proof.
  assert (H : forall f, told f (run_steps ops f).2 (run_steps ops f).1).
  { induction ops as [|op ops IH]; intros f; cbn [run_steps]; [by apply told_same|].
    pose proof (fleet_step_told op f) as Hs. destruct (fleet_step op f) as [f1 ans]. specialize (IH f1).
    destruct (run_steps ops f1) as [f2 rows]. by apply (told_trans _ f1). }
  specialize (H (new_fleet ctl)). destruct (run_steps ops (new_fleet ctl)) as [f rows].
  destruct H as [H Hc]; [apply map_Forall_empty|]. by split.
Qed.
End rows.
