(* ===== verification/Dispatch.v ===== *)
(** * The call path ([internal/gateway]: [endpoint.go], [resilience.go], [health.go])

    [Dispatch], [ListTools], [AdmitCaller] and the functions that write the trail, as programs over the
    gateway's effects: each access to shared state, a store, the vault or a backend is one effect, in
    the order the code makes them.  Logging is left out.  What is computed from the answers is
    computed here: the policy's decision, the class gate, availability, the result checks, the scrub. *)
From Stdlib Require Import ZArith Lia Ascii.
From stdpp Require Import base strings list gmap.
From S2P Require Import Prelude.
From S2P Require Import GoStrings.
From S2P Require Import Visible.
From S2P Require Import GoTime.
From S2P Require Import Json.
From S2P Require Import AuditLog.
From S2P Require Import Quota.
From S2P Require Import Quarantine.
From S2P Require Import Access.
From S2P Require Import Redact.
From S2P Require Import Prog.
From S2P Require Import GatewayTypes.
From S2P Require Import Fleet.

(** ** The effects *)

Inductive authVerdict := authRecord | authMark | authDrop.

Inductive geff :=
| ECtxErr                                             (* ctx.Err() *)
| EBlocked (subject : string)                         (* blocklist.Blocked *)
| ESuspended                                          (* isSuspended *)
| ELookup (name : string)                             (* lookup: the route and its connection *)
| ERoutes                                             (* snapshot *)
| EControls                                           (* controls.Load *)
| EQuarGet (server tool : string)                     (* quarantine.Get *)
| EMaintenance                                        (* maint.Maintenance *)
| ENow                                                (* g.now *)
| EHealth (name : string)                             (* reads under g.mu *)
| EAcquire (subject : string)                         (* slots.acquire *)
| ERelease (subject : string)                         (* the release it returned *)
| EQuotaAdmit (plan : Plan) (subject tool : string) (now : time)
| ERecord (detached : bool) (rec : AuditRecord)       (* audit.Record, on the caller's context or off it *)
| ECount (outcome : string)                           (* the counter of that outcome *)
| ECallTool (up : handle) (tool args : string)
| EMarkGone (name : string) (up : handle)             (* markGone *)
| EPersist                                            (* persistHealth *)
| EEnvNames (server : string)                         (* the names of g.creds[server] *)
| EResolve (name : string)                            (* vault.Resolve *)
| EAuthVerdict (source : string) (now : time)         (* authLimit.classify *).

Section effects.
Context `{SV : SchemaValidator}.

Definition gans (e : geff) : Type :=
  match e with
  | ECtxErr => option ctx_error
  | EBlocked _ => result foreign bool
  | ESuspended => bool
  | ELookup _ => option (routedTool * option handle)
  | ERoutes => list (string * routedTool)
  | EControls => controls
  | EQuarGet _ _ => result foreign Quarantine.Tool
  | EMaintenance => result foreign (list Maintenance)
  | ENow => time
  | EHealth _ => health_view
  | EAcquire _ => bool
  | ERelease _ => unit
  | EQuotaAdmit _ _ _ _ => result quota_error unit
  | ERecord _ _ => result foreign unit
  | ECount _ => unit
  | ECallTool _ _ _ => result foreign Result
  | EMarkGone _ _ => option healthEvent
  | EPersist => unit
  | EEnvNames _ => list string
  | EResolve _ => result foreign string
  | EAuthVerdict _ _ => authVerdict
  end.

(** The effects that run an adapter's code, which may panic. *)
Definition foreign_code (e : geff) : bool :=
  match e with
  | EBlocked _ | EQuarGet _ _ | EMaintenance | EQuotaAdmit _ _ _ _ | ERecord _ _ | ECallTool _ _ _
  | EPersist | EResolve _ => true
  | _ => false
  end.

#[export] Instance gw_effects : Effects := {| eff := geff; ans := gans; may_panic := foreign_code |}.

(** An effect whose answer is the program's own. *)
Definition do (e : geff) : prog (gans e) := trigger (e : eff).
End effects.

(** What the operator configured. *)
Record config := { has_maint : bool; maxResultBytes : Z; maxCalls : Z; callTimeout : Z }.

(** ** Availability: pure, on what was read *)

Record BackendStatus := {
  BName : string; BState : string; BSince : time; BLastAttempt : time; BNextAttempt : time;
  BMaintenance : option MaintenanceNotice
}.

Definition publicState (name : string) (v : health_view) (maint : gmap string Maintenance) (now : time)
  : option BackendStatus :=
  match v_health v with
  | None => None
  | Some b =>
      let next := if negb (bh_live b) && negb (bool_decide (bh_cause b = CauseHeldBack)) then nextAttempt v else zero_time in
      Some match maint !! name with
      | Some m =>
          {| BName := name; BState := StateMaintenance; BSince := MStartedAt m; BLastAttempt := bh_lastAttempt b;
             BNextAttempt := if bh_live b then zero_time else next; BMaintenance := Some (noticeOf m now) |}
      | None =>
          {| BName := name;
             BState := if bh_live b then StateUp
                       else if bool_decide (bh_cause b = CauseHeldBack) then StateDown else StateReconnecting;
             BSince := bh_since b; BLastAttempt := bh_lastAttempt b; BNextAttempt := next; BMaintenance := None |}
      end
  end.

(** The answer for a backend that cannot take the call, or [None] when it can. *)
Definition availability (name : string) (up : option handle) (maint : gmap string Maintenance) (now : time)
  (v : health_view) : option UnavailableError :=
  let gw := gatewayNotice maint now in
  match maint !! name with
  | Some m =>
      let st := publicState name v maint now in
      Some {| UBackend := name; UState := StateMaintenance; USince := MStartedAt m;
              ULastAttempt := match st with Some s => BLastAttempt s | None => zero_time end;
              UNextAttempt := match st with Some s => BNextAttempt s | None => zero_time end;
              UMaintenance := Some (noticeOf m now); UGateway := gw; UGone := false |}
  | None =>
      if bool_decide (up <> None) && negb (bool_decide (v_gone v = up)) && negb (bool_decide (v_unlisted v = up)) then None
      else
        let found_dead :=
          {| BName := name; BState := StateReconnecting;
             BSince := match v_health v with Some b => if bh_live b then now else bh_since b | None => now end;
             BLastAttempt := match v_health v with Some b => bh_lastAttempt b | None => zero_time end;
             BNextAttempt := nextAttempt v; BMaintenance := None |} in
        let st := match publicState name v maint now with
          | Some s => if bool_decide (BState s = StateUp) then found_dead else s
          | None => found_dead
          end in
        Some {| UBackend := name; UState := BState st; USince := BSince st; ULastAttempt := BLastAttempt st;
                UNextAttempt := BNextAttempt st; UMaintenance := None; UGateway := gw; UGone := false |}
  end.

(** ** The result checks *)

Section programs.
Context `{UT : UnicodeTables} `{PT : PrintTable} `{SV : SchemaValidator}.

Definition validateStructuredContent (output : option schema) (res : Result) : option foreign :=
  match output with
  | None => None
  | Some s =>
      if IsError res then None
      else if bool_decide (StructuredContent res = "") then Some [SSchemaViolation]
      else if negb (json_valid (StructuredContent res)) then Some [SSchemaViolation]
      else if negb (validates s (StructuredContent res)) then Some [SSchemaViolation]
      else None
  end.

Definition checkResult (cfg : config) (rt : routedTool) (res : Result) : option foreign :=
  if maxResultBytes cfg <? resultSize res then Some [SResultTooLarge]
  else validateStructuredContent (rt_output rt) res.

(** ** Writing the trail *)

Definition audit_record (c : Caller) (tool server outcome reason : string) (now : time) : AuditRecord :=
  {| AnalystIdentity := Subject (CIdentity c);
     AuditLog.Tool := tool; TargetUpstream := server; Timestamp := now;
     Outcome := outcome; Reason := reason; SourceAddress := SourceAddr c;
     AnalystName := DisplayName (Subject (CIdentity c)) (IdName (CIdentity c)) |}.

Definition record (detached : bool) (c : Caller) (tool server outcome reason : string)
  : prog (result gw_error unit) :=
  now <- do ENow;;
  r <- do (ERecord detached (audit_record c tool server outcome reason now));;
  match r with
  | Err e => Ret (Err (AuditFailed e))
  | Ok _ => do (ECount outcome);;; Ret (Ok tt)
  end.

Definition auditRefusal (c : Caller) (tool server reason : string) : prog unit :=
  let tool := if blank tool then unnamedTool else tool in
  record true c tool server OutcomeDenied reason;;; Ret tt.

Definition auditFailure (c : Caller) (tool server : string) (cause : foreign) : prog unit :=
  record true c tool server OutcomeFailed (classifyFailure cause);;; Ret tt.

Definition gateway_caller : Caller :=
  {| CIdentity := {| Subject := gatewayActor; IdName := ""; Groups := [] |}; SourceAddr := "" |}.

Definition auditGatewayRow (tool server outcome reason : string) : prog unit :=
  record true gateway_caller tool server outcome reason;;; Ret tt.

Definition auditEvent (tool server reason : string) : prog unit := auditGatewayRow tool server OutcomeDenied reason.

Fixpoint writeHealthEvents (events : list (option healthEvent)) : prog unit :=
  match events with
  | [] => Ret tt
  | None :: rest => writeHealthEvents rest
  | Some ev :: rest =>
      auditGatewayRow backendHealthTool (he_backend ev) (he_outcome ev) (he_reason ev);;; writeHealthEvents rest
  end.

Definition recordPanic (c : Caller) (tool server : string) (dispatched : bool) : prog unit :=
  let c := if blank (Subject (CIdentity c))
           then {| CIdentity := {| Subject := unauthenticatedIdentity; IdName := ""; Groups := Groups (CIdentity c) |};
                   SourceAddr := SourceAddr c |}
           else c in
  contain
    (if dispatched then auditFailure c tool server [SInternal]
     else auditRefusal c tool server reasonInternalError)
    (fun _ => Ret tt).

Definition RecordPanic (c : Caller) (tool : string) (dispatched : bool) : prog unit :=
  if blank tool then recordPanic c requestTool gatewayItself dispatched
  else recordPanic c tool (targetOf tool) dispatched.

Definition RecordRefusedProbe (c : Caller) (namespacedTool : string) : prog unit :=
  let tool := if blank namespacedTool then unnamedTool else namespacedTool in
  auditRefusal c tool (targetOf tool) reasonNotVisible.

Definition RecordAuthFailure (source : string) : prog unit :=
  let c := {| CIdentity := {| Subject := unauthenticatedIdentity; IdName := ""; Groups := [] |}; SourceAddr := source |} in
  now <- do ENow;;
  verdict <- do (EAuthVerdict source now);;
  match verdict with
  | authDrop => Ret tt
  | authMark => record true c authenticationTool gatewayItself OutcomeDenied reasonAuthFlood;;; Ret tt
  | authRecord => record true c authenticationTool gatewayItself OutcomeDenied reasonAuthFailed;;; Ret tt
  end.

(** ** The kill switch *)

Definition readBlock (subject : string) : prog (result gw_error unit) :=
  ended <- do ECtxErr;;
  match ended with
  | Some e => Ret (Err (CtxEnded e))
  | None =>
      b <- do (EBlocked subject);;
      match b with
      | Err e =>
          ended <- do ECtxErr;;
          match ended with
          | Some c => Ret (Err (CtxEnded c))
          | None => Ret (Err (BlocklistUnavailable e))
          end
      | Ok true => Ret (Err SubjectBlocked)
      | Ok false => Ret (Ok tt)
      end
  end.

(** [admitted] is the subject [AdmitCaller] put on the context, if any. *)
Definition checkBlock (admitted : option string) (subject : string) : prog (result gw_error unit) :=
  if bool_decide (admitted = Some subject) then Ret (Ok tt) else readBlock subject.

(** [errors.Is(err, access.ErrSubjectBlocked)]. *)
Definition is_blocked (e : gw_error) : bool :=
  match e with
  | SubjectBlocked => true
  | BlocklistUnavailable e => wraps e SSubjectBlocked
  | _ => false
  end.

Definition refuseBlocked (c : Caller) (tool target : string) (e : gw_error) : prog unit :=
  if is_blocked e then auditRefusal c tool target reasonSubjectBlocked
  else
    ended <- do ECtxErr;;
    match ended with
    | Some _ => Ret tt
    | None => auditRefusal c tool target reasonBlocklistUnavailable
    end.

(** The subject the returned context admits, or the refusal. *)
Definition AdmitCaller (c : Caller) : prog (result gw_error string) :=
  r <- readBlock (Subject (CIdentity c));;
  match r with
  | Err e => refuseBlocked c authenticationTool gatewayItself e;;; Ret (Err e)
  | Ok _ => Ret (Ok (Subject (CIdentity c)))
  end.

(** ** The gates *)

Definition gw_admit (policy : Policy) (id : Identity) (name : string) (rt : routedTool)
  : prog (result gw_error unit) :=
  r <- do (EQuarGet (upstream (rt_route rt)) (originalName (rt_route rt)));;
  match r with
  | Err e => if wraps e SNotFound then Ret (Err ToolQuarantined) else Ret (Err (QuarantineUnavailable e))
  | Ok t =>
      match gate_tool policy id name t (rt_def rt) with
      | GateQuarantined => Ret (Err ToolQuarantined)
      | GateNotGranted e => Ret (Err (SensitiveNotGranted e))
      | GateOk => Ret (Ok tt)
      end
  end.

Definition readMaintenance (cfg : config) : prog (gmap string Maintenance) :=
  if has_maint cfg then
    r <- do EMaintenance;;
    match r with
    | Err _ => Ret ∅
    | Ok l => Ret (foldl (fun m x => <[MTarget x := x]> m) ∅ l)
    end
  else Ret ∅.

(** ** The scrub *)

Fixpoint resolve_all (names : list string) : prog (list (string * string)) :=
  match names with
  | [] => Ret []
  | name :: rest =>
      r <- do (EResolve name);;
      env <- resolve_all rest;;
      match r with
      | Ok v => Ret ((name, v) :: env)
      | Err _ => Ret env
      end
  end.

(** [scrubResult] once the values are in hand. *)
Definition scrub_with (env : list (string * string)) (res : Result) : result scrub_error Result :=
  content <-? scrubJSON (Content res) env;;
  structured <-? scrubJSON (StructuredContent res) env;;
  Ok {| Content := content.1; StructuredContent := structured.1; IsError := IsError res; Notice := Notice res |}.

Definition scrubResult (server : string) (res : Result) : prog (result scrub_error Result) :=
  names <- do (EEnvNames server);;
  if bool_decide (names = []) then Ret (Ok res)
  else
    env <- resolve_all (sort_strings names);;
    Ret (scrub_with env res).

(** ** Dispatch *)

(** The typed refusal inside a quota error. *)
Fixpoint budget_of (e : quota_error) : quota_error :=
  match e with ErrUnavailable cause => budget_of cause | _ => e end.

(** What happens to a call the backend did not complete. *)
Definition call_failed (cfg : config) (c : Caller) (name server : string) (up : handle) (now : time)
  (gw : option MaintenanceNotice) (e : foreign) : prog (result gw_error Result) :=
  let gone := wraps e SUpstreamGone in
  (if gone then
     ev <- do (EMarkGone server up);;
     match ev with
     | Some ev => writeHealthEvents [Some ev];;; do EPersist
     | None => Ret tt
     end
   else Ret tt);;;
  auditFailure c name server e;;;
  if gone then
    v <- do (EHealth server);;
    Ret (Err (Unavailable {| UBackend := server; UState := StateReconnecting; USince := now;
      ULastAttempt := zero_time; UNextAttempt := nextAttempt v; UMaintenance := None; UGateway := gw; UGone := true |}))
  else if wraps e SDeadlineExceeded then
    ended <- do ECtxErr;;
    match ended with
    | None => Ret (Err (CallTimeout server (callTimeout cfg) gw))
    | Some _ => Ret (Err (CallInterrupted e))
    end
  else if wraps e SCanceled || wraps e SInternal then Ret (Err (CallInterrupted e))
  else Ret (Err (BackendFailed server gw)).

(** What happens to the result of a call that came back. *)
Definition call_returned (cfg : config) (c : Caller) (name : string) (rt : routedTool)
  (gw : option MaintenanceNotice) (res : Result) : prog (result gw_error Result) :=
  let server := upstream (rt_route rt) in
  match checkResult cfg rt res with
  | Some e =>
      auditFailure c name server e;;;
      if wraps e SResultTooLarge then Ret (Err (ResultTooLarge name (maxResultBytes cfg) gw))
      else Ret (Err SchemaViolation)
  | None =>
      s <- scrubResult server res;;
      match s with
      | Err ErrResultUnscrubbable => auditFailure c name server [];;; Ret (Err ResultUnscrubbable)
      | Ok scrubbed =>
          Ret (Ok {| Content := Content scrubbed; StructuredContent := StructuredContent scrubbed;
                     IsError := IsError scrubbed; Notice := gw |})
      end
  end.

(** From the allowed row on; [None] is a nil connection, whose method call panics. *)
Definition forward (cfg : config) (c : Caller) (name : string) (rt : routedTool) (up : option handle) (now : time)
  (gw : option MaintenanceNotice) (args : string) : prog (result gw_error Result) :=
  match up with
  | None => Panic true
  | Some up =>
      r <- do (ECallTool up (originalName (rt_route rt)) args);;
      match r with
      | Err e => call_failed cfg c name (upstream (rt_route rt)) up now gw e
      | Ok res => call_returned cfg c name rt gw res
      end
  end.

(** With the slot held: the quota, the allowed row, the call. *)
Definition with_slot (cfg : config) (c : Caller) (name : string) (ctl : controls) (rt : routedTool)
  (up : option handle) (now : time) (gw : option MaintenanceNotice) (args : string) : prog (result gw_error Result) :=
  let server := upstream (rt_route rt) in
  at_ <- do ENow;;
  q <- do (EQuotaAdmit (ctl_plan ctl) (Subject (CIdentity c)) name at_);;
  match q with
  | Err e =>
      if is_exhausted e then
        auditRefusal c name server reasonQuotaExhausted;;; Ret (Err (QuotaExhausted (budget_of e) gw))
      else auditRefusal c name server reasonQuotaUnavailable;;; Ret (Err (QuotaRefused e))
  | Ok _ =>
      r <- record false c name server OutcomeAllowed "";;
      match r with
      | Err e => Ret (Err e)
      | Ok _ => after_mark (forward cfg c name rt up now gw args)
      end
  end.

(** A call that passed the policy and the quarantine. *)
Definition granted (cfg : config) (c : Caller) (name : string) (ctl : controls) (rt : routedTool)
  (up : option handle) (args : string) : prog (result gw_error Result) :=
  let server := upstream (rt_route rt) in
  maint <- readMaintenance cfg;;
  now <- do ENow;;
  let gw := gatewayNotice maint now in
  v <- do (EHealth server);;
  match availability server up maint now v with
  | Some ue => auditRefusal c name server (unavailable_reason ue);;; Ret (Err (Unavailable ue))
  | None =>
      ok <- do (EAcquire (Subject (CIdentity c)));;
      if negb ok then
        auditRefusal c name server reasonConcurrencyLimited;;; Ret (Err (ConcurrencyLimited (maxCalls cfg) gw))
      else
        finally (with_slot cfg c name ctl rt up now gw args) (do (ERelease (Subject (CIdentity c))))
  end.

(** A call to a routed name. *)
Definition routed (cfg : config) (c : Caller) (name : string) (rt : routedTool) (up : option handle) (args : string)
  : prog (result gw_error Result) :=
  let server := upstream (rt_route rt) in
  ctl <- do EControls;;
  match Authorize (ctl_policy ctl) (CIdentity c) name with
  | Err e => auditRefusal c name server reasonForbidden;;; Ret (Err (Forbidden e))
  | Ok _ =>
      a <- gw_admit (ctl_policy ctl) (CIdentity c) name rt;;
      match a with
      | Err (SensitiveNotGranted e) =>
          auditRefusal c name server reasonSensitiveNotGranted;;; Ret (Err (SensitiveNotGranted e))
      | Err ToolQuarantined => auditRefusal c name server reasonQuarantined;;; Ret (Err UnknownTool)
      | Err e => auditRefusal c name server reasonQuarantineUnavailable;;; Ret (Err e)
      | Ok _ => granted cfg c name ctl rt up args
      end
  end.

Definition dispatch_body (cfg : config) (admitted : option string) (c : Caller) (name args : string)
  : prog (result gw_error Result) :=
  b <- checkBlock admitted (Subject (CIdentity c));;
  match b with
  | Err e => refuseBlocked c name (targetOf name) e;;; Ret (Err e)
  | Ok _ =>
      suspended <- do ESuspended;;
      if (suspended : bool) then
        auditRefusal c name (targetOf name) reasonRegistryUnavailable;;; Ret (Err RegistryUnavailable)
      else
        found <- do (ELookup name);;
        match found with
        | None => auditRefusal c name (targetOf name) reasonUnknownTool;;; Ret (Err UnknownTool)
        | Some (rt, up) => routed cfg c name rt up args
        end
  end.

(** [containPanic], deferred first. *)
Definition Dispatch (cfg : config) (admitted : option string) (c : Caller) (name args : string)
  : prog (result gw_error Result) :=
  contain (dispatch_body cfg admitted c name args)
    (fun dispatched => recordPanic c name (targetOf name) dispatched;;; Ret (Err Internal)).

(** ** Listing *)

Definition listed_def (name : string) (rt : routedTool) : ToolDef :=
  {| DName := name; DDescription := DDescription (rt_def rt); DInputSchema := DInputSchema (rt_def rt);
     DOutputSchema := ""; SecurityClass := ClassSafe |}.

Fixpoint list_each (policy : Policy) (id : Identity) (routes : list (string * routedTool)) (out : list ToolDef)
  : prog (result gw_error (list ToolDef)) :=
  match routes with
  | [] => Ret (Ok out)
  | (name, rt) :: rest =>
      match Authorize policy id name with
      | Err _ => list_each policy id rest out
      | Ok _ =>
          a <- gw_admit policy id name rt;;
          match a with
          | Ok _ => list_each policy id rest (out ++ [listed_def name rt])
          | Err ToolQuarantined | Err (SensitiveNotGranted _) => list_each policy id rest out
          | Err e => Ret (Err e)
          end
      end
  end.

Definition ListTools (admitted : option string) (id : Identity) : prog (result gw_error (list ToolDef)) :=
  b <- checkBlock admitted (Subject id);;
  match b with
  | Err e => Ret (Err e)
  | Ok _ =>
      suspended <- do ESuspended;;
      if (suspended : bool) then Ret (Err RegistryUnavailable)
      else
        routes <- do ERoutes;;
        ctl <- do EControls;;
        list_each (ctl_policy ctl) id (sort_by fst routes) []
  end.
End programs.
