(* ===== verification/DispatchSafety.v ===== *)
(** * Theorems about the call path: what is true before a call leaves the gateway

    About Dispatch.v, for every run: whatever the stores, the backends, other requests and operators
    answer, and wherever an adapter panics. *)
From Stdlib Require Import ZArith Lia Ascii.
From stdpp Require Import base strings list gmap.
From S2P Require Import Prelude.
From S2P Require Import GoStrings.
From S2P Require Import Visible.
From S2P Require Import GoTime.
From S2P Require Import Json.
From S2P Require Import AuditLog.
From S2P Require Import Quota.
From S2P Require Import Quarantine.
From S2P Require Import Access.
From S2P Require Import Redact.
From S2P Require Import Prog.
From S2P Require Import GatewayTypes.
From S2P Require Import Fleet.
From S2P Require Import Dispatch.

Section safety.
Context `{UT : UnicodeTables} `{PT : PrintTable} `{SV : SchemaValidator}.

(** ** The call in a trace *)

Definition is_call (e : geff) : Prop := match e with ECallTool _ _ _ => True | _ => False end.

(** The events before the first call, the call, and the events after it. *)
Fixpoint split_call (tr : list event) : option (list event * (handle * string * string) * list event) :=
  match tr with
  | [] => None
  | ev :: tr' =>
      match ev_eff ev with
      | ECallTool up tool args => Some ([], (up, tool, args), tr')
      | _ => match split_call tr' with Some (pre, c, post) => Some (ev :: pre, c, post) | None => None end
      end
  end.

Definition no_call (tr : list event) : Prop := Forall (fun ev => ~ is_call (ev_eff ev)) tr.

Lemma split_call_none tr : no_call tr -> split_call tr = None.
Proof.
  induction 1 as [|[e r] tr He _ IH]; [done|]. simpl in *. rewrite IH. by destruct e.
Qed.

Lemma split_call_none_inv tr : split_call tr = None -> no_call tr.
Proof.
  induction tr as [|[e r] tr IH]; intros H; constructor; simpl in *.
  - intros Hc. by destruct e.
  - apply IH. destruct e; try done; by destruct (split_call tr) as [[[??]?]|].
Qed.

Lemma split_call_app_none tr1 tr2 :
  no_call tr1 -> split_call (tr1 ++ tr2)
  = match split_call tr2 with Some (pre, c, post) => Some (tr1 ++ pre, c, post) | None => None end.
Proof.
  induction 1 as [|[e r] tr He _ IH]; simpl; [by destruct (split_call tr2) as [[[??]?]|]|].
  rewrite IH. destruct (split_call tr2) as [[[pre c] post]|]; by destruct e.
Qed.

Lemma split_call_app_some tr1 tr2 pre c post :
  split_call tr1 = Some (pre, c, post) -> split_call (tr1 ++ tr2) = Some (pre, c, post ++ tr2).
Proof.
  revert pre. induction tr1 as [|[e r] tr1 IH]; intros pre H; [done|]. simpl in *.
  destruct e; try (destruct (split_call tr1) as [[[p' c'] post']|]; [|done]; injection H as <- <- <-;
    by rewrite (IH p' eq_refl)).
  by injection H as <- <- <-.
Qed.

(** At most one call, and [G] of what came before it. *)
Definition at_most_one (G : list event -> handle * string * string -> Prop) (tr : list event) : Prop :=
  match split_call tr with
  | None => True
  | Some (pre, c, post) => G pre c /\ split_call post = None
  end.

Lemma at_most_one_none G tr : no_call tr -> at_most_one G tr.
Proof. intros H. unfold at_most_one. by rewrite split_call_none. Qed.

Lemma at_most_one_app G tr1 tr2 : at_most_one G tr1 -> no_call tr2 -> at_most_one G (tr1 ++ tr2).
Proof.
  unfold at_most_one. intros H1 H2. destruct (split_call tr1) as [[[pre c] post]|] eqn:Hs.
  - rewrite (split_call_app_some _ _ _ _ _ Hs). destruct H1 as [HG Hp]. split; [done|].
    apply split_call_none_inv in Hp.
    apply split_call_none. by apply Forall_app.
  - apply split_call_none_inv in Hs.
    rewrite split_call_none; [done|]. by apply Forall_app.
Qed.

(** ** The parts that touch neither the slots nor a backend *)

Definition slot_or_call (e : geff) : Prop :=
  match e with EAcquire _ | ERelease _ | ECallTool _ _ _ => True | _ => False end.

(** A set of effects among those. *)
Definition OnlySlots (P : geff -> Prop) : Prop := forall e, P e -> slot_or_call e.

Lemma only_slots_call : OnlySlots is_call.
Proof. by intros []. Qed.
Lemma only_slots_all : OnlySlots slot_or_call.
Proof. by intros e. Qed.
#[local] Hint Resolve only_slots_call only_slots_all : core.

Lemma never_do (P : geff -> Prop) e : ~ P e -> never P (do e).
Proof. intros He. split; [done|]. by intros [x|]. Qed.

(** One effect and the rest: the [wpa_step] of this signature. *)
Lemma wpa_do {B} acc (e : geff) (f : gans e -> prog B) Q :
  (forall x, wpa (acc ++ [Ev (e : eff) (Val x)]) (f x) Q) ->
  (foreign_code e = true -> Q (acc ++ [Ev (e : eff) Blew]) (Panicked false)) ->
  wpa acc (bind (do e) f) Q.
Proof. exact (wpa_step (E := gw_effects) acc e f Q). Qed.

Ltac never_call :=
  repeat first
    [ match goal with HP : OnlySlots ?P |- ~ ?P _ => exact (HP _) end
    | apply never_bind; [|intros]
    | apply never_contain; [|intros]
    | apply never_finally
    | apply never_after_mark
    | apply never_do
    | exact I
    | match goal with |- never _ (match ?x with _ => _ end) => destruct x end
    | match goal with |- never _ (if ?x then _ else _) => destruct x end
    | match goal with |- forall _, _ => intro end ].

Lemma never_record P (HP : OnlySlots P) d c tool server o reason : never P (record d c tool server o reason).
Proof. unfold record. never_call. Qed.

Lemma never_auditRefusal P (HP : OnlySlots P) c tool server reason : never P (auditRefusal c tool server reason).
Proof. unfold auditRefusal. cbv zeta. apply never_bind; [by apply never_record|done]. Qed.

Lemma never_auditFailure P (HP : OnlySlots P) c tool server e : never P (auditFailure c tool server e).
Proof. unfold auditFailure. apply never_bind; [by apply never_record|done]. Qed.

Lemma never_health P (HP : OnlySlots P) evs : never P (writeHealthEvents evs).
Proof.
  induction evs as [|[ev|] evs IH]; cbn [writeHealthEvents]; [done| |done].
  apply never_bind; [|done]. unfold auditGatewayRow. apply never_bind; [by apply never_record|done].
Qed.

Lemma never_recordPanic P (HP : OnlySlots P) c tool server d : never P (recordPanic c tool server d).
Proof.
  unfold recordPanic. cbv zeta. apply never_contain; [|done].
  destruct d; [by apply never_auditFailure|by apply never_auditRefusal].
Qed.

Lemma never_readBlock P (HP : OnlySlots P) s : never P (readBlock s).
Proof. unfold readBlock. never_call. Qed.

Lemma never_refuseBlocked P (HP : OnlySlots P) c tool target e : never P (refuseBlocked c tool target e).
Proof.
  unfold refuseBlocked. destruct (is_blocked e); [by apply never_auditRefusal|].
  apply never_bind; [never_call|]. intros [x|]; [done|by apply never_auditRefusal].
Qed.

Lemma never_scrubResult P (HP : OnlySlots P) server res : never P (scrubResult server res).
Proof.
  unfold scrubResult. apply never_bind; [never_call|]. intros names. destruct (bool_decide _); [done|].
  apply never_bind; [|done]. generalize (sort_strings names) as l. clear names.
  induction l as [|n l IH]; cbn [resolve_all]; [done|].
  apply never_bind; [never_call|]. intros r. apply never_bind; [done|]. intros env. by destruct r.
Qed.

Lemma never_call_failed P (HP : OnlySlots P) cfg c name server up now gw e : never P (call_failed cfg c name server up now gw e).
Proof.
  unfold call_failed. cbv zeta. apply never_bind.
  - destruct (wraps e SUpstreamGone); [|done]. apply never_bind; [never_call|]. intros [ev|]; [|done].
    apply never_bind; [by apply never_health|never_call].
  - intros _. apply never_bind; [by apply never_auditFailure|]. intros _. never_call.
Qed.

Lemma never_call_returned P (HP : OnlySlots P) cfg c name rt gw res : never P (call_returned cfg c name rt gw res).
Proof.
  unfold call_returned. cbv zeta. destruct (checkResult cfg rt res).
  - apply never_bind; [by apply never_auditFailure|]. never_call.
  - apply never_bind; [by apply never_scrubResult|]. intros [s|[]]; [done|].
    apply never_bind; [by apply never_auditFailure|done].
Qed.

Lemma never_call_at_most {A} G acc (p : prog A) :
  never is_call p -> at_most_one G acc -> wpa acc p (fun tr _ => at_most_one G tr).
Proof. intros Hp Ha. apply (never_wpa (E := gw_effects) is_call); [done|]. intros tr _ Htr. by apply at_most_one_app. Qed.
Lemma at_most_one_mono (G G' : list event -> handle * string * string -> Prop) tr :
  (forall pre call, G pre call -> G' pre call) -> at_most_one G tr -> at_most_one G' tr.
Proof. unfold at_most_one. intros H. destruct (split_call tr) as [[[pre c] post]|]; [|done]. intros [? ?]. auto. Qed.

Lemma no_call_snoc acc ev : no_call acc -> ~ is_call (ev_eff ev) -> no_call (acc ++ [ev]).
Proof. intros Ha He. apply Forall_app. split; [done|by constructor]. Qed.

(** A trace whose events are all in view and none is a call. *)
Ltac quiet := apply at_most_one_none; repeat (apply no_call_snoc; [|simpl; tauto]); assumption.

(** ** Every gate, in order, before the call *)

(** An event with an answer. *)
Definition ok (e : geff) (x : gans e) : event := Ev (e : eff) (Val x).

(** The block check: the admission on the context, or a read that said no. *)
Definition block_events (admitted : option string) (c : Caller) (evs : list event) : Prop :=
  (admitted = Some (Subject (CIdentity c)) /\ evs = [])
  \/ evs = [ok ECtxErr None; ok (EBlocked (Subject (CIdentity c))) (Ok false)].

Definition maint_events (cfg : config) (evs : list event) (maint : gmap string Maintenance) : Prop :=
  (has_maint cfg = false /\ evs = [] /\ maint = ∅)
  \/ (has_maint cfg = true /\ ((exists e, evs = [ok EMaintenance (Err e)] /\ maint = ∅)
       \/ exists l, evs = [ok EMaintenance (Ok l)] /\ maint = foldl (fun m x => <[MTarget x := x]> m) ∅ l)).

(** The quota debited, the allowed row written and counted. *)
Definition slot_events (c : Caller) (name : string) (ctl : controls) (server : string) (at_ stamp : time) : list event :=
  [ok ENow at_; ok (EQuotaAdmit (ctl_plan ctl) (Subject (CIdentity c)) name at_) (Ok tt); ok ENow stamp;
   ok (ERecord false (audit_record c name server OutcomeAllowed "" stamp)) (Ok tt); ok (ECount OutcomeAllowed) tt].

(** The trace of a call that may be made, and the call it may be. *)
Definition gates_passed (cfg : config) (admitted : option string) (c : Caller) (name args : string)
  (pre : list event) (call : handle * string * string) : Prop :=
  exists blk rt up ctl t mevs maint now v at_ stamp,
    let server := upstream (rt_route rt) in
    let subject := Subject (CIdentity c) in
    pre = blk
      ++ [ok ESuspended false; ok (ELookup name) (Some (rt, Some up)); ok EControls ctl;
          ok (EQuarGet server (originalName (rt_route rt))) (Ok t)]
      ++ mevs
      ++ [ok ENow now; ok (EHealth server) v; ok (EAcquire subject) true]
      ++ slot_events c name ctl server at_ stamp
    /\ call = (up, originalName (rt_route rt), args)
    /\ block_events admitted c blk
    /\ maint_events cfg mevs maint
    /\ Authorize (ctl_policy ctl) (CIdentity c) name = Ok tt
    /\ Usable t = true
    /\ (TClass t <> ClassSafe \/ SecurityClass (rt_def rt) <> ClassSafe ->
        AuthorizeNonRead (ctl_policy ctl) (CIdentity c) name = Ok tt)
    /\ availability server (Some up) maint now v = None.

Lemma with_slot_calls cfg c name ctl rt up now gw args acc :
  no_call acc ->
  wpa acc (with_slot cfg c name ctl rt up now gw args) (fun tr _ => at_most_one (fun pre call =>
    exists u at_ stamp, up = Some u /\ pre = acc ++ slot_events c name ctl (upstream (rt_route rt)) at_ stamp
      /\ call = (u, originalName (rt_route rt), args)) tr).
Proof.
  intros Ha. unfold with_slot. cbv zeta. apply wpa_do; [intros at_|done].
  apply wpa_do; [intros q|intros _; quiet].
  destruct q as [[]|e].
  2: { apply never_call_at_most; [|quiet].
       destruct (is_exhausted e); (apply never_bind; [by apply never_auditRefusal|done]). }
  apply wpa_bind. unfold record. apply wpa_do; [intros stamp|done].
  apply wpa_do; [intros r|intros _; quiet].
  destruct r as [[]|e].
  2: { apply wpa_ret, wpa_ret. quiet. }
  apply wpa_do; [intros []|done]. apply wpa_ret, wpa_after_mark. unfold forward.
  destruct up as [u|]; [|apply wpa_panic; quiet].
  assert (Hacc : forall r, at_most_one (fun pre call => exists u0 at_0 stamp0, Some u = Some u0
      /\ pre = acc ++ slot_events c name ctl (upstream (rt_route rt)) at_0 stamp0
      /\ call = (u0, originalName (rt_route rt), args))
    (((((acc ++ [ok ENow at_]) ++ [ok (EQuotaAdmit (ctl_plan ctl) (Subject (CIdentity c)) name at_) (Ok tt)])
       ++ [ok ENow stamp]) ++ [ok (ERecord false (audit_record c name (upstream (rt_route rt)) OutcomeAllowed "" stamp)) (Ok tt)])
       ++ [ok (ECount OutcomeAllowed) tt] ++ [Ev (ECallTool u (originalName (rt_route rt)) args : eff) r])).
  { intros r. unfold at_most_one. rewrite <- !app_assoc, split_call_app_none by done. cbn. split; [|done].
    by exists u, at_, stamp. }
  apply wpa_do.
  - intros r. rewrite <- (app_assoc _ [ok (ECount OutcomeAllowed) tt]).
    destruct r as [res|e]; apply never_call_at_most; try apply Hacc;
      [by apply never_call_returned|by apply never_call_failed].
  - intros _. rewrite <- (app_assoc _ [ok (ECount OutcomeAllowed) tt]). apply Hacc.
Qed.
Lemma finally_release_calls {A} G acc (p : prog A) subject :
  wpa acc p (fun tr _ => at_most_one G tr) ->
  wpa acc (finally p (do (ERelease subject))) (fun tr _ => at_most_one G tr).
Proof.
  intros H. apply wpa_finally. eapply wpa_mono; [|exact H]. intros tr out Htr.
  apply never_call_at_most; [apply never_do; simpl; tauto|done].
Qed.

(** What [granted] adds to the events before it. *)
Definition granted_call (cfg : config) (c : Caller) (name args : string) (ctl : controls) (rt : routedTool)
  (up : option handle) (acc pre : list event) (call : handle * string * string) : Prop :=
  exists u mevs maint now v at_ stamp,
    let server := upstream (rt_route rt) in
    up = Some u
    /\ pre = acc ++ mevs ++ [ok ENow now; ok (EHealth server) v; ok (EAcquire (Subject (CIdentity c))) true]
         ++ slot_events c name ctl server at_ stamp
    /\ call = (u, originalName (rt_route rt), args)
    /\ maint_events cfg mevs maint /\ availability server (Some u) maint now v = None.

Lemma granted_calls cfg c name ctl rt up args acc :
  no_call acc ->
  wpa acc (granted cfg c name ctl rt up args)
    (fun tr _ => at_most_one (granted_call cfg c name args ctl rt up acc) tr).
Proof.
  intros Ha. unfold granted. cbv zeta. apply wpa_bind.
  assert (Hrest : forall mevs maint, maint_events cfg mevs maint -> no_call mevs -> forall tr, tr = acc ++ mevs ->
    wpa tr (now <- do ENow;; v <- do (EHealth (upstream (rt_route rt)));;
      match availability (upstream (rt_route rt)) up maint now v with
      | Some ue => auditRefusal c name (upstream (rt_route rt)) (unavailable_reason ue);;; Ret (Err (Unavailable ue))
      | None =>
          ok <- do (EAcquire (Subject (CIdentity c)));;
          if negb ok then
            auditRefusal c name (upstream (rt_route rt)) reasonConcurrencyLimited;;;
            Ret (Err (ConcurrencyLimited (maxCalls cfg) (gatewayNotice maint now)))
          else finally (with_slot cfg c name ctl rt up now (gatewayNotice maint now) args)
                 (do (ERelease (Subject (CIdentity c))))
      end) (fun tr _ => at_most_one (granted_call cfg c name args ctl rt up acc) tr)).
  { intros mevs maint Hm Hn tr ->. assert (Hq : no_call (acc ++ mevs)) by (apply Forall_app; done).
    apply wpa_do; [intros now|done]. apply wpa_do; [intros v|done].
    destruct (availability _ up maint now v) as [ue|] eqn:Hav.
    { apply never_call_at_most; [|quiet]. apply never_bind; [by apply never_auditRefusal|done]. }
    apply wpa_do; [intros got|done]. destruct got; cbn [negb].
    2: { apply never_call_at_most; [|quiet]. apply never_bind; [by apply never_auditRefusal|done]. }
    apply finally_release_calls. eapply wpa_mono; [|apply with_slot_calls; repeat (apply no_call_snoc; [|simpl; tauto]); done].
    intros tr out. apply at_most_one_mono. intros pre call (u & at_ & stamp & -> & -> & ->).
    exists u, mevs, maint, now, v, at_, stamp. split_and!; try done. by rewrite <- !app_assoc. }
  unfold readMaintenance. destruct (has_maint cfg) eqn:Hm.
  - apply wpa_do; [intros [l|e]|intros _; quiet]; apply wpa_ret.
    + apply (Hrest [ok EMaintenance (Ok l)]); [right; eauto 10|repeat constructor; simpl; tauto|done].
    + apply (Hrest [ok EMaintenance (Err e)]); [right; eauto 10|repeat constructor; simpl; tauto|done].
  - apply wpa_ret, (Hrest []); [by left|constructor|by rewrite app_nil_r].
Qed.

Lemma routed_calls cfg c name rt up args acc :
  no_call acc ->
  wpa acc (routed cfg c name rt up args) (fun tr _ => at_most_one (fun pre call => exists ctl t,
    granted_call cfg c name args ctl rt up
      (acc ++ [ok EControls ctl; ok (EQuarGet (upstream (rt_route rt)) (originalName (rt_route rt))) (Ok t)]) pre call
    /\ Authorize (ctl_policy ctl) (CIdentity c) name = Ok tt
    /\ gate_tool (ctl_policy ctl) (CIdentity c) name t (rt_def rt) = GateOk) tr).
Proof.
  intros Ha. unfold routed. cbv zeta. apply wpa_do; [intros ctl|done].
  destruct (Authorize _ _ _) as [[]|e] eqn:Hauth.
  2: { apply never_call_at_most; [|quiet]. apply never_bind; [by apply never_auditRefusal|done]. }
  apply wpa_bind. unfold gw_admit. apply wpa_do; [intros [t|e]|intros _; quiet].
  - destruct (gate_tool _ _ _ _ _) as [| |e] eqn:Hg; apply wpa_ret.
    + rewrite <- app_assoc. eapply wpa_mono; [|apply granted_calls; apply Forall_app; split; [done|repeat constructor; simpl; tauto]].
      intros tr out. apply at_most_one_mono. intros pre call H. by exists ctl, t.
    + apply never_call_at_most; [|quiet]. apply never_bind; [by apply never_auditRefusal|done].
    + apply never_call_at_most; [|quiet]. apply never_bind; [by apply never_auditRefusal|done].
  - destruct (wraps e SNotFound); apply wpa_ret;
      (apply never_call_at_most; [|quiet]; apply never_bind; [by apply never_auditRefusal|done]).
Qed.

Lemma checkBlock_cases {A} admitted c (f : result gw_error unit -> prog A) G :
  (forall evs, block_events admitted c evs -> no_call evs -> wpa evs (f (Ok tt)) (fun tr _ => at_most_one G tr)) ->
  (forall e, never is_call (f (Err e))) ->
  wpa [] (bind (checkBlock admitted (Subject (CIdentity c))) f) (fun tr _ => at_most_one G tr).
Proof.
  intros Hok Herr. unfold checkBlock. apply wpa_bind. case_bool_decide as Had.
  { apply wpa_ret, Hok; [by left|constructor]. }
  assert (H0 : no_call []) by constructor. unfold readBlock.
  apply wpa_do; [intros [e|]|done]; [apply wpa_ret, never_call_at_most; [done|quiet]|].
  apply wpa_do; [intros [[]|e]|intros _; quiet].
  - apply wpa_ret, never_call_at_most; [done|quiet].
  - apply wpa_ret, Hok; [by right|repeat constructor; simpl; tauto].
  - apply wpa_do; [intros [x|]|done]; apply wpa_ret, never_call_at_most; try done; quiet.
Qed.

(** The class gate, read back. *)
Lemma gate_tool_ok policy id name t d :
  gate_tool policy id name t d = GateOk ->
  Usable t = true /\ (TClass t <> ClassSafe \/ SecurityClass d <> ClassSafe -> AuthorizeNonRead policy id name = Ok tt).
Proof.
  unfold gate_tool. cbv zeta. destruct (negb (Usable t) && _) eqn:H1; [done|].
  destruct (negb (bool_decide (TClass t = ClassSafe)) || negb (bool_decide (SecurityClass d = ClassSafe))) eqn:Hs.
  - destruct (AuthorizeNonRead policy id name) as [[]|]; [|done]. destruct (Usable t); [done|done].
  - destruct (Usable t); [|done]. intros _. split; [done|].
    apply orb_false_iff in Hs as [Hs1 Hs2]. rewrite negb_false_iff, bool_decide_eq_true in Hs1, Hs2. tauto.
Qed.
Lemma Dispatch_calls cfg admitted c name args :
  wpa [] (Dispatch cfg admitted c name args)
    (fun tr _ => at_most_one (gates_passed cfg admitted c name args) tr).
Proof.
  unfold Dispatch. apply wpa_contain. eapply (wpa_mono (E := gw_effects)) with (P := fun tr _ => at_most_one (gates_passed cfg admitted c name args) tr).
  { intros tr [a|d] H; [done|]. apply never_call_at_most; [|done]. apply never_bind; [by apply never_recordPanic|done]. }
  unfold dispatch_body. apply checkBlock_cases; [intros blk Hblk Hn|].
  2: { intros e. apply never_bind; [by apply never_refuseBlocked|done]. }
  apply wpa_do; [intros susp|done]. destruct susp.
  { apply never_call_at_most; [|quiet]. apply never_bind; [by apply never_auditRefusal|done]. }
  apply wpa_do; [intros found|done]. destruct found as [[rt up]|].
  2: { apply never_call_at_most; [|quiet]. apply never_bind; [by apply never_auditRefusal|done]. }
  eapply wpa_mono; [|apply routed_calls; repeat (apply no_call_snoc; [|simpl; tauto]); done].
  intros tr out. apply at_most_one_mono.
  intros pre call (ctl & t & (u & mevs & maint & now & v & at_ & stamp & -> & -> & -> & Hm & Hav) & Hauth & Hg).
  apply gate_tool_ok in Hg as [Hu Hc].
  exists blk, rt, u, ctl, t, mevs, maint, now, v, at_, stamp. split_and!; try done.
  by rewrite <- !app_assoc.
Qed.

(** C1 [no_call_before_every_gate]: nothing leaves the gateway unchecked or unrecorded.  In every run of
    [Dispatch], whatever the stores, the backend and other requests answer and wherever an adapter
    panics, there is at most one call to a backend, and the events before it are exactly these, in
    this order: the caller admitted or read as not blocked; the fleet not suspended; a route with a
    live connection; one snapshot of policy and quota, which authorises the caller for that name; the
    quarantine row read, usable, and for a tool that acts named by a non-read role; the backend
    available; a slot taken; the quota of that same snapshot debited; the allowed row written and
    counted.  The call made is the route's own tool on that connection, with the caller's arguments. *)
Theorem no_call_before_every_gate cfg admitted c name args tr out pre call post :
  runs (Dispatch cfg admitted c name args) tr out ->
  split_call tr = Some (pre, call, post) ->
  gates_passed cfg admitted c name args pre call /\ split_call post = None.
Proof.
  intros Hr Hs. pose proof (wpa_runs _ _ (Dispatch_calls cfg admitted c name args) tr out Hr) as H.
  unfold at_most_one in H. by rewrite Hs in H.
Qed.

End safety.

#[export] Hint Resolve only_slots_call only_slots_all : core.

(** ** Witnesses: one concrete gateway *)

Definition demo_print : PrintTable := {| is_print := fun c => in_range 0x20 0x7e c |}.
Definition demo_schemas : SchemaValidator := {| schema := string; compile := fun raw => Some raw; validates := fun s x => bool_decide (s = x) |}.

Definition demo_caller : Caller := {| CIdentity := ana; SourceAddr := "10.0.0.9" |}.
Definition demo_call_name : string := "threatintel.lookup_ip".
Definition demo_now : time := Time (63893739845 * second) 0.
Definition demo_config : config :=
  {| has_maint := true; maxResultBytes := 65536; maxCalls := 1; callTimeout := 30 * second |}.

Definition demo_tool : Quarantine.Tool :=
  {| ServerName := "threatintel"; Quarantine.ToolName := "lookup_ip"; TStatus := StatusApproved; ApprovedHash := "f";
     ObservedHash := "f"; TClass := ClassSafe; SensitiveClearedHash := "";
     FirstSeenAt := demo_now; TUpdatedAt := demo_now |}.

Definition demo_route : routedTool (SV := demo_schemas) :=
  {| rt_route := {| upstream := "threatintel"; originalName := "lookup_ip" |};
     rt_def := {| DName := "lookup_ip"; DDescription := ""; DInputSchema := "{}"; DOutputSchema := "";
                  SecurityClass := ClassSafe |};
     rt_output := None |}.

Definition demo_health : health_view :=
  {| v_gone := None; v_unlisted := None;
     v_health := Some {| bh_live := true; bh_since := demo_now; bh_lastAttempt := demo_now; bh_cause := "" |};
     v_lastRound := demo_now; v_interval := 60 * second |}.

Definition demo_result : Result :=
  {| Content := "{}"; StructuredContent := ""; IsError := false; Notice := None |}.

(** Every store healthy, the backend live and answering. *)
Definition demo_value (e : geff) : gans (SV := demo_schemas) e :=
  match e with
  | ECtxErr => None
  | EBlocked _ => Ok false
  | ESuspended => false
  | ELookup name => if bool_decide (name = demo_call_name) then Some (demo_route, Some 7) else None
  | ERoutes => [(demo_call_name, demo_route)]
  | EControls => {| ctl_policy := demo_policy; ctl_plan := {| providers := []; byTool := ∅; free := {[ demo_call_name ]} |} |}
  | EQuarGet _ _ => Ok demo_tool
  | EMaintenance => Ok []
  | ENow => demo_now
  | EHealth _ => demo_health
  | EAcquire _ => true
  | ERelease _ => tt
  | EQuotaAdmit _ _ _ _ => Ok tt
  | ERecord _ _ => Ok tt
  | ECount _ => tt
  | ECallTool _ _ _ => Ok demo_result
  | EMarkGone _ _ => None
  | EPersist => tt
  | EEnvNames _ => []
  | EResolve _ => Ok "secret-value"
  | EAuthVerdict _ _ => authRecord
  end.

Definition demo_answer (e : eff (Effects := gw_effects (SV := demo_schemas))) : reply (ans e) := Val (demo_value e).

Definition demo_dispatch : prog (E := gw_effects (SV := demo_schemas)) (result gw_error Result) :=
  Dispatch (UT := demo_tables) (PT := demo_print) demo_config None demo_caller demo_call_name "{}".

Lemma demo_answer_ok e : ok_reply e (demo_answer e).
Proof. exact I. Qed.

Lemma no_call_before_every_gate_witness :
  exists pre post,
    split_call (exec demo_answer demo_dispatch).1 = Some (pre, (7, "lookup_ip", "{}"), post)
    /\ (exec demo_answer demo_dispatch).2 = Done (Ok demo_result)
    /\ gates_passed (UT := demo_tables) demo_config None demo_caller demo_call_name "{}" pre (7, "lookup_ip", "{}")
    /\ split_call post = None.
Proof.
  assert (Hc : match split_call (exec demo_answer demo_dispatch).1 with
               | Some (pre, c, post) => bool_decide (c = (7, "lookup_ip", "{}")) && (length pre =? 15)%nat | None => false end = true)
    by (vm_compute; reflexivity).
  destruct (split_call (exec demo_answer demo_dispatch).1) as [[[pre call] post]|] eqn:Hs; [|discriminate].
  apply andb_true_iff in Hc as [Hc _]. rewrite bool_decide_eq_true in Hc. subst call.
  exists pre, post. split; [reflexivity|]. split; [vm_compute; reflexivity|].
  exact (no_call_before_every_gate (UT := demo_tables) (PT := demo_print) demo_config None demo_caller demo_call_name "{}"
    _ _ pre _ post (exec_runs demo_answer demo_dispatch demo_answer_ok) Hs).
Defined.
