(* ===== verification/DispatchTrail.v ===== *)
(** * Theorems about the call path: what the caller is told and what the trail is told

    About Dispatch.v.  Without a panic, the rows a call attempts to write are determined by the answer
    the caller gets; with one, the caller gets an internal error and the trail one more row that says
    whether the call had been dispatched. *)
From Stdlib Require Import ZArith Lia Ascii.
From stdpp Require Import base strings list gmap.
From S2P Require Import Prelude.
From S2P Require Import GoStrings.
From S2P Require Import Visible.
From S2P Require Import GoTime.
From S2P Require Import Json.
From S2P Require Import AuditLog.
From S2P Require Import Quota.
From S2P Require Import Quarantine.
From S2P Require Import Access.
From S2P Require Import Redact.
From S2P Require Import Prog.
From S2P Require Import GatewayTypes.
From S2P Require Import Fleet.
From S2P Require Import Dispatch.
From S2P Require Import DispatchSafety.

Section trail.
Context `{UT : UnicodeTables} `{PT : PrintTable} `{SV : SchemaValidator}.

(** ** The rows a run attempts *)

Definition attempt_of (ev : event) : option (bool * AuditRecord) :=
  match (ev_eff ev : geff) with ERecord d r => Some (d, r) | _ => None end.

(** Every row handed to the store, in order: off the caller's context or on it. *)
Definition attempts (tr : list event) : list (bool * AuditRecord) := omap attempt_of tr.

(** A row of [c] about [tool] at [server].  Only the row that lets a call go is tied to the caller's own
    context; every other is written off it. *)
Definition row (c : Caller) (tool server outcome reason : string) (x : bool * AuditRecord) : Prop :=
  x.1 = negb (bool_decide (outcome = OutcomeAllowed)) /\ exists now, x.2 = audit_record c tool server outcome reason now.

(** The server a refusal names: from the name as called, or from the route it was found to have. *)
Definition names_target (tr : list event) (name server : string) : Prop :=
  server = targetOf name \/ exists rt up, ok (ELookup name) (Some (rt, up)) ∈ tr /\ server = upstream (rt_route rt).

(** One row, denied. *)
Definition refused (c : Caller) (name : string) (tr : list event) (reason : string) (rows : list (bool * AuditRecord)) : Prop :=
  exists x server, rows = [x] /\ names_target tr name server
    /\ row c (if blank name then unnamedTool else name) server OutcomeDenied reason x.

(** The allowed row of a routed tool, then [P]. *)
Definition went_out (c : Caller) (name : string) (tr : list event) (P : string -> list (bool * AuditRecord) -> Prop)
  (rows : list (bool * AuditRecord)) : Prop :=
  exists rt up a rest, ok (ELookup name) (Some (rt, Some up)) ∈ tr /\ rows = a :: rest
    /\ row c name (upstream (rt_route rt)) OutcomeAllowed "" a /\ P (upstream (rt_route rt)) rest.

Definition failed (c : Caller) (name reason : string) (server : string) (rest : list (bool * AuditRecord)) : Prop :=
  exists x, rest = [x] /\ row c name server OutcomeFailed reason x.

(** The backend's own error, and the row that classifies it. *)
Definition backend_failed (c : Caller) (name : string) (tr : list event) (E : foreign -> Prop)
  (server : string) (rest : list (bool * AuditRecord)) : Prop :=
  exists up tool args e, ok (ECallTool up tool args) (Err e) ∈ tr /\ E e /\ failed c name (classifyFailure e) server rest.

(** The backend was found dead by this very call: a health row of the gateway's own may come first. *)
Definition backend_gone (c : Caller) (name : string) (tr : list event) (server : string)
  (rest : list (bool * AuditRecord)) : Prop :=
  exists health rest', rest = health ++ rest'
    /\ backend_failed c name tr (fun e => wraps e SUpstreamGone = true) server rest'
    /\ (health = [] \/ exists h ev now, health = [(true, h)]
          /\ h = audit_record gateway_caller backendHealthTool (he_backend ev) (he_outcome ev) (he_reason ev) now).

(** A context that has ended stays ended, with the same error: what package context promises. *)
Definition ctx_sticky (tr : list event) : Prop :=
  forall i j x y, (i < j)%nat -> tr !! i = Some (ok ECtxErr (Some x)) -> tr !! j = Some (ok ECtxErr y) -> y = Some x.

(** The rows that go with an answer. *)
Definition booked (c : Caller) (name : string) (tr : list event) (r : result gw_error Result)
  (rows : list (bool * AuditRecord)) : Prop :=
  match r with
  | Ok _ => went_out c name tr (fun _ rest => rest = []) rows
  | Err (CtxEnded _) => ctx_sticky tr -> rows = []
  | Err SubjectBlocked => refused c name tr reasonSubjectBlocked rows
  | Err (BlocklistUnavailable e) =>
      if wraps e SSubjectBlocked then refused c name tr reasonSubjectBlocked rows
      else refused c name tr reasonBlocklistUnavailable rows
        \/ (rows = [] /\ exists x, ok ECtxErr (Some x) ∈ tr)
  | Err RegistryUnavailable => refused c name tr reasonRegistryUnavailable rows
  | Err UnknownTool => refused c name tr reasonUnknownTool rows \/ refused c name tr reasonQuarantined rows
  | Err (Forbidden _) => refused c name tr reasonForbidden rows
  | Err (SensitiveNotGranted _) => refused c name tr reasonSensitiveNotGranted rows
  | Err (QuarantineUnavailable _) => refused c name tr reasonQuarantineUnavailable rows
  | Err (Unavailable ue) =>
      if UGone ue then went_out c name tr (backend_gone c name tr) rows
      else refused c name tr (unavailable_reason ue) rows
  | Err (ConcurrencyLimited _ _) => refused c name tr reasonConcurrencyLimited rows
  | Err (QuotaExhausted _ _) => refused c name tr reasonQuotaExhausted rows
  | Err (QuotaRefused _) => refused c name tr reasonQuotaUnavailable rows
  | Err (AuditFailed e) =>
      went_out c name tr (fun _ rest => rest = []) rows
      /\ exists rec, ok (ERecord false rec) (Err e) ∈ tr
  | Err (CallInterrupted e) => went_out c name tr (failed c name (classifyFailure e)) rows
  | Err (CallTimeout _ _ _) => went_out c name tr (failed c name reasonUpstreamTimeout) rows
  | Err (BackendFailed _ _) =>
      went_out c name tr (backend_failed c name tr (fun e => ~ wraps e SUpstreamGone /\ ~ wraps e SDeadlineExceeded
        /\ ~ wraps e SCanceled /\ ~ wraps e SInternal)) rows
  | Err (ResultTooLarge _ _ _) => went_out c name tr (failed c name reasonResultTooLarge) rows
  | Err SchemaViolation => went_out c name tr (failed c name reasonResultSchemaViolation) rows
  | Err ResultUnscrubbable => went_out c name tr (failed c name reasonUpstreamFailed) rows
  | Err ToolQuarantined | Err Internal => False
  end.

(** ** Walking a program while nothing panics *)

Definition is_record (e : geff) : Prop := match e with ERecord _ _ => True | _ => False end.

(** [tr'] continues [tr] and attempted [rows] more. *)
Definition grows (tr tr' : list event) (rows : list (bool * AuditRecord)) : Prop :=
  tr `prefix_of` tr' /\ attempts tr' = attempts tr ++ rows.

Lemma grows_refl tr : grows tr tr [].
Proof. split; [done|by rewrite app_nil_r]. Qed.

Lemma grows_trans a b c r1 r2 : grows a b r1 -> grows b c r2 -> grows a c (r1 ++ r2).
Proof. intros [H1 H2] [H3 H4]. split; [by etrans|]. by rewrite H4, H2, app_assoc. Qed.

Lemma attempts_app tr1 tr2 : attempts (tr1 ++ tr2) = attempts tr1 ++ attempts tr2.
Proof. apply omap_app. Qed.

Lemma grows_snoc tr (e : geff) (x : gans e) :
  grows tr (tr ++ [ok e x]) (match e with ERecord d r => [(d, r)] | _ => [] end).
Proof. split; [by eexists|]. rewrite attempts_app. f_equal. by destruct e. Qed.

Lemma grows_elem tr tr' rows ev : grows tr tr' rows -> ev ∈ tr -> ev ∈ tr'.
Proof. intros [[l ->] _] H. apply elem_of_app. by left. Qed.

(** A postcondition that only speaks of runs without a panic. *)
Definition calm {A} (P : list event -> A -> Prop) (tr : list event) (out : outcome A) : Prop :=
  blown tr = true \/ exists a, out = Done a /\ P tr a.

Lemma calm_ret {A} acc (a : A) (P : list event -> A -> Prop) : P acc a -> wpa acc (Ret a) (calm P).
Proof. intros H. apply wpa_ret. right. eauto. Qed.

Lemma calm_do {B} acc (e : geff) (f : gans e -> prog B) (P : list event -> B -> Prop) :
  ~ is_record e ->
  (forall x acc', grows acc acc' [] -> ok e x ∈ acc' -> wpa acc' (f x) (calm P)) ->
  wpa acc (bind (do e) f) (calm P).
Proof.
  intros He H. apply wpa_do; [intros x|intros _; left; apply (blown_snoc (E := gw_effects))].
  apply H; [|apply elem_of_app; right; apply list_elem_of_here].
  pose proof (grows_snoc acc e x) as Hg. by destruct e.
Qed.

Lemma calm_bind {A B} acc (p : prog A) (f : A -> prog B) P :
  wpa acc p (calm (fun tr a => wpa tr (f a) (calm P))) -> wpa acc (bind p f) (calm P).
Proof.
  intros H. apply wpa_bind. eapply wpa_mono; [|exact H]. intros tr [a|d] [Hb|(a' & Ha & Hp)]; simplify_eq; try done.
  - unfold wpa. apply wp_true. intros tr2 out. left. rewrite blown_app. by rewrite Hb.
  - by left.
Qed.

Lemma calm_mono {A} acc (p : prog A) (P P' : list event -> A -> Prop) :
  (forall tr a, P tr a -> P' tr a) -> wpa acc p (calm P) -> wpa acc p (calm P').
Proof. intros H. apply wpa_mono. intros tr out [Hb|(a & -> & Ha)]; [by left|right; eauto]. Qed.

(** A part that writes no row. *)
Lemma never_attempts tr : Forall (fun ev => ~ is_record (ev_eff ev)) tr -> attempts tr = [].
Proof. induction 1 as [|[e r] tr He _ IH]; [done|]. simpl. unfold attempt_of. simpl. by destruct e. Qed.

Lemma calm_silent {A B} acc (p : prog A) (f : A -> prog B) P :
  plain p -> never is_record p ->
  (forall acc' a, grows acc acc' [] -> wpa acc' (f a) (calm P)) -> wpa acc (bind p f) (calm P).
Proof.
  intros Hp Hn H. apply calm_bind. unfold wpa. eapply wp_mono; [|apply wp_conj; [apply (plain_wp (E := gw_effects) p Hp)|apply (never_wp (E := gw_effects) is_record p Hn)]].
  intros tr [a|d] [Hb Hr].
  - right. exists a. split; [done|]. apply H. split; [by eexists|]. rewrite attempts_app. f_equal. by apply never_attempts.
  - destruct Hb as (_ & tr' & e & -> & _). left. rewrite app_assoc. apply (blown_snoc (E := gw_effects)).
Qed.

Lemma calm_last acc (e : geff) (P : list event -> gans e -> Prop) :
  ~ is_record e -> (forall x acc', grows acc acc' [] -> P acc' x) -> wpa acc (do e) (calm P).
Proof.
  intros He H. apply (wpa_trigger (E := gw_effects) acc e (calm P)); [|intros _; left; apply (blown_snoc (E := gw_effects))].
  intros x. right. exists x. split; [done|]. apply H. pose proof (grows_snoc acc e x) as Hg. by destruct e.
Qed.

Lemma calm_record {B} acc d c tool server o reason (f : result gw_error unit -> prog B) P :
  (forall now acc' r, let rec := audit_record c tool server o reason now in
     grows acc acc' [(d, rec)] ->
     r = Ok tt \/ (exists e, r = Err (AuditFailed e) /\ ok (ERecord d rec) (Err e) ∈ acc') ->
     wpa acc' (f r) (calm P)) ->
  wpa acc (bind (record d c tool server o reason) f) (calm P).
Proof.
  intros H. unfold record. apply calm_bind. apply wpa_do; [intros now|done].
  apply wpa_do; [intros r|intros _; left; apply (blown_snoc (E := gw_effects))].
  assert (Hg : forall r, grows acc ((acc ++ [ok ENow now]) ++ [ok (ERecord d (audit_record c tool server o reason now)) r])
    [(d, audit_record c tool server o reason now)]).
  { intros r'. exact (grows_trans _ _ _ [] _ (grows_snoc _ ENow now) (grows_snoc _ (ERecord _ _) r')). }
  destruct r as [[]|e].
  - apply wpa_do; [intros []|done]. apply calm_ret. apply (H now); [|by left].
    exact (grows_trans _ _ _ _ [] (Hg (Ok tt)) (grows_snoc _ (ECount o) tt)).
  - apply calm_ret. apply (H now); [apply Hg|]. right. exists e. split; [done|].
    apply elem_of_app. right. apply list_elem_of_here.
Qed.

(** Writing a refusal, a failure, and the health rows. *)
Lemma calm_refusal {B} acc c tool server reason (f : unit -> prog B) P :
  (forall acc' x, row c (if blank tool then unnamedTool else tool) server OutcomeDenied reason x ->
     grows acc acc' [x] -> wpa acc' (f tt) (calm P)) ->
  wpa acc (bind (auditRefusal c tool server reason) f) (calm P).
Proof.
  intros H. apply calm_bind. unfold auditRefusal. cbv zeta. apply calm_record. intros now acc' r rec Hg _.
  apply calm_ret. apply (H acc' (true, rec)); [split; [done|by exists now]|done].
Qed.

Lemma calm_failure {B} acc c tool server cause (f : unit -> prog B) P :
  (forall acc' x, row c tool server OutcomeFailed (classifyFailure cause) x ->
     grows acc acc' [x] -> wpa acc' (f tt) (calm P)) ->
  wpa acc (bind (auditFailure c tool server cause) f) (calm P).
Proof.
  intros H. apply calm_bind. unfold auditFailure. apply calm_record. intros now acc' r rec Hg _.
  apply calm_ret. apply (H acc' (true, rec)); [split; [done|by exists now]|done].
Qed.

Lemma calm_health {B} acc ev (f : unit -> prog B) P :
  (forall acc' now, grows acc acc' [(true, audit_record gateway_caller backendHealthTool (he_backend ev) (he_outcome ev) (he_reason ev) now)] ->
     wpa acc' (f tt) (calm P)) ->
  wpa acc (bind (writeHealthEvents [Some ev]) f) (calm P).
Proof.
  intros H. apply calm_bind. cbn [writeHealthEvents]. apply calm_bind. unfold auditGatewayRow. apply calm_record.
  intros now acc' r rec Hg _. apply calm_ret. apply calm_ret. by apply (H acc' now).
Qed.

(** ** The parts of [Dispatch], one by one *)

(** What is known once the allowed row was attempted. *)
Definition out_of_gate (c : Caller) (name : string) (tr : list event) (rt : routedTool) (rows : list (bool * AuditRecord)) : Prop :=
  exists up a, ok (ELookup name) (Some (rt, Some up)) ∈ tr /\ row c name (upstream (rt_route rt)) OutcomeAllowed "" a
    /\ attempts tr = a :: rows.

Lemma out_of_gate_grows c name tr tr' rt rows more :
  out_of_gate c name tr rt rows -> grows tr tr' more -> out_of_gate c name tr' rt (rows ++ more).
Proof.
  intros (up & a & Hl & Ha & Hr) Hg. exists up, a. split_and!; [by eapply grows_elem|done|].
  destruct Hg as [_ ->]. by rewrite Hr.
Qed.

Lemma out_of_gate_went c name tr rt rows P :
  out_of_gate c name tr rt rows -> P (upstream (rt_route rt)) rows -> went_out c name tr P (attempts tr).
Proof. intros (up & a & Hl & Ha & ->) HP. by exists rt, up, a, rows. Qed.

Abbreviation books c name := (calm (fun tr r => booked c name tr r (attempts tr))).

Lemma call_failed_books cfg c name rt up tool args now gw e acc :
  out_of_gate c name acc rt [] ->
  ok (ECallTool up tool args) (Err e) ∈ acc ->
  wpa acc (call_failed cfg c name (upstream (rt_route rt)) up now gw e) (books c name).
Proof.
  intros Hog Hcall. unfold call_failed. cbv zeta. apply calm_bind.
  set (health := fun rows : list (bool * AuditRecord) => rows = [] \/ wraps e SUpstreamGone = true /\ exists h ev now, rows = [(true, h)]
    /\ h = audit_record gateway_caller backendHealthTool (he_backend ev) (he_outcome ev) (he_reason ev) now).
  assert (Hrest : forall acc' rows, grows acc acc' rows -> health rows ->
    wpa acc' (auditFailure c name (upstream (rt_route rt)) e;;;
      (if wraps e SUpstreamGone then
         v <- do (EHealth (upstream (rt_route rt)));;
         Ret (Err (Unavailable {| UBackend := upstream (rt_route rt); UState := StateReconnecting; USince := now;
           ULastAttempt := zero_time; UNextAttempt := nextAttempt v; UMaintenance := None; UGateway := gw; UGone := true |}))
       else if wraps e SDeadlineExceeded then
         ended <- do ECtxErr;;
         match ended with
         | None => Ret (Err (CallTimeout (upstream (rt_route rt)) (callTimeout cfg) gw))
         | Some _ => Ret (Err (CallInterrupted e))
         end
       else if wraps e SCanceled || wraps e SInternal then Ret (Err (CallInterrupted e))
       else Ret (Err (BackendFailed (upstream (rt_route rt)) gw)))) (books c name)).
  { intros acc' rows Hg Hh. apply calm_failure. intros acc2 x Hx Hg2.
    pose proof (out_of_gate_grows _ _ _ _ _ _ _ (out_of_gate_grows _ _ _ _ _ _ _ Hog Hg) Hg2) as Hog2. simpl in Hog2.
    pose proof (grows_elem _ _ _ _ Hg2 (grows_elem _ _ _ _ Hg Hcall)) as Hcall2.
    assert (Hf : failed c name (classifyFailure e) (upstream (rt_route rt)) [x]) by (by exists x).
    destruct (wraps e SUpstreamGone) eqn:Hgone.
    - apply calm_do; [simpl; tauto|]. intros v acc3 Hg3 _. apply calm_ret. cbn [booked UGone].
      apply (out_of_gate_grows _ _ _ _ _ _ _ Hog2) in Hg3 as Hog3. rewrite app_nil_r in Hog3.
      eapply out_of_gate_went; [exact Hog3|]. exists rows, [x]. split; [done|]. split.
      + exists up, tool, args, e. split; [by eapply grows_elem|]. done.
      + destruct Hh as [->|[_ Hh]]; [by left|right]. destruct Hh as (h & ev & now' & ? & ?). by exists h, ev, now'.
    - destruct Hh as [->|[? _]]; [|done]. simpl in Hog2. destruct (wraps e SDeadlineExceeded) eqn:Hdead.
      + apply calm_do; [simpl; tauto|]. intros ended acc3 Hg3 _.
        apply (out_of_gate_grows _ _ _ _ _ _ _ Hog2) in Hg3 as Hog3. simpl in Hog3.
        destruct ended; apply calm_ret; (eapply out_of_gate_went; [exact Hog3|]); [done|].
        unfold classifyFailure in Hf. by rewrite Hdead in Hf.
      + destruct (wraps e SCanceled || wraps e SInternal) eqn:Hci; apply calm_ret; (eapply out_of_gate_went; [exact Hog2|]); [done|].
        apply orb_false_iff in Hci as [Hc Hi]. exists up, tool, args, e. rewrite Hgone, Hdead, Hc, Hi. naive_solver. }
  destruct (wraps e SUpstreamGone) eqn:Hgone.
  - apply calm_do; [simpl; tauto|]. intros [ev|] acc1 Hg1 _.
    + apply calm_health. intros acc2 now' Hg2.
      pose proof (grows_trans _ _ _ _ _ Hg1 Hg2) as Hg. simpl in Hg.
      apply (calm_mono _ _ (fun tr _ => grows acc tr [(true, audit_record gateway_caller backendHealthTool (he_backend ev) (he_outcome ev) (he_reason ev) now')])).
      { intros tr [] Ht. eapply Hrest; [exact Ht|]. right. split; [done|]. eauto. }
      apply calm_last; [simpl; tauto|]. intros [] acc3 Hg3.
      pose proof (grows_trans _ _ _ _ _ Hg Hg3) as Hg'. by rewrite app_nil_r in Hg'.
    + apply calm_ret. eapply Hrest; [exact Hg1|by left].
  - apply calm_ret. eapply Hrest; [apply grows_refl|by left].
Qed.

Lemma plain_scrubResult server res : plain (scrubResult server res).
Proof.
  unfold scrubResult. apply plain_bind; [apply (plain_trigger (E := gw_effects))|]. intros names.
  destruct (bool_decide _); [done|]. apply plain_bind; [|done].
  generalize (sort_strings names) as l. induction l as [|n l IH]; cbn [resolve_all]; [done|].
  apply plain_bind; [apply (plain_trigger (E := gw_effects))|]. intros r. apply plain_bind; [done|]. intros env. by destruct r.
Qed.

Lemma silent_scrubResult server res : never is_record (scrubResult server res).
Proof.
  unfold scrubResult. apply never_bind; [apply never_do; simpl; tauto|]. intros names.
  destruct (bool_decide _); [done|]. apply never_bind; [|done].
  generalize (sort_strings names) as l. induction l as [|n l IH]; cbn [resolve_all]; [done|].
  apply never_bind; [apply never_do; simpl; tauto|]. intros r. apply never_bind; [done|]. intros env. by destruct r.
Qed.

Lemma checkResult_cases cfg rt res :
  checkResult cfg rt res = None \/ checkResult cfg rt res = Some [SResultTooLarge]
  \/ checkResult cfg rt res = Some [SSchemaViolation].
Proof. unfold checkResult, validateStructuredContent. repeat case_match; auto. Qed.

Lemma call_returned_books cfg c name rt gw res acc :
  out_of_gate c name acc rt [] -> wpa acc (call_returned cfg c name rt gw res) (books c name).
Proof.
  intros Hog. unfold call_returned. cbv zeta. destruct (checkResult_cases cfg rt res) as [-> | [-> | ->]].
  - apply calm_silent; [apply plain_scrubResult|apply silent_scrubResult|]. intros acc1 s Hg.
    apply (out_of_gate_grows _ _ _ _ _ _ _ Hog) in Hg as Hog1. destruct s as [s|[]].
    + apply calm_ret. by eapply out_of_gate_went.
    + apply calm_failure. intros acc2 x Hx Hg2. apply (out_of_gate_grows _ _ _ _ _ _ _ Hog1) in Hg2.
      apply calm_ret. eapply out_of_gate_went; [exact Hg2|]. by exists x.
  - apply calm_failure. intros acc2 x Hx Hg2. apply (out_of_gate_grows _ _ _ _ _ _ _ Hog) in Hg2.
    apply calm_ret. eapply out_of_gate_went; [exact Hg2|]. by exists x.
  - apply calm_failure. intros acc2 x Hx Hg2. apply (out_of_gate_grows _ _ _ _ _ _ _ Hog) in Hg2.
    apply calm_ret. eapply out_of_gate_went; [exact Hg2|]. by exists x.
Qed.

Lemma calm_after_mark {A} acc (p : prog A) P : wpa acc p (calm P) -> wpa acc (after_mark p) (calm P).
Proof.
  intros H. apply wpa_after_mark. eapply wpa_mono; [|exact H]. intros tr out [Hb|(a & -> & Ha)]; [by left|right; eauto].
Qed.

(** A refusal that ends the call. *)
Lemma refusal_then c name server reason (e : gw_error) acc :
  attempts acc = [] -> names_target acc name server ->
  (forall tr rows, acc `prefix_of` tr -> refused c name tr reason rows -> booked c name tr (Err e) rows) ->
  wpa acc (auditRefusal c name server reason) (calm (fun tr _ => wpa tr (Ret (Err e)) (books c name))).
Proof.
  intros Ha Ht He. unfold auditRefusal. cbv zeta. apply calm_record. intros now acc' r rec Hg _.
  apply calm_ret, calm_ret, He; [apply Hg|]. exists (true, rec), server. split_and!; [|destruct Ht as [?|(rt & up & ? & ?)]|split; [done|by exists now]].
  - destruct Hg as [_ ->]. by rewrite Ha.
  - by left.
  - right. exists rt, up. split; [by eapply grows_elem|done].
Qed.

Lemma refusal_books c name server reason (e : gw_error) acc :
  attempts acc = [] -> names_target acc name server ->
  (forall tr rows, refused c name tr reason rows -> booked c name tr (Err e) rows) ->
  wpa acc (auditRefusal c name server reason;;; Ret (Err e)) (books c name).
Proof. intros Ha Ht He. apply calm_bind, refusal_then; auto. Qed.

Lemma names_target_grows tr tr' rows name server : names_target tr name server -> grows tr tr' rows -> names_target tr' name server.
Proof. intros [->|(rt & up & H & ->)] Hg; [by left|right]. exists rt, up. split; [by eapply grows_elem|done]. Qed.

Lemma attempts_grows tr tr' : attempts tr = [] -> grows tr tr' [] -> attempts tr' = [].
Proof. intros H [_ ->]. by rewrite H. Qed.

Lemma with_slot_books cfg c name ctl rt up now gw args acc :
  attempts acc = [] -> ok (ELookup name) (Some (rt, Some up)) ∈ acc ->
  wpa acc (with_slot cfg c name ctl rt (Some up) now gw args) (books c name).
Proof.
  intros Ha Hl. unfold with_slot. cbv zeta.
  apply calm_do; [simpl; tauto|]. intros at_ acc1 Hg1 _. apply calm_do; [simpl; tauto|]. intros q acc2 Hg2 _.
  pose proof (grows_trans _ _ _ _ _ Hg1 Hg2) as Hg. simpl in Hg. clear Hg1 Hg2 acc1.
  apply (grows_elem _ _ _ _ Hg) in Hl. apply (attempts_grows _ _ Ha) in Hg. clear Ha acc.
  assert (Ht : names_target acc2 name (upstream (rt_route rt))) by (right; eauto).
  destruct q as [[]|e].
  2: { destruct (is_exhausted e); by apply refusal_books. }
  apply calm_record. intros stamp acc3 r rec Hg3 Hr.
  assert (Hog : out_of_gate c name acc3 rt []).
  { exists up, (false, rec). split_and!; [by eapply grows_elem|split; [done|by exists stamp]|].
    destruct Hg3 as [_ ->]. by rewrite Hg. }
  destruct Hr as [->|(e & -> & He)].
  2: { apply calm_ret. split; [by eapply out_of_gate_went|by exists rec]. }
  apply calm_after_mark. unfold forward. apply calm_do; [simpl; tauto|]. intros r acc4 Hg4 Hcall.
  apply (out_of_gate_grows _ _ _ _ _ _ _ Hog) in Hg4 as Hog4.
  destruct r as [res|e]; [by apply call_returned_books|by eapply call_failed_books].
Qed.

(** What is said of a trace stays true as it grows. *)
Lemma booked_mono c name tr tr' r rows : tr `prefix_of` tr' -> booked c name tr r rows -> booked c name tr' r rows.
Proof.
  intros Hpre. assert (Hs : tr ⊆ tr') by (intros ev Hev; by eapply elem_of_prefix).
  assert (Hst : ctx_sticky tr' -> ctx_sticky tr).
  { intros H i j x y Hij Hi Hj. eapply (H i j x y Hij); by eapply prefix_lookup_Some. }
  assert (Href : forall reason rows, refused c name tr reason rows -> refused c name tr' reason rows).
  { intros reason rows' (x & server & -> & Ht & Hx). exists x, server. split_and!; [done| |done].
    destruct Ht as [->|(rt & up & Hin & ->)]; [by left|right]. exists rt, up. split; [by apply Hs|done]. }
  assert (Hwent : forall (P P' : string -> list (bool * AuditRecord) -> Prop) rows,
    (forall server rest, P server rest -> P' server rest) -> went_out c name tr P rows -> went_out c name tr' P' rows).
  { intros P P' rows' HP (rt & up & a & rest & Hl & -> & Ha & Hr). exists rt, up, a, rest. split_and!; auto. }
  assert (Hback : forall E server rest, backend_failed c name tr E server rest -> backend_failed c name tr' E server rest).
  { intros E server rest (up & tool & args & e & Hin & He). exists up, tool, args, e. split; [by apply Hs|done]. }
  destruct r as [res|[]]; cbn [booked]; eauto; try (intros [?|?]; eauto); try (apply Hwent; eauto).
  - destruct (wraps e SSubjectBlocked); [auto|]. intros [H|[H (x & Hx)]]; [auto|right]. split; [done|]. exists x. by apply Hs.
  - destruct (UGone e); [|auto]. apply Hwent. intros server rest (h & rest' & -> & Hb & Hh). exists h, rest'. auto.
  - intros [Hw (rec & Hin)]. split; [exact (Hwent _ _ _ (fun _ _ H => H) Hw)|]. exists rec. by apply Hs.
Qed.

Lemma finally_books c name subject acc (p : prog (result gw_error Result)) :
  wpa acc p (books c name) -> wpa acc (finally p (do (ERelease subject))) (books c name).
Proof.
  intros H. apply wpa_finally. eapply wpa_mono; [|exact H]. intros tr out Hc.
  apply (wpa_trigger (E := gw_effects) tr (ERelease subject)); [|done]. intros [].
  destruct Hc as [Hb|(a & -> & Hk)]; [left; rewrite (blown_app (E := gw_effects)); by rewrite Hb|].
  right. exists a. split; [done|]. pose proof (grows_snoc tr (ERelease subject) tt) as [[l Hl] Hat].
  change (booked c name (tr ++ [ok (ERelease subject) tt]) a (attempts (tr ++ [ok (ERelease subject) tt]))).
  rewrite Hat, app_nil_r. eapply booked_mono; [|exact Hk]. by eexists.
Qed.

Lemma availability_nil name maint now v : availability name None maint now v <> None.
Proof. unfold availability. cbv zeta. destruct (maint !! name); [done|]. by rewrite bool_decide_eq_false_2 by (by intros ?). Qed.

Lemma availability_not_gone name up maint now v ue : availability name up maint now v = Some ue -> UGone ue = false.
Proof.
  unfold availability. cbv zeta. destruct (maint !! name); [by intros [= <-]|].
  destruct (_ && _ && _); [done|]. by intros [= <-].
Qed.

Lemma granted_books cfg c name ctl rt up args acc :
  attempts acc = [] -> ok (ELookup name) (Some (rt, up)) ∈ acc ->
  wpa acc (granted cfg c name ctl rt up args) (books c name).
Proof.
  intros Ha Hl. unfold granted. cbv zeta. apply calm_silent.
  { unfold readMaintenance. destruct (has_maint cfg); [|done].
    apply plain_bind; [apply (plain_trigger (E := gw_effects))|]. by intros []. }
  { unfold readMaintenance. destruct (has_maint cfg); [|done]. apply never_bind; [apply never_do; simpl; tauto|]. by intros []. }
  intros acc1 maint Hg1. apply calm_do; [simpl; tauto|]. intros now acc2 Hg2 _.
  apply calm_do; [simpl; tauto|]. intros v acc3 Hg3 _.
  pose proof (grows_trans _ _ _ _ _ Hg1 (grows_trans _ _ _ _ _ Hg2 Hg3)) as Hg. simpl in Hg. clear Hg1 Hg2 Hg3 acc1 acc2.
  apply (grows_elem _ _ _ _ Hg) in Hl. apply (attempts_grows _ _ Ha) in Hg. clear Ha acc.
  assert (Ht : names_target acc3 name (upstream (rt_route rt))) by (right; eauto).
  destruct (availability _ up maint now v) as [ue|] eqn:Hav.
  { apply refusal_books; [done|done|]. intros tr rows Hr. cbn [booked]. by rewrite (availability_not_gone _ _ _ _ _ _ Hav). }
  apply calm_do; [simpl; tauto|]. intros got acc4 Hg4 _. 
  apply (names_target_grows _ _ _ _ _ Ht) in Hg4 as Ht4. apply (grows_elem _ _ _ _ Hg4) in Hl.
  apply (attempts_grows _ _ Hg) in Hg4. destruct got; cbn [negb].
  - destruct up as [up|]; [|by destruct (availability_nil (upstream (rt_route rt)) maint now v)]. by apply finally_books, with_slot_books.
  - by apply refusal_books.
Qed.

Lemma routed_books cfg c name rt up args acc :
  attempts acc = [] -> ok (ELookup name) (Some (rt, up)) ∈ acc ->
  wpa acc (routed cfg c name rt up args) (books c name).
Proof.
  intros Ha Hl. unfold routed. cbv zeta. apply calm_do; [simpl; tauto|]. intros ctl acc1 Hg1 _.
  apply (grows_elem _ _ _ _ Hg1) in Hl. apply (attempts_grows _ _ Ha) in Hg1. clear Ha acc.
  destruct (Authorize _ _ _) as [[]|e]; [|apply refusal_books; [done|right; eauto|done]].
  apply calm_bind. unfold gw_admit. apply calm_do; [simpl; tauto|]. intros r acc2 Hg2 _.
  apply (grows_elem _ _ _ _ Hg2) in Hl. apply (attempts_grows _ _ Hg1) in Hg2. clear Hg1 acc1.
  assert (Ht : names_target acc2 name (upstream (rt_route rt))) by (right; eauto).
  destruct r as [t|e].
  - destruct (gate_tool _ _ _ _ _) as [| |e]; apply calm_ret.
    + by apply granted_books.
    + apply refusal_books; [done|done|]. intros tr rows Hr. by right.
    + by apply refusal_books.
  - destruct (wraps e SNotFound); apply calm_ret; apply refusal_books; try done. intros tr rows Hr. by right.
Qed.

(** Every refusal of the block check, once it has been decided. *)
Lemma refuseBlocked_books c name e acc :
  attempts acc = [] ->
  e = SubjectBlocked \/ (exists f, e = BlocklistUnavailable f) \/ (exists x, e = CtxEnded x /\ ok ECtxErr (Some x) ∈ acc) ->
  wpa acc (refuseBlocked c name (targetOf name) e;;; Ret (Err e)) (books c name).
Proof.
  intros Ha He. unfold refuseBlocked. destruct (is_blocked e) eqn:Hb.
  { apply refusal_books; [done|by left|]. intros tr rows Hr. destruct He as [->|[[f ->]|(x & -> & _)]]; [done| |done].
    cbn [booked]. simpl in Hb. by rewrite Hb. }
  apply calm_bind. apply wpa_do; [intros ended|done].
  pose proof (grows_snoc acc ECtxErr ended) as Hg. apply (attempts_grows _ _ Ha) in Hg. destruct ended as [x|].
  - apply calm_ret, calm_ret. destruct He as [->|[[f ->]|(y & -> & _)]]; [done| |by intros _].
    cbn [booked]. simpl in Hb. rewrite Hb. right. split; [done|]. exists x. apply elem_of_app. right. apply list_elem_of_here.
  - apply refusal_then; [done|by left|]. intros tr rows Hpre Hr. destruct He as [->|[[f ->]|(y & -> & Hy)]]; [done| |].
    + cbn [booked]. simpl in Hb. rewrite Hb. by left.
    + intros Hst. exfalso. apply list_elem_of_lookup in Hy as [i Hi].
      assert (None = Some y) as [=]. eapply (Hst i (length acc) y None).
      * by eapply lookup_lt_Some.
      * eapply prefix_lookup_Some; [|exact Hpre]. by apply lookup_app_l_Some.
      * eapply prefix_lookup_Some; [|exact Hpre]. rewrite lookup_app_r by lia. by rewrite Nat.sub_diag.
Qed.

Lemma dispatch_books cfg admitted c name args :
  wpa [] (dispatch_body cfg admitted c name args) (books c name).
Proof.
  unfold dispatch_body. apply calm_bind. unfold checkBlock.
  assert (Hok : forall acc, attempts acc = [] -> wpa acc (
      suspended <- do ESuspended;;
      if (suspended : bool) then
        auditRefusal c name (targetOf name) reasonRegistryUnavailable;;; Ret (Err RegistryUnavailable)
      else
        found <- do (ELookup name);;
        match found with
        | None => auditRefusal c name (targetOf name) reasonUnknownTool;;; Ret (Err UnknownTool)
        | Some (rt, up) => routed cfg c name rt up args
        end) (books c name)).
  { intros acc Ha. apply calm_do; [simpl; tauto|]. intros susp acc1 Hg1 _. apply (attempts_grows _ _ Ha) in Hg1.
    destruct susp; [apply refusal_books; [done|by left|done]|].
    apply calm_do; [simpl; tauto|]. intros found acc2 Hg2 Hl. apply (attempts_grows _ _ Hg1) in Hg2.
    destruct found as [[rt up]|]; [by apply routed_books|]. apply refusal_books; [done|by left|]. intros; by left. }
  case_bool_decide; [by apply calm_ret, Hok|]. unfold readBlock.
  apply calm_do; [simpl; tauto|]. intros [x|] acc1 Hg1 Hx.
  { apply calm_ret. apply (attempts_grows [] _ eq_refl) in Hg1. apply refuseBlocked_books; [done|]. eauto. }
  apply calm_do; [simpl; tauto|]. intros b acc2 Hg2 _.
  pose proof (grows_trans _ _ _ _ _ Hg1 Hg2) as Hg. apply (attempts_grows [] _ eq_refl) in Hg. destruct b as [[]|e].
  - apply calm_ret, refuseBlocked_books; [done|]. by left.
  - by apply calm_ret, Hok.
  - apply calm_do; [simpl; tauto|]. intros [y|] acc3 Hg3 Hx3; apply calm_ret; apply (attempts_grows _ _ Hg) in Hg3;
      (apply refuseBlocked_books; [done|]); eauto.
Qed.

(** ** Panics *)

(** The row on the caller's own context: the one that lets the call go. *)
Definition is_allowed (e : geff) : Prop := match e with ERecord false _ => True | _ => False end.

(** The store took that row. *)
Definition accepted_here (ev : event) : bool :=
  match (ev_eff ev : geff) as e return reply (gans e) -> bool with
  | ERecord false _ => fun r => match r with Val (Ok _) => true | _ => false end
  | _ => fun _ => false
  end (ev_ans ev).

Definition accepted (tr : list event) : bool := existsb accepted_here tr.

Lemma accepted_app tr1 tr2 : accepted (tr1 ++ tr2) = accepted tr1 || accepted tr2.
Proof. apply existsb_app. Qed.

(** Parts that panic only where the code they call does, and do not let the call go. *)
Definition tame {A} (p : prog A) : Prop := plain p /\ never is_allowed p.

Lemma tame_bind {A B} (p : prog A) (f : A -> prog B) : tame p -> (forall a, tame (f a)) -> tame (bind p f).
Proof. intros [Hp Hn] Hf. split; [apply plain_bind|apply never_bind]; try done; intros a; apply Hf. Qed.

Lemma tame_do (e : geff) : ~ is_allowed e -> tame (do e).
Proof. intros He. split; [apply (plain_trigger (E := gw_effects))|by apply never_do]. Qed.

Lemma tame_ret {A} (a : A) : tame (Ret a).
Proof. by split. Qed.

Ltac tame :=
  repeat first
    [ apply tame_ret
    | apply tame_do; simpl; tauto
    | apply tame_bind; [|intros ?]
    | match goal with |- tame (match ?x with _ => _ end) => destruct x end
    | match goal with |- tame (if ?x then _ else _) => destruct x end ].

Lemma tame_refusal c tool server reason : tame (auditRefusal c tool server reason).
Proof. unfold auditRefusal, record. cbv zeta. tame. Qed.

Lemma tame_failure c tool server e : tame (auditFailure c tool server e).
Proof. unfold auditFailure, record. cbv zeta. tame. Qed.

Lemma tame_refuseBlocked c tool target e : tame (refuseBlocked c tool target e).
Proof. unfold refuseBlocked. destruct (is_blocked e); [apply tame_refusal|]. tame. Qed.

Lemma tame_readBlock s : tame (readBlock s).
Proof. unfold readBlock. tame. Qed.

Lemma tame_call_failed cfg c name server up now gw e : tame (call_failed cfg c name server up now gw e).
Proof.
  unfold call_failed. cbv zeta. apply tame_bind; [|intros _; apply tame_bind; [apply tame_failure|intros _; tame]].
  destruct (wraps e SUpstreamGone); [|tame]. apply tame_bind; [tame|]. intros [ev|]; [|tame].
  apply tame_bind; [|intros _; tame]. cbn [writeHealthEvents]. unfold auditGatewayRow, record. tame.
Qed.

Lemma tame_scrubResult server res : tame (scrubResult server res).
Proof.
  split; [apply plain_scrubResult|]. unfold scrubResult. apply never_bind; [apply never_do; simpl; tauto|].
  intros names. destruct (bool_decide _); [done|]. apply never_bind; [|done].
  generalize (sort_strings names) as l. induction l as [|n l IH]; cbn [resolve_all]; [done|].
  apply never_bind; [apply never_do; simpl; tauto|]. intros r. apply never_bind; [done|]. intros env. by destruct r.
Qed.

Lemma tame_call_returned cfg c name rt gw res : tame (call_returned cfg c name rt gw res).
Proof.
  unfold call_returned. cbv zeta. destruct (checkResult cfg rt res).
  - apply tame_bind; [apply tame_failure|intros _; tame].
  - apply tame_bind; [apply tame_scrubResult|]. intros [s|[]]; [tame|]. apply tame_bind; [apply tame_failure|intros _; tame].
Qed.

(** A trace so far without a panic. *)
Definition sound (tr : list event) (b : bool) : Prop := blown tr = false /\ accepted tr = b.

(** How a part may end: well, or with the one panic that ends it, marked as dispatched when the store
    had taken the allowed row. *)
Definition ends {A} (tr : list event) (out : outcome A) : Prop :=
  match out with Done _ => blown tr = false | Panicked d => blown tr = true /\ accepted tr = d end.

Lemma sound_snoc acc b (e : geff) x : sound acc b -> ~ is_allowed e -> sound (acc ++ [ok e x]) b.
Proof.
  intros [Hb Ha] He. split.
  - rewrite (blown_app (E := gw_effects)). by rewrite Hb.
  - rewrite accepted_app, Ha. destruct e; simpl; rewrite ?orb_false_r; try done. unfold accepted_here. simpl in *.
    destruct detached; [by rewrite orb_false_r|by destruct He].
Qed.

Lemma never_accepted tr : Forall (fun ev => ~ is_allowed (ev_eff ev)) tr -> accepted tr = false.
Proof.
  induction 1 as [|[e r] tr He _ IH]; [done|]. simpl. rewrite IH. unfold accepted_here. simpl in *.
  destruct e; try done. destruct detached; [done|by destruct He].
Qed.

Lemma tame_wpa {A} acc b (p : prog A) Q :
  sound acc b -> tame p ->
  (forall tr a, sound tr b -> Q tr (Done a)) ->
  (forall tr, blown tr = true -> accepted tr = b -> Q tr (Panicked false)) -> wpa acc p Q.
Proof.
  intros [Hb Ha] [Hp Hn] HQ HP. unfold wpa.
  eapply wp_mono; [|apply wp_conj; [apply (plain_wp (E := gw_effects) p Hp)|apply (never_wp (E := gw_effects) is_allowed p Hn)]].
  intros tr out [Ho Hnv]. apply never_accepted in Hnv.
  assert (Hacc : accepted (acc ++ tr) = b) by (rewrite accepted_app, Hnv, Ha; apply orb_false_r).
  destruct out as [a|d].
  - apply HQ. split; [|done]. rewrite (blown_app (E := gw_effects)). by rewrite Hb, Ho.
  - destruct Ho as (-> & tr' & e & -> & _). apply HP; [|done]. rewrite app_assoc. apply (blown_snoc (E := gw_effects)).
Qed.

Lemma tame_ends {A} acc (p : prog A) : sound acc false -> tame p -> wpa acc p ends.
Proof. intros Hs Hp. apply (tame_wpa acc false); [done|done|by intros tr a []|by split]. Qed.

Lemma tame_then {A B} acc (p : prog A) (f : A -> prog B) :
  sound acc false -> tame p -> (forall tr a, sound tr false -> wpa tr (f a) ends) -> wpa acc (bind p f) ends.
Proof. intros Hs Hp Hf. apply wpa_bind, (tame_wpa acc false); [done|done|auto|by split]. Qed.

Lemma with_slot_ends cfg c name ctl rt up now gw args acc :
  sound acc false -> wpa acc (with_slot cfg c name ctl rt (Some up) now gw args) ends.
Proof.
  intros Hs. unfold with_slot. cbv zeta. apply tame_then; [done|tame|]. intros tr1 at_ Hs1.
  apply tame_then; [done|tame|]. intros tr2 [[]|e] Hs2.
  2: { apply tame_ends; [done|]. destruct (is_exhausted e); (apply tame_bind; [apply tame_refusal|intros _; tame]). }
  apply wpa_bind. unfold record. apply wpa_do; [intros stamp|done].
  pose proof (sound_snoc _ _ ENow stamp Hs2 ltac:(simpl; tauto)) as Hs3. apply wpa_do.
  2: { intros _. split; [apply (blown_snoc (E := gw_effects))|]. rewrite accepted_app. destruct Hs3 as [_ Ha].
    apply orb_false_intro; [exact Ha|done]. }
  intros [[]|e].
  2: { apply wpa_ret, wpa_ret. destruct Hs3 as [Hb _]. cbn [ends]. rewrite (blown_app (E := gw_effects)).
    apply orb_false_intro; [exact Hb|done]. }
  apply wpa_do; [intros []|done]. apply wpa_ret, wpa_after_mark. unfold forward. apply (tame_wpa _ true).
  - destruct Hs2 as [Hb Ha]. split.
    + rewrite !(blown_app (E := gw_effects)). by rewrite Hb.
    + rewrite !accepted_app. by rewrite Ha.
  - apply tame_bind; [tame|]. intros [res|e]; [apply tame_call_returned|apply tame_call_failed].
  - by intros tr a [].
  - by split.
Qed.

Lemma finally_ends {A} subject acc (p : prog A) : wpa acc p ends -> wpa acc (finally p (do (ERelease subject))) ends.
Proof.
  intros H. apply wpa_finally. eapply wpa_mono; [|exact H]. intros tr out Hc.
  apply (wpa_trigger (E := gw_effects) tr (ERelease subject)); [|done]. intros [].
  destruct out as [a|d]; cbn [ends] in *; rewrite (blown_app (E := gw_effects)), orb_false_r; [done|].
  rewrite accepted_app, orb_false_r. done.
Qed.

Lemma dispatch_body_ends cfg admitted c name args : wpa [] (dispatch_body cfg admitted c name args) ends.
Proof.
  assert (H0 : sound [] false) by done. unfold dispatch_body.
  apply tame_then; [done|unfold checkBlock; case_bool_decide; [tame|apply tame_readBlock]|]. intros tr1 [[]|e] Hs1.
  2: { apply tame_ends; [done|]. apply tame_bind; [apply tame_refuseBlocked|intros _; tame]. }
  apply tame_then; [done|tame|]. intros tr2 susp Hs2. destruct susp.
  { apply tame_ends; [done|]. apply tame_bind; [apply tame_refusal|intros _; tame]. }
  apply tame_then; [done|tame|]. intros tr3 [[rt up]|] Hs3.
  2: { apply tame_ends; [done|]. apply tame_bind; [apply tame_refusal|intros _; tame]. }
  unfold routed. cbv zeta. apply tame_then; [done|tame|]. intros tr4 ctl Hs4. destruct (Authorize _ _ _).
  2: { apply tame_ends; [done|]. apply tame_bind; [apply tame_refusal|intros _; tame]. }
  apply tame_then; [done|unfold gw_admit; tame|]. intros tr5 [[]|e] Hs5.
  2: { apply tame_ends; [done|]. destruct e; (apply tame_bind; [apply tame_refusal|intros _; tame]). }
  unfold granted. cbv zeta. apply tame_then; [done|unfold readMaintenance; tame|]. intros tr6 maint Hs6.
  apply tame_then; [done|tame|]. intros tr7 now Hs7. apply tame_then; [done|tame|]. intros tr8 v Hs8.
  destruct (availability _ up maint now v) eqn:Hav.
  { apply tame_ends; [done|]. apply tame_bind; [apply tame_refusal|intros _; tame]. }
  apply tame_then; [done|tame|]. intros tr9 [] Hs9; cbn [negb].
  - destruct up as [up|]; [|by destruct (availability_nil (upstream (rt_route rt)) maint now v)].
    by apply finally_ends, with_slot_ends.
  - apply tame_ends; [done|]. apply tame_bind; [apply tame_refusal|intros _; tame].
Qed.

(** The caller a contained panic is recorded under. *)
Definition panic_caller (c : Caller) : Caller :=
  if blank (Subject (CIdentity c))
  then {| CIdentity := {| Subject := unauthenticatedIdentity; IdName := ""; Groups := Groups (CIdentity c) |};
          SourceAddr := SourceAddr c |}
  else c.

Definition panic_row (c : Caller) (name : string) (dispatched : bool) (x : bool * AuditRecord) : Prop :=
  if dispatched then row (panic_caller c) name (targetOf name) OutcomeFailed reasonInternalError x
  else row (panic_caller c) (if blank name then unnamedTool else name) (targetOf name) OutcomeDenied reasonInternalError x.

(** One row more, and not the one that lets a call go. *)
Definition added (tr tr' : list event) (x : bool * AuditRecord) : Prop := grows tr tr' [x] /\ accepted tr' = accepted tr.

Lemma recordPanic_wpa c name d acc :
  wpa acc (recordPanic c name (targetOf name) d)
    (fun tr out => out = Done tt /\ exists x, added acc tr x /\ panic_row c name d x).
Proof.
  unfold recordPanic. cbv zeta. apply wpa_contain.
  assert (H : forall c' tool outcome reason, outcome <> OutcomeAllowed ->
    wpa acc (record true c' tool (targetOf name) outcome reason;;; Ret tt)
      (fun tr out => exists x, (out = Done tt \/ exists d, out = Panicked d) /\ added acc tr x
         /\ row c' tool (targetOf name) outcome reason x)).
  { intros c' tool outcome reason Ho. unfold record. apply wpa_bind. apply wpa_do; [intros now|done].
    set (rec := audit_record c' tool (targetOf name) outcome reason now).
    assert (Hrow : row c' tool (targetOf name) outcome reason (true, rec))
      by (split; [by rewrite bool_decide_eq_false_2|by exists now]).
    apply wpa_do.
    - intros r. pose proof (grows_trans _ _ _ [] _ (grows_snoc acc ENow now) (grows_snoc _ (ERecord true rec) r)) as Hg.
      destruct r as [[]|e].
      + apply wpa_do; [intros []|done]. apply wpa_ret, wpa_ret. exists (true, rec). split_and!; [by left| |done].
        split; [|by rewrite !accepted_app, !orb_false_r].
        exact (grows_trans _ _ _ _ [] Hg (grows_snoc _ (ECount outcome) tt)).
      + apply wpa_ret, wpa_ret. exists (true, rec). split_and!; [by left| |done].
        split; [exact Hg|by rewrite !accepted_app, !orb_false_r].
    - intros _. exists (true, rec). split_and!; [right; eauto| |done]. split; [|by rewrite !accepted_app, !orb_false_r].
      split; [rewrite <- app_assoc; by eexists|]. rewrite attempts_app, attempts_app. by rewrite app_nil_r. }
  assert (Hc : forall p : prog unit, wpa acc p (fun tr out => exists x, (out = Done tt \/ exists d, out = Panicked d) /\ added acc tr x
      /\ panic_row c name d x) ->
    wpa acc p (fun tr out => match out with
      | Done a => Done a = Done tt /\ exists x, added acc tr x /\ panic_row c name d x
      | Panicked _ => wpa tr (Ret tt) (fun tr out => out = Done tt /\ exists x, added acc tr x /\ panic_row c name d x)
      end)).
  { intros p Hp. eapply wpa_mono; [|exact Hp]. intros tr out (x & [->|[d' ->]] & Hg & Hx); [eauto|]. apply wpa_ret. eauto. }
  apply Hc. unfold panic_row. fold (panic_caller c). destruct d.
  - apply (H (panic_caller c) name OutcomeFailed reasonInternalError). discriminate.
  - apply (H (panic_caller c) (if blank name then unnamedTool else name) OutcomeDenied reasonInternalError). discriminate.
Qed.

(** C2 [answer_is_booked]: what the caller is told and what the trail is told agree.  In every run of
    [Dispatch] in which no adapter panics, the rows handed to the audit store are determined by the
    answer: one denied row with that answer's reason when the call was refused; the allowed row alone
    when a result came back, or when the store would not take that very row; the allowed row and one
    failed row classifying what happened when the call failed after it, with at most one health row of
    the gateway's own between them; and none when the caller's context had already ended.  An unknown
    tool and a quarantined one are told the same thing and recorded apart.  Every row names the caller,
    its address, the tool, and the server of the route that was looked up (or of the name as called);
    only the allowed row is written on the caller's own context. *)
Theorem answer_is_booked cfg admitted c name args tr out :
  runs (Dispatch cfg admitted c name args) tr out -> blown tr = false ->
  exists r, out = Done r /\ booked c name tr r (attempts tr).
Proof.
  intros Hr Hb.
  assert (H : wpa [] (Dispatch cfg admitted c name args) (books c name)).
  { unfold Dispatch. apply wpa_contain. eapply wpa_mono; [|apply dispatch_books].
    intros tr1 [a|d] Hc; [done|]. destruct Hc as [Hc|(a & [=] & _)]. unfold wpa. apply (wp_true (E := gw_effects)).
    intros tr2 out2. left. rewrite (blown_app (E := gw_effects)). by rewrite Hc. }
  destruct (wpa_runs _ _ H tr out Hr) as [Hc|H']; [congruence|done].
Qed.

(** C7 [panic_is_contained]: a panic in an adapter's code ends one call and nothing else.  Every run of
    [Dispatch] returns; it returns the internal error exactly when something panicked; and then the
    last row handed to the store is the one [recordPanic] writes, off the caller's context: a failure
    when the store had taken the allowed row, so that the call may have reached its backend, and a
    denial when it had not. *)
Theorem panic_is_contained cfg admitted c name args tr out :
  runs (Dispatch cfg admitted c name args) tr out ->
  exists r, out = Done r
    /\ (r = Err Internal <-> blown tr = true)
    /\ (blown tr = true -> exists rows x, attempts tr = rows ++ [x] /\ panic_row c name (accepted tr) x).
Proof.
  intros Hr.
  assert (H : wpa [] (Dispatch cfg admitted c name args) (fun tr out => exists r, out = Done r
    /\ (blown tr = true -> r = Err Internal)
    /\ (blown tr = true -> exists rows x, attempts tr = rows ++ [x] /\ panic_row c name (accepted tr) x))).
  { unfold Dispatch. apply wpa_contain. eapply wpa_mono; [|apply dispatch_body_ends].
    intros tr1 [a|d] Hc; cbn [ends] in Hc; [exists a; split_and!; [done|congruence|congruence]|].
    destruct Hc as [Hb Ha]. apply wpa_bind. eapply wpa_mono; [|apply recordPanic_wpa].
    intros tr2 out2 [-> (x & [[_ Hat] Hac] & Hx)]. apply wpa_ret. exists (Err Internal). split_and!; [done|done|].
    intros _. exists (attempts tr1), x. split; [done|]. by rewrite Hac, Ha. }
  destruct (wpa_runs _ _ H tr out Hr) as (r & -> & Hi & Hrow). exists r. split_and!; [done|split; [|done]|done].
  intros ->. destruct (blown tr) eqn:Hb; [done|].
  destruct (answer_is_booked cfg admitted c name args tr _ Hr Hb) as (r & [= <-] & []).
Qed.
End trail.

(** ** Witnesses *)

(** The demonstration gateway, with a backend whose adapter panics. *)
Definition demo_blows (e : eff (Effects := gw_effects (SV := demo_schemas))) : reply (ans e) :=
  match e as e0 return reply (gans (SV := demo_schemas) e0) with
  | ECallTool up tool args => Blew
  | e0 => Val (demo_value e0)
  end.

Lemma demo_blows_ok e : ok_reply e (demo_blows e).
Proof. by destruct e. Qed.

Lemma answer_is_booked_witness :
  let tr := (exec demo_answer demo_dispatch).1 in
  map (fun x => (x.1, Outcome x.2, Reason x.2)) (attempts tr) = [(false, OutcomeAllowed, "")]
  /\ exists r, (exec demo_answer demo_dispatch).2 = Done r
       /\ booked (UT := demo_tables) demo_caller demo_call_name tr r (attempts tr).
Proof.
  cbv zeta. split; [vm_compute; reflexivity|].
  apply (answer_is_booked (UT := demo_tables) (PT := demo_print) demo_config None demo_caller demo_call_name "{}" _ _
    (exec_runs demo_answer demo_dispatch demo_answer_ok)). vm_compute. reflexivity.
Defined.

Lemma panic_is_contained_witness :
  let tr := (exec demo_blows demo_dispatch).1 in
  map (fun x => (x.1, Outcome x.2, Reason x.2)) (attempts tr)
    = [(false, OutcomeAllowed, ""); (true, OutcomeFailed, reasonInternalError)]
  /\ exists r, (exec demo_blows demo_dispatch).2 = Done r /\ (r = Err Internal <-> blown tr = true)
       /\ (blown tr = true -> exists rows x, attempts tr = rows ++ [x]
            /\ panic_row (UT := demo_tables) demo_caller demo_call_name (accepted tr) x).
Proof.
  cbv zeta. split; [vm_compute; reflexivity|].
  exact (panic_is_contained (UT := demo_tables) (PT := demo_print) demo_config None demo_caller demo_call_name "{}" _ _
    (exec_runs demo_blows demo_dispatch demo_blows_ok)).
Defined.
