(* ===== verification/DispatchResult.v ===== *)
(** * Theorems about the call path: what a caller gets

    About Dispatch.v.  An answer that carries a result carries one that was checked and scrubbed, and
    the list a caller is shown is the list of what it may call. *)
From Stdlib Require Import ZArith Lia Ascii.
From stdpp Require Import base strings list gmap.
From S2P Require Import Prelude.
From S2P Require Import GoStrings.
From S2P Require Import Visible.
From S2P Require Import GoTime.
From S2P Require Import Json.
From S2P Require Import AuditLog.
From S2P Require Import Quota.
From S2P Require Import Quarantine.
From S2P Require Import Access.
From S2P Require Import Redact.
From S2P Require Import Prog.
From S2P Require Import GatewayTypes.
From S2P Require Import Fleet.
From S2P Require Import Dispatch.
From S2P Require Import DispatchSafety.
From S2P Require Import DispatchTrail.

Section results.
Context `{UT : UnicodeTables} `{PT : PrintTable} `{SV : SchemaValidator}.

(** ** What a result went through *)

Definition is_resolve (e : geff) : Prop := match e with EResolve _ => True | _ => False end.

Definition resolved_here (ev : event) : option (string * string) :=
  match (ev_eff ev : geff) as e return reply (gans e) -> option (string * string) with
  | EResolve name => fun r => match r with Val (Ok v) => Some (name, v) | _ => None end
  | _ => fun _ => None
  end (ev_ans ev).

(** The credentials the vault answered with, in the order they were asked for. *)
Definition resolved (tr : list event) : list (string * string) := omap resolved_here tr.

Lemma resolved_app tr1 tr2 : resolved (tr1 ++ tr2) = resolved tr1 ++ resolved tr2.
Proof. apply omap_app. Qed.

Lemma never_resolved tr : Forall (fun ev => ~ is_resolve (ev_eff ev)) tr -> resolved tr = [].
Proof.
  induction 1 as [|[e r] tr He _ IH]; [done|]. simpl. unfold resolved_here. simpl in *. by destruct e.
Qed.

(** The result the backend gave, and what was done to it. *)
Definition checked (cfg : config) (name args : string) (tr : list event) (res : Result) : Prop :=
  exists rt up raw names h1 h2,
    ok (ELookup name) (Some (rt, Some up)) ∈ tr
    /\ ok (ECallTool up (originalName (rt_route rt)) args) (Ok raw) ∈ tr
    /\ resultSize raw <= maxResultBytes cfg
    /\ (forall s, rt_output rt = Some s -> IsError raw = false ->
         json_valid (StructuredContent raw) = true /\ validates s (StructuredContent raw) = true)
    /\ ok (EEnvNames (upstream (rt_route rt))) names ∈ tr
    /\ (forall n, n ∈ names -> exists r, ok (EResolve n) r ∈ tr)
    /\ scrubJSON (Content raw) (resolved tr) = Ok (Content res, h1)
    /\ scrubJSON (StructuredContent raw) (resolved tr) = Ok (StructuredContent res, h2)
    /\ IsError res = IsError raw.

(** A postcondition about runs that return a result. *)
Definition good (P : list event -> Result -> Prop) (tr : list event) (out : outcome (result gw_error Result)) : Prop :=
  forall res, out = Done (Ok res) -> P tr res.

Lemma good_fails {A} acc (p : prog A) e P : wpa acc (p;;; Ret (Err e)) (good P).
Proof. apply wpa_bind. unfold wpa. apply (wp_true (E := gw_effects)). by intros tr [a|d]. Qed.

(** The trace grew, and resolved nothing. *)
Definition goes (tr tr' : list event) : Prop := tr `prefix_of` tr' /\ resolved tr' = resolved tr.

Lemma goes_trans a b c : goes a b -> goes b c -> goes a c.
Proof. intros [H1 H2] [H3 H4]. split; [by etrans|congruence]. Qed.

Lemma goes_elem tr tr' ev : goes tr tr' -> ev ∈ tr -> ev ∈ tr'.
Proof. intros [H _] ?. by eapply elem_of_prefix. Qed.

Lemma goes_snoc tr (e : geff) x : ~ is_resolve e -> goes tr (tr ++ [ok e x]).
Proof.
  intros He. split; [by eexists|]. rewrite resolved_app. replace (resolved [ok e x]) with (@nil (string * string));
    [by rewrite app_nil_r|]. symmetry. apply never_resolved. by constructor.
Qed.

Lemma good_do acc (e : geff) (f : gans e -> prog (result gw_error Result)) P :
  ~ is_resolve e -> (forall x acc', goes acc acc' -> ok e x ∈ acc' -> wpa acc' (f x) (good P)) ->
  wpa acc (bind (do e) f) (good P).
Proof.
  intros He H. apply wpa_do; [|by intros _ res [=]]. intros x. apply H; [by apply goes_snoc|].
  apply elem_of_app. right. apply list_elem_of_here.
Qed.

Lemma good_bind {A} acc (p : prog A) (f : A -> prog (result gw_error Result)) P :
  never is_resolve p -> (forall acc' a, goes acc acc' -> wpa acc' (f a) (good P)) -> wpa acc (bind p f) (good P).
Proof.
  intros Hn H. apply wpa_bind, (never_wpa (E := gw_effects) is_resolve); [done|]. intros tr [a|d] Htr; [|done].
  apply H. split; [by eexists|]. rewrite resolved_app, (never_resolved _ Htr). by rewrite app_nil_r.
Qed.

(** The credentials a scrub reads, one by one. *)
Lemma resolve_all_wpa names acc :
  wpa acc (resolve_all names) (fun tr out => forall env, out = Done env ->
    acc `prefix_of` tr /\ resolved tr = resolved acc ++ env /\ forall n, n ∈ names -> exists r, ok (EResolve n) r ∈ tr).
Proof.
  revert acc. induction names as [|n names IH]; intros acc; cbn [resolve_all].
  - apply wpa_ret. intros env [= <-]. split_and!; [done|by rewrite app_nil_r|]. by intros n ?%not_elem_of_nil.
  - apply wpa_do; [|by intros _ env [=]]. intros r. apply wpa_bind. eapply wpa_mono; [|apply IH].
    intros tr [env|d] H; [|done]. specialize (H env eq_refl) as (Hp & Hr & Hn).
    assert (Hin : ok (EResolve n) r ∈ tr).
    { eapply elem_of_prefix; [|exact Hp]. apply elem_of_app. right. apply list_elem_of_here. }
    assert (Hpre : acc `prefix_of` tr) by (etrans; [|exact Hp]; by eexists).
    assert (Hns : forall n0, n0 ∈ n :: names -> exists r0, ok (EResolve n0) r0 ∈ tr).
    { intros n0 [->|?]%elem_of_cons; [by exists r|auto]. }
    rewrite resolved_app in Hr. destruct r as [v|e]; apply wpa_ret; intros env' [= <-]; split_and!; try done;
      rewrite Hr, <- app_assoc; done.
Qed.

Lemma scrubJSON_nil raw : scrubJSON raw [] = Ok (raw, []).
Proof.
  unfold scrubJSON. case_bool_decide; [done|]. change (valued []) with (@nil (string * string)). cbn [map]. unfold maskSpans.
  cbn [mark_values]. by replace (existsb id (repeat false (String.length raw))) with false
    by (induction (String.length raw) as [|n IH]; [done|exact IH]).
Qed.

Lemma checkResult_None cfg rt raw :
  checkResult cfg rt raw = None ->
  resultSize raw <= maxResultBytes cfg
  /\ forall s, rt_output rt = Some s -> IsError raw = false ->
       json_valid (StructuredContent raw) = true /\ validates s (StructuredContent raw) = true.
Proof.
  unfold checkResult. destruct (Z.ltb_spec (maxResultBytes cfg) (resultSize raw)); [done|]. intros H1.
  split; [done|]. intros s Hs He. unfold validateStructuredContent in H1. rewrite Hs, He in H1.
  case_bool_decide; [done|]. destruct (json_valid _); [|done]. by destruct (validates s _).
Qed.

Lemma call_returned_checked cfg c name args rt up gw raw acc :
  resolved acc = [] -> ok (ELookup name) (Some (rt, Some up)) ∈ acc ->
  ok (ECallTool up (originalName (rt_route rt)) args) (Ok raw) ∈ acc ->
  wpa acc (call_returned cfg c name rt gw raw) (good (checked cfg name args)).
Proof.
  intros Hr Hl Hc. unfold call_returned. cbv zeta. destruct (checkResult cfg rt raw) as [e|] eqn:Hck.
  { apply wpa_bind. unfold wpa at 1. apply (wp_true (E := gw_effects)). intros tr [[]|d]; [|done].
    destruct (wraps e SResultTooLarge); by apply wpa_ret. }
  apply wpa_bind. unfold scrubResult.
  assert (Hfin : forall tr names s, acc `prefix_of` tr -> ok (EEnvNames (upstream (rt_route rt))) names ∈ tr ->
    (forall n, n ∈ names -> exists r, ok (EResolve n) r ∈ tr) -> scrub_with (resolved tr) raw = s ->
    wpa tr (match s with
      | Err ErrResultUnscrubbable => auditFailure c name (upstream (rt_route rt)) [];;; Ret (Err ResultUnscrubbable)
      | Ok scrubbed => Ret (Ok {| Content := Content scrubbed; StructuredContent := StructuredContent scrubbed;
                                  IsError := IsError scrubbed; Notice := gw |})
      end) (good (checked cfg name args))).
  { intros tr names s Hp Hn Hns Hs. destruct s as [s|[]]; [|apply good_fails].
    apply wpa_ret. intros res [= <-]. unfold scrub_with in Hs.
    destruct (scrubJSON (Content raw) (resolved tr)) as [[c1 h1]|] eqn:H1; [|done].
    cbn in Hs. destruct (scrubJSON (StructuredContent raw) (resolved tr)) as [[c2 h2]|] eqn:H2; [|done].
    cbn in Hs. injection Hs as <-. exists rt, up, raw, names, h1, h2. apply checkResult_None in Hck as [Hsz Hval].
    split_and!; try done; by eapply elem_of_prefix. }
  apply wpa_do; [|by intros _ res [=]]. intros names.
  pose proof (goes_snoc acc (EEnvNames (upstream (rt_route rt))) names ltac:(simpl; tauto)) as [Hp Hr1].
  assert (Hin : ok (EEnvNames (upstream (rt_route rt))) names ∈ acc ++ [ok (EEnvNames (upstream (rt_route rt))) names]).
  { apply elem_of_app. right. apply list_elem_of_here. }
  case_bool_decide as Hnames.
  - apply wpa_ret. apply (Hfin _ names (Ok raw)); [done|done|subst; by intros n ?%not_elem_of_nil|].
    match goal with |- scrub_with ?l _ = _ => replace l with (@nil (string * string)) by (symmetry; exact (eq_trans Hr1 Hr)) end.
    unfold scrub_with. rewrite !scrubJSON_nil. by destruct raw.
  - apply wpa_bind. eapply wpa_mono; [|apply resolve_all_wpa]. intros tr [env|d] H; [|by intros res [=]].
    specialize (H env eq_refl) as (Hp2 & Hr2 & Hn). apply wpa_ret. apply (Hfin _ names (scrub_with env raw)).
    + by etrans.
    + by eapply elem_of_prefix.
    + intros n Hin'. apply Hn. by apply elem_of_sort_strings.
    + rewrite Hr2. f_equal. exact (f_equal (.++ env) (eq_trans Hr1 Hr)).
Qed.

Lemma checked_goes cfg name args tr tr' res : goes tr tr' -> checked cfg name args tr res -> checked cfg name args tr' res.
Proof.
  intros Hg (rt & up & raw & names & h1 & h2 & Hl & Hc & Hk & Hv & Hn & Hns & H1 & H2 & He).
  exists rt, up, raw, names, h1, h2. destruct Hg as [Hp Hr]. rewrite Hr.
  split_and!; try done; try (by eapply elem_of_prefix). intros n Hin. destruct (Hns n Hin) as [r Hr']. exists r.
  by eapply elem_of_prefix.
Qed.

Ltac never_resolve :=
  repeat first
    [ apply never_bind; [|intros]
    | apply never_do; simpl; tauto
    | exact I
    | match goal with |- never _ (match ?x with _ => _ end) => destruct x end
    | match goal with |- never _ (if ?x then _ else _) => destruct x end ].

Lemma call_failed_good cfg c name server up now gw e acc P : wpa acc (call_failed cfg c name server up now gw e) (good P).
Proof.
  unfold call_failed. cbv zeta. apply wpa_bind. unfold wpa at 1. apply (wp_true (E := gw_effects)). intros tr [[]|d]; [|done].
  apply wpa_bind. unfold wpa at 1. apply (wp_true (E := gw_effects)). intros tr2 [[]|d]; [|done].
  destruct (wraps e SUpstreamGone); [apply wpa_do; [intros v; by apply wpa_ret|done]|].
  destruct (wraps e SDeadlineExceeded); [apply wpa_do; [intros [x|]; by apply wpa_ret|done]|].
  destruct (wraps e SCanceled || wraps e SInternal); by apply wpa_ret.
Qed.

Lemma with_slot_checked cfg c name ctl rt up now gw args acc :
  resolved acc = [] -> ok (ELookup name) (Some (rt, Some up)) ∈ acc ->
  wpa acc (with_slot cfg c name ctl rt (Some up) now gw args) (good (checked cfg name args)).
Proof.
  intros Hr Hl. unfold with_slot. cbv zeta.
  apply good_do; [simpl; tauto|]. intros at_ acc1 Hg1 _. apply good_do; [simpl; tauto|]. intros [[]|e] acc2 Hg2 _.
  2: { destruct (is_exhausted e); apply good_fails. }
  apply good_bind; [unfold record; never_resolve|]. intros acc3 [[]|e] Hg3; [|by apply wpa_ret].
  pose proof (goes_trans _ _ _ (goes_trans _ _ _ Hg1 Hg2) Hg3) as Hg.
  apply wpa_after_mark. unfold forward. eapply wpa_mono with (P := good (checked cfg name args)).
  { intros tr [a|d] H; [exact H|by intros res [=]]. }
  apply good_do; [simpl; tauto|]. intros [res|e] acc4 Hg4 Hc.
  - apply (call_returned_checked _ _ _ _ _ up); [|by eapply goes_elem, goes_elem|done].
    destruct (goes_trans _ _ _ Hg Hg4) as [_ ->]. done.
  - apply call_failed_good.
Qed.

Lemma finally_checked cfg name args subject acc p :
  wpa acc p (good (checked cfg name args)) -> wpa acc (finally p (do (ERelease subject))) (good (checked cfg name args)).
Proof.
  intros H. apply wpa_finally. eapply wpa_mono; [|exact H]. intros tr out Hc.
  apply (wpa_trigger (E := gw_effects) tr (ERelease subject)); [|by intros _ res [=]]. intros [] res ->.
  eapply checked_goes; [|by apply Hc]. apply goes_snoc. simpl. tauto.
Qed.

Lemma routed_checked cfg c name rt up args acc :
  resolved acc = [] -> ok (ELookup name) (Some (rt, up)) ∈ acc ->
  wpa acc (routed cfg c name rt up args) (good (checked cfg name args)).
Proof.
  intros Hr Hl. unfold routed. cbv zeta. apply good_do; [simpl; tauto|]. intros ctl acc1 Hg1 _.
  destruct (Authorize _ _ _); [|apply good_fails].
  apply good_bind; [unfold gw_admit; never_resolve|]. intros acc2 [[]|e] Hg2; [|destruct e; apply good_fails].
  unfold granted. cbv zeta. apply good_bind; [unfold readMaintenance; never_resolve|]. intros acc3 maint Hg3.
  apply good_do; [simpl; tauto|]. intros now acc4 Hg4 _. apply good_do; [simpl; tauto|]. intros v acc5 Hg5 _.
  destruct (availability _ up maint now v) eqn:Hav; [apply good_fails|].
  apply good_do; [simpl; tauto|]. intros [] acc6 Hg6 _; cbn [negb]; [|apply good_fails].
  destruct up as [up|]; [|by destruct (availability_nil (upstream (rt_route rt)) maint now v)].
  pose proof (goes_trans _ _ _ Hg1 (goes_trans _ _ _ Hg2 (goes_trans _ _ _ Hg3 (goes_trans _ _ _ Hg4 (goes_trans _ _ _ Hg5 Hg6))))) as Hg.
  apply finally_checked, with_slot_checked; [|by eapply goes_elem]. by destruct Hg as [_ ->].
Qed.

(** C11 [result_is_checked]: what reaches the caller.  When [Dispatch] returns a result, a backend gave
    one for the routed tool with the caller's arguments, of at most [maxResultBytes] bytes and, where
    the tool declares an output schema, structured content that it validates; and what is returned is
    that result, both parts scrubbed of the credentials the vault answered with, after every credential
    configured for that backend was asked for.  A result that fails a check, or that scrubbing breaks,
    is never returned. *)
Theorem result_is_checked cfg admitted c name args tr res :
  runs (Dispatch cfg admitted c name args) tr (Done (Ok res)) ->
  checked cfg name args tr res.
Proof.
  intros Hr.
  assert (H : wpa [] (Dispatch cfg admitted c name args) (good (checked cfg name args))).
  { unfold Dispatch. apply wpa_contain. eapply wpa_mono with (P := good (checked cfg name args)).
    { intros tr1 [a|d] Hc; [exact Hc|apply good_fails]. }
    unfold dispatch_body. apply good_bind; [unfold checkBlock, readBlock; never_resolve|].
    intros acc1 [[]|e] Hg1; [|apply good_fails].
    apply good_do; [simpl; tauto|]. intros susp acc2 Hg2 _. destruct susp; [apply good_fails|].
    apply good_do; [simpl; tauto|]. intros [[rt up]|] acc3 Hg3 Hl; [|apply good_fails].
    apply routed_checked; [|done]. by destruct (goes_trans _ _ _ Hg1 (goes_trans _ _ _ Hg2 Hg3)) as [_ ->]. }
  exact (wpa_runs _ _ H tr _ Hr res eq_refl).
Qed.

(** ** The list a caller is shown *)

(** What a row of the routing table looks like to [id], with the quarantine answering [q]. *)
Definition shown (q : string -> string -> result foreign Quarantine.Tool) (policy : Policy) (id : Identity)
  (entry : string * routedTool) : option ToolDef :=
  let '(name, rt) := entry in
  match Authorize policy id name, q (upstream (rt_route rt)) (originalName (rt_route rt)) with
  | Ok _, Ok t =>
      match gate_tool policy id name t (rt_def rt) with GateOk => Some (listed_def name rt) | _ => None end
  | _, _ => None
  end.

(** Every read of the quarantine was answered by [q]. *)
Definition answered (q : string -> string -> result foreign Quarantine.Tool) (tr : list event) : Prop :=
  forall server tool r, ok (EQuarGet server tool) r ∈ tr -> r = q server tool.

Lemma list_each_shown q policy id routes out acc :
  wpa acc (list_each policy id routes out) (fun tr o => forall defs, o = Done (Ok defs) ->
    acc `prefix_of` tr /\ (answered q tr -> defs = out ++ omap (shown q policy id) routes)).
Proof.
  revert acc out. induction routes as [|[name rt] routes IH]; intros acc out; cbn [list_each].
  { apply wpa_ret. intros defs [= <-]. split; [done|]. intros _. by rewrite app_nil_r. }
  destruct (Authorize policy id name) as [[]|e] eqn:Ha.
  2: { eapply wpa_mono; [|apply IH]. intros tr o H defs Hd. destruct (H defs Hd) as [Hp Hq]. split; [done|].
       intros Hans. rewrite (Hq Hans). simpl. by rewrite Ha. }
  apply wpa_bind. unfold gw_admit. apply wpa_do; [|by intros _ defs [=]]. intros r.
  assert (Hin : ok (EQuarGet (upstream (rt_route rt)) (originalName (rt_route rt))) r
    ∈ acc ++ [ok (EQuarGet (upstream (rt_route rt)) (originalName (rt_route rt))) r]).
  { apply elem_of_app. right. apply list_elem_of_here. }
  assert (Hgo : forall out', (answered q (acc ++ [ok (EQuarGet (upstream (rt_route rt)) (originalName (rt_route rt))) r]) ->
      out' = out ++ match shown q policy id (name, rt) with Some d => [d] | None => [] end) ->
    wpa (acc ++ [ok (EQuarGet (upstream (rt_route rt)) (originalName (rt_route rt))) r]) (list_each policy id routes out')
      (fun tr o => forall defs, o = Done (Ok defs) ->
        acc `prefix_of` tr /\ (answered q tr -> defs = out ++ omap (shown q policy id) ((name, rt) :: routes)))).
  { intros out' Ho. eapply wpa_mono; [|apply IH]. intros tr o H defs Hd. destruct (H defs Hd) as [Hp Hq].
    split; [etrans; [|exact Hp]; by eexists|]. intros Hans. rewrite (Hq Hans), Ho.
    - rewrite <- app_assoc. f_equal. cbn [omap]. destruct (shown q policy id (name, rt)) eqn:Hsh; simpl in *; by rewrite Hsh.
    - intros server tool r' Hr'. apply Hans. by eapply elem_of_prefix. }
  assert (Hq : answered q (acc ++ [ok (EQuarGet (upstream (rt_route rt)) (originalName (rt_route rt))) r]) ->
    q (upstream (rt_route rt)) (originalName (rt_route rt)) = r) by (intros Hans; symmetry; by apply Hans).
  destruct r as [t|e].
  - destruct (gate_tool policy id name t (rt_def rt)) eqn:Hg; apply wpa_ret, Hgo; intros Hans; specialize (Hq Hans);
      cbn [shown]; rewrite Ha, Hq, Hg; by rewrite ?app_nil_r.
  - destruct (wraps e SNotFound); apply wpa_ret; [|by apply wpa_ret].
    apply Hgo. intros Hans. specialize (Hq Hans). cbn [shown]. rewrite Ha, Hq. by rewrite app_nil_r.
Qed.

(** C23 [ListTools_exact]: what a caller is shown is what the caller may call.  A [ListTools] that
    answers has read one routing table, one policy and the quarantine, and returns, in the order of
    the names, exactly the tools of that table that pass the gates [Dispatch] puts before a call: the
    policy grants the name, the quarantine row is usable, and a tool that acts is named by a non-read
    role.  Nothing of an output schema or a class is shown.  A caller that is blocked, and a fleet that
    is suspended, are shown nothing. *)
Theorem ListTools_exact q admitted id tr defs :
  runs (ListTools admitted id) tr (Done (Ok defs)) -> answered q tr ->
  exists routes ctl, ok ERoutes routes ∈ tr /\ ok EControls ctl ∈ tr /\ ok ESuspended false ∈ tr
    /\ (admitted = Some (Subject id) \/ ok (EBlocked (Subject id)) (Ok false) ∈ tr)
    /\ defs = omap (shown q (ctl_policy ctl) id) (sort_by fst routes).
Proof.
  intros Hr.
  assert (H : wpa [] (ListTools admitted id) (fun tr o => forall defs, o = Done (Ok defs) -> answered q tr ->
    exists routes ctl, ok ERoutes routes ∈ tr /\ ok EControls ctl ∈ tr /\ ok ESuspended false ∈ tr
    /\ (admitted = Some (Subject id) \/ ok (EBlocked (Subject id)) (Ok false) ∈ tr)
    /\ defs = omap (shown q (ctl_policy ctl) id) (sort_by fst routes))).
  { unfold ListTools. apply wpa_bind. unfold checkBlock.
    assert (Hrest : forall acc, (admitted = Some (Subject id) \/ ok (EBlocked (Subject id)) (Ok false) ∈ acc) ->
      wpa acc (suspended <- do ESuspended;;
        if (suspended : bool) then Ret (Err RegistryUnavailable)
        else routes <- do ERoutes;; ctl <- do EControls;; list_each (ctl_policy ctl) id (sort_by fst routes) [])
       (fun tr o => forall defs, o = Done (Ok defs) -> answered q tr ->
    exists routes ctl, ok ERoutes routes ∈ tr /\ ok EControls ctl ∈ tr /\ ok ESuspended false ∈ tr
    /\ (admitted = Some (Subject id) \/ ok (EBlocked (Subject id)) (Ok false) ∈ tr)
    /\ defs = omap (shown q (ctl_policy ctl) id) (sort_by fst routes))).
    { intros acc Hb. apply wpa_do; [|by intros _ ? [=]]. intros []; [by apply wpa_ret|].
      apply wpa_do; [|by intros _ ? [=]]. intros routes. apply wpa_do; [|by intros _ ? [=]]. intros ctl.
      eapply wpa_mono; [|apply (list_each_shown q)]. intros tr' o Ho defs' Hd Hans.
      destruct (Ho defs' Hd) as [Hp Hq]. exists routes, ctl.
      assert (Hin : forall ev, ev ∈ (((acc ++ [ok ESuspended false]) ++ [ok ERoutes routes]) ++ [ok EControls ctl]) -> ev ∈ tr')
        by (intros ev Hev; by eapply elem_of_prefix).
      split_and!; try (apply Hin; rewrite !elem_of_app, !list_elem_of_singleton; tauto); [|by rewrite (Hq Hans)].
      destruct Hb as [Hb|Hb]; [by left|right]. apply Hin. rewrite !elem_of_app. tauto. }
    case_bool_decide; [apply wpa_ret, Hrest; by left|]. unfold readBlock.
    apply wpa_do; [|by intros _ ? [=]]. intros [x|]; [by apply wpa_ret, wpa_ret|].
    apply wpa_do; [|by intros _ ? [=]]. intros [[]|e].
    - by apply wpa_ret, wpa_ret.
    - apply wpa_ret, Hrest. right. apply elem_of_app. right. apply list_elem_of_here.
    - apply wpa_do; [|by intros _ ? [=]]. intros [x|]; by apply wpa_ret, wpa_ret. }
  by apply (wpa_runs _ _ H tr _ Hr).
Qed.
End results.

(** ** Witnesses *)

(** The demonstration gateway, with a credential that the backend's answer repeats. *)
Definition demo_leak : Result :=
  {| Content := "{" +:+ dquote +:+ "a" +:+ dquote +:+ ":" +:+ dquote +:+ "is secret-value" +:+ dquote +:+ "}";
     StructuredContent := ""; IsError := false; Notice := None |}.

Definition demo_leaky (e : eff (Effects := gw_effects (SV := demo_schemas))) : reply (ans e) :=
  match e as e0 return reply (gans (SV := demo_schemas) e0) with
  | ECallTool up tool args => Val (Ok demo_leak)
  | EEnvNames server => Val ["API_KEY"]
  | e0 => Val (demo_value e0)
  end.

Lemma demo_leaky_ok e : ok_reply e (demo_leaky e).
Proof. by destruct e. Qed.

Lemma result_is_checked_witness :
  exists res, (exec demo_leaky demo_dispatch).2 = Done (Ok res)
    /\ Content res = "{" +:+ dquote +:+ "a" +:+ dquote +:+ ":" +:+ dquote +:+ "is " +:+ redacted +:+ dquote +:+ "}"
    /\ checked (PT := demo_print) (SV := demo_schemas) demo_config demo_call_name "{}" (exec demo_leaky demo_dispatch).1 res.
Proof.
  assert (Ho : match (exec demo_leaky demo_dispatch).2 with
               | Done (Ok res) => bool_decide (Content res = "{" +:+ dquote +:+ "a" +:+ dquote +:+ ":" +:+ dquote +:+ "is " +:+ redacted +:+ dquote +:+ "}")
               | _ => false end = true) by (vm_compute; reflexivity).
  pose proof (exec_runs demo_leaky demo_dispatch demo_leaky_ok) as Hr.
  destruct (exec demo_leaky demo_dispatch).2 as [[res|e]|d]; [|discriminate|discriminate].
  exists res. split; [reflexivity|]. split; [exact (bool_decide_eq_true_1 _ Ho)|].
  exact (result_is_checked (UT := demo_tables) (PT := demo_print) demo_config None demo_caller demo_call_name "{}" _ res Hr).
Defined.

Definition demo_list : prog (E := gw_effects (SV := demo_schemas)) (result gw_error (list ToolDef)) :=
  ListTools (SV := demo_schemas) None ana.

Lemma demo_list_answered : answered (fun _ _ => Ok demo_tool) (exec demo_answer demo_list).1.
Proof.
  intros server tool r Hin. apply (exec_answers demo_answer) in Hin. injection Hin as Hin. exact Hin.
Qed.

Lemma ListTools_exact_witness :
  (exec demo_answer demo_list).2 = Done (Ok [listed_def demo_call_name demo_route])
  /\ exists routes ctl, ok ERoutes routes ∈ (exec demo_answer demo_list).1
       /\ [listed_def demo_call_name demo_route]
          = omap (shown (fun _ _ => Ok demo_tool) (ctl_policy ctl) ana) (sort_by fst routes).
Proof.
  assert (Ho : (exec demo_answer demo_list).2 = Done (Ok [listed_def demo_call_name demo_route])) by (vm_compute; reflexivity).
  split; [exact Ho|]. pose proof (exec_runs demo_answer demo_list demo_answer_ok) as Hr. rewrite Ho in Hr.
  destruct (ListTools_exact (SV := demo_schemas) (fun _ _ => Ok demo_tool) None ana _ _ Hr demo_list_answered)
    as (routes & ctl & H1 & _ & _ & _ & H2).
  exists routes, ctl. split; [exact H1|exact H2].
Defined.
