(* ===== verification/CallSlots.v ===== *)
(** * The per-analyst concurrency cap ([internal/gateway/resilience.go])

    [callSlots] and, over any interleaving of any number of [Dispatch] calls, the property it exists
    for: an analyst never has more calls at the backends than the cap, and every slot taken is given
    back, whatever the call's fate. *)
From Stdlib Require Import ZArith Lia Ascii Wellfounded.Inverse_Image.
From stdpp Require Import base strings list gmap.
From S2P Require Import Prelude.
From S2P Require Import Visible.
From S2P Require Import GoTime.
From S2P Require Import AuditLog.
From S2P Require Import Quota.
From S2P Require Import Quarantine.
From S2P Require Import Access.
From S2P Require Import Redact.
From S2P Require Import Prog.
From S2P Require Import GatewayTypes.
From S2P Require Import Fleet.
From S2P Require Import Dispatch.
From S2P Require Import DispatchSafety.

Definition DefaultMaxConcurrentCallsPerAnalyst : Z := 4.

Abbreviation slots := (gmap string Z).

Definition in_use (m : slots) (subject : string) : Z := default 0 (m !! subject).

Definition acquire (max : Z) (m : slots) (subject : string) : slots * bool :=
  if max <=? in_use m subject then (m, false) else (<[subject := in_use m subject + 1]> m, true).

(** The func [acquire] returned, called once. *)
Definition release (m : slots) (subject : string) : slots :=
  let n := in_use m subject - 1 in
  if n <=? 0 then delete subject m else <[subject := n]> m.

Lemma in_use_acquire max m s m' :
  acquire max m s = (m', true) ->
  in_use m s < max /\ forall s', in_use m' s' = in_use m s' + (if decide (s' = s) then 1 else 0).
Proof.
  unfold acquire. destruct (Z.leb_spec max (in_use m s)); intros [= <-]. split; [done|].
  intros s'. unfold in_use. case_decide as Hs; [subst; by rewrite lookup_insert_eq|].
  rewrite lookup_insert_ne by done. lia.
Qed.

Lemma in_use_release m s s' :
  (forall n, m !! s = Some n -> 1 <= n) -> is_Some (m !! s) ->
  in_use (release m s) s' = in_use m s' - (if decide (s' = s) then 1 else 0).
Proof.
  intros Hp [n Hn]. pose proof (Hp n Hn). assert (Hin : in_use m s = n) by (unfold in_use; by rewrite Hn).
  unfold release. rewrite Hin. cbv zeta. destruct (Z.leb_spec (n - 1) 0), (decide (s' = s)) as [->|Hs];
    rewrite ?Hin; unfold in_use.
  - rewrite lookup_delete_eq. simpl. lia.
  - rewrite lookup_delete_ne by done. lia.
  - rewrite lookup_insert_eq. simpl. lia.
  - rewrite lookup_insert_ne by done. lia.
Qed.

(** Every entry stands for a call in flight. *)
Definition positive (m : slots) : Prop := forall s n, m !! s = Some n -> 1 <= n.

Lemma positive_acquire max m s m' b : 0 <= in_use m s -> positive m -> acquire max m s = (m', b) -> positive m'.
Proof.
  intros H0 Hp. unfold acquire. destruct (max <=? in_use m s); intros [= <- <-]; [done|].
  intros s' n. destruct (decide (s' = s)) as [->|Hne].
  - rewrite lookup_insert_eq. intros [= <-]. lia.
  - rewrite lookup_insert_ne by done. apply Hp.
Qed.

Lemma positive_release m s : positive m -> positive (release m s).
Proof.
  intros Hp s' n. unfold release. destruct (Z.leb_spec (in_use m s - 1) 0); destruct (decide (s' = s)) as [->|Hne].
  - by rewrite lookup_delete_eq.
  - rewrite lookup_delete_ne by done. apply Hp.
  - rewrite lookup_insert_eq. intros [= <-]. lia.
  - rewrite lookup_insert_ne by done. apply Hp.
Qed.

Section discipline.
Context `{UT : UnicodeTables} `{PT : PrintTable} `{SV : SchemaValidator}.

(** ** Programs that hold a slot when they call, and give it back

    From holding ([h]) or not, a program ends holding or not ([h']), takes and gives back only the
    slot of [s], and calls a backend only while holding it. *)
Fixpoint disciplined {A} (s : string) (h h' : bool) (p : prog A) : Prop :=
  match p with
  | Ret _ | Panic _ => h = h'
  | Vis e k =>
      match e as e0 return (reply (gans e0) -> prog A) -> Prop with
      | EAcquire s' => fun k => h = false /\ s' = s /\ forall b, disciplined s b h' (k (Val b))
      | ERelease s' => fun k => h = true /\ s' = s /\ disciplined s false h' (k (Val tt))
      | ECallTool _ _ _ => fun k => h = true /\ forall r, disciplined s h h' (k r)
      | _ => fun k => forall r, disciplined s h h' (k r)
      end k
  end.

Lemma disciplined_never {A} s h (p : prog A) : never slot_or_call p -> disciplined s h h p.
Proof.
  induction p as [a|d|e k IH]; cbn; [done|done|]. intros [He Hk].
  destruct e; cbn in *; try tauto; intros r; by apply IH.
Qed.

Lemma disciplined_bind {A B} s h (p : prog A) (f : A -> prog B) :
  disciplined s h h p -> (forall a, disciplined s h h (f a)) -> disciplined s h h (bind p f).
Proof.
  intros Hp Hf. revert Hp. generalize h at 1 3 as h0. induction p as [a|d|e k IH]; intros h0 Hp; cbn in *.
  - by subst.
  - done.
  - destruct e; cbn in *; try (intros r; by apply IH); try (destruct Hp as [? Hp]; split; [done|]; intros r; by apply IH).
    + destruct Hp as (? & ? & Hp). split_and!; [done|done|]. intros b. by apply IH.
    + destruct Hp as (? & ? & Hp). split_and!; [done|done|]. by apply IH.
Qed.

Lemma disciplined_contain {A} s h (p : prog A) f :
  disciplined s h h p -> (forall d, disciplined s h h (f d)) -> disciplined s h h (contain p f).
Proof.
  intros Hp Hf. revert Hp. generalize h at 1 3 as h0. induction p as [a|d|e k IH]; intros h0 Hp; cbn in *.
  - done.
  - by subst.
  - destruct e; cbn in *; try (intros r; by apply IH); try (destruct Hp as [? Hp]; split; [done|]; intros r; by apply IH).
    + destruct Hp as (? & ? & Hp). split_and!; [done|done|]. intros b. by apply IH.
    + destruct Hp as (? & ? & Hp). split_and!; [done|done|]. by apply IH.
Qed.

Lemma disciplined_after_mark {A} s h h' (p : prog A) : disciplined s h h' p -> disciplined s h h' (after_mark p).
Proof.
  revert h. induction p as [a|d|e k IH]; intros h0 Hp; cbn in *; [done|done|].
  destruct e; cbn in *; try (intros r; by apply IH); try (destruct Hp as [? Hp]; split; [done|]; intros r; by apply IH).
  - destruct Hp as (? & ? & Hp). split_and!; [done|done|]. intros b. by apply IH.
  - destruct Hp as (? & ? & Hp). split_and!; [done|done|]. by apply IH.
Qed.

(** [defer release()] around a program that keeps the slot. *)
Lemma disciplined_release {A} s (p : prog A) :
  disciplined s true true p -> disciplined s true false (finally p (do (ERelease s))).
Proof.
  generalize true at 1 3 as h0. induction p as [a|d|e k IH]; intros h0 Hp; cbn in *.
  - by subst.
  - by subst.
  - destruct e; cbn in *; try (intros r; by apply IH); try (destruct Hp as [? Hp]; split; [done|]; intros r; by apply IH).
    + destruct Hp as (? & ? & Hp). split_and!; [done|done|]. intros b. by apply IH.
    + destruct Hp as (? & ? & Hp). split_and!; [done|done|]. by apply IH.
Qed.

Lemma disciplined_do {A} s h h' (e : geff) (f : gans e -> prog A) :
  ~ slot_or_call e -> h = h' -> (forall x, disciplined s h h' (f x)) -> disciplined s h h' (bind (do e) f).
Proof. intros He Hh Hf. destruct e; cbn in *; try tauto; intros [x|]; try apply Hf; done. Qed.

Ltac walk :=
  repeat first
    [ done
    | apply disciplined_never; solve [by apply never_auditRefusal | by apply never_auditFailure
        | by apply never_recordPanic | by apply never_refuseBlocked | by apply never_call_failed
        | by apply never_call_returned | by apply never_record | by apply never_readBlock ]
    | apply disciplined_do; [simpl; tauto|done|intro]
    | apply disciplined_bind; [|intro]
    | match goal with |- disciplined _ _ _ (match ?x with _ => _ end) => destruct x end
    | match goal with |- disciplined _ _ _ (if ?x then _ else _) => destruct x end ].

Lemma forward_disciplined s cfg c name rt up now gw args :
  disciplined s true true (forward cfg c name rt up now gw args).
Proof.
  unfold forward. destruct up as [u|]; [|done]. cbn. split; [done|].
  intros [[res|e]|]; [apply disciplined_never; by apply never_call_returned
    |apply disciplined_never; by apply never_call_failed|done].
Qed.

Lemma with_slot_disciplined s cfg c name ctl rt up now gw args :
  disciplined s true true (with_slot cfg c name ctl rt up now gw args).
Proof.
  unfold with_slot. cbv zeta. apply disciplined_do; [simpl; tauto|done|intros at_].
  apply disciplined_do; [simpl; tauto|done|intros [[]|e]]; [|walk].
  apply disciplined_bind; [apply disciplined_never; by apply never_record|]. intros [[]|e]; [|done].
  apply disciplined_after_mark, forward_disciplined.
Qed.

Lemma granted_disciplined cfg c name ctl rt up args :
  disciplined (Subject (CIdentity c)) false false (granted cfg c name ctl rt up args).
Proof.
  unfold granted. cbv zeta. apply disciplined_bind; [unfold readMaintenance; walk|intros maint].
  apply disciplined_do; [simpl; tauto|done|intros now]. apply disciplined_do; [simpl; tauto|done|intros v].
  destruct (availability _ _ _ _ _); [walk|]. cbn [bind do trigger disciplined]. split_and!; [done|done|].
  intros []; cbn [negb]; [|walk]. apply disciplined_release, with_slot_disciplined.
Qed.

(** Every [Dispatch] keeps the discipline, from start to end. *)
Lemma Dispatch_disciplined cfg admitted c name args :
  disciplined (Subject (CIdentity c)) false false (Dispatch cfg admitted c name args).
Proof.
  unfold Dispatch. apply disciplined_contain; [|intros d; walk].
  unfold dispatch_body. apply disciplined_bind; [unfold checkBlock; walk|]. intros [[]|e]; [|walk].
  apply disciplined_do; [simpl; tauto|done|intros susp]. destruct susp; [walk|].
  apply disciplined_do; [simpl; tauto|done|intros [[rt up]|]]; [|walk].
  unfold routed. cbv zeta. apply disciplined_do; [simpl; tauto|done|intros ctl].
  destruct (Authorize _ _ _); [|walk]. apply disciplined_bind; [unfold gw_admit; walk|].
  intros [[]|e]; [apply granted_disciplined|walk].
Qed.

(** ** Any number of calls, interleaved

    A server is the slot table and the calls in progress, each at some point of its program.  A step
    lets one call perform its next effect: the slot operations act on the table, every other effect is
    answered by the environment.  A call waiting for a backend is one whose next effect is the call. *)
Abbreviation thread := (string * prog (result gw_error Result))%type.

Record server := { sv_slots : slots; sv_threads : list thread }.

(** The effects the slot table has no part in. *)
Definition slot_free (e : geff) : Prop := match e with EAcquire _ | ERelease _ => False | _ => True end.

(** One call performs its next effect, or ends. *)
Inductive work (max : Z) : server -> server -> Prop :=
| work_acquire m m' b l1 l2 s s' k :
    acquire max m s' = (m', b) ->
    work max {| sv_slots := m; sv_threads := l1 ++ (s, Vis (EAcquire s' : eff) k) :: l2 |}
      {| sv_slots := m'; sv_threads := l1 ++ (s, k (Val (b : ans (EAcquire s' : eff)))) :: l2 |}
| work_release m l1 l2 s s' k :
    work max {| sv_slots := m; sv_threads := l1 ++ (s, Vis (ERelease s' : eff) k) :: l2 |}
      {| sv_slots := release m s'; sv_threads := l1 ++ (s, k (Val (tt : ans (ERelease s' : eff)))) :: l2 |}
| work_other m l1 l2 s (e : eff) k r :
    slot_free (e : geff) -> ok_reply e r ->
    work max {| sv_slots := m; sv_threads := l1 ++ (s, Vis e k) :: l2 |}
      {| sv_slots := m; sv_threads := l1 ++ (s, k r) :: l2 |}
| work_done m l1 l2 s a :
    work max {| sv_slots := m; sv_threads := l1 ++ (s, Ret a) :: l2 |} {| sv_slots := m; sv_threads := l1 ++ l2 |}
| work_died m l1 l2 s d :
    work max {| sv_slots := m; sv_threads := l1 ++ (s, Panic d) :: l2 |} {| sv_slots := m; sv_threads := l1 ++ l2 |}.

(** Or another call arrives. *)
Inductive step (max : Z) : server -> server -> Prop :=
| step_spawn m l cfg admitted c name args :
    step max {| sv_slots := m; sv_threads := l |}
      {| sv_slots := m; sv_threads := l ++ [(Subject (CIdentity c), Dispatch cfg admitted c name args)] |}
| step_work sv sv' : work max sv sv' -> step max sv sv'.

Definition calling (p : prog (result gw_error Result)) : bool :=
  match p with
  | Vis e _ => match (e : geff) with ECallTool _ _ _ => true | _ => false end
  | _ => false
  end.

(** The calls of [s] waiting for a backend. *)
Fixpoint in_flight (s : string) (l : list thread) : Z :=
  match l with
  | [] => 0
  | (s', p) :: l' => (if bool_decide (s' = s) && calling p then 1 else 0) + in_flight s l'
  end.

(** Who holds a slot, thread by thread. *)
Fixpoint holders (s : string) (l : list thread) (hs : list bool) : Z :=
  match l, hs with
  | (s', _) :: l', h :: hs' => (if bool_decide (s' = s) && h then 1 else 0) + holders s l' hs'
  | _, _ => 0
  end.

Definition keeps (t : thread) (h : bool) : Prop := disciplined t.1 h false t.2.

Definition accounted (max : Z) (sv : server) : Prop :=
  positive (sv_slots sv) /\ (forall s, in_use (sv_slots sv) s <= Z.max 0 max)
  /\ exists hs, Forall2 keeps (sv_threads sv) hs
       /\ forall s, in_use (sv_slots sv) s = holders s (sv_threads sv) hs.

Lemma holders_app s l1 l2 hs1 hs2 :
  length l1 = length hs1 -> holders s (l1 ++ l2) (hs1 ++ hs2) = holders s l1 hs1 + holders s l2 hs2.
Proof.
  revert hs1. induction l1 as [|[s' p] l1 IH]; intros [|h hs1] Hl; simpl in *; try lia. rewrite IH by lia. lia.
Qed.

Lemma holders_bounds s l hs : 0 <= holders s l hs.
Proof. revert hs. induction l as [|[s' p] l IH]; intros [|h hs]; simpl; try lia. specialize (IH hs). case_match; lia. Qed.

Lemma in_flight_holders s l hs : Forall2 keeps l hs -> in_flight s l <= holders s l hs.
Proof.
  induction 1 as [|[s' p] h l hs Hk _ IH]; simpl; [lia|]. unfold keeps in Hk. simpl in Hk.
  destruct (bool_decide (s' = s)); simpl; [|lia].
  assert (0 <= (if h then 1 else 0)) by (by destruct h).
  destruct p as [a|d|e k]; simpl; [lia|lia|].
  destruct e; simpl in *; try lia. destruct Hk as [-> _]. lia.
Qed.

Lemma accounted_middle max m l1 l2 s p :
  accounted max {| sv_slots := m; sv_threads := l1 ++ (s, p) :: l2 |} ->
  positive m /\ (forall s, in_use m s <= Z.max 0 max) /\ exists hs1 h hs2,
    Forall2 keeps l1 hs1 /\ Forall2 keeps l2 hs2 /\ disciplined s h false p
    /\ forall s', in_use m s' = holders s' l1 hs1 + (if bool_decide (s = s') && h then 1 else 0) + holders s' l2 hs2.
Proof.
  intros (Hp & Hb & hs & Hk & Hu). cbn [sv_slots sv_threads] in *. split; [done|]. split; [done|].
  apply Forall2_app_inv_l in Hk as (hs1 & hs' & Hk1 & Hk' & ->).
  apply Forall2_cons_inv_l in Hk' as (h & hs2 & Hk & Hk2 & ->).
  exists hs1, h, hs2. split_and!; [done|done|done|]. intros s'. rewrite Hu, holders_app by (by eapply Forall2_length).
  simpl. lia.
Qed.

Lemma accounted_replace max m m' l1 l2 s p' h h' hs1 hs2 :
  Forall2 keeps l1 hs1 -> Forall2 keeps l2 hs2 -> disciplined s h' false p' ->
  positive m' -> (forall s', in_use m' s' <= Z.max 0 max) ->
  (forall s', in_use m s' = holders s' l1 hs1 + (if bool_decide (s = s') && h then 1 else 0) + holders s' l2 hs2) ->
  (forall s', in_use m' s' - in_use m s' = (if bool_decide (s = s') && h' then 1 else 0) - (if bool_decide (s = s') && h then 1 else 0)) ->
  accounted max {| sv_slots := m'; sv_threads := l1 ++ (s, p') :: l2 |}.
Proof.
  intros Hk1 Hk2 Hd Hp Hb Hu Hd'. split; [done|]. split; [done|]. exists (hs1 ++ h' :: hs2). split.
  - apply Forall2_app; [done|]. by constructor.
  - intros s'. cbn [sv_slots sv_threads]. rewrite holders_app by (by eapply Forall2_length). simpl.
    specialize (Hu s'). specialize (Hd' s'). lia.
Qed.

Lemma accounted_remove max m l1 l2 s hs1 hs2 :
  Forall2 keeps l1 hs1 -> Forall2 keeps l2 hs2 -> positive m -> (forall s', in_use m s' <= Z.max 0 max) ->
  (forall s', in_use m s' = holders s' l1 hs1 + (if bool_decide (s = s') && false then 1 else 0) + holders s' l2 hs2) ->
  accounted max {| sv_slots := m; sv_threads := l1 ++ l2 |}.
Proof.
  intros Hk1 Hk2 Hp Hb Hu. split; [done|]. split; [done|]. exists (hs1 ++ hs2). split; [by apply Forall2_app|].
  intros s'. cbn [sv_slots sv_threads]. rewrite holders_app by (by eapply Forall2_length).
  rewrite Hu, andb_false_r. lia.
Qed.

Lemma accounted_work max sv sv' : accounted max sv -> work max sv sv' -> accounted max sv'.
Proof.
  intros Ha Hs. destruct Hs as [m m' b l1 l2 s s' k Hacq|m l1 l2 s s' k|m l1 l2 s e k r He Hok|m l1 l2 s a|m l1 l2 s d].
  - apply accounted_middle in Ha as (Hp & Hb & hs1 & h & hs2 & Hk1 & Hk2 & (-> & -> & Hd) & Hu).
    assert (Hpos : positive m') by (eapply positive_acquire; [| |exact Hacq]; [|done];
      rewrite Hu; pose proof (holders_bounds s l1 hs1); pose proof (holders_bounds s l2 hs2); case_match; lia).
    eapply accounted_replace; [exact Hk1|exact Hk2|apply (Hd b)|done| |exact Hu|].
    + intros s'. destruct b.
      * apply in_use_acquire in Hacq as [Hlt Hin]. rewrite Hin. specialize (Hb s'). case_decide; [subst|]; lia.
      * unfold acquire in Hacq. case_match; [|done]. injection Hacq as <-. apply Hb.
    + intros s'. destruct b.
      * apply in_use_acquire in Hacq as [_ Hin]. rewrite Hin.
        destruct (decide (s' = s)) as [->|Hne]; [rewrite bool_decide_eq_true_2 by done|rewrite bool_decide_eq_false_2 by congruence]; simpl; lia.
      * unfold acquire in Hacq. case_match; [|done]. injection Hacq as <-. rewrite !andb_false_r. lia.
  - apply accounted_middle in Ha as (Hp & Hb & hs1 & h & hs2 & Hk1 & Hk2 & (-> & -> & Hd) & Hu).
    assert (Hin : is_Some (m !! s)).
    { specialize (Hu s). rewrite bool_decide_eq_true_2 in Hu by done. simpl in Hu.
      pose proof (holders_bounds s l1 hs1). pose proof (holders_bounds s l2 hs2).
      unfold in_use in Hu. destruct (m !! s); [by eexists|simpl in Hu; lia]. }
    eapply accounted_replace; [exact Hk1|exact Hk2|exact Hd|by apply positive_release| |exact Hu|].
    + intros s'. rewrite in_use_release by (try done; apply Hp). specialize (Hb s'). case_decide; lia.
    + intros s'. rewrite in_use_release by (try done; apply Hp).
      destruct (decide (s' = s)) as [->|Hne]; [rewrite bool_decide_eq_true_2 by done|rewrite bool_decide_eq_false_2 by congruence]; simpl; lia.
  - apply accounted_middle in Ha as (Hp & Hb & hs1 & h & hs2 & Hk1 & Hk2 & Hd & Hu).
    assert (Hd' : disciplined s h false (k r)) by (destruct e; cbn in Hd, He; try done; try (by apply Hd); by destruct Hd).
    eapply accounted_replace; [exact Hk1|exact Hk2|exact Hd'|done|done|exact Hu|]. intros s'. lia.
  - apply accounted_middle in Ha as (Hp & Hb & hs1 & h & hs2 & Hk1 & Hk2 & Hd & Hu). cbn in Hd. subst h.
    by eapply accounted_remove.
  - apply accounted_middle in Ha as (Hp & Hb & hs1 & h & hs2 & Hk1 & Hk2 & Hd & Hu). cbn in Hd. subst h.
    by eapply accounted_remove.
Qed.

Lemma accounted_step max sv sv' : accounted max sv -> step max sv sv' -> accounted max sv'.
Proof.
  intros Ha Hs. destruct Hs as [m l cfg admitted c name args|sv sv' Hs].
  - destruct Ha as (Hp & Hb & hs & Hk & Hu). split; [done|]. split; [done|]. exists (hs ++ [false]).
    cbn [sv_slots sv_threads] in *. split.
    + apply Forall2_app; [done|]. constructor; [apply Dispatch_disciplined|constructor].
    + intros s. rewrite holders_app by (by eapply Forall2_length). simpl. rewrite andb_false_r, Hu. lia.
  - by eapply accounted_work.
Qed.

Definition idle : server := {| sv_slots := ∅; sv_threads := [] |}.

Lemma accounted_idle max : accounted max idle.
Proof.
  split; [intros s n; simpl; by rewrite lookup_empty|]. split; [intros s; unfold in_use; simpl; rewrite lookup_empty; simpl; lia|].
  exists []. split; [constructor|]. intros s. unfold in_use. simpl. by rewrite lookup_empty.
Qed.

(** C4 [concurrency_cap]: an analyst never has more calls at the backends than the cap.  Over any
    interleaving of any number of calls of any analysts, with any answers from the stores and the
    backends and with adapters panicking anywhere, the calls of one subject waiting for a backend are
    at most [max], and the slot table never counts more than that.  When a subject has no call left,
    no slot of theirs is left taken either, and the table keeps no entry for them: every path of
    [Dispatch], errors and panics included, gives back what it took. *)
Theorem concurrency_cap max sv subject :
  0 <= max -> star (step max) idle sv ->
  in_flight subject (sv_threads sv) <= max
  /\ in_use (sv_slots sv) subject <= max
  /\ (Forall (fun t => t.1 <> subject) (sv_threads sv) -> sv_slots sv !! subject = None).
Proof.
  intros Hmax Hstar.
  assert (Ha : accounted max sv).
  { eapply star_invariant; [apply accounted_idle| |exact Hstar]. intros x y Hx Hs. by eapply accounted_step. }
  destruct Ha as (Hp & Hb & hs & Hk & Hu). specialize (Hb subject).
  pose proof (in_flight_holders subject _ _ Hk). split_and!; [rewrite <- Hu in *; lia|lia|].
  intros Hnone. assert (H0 : holders subject (sv_threads sv) hs = 0).
  { clear -Hnone. revert hs. induction Hnone as [|[s p] l Hs _ IH]; intros [|h hs]; simpl in *; try done.
    rewrite bool_decide_eq_false_2 by done. simpl. by rewrite IH. }
  rewrite <- Hu in H0. destruct (sv_slots sv !! subject) as [n|] eqn:Hn; [|done].
  pose proof (Hp _ _ Hn). unfold in_use in H0. rewrite Hn in H0. simpl in H0. lia.
Qed.
(** ** Every call comes to an end *)

(** [t'] is the call [t], one answer further on. *)
Definition continues (t' t : thread) : Prop :=
  match t.2 with Vis _ k => exists r, t' = (t.1, k r) | _ => False end.

Lemma continues_wf t : Acc continues t.
Proof.
  destruct t as [s p]. induction p as [a|d|e k IH]; constructor; intros t Ht; [done|done|].
  destruct Ht as [r ->]. apply IH.
Qed.

(** One call moved on, or left. *)
Inductive shrinks : list thread -> list thread -> Prop :=
| shrinks_move l1 l2 t t' : continues t' t -> shrinks (l1 ++ t' :: l2) (l1 ++ t :: l2)
| shrinks_leave l1 l2 t : shrinks (l1 ++ l2) (l1 ++ t :: l2).

Lemma shrinks_cons l' t l :
  shrinks l' (t :: l) -> (exists t', continues t' t /\ l' = t' :: l) \/ l' = l \/ (exists l'', shrinks l'' l /\ l' = t :: l'').
Proof.
  intros H. remember (t :: l) as l0 eqn:Hl. destruct H as [l1 l2 u t' Hc|l1 l2 u]; destruct l1 as [|v l1]; simplify_eq/=; eauto 6.
  - right. right. eexists. split; [by apply (shrinks_move l1 l2 u t')|done].
  - right. right. eexists. split; [by apply (shrinks_leave l1 l2 u)|done].
Qed.

Lemma shrinks_wf l : Acc shrinks l.
Proof.
  induction l as [|t l IHl].
  { constructor. intros l' H. remember [] as l0 eqn:Hl. destruct H as [l1 l2 u t' _|l1 l2 u]; by destruct l1. }
  revert l IHl. induction (continues_wf t) as [t _ IHt]. intros l Hl. induction Hl as [l Hl IHl].
  constructor. intros l' [(t' & Ht & ->)|[->|(l'' & Hs & ->)]]%shrinks_cons.
  - apply IHt; [done|by constructor].
  - by constructor.
  - by apply IHl.
Qed.

Lemma work_shrinks max sv sv' : work max sv sv' -> shrinks (sv_threads sv') (sv_threads sv).
Proof.
  intros []; simpl; try (by apply shrinks_leave); apply shrinks_move; by eexists.
Qed.

(** Every effect has an answer. *)
Definition no_policy : Policy := {| roles := ∅; groupToRole := ∅ |}.

Lemma answerable (e : geff) : exists x : gans e, True.
Proof.
  destruct e; simpl.
  all: first [ exists None; exact I | exists []; exact I | exists (Err []); exact I | exists false; exact I
    | exists tt; exact I | exists zero_time; exact I | exists (Ok tt); exact I | exists authRecord; exact I | idtac ].
  - by exists {| ctl_policy := no_policy; ctl_plan := {| providers := []; byTool := ∅; free := ∅ |} |}.
  - by exists {| v_gone := None; v_unlisted := None; v_health := None; v_lastRound := zero_time; v_interval := 0 |}.
Qed.

(** A server with a call in progress can serve it. *)
Lemma work_progress max m t l : exists sv', work max {| sv_slots := m; sv_threads := t :: l |} sv'.
Proof.
  destruct t as [s [a|d|e k]].
  - eexists. apply (work_done max m [] l s a).
  - eexists. apply (work_died max m [] l s d).
  - destruct (answerable e) as [x _].
    destruct e; try (eexists; apply (work_other max m [] l s _ k (Val x)); exact I).
    + destruct (acquire max m subject) as [m' b] eqn:Ha. eexists. by apply (work_acquire max m m' b [] l s subject k).
    + eexists. apply (work_release max m [] l s subject k).
Qed.

Lemma accounted_drained max sv : accounted max sv -> sv_threads sv = [] -> sv = idle.
Proof.
  destruct sv as [m l]. intros (Hp & _ & hs & _ & Hu) Hl. simpl in *. subst l. unfold idle. f_equal.
  apply map_empty. intros s. specialize (Hu s). destruct (m !! s) as [n|] eqn:Hn; [|done].
  pose proof (Hp s n Hn). unfold in_use in Hu. rewrite Hn in Hu. simpl in Hu. lia.
Qed.

End discipline.

(** ** Witnesses: two calls of one analyst against a cap of one *)

Section sched.
Context `{SV : SchemaValidator}.

(** [n] effects of one call, answered by [h], the slot effects by the table. *)
Fixpoint sched (max : Z) (h : forall e : eff, reply (ans e)) (n : nat) (m : slots)
  (p : prog (result gw_error Result)) : slots * prog (result gw_error Result) :=
  match n, p with
  | S n, Vis e k =>
      match e as e0 return (reply (gans e0) -> prog (result gw_error Result)) -> reply (gans e0) -> _ with
      | EAcquire s => fun k _ => let '(m', b) := acquire max m s in sched max h n m' (k (Val b))
      | ERelease s => fun k _ => sched max h n (release m s) (k (Val tt))
      | _ => fun k r => sched max h n m (k r)
      end k (h e)
  | _, _ => (m, p)
  end.

Lemma sched_star `{UT : UnicodeTables} `{PT : PrintTable} max h n m p s l1 l2 :
  (forall e, ok_reply e (h e)) ->
  star (step max) {| sv_slots := m; sv_threads := l1 ++ (s, p) :: l2 |}
    {| sv_slots := (sched max h n m p).1; sv_threads := l1 ++ (s, (sched max h n m p).2) :: l2 |}.
Proof.
  intros Hh. revert m p. induction n as [|n IH]; intros m p; [apply star_refl|].
  destruct p as [a|d|e k]; [apply star_refl|apply star_refl|].
  assert (Hone : forall m' p', work max {| sv_slots := m; sv_threads := l1 ++ (s, Vis e k) :: l2 |}
      {| sv_slots := m'; sv_threads := l1 ++ (s, p') :: l2 |} ->
    star (step max) {| sv_slots := m; sv_threads := l1 ++ (s, Vis e k) :: l2 |}
      {| sv_slots := (sched max h n m' p').1; sv_threads := l1 ++ (s, (sched max h n m' p').2) :: l2 |}).
  { intros m' p' Hw. eapply star_trans; [|apply IH]. eapply star_snoc; [apply star_refl|]. by apply step_work. }
  pose proof (Hh e) as Hok. destruct e; cbn [sched]; try (apply Hone, work_other; [exact I|exact Hok]).
  - destruct (acquire max m subject) as [m' b] eqn:Ha. apply Hone. by apply work_acquire.
  - apply Hone, work_release.
Qed.

(** Two calls of one caller, one after the other's first [n1] effects. *)
Lemma sched_two `{UT : UnicodeTables} `{PT : PrintTable} max h n1 n2 cfg admitted c name args :
  (forall e, ok_reply e (h e)) ->
  let s := Subject (CIdentity c) in let p := Dispatch cfg admitted c name args in
  let fst_ := sched max h n1 ∅ p in let snd_ := sched max h n2 fst_.1 p in
  star (step max) idle {| sv_slots := snd_.1; sv_threads := [(s, fst_.2); (s, snd_.2)] |}.
Proof.
  intros Hh s p fst_ snd_. eapply star_trans.
  { eapply star_snoc; [eapply star_snoc; [apply star_refl|]|].
    - exact (step_spawn max ∅ [] cfg admitted c name args).
    - exact (step_spawn max ∅ [(s, p)] cfg admitted c name args). }
  eapply star_trans.
  - exact (sched_star max h n1 ∅ p s [] [(s, p)] Hh).
  - exact (sched_star max h n2 fst_.1 p s [(s, fst_.2)] [] Hh).
Qed.
End sched.

Definition demo_first := sched (SV := demo_schemas) 1 demo_answer 15 ∅ demo_dispatch.
Definition demo_second := sched (SV := demo_schemas) 1 demo_answer 20 demo_first.1 demo_dispatch.

(** The first call is at its backend; the second was refused. *)
Definition demo_busy : server (SV := demo_schemas) :=
  {| sv_slots := demo_second.1; sv_threads := [("u-ana", demo_first.2); ("u-ana", demo_second.2)] |}.

Lemma demo_busy_reached :
  star (step (UT := demo_tables) (PT := demo_print) 1) idle demo_busy.
Proof.
  exact (sched_two (UT := demo_tables) (PT := demo_print) (SV := demo_schemas) 1 demo_answer 15 20
    demo_config None demo_caller demo_call_name "{}" demo_answer_ok).
Qed.

Lemma concurrency_cap_witness :
  in_flight "u-ana" (sv_threads demo_busy) = 1
  /\ match demo_second.2 with Ret (Err (ConcurrencyLimited n _)) => n = 1 | _ => False end
  /\ in_flight "u-ana" (sv_threads demo_busy) <= 1 /\ in_use (sv_slots demo_busy) "u-ana" <= 1.
Proof.
  destruct (concurrency_cap (UT := demo_tables) (PT := demo_print) (SV := demo_schemas) 1 demo_busy "u-ana"
    ltac:(lia) demo_busy_reached) as (H1 & H2 & _).
  split; [vm_compute; reflexivity|]. split; [vm_compute; reflexivity|]. split; [exact H1|exact H2].
Defined.

