(* ===== verification/Rounds.v ===== *)
(** * The rounds ([internal/gateway]: [endpoint.go], [health.go], [reload.go])

    [Connect], [Reconcile], [Refresh], [ApplyPolicy], [Redial], [Close], [GatteStatus], [CredentialDrift]
    and [Backlog] as programs: every section under [g.mu] is one step on the fleet (Fleet.v), every read
    of a store, dial, listing, close and row written is one effect, in the order the code makes them.
    The goroutines of a round run one after another, in an order the environment chooses ([RArrives]).
    Logging is left out. *)
From Stdlib Require Import ZArith Lia Ascii.
From stdpp Require Import base strings list gmap.
From S2P Require Import Prelude.
From S2P Require Import GoStrings.
From S2P Require Import Visible.
From S2P Require Import GoTime.
From S2P Require Import Encode.
From S2P Require Import AuditLog.
From S2P Require Import Registry.
From S2P Require Import Signer.
From S2P Require Import Quota.
From S2P Require Import Quarantine.
From S2P Require Import Access.
From S2P Require Import Redact.
From S2P Require Import Prog.
From S2P Require Import GatewayTypes.
From S2P Require Import ToolSchema.
From S2P Require Import Routing.
From S2P Require Import Fleet.
From S2P Require Import Dispatch.

(** ** The effects *)

Inductive sig_read := SigFound (s : Signature) | SigMissing | SigUnreadable (e : foreign).

(** [quarantine.Definition]: no definition kept, or one that is not of that hash; a fault. *)
Inductive def_read := DefKept (id : ToolIdentity) | DefNone | DefFault (e : foreign).

(** What the operator configured, and what [New] drew. *)
Record round_config := {
  rc_signatures : bool; rc_requireSig : bool; rc_verifier : list string; rc_state : bool;
  rc_interval : Z; rc_boot : time; rc_credKey : string
}.

Section effects.
Context `{SV : SchemaValidator}.

Inductive reff :=
| RGw (e : geff)                                     (* an effect the calls have too *)
| RFleet (op : fleet_op)                             (* a step under g.mu *)
| RRegistry                                          (* registry.List *)
| RSignature (name : string)                         (* signatures.Get *)
| RDial (spec : UpstreamSpec) (env : gmap string string)
| RArrives (pending : nat)                           (* which of the pending goroutines runs next *)
| RListTools (up : handle)
| RClose (up : handle)
| RObserve (server : string) (id : ToolIdentity) (class : string)
| RDefinition (hash : string)                        (* quarantine.Definition *)
| RQuarList                                          (* quarantine.List *)
| RListings                                          (* state.Listings *)
| RWriteState (snap : Snapshot)
| RStanding (plan : Plan) (subject : string) (tools : list string) (now : time).

Definition rans (e : reff) : Type :=
  match e with
  | RGw e => gans e
  | RFleet op => fans op
  | RRegistry => result foreign (list UpstreamServer)
  | RSignature _ => sig_read
  | RDial _ _ => result foreign handle
  | RArrives _ => nat
  | RListTools _ => result foreign (list ToolDef)
  | RClose _ => result foreign unit
  | RObserve _ _ _ => result foreign (Quarantine.Tool * Event)
  | RDefinition _ => def_read
  | RQuarList => result foreign (list Quarantine.Tool)
  | RListings => result foreign (gmap string (list ListedTool))
  | RWriteState _ => result foreign unit
  | RStanding _ _ _ _ => list Standing * option standing_error
  end.

(** Everything but the gateway's own steps may panic; in a round such a panic ends the process. *)
Definition round_foreign (e : reff) : bool :=
  match e with RGw e => foreign_code e | RFleet _ | RArrives _ => false | _ => true end.

#[export] Instance round_effects : Effects := {| eff := reff; ans := rans; may_panic := round_foreign |}.

(** A program over the calls' effects, in a round. *)
Fixpoint lift {A} (p : prog (E := gw_effects) A) : prog (E := round_effects) A :=
  match p with
  | Ret a => Ret a
  | Panic d => Panic d
  | Vis e k => Vis (E := round_effects) (RGw e) (fun r => lift (k r))
  end.

Definition perform (e : reff) : prog (E := round_effects) (rans e) := trigger (E := round_effects) e.
Definition step (op : fleet_op) : prog (E := round_effects) (fans op) := perform (RFleet op).
Definition gw (e : geff) : prog (E := round_effects) (gans e) := perform (RGw e).

(** One goroutine per item, handled as they finish. *)
Fixpoint as_they_arrive {X B} (n : nat) (pending : list X) (handle_one : X -> B -> prog B) (acc : B) : prog B :=
  match n with
  | O => Ret acc
  | S n =>
      i <- perform (RArrives (length pending));;
      let i := (i mod length pending)%nat in
      match pending !! i with
      | None => Ret acc
      | Some x => acc <- handle_one x acc;; as_they_arrive n (delete i pending) handle_one acc
      end
  end.

Definition concurrently {X B} (items : list X) (handle_one : X -> B -> prog B) (acc : B) : prog B :=
  as_they_arrive (length items) items handle_one acc.

(** A loop over a list, in its order. *)
Fixpoint for_each {X B} (items : list X) (body : X -> B -> prog B) (acc : B) : prog B :=
  match items with
  | [] => Ret acc
  | x :: rest => acc <- body x acc;; for_each rest body acc
  end.
End effects.

(** ** What a round can report *)

Inductive failure :=
| FEntry (name : string) (e : registry_error)
| FSignature (name : string) (e : sig_refusal)
| FResolve (name var : string) (e : foreign)
| FDial (name : string) (e : foreign)
| FList (name : string) (e : foreign)
| FToolName (upstream tool : string)
| FDefinitionSize (upstream tool : string) (n : Z)
| FInputSchema (upstream tool : string) (e : schema_error)
| FOutputSchema (upstream tool : string)
| FObserve (upstream tool : string) (e : foreign)
| FTwice (upstream name : string)
| FRoutes (e : route_error)
| FCoverage (problems : list coverage_problem).

(** What a round returns: the joined failures, or the error that stopped it. *)
Inductive round_end :=
| RoundClosed                                        (* ErrClosed *)
| RegistryUnreadable (e : foreign)
| RoundInterrupted (e : foreign)                     (* the round's own context ended *)
| Misconfigured (problems : list coverage_problem)
| Finished (failures : list failure).

Record upstreamRoutes `{SV : SchemaValidator} := {
  ur_routes : gmap string routedTool; ur_dupes : list string; ur_failures : list failure; ur_unmeasured : bool
}.

Record broughtUp := { got_entry : UpstreamServer; got_up : option (handle * list ToolDef); got_errs : list failure }.

Section rounds.
Context `{UT : UnicodeTables} `{PT : PrintTable} `{SV : SchemaValidator} `{HF : HashFunction} `{ED : Ed25519} `{UP : UrlParser}.
Context (rc : round_config).

Abbreviation table := (gmap string routedTool).
Abbreviation rprog := (prog (E := round_effects)).

Definition write_events (events : list (option healthEvent)) : rprog unit := lift (writeHealthEvents events).

(** A Go map walked in the order of its sorted keys. *)
Definition sorted_entries {A} (m : gmap string A) : list (string * A) := sort_by fst (map_to_list m).

(** [closeAll]: every one is closed, whatever the others answer. *)
Definition closeAll (conns : gmap string handle) : rprog (list string) :=
  for_each (sorted_entries conns) (fun nh errs =>
    r <- perform (RClose nh.2);;
    Ret (match r with Ok _ => errs | Err _ => errs ++ [nh.1] end)) [].

(** [swap], with the closing it does outside the lock. *)
Definition swap_in (conns : gmap string handle) (dialed : gmap string UpstreamServer) (routes : table) : rprog bool :=
  r <- step (OpSwap conns dialed routes);;
  closeAll r.2;;; Ret r.1.

Definition retire_ (names : list string) (drop : gset string) : rprog bool :=
  r <- step (OpRetire names drop);;
  closeAll r.2;;; Ret r.1.

Definition adopt_ (add : gmap string (handle * UpstreamServer)) : rprog bool :=
  r <- step (OpAdopt add);;
  closeAll r.2;;; Ret r.1.

(** ** The gates an entry passes *)

Definition verifyEntry (entry : UpstreamServer) : rprog (option sig_refusal) :=
  if negb (rc_signatures rc) then Ret None
  else
    r <- perform (RSignature (Name entry));;
    Ret match r with
        | SigMissing => if rc_requireSig rc then Some SigUnsigned else None
        | SigUnreadable _ => Some SigUnmeasured
        | SigFound sig => match Verify (rc_verifier rc) entry sig with Ok _ => None | Err _ => Some SigInvalid end
        end.

Definition note_signature (name : string) (r : option sig_refusal) : rprog unit :=
  row <- step (OpNoteSignature name r);;
  match row with Some reason => lift (auditEvent registryEntryTool name reason) | None => Ret tt end.

(** What a round knows of the entries: those to serve, those it could not judge, the failures. *)
Record gated := { ga_ready : list UpstreamServer; ga_unmeasured : list string; ga_failures : list failure }.

Definition gate_entry (uncounted : list string) (entry : UpstreamServer) (acc : gated) : rprog gated :=
  match Validate entry with
  | Some e => Ret {| ga_ready := ga_ready acc; ga_unmeasured := ga_unmeasured acc;
                     ga_failures := ga_failures acc ++ [FEntry (Name entry) e] |}
  | None =>
      if bool_decide (Name entry ∈ uncounted) then Ret acc
      else
        r <- verifyEntry entry;;
        note_signature (Name entry) r;;;
        Ret match r with
            | Some e => {| ga_ready := ga_ready acc;
                ga_unmeasured := match e with SigUnmeasured => Name entry :: ga_unmeasured acc | _ => ga_unmeasured acc end;
                ga_failures := ga_failures acc ++ [FSignature (Name entry) e] |}
            | None => {| ga_ready := ga_ready acc ++ [entry]; ga_unmeasured := ga_unmeasured acc;
                         ga_failures := ga_failures acc |}
            end
  end.

Definition gate_entries (uncounted : list string) (entries : list UpstreamServer) : rprog gated :=
  for_each entries (gate_entry uncounted) {| ga_ready := []; ga_unmeasured := []; ga_failures := [] |}.

(** ** Bringing one backend up *)

Fixpoint resolveEnv (name : string) (vars : list string) (env : gmap string string)
  : rprog (result failure (gmap string string)) :=
  match vars with
  | [] => Ret (Ok env)
  | var :: rest =>
      r <- gw (EResolve var);;
      match r with
      | Err e => Ret (Err (FResolve name var e))
      | Ok v => resolveEnv name rest (<[var := v]> env)
      end
  end.

Definition credDigest (value : string) : string := hex_encode (hmac256 (rc_credKey rc) value).

Definition bringUp (entry : UpstreamServer) : rprog (result failure handle) :=
  env <- resolveEnv (Name entry) (EnvVarNames entry) ∅;;
  match env with
  | Err e => Ret (Err e)
  | Ok env =>
      r <- perform (RDial (specFor entry) env);;
      match r with
      | Err e => Ret (Err (FDial (Name entry) e))
      | Ok up => step (OpRemember (Name entry) (credDigest <$> env));;; Ret (Ok up)
      end
  end.

Definition bringUpAndList (entry : UpstreamServer) : rprog broughtUp :=
  r <- bringUp entry;;
  match r with
  | Err e => Ret {| got_entry := entry; got_up := None; got_errs := [e] |}
  | Ok up =>
      defs <- perform (RListTools up);;
      match defs with
      | Err e => perform (RClose up);;; Ret {| got_entry := entry; got_up := None; got_errs := [FList (Name entry) e] |}
      | Ok defs => Ret {| got_entry := entry; got_up := Some (up, defs); got_errs := [] |}
      end
  end.

(** ** What a listing earns *)

Definition reasonToolFirstSeen : string := "tool first seen".
Definition reasonToolChanged : string := "tool changed".

Definition auditQuarantineEvent (up : string) (obs : Quarantine.Tool * Event) : rprog unit :=
  let row reason := lift (auditEvent (Namespaced up (Quarantine.ToolName obs.1)) up reason) in
  match obs.2 with
  | EventFirstSeen => row (reasonToolFirstSeen +:+ ": sha256:" +:+ ObservedHash obs.1)
  | EventChanged => row (reasonToolChanged +:+ ": sha256:" +:+ ApprovedHash obs.1 +:+ " -> sha256:" +:+ ObservedHash obs.1)
  | EventNone => Ret tt
  end.

Definition fail_tool (acc : upstreamRoutes) (e : failure) (unmeasured : bool) : upstreamRoutes :=
  {| ur_routes := ur_routes acc; ur_dupes := ur_dupes acc; ur_failures := ur_failures acc ++ [e];
     ur_unmeasured := ur_unmeasured acc || unmeasured |}.

Definition route_to (up : string) (d : ToolDef) (output : option schema) : routedTool :=
  {| rt_route := {| upstream := up; originalName := DName d |}; rt_def := d; rt_output := output |}.

(** A definition routed under its name, or the second copy of one. *)
Definition add_route (up : string) (d : ToolDef) (output : option schema) (acc : upstreamRoutes) : upstreamRoutes :=
  let name := Namespaced up (DName d) in
  match ur_routes acc !! name with
  | Some _ => {| ur_routes := ur_routes acc; ur_dupes := name :: ur_dupes acc;
                 ur_failures := ur_failures acc ++ [FTwice up name]; ur_unmeasured := ur_unmeasured acc |}
  | None => {| ur_routes := <[name := route_to up d output]> (ur_routes acc); ur_dupes := ur_dupes acc;
               ur_failures := ur_failures acc; ur_unmeasured := ur_unmeasured acc |}
  end.

Definition route_def (up : string) (d : ToolDef) (acc : upstreamRoutes) : rprog upstreamRoutes :=
  if negb (ValidToolName (DName d)) then Ret (fail_tool acc (FToolName up (DName d)) false)
  else if MaxToolDefinitionBytes <? DefinitionSize d then
    Ret (fail_tool acc (FDefinitionSize up (DName d) (DefinitionSize d)) false)
  else
    match validateSchema (DInputSchema d) with
    | Err e => Ret (fail_tool acc (FInputSchema up (DName d) e) false)
    | Ok _ =>
        match resolveOutputSchema (DOutputSchema d) with
        | None => Ret (fail_tool acc (FOutputSchema up (DName d)) false)
        | Some output =>
            r <- perform (RObserve up (identityOf d) (SecurityClass d));;
            match r with
            | Err e => Ret (fail_tool acc (FObserve up (DName d) e) true)
            | Ok obs => auditQuarantineEvent up obs;;; Ret (add_route up d output acc)
            end
        end
    end.

Definition no_routes : upstreamRoutes :=
  {| ur_routes := ∅; ur_dupes := []; ur_failures := []; ur_unmeasured := false |}.

Definition routesFor (up : string) (defs : list ToolDef) : rprog upstreamRoutes :=
  out <- for_each defs (route_def up) no_routes;;
  Ret {| ur_routes := foldr delete (ur_routes out) (ur_dupes out); ur_dupes := []; ur_failures := ur_failures out;
         ur_unmeasured := ur_unmeasured out |}.

(** ** The stable listing of a backend that is not live *)

Definition kept_def (id : ToolIdentity) (class : string) : ToolDef :=
  {| DName := TName id; DDescription := Quarantine.Description id; DInputSchema := InputSchema id; DOutputSchema := OutputSchema id;
     SecurityClass := class |}.

(** The route a kept definition earns, by the rules of [routesFor]. *)
Definition stable_route (up tool : string) (d : ToolDef) (acc : upstreamRoutes) : upstreamRoutes :=
  if negb (bool_decide (DName d = tool)) || negb (ValidToolName (DName d))
     || (MaxToolDefinitionBytes <? DefinitionSize d) || negb (is_ok (validateSchema (DInputSchema d))) then acc
  else
    match resolveOutputSchema (DOutputSchema d) with
    | None => acc
    | Some output =>
        {| ur_routes := <[Namespaced up (DName d) := route_to up d output]> (ur_routes acc);
           ur_dupes := ur_dupes acc; ur_failures := ur_failures acc; ur_unmeasured := ur_unmeasured acc |}
    end.

Definition unmeasured_routes (acc : upstreamRoutes) : upstreamRoutes :=
  {| ur_routes := ur_routes acc; ur_dupes := ur_dupes acc; ur_failures := ur_failures acc; ur_unmeasured := true |}.

Definition stable_one (up : string) (lt : ListedTool) (acc : upstreamRoutes) : rprog upstreamRoutes :=
  r <- gw (EQuarGet up (LTool lt));;
  match r with
  | Err e => Ret (if wraps e SNotFound then acc else unmeasured_routes acc)
  | Ok t =>
      if negb (Usable t) || negb (bool_decide (ApprovedHash t = LHash lt)) then Ret acc
      else
        d <- perform (RDefinition (LHash lt));;
        Ret match d with
            | DefNone => acc
            | DefFault _ => unmeasured_routes acc
            | DefKept id => stable_route up (LTool lt) (kept_def id (TClass t)) acc
            end
  end.

Definition stableRoutesFor (up : string) : rprog upstreamRoutes :=
  f <- step OpRead;;
  for_each (default [] (f_listing f !! up)) (stable_one up) no_routes.

Definition listing_of (routes : table) : list ListedTool :=
  sort_by LTool (map (fun e => {| LTool := originalName (rt_route e.2); LHash := Hash (identityOf (rt_def e.2)) |})
    (map_to_list routes)).

Definition load_listings : rprog unit :=
  f <- step OpRead;;
  if f_listingLoaded f || negb (rc_state rc) then Ret tt
  else
    r <- perform RListings;;
    match r with Ok stored => step (OpLoadListings stored) | Err _ => Ret tt end.

Definition persistHealth (round : bool) : rprog unit :=
  if negb (rc_state rc) then Ret tt
  else
    now <- gw ENow;;
    f <- step OpRead;;
    let snap := snapshot_state (rc_boot rc) (rc_interval rc) round now f in
    r <- perform (RWriteState snap);;
    match r with Ok _ => step (OpClearDirty (SnListings snap)) | Err _ => Ret tt end.

(** ** Connect *)

(** What [Connect] gathers as answers arrive. *)
Record boot := {
  b_conns : gmap string handle; b_dialed : gmap string UpstreamServer; b_candidates : gmap string table;
  b_failures : gmap string (list failure)
}.

Definition boot_one (entry : UpstreamServer) (acc : boot) : rprog boot :=
  got <- bringUpAndList entry;;
  let name := Name entry in
  match got_up got with
  | None => Ret {| b_conns := b_conns acc; b_dialed := b_dialed acc; b_candidates := b_candidates acc;
                   b_failures := <[name := got_errs got]> (b_failures acc) |}
  | Some (up, defs) =>
      routed <- routesFor name defs;;
      (if ur_unmeasured routed then Ret tt else step (OpRecordListing name (listing_of (ur_routes routed))));;;
      Ret {| b_conns := <[name := up]> (b_conns acc); b_dialed := <[name := entry]> (b_dialed acc);
             b_candidates := <[name := ur_routes routed]> (b_candidates acc);
             b_failures := <[name := got_errs got ++ ur_failures routed]> (b_failures acc) |}
  end.

Definition failures_in_order (m : gmap string (list failure)) : list failure :=
  flat_map (fun name => default [] (m !! name)) (sorted_keys m).

(** A ready entry that did not come up keeps its stable listing. *)
Definition stable_unless_up (conns : gmap string handle) (name : string) (candidates : gmap string table)
  : rprog (gmap string table) :=
  match conns !! name with
  | Some _ => Ret candidates
  | None =>
      stable <- stableRoutesFor name;;
      Ret (if bool_decide (ur_routes stable = ∅) then candidates else <[name := ur_routes stable]> candidates)
  end.

Definition build_table (candidates : gmap string table) : rprog (table * list failure) :=
  let '(merged, conflicts) := mergeRoutes candidates in
  f <- step OpRead;;
  let '(routes, withheld) := withholdUndeclaredQuotaTools (ctl_plan (f_controls f)) merged in
  Ret (routes, map FRoutes (conflicts ++ withheld)).

Definition settle (servable keep : list string) (frozen : bool) (dialed : list string) : rprog unit :=
  now <- gw ENow;;
  events <- step (OpSettle servable keep frozen (list_to_set dialed) now);;
  write_events events.

Definition start_round : rprog unit := now <- gw ENow;; step (OpLastRound now).

(** [Connect] once the registry was read and agrees with the quota plan. *)
Definition connect_entries (entries : list UpstreamServer) : rprog round_end :=
  g <- gate_entries [] entries;;
  step (OpForgetSignatures entries);;;
  load_listings;;;
  start_round;;;
  got <- concurrently (ga_ready g) boot_one {| b_conns := ∅; b_dialed := ∅; b_candidates := ∅; b_failures := ∅ |};;
  let ready := map Name (ga_ready g) in
  candidates <- for_each ready (stable_unless_up (b_conns got)) (b_candidates got);;
  built <- build_table candidates;;
  step OpServing;;;
  closed <- swap_in (b_conns got) (b_dialed got) built.1;;
  if (closed : bool) then Ret RoundClosed
  else
    settle ready [] false ready;;;
    persistHealth true;;;
    Ret (Finished (ga_failures g ++ failures_in_order (b_failures got) ++ built.2)).

Definition Connect : rprog round_end :=
  f <- step OpRead;;
  if f_closed f then Ret RoundClosed
  else
    r <- perform RRegistry;;
    match r with
    | Err e => swap_in ∅ ∅ ∅;;; step OpSuspend;;; Ret (RegistryUnreadable e)
    | Ok entries =>
        f <- step OpRead;;
        match CheckQuotaCoverage (ctl_plan (f_controls f)) entries with
        | Some problems => swap_in ∅ ∅ ∅;;; Ret (Misconfigured problems)
        | None => connect_entries entries
        end
    end.

(** ** Reconcile *)

(** The live backends to close, and those whose routes go with them. *)
Definition zero_entry : UpstreamServer :=
  {| Name := ""; STransport := ""; Command := ""; Args := []; Image := ""; URL := ""; EnvVarNames := [];
     SAuthKind := ""; AuthName := ""; Operations := ""; CreatedAt := zero_time; UpdatedAt := zero_time |}.

Definition review_one (want : gmap string UpstreamServer) (unmeasured : list string)
  (dialed : gmap string UpstreamServer) (live : string * handle) (acc : list string * gset string)
  : rprog (list string * gset string) :=
  let '(name, up) := live in
  let '(remove, drop) := acc in
  match want !! name with
  | None =>
      if bool_decide (name ∈ unmeasured) then Ret acc else Ret (remove ++ [name], {[name]} ∪ drop)
  | Some entry =>
      if specChanged (default zero_entry (dialed !! name)) entry then Ret (remove ++ [name], drop)
      else
        dead <- step (OpTakeGone name up);;
        Ret (if (dead : bool) then (remove ++ [name], drop) else acc)
  end.

(** The upstreams of routed tools that are neither wanted nor unmeasured. *)
Definition unserved (want : gmap string UpstreamServer) (unmeasured : list string) (routes : table) : gset string :=
  list_to_set (List.filter (fun u => negb (bool_decide (is_Some (want !! u))) && negb (bool_decide (u ∈ unmeasured)))
    (map (fun e => upstream (rt_route e.2)) (map_to_list routes))).

(** What the dials of a round came to, by name. *)
Record dials := { d_add : gmap string (handle * UpstreamServer); d_errs : gmap string failure }.

Definition dial_one (target : string * UpstreamServer) (acc : dials) : rprog dials :=
  r <- bringUp target.2;;
  Ret match r with
      | Ok up => {| d_add := <[target.1 := (up, target.2)]> (d_add acc); d_errs := d_errs acc |}
      | Err e => {| d_add := d_add acc; d_errs := <[target.1 := e]> (d_errs acc) |}
      end.

(** [want]: a later entry of a name replaces an earlier one. *)
Definition wanted (ready : list UpstreamServer) : gmap string UpstreamServer :=
  foldl (fun m e => <[Name e := e]> m) ∅ ready.

(** The dials of a round: what is wanted and not live, or about to be closed. *)
Definition targets (want : gmap string UpstreamServer) (live : gmap string handle) (remove : list string)
  : list (string * UpstreamServer) :=
  List.filter (fun t => negb (bool_decide (is_Some (live !! t.1)) && negb (bool_decide (t.1 ∈ remove)))) (sorted_entries want).

(** From the entries that passed the gates on: close, dial, settle. *)
Definition reconcile_gated (entries : list UpstreamServer) (live : gmap string handle) (dialed : gmap string UpstreamServer)
  (problems : list coverage_problem) (g : gated) : rprog round_end :=
  let frozen := negb (bool_decide (problems = [])) in
  let want := wanted (ga_ready g) in
  step (OpForgetSignatures entries);;;
  rd <- for_each (sorted_entries live) (review_one want (ga_unmeasured g) dialed) ([], ∅);;
  let '(remove, drop) := rd in
  f <- step OpRead;;
  closed <- retire_ remove (drop ∪ unserved want (ga_unmeasured g) (f_routes f));;
  if (closed : bool) then Ret RoundClosed
  else
    let toDial := if frozen then [] else targets want live remove in
    outcomes <- concurrently toDial dial_one {| d_add := ∅; d_errs := ∅ |};;
    step OpConfirm;;;
    closed <- adopt_ (d_add outcomes);;
    if (closed : bool) then Ret RoundClosed
    else
      settle (sorted_keys want) (ga_unmeasured g) frozen (map fst toDial);;;
      persistHealth false;;;
      Ret (Finished ((if frozen then [FCoverage problems] else []) ++ ga_failures g ++ map snd (sorted_entries (d_errs outcomes)))).

Definition reconcile_entries (entries : list UpstreamServer) : rprog round_end :=
  snap <- step OpRead;;
  start_round;;;
  f <- step OpRead;;
  let '(uncounted, problems) := quotaCoverage (ctl_plan (f_controls f)) entries in
  g <- gate_entries uncounted entries;;
  reconcile_gated entries (f_conns snap) (f_dialed snap) problems g.

Definition Reconcile : rprog round_end :=
  f <- step OpRead;;
  if f_closed f then Ret RoundClosed
  else
    r <- perform RRegistry;;
    match r with
    | Err e =>
        ended <- gw ECtxErr;;
        match ended with
        | Some _ => Ret (RoundInterrupted e)
        | None => step OpSuspend;;; Ret (RegistryUnreadable e)
        end
    | Ok entries => reconcile_entries entries
    end.

(** ** Refresh *)

Record listings := {
  l_candidates : gmap string table; l_failures : gmap string (list failure); l_events : list (option healthEvent)
}.

Definition keep_routes (name : string) (routes : table) (errs : list failure) (events : list (option healthEvent))
  (acc : listings) : listings :=
  {| l_candidates := <[name := routes]> (l_candidates acc); l_failures := <[name := errs]> (l_failures acc);
     l_events := l_events acc ++ events |}.

Definition refresh_one (previous : table) (conn : string * handle) (acc : listings) : rprog listings :=
  let '(name, up) := conn in
  answer <- perform (RListTools up);;
  match answer with
  | Err e =>
      if wraps e SUpstreamGone then
        now <- gw ENow;;
        ev <- step (OpMarkGone now name up);;
        stable <- stableRoutesFor name;;
        Ret (keep_routes name (if ur_unmeasured stable then routesOf previous name else ur_routes stable)
               [FList name e] [ev] acc)
      else Ret (keep_routes name (routesOf previous name) [FList name e] [] acc)
  | Ok defs =>
      got <- routesFor name defs;;
      if ur_unmeasured got then Ret (keep_routes name (routesOf previous name) (ur_failures got) [] acc)
      else
        step (OpRecordListing name (listing_of (ur_routes got)));;;
        now <- gw ENow;;
        ev <- step (OpMarkListed now name up);;
        Ret (keep_routes name (ur_routes got) (ur_failures got) [ev] acc)
  end.

Definition stable_or_kept (previous : table) (name : string) (candidates : gmap string table)
  : rprog (gmap string table) :=
  stable <- stableRoutesFor name;;
  Ret (<[name := if ur_unmeasured stable then routesOf previous name else ur_routes stable]> candidates).

Definition Refresh : rprog round_end :=
  f <- step OpRead;;
  if f_closed f then Ret RoundClosed
  else
    f <- step OpRead;;
    let conns := f_conns f in
    let previous := f_routes f in
    got <- concurrently (sorted_entries conns) (refresh_one previous)
      {| l_candidates := ∅; l_failures := ∅; l_events := [] |};;
    f <- step OpRead;;
    candidates <- for_each (servableNotConnected conns f) (stable_or_kept previous) (l_candidates got);;
    built <- build_table candidates;;
    closed <- step (OpSwapRoutes built.1);;
    if (closed : bool) then Ret RoundClosed
    else
      write_events (l_events got);;;
      persistHealth true;;;
      Ret (Finished (failures_in_order (l_failures got) ++ built.2)).

(** ** The operator's commands *)

Definition ApplyPolicy (ctl : controls) : rprog round_end :=
  f <- step OpRead;;
  if f_closed f then Ret RoundClosed
  else
    r <- perform RRegistry;;
    match r with
    | Err e => Ret (RegistryUnreadable e)
    | Ok entries =>
        match CheckQuotaCoverage (ctl_plan ctl) entries with
        | Some problems => Ret (Misconfigured problems)
        | None =>
            r <- step (OpApply ctl);;
            Ret match r with None => RoundClosed | Some _ => Finished [] end
        end
    end.

Definition Redial (name : string) : rprog redial_answer :=
  now <- gw ENow;;
  r <- step (OpRedial now name);;
  match r with
  | Redialled ev => write_events [ev];;; Ret r
  | _ => Ret r
  end.

Definition Close : rprog (list string) :=
  conns <- step OpClose;;
  closeAll conns.

Definition RoutedTools : rprog (list string) :=
  f <- step OpRead;;
  Ret (sorted_keys (f_routes f)).

(** ** Reports *)

Record CallerStanding := { CsName : string; CsRoles : list string; CsBudgets : list Standing }.

Record StatusReport := {
  RpCheckedAt : time; RpGateway : option MaintenanceNotice; RpBackends : list BackendStatus; RpYou : CallerStanding
}.

Definition GatteStatusTool : string := "gatte.status".

(** [slices.Compact]. *)
Fixpoint compact (l : list string) : list string :=
  match l with
  | x :: ((y :: _) as rest) => if bool_decide (x = y) then compact rest else x :: compact rest
  | _ => l
  end.

Definition standingOf (c : Caller) (tools : list string) (now : time) : rprog CallerStanding :=
  f <- step OpRead;;
  let ctl := f_controls f in
  b <- perform (RStanding (ctl_plan ctl) (Subject (CIdentity c)) tools now);;
  Ret {| CsName := IdName (CIdentity c);
         CsRoles := compact (sort_strings (map RoleName (RolesFor (ctl_policy ctl) (CIdentity c))));
         CsBudgets := b.1 |}.

Definition GatteStatus (cfg : config) (admitted : option string) (c : Caller) (backends tools : list string)
  : rprog (result gw_error StatusReport) :=
  b <- lift (checkBlock admitted (Subject (CIdentity c)));;
  match b with
  | Err e => lift (refuseBlocked c GatteStatusTool gatewayItself e);;; Ret (Err e)
  | Ok _ =>
      maint <- lift (readMaintenance cfg);;
      now <- gw ENow;;
      f <- step OpRead;;
      let states := omap (fun name => publicState name (view (rc_interval rc) name f) maint now)
                      (compact (sort_strings backends)) in
      you <- standingOf c tools now;;
      r <- lift (record true c GatteStatusTool gatewayItself OutcomeAllowed "");;
      Ret match r with
          | Err e => Err e
          | Ok _ => Ok {| RpCheckedAt := now; RpGateway := gatewayNotice maint now; RpBackends := states; RpYou := you |}
          end
  end.

(** [CredentialDrift]: one variable of a connected upstream. *)
Definition drift_one (up : string) (digests : gmap string string) (var : string) (acc : list (string * string))
  : rprog (list (string * string)) :=
  r <- gw (EResolve var);;
  Ret match r with
      | Err _ => acc
      | Ok v => if bool_decide (digests !! var = Some (credDigest v)) then acc else acc ++ [(up, var)]
      end.

Definition CredentialDrift : rprog (list (string * string)) :=
  f <- step OpRead;;
  let snap := drift_snapshot f in
  for_each (sorted_keys snap) (fun up acc =>
    let digests := default ∅ (snap !! up) in
    for_each (sorted_keys digests) (drift_one up digests) acc) [].

(** Pending and changed. *)
Definition Backlog : rprog (result foreign (Z * Z)) :=
  r <- perform RQuarList;;
  Ret match r with
      | Err e => Err e
      | Ok tools =>
          let count s := Z.of_nat (length (List.filter (fun t => bool_decide (TStatus t = s)) tools)) in
          Ok (count StatusPending, count StatusChanged)
      end.
End rounds.
