(* ===== verification/World.v ===== *)
(** * Rounds among other requests

    A gateway at work: at most one round at a time ([refreshMu]), its steps interleaved with what calls
    and the operator's other commands do to the fleet meanwhile.  [w_open] is what exists outside the
    program: the connections dialed and not yet closed.  [triple] is a rely-guarantee logic over the
    rounds' programs, [system_invariant] what it gives for every reachable moment. *)
From Stdlib Require Import ZArith Lia Ascii.
From stdpp Require Import base strings list gmap fin_map_dom.
From S2P Require Import Prelude.
From S2P Require Import GoStrings.
From S2P Require Import Visible.
From S2P Require Import GoTime.
From S2P Require Import Encode.
From S2P Require Import Registry.
From S2P Require Import Signer.
From S2P Require Import Quota.
From S2P Require Import Access.
From S2P Require Import Redact.
From S2P Require Import Prog.
From S2P Require Import GatewayTypes.
From S2P Require Import Routing.
From S2P Require Import Fleet.
From S2P Require Import Dispatch.
From S2P Require Import Rounds.

Section world.
Context `{SV : SchemaValidator}.

Abbreviation rprog := (prog (E := round_effects)).
Abbreviation rreply e := (reply (rans e)).

Record world := World { w_fleet : fleet; w_open : gset handle }.

Definition handles (m : gmap string handle) : gset handle := map_img m.

(** What can happen between two steps of a round: a call finds a process dead or writes the state of
    health, the operator asks for a redial, the gateway is closed. *)
Inductive interferes : world -> world -> Prop :=
| i_gone now name up f o : interferes (World f o) (World (markGone now name up f).1 o)
| i_redial now name f o : interferes (World f o) (World (redial now name f).1 o)
| i_written written f o : interferes (World f o) (World (clear_dirty written f) o)
| i_close f o : interferes (World f o) (World (close f).1 (o ∖ handles (close f).2)).

Definition interference : world -> world -> Prop := rtc interferes.

(** What an effect does to the world. *)
Definition reacts (e : reff) : world -> rreply e -> world -> Prop :=
  match e as e return world -> rreply e -> world -> Prop with
  | RFleet op => fun w r w' =>
      r = Val (fleet_step op (w_fleet w)).2 /\ w' = World (fleet_step op (w_fleet w)).1 (w_open w)
  | RDial spec env => fun w r w' =>
      match r with
      | Val (Ok h) => h ∉ w_open w /\ w' = World (w_fleet w) ({[h]} ∪ w_open w)
      | _ => w' = w
      end
  | RClose h => fun w _ w' => w' = World (w_fleet w) (w_open w ∖ {[h]})
  | _ => fun w _ w' => w' = w
  end.

(** An environment: what it may answer. *)
Variable answers : forall e : reff, rreply e -> Prop.

Definition world_step (w : world) (e : reff) (r : rreply e) (w' : world) : Prop :=
  ok_reply (E := round_effects) e r /\ answers e r /\ reacts e w r w'.

(** ** The logic *)

(** [I] holds at every moment. *)
Variable I : world -> Prop.
Hypothesis I_stable : forall w w', I w -> interferes w w' -> I w'.

(** From [w], interfered with at every point, the program keeps [I] and ends in [Q]. *)
Fixpoint safe {A} (p : rprog A) (Q : A -> world -> Prop) (w : world) : Prop :=
  match p with
  | Ret a => forall w1, interference w w1 -> Q a w1
  | Panic _ => True
  | Vis e k => forall w1 r w2, interference w w1 -> world_step w1 e r w2 -> I w2 /\ safe (k r) Q w2
  end.

Definition triple {A} (P : world -> Prop) (p : rprog A) (Q : A -> world -> Prop) : Prop :=
  forall w, I w -> P w -> safe p Q w.

(** What no interference breaks. *)
Definition stable (P : world -> Prop) : Prop := forall w w', I w -> P w -> interferes w w' -> P w'.

Lemma I_interference w w' : I w -> interference w w' -> I w'.
Proof. intros Hw H. revert Hw. induction H; eauto. Qed.

Lemma stable_interference P w w' : stable P -> I w -> P w -> interference w w' -> P w'.
Proof. intros HP Hi Hp H. revert Hi Hp. induction H; eauto. Qed.

Lemma safe_mono {A} (p : rprog A) (Q R : A -> world -> Prop) w :
  I w -> (forall a w, I w -> Q a w -> R a w) -> safe p Q w -> safe p R w.
Proof.
  intros Hi HQ. revert w Hi. induction p as [a|d|e k IH]; intros w Hi; cbn; [|done|].
  - intros H w1 H1. apply HQ; [by eapply I_interference|eauto].
  - intros H w1 r w2 H1 H2. destruct (H w1 r w2 H1 H2). split; [done|]. by apply IH.
Qed.

Lemma safe_bind {A B} (p : rprog A) (f : A -> rprog B) Q w :
  safe p (fun a => safe (f a) Q) w -> safe (bind p f) Q w.
Proof.
  revert w. induction p as [a|d|e k IH]; intros w; cbn; [|done|].
  - intros H. by apply H.
  - intros H w1 r w2 H1 H2. destruct (H w1 r w2 H1 H2). split; [done|]. by apply IH.
Qed.

Lemma triple_bind {A B} (p : rprog A) (f : A -> rprog B) P R Q :
  triple P p R -> (forall a, triple (R a) (f a) Q) -> triple P (bind p f) Q.
Proof.
  intros Hp Hf w Hi HP. apply safe_bind. eapply safe_mono; [done| |by apply Hp]. intros a w' Hi' Ha. by apply Hf.
Qed.

Lemma triple_mono {A} (p : rprog A) (P P' : world -> Prop) (Q Q' : A -> world -> Prop) :
  triple P' p Q' -> (forall w, I w -> P w -> P' w) -> (forall a w, I w -> Q' a w -> Q a w) -> triple P p Q.
Proof. intros H HP HQ w Hi Hw. eapply safe_mono; [done|exact HQ|]. apply H; auto. Qed.

Lemma triple_ret {A} (a : A) (P : world -> Prop) (Q : A -> world -> Prop) :
  stable P -> (forall w, I w -> P w -> Q a w) -> triple P (Ret a) Q.
Proof.
  intros HP HQ w Hi Hw. cbn. intros w1 H1. apply HQ; [by eapply I_interference|by eapply stable_interference].
Qed.

(** One effect. *)
Lemma triple_perform (e : reff) (P : world -> Prop) (Q : rans e -> world -> Prop) :
  stable P -> (forall a, stable (Q a)) ->
  (forall w x w', I w -> P w -> world_step w e (Val x) w' -> I w' /\ Q x w') ->
  (forall w w', I w -> P w -> world_step w e Blew w' -> I w') ->
  triple P (perform e) Q.
Proof.
  intros HP HQ HV HB w Hi Hw. cbn. intros w1 [x|] w2 H1 H2.
  - destruct (HV w1 x w2) as [? Hq]; [by eapply I_interference|by eapply stable_interference|done|].
    split; [done|]. cbn. intros w3 H3. by eapply stable_interference.
  - split; [|done]. eapply HB; [by eapply I_interference|by eapply stable_interference|done].
Qed.

(** One step on the fleet. *)
Lemma triple_step (op : fleet_op) (P : world -> Prop) (Q : fans op -> world -> Prop) :
  stable P -> (forall a, stable (Q a)) ->
  (forall f o, I (World f o) -> P (World f o) ->
     I (World (fleet_step op f).1 o) /\ Q (fleet_step op f).2 (World (fleet_step op f).1 o)) ->
  triple P (step op) Q.
Proof.
  intros HP HQ H. apply (triple_perform (RFleet op)); [done|done| |].
  - intros [f o] x w' Hi Hw (_ & _ & Hx & ->). cbn in *. injection Hx as ->. by apply H.
  - intros [f o] w' Hi Hw (_ & _ & Hx & _). done.
Qed.

(** ** Programs that touch neither the table nor the connections *)

(** What the rounds are about; the steps that leave it alone. *)
Definition same_core (f g : fleet) : Prop :=
  f_conns f = f_conns g /\ f_dialed f = f_dialed g /\ f_routes f = f_routes g /\ f_confirmed f = f_confirmed g
  /\ f_suspended f = f_suspended g /\ f_closed f = f_closed g /\ f_controls f = f_controls g.

Definition benign (op : fleet_op) : bool :=
  match op with
  | OpRead | OpLastRound _ | OpTakeGone _ _ | OpMarkGone _ _ _ | OpMarkListed _ _ _ | OpSettle _ _ _ _ _ | OpRecordListing _ _
  | OpLoadListings _ | OpNoteSignature _ _ | OpForgetSignatures _ | OpRemember _ _ | OpRedial _ _ | OpClearDirty _ => true
  | _ => false
  end.

Lemma same_core_refl f : same_core f f.
Proof. done. Qed.

Lemma same_core_trans f g h : same_core f g -> same_core g h -> same_core f h.
Proof. unfold same_core. intuition congruence. Qed.

Lemma same_core_sym f g : same_core f g -> same_core g f.
Proof. unfold same_core. intuition congruence. Qed.

Lemma observeLive_core name live cause attempted now f : same_core (observeLive name live cause attempted now f).1 f.
Proof. unfold observeLive. by destruct (observe_record _ _ _ _ _ _). Qed.

Lemma observe_core name live cause attempted now f f' ev :
  observeLive name live cause attempted now f = (f', ev) -> same_core f' f.
Proof. intros H. pose proof (observeLive_core name live cause attempted now f) as Hc. by rewrite H in Hc. Qed.

Lemma settle_core servable keep frozen dialed now f : same_core (settleHealth servable keep frozen dialed now f).1 f.
Proof.
  unfold settleHealth. set (next := list_to_set servable).
  assert (H1 : forall l f0 evs, same_core (foldl (settle_each frozen dialed now) (f0, evs) l).1 f0).
  { induction l as [|x l IH]; intros f0 evs; [done|]. cbn [foldl]. unfold settle_each at 2.
    destruct (life _ _ _ _) as [live cause]. destruct (observeLive _ _ _ _ _ _) as [f1 ev] eqn:Ho.
    eapply same_core_trans; [apply IH|]. by eapply observe_core. }
  assert (H2 : forall l f0 evs, same_core (foldl (forget_each next keep) (f0, evs) l).1 f0).
  { induction l as [|x l IH]; intros f0 evs; [done|]. cbn [foldl]. unfold forget_each at 2.
    destruct (_ || _); [apply IH|]. unfold forgetHealth. destruct (f_health f0 !! x); [|apply IH].
    by eapply same_core_trans; [apply IH|]. }
  specialize (H1 servable f []). destruct (foldl (settle_each _ _ _) _ _) as [f1 ev1].
  specialize (H2 (sorted_keys (f_health f1)) f1 ev1). destruct (foldl (forget_each _ _) _ _) as [f2 ev2].
  cbn [fst] in *. eapply same_core_trans; [|exact H1]. by eapply same_core_trans; [|exact H2].
Qed.

Lemma markGone_core now name up f : same_core (markGone now name up f).1 f.
Proof.
  unfold markGone. destruct (negb _); [done|]. destruct (_ && _); [done|].
  destruct (observeLive _ _ _ _ _ _) as [f2 ev] eqn:Ho. apply observe_core in Ho.
  destruct (f_heldBack f2); [|exact Ho]. destruct (f_health f2 !! name); exact Ho.
Qed.

Lemma markListed_core now name up f : same_core (markListed now name up f).1 f.
Proof.
  unfold markListed. destruct (negb _); [done|]. destruct (f_health _ !! name); [|done].
  case_bool_decide; [done|]. destruct (observeLive _ _ _ _ _ _) as [f2 ev] eqn:Ho. by apply observe_core in Ho.
Qed.

Lemma redial_core now name f : same_core (redial now name f).1 f.
Proof.
  unfold redial. destruct (f_closed f); [done|]. destruct (_ && _); [done|]. destruct (f_heldBack f); [done|].
  destruct (f_conns f !! name); [|done]. case_bool_decide; [done|]. destruct (f_health _ !! name); [|done].
  destruct (observeLive _ _ _ _ _ _) as [f2 ev] eqn:Ho. by apply observe_core in Ho.
Qed.

Lemma benign_core op f : benign op = true -> same_core (fleet_step op f).1 f.
Proof.
  destruct op; try done; intros _; cbn [fleet_step fst].
  - unfold takeGone. by destruct (f_gone f !! name).
  - apply markGone_core.
  - apply markListed_core.
  - apply settle_core.
  - unfold noteSignature. destruct r as [[]|]; try done; by case_bool_decide.
  - apply redial_core.
Qed.

(** A property of the table and the connections. *)
Definition core_only (P : world -> Prop) : Prop :=
  forall f g o, same_core f g -> P (World f o) -> P (World g o).

(** Such a property is stable when closing the gateway keeps it. *)
Lemma stable_core (P : world -> Prop) :
  core_only P ->
  (forall f o, I (World f o) -> P (World f o) -> P (World (close f).1 (o ∖ handles (close f).2))) -> stable P.
Proof.
  intros Hc Hclose w w' Hi Hw H. destruct H; [| | |by apply Hclose].
  - eapply Hc; [|exact Hw]. apply same_core_sym, markGone_core.
  - eapply Hc; [|exact Hw]. apply same_core_sym, redial_core.
  - by eapply Hc; [|exact Hw].
Qed.

(** What a program can return, the environment answering as it may. *)
Fixpoint ensures {A} (p : rprog A) (Q : A -> Prop) : Prop :=
  match p with
  | Ret a => Q a
  | Panic _ => True
  | Vis e k => forall r, ok_reply (E := round_effects) e r -> answers e r -> ensures (k r) Q
  end.

Lemma ensures_mono {A} (p : rprog A) (Q R : A -> Prop) : (forall a, Q a -> R a) -> ensures p Q -> ensures p R.
Proof. intros H. induction p as [a|d|e k IH]; cbn; eauto. Qed.

Lemma ensures_true {A} (p : rprog A) (Q : A -> Prop) : (forall a, Q a) -> ensures p Q.
Proof. intros H. induction p as [a|d|e k IH]; cbn; eauto. Qed.

Lemma ensures_bind {A B} (p : rprog A) (f : A -> rprog B) Q :
  ensures p (fun a => ensures (f a) Q) -> ensures (bind p f) Q.
Proof. induction p as [a|d|e k IH]; cbn; eauto. Qed.

Lemma ensures_perform e (Q : rans e -> Prop) : (forall x, answers e (Val x) -> Q x) -> ensures (perform e) Q.
Proof. intros H [x|] _ Ha; cbn; [by apply H|done]. Qed.

Lemma ensures_loop {X B} (items : list X) (body : X -> B -> rprog B) (acc : B) (R : list X -> B -> Prop) :
  (forall x rest acc, R (x :: rest) acc -> ensures (body x acc) (R rest)) -> R items acc ->
  ensures (for_each items body acc) (R []).
Proof.
  intros Hb. revert acc. induction items as [|x items IH]; intros acc Ha; cbn [for_each]; [done|].
  apply ensures_bind. eapply ensures_mono; [|by apply Hb]. auto.
Qed.

Lemma ensures_for_each {X B} (items : list X) (body : X -> B -> rprog B) (acc : B) (R : B -> Prop) :
  (forall x acc, x ∈ items -> R acc -> ensures (body x acc) R) -> R acc -> ensures (for_each items body acc) R.
Proof.
  intros Hb Ha. eapply ensures_mono;
    [|apply (ensures_loop _ _ _ (fun rest acc => (forall x, x ∈ rest -> x ∈ items) /\ R acc)); [|done]].
  - by intros a [_ H].
  - intros x rest b [Hin Hr]. eapply ensures_mono; [|apply Hb; [apply Hin, list_elem_of_here|done]].
    intros b' Hb'. split; [|done]. intros y Hy. apply Hin. by apply elem_of_cons; right.
Qed.

Lemma ensures_conj {A} (p : rprog A) (Q R : A -> Prop) : ensures p Q -> ensures p R -> ensures p (fun a => Q a /\ R a).
Proof. induction p as [a|d|e k IH]; cbn; eauto. Qed.

Lemma ensures_impl {A} (p : rprog A) (P : Prop) (Q : A -> Prop) : (P -> ensures p Q) -> ensures p (fun a => P -> Q a).
Proof.
  intros H. induction p as [a|d|e k IH]; cbn in *; [done|done|]. intros r Hok Ha. apply IH. intros HP. by apply H.
Qed.

Lemma triple_ensures {A} (p : rprog A) P Q (R : A -> Prop) :
  triple P p Q -> ensures p R -> triple P p (fun a w => Q a w /\ R a).
Proof.
  intros Ht Hr w Hi Hw. specialize (Ht w Hi Hw). clear Hi Hw. revert w Ht Hr. induction p as [a|d|e k IH]; intros w; cbn; [|done|].
  - intros Hq Hr w1 H1. by split; [apply Hq|].
  - intros Hq Hr w1 r w2 H1 H2. destruct (Hq w1 r w2 H1 H2) as [Hi2 Hs]. split; [done|]. destruct H2 as (Hok & Ha & _).
    apply IH; [done|]. by apply Hr.
Qed.

(** The steps that leave the table and the connections alone, and keep [I]. *)
Variable quiet_op : fleet_op -> bool.
Hypothesis quiet_benign : forall op, quiet_op op = true -> benign op = true.
Hypothesis quiet_I : forall op f o, quiet_op op = true -> I (World f o) -> I (World (fleet_step op f).1 o).

Definition noisy (e : reff) : Prop :=
  match e with RFleet op => quiet_op op = false | RDial _ _ | RClose _ => True | _ => False end.

Lemma triple_quiet {A} (p : rprog A) (P : world -> Prop) (Q : A -> Prop) :
  core_only P -> stable P -> never (E := round_effects) noisy p -> ensures p Q -> triple P p (fun a w => P w /\ Q a).
Proof.
  intros Hc Hs Hn Hq w Hi Hw. revert w Hi Hw Hn Hq. induction p as [a|d|e k IH]; intros w Hi Hw; cbn; [|done|].
  - intros _ Hq w1 H1. split; [by eapply stable_interference|done].
  - intros [Hne Hnk] Hq w1 r w2 H1 (Hok & Ha & Hr).
    cut (I w2 /\ P w2).
    { intros [Hi2 Hw2]. split; [done|]. apply IH; [done..|by apply Hnk|by apply Hq]. }
    pose proof (I_interference _ _ Hi H1) as Hi1. pose proof (stable_interference _ _ _ Hs Hi Hw H1) as Hp1.
    destruct w1 as [f1 o1], e; cbn in Hne, Hr; try (by subst w2); try (by destruct Hne).
    destruct Hr as [_ ->]. cbn [w_fleet w_open]. apply not_false_is_true in Hne.
    split; [by apply quiet_I|eapply Hc; [|exact Hp1]]. by apply same_core_sym, benign_core, quiet_benign.
Qed.

(** Loops. *)
Lemma triple_for_each {X B} (items : list X) (body : X -> B -> rprog B) (acc : B) (R : list X -> B -> world -> Prop) :
  (forall l b, stable (R l b)) ->
  (forall x rest b, triple (R (x :: rest) b) (body x b) (R rest)) ->
  triple (R items acc) (for_each items body acc) (R []).
Proof.
  intros Hs Hb. revert acc. induction items as [|x items IH]; intros acc; cbn [for_each].
  - by apply triple_ret.
  - eapply triple_bind; [apply Hb|]. done.
Qed.

Lemma triple_concurrently {X B} (items : list X) (body : X -> B -> rprog B) (acc : B) (R : list X -> B -> world -> Prop) :
  (forall l b, core_only (R l b)) -> (forall l b, stable (R l b)) ->
  (forall l i x b, l !! i = Some x -> triple (R l b) (body x b) (R (delete i l))) ->
  triple (R items acc) (concurrently items body acc) (R []).
Proof.
  intros Hc Hs Hb. unfold concurrently. revert acc. remember (length items) as n eqn:Hn.
  revert items Hn. induction n as [|n IH]; intros items Hn acc; cbn [as_they_arrive].
  - symmetry in Hn. apply nil_length_inv in Hn as ->. by apply triple_ret.
  - eapply triple_bind; [apply (triple_quiet (perform (RArrives (length items))) (R items acc) (fun _ => True)); try done|].
    { split; [by intros []|]. by intros []. }
    { by apply ensures_true. }
    intros i. eapply triple_mono; [|by intros w _ [Hw _]; exact Hw|by intros a w _ Hq; exact Hq].
    set (j := (i mod length items)%nat). assert (is_Some (items !! j)) as [x Hx].
    { apply lookup_lt_is_Some. apply Nat.mod_upper_bound. lia. }
    rewrite Hx. eapply triple_bind; [by apply (Hb items j)|]. intros b. apply IH.
    rewrite length_delete by (by eexists). lia.
Qed.

(** ** One round, by itself *)

Inductive pstep {A} : world * rprog A -> world * rprog A -> Prop :=
| p_effect w e k r w' : world_step w e r w' -> pstep (w, Vis e k) (w', k r)
| p_other w w' p : interferes w w' -> pstep (w, p) (w', p).

Lemma safe_other {A} (p : rprog A) Q w w' : interferes w w' -> safe p Q w -> safe p Q w'.
Proof.
  intros H. destruct p as [a|d|e k]; cbn; [|done|].
  - intros Hq w1 H1. apply Hq. by eapply rtc_l.
  - intros Hq w1 r w2 H1. apply Hq. by eapply rtc_l.
Qed.

(** What a round run to its end returned, and the world it left. *)
Lemma safe_run {A} (p : rprog A) Q w s : I w -> safe p Q w -> rtc pstep (w, p) s -> I s.1 /\ safe s.2 Q s.1.
Proof.
  intros Hi Hp H. remember (w, p) as s0 eqn:Hs0.
  assert (H0 : I s0.1 /\ safe s0.2 Q s0.1) by (subst; by split). clear Hs0 Hi Hp. induction H as [s|s s' s'' Hstep _ IH]; [done|].
  apply IH. destruct H0 as [Hi Hp]. destruct Hstep as [w1 e k r w2 Hw|w1 w2 q Hw]; cbn in *.
  - by eapply (Hp w1 r w2 (rtc_refl _ _)).
  - split; [by eapply I_stable|by eapply safe_other].
Qed.

Lemma triple_run {A} (p : rprog A) P Q w w' a :
  triple P p Q -> I w -> P w -> rtc pstep (w, p) (w', Ret a) -> Q a w'.
Proof. intros Ht Hi Hp H. apply (safe_run p Q w) in H as [_ Hq]; [|done|by apply Ht]. apply Hq, rtc_refl. Qed.

(** ** A gateway at work *)

Variable round : rprog round_end -> Prop.

(** The world, and the round in progress if there is one. *)
Inductive gstep : world * option (rprog round_end) -> world * option (rprog round_end) -> Prop :=
| g_start w p : round p -> gstep (w, None) (w, Some p)
| g_effect w e k r w' : world_step w e r w' -> gstep (w, Some (Vis e k)) (w', Some (k r))
| g_done w a : gstep (w, Some (Ret a)) (w, None)
| g_other w w' p : interferes w w' -> gstep (w, p) (w', p).

(** [I] at every moment, [J] whenever no round is in progress. *)
Lemma system_invariant (J : world -> Prop) w0 s :
  stable J -> (forall p, round p -> triple J p (fun _ => J)) -> I w0 -> J w0 -> rtc gstep (w0, None) s ->
  I s.1 /\ match s.2 with None => J s.1 | Some p => safe p (fun _ => J) s.1 end.
Proof.
  intros HJ Hr Hi0 Hj0 H. remember (w0, None) as s0 eqn:Hs0.
  assert (H0 : I s0.1 /\ match s0.2 with None => J s0.1 | Some p => safe p (fun _ => J) s0.1 end) by (by subst).
  clear Hs0 Hi0 Hj0. induction H as [s|s s' s'' Hstep _ IH]; [done|]. apply IH. clear IH.
  destruct Hstep as [w p Hp|w e k r w' Hw|w a|w w' p Hw]; cbn in *; destruct H0 as [Hi Hq].
  - split; [done|]. by apply (Hr p Hp).
  - by eapply (Hq w r w' (rtc_refl _ _)).
  - split; [done|]. apply Hq, rtc_refl.
  - split; [by eapply I_stable|]. destruct p as [p|]; [by eapply safe_other|by eapply HJ].
Qed.
End world.

(** ** Running a round against an environment that is a function *)

Section play.
Context `{SV : SchemaValidator}.
Abbreviation rprog := (prog (E := round_effects)).

Variable handler : forall e : reff, world -> reply (rans e).

Definition reply_of (e : reff) (w : world) : reply (rans e) :=
  match e with RFleet op => Val (fleet_step op (w_fleet w)).2 | e => handler e w end.

Definition react (e : reff) (w : world) : reply (rans e) -> world :=
  match e with
  | RFleet op => fun _ => World (fleet_step op (w_fleet w)).1 (w_open w)
  | RDial _ _ => fun r => match r with Val (Ok h) => World (w_fleet w) ({[h]} ∪ w_open w) | _ => w end
  | RClose h => fun _ => World (w_fleet w) (w_open w ∖ {[h]})
  | _ => fun _ => w
  end.

Fixpoint play {A} (p : rprog A) (w : world) : world * outcome A :=
  match p with
  | Ret a => (w, Done a)
  | Panic d => (w, Panicked d)
  | Vis e k => play (k (reply_of e w)) (react e w (reply_of e w))
  end.

(** The environment answers something it may, and dials are new. *)
Definition fair (answers : forall e : reff, reply (rans e) -> Prop) : Prop :=
  forall e w, answers e (reply_of e w) /\ ok_reply (E := round_effects) e (reply_of e w)
    /\ match e as e return reply (rans e) -> Prop with
       | RDial _ _ => fun r => match r with Val (Ok h) => h ∉ w_open w | _ => True end
       | _ => fun _ => True
       end (reply_of e w).

Lemma fair_step answers e w : fair answers -> world_step answers w e (reply_of e w) (react e w (reply_of e w)).
Proof.
  intros Hf. destruct (Hf e w) as (Ha & Hok & Hd). split; [done|]. split; [done|].
  destruct e; try done. cbn in *. destruct (handler _ w) as [[h|er]|]; done.
Qed.

Lemma play_runs {A} answers (p : rprog A) w w' a :
  fair answers -> play p w = (w', Done a) -> rtc (pstep answers) (w, p) (w', Ret a).
Proof.
  intros Hf. revert w. induction p as [x|d|e k IH]; intros w; cbn [play]; [by intros [= <- <-]|done|].
  intros H. eapply rtc_l; [apply p_effect; by apply fair_step|]. by apply IH.
Qed.

(** The same as moves of the whole system. *)
Lemma play_system answers round p w w' a :
  fair answers -> round p -> play p w = (w', Done a) -> rtc (gstep answers round) (w, None) (w', None).
Proof.
  intros Hf Hr Hp. eapply rtc_l; [by apply g_start|].
  apply (rtc_r _ (w', Some (Ret a))); [|apply g_done]. clear Hr. revert w Hp. induction p as [x|d|e k IH]; intros w; cbn [play].
  - by intros [= <- <-].
  - done.
  - intros H. eapply rtc_l; [apply g_effect; by apply fair_step|]. by apply IH.
Qed.
End play.

