(* ===== verification/Moments.v ===== *)
(** * What holds at every moment of a gateway at work ([internal/gateway/endpoint.go])

    [sound]: the table routes only checked definitions under names that give their backend back, serves
    nothing while the registry is unread, and only connections dialed from accepted entries; every
    program of Rounds.v keeps it, whatever interferes. *)
From Stdlib Require Import ZArith Lia Ascii.
From stdpp Require Import base strings list gmap fin_map_dom.
From S2P Require Import Prelude.
From S2P Require Import GoStrings.
From S2P Require Import Visible.
From S2P Require Import GoTime.
From S2P Require Import Encode.
From S2P Require Import Registry.
From S2P Require Import Signer.
From S2P Require Import Quota.
From S2P Require Import Quarantine.
From S2P Require Import Access.
From S2P Require Import Redact.
From S2P Require Import Prog.
From S2P Require Import GatewayTypes.
From S2P Require Import ToolSchema.
From S2P Require Import Routing.
From S2P Require Import Fleet.
From S2P Require Import Dispatch.
From S2P Require Import Rounds.
From S2P Require Import World.

(** ** Names *)

Lemma Namespaced_splits u t :
  contains_byte u "." = false -> u <> "" -> t <> "" -> SplitNamespaced (Namespaced u t) = Some (u, t).
Proof.
  intros Hu Hu0 Ht. unfold SplitNamespaced, Namespaced, NameSeparator.
  change ("." +:+ t) with (String "." t). rewrite cut_no_byte by done. by rewrite !bool_decide_eq_false_2.
Qed.

Lemma ValidName_plain u : ValidName u = true -> contains_byte u "." = false /\ u <> "".
Proof.
  unfold ValidName. intros [Hs _]%andb_true_iff. split; [by apply safeUpstreamName_no_dot|]. by intros ->.
Qed.

Lemma ValidToolName_nonempty t : ValidToolName t = true -> t <> "".
Proof. by intros H ->. Qed.

Section safety.
Context `{UT : UnicodeTables} `{PT : PrintTable} `{SV : SchemaValidator} `{HF : HashFunction} `{ED : Ed25519} `{UP : UrlParser}.

Abbreviation table := (gmap string routedTool).
Abbreviation rprog := (prog (E := round_effects)).

(** ** The type of a route *)

(** What [routesFor] checks of a definition before it is served. *)
Definition servable_def (d : ToolDef) (output : option schema) : Prop :=
  ValidToolName (DName d) = true /\ DefinitionSize d <= MaxToolDefinitionBytes
  /\ validateSchema (DInputSchema d) = Ok tt /\ resolveOutputSchema (DOutputSchema d) = Some output.

(** A row of the table: the name gives the backend and the tool back, and the definition was checked. *)
Definition well_routed (name : string) (rt : routedTool) : Prop :=
  ValidName (upstream (rt_route rt)) = true
  /\ name = Namespaced (upstream (rt_route rt)) (originalName (rt_route rt))
  /\ SplitNamespaced name = Some (upstream (rt_route rt), originalName (rt_route rt))
  /\ originalName (rt_route rt) = DName (rt_def rt)
  /\ servable_def (rt_def rt) (rt_output rt).

Definition typed (t : table) : Prop := forall name rt, t !! name = Some rt -> well_routed name rt.

Lemma well_routed_route u d output :
  ValidName u = true -> servable_def d output -> well_routed (Namespaced u (DName d)) (route_to u d output).
Proof.
  intros Hu Hd. unfold well_routed, route_to. cbn. destruct (ValidName_plain u Hu) as [Hp Hn].
  split_and!; try done. apply Namespaced_splits; [done|done|]. by apply ValidToolName_nonempty, Hd.
Qed.

Lemma typed_empty : typed ∅.
Proof. intros name rt H. by rewrite lookup_empty in H. Qed.

Lemma typed_subseteq t t' : typed t' -> t ⊆ t' -> typed t.
Proof. intros Ht Hs name rt H. apply Ht. by eapply lookup_weaken. Qed.

Lemma typed_insert t name rt : typed t -> well_routed name rt -> typed (<[name := rt]> t).
Proof. intros Ht Hr n r. destruct (decide (n = name)) as [->|Hne]; [rewrite lookup_insert_eq; by intros [= <-]|rewrite lookup_insert_ne by done; apply Ht]. Qed.

Lemma foldr_delete_subseteq {A} (m : gmap string A) ks : foldr delete m ks ⊆ m.
Proof. apply map_subseteq_spec. intros k x. rewrite foldr_delete_lookup. by destruct (bool_decide _). Qed.

Lemma typed_merge candidates :
  (forall u t, candidates !! u = Some t -> typed t) -> typed (mergeRoutes candidates).1.
Proof.
  intros Hc name rt H. apply mergeRoutes_lookup in H as (u & (t & Ht & Hr) & _). by eapply Hc.
Qed.

(** ** What holds at every moment *)

Definition injective (m : gmap string handle) : Prop := forall a b h, m !! a = Some h -> m !! b = Some h -> a = b.

Record sound (f : fleet) : Prop := Sound {
  s_typed : typed (f_routes f);
  s_declared : forall name, is_Some (f_routes f !! name) -> undeclared_tool (ctl_plan (f_controls f)) name = false;
  s_confirmed : f_confirmed f = false \/ f_suspended f = true \/ f_closed f = true -> f_routes f = ∅;
  s_closed : f_closed f = true -> f_conns f = ∅;
  s_dialed : forall name e, f_dialed f !! name = Some e -> Validate e = None /\ Name e = name;
  s_dom : dom (f_conns f) = dom (f_dialed f);
  s_names : forall name, is_Some (f_health f !! name) \/ is_servable f name = true -> ValidName name = true
}.

(** And of the processes outside: what the table serves is open, and each connection serves one backend. *)
Definition moment (w : world) : Prop :=
  sound (w_fleet w) /\ injective (f_conns (w_fleet w)) /\ handles (f_conns (w_fleet w)) ⊆ w_open w.

(** The names the health records and the servable set hold. *)
Definition named (f : fleet) : Prop :=
  forall name, is_Some (f_health f !! name) \/ is_servable f name = true -> ValidName name = true.

Lemma sound_core f g : same_core f g -> sound f -> named g -> sound g.
Proof.
  intros (Hc & Hd & Hr & Hcf & Hs & Hcl & Hct) [H1 H2 H3 H4 H5 H6 H7] Hn.
  split; rewrite <- ?Hc, <- ?Hd, <- ?Hr, <- ?Hcf, <- ?Hs, <- ?Hcl, <- ?Hct; done.
Qed.

Lemma moment_core f g o : same_core f g -> moment (World f o) -> named g -> moment (World g o).
Proof.
  intros Hc (Hs & Hi & Ho) Hn. split; [by eapply sound_core|]. cbn in *. destruct Hc as (Hc & _). by rewrite <- Hc.
Qed.

Lemma sound_named f : sound f -> named f.
Proof. by intros [_ _ _ _ _ _ H]. Qed.

Lemma conns_named f name up : sound f -> f_conns f !! name = Some up -> ValidName name = true.
Proof.
  intros Hs Hc. assert (name ∈ dom (f_dialed f)) as [e He]%elem_of_dom.
  { rewrite <- (s_dom f Hs). apply elem_of_dom. eauto. }
  destruct (s_dialed f Hs name e He) as [Hv <-]. by apply Validate_None in Hv as [Hn _].
Qed.

Lemma named_observe name live cause attempted now f f' ev :
  named f -> ValidName name = true -> observeLive name live cause attempted now f = (f', ev) -> named f'.
Proof.
  intros Hn Hv. unfold observeLive. destruct (observe_record _ _ _ _ _ _) as [b0 e]. intros [= <- <-] x. cbn.
  intros [Hx|Hx]; [|by apply Hn; right]. destruct (decide (x = name)) as [->|Hne]; [done|].
  rewrite lookup_insert_ne in Hx by done. apply Hn. by left.
Qed.

Lemma named_settle servable keep frozen dialed now f :
  named f -> Forall (fun n => ValidName n = true) servable -> named (settleHealth servable keep frozen dialed now f).1.
Proof.
  intros Hn Hv. unfold settleHealth. set (next := list_to_set servable).
  assert (H1 : forall l f0 evs, Forall (fun n => ValidName n = true) l -> named f0 ->
    named (foldl (settle_each frozen dialed now) (f0, evs) l).1).
  { induction l as [|x l IH]; intros f0 evs Hl H0; [done|]. cbn [foldl]. unfold settle_each at 2.
    apply Forall_cons in Hl as [Hx Hl]. destruct (life _ _ _ _) as [live cause].
    destruct (observeLive _ _ _ _ _ _) as [f1 ev] eqn:Ho. apply IH; [done|]. by eapply named_observe. }
  assert (H2 : forall l f0 evs, named f0 -> named (foldl (forget_each next keep) (f0, evs) l).1).
  { induction l as [|x l IH]; intros f0 evs H0; [done|]. cbn [foldl]. unfold forget_each at 2.
    destruct (_ || _); [by apply IH|]. unfold forgetHealth. destruct (f_health f0 !! x); [|by apply IH].
    apply IH. intros y. cbn. intros [[bx Hy]|Hy]; [|by apply H0; right].
    apply lookup_delete_Some in Hy as [_ Hy]. apply H0. left. eauto. }
  specialize (H1 servable f [] Hv Hn). destruct (foldl (settle_each _ _ _) _ _) as [f1 ev1]. cbn [fst] in H1.
  specialize (H2 (sorted_keys (f_health f1)) f1 ev1 H1). destruct (foldl (forget_each _ _) _ _) as [f2 ev2].
  cbn [fst] in *. intros x. cbn. intros [Hx|Hx]; [apply H2; by left|].
  apply bool_decide_eq_true in Hx. rewrite elem_of_union, !elem_of_list_to_set, elem_of_sorted_keys in Hx.
  destruct Hx as [Hx%elem_of_list_to_set|Hx]; [by rewrite Forall_forall in Hv; apply Hv|apply H2; by left].
Qed.

Lemma named_markGone now name up f : sound f -> named (markGone now name up f).1.
Proof.
  intros Hs. unfold markGone. case_bool_decide as Hc; [|by apply sound_named]. cbn [negb].
  destruct (_ && _); [by apply sound_named in Hs|]. destruct (observeLive _ _ _ _ _ _) as [f2 ev] eqn:Ho.
  assert (Hn2 : named f2).
  { eapply named_observe; [|by eapply conns_named|exact Ho]. by apply sound_named in Hs. }
  destruct (f_heldBack f2); [|done]. destruct (f_health f2 !! name) as [b|] eqn:Hb; [|done].
  intros x. cbn. intros [Hx|Hx]; [|apply Hn2; by right]. apply Hn2. left.
  destruct (decide (x = name)) as [->|Hne]; [by eexists|by rewrite lookup_insert_ne in Hx].
Qed.

Lemma named_markListed now name up f : named f -> named (markListed now name up f).1.
Proof.
  intros Hn. unfold markListed. destruct (negb _); [done|]. destruct (f_health _ !! name) eqn:Hh; [|done].
  case_bool_decide; [done|]. destruct (observeLive _ _ _ _ _ _) as [f2 ev] eqn:Ho.
  eapply named_observe; [|apply Hn; left; by eexists|exact Ho]. done.
Qed.

Lemma named_redial now name f : named f -> named (redial now name f).1.
Proof.
  intros Hn. unfold redial. destruct (f_closed f); [done|]. destruct (_ && _); [done|]. destruct (f_heldBack f); [done|].
  destruct (f_conns f !! name); [|done]. case_bool_decide; [done|]. destruct (f_health _ !! name) eqn:Hh; [|done].
  destruct (observeLive _ _ _ _ _ _) as [f2 ev] eqn:Ho. eapply named_observe; [|apply Hn; left; by eexists|exact Ho]. done.
Qed.

(** The steps a round makes besides those on the table and the connections. *)
Definition quiet_op (op : fleet_op) : bool :=
  match op with OpSettle servable _ _ _ _ => forallb ValidName servable | _ => benign op end.

Lemma quiet_benign op : quiet_op op = true -> benign op = true.
Proof. by destruct op. Qed.

Lemma quiet_moment op f o : quiet_op op = true -> moment (World f o) -> moment (World (fleet_step op f).1 o).
Proof.
  intros Hq Hm. eapply moment_core; [by apply same_core_sym, benign_core, quiet_benign|done|].
  destruct Hm as [Hs _]. cbn in Hs. pose proof (sound_named f Hs) as Hn. destruct op; try done; cbn [fleet_step fst].
  - unfold takeGone. by destruct (f_gone f !! name).
  - by apply named_markGone.
  - by apply named_markListed.
  - apply named_settle; [done|]. cbn in Hq. rewrite forallb_forall in Hq. apply Forall_forall. intros x Hx.
    apply Hq. by apply list_elem_of_In.
  - unfold noteSignature. destruct r as [[]|]; try done; by case_bool_decide.
  - by apply named_redial.
Qed.

Lemma handles_empty : handles ∅ = ∅.
Proof. apply map_img_empty_L. Qed.

Lemma moment_close f o : moment (World f o) -> moment (World (close f).1 (o ∖ handles (close f).2)).
Proof.
  intros (Hs & Hi & Ho). unfold close. destruct (f_closed f) eqn:Hc; cbn [fst snd].
  { rewrite handles_empty. split_and!; [done..|]. cbn in *. set_solver. }
  split_and!; cbn; [|intros a b h Ha; by rewrite lookup_empty in Ha|rewrite handles_empty; set_solver].
  apply sound_named in Hs. split; cbn; try done. intros name [x Hx]. by rewrite lookup_empty in Hx.
Qed.

Lemma moment_stable w w' : moment w -> interferes w w' -> moment w'.
Proof.
  intros Hm H. destruct H.
  - by apply (quiet_moment (OpMarkGone now name up)).
  - by apply (quiet_moment (OpRedial now name)).
  - by apply (quiet_moment (OpClearDirty written)).
  - by apply moment_close.
Qed.
End safety.
