(* ===== verification/RoundsSafety.v ===== *)
(** * Every program of the rounds, against the invariant ([internal/gateway/endpoint.go])

    Triples for the programs of Rounds.v: what they hold of connections not yet in the table, and that
    they keep [moment] (Moments.v) whatever interferes. *)
From Stdlib Require Import ZArith Lia Ascii.
From stdpp Require Import base strings list gmap fin_map_dom.
From S2P Require Import Prelude.
From S2P Require Import GoStrings.
From S2P Require Import Visible.
From S2P Require Import GoTime.
From S2P Require Import Encode.
From S2P Require Import Registry.
From S2P Require Import Signer.
From S2P Require Import Quota.
From S2P Require Import Quarantine.
From S2P Require Import Access.
From S2P Require Import Redact.
From S2P Require Import Prog.
From S2P Require Import GatewayTypes.
From S2P Require Import ToolSchema.
From S2P Require Import Routing.
From S2P Require Import Fleet.
From S2P Require Import Dispatch.
From S2P Require Import Rounds.
From S2P Require Import World.
From S2P Require Import Moments.

Create HintDb rounds.

Section rounds.
Context `{UT : UnicodeTables} `{PT : PrintTable} `{SV : SchemaValidator} `{HF : HashFunction} `{ED : Ed25519} `{UP : UrlParser}.
Context (rc : round_config).

Abbreviation table := (gmap string routedTool).
Abbreviation rprog := (prog (E := round_effects)).

Variable answers : forall e : reff, reply (rans e) -> Prop.

Abbreviation triple := (triple answers moment).
Abbreviation stable := (stable moment).
Abbreviation noisy := (noisy quiet_op).
Abbreviation ensures := (ensures answers).

(** The rules, for [moment]. *)
Abbreviation t_bind := (triple_bind answers moment moment_stable _ _ _ _ _).
Abbreviation t_ret := (triple_ret answers moment moment_stable _ _ _).
Abbreviation t_step := (triple_step answers moment moment_stable _ _ _).
Abbreviation t_perform := (triple_perform answers moment moment_stable _ _ _).
Abbreviation t_mono := (triple_mono answers moment moment_stable _ _ _ _ _).
Abbreviation t_for_each := (triple_for_each answers moment moment_stable _ _ _).
Abbreviation t_concurrently := (triple_concurrently answers moment moment_stable quiet_op quiet_benign quiet_moment _ _ _).

(** ** Quiet programs *)

Lemma quiet_triple {A} (p : rprog A) (P : world -> Prop) (Q : A -> Prop) :
  core_only P -> stable P -> never (E := round_effects) noisy p -> ensures p Q -> triple P p (fun a w => P w /\ Q a).
Proof. apply triple_quiet; [exact moment_stable|exact quiet_benign|exact quiet_moment]. Qed.

(** A quiet program in front. *)
Lemma quiet_first {A B} (p : rprog A) (f : A -> rprog B) (P : world -> Prop) (Q : A -> Prop) R :
  core_only P -> stable P -> never (E := round_effects) noisy p -> ensures p Q ->
  (forall a, Q a -> triple P (f a) R) -> triple P (bind p f) R.
Proof.
  intros Hc Hs Hn Hq Hf. eapply t_bind; [by apply (quiet_triple p P Q)|].
  intros a w Hi [Hw Ha]. by apply Hf.
Qed.

Lemma never_lift {A} (p : prog (E := gw_effects) A) : never (E := round_effects) noisy (lift p).
Proof. induction p as [a|d|e k IH]; cbn; [done|done|]. split; [tauto|done]. Qed.

Lemma never_perform e : ~ noisy e -> never (E := round_effects) noisy (perform e).
Proof. apply (never_trigger (E := round_effects) noisy). Qed.

Lemma never_step op : quiet_op op = true -> never (E := round_effects) noisy (step op).
Proof. intros H. apply never_perform. cbn. by rewrite H. Qed.

Lemma never_for_each {X B} (items : list X) (body : X -> B -> rprog B) acc :
  (forall x b, never (E := round_effects) noisy (body x b)) -> never (E := round_effects) noisy (for_each items body acc).
Proof.
  intros Hb. revert acc. induction items as [|x items IH]; intros acc; cbn [for_each]; [done|].
  apply never_bind; [apply Hb|]. intros a. apply IH.
Qed.

Ltac silent :=
  repeat first [ progress intros | done | apply never_lift | by apply never_step | (apply never_perform; cbn; tauto)
               | apply (never_bind (E := round_effects)) | apply never_for_each | case_match ].

Lemma never_verifyEntry entry : never (E := round_effects) noisy (verifyEntry rc entry).
Proof. unfold verifyEntry. silent. Qed.

Lemma never_note_signature name r : never (E := round_effects) noisy (note_signature name r).
Proof. unfold note_signature. silent. Qed.

Lemma never_gate_entries uncounted entries : never (E := round_effects) noisy (gate_entries rc uncounted entries).
Proof.
  unfold gate_entries. apply never_for_each. intros entry acc. unfold gate_entry.
  destruct (Validate entry); [done|]. case_bool_decide; [done|].
  apply (never_bind (E := round_effects)); [apply never_verifyEntry|]. intros r.
  apply (never_bind (E := round_effects)); [apply never_note_signature|done].
Qed.

Lemma never_resolveEnv name vars env : never (E := round_effects) noisy (resolveEnv name vars env).
Proof. revert env. induction vars as [|var vars IH]; intros env; cbn [resolveEnv]; silent. Qed.

Lemma never_routesFor up defs : never (E := round_effects) noisy (routesFor up defs).
Proof. unfold routesFor, route_def, auditQuarantineEvent. silent. Qed.

Lemma never_stableRoutesFor up : never (E := round_effects) noisy (stableRoutesFor up).
Proof. unfold stableRoutesFor, stable_one. silent. Qed.

Lemma never_load_listings : never (E := round_effects) noisy (load_listings rc).
Proof. unfold load_listings. silent. Qed.

Lemma never_persistHealth round : never (E := round_effects) noisy (persistHealth rc round).
Proof. unfold persistHealth. silent. Qed.

Lemma never_start_round : never (E := round_effects) noisy start_round.
Proof. unfold start_round. silent. Qed.

Lemma never_settle servable keep frozen dialed :
  forallb ValidName servable = true -> never (E := round_effects) noisy (settle servable keep frozen dialed).
Proof. intros H. unfold settle, write_events. silent. Qed.

(** ** What they return *)

(** The entries that are not spending a credential uncounted. *)
Definition counted (uncounted : list string) (entries : list UpstreamServer) : list UpstreamServer :=
  List.filter (fun e => negb (bool_decide (Name e ∈ uncounted))) entries.

Lemma ensures_gate_entries uncounted entries :
  ensures (gate_entries rc uncounted entries)
    (fun g => Forall (fun e => Validate e = None) (ga_ready g) /\ ga_ready g `sublist_of` entries
              /\ (ga_failures g = [] -> ga_unmeasured g = [] /\ ga_ready g = counted uncounted entries)).
Proof.
  unfold gate_entries. eapply ensures_mono; [|apply (ensures_loop _ _ _ _ (fun rest g =>
    Forall (fun e => Validate e = None) (ga_ready g) /\ exists pre, entries = pre ++ rest /\ ga_ready g `sublist_of` pre
    /\ (ga_failures g = [] -> ga_unmeasured g = [] /\ ga_ready g = counted uncounted pre)))].
  - intros g (Hf & pre & -> & Hs & Hn). by rewrite app_nil_r.
  - intros e rest g (Hf & pre & -> & Hs & Hn).
    assert (Hskip : forall g', ga_ready g' = ga_ready g ->
      (ga_failures g' = [] -> ga_failures g = [] /\ ga_unmeasured g' = ga_unmeasured g /\ Name e ∈ uncounted) ->
      Forall (fun e => Validate e = None) (ga_ready g') /\ exists pre', pre ++ e :: rest = pre' ++ rest /\ ga_ready g' `sublist_of` pre'
      /\ (ga_failures g' = [] -> ga_unmeasured g' = [] /\ ga_ready g' = counted uncounted pre')).
    { intros g' -> Hfl. split; [done|]. exists (pre ++ [e]). rewrite <- app_assoc. split_and!; [done|by apply sublist_inserts_r|].
      intros (Hg & -> & Hu)%Hfl. destruct (Hn Hg) as [Hnu ->]. split; [done|]. unfold counted. rewrite List.filter_app. cbn.
      by rewrite bool_decide_eq_true_2, app_nil_r. }
    assert (Hno : forall l (x : failure) (P : Prop), l ++ [x] = [] -> P) by (intros [|] x P; done).
    unfold gate_entry. destruct (Validate e) eqn:Hv; [apply Hskip; [done|]; cbn; intros Hx; by eapply Hno|].
    case_bool_decide as Hu; [by apply Hskip|].
    apply ensures_bind, ensures_true. intros r. apply ensures_bind, ensures_true. intros [].
    destruct r; [apply Hskip; [done|]; cbn; intros Hx; by eapply Hno|]. cbn. split; [by apply Forall_app; split; [|constructor]|].
    exists (pre ++ [e]). rewrite <- app_assoc. split_and!; [done|by apply sublist_app|].
    intros [Hnu ->]%Hn. split; [done|]. unfold counted. rewrite List.filter_app. cbn. by rewrite bool_decide_eq_false_2.
  - split; [constructor|]. by exists [].
Qed.

(** The routes an upstream earned: checked, under its own name, each once. *)
Definition earned (up : string) (t : table) : Prop :=
  typed t /\ forall name rt, t !! name = Some rt -> upstream (rt_route rt) = up.

Lemma earned_empty up : earned up ∅.
Proof. split; [apply typed_empty|]. intros name rt H. by rewrite lookup_empty in H. Qed.

Lemma earned_insert up d output t :
  ValidName up = true -> servable_def d output -> earned up t ->
  earned up (<[Namespaced up (DName d) := route_to up d output]> t).
Proof.
  intros Hu Hd [Ht Hn]. split; [apply typed_insert; [done|by apply well_routed_route]|].
  intros name rt H. apply lookup_insert_Some in H as [[_ <-]|[_ H]]; [done|by eapply Hn].
Qed.

Lemma ensures_routesFor up defs :
  ValidName up = true -> ensures (routesFor up defs) (fun out => earned up (ur_routes out)).
Proof.
  intros Hu. unfold routesFor. apply ensures_bind.
  eapply ensures_mono; [|apply (ensures_for_each _ _ _ _ (fun out => earned up (ur_routes out)));
    [|apply earned_empty]].
  - intros out [Ht Hn]. cbn. split.
    + eapply typed_subseteq; [exact Ht|apply foldr_delete_subseteq].
    + intros name rt H. eapply Hn, lookup_weaken; [exact H|apply foldr_delete_subseteq].
  - intros d acc _ Ha. unfold route_def. destruct (negb (ValidToolName (DName d))) eqn:Hn; [done|].
    destruct (Z.ltb_spec MaxToolDefinitionBytes (DefinitionSize d)); [done|].
    destruct (validateSchema (DInputSchema d)) as [[]|] eqn:Hv; [|done].
    destruct (resolveOutputSchema (DOutputSchema d)) as [output|] eqn:Ho; [|done].
    apply ensures_bind, ensures_true. intros [obs|e]; [|done]. apply ensures_bind, ensures_true. intros [].
    cbn. unfold add_route. destruct (ur_routes acc !! _); [done|]. cbn. apply earned_insert; [done| |done].
    apply negb_false_iff in Hn. by split_and!.
Qed.

Lemma ensures_stableRoutesFor up :
  ValidName up = true -> ensures (stableRoutesFor up) (fun out => earned up (ur_routes out)).
Proof.
  intros Hu. unfold stableRoutesFor. apply ensures_bind, ensures_true. intros f.
  apply ensures_for_each; [|apply earned_empty].
  intros lt acc _ Ha. unfold stable_one. apply ensures_bind, ensures_true. intros [t|e].
  2: { by destruct (wraps e SNotFound). }
  destruct (negb (Usable t) || _); [done|]. apply ensures_bind, ensures_true. intros [id| |e]; [|done|done].
  cbn. unfold stable_route. set (d := kept_def id (TClass t)).
  destruct (_ || _) eqn:Hc; [done|]. rewrite !orb_false_iff, !negb_false_iff in Hc. destruct Hc as [[[_ Hn] Hs] Hv].
  destruct (resolveOutputSchema (DOutputSchema d)) as [output|] eqn:Ho; [|done]. cbn. apply earned_insert; [done| |done].
  destruct (validateSchema (DInputSchema d)) as [[]|] eqn:Hv'; [|done]. split_and!; [done|lia|done|done].
Qed.

(** ** Connections in hand *)

(** What is open is what is in the table and [H], and nothing is both. *)
Definition holding (H : gset handle) (w : world) : Prop :=
  handles (f_conns (w_fleet w)) ## H /\ w_open w = handles (f_conns (w_fleet w)) ∪ H.

(** A fact about the table that no interference breaks. *)
Class Framed (K : fleet -> Prop) := {
  framed_core : forall f g, same_core f g -> K f -> K g;
  framed_close : forall f, K f -> K (close f).1
}.

Definition have (H : gset handle) (K : fleet -> Prop) (w : world) : Prop := holding H w /\ K (w_fleet w).

Lemma have_core H K `{!Framed K} : core_only (have H K).
Proof.
  intros f g o Hc [[Hd Ho] HK]. cbn in *. split; [|by eapply framed_core].
  destruct Hc as (Hc & _). unfold holding. cbn. by rewrite <- Hc.
Qed.

Lemma have_stable H K `{!Framed K} : stable (have H K).
Proof.
  apply stable_core; [by apply have_core|]. intros f o _ [[Hd Ho] HK]. split; [|by apply framed_close].
  cbn in *. subst o. unfold holding, close. destruct (f_closed f); cbn; rewrite handles_empty; set_solver.
Qed.

#[local] Hint Resolve have_core have_stable : rounds.

#[global] Instance framed_and K1 K2 `{!Framed K1, !Framed K2} : Framed (fun f => K1 f /\ K2 f).
Proof. split; [intros f g Hc [? ?]; split; by eapply framed_core|intros f [? ?]; split; by apply framed_close]. Qed.

#[global] Instance framed_True : Framed (fun _ => True).
Proof. by split. Qed.

(** A quiet program in front, with connections in hand. *)
Lemma quiet_have {A B} (p : rprog A) (f : A -> rprog B) H K `{!Framed K} (Q : A -> Prop) R :
  never (E := round_effects) noisy p -> ensures p Q -> (forall a, Q a -> triple (have H K) (f a) R) ->
  triple (have H K) (bind p f) R.
Proof. intros. eapply quiet_first; eauto with rounds. Qed.

Lemma elem_of_handles m h : h ∈ handles m <-> exists name, m !! name = Some h.
Proof. apply elem_of_map_img. Qed.

Lemma sorted_entries_handles (m : gmap string handle) : list_to_set (C := gset handle) (map snd (sorted_entries m)) = handles m.
Proof.
  apply set_eq. intros h. rewrite elem_of_list_to_set, elem_of_handles, list_elem_of_fmap. unfold sorted_entries. split.
  - intros ([name h'] & -> & Hin). rewrite (sort_by_Permutation fst) in Hin. exists name. by apply elem_of_map_to_list.
  - intros [name Hn]. exists (name, h). split; [done|]. rewrite (sort_by_Permutation fst). by apply elem_of_map_to_list.
Qed.

(** Closing one connection in hand. *)
Lemma close_one h H K `{!Framed K} :
  h ∈ H -> triple (have H K) (perform (RClose h)) (fun _ => have (H ∖ {[h]}) K).
Proof.
  intros Hh. apply t_perform; [by apply have_stable|intros _; by apply have_stable| |].
  - intros [f o] x w' (Hs & Hi & Ho) [[Hd Hop] HK] (_ & _ & ->). cbn in *.
    split; [split_and!; cbn; [done..|set_solver]|]. split; [|done]. split; cbn; set_solver.
  - intros [f o] w' (Hs & Hi & Ho) [[Hd Hop] HK] (_ & _ & ->). split_and!; cbn in *; [done..|set_solver].
Qed.

#[global] Instance framed_const (P : Prop) : Framed (fun _ => P).
Proof. by split. Qed.

Lemma have_pure {A} H K (P : Prop) (p : rprog A) Q :
  (P -> triple (have H K) p Q) -> triple (have H (fun f => K f /\ P)) p Q.
Proof. intros Hp w Hw (Hh & HK & HP). by apply Hp. Qed.

Lemma injective_entries m : injective m -> NoDup (map snd (sorted_entries m)).
Proof.
  intros Hi. unfold sorted_entries. rewrite (sort_by_Permutation fst). apply NoDup_fmap_2_strong; [|apply NoDup_map_to_list].
  intros [a h] [b h'] Ha%elem_of_map_to_list Hb%elem_of_map_to_list ?. cbn in *. subst h'. by rewrite (Hi a b h).
Qed.

Lemma closeAll_have m H K `{!Framed K} :
  injective m -> handles m ⊆ H -> triple (have H K) (closeAll m) (fun _ => have (H ∖ handles m) K).
Proof.
  intros Hi Hm. unfold closeAll. rewrite <- (sorted_entries_handles m) in *. apply injective_entries in Hi.
  set (hs := sorted_entries m) in *.
  set (left (rest : list (string * handle)) := H ∖ list_to_set (map snd hs) ∪ list_to_set (C := gset handle) (map snd rest)).
  eapply t_mono; [apply (t_for_each (fun rest _ =>
    have (left rest) (fun f => K f /\ exists pre, hs = pre ++ rest)))| |].
  - intros rest _. apply have_stable, _.
  - intros [name h] rest errs. apply have_pure. intros [pre Hpre].
    assert (Hl : left ((name, h) :: rest) ∖ {[h]} = left rest /\ h ∈ left ((name, h) :: rest)).
    { rewrite Hpre, map_app in Hi. apply NoDup_app in Hi as (_ & _ & Hi). apply NoDup_cons in Hi as [Hn _].
      unfold left. rewrite Hpre, map_app. cbn. rewrite list_to_set_app_L. cbn.
      assert (h ∉ list_to_set (C := gset handle) (map snd rest)) by (by rewrite elem_of_list_to_set).
      split; set_solver. }
    destruct Hl as [Hl Hin]. eapply t_bind; [by apply (close_one h _ K)|]. rewrite Hl. intros r.
    apply t_ret; [by apply have_stable|]. intros w _ [Hh HK]. split; [done|]. split; [done|].
    exists (pre ++ [(name, h)]). by rewrite <- app_assoc.
  - intros w _ [Hh HK]. split; [|split; [done|by exists []]]. unfold left.
    replace (H ∖ _ ∪ _) with H; [done|]. apply set_eq. intros h. destruct (decide (h ∈ list_to_set (C := gset handle) (map snd hs))); set_solver.
  - intros errs w _ [Hh [HK _]]. split; [|done]. unfold left in Hh. cbn in Hh. by rewrite union_empty_r_L in Hh.
Qed.

(** ** Bringing one backend up *)

(** What a dial leaves in hand. *)
Definition in_hand (H : gset handle) (K : fleet -> Prop) (up : option handle) : world -> Prop :=
  match up with Some h => have ({[h]} ∪ H) (fun f => K f /\ h ∉ H) | None => have H K end.

Lemma in_hand_stable H K `{!Framed K} up : stable (in_hand H K up).
Proof. destruct up; by apply have_stable, _. Qed.

Definition ok_value {E A} (r : result E A) : option A := match r with Ok a => Some a | Err _ => None end.

Lemma dial_have spec env H K `{!Framed K} :
  triple (have H K) (perform (RDial spec env)) (fun r => in_hand H K (ok_value r)).
Proof.
  apply t_perform; [by apply have_stable|intros r; by apply in_hand_stable| |].
  - intros [f o] [h|e] w' (Hs & Hi & Ho) [[Hd Hop] HK] (_ & _ & Hr); cbn in *.
    + destruct Hr as [Hn ->]. cbn. split; [split_and!; cbn; [done..|set_solver]|].
      split; [split; cbn; set_solver|]. split; [done|]. set_solver.
    + by subst w'.
  - intros [f o] w' Hm _ (_ & _ & ->). exact Hm.
Qed.

Lemma bringUp_have entry H K `{!Framed K} :
  triple (have H K) (bringUp rc entry) (fun r => in_hand H K (ok_value r)).
Proof.
  unfold bringUp. eapply (quiet_have _ _ _ _ (fun _ => True)); [apply never_resolveEnv|by apply ensures_true|].
  intros [env|e] _; [|apply t_ret; [by apply have_stable|done]].
  eapply t_bind; [by apply dial_have|]. intros [up|e]; cbn [ok_value].
  - eapply (quiet_have _ _ _ _ (fun _ => True)); [by apply never_step|by apply ensures_true|].
    intros _ _. apply t_ret; [by apply have_stable, _|done].
  - apply t_ret; [by apply have_stable|done].
Qed.

Lemma bringUpAndList_have entry H K `{!Framed K} :
  triple (have H K) (bringUpAndList rc entry) (fun got => in_hand H K (fst <$> got_up got)).
Proof.
  unfold bringUpAndList. eapply t_bind; [by apply bringUp_have|]. intros [up|e]; cbn [ok_value].
  2: { apply t_ret; [by apply have_stable|done]. }
  eapply (quiet_have _ _ _ _ (fun _ => True)); [by apply never_perform; cbn; tauto|by apply ensures_true|].
  intros [defs|e] _; [apply t_ret; [by apply have_stable, _|done]|].
  apply have_pure. intros Hn. eapply t_bind; [apply close_one; [done|set_solver]|]. intros r.
  replace (({[up]} ∪ H) ∖ {[up]}) with H by set_solver. apply t_ret; [by apply have_stable|done].
Qed.

(** ** The steps on the table *)

(** Closed, or with exactly these connections, dialed from these entries. *)
Definition at_snap (conns : gmap string handle) (dialed : gmap string UpstreamServer) (f : fleet) : Prop :=
  f_closed f = true \/ f_conns f = conns /\ f_dialed f = dialed.

#[global] Instance framed_at_snap conns dialed : Framed (at_snap conns dialed).
Proof.
  split; unfold at_snap.
  - intros f g (Hc & Hd & _ & _ & _ & Hcl & _). by rewrite Hc, Hd, Hcl.
  - intros f _. left. unfold close. by destruct (f_closed f) eqn:?.
Qed.

Lemma handles_subseteq m m' : m ⊆ m' -> handles m ⊆ handles m'.
Proof. intros Hs h. rewrite !elem_of_handles. intros [n Hn]. exists n. by eapply lookup_weaken. Qed.

Lemma injective_subseteq m m' : injective m' -> m ⊆ m' -> injective m.
Proof. intros Hi Hs a b h Ha Hb. eapply Hi; by eapply lookup_weaken. Qed.

(** Taking names out of an injective map divides its handles. *)
Lemma handles_split m names :
  injective m ->
  handles m = handles (foldr delete m names) ∪ handles (filter (fun e : string * handle => e.1 ∈ names) m)
  /\ handles (foldr delete m names) ## handles (filter (fun e : string * handle => e.1 ∈ names) m).
Proof.
  intros Hi. assert (Hk : forall n h, foldr delete m names !! n = Some h <-> m !! n = Some h /\ n ∉ names).
  { intros n h. rewrite foldr_delete_lookup. case_bool_decide; naive_solver. }
  split.
  - apply set_eq. intros h. rewrite elem_of_union, !elem_of_handles. setoid_rewrite Hk. setoid_rewrite map_lookup_filter_Some.
    cbn. split; [|naive_solver]. intros [n Hn]. destruct (decide (n ∈ names)); eauto.
  - intros h. rewrite !elem_of_handles. intros [a Ha%Hk] [b [Hb Hin]%map_lookup_filter_Some]. cbn in Hin.
    destruct Ha as [Ha Hna]. by rewrite (Hi a b h Ha Hb) in Hna.
Qed.

Lemma dom_foldr_delete {A} (m : gmap string A) names : dom (foldr delete m names) = dom m ∖ list_to_set names.
Proof.
  apply set_eq. intros n. rewrite elem_of_difference, elem_of_list_to_set, !elem_of_dom, foldr_delete_lookup.
  case_bool_decide; [split; [by intros [? ?]|tauto]|tauto].
Qed.

Lemma subseteq_empty {A} (m : gmap string A) : m ⊆ ∅ -> m = ∅.
Proof. intros H. apply map_empty. intros k. destruct (m !! k) eqn:Hk; [|done]. by apply (lookup_weaken _ ∅) in Hk. Qed.

Lemma drop_routes_subseteq drop t : drop_routes drop t ⊆ t.
Proof. apply map_filter_subseteq. Qed.

Lemma sound_fewer f t conns dialed :
  sound f -> t ⊆ f_routes f -> conns ⊆ f_conns f -> dialed ⊆ f_dialed f -> dom conns = dom dialed ->
  sound (set_routes t (set_conns conns dialed f)).
Proof.
  intros [H1 H2 H3 H4 H5 H6 H7] Ht Hc Hd Hdom. split; cbn; [| | | | |done|done].
  - by eapply typed_subseteq.
  - intros name [rt Hr]. apply H2. exists rt. by eapply lookup_weaken.
  - intros Hf. apply H3 in Hf. rewrite Hf in Ht. by apply subseteq_empty.
  - intros Hf. apply H4 in Hf. rewrite Hf in Hc. by apply subseteq_empty.
  - intros name e He. apply H5. by eapply lookup_weaken.
Qed.

Lemma retire_step names drop H conns dialed :
  triple (have H (at_snap conns dialed)) (step (OpRetire names drop))
    (fun r => have (H ∪ handles r.2) (fun f => at_snap (foldr delete conns names) (foldr delete dialed names) f
                                         /\ (injective r.2 /\ handles r.2 ## H))).
Proof.
  apply t_step; [by apply have_stable, _|intros r; apply have_stable, _|].
  intros f o (Hs & Hi & Ho) [[Hd Hop] HK]. unfold have, holding, at_snap in *. cbn in *. unfold retire.
  assert (Hnone : injective ∅) by (intros a b h Ha; by rewrite lookup_empty in Ha).
  destruct (bool_decide (names = []) && _) eqn:He.
  { apply andb_true_iff in He as [->%bool_decide_eq_true _]. cbn. rewrite handles_empty.
    split; [by split_and!|]. split_and!; [set_solver|set_solver|done|done|set_solver]. }
  destruct (f_closed f) eqn:Hc; cbn.
  { split; [by split_and!|]. rewrite handles_empty, (s_closed f Hs Hc) in *. split_and!; [set_solver|set_solver|by left|done|set_solver]. }
  destruct HK as [|[<- <-]]; [done|].
  destruct (handles_split (f_conns f) names Hi) as [Heq Hdis].
  assert (Hsub : foldr delete (f_conns f) names ⊆ f_conns f) by apply foldr_delete_subseteq.
  pose proof (sound_fewer f (drop_routes drop (f_routes f)) (foldr delete (f_conns f) names)
    (foldr delete (f_dialed f) names) Hs (drop_routes_subseteq _ _) Hsub (foldr_delete_subseteq _ _)
    ltac:(by rewrite !dom_foldr_delete, (s_dom f Hs))) as Hs'.
  split.
  - split_and!; cbn; [|by apply (injective_subseteq _ (f_conns f))|set_solver]. eapply sound_core; [|exact Hs'|by apply sound_named in Hs]. done.
  - cbn. split_and!; [set_solver|set_solver|by right|by eapply injective_subseteq; [|apply map_filter_subseteq]|].
    assert (handles (filter (fun e : string * handle => e.1 ∈ names) (f_conns f)) ⊆ handles (f_conns f))
      by apply handles_subseteq, map_filter_subseteq. set_solver.
Qed.

Lemma retire_have names drop H conns dialed :
  triple (have H (at_snap conns dialed)) (retire_ names drop)
    (fun _ => have H (at_snap (foldr delete conns names) (foldr delete dialed names))).
Proof.
  unfold retire_. eapply t_bind; [apply retire_step|]. intros [closed going]. cbn [fst snd].
  apply have_pure. intros [Hi Hd]. eapply t_bind; [apply closeAll_have; [apply _|done|set_solver]|].
  intros errs. apply t_ret; [apply have_stable, _|]. intros w _ Hw.
  by replace H with ((H ∪ handles going) ∖ handles going) by set_solver.
Qed.

(** Connections dialed from accepted entries, each under its entry's name. *)
Definition dialed_ok (add : gmap string (handle * UpstreamServer)) : Prop :=
  injective (fst <$> add) /\ forall name up e, add !! name = Some (up, e) -> Validate e = None /\ Name e = name.

Lemma handles_union m1 m2 : dom m1 ## dom m2 -> handles (m1 ∪ m2) = handles m1 ∪ handles m2.
Proof. intros Hd. apply map_img_union_disjoint_L. by apply map_disjoint_dom. Qed.

Lemma injective_union m1 m2 :
  injective m1 -> injective m2 -> handles m1 ## handles m2 -> injective (m1 ∪ m2).
Proof.
  intros H1 H2 Hd a b h Ha Hb. apply lookup_union_Some_raw in Ha, Hb.
  assert (Hno : forall x y, m1 !! x = Some h -> m2 !! y = Some h -> False).
  { intros x y Hx Hy. apply (Hd h); apply elem_of_handles; eauto. }
  destruct Ha as [Ha|[_ Ha]], Hb as [Hb|[_ Hb]]; [by eapply H1|by destruct (Hno a b)|by destruct (Hno b a)|by eapply H2].
Qed.

Lemma adopt_step add conns dialed :
  dialed_ok add -> dom add ## dom conns ->
  triple (have (handles (fst <$> add)) (at_snap conns dialed)) (step (OpAdopt add))
    (fun r => have (handles r.2) (fun f => at_snap ((fst <$> add) ∪ conns) ((snd <$> add) ∪ dialed) f /\ injective r.2)).
Proof.
  intros [Hia Hok] HD. apply t_step; [by apply have_stable, _|intros r; apply have_stable, _|].
  intros f o (Hs & Hi & Ho) [[Hd Hop] HK]. unfold have, holding, at_snap in *. cbn in *. unfold adopt.
  assert (Hnone : injective ∅) by (intros a b h Ha; by rewrite lookup_empty in Ha).
  case_bool_decide as He; cbn.
  { subst add. rewrite !fmap_empty, handles_empty in *. split; [by split_and!|].
    rewrite !(left_id_L ∅ (∪)). split_and!; [set_solver|set_solver|done|done]. }
  destruct (f_closed f) eqn:Hc; cbn; [split; [by split_and!|]; split_and!; [done|done|by left|done]|].
  destruct HK as [|[<- <-]]; [done|].
  assert (Hdd : dom (fst <$> add) ## dom (f_conns f)) by (rewrite dom_fmap_L; set_solver).
  rewrite handles_empty, handles_union by done.
  assert (Hi' : injective ((fst <$> add) ∪ f_conns f)) by (apply injective_union; [done|done|set_solver]).
  split; [split_and!; cbn; [|done|rewrite handles_union by done; set_solver]|split_and!; [set_solver|set_solver|by right|done]].
  destruct Hs as [S1 S2 S3 S4 S5 S6 S7]. split; cbn; [done|done| | | | |done].
  - intros [Hx|[Hx|Hx]]; apply S3; auto.
  - congruence.
  - intros name e Hl. apply lookup_union_Some_raw in Hl as [Hl|[_ Hl]]; [|by apply S5].
    apply lookup_fmap_Some in Hl as ([up e'] & <- & Hl). by eapply Hok.
  - rewrite !dom_union_L, !dom_fmap_L. by rewrite S6.
Qed.

Lemma adopt_have add conns dialed :
  dialed_ok add -> dom add ## dom conns ->
  triple (have (handles (fst <$> add)) (at_snap conns dialed)) (adopt_ add)
    (fun _ => have ∅ (at_snap ((fst <$> add) ∪ conns) ((snd <$> add) ∪ dialed))).
Proof.
  intros Hok HD. unfold adopt_. eapply t_bind; [by apply adopt_step|]. intros [closed going]. cbn [fst snd].
  apply have_pure. intros Hi. eapply t_bind; [apply closeAll_have; [apply _|done|done]|].
  intros errs. apply t_ret; [apply have_stable, _|]. intros w _ Hw. by replace ∅ with (handles going ∖ handles going) by set_solver.
Qed.

(** The table a round may install: checked, and declared under this plan. *)
Definition installable (plan : Plan) (t : table) : Prop :=
  typed t /\ forall name, is_Some (t !! name) -> undeclared_tool plan name = false.

Definition plan_is (plan : Plan) (f : fleet) : Prop := ctl_plan (f_controls f) = plan.

#[global] Instance framed_plan plan : Framed (plan_is plan).
Proof.
  split; unfold plan_is.
  - intros f g (_ & _ & _ & _ & _ & _ & Hc). by rewrite Hc.
  - intros f Hp. unfold close. by destruct (f_closed f).
Qed.

(** Confirmed, and lifted out of any suspension. *)
Definition served (f : fleet) : Prop := f_confirmed f = true /\ f_suspended f = false.

#[global] Instance framed_served : Framed served.
Proof.
  split; unfold served.
  - intros f g (_ & _ & _ & Hc & Hs & _ & _). by rewrite Hc, Hs.
  - intros f Hp. unfold close. by destruct (f_closed f).
Qed.

Lemma swap_step (conns : gmap string handle) (dialed : gmap string UpstreamServer) (routes : table) K `{!Framed K} :
  injective conns -> dom conns = dom dialed ->
  (forall name e, dialed !! name = Some e -> Validate e = None /\ Name e = name) ->
  routes = ∅ \/ (forall f, K f -> served f /\ installable (ctl_plan (f_controls f)) routes) ->
  triple (have (handles conns) K) (step (OpSwap conns dialed routes)) (fun r => have (handles r.2) (fun f => True /\ injective r.2)).
Proof.
  intros Hic Hdom Hv Hr. apply t_step; [by apply have_stable|intros r; apply have_stable, _|].
  intros f o (Hs & Hi & Ho) [[Hd Hop] HK]. unfold have, holding in *. cbn in *. unfold swap.
  destruct (f_closed f) eqn:Hc; cbn; [by split; [split_and!|split_and!]|].
  split; [split_and!; cbn; [|done|set_solver]|split_and!; [set_solver|set_solver|done|done]].
  destruct Hs as [S1 S2 S3 S4 S5 S6 S7]. destruct Hr as [->|Hr].
  - split; cbn; try done; [|congruence]. intros name [rt Hl]. by rewrite lookup_empty in Hl.
  - destruct (Hr f HK) as [[Hcf Hsu] [Ht Hdec]]. split; cbn; try done; [|congruence].
    intros [Hx|[Hx|Hx]]; congruence.
Qed.

Lemma swap_have (conns : gmap string handle) (dialed : gmap string UpstreamServer) (routes : table) K `{!Framed K} :
  injective conns -> dom conns = dom dialed ->
  (forall name e, dialed !! name = Some e -> Validate e = None /\ Name e = name) ->
  routes = ∅ \/ (forall f, K f -> served f /\ installable (ctl_plan (f_controls f)) routes) ->
  triple (have (handles conns) K) (swap_in conns dialed routes) (fun _ => have ∅ (fun _ => True)).
Proof.
  intros Hi Hdom Hv Hr. unfold swap_in. eapply t_bind; [by apply swap_step|]. intros [closed going]. cbn [fst snd].
  apply have_pure. intros Hig. eapply t_bind; [apply closeAll_have; [apply _|done|done]|].
  intros errs. apply t_ret; [apply have_stable, _|]. intros w _ Hw. by replace ∅ with (handles going ∖ handles going) by set_solver.
Qed.

(** ** Building the table *)

Definition fits (t : table) (f : fleet) : Prop := installable (ctl_plan (f_controls f)) t.

#[global] Instance framed_fits t : Framed (fits t).
Proof.
  split; unfold fits.
  - intros f g (_ & _ & _ & _ & _ & _ & Hc). by rewrite Hc.
  - intros f Hp. unfold close. by destruct (f_closed f).
Qed.

Lemma read_have H K `{!Framed K} :
  triple (have H K) (step OpRead) (fun f0 => have H (fun f => K f /\ (plan_is (ctl_plan (f_controls f0)) f /\ (K f0 /\ sound f0)))).
Proof.
  apply t_step; [by apply have_stable|intros f0; apply have_stable, _|].
  intros f o Hm [Hh HK]. cbn. split; [done|]. split; [done|]. by split_and!; [..|apply Hm].
Qed.

Lemma build_table_have candidates H K `{!Framed K} :
  (forall u t, candidates !! u = Some t -> typed t) ->
  triple (have H K) (build_table candidates) (fun built => have H (fun f => K f /\ fits built.1 f)).
Proof.
  intros Hc. unfold build_table. pose proof (typed_merge candidates Hc) as Ht.
  destruct (mergeRoutes candidates) as [merged conflicts]. cbn [fst] in Ht.
  eapply t_bind; [by apply read_have|].
  intros f0. set (plan := ctl_plan (f_controls f0)).
  pose proof (withhold_lookup plan merged) as Hw. destruct (withholdUndeclaredQuotaTools plan merged) as [routes withheld].
  cbn [fst] in Hw. apply t_ret; [apply have_stable, _|]. intros w _ (Hh & HK & Hp & _). split; [done|]. split; [done|].
  unfold fits. rewrite Hp. fold plan. cbn [fst]. split.
  - intros name rt Hr. rewrite Hw in Hr. destruct (undeclared_tool plan name); [done|]. by apply Ht.
  - intros name [rt Hr]. rewrite Hw in Hr. by destruct (undeclared_tool plan name).
Qed.

(** A step that rewrites flags, table or controls and nothing else. *)
Lemma step_have op H K K' `{!Framed K} `{!forall a, Framed (K' a)} :
  (forall f, sound f -> K f -> let r := fleet_step op f in
     f_conns r.1 = f_conns f /\ sound r.1 /\ K' r.2 r.1) ->
  triple (have H K) (step op) (fun a => have H (K' a)).
Proof.
  intros Hop. apply t_step; [by apply have_stable|intros a; by apply have_stable|].
  intros f o (Hs & Hi & Ho) [[Hd Hopen] HK]. cbn in *. destruct (Hop f Hs HK) as (Hc & Hs' & HK').
  unfold have, moment, holding. cbn. rewrite Hc. by split_and!.
Qed.

Lemma suspend_have H K `{!Framed K} : triple (have H K) (step OpSuspend) (fun _ => have H (fun _ => True)).
Proof.
  apply (step_have _ _ _ (fun _ _ => True)). intros f [S1 S2 S3 S4 S5 S6 S7] _. cbn. split_and!; [done| |done].
  split; cbn; try done. intros name [rt Hl]. by rewrite lookup_empty in Hl.
Qed.

Lemma serving_have H t : triple (have H (fits t)) (step OpServing) (fun _ => have H (fun f => served f /\ fits t f)).
Proof.
  apply (step_have _ _ _ (fun _ f => served f /\ fits t f)). intros f [S1 S2 S3 S4 S5 S6 S7] Hf. cbn. split_and!; try done.
  split; cbn; try done. intros [Hx|[Hx|Hx]]; [done|done|apply S3; auto].
Qed.

Lemma confirm_have H conns dialed :
  triple (have H (at_snap conns dialed)) (step OpConfirm) (fun _ => have H (at_snap conns dialed)).
Proof.
  apply (step_have _ _ _ (fun _ => at_snap conns dialed)). intros f [S1 S2 S3 S4 S5 S6 S7] Hf. cbn. split_and!; try done.
  split; cbn; try done. intros [Hx|[Hx|Hx]]; [done|apply S3; auto|apply S3; auto].
Qed.

Lemma swapRoutes_have H t : triple (have H (fits t)) (step (OpSwapRoutes t)) (fun _ => have H (fun _ => True)).
Proof.
  apply (step_have _ _ _ (fun _ _ => True)). intros f Hs [Ht Hdec]. cbn. unfold swapRoutes.
  destruct (f_closed f) eqn:Hc; [done|]. destruct (f_confirmed f) eqn:Hcf; [|done]. cbn [fst]. split_and!; [done| |done].
  destruct Hs as [S1 S2 S3 S4 S5 S6 S7]. split; cbn; try done. intros [Hx|[Hx|Hx]]; congruence.
Qed.

Lemma apply_have H ctl K `{!Framed K} : triple (have H K) (step (OpApply ctl)) (fun _ => have H (fun _ => True)).
Proof.
  apply (step_have _ _ _ (fun _ _ => True)). intros f Hs _. cbn. unfold apply_controls. destruct (f_closed f) eqn:Hc; [done|].
  cbn [fst]. split_and!; [done| |done]. destruct Hs as [S1 S2 S3 S4 S5 S6 S7]. split; cbn; try done.
  - eapply typed_subseteq; [exact S1|apply foldr_delete_subseteq].
  - intros name Hr. rewrite foldr_delete_lookup in Hr. case_bool_decide as Hu; [by destruct Hr|].
    apply not_true_is_false. intros Hx. apply Hu, elem_of_undeclared. split; [|done].
    destruct Hr as [rt Hr]. apply list_elem_of_fmap. exists (name, rt). split; [done|by apply elem_of_map_to_list].
  - intros Hf. apply subseteq_empty. rewrite <- (S3 Hf). apply foldr_delete_subseteq.
Qed.
End rounds.
