(* ===== verification/RoundsInvariant.v ===== *)
(** * The invariant of a gateway at work ([internal/gateway/endpoint.go])

    Whole rounds against [moment]: whatever the stores, the backends, the calls and the operator do,
    the table is sound at every moment, and between rounds the open connections are exactly those in
    it. *)
From Stdlib Require Import ZArith Lia Ascii.
From stdpp Require Import base strings list gmap fin_map_dom.
From S2P Require Import Prelude.
From S2P Require Import GoStrings.
From S2P Require Import Visible.
From S2P Require Import GoTime.
From S2P Require Import Encode.
From S2P Require Import Json.
From S2P Require Import AuditLog.
From S2P Require Import Registry.
From S2P Require Import Signer.
From S2P Require Import Quota.
From S2P Require Import Quarantine.
From S2P Require Import Access.
From S2P Require Import Redact.
From S2P Require Import Prog.
From S2P Require Import GatewayTypes.
From S2P Require Import ToolSchema.
From S2P Require Import Routing.
From S2P Require Import Fleet.
From S2P Require Import Dispatch.
From S2P Require Import DispatchSafety.
From S2P Require Import Rounds.
From S2P Require Import World.
From S2P Require Import Moments.

From S2P Require Import RoundsSafety.

Section invariant.
Context `{UT : UnicodeTables} `{PT : PrintTable} `{SV : SchemaValidator} `{HF : HashFunction} `{ED : Ed25519} `{UP : UrlParser}.
Context (rc : round_config).

Abbreviation table := (gmap string routedTool).
Abbreviation rprog := (prog (E := round_effects)).

Variable answers : forall e : reff, reply (rans e) -> Prop.

(** The registry lists a name once: it is the key of its table. *)
Hypothesis registry_keyed : forall entries, answers RRegistry (Val (Ok entries)) -> NoDup (map Name entries).

Abbreviation triple := (triple answers moment).
Abbreviation ensures := (ensures answers).
Abbreviation noisy := (noisy quiet_op).
Abbreviation t_bind := (triple_bind answers moment moment_stable _ _ _ _ _).
Abbreviation t_ret := (triple_ret answers moment moment_stable _ _ _).
Abbreviation t_mono := (triple_mono answers moment moment_stable _ _ _ _ _).
Abbreviation t_for_each := (triple_for_each answers moment moment_stable _ _ _).
Abbreviation t_concurrently := (triple_concurrently answers moment moment_stable quiet_op quiet_benign quiet_moment _ _ _).

(** ** Connect *)

(** What [Connect] has gathered, and what is still to come. *)
Record gathered (pending : list UpstreamServer) (acc : boot) : Prop := {
  g_injective : injective (b_conns acc);
  g_dom : dom (b_conns acc) = dom (b_dialed acc);
  g_dialed : forall name e, b_dialed acc !! name = Some e -> Validate e = None /\ Name e = name;
  g_typed : forall u t, b_candidates acc !! u = Some t -> typed t;
  g_keyed : NoDup (map Name pending);
  g_valid : Forall (fun e => Validate e = None) pending;
  g_fresh : forall e, e ∈ pending -> b_conns acc !! Name e = None
}.

Lemma Validate_name e : Validate e = None -> ValidName (Name e) = true.
Proof. intros H. by apply Validate_None in H as [Hn _]. Qed.

Lemma delete_keyed pending i entry :
  pending !! i = Some entry -> NoDup (map Name pending) ->
  NoDup (map Name (delete i pending)) /\ (forall e, e ∈ delete i pending -> e ∈ pending /\ Name e <> Name entry).
Proof.
  intros Hi Hn. rewrite (delete_Permutation _ _ _ Hi) in Hn. cbn in Hn. apply NoDup_cons in Hn as [Hne Hn].
  split; [done|]. intros e He. split.
  - rewrite (delete_Permutation _ _ _ Hi). by apply elem_of_cons; right.
  - intros Heq. apply Hne. rewrite <- Heq. by apply list_elem_of_fmap_2.
Qed.

Lemma gathered_skip pending i entry acc fails :
  pending !! i = Some entry -> gathered pending acc ->
  gathered (delete i pending) {| b_conns := b_conns acc; b_dialed := b_dialed acc; b_candidates := b_candidates acc; b_failures := fails |}.
Proof.
  intros Hi [G1 G2 G3 G4 G5 G6 G7]. destruct (delete_keyed _ _ _ Hi G5) as [Hn Hd]. split; cbn; try done.
  - apply Forall_forall. intros e He. rewrite Forall_forall in G6. by apply G6, Hd.
  - intros e He. by apply G7, Hd.
Qed.

Lemma gathered_add pending i entry acc up routes fails :
  pending !! i = Some entry -> gathered pending acc -> up ∉ handles (b_conns acc) -> typed routes ->
  gathered (delete i pending)
    {| b_conns := <[Name entry := up]> (b_conns acc); b_dialed := <[Name entry := entry]> (b_dialed acc);
       b_candidates := <[Name entry := routes]> (b_candidates acc); b_failures := fails |}.
Proof.
  intros Hi [G1 G2 G3 G4 G5 G6 G7] Hup Ht. destruct (delete_keyed _ _ _ Hi G5) as [Hn Hd].
  assert (Hin : entry ∈ pending) by by eapply list_elem_of_lookup_2.
  split; cbn; try done.
  - intros a b h Ha Hb. apply lookup_insert_Some in Ha, Hb.
    destruct Ha as [[<- <-]|[Hna Ha]], Hb as [[<- Hh]|[Hnb Hb]]; [done| | |by eapply G1];
      exfalso; apply Hup, elem_of_handles; [by exists b|subst; by exists a].
  - by rewrite !dom_insert_L, G2.
  - intros name e He. apply lookup_insert_Some in He as [[<- <-]|[_ He]]; [|by apply G3].
    rewrite Forall_forall in G6. by split; [apply G6|].
  - intros u t Hl. apply lookup_insert_Some in Hl as [[_ <-]|[_ Hl]]; [done|by eapply G4].
  - apply Forall_forall. intros e He. rewrite Forall_forall in G6. by apply G6, Hd.
  - intros e He. destruct (Hd e He) as [Hep Hne]. rewrite lookup_insert_ne by done. by apply G7.
Qed.

(** A quiet program nothing is asked of. *)
Lemma quiet_pass {A B} (p : rprog A) (f : A -> rprog B) H K `{!Framed K} R :
  never (E := round_effects) noisy p -> (forall a, triple (have H K) (f a) R) -> triple (have H K) (bind p f) R.
Proof. intros Hn Hf. apply (quiet_have answers _ _ _ _ (fun _ => True)); [done|by apply ensures_true|]. intros a _. apply Hf. Qed.

Lemma ret_have {A} (a : A) H K (Q : A -> world -> Prop) `{!Framed K} :
  (forall w, have H K w -> Q a w) -> triple (have H K) (Ret a) Q.
Proof. intros HQ. apply t_ret; [by apply have_stable|auto]. Qed.

Lemma ret_drop {A} (a : A) H K `{!Framed K} : triple (have H K) (Ret a) (fun _ => have H (fun _ => True)).
Proof. apply ret_have; [apply _|]. by intros w [Hh _]. Qed.

Lemma boot_one_have pending i entry acc :
  pending !! i = Some entry ->
  triple (have (handles (b_conns acc)) (fun _ => True /\ gathered pending acc)) (boot_one rc entry acc)
    (fun acc' => have (handles (b_conns acc')) (fun _ => True /\ gathered (delete i pending) acc')).
Proof.
  intros Hi. apply have_pure. intros Hg. unfold boot_one.
  assert (Hin : entry ∈ pending) by by eapply list_elem_of_lookup_2.
  assert (Hv : ValidName (Name entry) = true).
  { apply Validate_name. pose proof (g_valid _ _ Hg) as Hf. rewrite Forall_forall in Hf. by apply Hf. }
  eapply t_bind; [apply bringUpAndList_have, _|]. intros [entry' [[up defs]|] errs]; cbn [got_up got_errs fmap option_fmap option_map fst in_hand].
  2: { apply ret_have; [apply _|]. intros w Hw. split; [apply Hw|]. split; [done|]. by apply (gathered_skip _ _ entry). }
  apply have_pure. intros Hup.
  eapply quiet_have; [apply _|apply never_routesFor|apply ensures_routesFor, Hv|]. intros routed [Ht _].
  apply quiet_pass; [apply _| |].
  { destruct (ur_unmeasured routed); [done|]. by apply never_step. }
  intros []. apply ret_have; [apply _|]. intros w [Hw _]. split; [|split; [done|by apply gathered_add]].
  cbn [b_conns]. unfold handles. rewrite map_img_insert_notin_L; [exact Hw|]. by apply (g_fresh _ _ Hg).
Qed.

Lemma stable_unless_up_have conns ready candidates H K `{!Framed K} :
  Forall (fun n => ValidName n = true) ready -> (forall u t, candidates !! u = Some t -> typed t) ->
  triple (have H K) (for_each ready (stable_unless_up conns) candidates)
    (fun c => have H (fun f => K f /\ forall u t, c !! u = Some t -> typed t)).
Proof.
  intros Hv Hc. eapply t_mono; [apply (quiet_triple answers _ (have H K)
    (fun c : gmap string table => forall u t, c !! u = Some t -> typed t))| |].
  - by apply have_core.
  - by apply have_stable.
  - apply never_for_each. intros name c. unfold stable_unless_up. destruct (conns !! name); [done|].
    apply (never_bind (E := round_effects)); [apply never_stableRoutesFor|done].
  - apply ensures_for_each; [|done]. intros name c Hin Hc'. unfold stable_unless_up. destruct (conns !! name); [done|].
    apply ensures_bind. eapply ensures_mono; [|apply ensures_stableRoutesFor; by rewrite Forall_forall in Hv; apply Hv].
    intros st [Ht _]. cbn. case_bool_decide; [done|]. intros u t Hl.
    apply lookup_insert_Some in Hl as [[_ <-]|[_ Hl]]; [done|by eapply Hc'].
  - done.
  - intros c w _ [[Hh HK] Hq]. by split.
Qed.

Lemma finish_round servable keep frozen dialed round r :
  Forall (fun n => ValidName n = true) servable ->
  triple (have ∅ (fun _ => True)) (settle servable keep frozen dialed;;; persistHealth rc round;;; Ret (A := round_end) r)
    (fun _ => have ∅ (fun _ => True)).
Proof.
  intros Hv. apply quiet_pass; [apply _| |].
  { apply never_settle. apply forallb_forall. intros x Hx%list_elem_of_In. rewrite Forall_forall in Hv. by apply Hv. }
  intros []. apply quiet_pass; [apply _|apply never_persistHealth|]. intros []. apply ret_drop, _.
Qed.

Lemma boot_all_have ready :
  NoDup (map Name ready) -> Forall (fun e => Validate e = None) ready ->
  triple (have ∅ (fun _ => True))
    (concurrently ready (boot_one rc) {| b_conns := ∅; b_dialed := ∅; b_candidates := ∅; b_failures := ∅ |})
    (fun acc => have (handles (b_conns acc)) (fun _ => True /\ gathered [] acc)).
Proof.
  intros Hk Hv.
  eapply t_mono; [apply (t_concurrently (fun pending acc => have (handles (b_conns acc)) (fun _ => True /\ gathered pending acc)))| |].
  - intros l b. apply have_core, _.
  - intros l b. apply have_stable, _.
  - intros l i x b Hi. by apply boot_one_have.
  - intros w _ [Hh _]. split; [cbn; by rewrite handles_empty|]. split; [done|]. by split.
  - intros acc w _ Hq. exact Hq.
Qed.

Lemma connect_entries_have entries :
  NoDup (map Name entries) ->
  triple (have ∅ (fun _ => True)) (connect_entries rc entries) (fun _ => have ∅ (fun _ => True)).
Proof.
  intros Hk. unfold connect_entries.
  eapply quiet_have; [apply _|apply never_gate_entries|apply ensures_gate_entries|]. intros g (Hv & Hs & _).
  apply quiet_pass; [apply _|by apply never_step|]. intros []. apply quiet_pass; [apply _|apply never_load_listings|]. intros [].
  apply quiet_pass; [apply _|apply never_start_round|]. intros [].
  eapply t_bind; [apply boot_all_have; [|exact Hv]|].
  { eapply sublist_NoDup; [exact Hk|]. by apply (fmap_sublist Name). }
  intros acc. apply have_pure. intros [G1 G2 G3 G4 _ _ _].
  assert (Hn : Forall (fun n => ValidName n = true) (map Name (ga_ready g))).
  { apply Forall_map. eapply Forall_impl; [exact Hv|]. intros e. apply Validate_name. }
  eapply t_bind; [by apply stable_unless_up_have; [apply _| |]|]. intros candidates.
  apply have_pure. intros Hc. eapply t_bind; [by apply build_table_have|]. intros [routes failures]. cbn [fst snd].
  eapply t_bind; [eapply t_mono; [eapply (serving_have answers)|intros w _ (Hh & _ & Hf); split; [exact Hh|exact Hf]|intros a w _ Hq; exact Hq]|].
  intros []. eapply t_bind; [apply swap_have; [apply _|done|done|done|]|].
  { right. intros f [Hsv Hf]. by split. }
  intros [|]; [apply ret_drop, _|by apply finish_round].
Qed.

Lemma swap_nothing K `{!Framed K} : triple (have ∅ K) (swap_in ∅ ∅ ∅) (fun _ => have ∅ (fun _ => True)).
Proof.
  rewrite <- handles_empty at 1. apply swap_have; [|done|by rewrite !(dom_empty_L (D := gset string))|done|by left].
  apply _.
Qed.

Lemma Connect_have : triple (have ∅ (fun _ => True)) (Connect rc) (fun _ => have ∅ (fun _ => True)).
Proof.
  unfold Connect. apply quiet_pass; [apply _|by apply never_step|]. intros f.
  destruct (f_closed f); [apply ret_drop, _|].
  apply (quiet_have answers _ _ _ _ (fun r : result foreign (list UpstreamServer) =>
    match r with Ok entries => NoDup (map Name entries) | Err _ => True end)).
  { by apply never_perform; cbn; tauto. }
  { apply ensures_perform. by intros [entries|e]; [apply registry_keyed|]. }
  intros [entries|e] Hk.
  - apply quiet_pass; [apply _|by apply never_step|]. intros f2.
    destruct (CheckQuotaCoverage _ entries); [|by apply connect_entries_have].
    eapply t_bind; [by apply swap_nothing|]. intros b. apply ret_drop, _.
  - eapply t_bind; [by apply swap_nothing|]. intros b.
    eapply t_bind; [apply suspend_have, _|]. intros u. apply ret_drop, _.
Qed.

(** ** Reconcile *)

Lemma wanted_ok ready name e :
  Forall (fun e => Validate e = None) ready -> wanted ready !! name = Some e -> Validate e = None /\ Name e = name.
Proof.
  intros Hv. unfold wanted. cut (forall m : gmap string UpstreamServer, (forall n x, m !! n = Some x -> Validate x = None /\ Name x = n) ->
    forall n x, foldl (fun m e => <[Name e := e]> m) m ready !! n = Some x -> Validate x = None /\ Name x = n).
  { intros Hc. apply Hc. intros n x Hx. by rewrite lookup_empty in Hx. }
  induction ready as [|r ready IH]; intros m Hm; [exact Hm|]. apply Forall_cons in Hv as [Hr Hv]. cbn [foldl]. apply IH; [done|].
  intros n x Hx. apply lookup_insert_Some in Hx as [[<- <-]|[_ Hx]]; [done|by apply Hm].
Qed.

Lemma elem_of_sorted_entries {A} (m : gmap string A) k x : (k, x) ∈ sorted_entries m <-> m !! k = Some x.
Proof. unfold sorted_entries. rewrite (sort_by_Permutation fst). apply elem_of_map_to_list. Qed.

Lemma NoDup_sorted_entries {A} (m : gmap string A) : NoDup (map fst (sorted_entries m)).
Proof. unfold sorted_entries. rewrite (sort_by_Permutation fst). apply NoDup_fst_map_to_list. Qed.

(** Everything a round asks answers: the registry with these entries, which it and the plan agree on. *)
Record healthy (plan : Plan) (entries : list UpstreamServer) : Prop := {
  h_registry : forall r, answers RRegistry (Val r) -> r = Ok entries;
  h_covered : CheckQuotaCoverage plan entries = None;
  h_valid : Forall (fun e => Validate e = None) entries;
  h_signed : forall e r, e ∈ entries -> rc_signatures rc = true -> answers (RSignature (Name e)) (Val r) ->
    exists sig, r = SigFound sig /\ Verify (rc_verifier rc) e sig = Ok tt;
  h_vault : forall var r, answers (RGw (EResolve var)) (Val r) -> is_ok r = true;
  h_dials : forall spec env r, answers (RDial spec env) (Val r) -> is_ok r = true
}.

Lemma healthy_verified plan entries e :
  healthy plan entries -> e ∈ entries -> ensures (verifyEntry rc e) (fun r => r = None).
Proof.
  intros Hh Hin. unfold verifyEntry. destruct (rc_signatures rc) eqn:Hs; [|done]. cbn [negb].
  apply ensures_bind, ensures_perform. intros r Ha. destruct (h_signed _ _ Hh e r Hin Hs Ha) as (sig & -> & Hv). cbn. by rewrite Hv.
Qed.

Lemma healthy_gated plan entries :
  healthy plan entries -> ensures (gate_entries rc [] entries) (fun g => ga_failures g = []).
Proof.
  intros Hh. unfold gate_entries. apply ensures_for_each; [|done]. intros e g Hin Hg. unfold gate_entry.
  pose proof (h_valid _ _ Hh) as Hv. rewrite Forall_forall in Hv. rewrite (Hv e Hin), bool_decide_eq_false_2 by apply not_elem_of_nil.
  apply ensures_bind. eapply ensures_mono; [|by eapply healthy_verified]. intros r ->.
  apply ensures_bind, ensures_true. by intros [].
Qed.

Lemma healthy_bringUp plan entries e : healthy plan entries -> ensures (bringUp rc e) (fun r => is_ok r = true).
Proof.
  intros Hh. unfold bringUp. apply ensures_bind. eapply (ensures_mono _ _ (fun r => is_ok r = true)).
  - intros [env|x]; [intros _|done]. apply ensures_bind, ensures_perform. intros [up|x] Ha; [|by apply (h_dials _ _ Hh) in Ha].
    apply ensures_bind, ensures_true. by intros [].
  - generalize (∅ : gmap string string). induction (EnvVarNames e) as [|var vars IH]; intros env; cbn [resolveEnv]; [done|].
    apply ensures_bind, ensures_perform. intros [v|x] Ha; [apply IH|by apply (h_vault _ _ Hh) in Ha].
Qed.

(** What the dials have made, and those still to run. *)
Record dialing (targets pending : list (string * UpstreamServer)) (acc : dials) : Prop := {
  d_ok : dialed_ok (d_add acc);
  d_within : forall name up e, d_add acc !! name = Some (up, e) -> (name, e) ∈ targets;
  d_keyed : NoDup (map fst pending);
  d_pending : forall t, t ∈ pending -> t ∈ targets /\ d_add acc !! t.1 = None;
  d_done : forall t, t ∈ targets -> t ∈ pending \/ is_Some (d_add acc !! t.1) \/ is_Some (d_errs acc !! t.1)
}.

Lemma dialing_step targets pending i target acc r :
  (forall t, t ∈ targets -> Validate t.2 = None /\ Name t.2 = t.1) ->
  pending !! i = Some target -> dialing targets pending acc ->
  match r with Ok up => up ∉ handles (fst <$> d_add acc) | Err _ => True end ->
  dialing targets (delete i pending)
    match r with
    | Ok up => {| d_add := <[target.1 := (up, target.2)]> (d_add acc); d_errs := d_errs acc |}
    | Err e => {| d_add := d_add acc; d_errs := <[target.1 := e]> (d_errs acc) |}
    end.
Proof.
  intros Hv Hi [[D1 D2] D3 D4 D5 D6] Hr.
  assert (Hin : target ∈ pending) by by eapply list_elem_of_lookup_2.
  pose proof D4 as Hk. rewrite (delete_Permutation _ _ _ Hi) in Hk. cbn in Hk. apply NoDup_cons in Hk as [Hne Hk].
  assert (Hd : forall t, t ∈ delete i pending -> t ∈ pending /\ t.1 <> target.1).
  { intros t Ht. split; [rewrite (delete_Permutation _ _ _ Hi); by apply elem_of_cons; right|].
    intros Heq. apply Hne. rewrite <- Heq. by apply list_elem_of_fmap_2. }
  assert (Hsplit : forall t, t ∈ pending -> t = target \/ t ∈ delete i pending).
  { intros t Ht. rewrite (delete_Permutation _ _ _ Hi) in Ht. by apply elem_of_cons in Ht. }
  destruct r as [up|e]; (split; cbn; [|..]); try done.
  - split.
    + rewrite fmap_insert. intros a b h Ha Hb. apply lookup_insert_Some in Ha, Hb.
      destruct Ha as [[<- <-]|[Hna Ha]], Hb as [[<- Hh]|[Hnb Hb]]; [done| | |by eapply D1];
        exfalso; apply Hr, elem_of_handles; [by exists b|subst; by exists a].
    + intros name u e Hl. apply lookup_insert_Some in Hl as [[<- [= <- <-]]|[_ Hl]]; [|by eapply D2]. by apply Hv, D5.
  - intros name u e Hl. apply lookup_insert_Some in Hl as [[<- [= <- <-]]|[_ Hl]]; [|by eapply D3].
    rewrite <- surjective_pairing. by apply D5.
  - intros t Ht. destruct (Hd t Ht) as [Htp Hn]. destruct (D5 t Htp). split; [done|]. by rewrite lookup_insert_ne.
  - intros t Ht. destruct (D6 t Ht) as [[->|?]%Hsplit|[?|?]]; [|tauto| |tauto].
    + right. left. by rewrite lookup_insert_eq.
    + right. left. by apply lookup_insert_is_Some'; right.
  - intros t Ht. by apply D5, Hd.
  - intros t Ht. destruct (D6 t Ht) as [[->|?]%Hsplit|[?|?]]; [|tauto|tauto|].
    + right. right. by rewrite lookup_insert_eq.
    + right. right. by apply lookup_insert_is_Some'; right.
Qed.

Lemma dial_all_have plan entries targets conns dialed :
  (forall t, t ∈ targets -> Validate t.2 = None /\ Name t.2 = t.1) -> NoDup (map fst targets) ->
  triple (have ∅ (at_snap conns dialed)) (concurrently targets (dial_one rc) {| d_add := ∅; d_errs := ∅ |})
    (fun acc => have (handles (fst <$> d_add acc)) (fun f => at_snap conns dialed f /\ (dialing targets [] acc /\ (healthy plan entries -> d_errs acc = ∅)))).
Proof.
  intros Hv Hk.
  eapply t_mono; [apply (t_concurrently (fun pending acc =>
    have (handles (fst <$> d_add acc)) (fun f => at_snap conns dialed f /\ (dialing targets pending acc /\ (healthy plan entries -> d_errs acc = ∅)))))| |].
  - intros l b. apply have_core, _.
  - intros l b. apply have_stable, _.
  - intros l i target acc Hi. apply have_pure. intros [Hd He]. unfold dial_one.
    eapply t_bind; [apply triple_ensures with (R := fun r : result failure handle => healthy plan entries -> is_ok r = true);
      [apply bringUp_have, _|apply ensures_impl; intros Hh; by eapply healthy_bringUp]|].
    intros [up|e]; cbn [ok_value in_hand is_ok].
    + eapply t_mono; [|intros w _ [Hw _]; exact Hw|intros a w _ Hq; exact Hq].
      apply have_pure. intros Hup. apply ret_have; [apply _|]. intros w [Hh Hw].
      split; [|split; [done|split; [by apply (dialing_step targets l i target acc (Ok up))|done]]].
      cbn [d_add]. rewrite fmap_insert. unfold handles. rewrite map_img_insert_notin_L; [exact Hh|].
      rewrite lookup_fmap. destruct (d_pending _ _ _ Hd target) as [_ Hnone]; [by eapply list_elem_of_lookup_2|]. by rewrite Hnone.
    + eapply (triple_mono answers moment moment_stable _ _ (have _ (fun f => at_snap conns dialed f /\ (healthy plan entries -> false = true))));
        [|intros w _ [[Hh Hw] Hf]; split; [exact Hh|split; [exact Hw|exact Hf]]|intros a w _ Hq; exact Hq].
      apply have_pure. intros Hf. apply ret_have; [apply _|]. intros w [Hh Hw]. split; [done|]. split; [done|].
      split; [by apply (dialing_step targets l i target acc (Err e))|]. intros Hx. by apply Hf in Hx.
  - intros w _ [Hh Hw]. cbn [d_add]. rewrite fmap_empty, handles_empty. split; [done|]. split; [done|]. split; [|done].
    split; cbn; try done. auto.
  - intros acc w _ Hq. exact Hq.
Qed.

Lemma List_filter_sublist {A} (p : A -> bool) l : List.filter p l `sublist_of` l.
Proof. induction l as [|x l IH]; cbn; [constructor|]. destruct (p x); by constructor. Qed.

Lemma read_conns H K `{!Framed K} :
  triple (have H K) (step OpRead) (fun f0 => have H (fun f => (at_snap (f_conns f0) (f_dialed f0) f /\ K f) /\ sound f0)).
Proof.
  apply triple_step; [exact moment_stable|by apply have_stable|intros f0; apply have_stable, _|].
  intros f o Hm [Hh HK]. cbn. split; [done|]. split; [done|]. split; [by split; [right|]|apply Hm].
Qed.

Lemma never_review want unmeasured dialed live acc :
  never (E := round_effects) noisy (for_each live (review_one want unmeasured dialed) acc).
Proof.
  apply never_for_each. intros [name up] [remove drop]. unfold review_one. destruct (want !! name); [|by case_bool_decide].
  destruct (specChanged _ _); [done|]. apply (never_bind (E := round_effects)); [by apply never_step|done].
Qed.

(** Why a live backend is left alone. *)
Definition left_alone (want : gmap string UpstreamServer) (unmeasured : list string) (dialed : gmap string UpstreamServer)
  (name : string) : Prop :=
  match want !! name with
  | Some e => specChanged (default zero_entry (dialed !! name)) e = false
  | None => name ∈ unmeasured
  end.

Lemma ensures_review want unmeasured dialed live :
  ensures (for_each live (review_one want unmeasured dialed) ([], ∅))
    (fun rd => forall c, c ∈ live -> c.1 ∉ rd.1 -> left_alone want unmeasured dialed c.1).
Proof.
  eapply ensures_mono; [|apply (ensures_loop _ _ _ _ (fun rest (rd : list string * gset string) =>
    forall c, c ∈ live -> c.1 ∉ rd.1 -> c ∈ rest \/ left_alone want unmeasured dialed c.1))].
  - intros rd Hr c Hc Hn. by destruct (Hr c Hc Hn) as [?%not_elem_of_nil|].
  - intros [name up] rest [remove drop] Hr. unfold review_one.
    assert (Hgone : forall d c, c ∈ live -> c.1 ∉ (remove ++ [name], d : gset string).1 -> c ∈ rest \/ left_alone want unmeasured dialed c.1).
    { intros d c Hc Hn. cbn in Hn. rewrite not_elem_of_app, list_elem_of_singleton in Hn. destruct Hn as [Hn Hne].
      destruct (Hr c Hc Hn) as [[->|?]%elem_of_cons|?]; [done|by left|by right]. }
    assert (Hkeep : left_alone want unmeasured dialed name -> forall c, c ∈ live -> c.1 ∉ (remove, drop).1 -> c ∈ rest \/ left_alone want unmeasured dialed c.1).
    { intros Hl c Hc Hn. destruct (Hr c Hc Hn) as [[->|?]%elem_of_cons|?]; [by right|by left|by right]. }
    unfold left_alone in Hkeep at 1. destruct (want !! name) as [e|] eqn:Hw.
    + destruct (specChanged _ e); [exact (Hgone _)|]. apply ensures_bind, ensures_true. intros [|]; [exact (Hgone _)|exact (Hkeep eq_refl)].
    + case_bool_decide as Hu; [exact (Hkeep Hu)|exact (Hgone _)].
  - intros c Hc _. by left.
Qed.

(** No failure reported: the live backends are exactly the registry's, each dialed from its present entry. *)
Definition converged (entries : list UpstreamServer) (r : round_end) (f : fleet) : Prop :=
  r = Finished [] -> f_closed f = true
    \/ dom (f_conns f) = list_to_set (map Name entries)
       /\ forall e, e ∈ entries -> exists was, f_dialed f !! Name e = Some was /\ specChanged was e = false.

#[local] Instance framed_converged entries r : Framed (converged entries r).
Proof.
  split; unfold converged.
  - intros f g (Hc & Hd & _ & _ & _ & Hcl & _). by rewrite Hc, Hd, Hcl.
  - intros f _ _. left. unfold close. by destruct (f_closed f) eqn:?.
Qed.

Lemma specChanged_refl e : specChanged e e = false.
Proof. by apply specChanged_false. Qed.

Lemma elem_of_targets want live remove t :
  t ∈ targets want live remove <-> want !! t.1 = Some t.2 /\ t.1 ∉ dom live ∖ list_to_set remove.
Proof.
  unfold targets. rewrite list_elem_of_In, filter_In, <- list_elem_of_In. destruct t as [name e].
  rewrite elem_of_sorted_entries, negb_true_iff, andb_false_iff, bool_decide_eq_false, negb_false_iff, bool_decide_eq_true.
  cbn. rewrite elem_of_difference, elem_of_list_to_set, elem_of_dom. split; intros [? Hx]; (split; [done|]); [naive_solver|].
  destruct (decide (is_Some (live !! name))), (decide (name ∈ remove)); tauto.
Qed.

Lemma NoDup_targets want live remove : NoDup (map fst (targets want live remove)).
Proof. eapply sublist_NoDup; [apply (NoDup_sorted_entries want)|]. apply (fmap_sublist fst), List_filter_sublist. Qed.

Lemma wanted_keyed entries : NoDup (map Name entries) -> forall n e, wanted entries !! n = Some e <-> e ∈ entries /\ Name e = n.
Proof.
  intros Hn. unfold wanted. cut (forall m : gmap string UpstreamServer, (forall e, e ∈ entries -> m !! Name e = None) ->
    forall n e, foldl (fun m e => <[Name e := e]> m) m entries !! n = Some e <-> m !! n = Some e \/ (e ∈ entries /\ Name e = n)).
  { intros Hc n e. rewrite Hc by (intros; apply lookup_empty). rewrite lookup_empty. split; [by intros [?|?]|by right]. }
  induction entries as [|r entries IH]; intros m Hm n e; cbn [foldl].
  { split; [by left|]. by intros [?|[?%not_elem_of_nil _]]. }
  cbn in Hn. apply NoDup_cons in Hn as [Hr Hn]. rewrite IH; [|done|].
  - rewrite elem_of_cons. destruct (decide (n = Name r)) as [->|Hne].
    + rewrite lookup_insert_eq, (Hm r) by apply list_elem_of_here. split.
      * intros [[= <-]|[Hin Heq]]; [right; tauto|]. exfalso. apply Hr. rewrite <- Heq. by apply list_elem_of_fmap_2.
      * intros [?|[[->|Hin] Heq]]; [done|by left|]. right. by split.
    + rewrite lookup_insert_ne by done. split; [tauto|]. intros [?|[[->|?] ?]]; [tauto|congruence|tauto].
  - intros x Hx. rewrite lookup_insert_ne; [apply Hm; by apply elem_of_cons; right|]. intros Heq. apply Hr. rewrite Heq. by apply list_elem_of_fmap_2.
Qed.

Lemma coverage_none plan entries : (quotaCoverage plan entries).2 = [] -> (quotaCoverage plan entries).1 = [].
Proof.
  unfold quotaCoverage. destruct (providers plan); [done|]. cbn. intros [_ H]%app_eq_nil.
  destruct (shares plan entries); [done|discriminate].
Qed.

Lemma no_entries {A} (m : gmap string A) : map snd (sorted_entries m) = [] -> m = ∅.
Proof.
  intros H. apply map_empty. intros k. destruct (m !! k) as [x|] eqn:Hk; [|done]. apply elem_of_sorted_entries in Hk.
  assert (Hin : x ∈ map snd (sorted_entries m)) by by apply (list_elem_of_fmap_2 snd) in Hk. by rewrite H in Hin; apply not_elem_of_nil in Hin.
Qed.

Lemma converged_now snap f entries remove outcomes :
  sound snap -> NoDup (map Name entries) ->
  (forall c, c ∈ sorted_entries (f_conns snap) -> c.1 ∉ remove -> left_alone (wanted entries) [] (f_dialed snap) c.1) ->
  dialing (targets (wanted entries) (f_conns snap) remove) [] outcomes -> d_errs outcomes = ∅ ->
  at_snap ((fst <$> d_add outcomes) ∪ foldr delete (f_conns snap) remove)
    ((snd <$> d_add outcomes) ∪ foldr delete (f_dialed snap) remove) f ->
  converged entries (Finished []) f.
Proof.
  intros Hs Hn Hr [_ D2 _ _ D5] He [Hc|[Hc Hd]] _; [by left|right]. set (want := wanted entries) in *. set (live := f_conns snap) in *.
  assert (Hadd : forall name e, want !! name = Some e -> name ∉ dom live ∖ list_to_set remove ->
    exists up, d_add outcomes !! name = Some (up, e)).
  { intros name e Hw Hnl. assert (Ht : (name, e) ∈ targets want live remove) by by apply elem_of_targets.
    destruct (D5 _ Ht) as [?%not_elem_of_nil|[[[up e'] Hl]|[x Hx]]]; cbn in *; [done| |by rewrite He in Hx].
    apply D2 in Hl as Hl'. apply elem_of_targets in Hl' as [Hw' _]. cbn in *. exists up. rewrite Hl. congruence. }
  assert (Hkept : forall name, name ∈ dom live ∖ list_to_set remove ->
    exists e, want !! name = Some e /\ specChanged (default zero_entry (f_dialed snap !! name)) e = false).
  { intros name [Hl Hnr]%elem_of_difference. apply elem_of_dom in Hl as [up Hl]. rewrite elem_of_list_to_set in Hnr.
    assert (Hin : (name, up) ∈ sorted_entries live) by by apply elem_of_sorted_entries.
    specialize (Hr _ Hin Hnr). unfold left_alone in Hr. cbn in Hr. fold want in Hr.
    destruct (want !! name) as [e|]; [by exists e|by apply not_elem_of_nil in Hr]. }
  split.
  - rewrite Hc, dom_union_L, dom_fmap_L, dom_foldr_delete. apply set_eq. intros name.
    rewrite elem_of_union, elem_of_list_to_set, list_elem_of_fmap. split.
    + intros [[[up e] Hl]%elem_of_dom|Hl].
      * apply D2, elem_of_targets in Hl as [Hw _]. cbn in Hw. apply wanted_keyed in Hw as [? <-]; [|done]. by exists e.
      * apply Hkept in Hl as (e & Hw & _). apply wanted_keyed in Hw as [? <-]; [|done]. by exists e.
    + intros (e & -> & Hin). destruct (decide (Name e ∈ dom live ∖ list_to_set remove)) as [|Hnl]; [by right|left].
      destruct (Hadd (Name e) e) as [up Hup]; [by apply wanted_keyed|done|]. apply elem_of_dom. by eexists.
  - intros e Hin. assert (Hw : want !! Name e = Some e) by by apply wanted_keyed. rewrite Hd.
    destruct (decide (Name e ∈ dom live ∖ list_to_set remove)) as [Hl|Hnl].
    + destruct (Hkept _ Hl) as (e' & Hw' & Hsp). assert (e' = e) as -> by congruence.
      assert (is_Some (f_dialed snap !! Name e)) as [was Hwas].
      { apply elem_of_dom. rewrite <- (s_dom snap Hs). apply elem_of_difference in Hl. tauto. }
      exists was. rewrite Hwas in Hsp. split; [|done]. rewrite lookup_union_r, foldr_delete_lookup, bool_decide_eq_false_2; [done| |].
      * apply elem_of_difference in Hl as [_ Hl]. by rewrite elem_of_list_to_set in Hl.
      * rewrite lookup_fmap. destruct (d_add outcomes !! Name e) as [[up e']|] eqn:Hl'; [|done].
        apply D2, elem_of_targets in Hl' as [_ Hl']. done.
    + destruct (Hadd (Name e) e Hw Hnl) as [up Hup]. exists e. split; [|apply specChanged_refl].
      apply lookup_union_Some_l. by rewrite lookup_fmap, Hup.
Qed.

Lemma finish_round_with servable keep frozen dialed round r K `{!Framed K} :
  Forall (fun n => ValidName n = true) servable ->
  triple (have ∅ K) (settle servable keep frozen dialed;;; persistHealth rc round;;; Ret (A := round_end) r)
    (fun r' => have ∅ (fun f => K f /\ r' = r)).
Proof.
  intros Hv. apply quiet_pass; [apply _| |].
  { apply never_settle. apply forallb_forall. intros x Hx%list_elem_of_In. rewrite Forall_forall in Hv. by apply Hv. }
  intros []. apply quiet_pass; [apply _|apply never_persistHealth|]. intros []. apply ret_have; [apply _|].
  intros w [Hh HK]. by split.
Qed.

(** What [Reconcile] promises, of what it returned and the fleet it left. *)
Definition reconciled (plan : Plan) (entries : list UpstreamServer) (r : round_end) (f : fleet) : Prop :=
  converged entries r f /\ (healthy plan entries -> r = RoundClosed \/ r = Finished []).

#[local] Instance framed_reconciled plan entries r : Framed (reconciled plan entries r).
Proof. unfold reconciled. apply _. Qed.

Lemma ret_closed H K plan entries `{!Framed K} :
  triple (have H K) (Ret RoundClosed) (fun r => have H (reconciled plan entries r)).
Proof. apply ret_have; [apply _|]. intros w [Hh _]. split; [done|]. split; [by intros ?|by left]. Qed.

(** What the plan in force and the registry disagree on, at a read. *)
Lemma read_plan H K plan `{!Framed K} :
  triple (have H (fun f => K f /\ plan_is plan f)) (step OpRead) (fun f0 => have H (fun f => K f /\ plan_is plan f0)).
Proof.
  apply triple_step; [exact moment_stable|apply have_stable, _|intros f0; apply have_stable, _|].
  intros f o Hm [Hh [HK Hp]]. cbn. split; [done|]. by split.
Qed.

Lemma counted_all entries : counted [] entries = entries.
Proof.
  unfold counted. induction entries as [|e l IH]; [done|]. cbn. rewrite bool_decide_eq_false_2 by apply not_elem_of_nil.
  cbn. by rewrite IH.
Qed.

Lemma covered_none plan entries : CheckQuotaCoverage plan entries = None -> quotaCoverage plan entries = ([], []).
Proof.
  unfold CheckQuotaCoverage. pose proof (coverage_none plan entries) as Hc. destruct (quotaCoverage plan entries) as [u [|p ps]]; [|done].
  cbn in *. intros _. by rewrite Hc.
Qed.

Lemma reconcile_gated_have plan entries snap uncounted problems g :
  NoDup (map Name entries) -> sound snap -> Forall (fun e => Validate e = None) (ga_ready g) ->
  (problems = [] -> uncounted = []) -> (healthy plan entries -> problems = [] /\ ga_failures g = []) ->
  (ga_failures g = [] -> ga_unmeasured g = [] /\ ga_ready g = counted uncounted entries) ->
  triple (have ∅ (at_snap (f_conns snap) (f_dialed snap)))
    (reconcile_gated rc entries (f_conns snap) (f_dialed snap) problems g) (fun r => have ∅ (reconciled plan entries r)).
Proof.
  intros Hkeyed Hsnap Hv Hunc Hhealthy Hg. unfold reconcile_gated.
  assert (Hw : forall name e, wanted (ga_ready g) !! name = Some e -> Validate e = None /\ Name e = name) by (intros name e; by apply wanted_ok).
  apply quiet_pass; [apply _|by apply never_step|]. intros [].
  eapply quiet_have; [apply _|apply never_review|apply ensures_review|]. intros [remove drop] Hrev. cbn [fst] in Hrev.
  apply quiet_pass; [apply _|by apply never_step|]. intros f2.
  eapply t_bind; [apply retire_have|]. intros [|]; [apply ret_closed, _|].
  set (frozen := negb _). set (toDial := if frozen then [] else _).
  assert (Ht : forall t, t ∈ toDial -> wanted (ga_ready g) !! t.1 = Some t.2 /\ t.1 ∉ dom (f_conns snap) ∖ list_to_set remove).
  { intros t. unfold toDial. destruct frozen; [by intros ?%not_elem_of_nil|]. apply elem_of_targets. }
  eapply t_bind; [apply (dial_all_have plan entries)|].
  { intros t Hin. destruct (Ht t Hin) as [Hl _]. by apply Hw. }
  { unfold toDial. destruct frozen; [constructor|apply NoDup_targets]. }
  intros outcomes. apply have_pure. intros [Hd Hde].
  eapply t_bind; [apply confirm_have|]. intros [].
  eapply t_bind; [apply adopt_have; [apply (d_ok _ _ _ Hd)|]|].
  { intros name [[up e] Hn]%elem_of_dom. rewrite dom_foldr_delete. apply (d_within _ _ _ Hd), Ht in Hn. by destruct Hn. }
  intros [|]; [apply ret_closed, _|].
  eapply t_mono; [|intros w _ Hq; exact Hq|]; [apply finish_round_with, Forall_forall; [apply _|]|].
  { intros name [e He]%elem_of_sorted_keys. destruct (Hw _ _ He) as [Hve <-]. by apply Validate_name. }
  intros r w _ (Hh & Hsn & ->). split; [done|]. split.
  - intros [= Hf]. apply app_nil in Hf as [Hf1 [Hf2 Hf3%no_entries]%app_nil].
    unfold toDial, frozen in *. destruct (bool_decide (problems = [])) eqn:Hp; [|done]. apply bool_decide_eq_true in Hp.
    destruct (Hg Hf2) as [Hun Hready]. rewrite Hun in Hrev. rewrite (Hunc Hp), counted_all in Hready.
    rewrite Hready in *. by eapply converged_now.
  - intros Hh'. right. destruct (Hhealthy Hh') as [Hp ->]. unfold frozen. rewrite bool_decide_eq_true_2 by done. by rewrite (Hde Hh').
Qed.

Lemma reconcile_entries_have plan entries :
  NoDup (map Name entries) ->
  triple (have ∅ (plan_is plan)) (reconcile_entries rc entries) (fun r => have ∅ (reconciled plan entries r)).
Proof.
  intros Hkeyed. unfold reconcile_entries. eapply t_bind; [apply read_conns, _|]. intros snap.
  apply have_pure. intros Hsnap.
  apply quiet_pass; [apply _|apply never_start_round|]. intros []. eapply t_bind; [apply read_plan, _|]. intros f. apply have_pure. intros Hplan.
  destruct (quotaCoverage _ entries) as [uncounted problems] eqn:Hcov. unfold plan_is in Hplan. rewrite Hplan in Hcov.
  assert (Hcovered : healthy plan entries -> uncounted = [] /\ problems = []).
  { intros Hh%h_covered%covered_none. rewrite Hcov in Hh. by injection Hh. }
  assert (Hun : problems = [] -> uncounted = []).
  { intros ->. pose proof (coverage_none plan entries) as Hc. rewrite Hcov in Hc. by apply Hc. }
  eapply quiet_have; [apply _|apply never_gate_entries| |].
  { apply ensures_conj; [apply ensures_gate_entries|]. apply (ensures_impl answers _ (healthy plan entries)). intros Hh.
    destruct (Hcovered Hh) as [-> _]. by eapply healthy_gated. }
  intros g [(Hv & _ & Hg) Hgh]. eapply reconcile_gated_have; [done|done|done|exact Hun| |exact Hg].
  intros Hh. split; [by apply Hcovered|by apply Hgh].
Qed.

Lemma Reconcile_have plan :
  triple (have ∅ (plan_is plan)) (Reconcile rc)
    (fun r => have ∅ (fun f => (exists entries, answers RRegistry (Val (Ok entries)) /\ reconciled plan entries r f)
                               \/ r = RoundClosed \/ exists e, (r = RegistryUnreadable e \/ r = RoundInterrupted e)
                                                            /\ answers RRegistry (Val (Err e)))).
Proof.
  unfold Reconcile. apply quiet_pass; [apply _|by apply never_step|]. intros f.
  destruct (f_closed f); [apply ret_have; [apply _|]; intros w [Hh _]; split; [done|]; auto|].
  apply (quiet_have answers _ _ _ _ (fun r : result foreign (list UpstreamServer) => answers RRegistry (Val r))).
  { by apply never_perform; cbn; tauto. }
  { by apply ensures_perform. }
  intros [entries|e] Ha.
  - eapply t_mono; [apply (reconcile_entries_have plan); by apply registry_keyed|intros w _ Hw; exact Hw|].
    intros r w _ [Hh Hc]. split; [done|]. left. by exists entries.
  - apply quiet_pass; [apply _|by apply never_perform; cbn; tauto|]. intros [c|].
    + apply ret_have; [apply _|]. intros w [Hh _]. split; [done|]. right. right. exists e. auto.
    + eapply t_bind; [apply suspend_have, _|]. intros []. apply ret_have; [apply _|]. intros w [Hh _]. split; [done|].
      right. right. exists e. auto.
Qed.

(** ** Refresh *)

Definition all_typed (c : gmap string table) : Prop := forall u t, c !! u = Some t -> typed t.

Lemma all_typed_insert c u t : all_typed c -> typed t -> all_typed (<[u := t]> c).
Proof. intros Hc Ht u' t' Hl. apply lookup_insert_Some in Hl as [[_ <-]|[_ Hl]]; [done|by eapply Hc]. Qed.

Lemma typed_routesOf t u : typed t -> typed (routesOf t u).
Proof. intros Ht. eapply typed_subseteq; [exact Ht|apply map_filter_subseteq]. Qed.

Lemma never_refresh_one previous conn acc : never (E := round_effects) noisy (refresh_one previous conn acc).
Proof.
  destruct conn as [name up]. unfold refresh_one. apply (never_bind (E := round_effects)); [by apply never_perform; cbn; tauto|].
  intros [defs|e].
  - apply (never_bind (E := round_effects)); [apply never_routesFor|]. intros got. destruct (ur_unmeasured got); [done|].
    apply (never_bind (E := round_effects)); [by apply never_step|]. intros _.
    apply (never_bind (E := round_effects)); [by apply never_perform; cbn; tauto|]. intros now.
    apply (never_bind (E := round_effects)); [by apply never_step|done].
  - destruct (wraps e SUpstreamGone); [|done].
    apply (never_bind (E := round_effects)); [by apply never_perform; cbn; tauto|]. intros now.
    apply (never_bind (E := round_effects)); [by apply never_step|]. intros ev.
    apply (never_bind (E := round_effects)); [apply never_stableRoutesFor|done].
Qed.

Lemma ensures_refresh_one previous name up acc :
  ValidName name = true -> typed previous -> all_typed (l_candidates acc) ->
  ensures (refresh_one previous (name, up) acc) (fun acc' => all_typed (l_candidates acc')).
Proof.
  intros Hv Hp Ha. pose proof (typed_routesOf previous name Hp) as Hk. unfold refresh_one.
  apply ensures_bind, ensures_true. intros [defs|e].
  - apply ensures_bind. eapply ensures_mono; [|by apply ensures_routesFor]. intros got [Ht _].
    destruct (ur_unmeasured got); [by apply all_typed_insert|].
    apply ensures_bind, ensures_true. intros []. apply ensures_bind, ensures_true. intros now.
    apply ensures_bind, ensures_true. intros ev. by apply all_typed_insert.
  - destruct (wraps e SUpstreamGone); [|by apply all_typed_insert].
    apply ensures_bind, ensures_true. intros now. apply ensures_bind, ensures_true. intros ev.
    apply ensures_bind. eapply ensures_mono; [|by apply ensures_stableRoutesFor]. intros st [Ht _].
    apply all_typed_insert; [done|]. by destruct (ur_unmeasured st).
Qed.

Lemma refresh_all_have conns previous H K `{!Framed K} :
  (forall name up, conns !! name = Some up -> ValidName name = true) -> typed previous ->
  triple (have H K)
    (concurrently (sorted_entries conns) (refresh_one previous) {| l_candidates := ∅; l_failures := ∅; l_events := [] |})
    (fun acc => have H (fun f => K f /\ all_typed (l_candidates acc))).
Proof.
  intros Hv Hp. eapply t_mono; [apply (t_concurrently (fun pending acc => have H (fun f => K f /\
    (all_typed (l_candidates acc) /\ forall c, c ∈ pending -> ValidName c.1 = true))))| |].
  - intros l b. apply have_core, _.
  - intros l b. apply have_stable, _.
  - intros l i [name up] acc Hi. apply have_pure. intros [Ha Hn].
    assert (Hd : forall c, c ∈ delete i l -> ValidName c.1 = true).
    { intros c Hc. apply Hn. rewrite (delete_Permutation _ _ _ Hi). by apply elem_of_cons; right. }
    eapply t_mono; [apply (quiet_triple answers _ (have H K) (fun acc' => all_typed (l_candidates acc')))| |].
    + by apply have_core.
    + by apply have_stable.
    + apply never_refresh_one.
    + apply ensures_refresh_one; [|done|done]. apply (Hn (name, up)). by eapply list_elem_of_lookup_2.
    + done.
    + intros acc' w _ [[Hh HK] Hq]. by split_and!.
  - intros w _ [Hh HK]. split; [done|]. split; [done|]. split; [done|].
    intros [name up] Hin%elem_of_sorted_entries. by eapply Hv.
  - intros acc w _ (Hh & HK & Hq & _). by split_and!.
Qed.

Lemma stable_or_kept_have names previous candidates H K `{!Framed K} :
  (forall name, name ∈ names -> ValidName name = true) -> typed previous -> all_typed candidates ->
  triple (have H K) (for_each names (stable_or_kept previous) candidates)
    (fun c => have H (fun f => K f /\ all_typed c)).
Proof.
  intros Hv Hp Hc. eapply t_mono; [apply (quiet_triple answers _ (have H K) all_typed)| |].
  - by apply have_core.
  - by apply have_stable.
  - apply never_for_each. intros name c. unfold stable_or_kept.
    apply (never_bind (E := round_effects)); [apply never_stableRoutesFor|done].
  - apply ensures_for_each; [|done]. intros name c Hin Hc'. unfold stable_or_kept.
    apply ensures_bind. eapply ensures_mono; [|by apply ensures_stableRoutesFor, Hv]. intros st [Ht _].
    apply all_typed_insert; [done|]. destruct (ur_unmeasured st); [by apply typed_routesOf|done].
  - done.
  - intros c w _ [[Hh HK] Hq]. by split_and!.
Qed.

Lemma Refresh_have : triple (have ∅ (fun _ => True)) (Refresh rc) (fun _ => have ∅ (fun _ => True)).
Proof.
  unfold Refresh. apply quiet_pass; [apply _|by apply never_step|]. intros f0.
  destruct (f_closed f0); [apply ret_drop, _|].
  eapply t_bind; [apply read_have, _|]. intros f.
  eapply (triple_mono answers moment moment_stable _ _ (have ∅ (fun _ => True /\ sound f)));
    [|by intros w _ (Hh & _ & _ & _ & Hs)|intros a w _ Hq; exact Hq].
  apply have_pure. intros Hs.
  eapply t_bind; [apply refresh_all_have; [apply _|intros name up; by apply conns_named|apply Hs]|].
  intros got. apply have_pure. intros Hc. eapply t_bind; [apply read_have, _|]. intros f2.
  eapply (triple_mono answers moment moment_stable _ _ (have ∅ (fun _ => True /\ sound f2)));
    [|by intros w _ (Hh & _ & _ & _ & Hs2)|intros a w _ Hq; exact Hq].
  apply have_pure. intros Hs2. eapply t_bind; [apply stable_or_kept_have; [apply _| |apply Hs|exact Hc]|].
  { intros name Hin. apply (s_names f2 Hs2). right. unfold servableNotConnected in Hin. unfold is_servable.
    destruct (f_servable f2) as [sv|]; [|by apply not_elem_of_nil in Hin].
    apply elem_of_sort_strings, list_elem_of_In, filter_In in Hin as [Hin _]. apply list_elem_of_In, elem_of_elements in Hin.
    by apply bool_decide_eq_true. }
  intros candidates. apply have_pure. intros Hc2. eapply t_bind; [apply build_table_have; [apply _|exact Hc2]|].
  intros [routes failures]. cbn [fst snd].
  eapply t_bind; [eapply t_mono; [apply (swapRoutes_have answers ∅ routes)|intros w _ (Hh & _ & Hf); split; [exact Hh|exact Hf]|intros a w _ Hq; exact Hq]|].
  intros [|]; [apply ret_drop, _|]. apply quiet_pass; [apply _|apply never_lift|]. intros [].
  apply quiet_pass; [apply _|apply never_persistHealth|]. intros []. apply ret_drop, _.
Qed.

Lemma ApplyPolicy_have ctl : triple (have ∅ (fun _ => True)) (ApplyPolicy ctl) (fun _ => have ∅ (fun _ => True)).
Proof.
  unfold ApplyPolicy. apply quiet_pass; [apply _|by apply never_step|]. intros f0.
  destruct (f_closed f0); [apply ret_drop, _|].
  apply quiet_pass; [apply _|by apply never_perform; cbn; tauto|]. intros [entries|e]; [|apply ret_drop, _].
  destruct (CheckQuotaCoverage _ entries); [apply ret_drop, _|].
  eapply t_bind; [apply apply_have, _|]. intros r. apply ret_drop, _.
Qed.

(** ** The system *)

(** The rounds: what runs under [refreshMu]. *)
Inductive is_round : rprog round_end -> Prop :=
| round_connect : is_round (Connect rc)
| round_reconcile : is_round (Reconcile rc)
| round_refresh : is_round (Refresh rc)
| round_apply ctl : is_round (ApplyPolicy ctl).

(** A gateway just made, and anything it can come to. *)
Definition at_work (ctl : controls) (w : world) (busy : option (rprog round_end)) : Prop :=
  rtc (gstep answers is_round) (World (new_fleet ctl) ∅, None) (w, busy).

Lemma at_work_sound ctl w busy :
  at_work ctl w busy -> moment w /\ (busy = None -> have ∅ (fun _ => True) w).
Proof.
  intros H. apply (system_invariant answers moment moment_stable is_round (have ∅ (fun _ => True))) in H.
  - cbn in H. destruct H as [Hm Hb]. split; [done|]. by intros ->.
  - apply have_stable, _.
  - intros p Hp. destruct Hp; [apply Connect_have| |apply Refresh_have|apply ApplyPolicy_have].
    intros x Hx [Hh _]. eapply safe_mono; [exact moment_stable|done| |by apply (Reconcile_have (ctl_plan (f_controls (w_fleet x))))].
    by intros r y _ [? _].
  - split_and!; cbn; [|done|by rewrite handles_empty]. split; cbn; try done; [by intros name [rt Hl]|].
    intros name [[x Hl]|Hl]; done.
  - split; [|done]. split; cbn; [set_solver|]. by rewrite handles_empty.
Qed.

(** C3 [table_is_sound]: at every moment of a gateway at work - in the middle of any round, whatever the
    stores answer, the backends do, the calls find dead or the operator asks for - every routed name
    gives back the one backend that serves it, by a grammar no other backend's name fits, and routes a
    definition whose name, size and schemas were checked; no tool of a budgeted backend is routed
    unless the quota plan now in force charges or excuses it; nothing is routed unless the registry has
    been read since it was last unreadable, and nothing once the gateway is closed; and every
    connection was dialed from an entry of its own name that the registry's contract accepts. *)
Theorem table_is_sound ctl w busy :
  at_work ctl w busy -> sound (w_fleet w).
Proof. by intros [[Hs _] _]%at_work_sound. Qed.


(** One effect of a round done. *)
Definition advances (p' p : rprog round_end) : Prop := match p with Vis e k => exists r, p' = k r | _ => False end.

End invariant.

(** ** Witnesses: a registry of one backend, everything answering *)

Definition demo_round : round_config :=
  {| rc_signatures := false; rc_requireSig := false; rc_verifier := []; rc_state := false; rc_interval := 60 * second;
     rc_boot := demo_now; rc_credKey := "" |}.

Definition demo_listed : ToolDef :=
  {| DName := "lookup_ip"; DDescription := ""; DInputSchema := dq "{'type':'object'}"; DOutputSchema := ""; SecurityClass := ClassSafe |}.

Definition next_handle (o : gset handle) : handle := 1 + foldr Z.max 0 (base.elements o).

Lemma next_handle_new o : next_handle o ∉ o.
Proof.
  assert (Hle : forall l x, x ∈ l -> x <= foldr Z.max 0 l).
  { induction l as [|y l IH]; intros x Hx; [by apply not_elem_of_nil in Hx|]. apply elem_of_cons in Hx as [->|Hx]; cbn; [lia|].
    specialize (IH x Hx). lia. }
  intros Hin%elem_of_elements%Hle. unfold next_handle in Hin. lia.
Qed.

Definition demo_handler (e : reff (SV := demo_schemas)) (w : world) : reply (rans e) :=
  match e with
  | RGw e => Val (demo_value e)
  | RFleet op => Val (fleet_step op (w_fleet w)).2
  | RRegistry => Val (Ok [demo_stdio])
  | RSignature _ => Val SigMissing
  | RDial _ _ => Val (Ok (next_handle (w_open w)))
  | RArrives _ => Val O
  | RListTools _ => Val (Ok [demo_listed])
  | RClose _ => Val (Ok tt)
  | RObserve _ _ _ => Val (Ok (demo_tool, EventNone))
  | RDefinition _ => Val DefNone
  | RQuarList => Val (Ok [])
  | RListings => Val (Ok ∅)
  | RWriteState _ => Val (Ok tt)
  | RStanding _ _ _ _ => Val ([], None)
  end.

Definition demo_answers (e : reff (SV := demo_schemas)) : reply (rans e) -> Prop :=
  match e as e return reply (rans e) -> Prop with
  | RRegistry => fun r => r = Val (Ok [demo_stdio])
  | RDial _ _ => fun r => exists h, r = Val (Ok h)
  | RGw (EResolve _) => fun r => r = Val (Ok "secret-value")
  | _ => fun _ => True
  end.

Lemma demo_fair : fair demo_handler demo_answers.
Proof.
  intros e w. destruct e as [g| | | | | | | | | | | | |]; try (by split_and!).
  - destruct g; by split_and!.
  - split_and!; [by eexists|done|]. cbn. apply next_handle_new.
Qed.

Definition demo_controls : controls :=
  {| ctl_policy := demo_policy; ctl_plan := {| providers := []; byTool := ∅; free := {[ demo_call_name ]} |} |}.

Definition demo_world0 : world (SV := demo_schemas) := World (new_fleet demo_controls) ∅.
Definition demo_connect : prog (E := round_effects (SV := demo_schemas)) round_end :=
  Connect (UT := demo_tables) (HF := weak_hash) (ED := demo_ed) (UP := demo_url) demo_round.
Definition demo_world1 : world := (play demo_handler demo_connect demo_world0).1.

Definition demo_reconcile : prog (E := round_effects (SV := demo_schemas)) round_end :=
  Reconcile (UT := demo_tables) (HF := weak_hash) (ED := demo_ed) (UP := demo_url) demo_round.

Lemma demo_keyed entries : demo_answers RRegistry (Val (Ok entries)) -> NoDup (map Name entries).
Proof. cbn. intros [= ->]. apply NoDup_singleton. Qed.

Definition demo_served (w : world (SV := demo_schemas)) : bool :=
  match f_conns (w_fleet w) !! "threatintel", lookup_route demo_call_name (w_fleet w) with
  | Some up, Some (rt, Some up') => (up =? up') && bool_decide (originalName (rt_route rt) = "lookup_ip")
  | _, _ => false
  end.

(** The backend dialed, its tool routed. *)
Lemma demo_connected :
  match play demo_handler demo_connect demo_world0 with
  | (w, Done (Finished [])) => demo_served w && bool_decide (w_open w = {[ 1 ]})
  | _ => false
  end = true.
Proof. vm_compute. reflexivity. Qed.

Lemma demo_play : play demo_handler demo_connect demo_world0 = (demo_world1, Done (Finished [])).
Proof.
  pose proof demo_connected as H. unfold demo_world1. destruct (play demo_handler demo_connect demo_world0) as [w [[]|]]; try done.
  destruct failures; [done|discriminate].
Qed.

Abbreviation demo_at_work := (at_work (UT := demo_tables) (SV := demo_schemas) (HF := weak_hash) (ED := demo_ed) (UP := demo_url) demo_round demo_answers demo_controls).

Lemma demo_reached : demo_at_work demo_world1 None.
Proof.
  apply (play_system demo_handler demo_answers _ demo_connect _ _ (Finished [])); [exact demo_fair|apply round_connect|exact demo_play].
Qed.

Lemma demo_serves : demo_served demo_world1 = true.
Proof. vm_compute. reflexivity. Qed.

Lemma table_is_sound_witness : demo_served demo_world1 = true /\ sound (UP := demo_url) (w_fleet demo_world1).
Proof.
  split; [exact demo_serves|].
  exact (table_is_sound (UP := demo_url) demo_round demo_answers demo_keyed demo_controls demo_world1 None demo_reached).
Defined.


(** A Reconcile on the gateway just made dials the registered backend. *)
Definition demo_world2 : world := (play demo_handler demo_reconcile demo_world0).1.

Lemma demo_reconciled :
  match play demo_handler demo_reconcile demo_world0 with
  | (w, Done (Finished [])) => bool_decide (f_conns (w_fleet w) = {[ "threatintel" := 1 ]})
  | _ => false
  end = true.
Proof. vm_compute. reflexivity. Qed.

Lemma demo_play2 : play demo_handler demo_reconcile demo_world0 = (demo_world2, Done (Finished [])).
Proof.
  pose proof demo_reconciled as H. unfold demo_world2. destruct (play demo_handler demo_reconcile demo_world0) as [w [[]|]]; try done.
  destruct failures; [done|discriminate].
Qed.

Lemma demo_healthy : healthy (UP := demo_url) (HF := weak_hash) (ED := demo_ed) demo_round demo_answers (ctl_plan demo_controls) [demo_stdio].
Proof.
  split.
  - by intros r [= ->].
  - vm_compute. reflexivity.
  - constructor; [vm_compute; reflexivity|constructor].
  - intros e r _ [=].
  - by intros var r [= ->].
  - by intros spec env r [h [= ->]].
Qed.

