(* ===== verification/RowsOrder.v ===== *)
(** * The order the rows about a backend are written in

    [Refresh] keeps the rows it owes until its table is in place, and [Redial] and the calls write
    theirs at once.  The rows fit the states in the order of the steps (HealthRows.v); in the order
    they reach the trail, they need not: a run shows it. *)
From Stdlib Require Import ZArith Lia Ascii.
From stdpp Require Import base strings list gmap.
From S2P Require Import Prelude.
From S2P Require Import GoTime.
From S2P Require Import Encode.
From S2P Require Import AuditLog.
From S2P Require Import GatewayTypes.
From S2P Require Import Prog.
From S2P Require Import Routing.
From S2P Require Import Fleet.
From S2P Require Import Dispatch.
From S2P Require Import DispatchSafety.
From S2P Require Import Rounds.
From S2P Require Import World.
From S2P Require Import HealthRows.
From S2P Require Import RoundsInvariant.

Section trail.
Context `{SV : SchemaValidator}.
Variable handler : forall e : reff, world -> reply (rans e).

(** The row about a backend an effect appends to the trail. *)
Definition appends (e : reff) : list healthEvent :=
  match e with
  | RGw (ERecord _ rec) =>
      if bool_decide (Tool rec = backendHealthTool)
      then [{| he_backend := TargetUpstream rec; he_outcome := Outcome rec; he_reason := Reason rec |}] else []
  | _ => []
  end.

(** At most [n] effects of a program: what is left of it, and the rows it wrote. *)
Fixpoint play_for {A} (n : nat) (p : prog (E := round_effects) A) (w : world) (rows : list healthEvent)
  : prog (E := round_effects) A * world * list healthEvent :=
  match n, p with
  | S n, Vis e k => play_for n (k (reply_of handler e w)) (react e w (reply_of handler e w)) (rows ++ appends e)
  | _, _ => (p, w, rows)
  end.
End trail.

Definition demo_refresh : prog (E := round_effects (SV := demo_schemas)) round_end :=
  Refresh (UT := demo_tables) (HF := weak_hash) demo_round.
Definition demo_redial : prog (E := round_effects (SV := demo_schemas)) redial_answer :=
  Redial (UT := demo_tables) "threatintel".

(** A Refresh interrupted after [n] effects by a whole Redial. *)
Definition interrupted (n : nat) : world (SV := demo_schemas) * list healthEvent :=
  let '(rest, w1, rows1) := play_for demo_handler n demo_refresh demo_world2 [] in
  let '(_, w2, rows2) := play_for demo_handler 50 demo_redial w1 rows1 in
  let '(_, w3, rows3) := play_for demo_handler 50 rest w2 rows2 in (w3, rows3).

Lemma interrupted_rows : bool_decide (map he_reason (interrupted 10).2
  = ["backend down: redial"; "backend up: down since 2025-09-17T21:04:05Z"]) = true.
Proof. vm_compute. reflexivity. Qed.

Lemma interrupted_lives :
  bool_decide (lives (w_fleet demo_world2) = {[ "threatintel" := false ]})
  && bool_decide (lives (w_fleet (interrupted 10).1) = {[ "threatintel" := false ]}) = true.
Proof. vm_compute. reflexivity. Qed.

Lemma interrupted_replayed :
  let m := {[ "threatintel" := false ]} in
  bool_decide (replay m (interrupted 10).2 = None) && bool_decide (replay m (reverse (interrupted 10).2) = Some m) = true.
Proof. vm_compute. reflexivity. Qed.

(** Fact [rows_can_be_late]: a backend not yet listed, a Refresh that lists it and a Redial that lands
    before the Refresh ends: the trail reads down, then up, of a backend the gateway holds as not live,
    and the second row fits no state the reader is in; in the other order the two rows are in place. *)
Theorem rows_can_be_late :
  let m := {[ "threatintel" := false ]} in
  let '(w, rows) := interrupted 10 in
  map he_reason rows = ["backend down: redial"; "backend up: down since 2025-09-17T21:04:05Z"]
  /\ lives (w_fleet demo_world2) = m /\ lives (w_fleet w) = m
  /\ replay m rows = None /\ replay m (reverse rows) = Some m.
Proof.
  pose proof interrupted_rows as H1. pose proof interrupted_lives as H2. pose proof interrupted_replayed as H3.
  apply andb_true_iff in H2 as [H2 H2'], H3 as [H3 H3']. apply bool_decide_eq_true in H1, H2, H2', H3, H3'.
  destruct (interrupted 10) as [w rows]. by split_and!.
Qed.
