(* ===== verification/ChildEnv.v ===== *)
(** * The environment of a child process ([internal/gateway/envpolicy.go], [internal/gateway/stdio/stdio.go])

    Which variable names an entry may set, the environment the stdio adapter builds for the process it
    spawns, what that process then reads, and [Dial] up to the handshake.  The gateway's own
    environment is a parameter ([ProcessEnv]), constant while it runs; so is the order in which Go
    ranges over a map ([MapRange]): the theorems hold for every order. *)
From Stdlib Require Import ZArith Lia Ascii.
From stdpp Require Import base strings list gmap.
From S2P Require Import Prelude.
From S2P Require Import GoStrings.
From S2P Require Import GoTime.
From S2P Require Import Registry.
From S2P Require Import Redact.
From S2P Require Import Prog.
From S2P Require Import GatewayTypes.
From S2P Require Import Routing.

(** [for name, value := range env]: every entry once, in some order. *)
Class MapRange := {
  map_range : gmap string string -> list (string * string);
  map_range_perm : forall m, map_range m ≡ₚ map_to_list m
}.

Definition NUL : ascii := zb 0.

(** [os.LookupEnv]: the names and values of a process's environment are [NAME=value] strings. *)
Class ProcessEnv := {
  LookupEnv : string -> option string;
  LookupEnv_text : forall n v, LookupEnv n = Some v ->
    contains_byte n "=" = false /\ contains_byte n NUL = false /\ contains_byte v NUL = false
}.

(** [strings.IndexAny] at a set of bytes below 0x80: the text before the first of them. *)
Fixpoint index_any (s : string) (chars : list ascii) : option string :=
  match s with
  | EmptyString => None
  | String a s' =>
      if bool_decide (a ∈ chars) then Some ""
      else match index_any s' chars with Some h => Some (String a h) | None => None end
  end.

Lemma index_any_None s chars : index_any s chars = None <-> forall c, c ∈ chars -> contains_byte s c = false.
Proof.
  induction s as [|a s IH]; simpl; [by split|]. case_bool_decide as Ha.
  - split; [done|]. intros H. specialize (H a Ha). by rewrite bool_decide_true in H.
  - destruct (index_any s chars) as [h|].
    + split; [done|]. intros H. assert (Hn : @None string = None) by done.
      enough (Some h = None) by done. apply IH. intros c Hc. specialize (H c Hc). by apply orb_false_iff in H as [_ ?].
    + split; [|done]. intros _ c Hc. rewrite (proj1 IH) by done.
      rewrite orb_false_r. apply bool_decide_false. by intros ->.
Qed.

(** ** The policy on names *)

Definition codeLoadingEnvNames : list string := [
  "GCONV_PATH";
  "NODE_OPTIONS"; "NODE_PATH";
  "PYTHONPATH"; "PYTHONHOME"; "PYTHONSTARTUP"; "PYTHONUSERBASE"; "PYTHONBREAKPOINT"; "PYTHONWARNINGS";
  "PERL5LIB"; "PERL5OPT"; "PERLLIB"; "PERL5DB";
  "RUBYOPT"; "RUBYLIB";
  "BASH_ENV"; "ENV";
  "JAVA_TOOL_OPTIONS"; "_JAVA_OPTIONS"; "JDK_JAVA_OPTIONS"; "CLASSPATH";
  "PATH"; "HOME"].

Definition codeLoadingEnvPrefixes : list string := ["LD_"; "DYLD_"; "BASH_FUNC_"].

Definition IsCodeLoadingEnvName (name : string) : bool :=
  if bool_decide (name ∈ codeLoadingEnvNames) then true else existsb (has_prefix name) codeLoadingEnvPrefixes.

(** ** One entry, and the child's environment *)

(** [head]: what the error quotes of the name. *)
Inductive env_error :=
| EnvNameEmpty
| EnvNameByte (head : string)
| EnvValueNUL (name : string)
| EnvCodeLoading (name : string).

#[global] Instance env_error_eq_dec : EqDecision env_error.
Proof. solve_decision. Defined.

Definition validateEnvEntry (name value : string) : option env_error :=
  if bool_decide (name = "") then Some EnvNameEmpty
  else match index_any name ["="%char; NUL] with
  | Some head => Some (EnvNameByte head)
  | None =>
      if contains_byte value NUL then Some (EnvValueNUL name)
      else if IsCodeLoadingEnvName name then Some (EnvCodeLoading name)
      else None
  end.

Fixpoint ValidateEnvVarNames (names : list string) : option env_error :=
  match names with
  | [] => None
  | name :: rest =>
      match validateEnvEntry name "" with Some e => Some e | None => ValidateEnvVarNames rest end
  end.

Definition defaultInheritedEnv : list string := ["PATH"; "HOME"].

(** [name + "=" + value]. *)
Definition env_entry (name value : string) : string := name +:+ "=" +:+ value.

(** What [os/exec] makes of [Cmd.Env] (the last entry of a name stands) and a process then reads. *)
Fixpoint getenv (environ : list string) (name : string) : option string :=
  match environ with
  | [] => None
  | kv :: rest =>
      match getenv rest name with
      | Some v => Some v
      | None => cut_prefix kv (name +:+ "=")
      end
  end.

Section child.
Context `{ProcessEnv, MapRange}.

(** The loop over an allowlist: the variables of the gateway's own environment that it names. *)
Definition inherited_entries (allowlist : list string) : list string :=
  omap (fun name => match LookupEnv name with Some value => Some (env_entry name value) | None => None end) allowlist.

Fixpoint child_entries (entries : list (string * string)) (out : list string) : result env_error (list string) :=
  match entries with
  | [] => Ok out
  | (name, value) :: rest =>
      match validateEnvEntry name value with
      | Some e => Err e
      | None => child_entries rest (out ++ [env_entry name value])
      end
  end.

Definition childEnv (inherited : list string) (env : gmap string string) : result env_error (list string) :=
  child_entries (map_range env) (inherited_entries inherited).

(** *** What the child reads *)

Lemma contains_byte_app s1 s2 c : contains_byte (s1 +:+ s2) c = contains_byte s1 c || contains_byte s2 c.
Proof. induction s1 as [|a s1 IH]; [done|]. rewrite string_app_cons. simpl. by rewrite IH, orb_assoc. Qed.

Lemma eq_sign_split a b x y :
  contains_byte a "=" = false -> contains_byte b "=" = false -> a +:+ String "=" x = b +:+ String "=" y -> a = b /\ x = y.
Proof.
  revert b. induction a as [|c a IH]; intros [|d b]; rewrite ?string_app_cons, ?string_app_nil_l; simpl.
  - intros _ _ [= ->]. done.
  - intros _ Hb [= <- _]. done.
  - intros Ha _ [= -> _]. done.
  - intros [_ Ha]%orb_false_iff [_ Hb]%orb_false_iff [= -> Heq]. by destruct (IH b Ha Hb Heq) as [-> ->].
Qed.

Lemma env_entry_read n v name : contains_byte n "=" = false -> contains_byte name "=" = false ->
  cut_prefix (env_entry n v) (name +:+ "=") = if bool_decide (n = name) then Some v else None.
Proof.
  intros Hn Hname. unfold env_entry. case_bool_decide as Heq.
  - subst. apply cut_prefix_spec. by rewrite string_app_assoc.
  - destruct (cut_prefix _ _) as [rest|] eqn:Hc; [|done]. apply cut_prefix_spec in Hc.
    rewrite <- string_app_assoc in Hc. by apply eq_sign_split in Hc as [? _].
Qed.

Lemma getenv_app l1 l2 name :
  getenv (l1 ++ l2) name = match getenv l2 name with Some v => Some v | None => getenv l1 name end.
Proof. induction l1 as [|kv l1 IH]; simpl; [by destruct (getenv l2 name)|]. rewrite IH. by destruct (getenv l2 name). Qed.

Lemma getenv_inherited names name : contains_byte name "=" = false ->
  getenv (inherited_entries names) name = if bool_decide (name ∈ names) then LookupEnv name else None.
Proof.
  intros Hname. induction names as [|n names IH]; simpl; [done|].
  rewrite (bool_decide_ext (name ∈ n :: names) (n = name \/ name ∈ names))
    by (rewrite elem_of_cons; naive_solver).
  destruct (LookupEnv n) as [v|] eqn:Hv; simpl; rewrite IH.
  - rewrite env_entry_read by (done || by apply LookupEnv_text in Hv as [? _]).
    repeat case_bool_decide; destruct (LookupEnv name) eqn:?; naive_solver congruence.
  - repeat case_bool_decide; naive_solver congruence.
Qed.

Lemma child_entries_Ok entries out res :
  child_entries entries out = Ok res <->
  Forall (fun e => validateEnvEntry e.1 e.2 = None) entries /\ res = out ++ map (fun e => env_entry e.1 e.2) entries.
Proof.
  revert out. induction entries as [|[n v] entries IH]; intros out; simpl.
  - rewrite app_nil_r. split; [intros [= ->]; auto|intros [_ ->]; done].
  - destruct (validateEnvEntry n v) eqn:Hv.
    + split; [done|]. intros [Hf%Forall_cons _]. destruct Hf as [Hf _]. simpl in Hf. congruence.
    + rewrite IH, Forall_cons, <- app_assoc. simpl. naive_solver.
Qed.

Lemma validateEnvEntry_None name value :
  validateEnvEntry name value = None <->
  name <> "" /\ contains_byte name "=" = false /\ contains_byte name NUL = false /\ contains_byte value NUL = false
  /\ IsCodeLoadingEnvName name = false.
Proof.
  unfold validateEnvEntry. case_bool_decide as He; [naive_solver|].
  destruct (index_any name _) as [h|] eqn:Hi.
  - split; [done|]. intros (_ & He' & Hn & _). enough (index_any name ["="%char; NUL] = None) by congruence.
    apply index_any_None. intros c Hc. rewrite !elem_of_cons, elem_of_nil in Hc. naive_solver.
  - pose proof (proj1 (index_any_None _ _) Hi) as Hc.
    pose proof (Hc "="%char ltac:(left)) as He'. pose proof (Hc NUL ltac:(right; left)) as Hn.
    destruct (contains_byte value NUL), (IsCodeLoadingEnvName name); naive_solver.
Qed.

Lemma getenv_entries (entries : list (string * string)) name : contains_byte name "=" = false -> NoDup entries.*1 ->
  Forall (fun e => contains_byte e.1 "=" = false) entries ->
  getenv (map (fun e => env_entry e.1 e.2) entries) name = list_to_map (M := gmap string string) entries !! name.
Proof.
  intros Hname Hnd Hf. induction entries as [|[n v] entries IH]; [done|].
  apply Forall_cons in Hf as [Hn Hf]. apply NoDup_cons in Hnd as [Hnin Hnd]. simpl in *.
  rewrite IH, env_entry_read by done. case_bool_decide as He.
  - subst. rewrite lookup_insert_eq. by rewrite (not_elem_of_list_to_map_1 entries name).
  - rewrite lookup_insert_ne by done. by destruct (list_to_map entries !! name).
Qed.

Definition env_entries_ok (env : gmap string string) : Prop :=
  forall name value, env !! name = Some value -> validateEnvEntry name value = None.

Lemma map_range_Forall (P : string -> string -> Prop) env :
  Forall (fun e => P e.1 e.2) (map_range env) <-> forall n v, env !! n = Some v -> P n v.
Proof.
  rewrite map_range_perm, Forall_forall. setoid_rewrite <- elem_of_map_to_list. split.
  - intros HP n v Hin. apply (HP (n, v)). done.
  - intros HP [n v] Hin. by apply HP.
Qed.

Lemma childEnv_Ok inherited env out :
  childEnv inherited env = Ok out <->
  env_entries_ok env /\ out = inherited_entries inherited ++ map (fun e => env_entry e.1 e.2) (map_range env).
Proof. unfold childEnv. by rewrite child_entries_Ok, (map_range_Forall (fun n v => validateEnvEntry n v = None)). Qed.

Lemma childEnv_reads inherited env out name : contains_byte name "=" = false -> childEnv inherited env = Ok out ->
  getenv out name = match env !! name with
                    | Some v => Some v
                    | None => if bool_decide (name ∈ inherited) then LookupEnv name else None
                    end.
Proof.
  intros Hname [Hok ->]%childEnv_Ok. rewrite getenv_app, getenv_inherited by done.
  assert (Hnd : NoDup (map_range env).*1) by (rewrite map_range_perm; apply NoDup_fst_map_to_list).
  rewrite getenv_entries; [|done..|].
  - replace (list_to_map (map_range env) !! name) with (env !! name); [done|].
    rewrite (list_to_map_proper _ (map_to_list env)); [|done|apply map_range_perm]. by rewrite list_to_map_to_list.
  - apply (map_range_Forall (fun n _ => contains_byte n "=" = false)). intros n v Hn.
    by apply Hok, validateEnvEntry_None in Hn as (_ & ? & _).
Qed.
End child.

(** ** [Dial] up to the handshake *)

(** What the MCP client's [Connect] answers: a session, or an error with its text, what [errors.Is]
    finds in it, and whether a connection, so a process, had been opened. *)
Inductive connect_answer :=
| Connected (session : handle)
| ConnectFailed (text : string) (sents : foreign) (opened : bool).

Inductive spawn_effect :=
| SConnect (command : string) (args : list string) (environ : list string)
| SCloseConn.

Definition spawn_answer (e : spawn_effect) : Type :=
  match e with SConnect _ _ _ => connect_answer | SCloseConn => foreign end.

#[export] Instance spawn_effects : Effects :=
  {| eff := spawn_effect; ans := spawn_answer; may_panic := fun _ => true |}.

(** [whole]: the cause is still reachable through [Unwrap]. *)
Record dial_cause := { cause_text : string; cause_is : foreign; cause_whole : bool }.

Inductive stdio_error :=
| StdioTransport (name transport : string)
| StdioNoCommand (name : string)
| StdioEnv (name : string) (e : env_error)
| StdioConnect (name command : string) (cause : dial_cause).

Section dial.
Context `{PE : ProcessEnv, MR : MapRange, PT : PrintTable}.

Definition scrubDialError (text : string) (sents : foreign) (env : gmap string string) : dial_cause :=
  let '(msg, masked) := MaskCredentials text (map_range env) in
  if masked then {| cause_text := msg; cause_is := sents; cause_whole := false |}
  else {| cause_text := text; cause_is := sents; cause_whole := true |}.

Definition stdio_Dial (inherited : list string) (spec : UpstreamSpec) (env : gmap string string)
  : prog (result stdio_error handle) :=
  if negb (bool_decide (SpTransport spec = TransportStdio)) then
    Ret (Err (StdioTransport (SpName spec) (SpTransport spec)))
  else if bool_decide (SpCommand spec = "") then Ret (Err (StdioNoCommand (SpName spec)))
  else match childEnv inherited env with
  | Err e => Ret (Err (StdioEnv (SpName spec) e))
  | Ok environ =>
      r <- trigger (E := spawn_effects) (SConnect (SpCommand spec) (SpArgs spec) environ);;
      match r with
      | Connected session => Ret (Ok session)
      | ConnectFailed text sents opened =>
          (if opened : bool then bind (trigger (E := spawn_effects) SCloseConn) (fun _ => Ret tt) else Ret tt);;;
          Ret (Err (StdioConnect (SpName spec) (SpCommand spec) (scrubDialError text sents env)))
      end
  end.

(** The values an entry's variables have, in every form they are masked in. *)
Definition masked_values (env : gmap string string) : list (list string) :=
  map (fun e => renderingsOf e.2) (map_range env).

Lemma scrubDialError_hides text sents env :
  hides (masked_values env) text (cause_text (scrubDialError text sents env))
  /\ cause_is (scrubDialError text sents env) = sents
  /\ (cause_whole (scrubDialError text sents env) = true ->
      forall forms, forms ∈ masked_values env -> ~ occurs_one text forms).
Proof.
  unfold scrubDialError, MaskCredentials, masked_values.
  destruct (maskSpans _ _) as [out hits] eqn:H. apply maskSpans_hides in H as [Hh Hf].
  apply hits_existsb in Hf. destruct (existsb id hits) eqn:Hx; cbn; [done|].
  assert (Hno : forall forms, forms ∈ map (fun e => renderingsOf e.2) (map_range env) -> ~ occurs_one text forms).
  { intros forms Hin Ho. enough (false = true) by done. apply Hf. eauto. }
  split_and!; [|done|by intros _]. by rewrite <- (hides_untouched _ _ _ Hh Hno) at 2.
Qed.

(** What the spawned process reads of its environment: each of the entry's variables has the vault's
    value, each allowlisted name the gateway's own, and no other name is set. *)
Definition reads_entry (inherited : list string) (env : gmap string string) (environ : list string) : Prop :=
  forall name, contains_byte name "=" = false ->
    getenv environ name = match env !! name with
                          | Some v => Some v
                          | None => if bool_decide (name ∈ inherited) then LookupEnv name else None
                          end.

(** Fact [stdio_dial_exact]: what a local dial does.  It starts at most one process, with the entry's
    command and arguments and an environment that reads as the entry says ([reads_entry]); no other
    error than the handshake's comes after a process was started; when the handshake fails after a
    connection was opened, that connection is closed before the error is returned; and the error's
    text shows no value of the entry, while [errors.Is] still finds what the cause wrapped. *)
Theorem stdio_dial_exact inherited spec env tr out : runs (stdio_Dial inherited spec env) tr out ->
  match out with
  | Done (Ok session) => exists environ, reads_entry inherited env environ
      /\ tr = [Ev (SConnect (SpCommand spec) (SpArgs spec) environ) (Val (Connected session))]
  | Done (Err (StdioConnect _ _ cause)) => exists environ text sents (opened : bool) closing,
      reads_entry inherited env environ
      /\ tr = Ev (SConnect (SpCommand spec) (SpArgs spec) environ) (Val (ConnectFailed text sents opened)) :: closing
      /\ (if opened then exists answer, closing = [Ev SCloseConn (Val answer)] else closing = [])
      /\ hides (masked_values env) text (cause_text cause) /\ cause_is cause = sents
  | Done (Err _) => tr = []
  | Panicked _ => exists environ answer closing, reads_entry inherited env environ
      /\ tr = Ev (SConnect (SpCommand spec) (SpArgs spec) environ) answer :: closing
  end.
Proof.
  revert tr out. apply wpa_runs. unfold stdio_Dial.
  destruct (negb _); [by apply wpa_ret|]. case_bool_decide; [by apply wpa_ret|].
  destruct (childEnv inherited env) as [environ|e] eqn:Hc; [|by apply wpa_ret].
  assert (Hr : reads_entry inherited env environ) by (intros name Hn; by apply childEnv_reads).
  apply wpa_step; [|intros _; by exists environ, Blew, []]. intros [session|text sents opened].
  - apply wpa_ret. by exists environ.
  - destruct (scrubDialError_hides text sents env) as (Hh & Hi & _). apply wpa_bind. destruct opened.
    + apply wpa_step; [|intros _; by eexists environ, _, _]. intros answer. apply wpa_ret, wpa_ret.
      eexists environ, text, sents, true, _. split_and!; [done|done|by exists answer|done|done].
    + apply wpa_ret, wpa_ret. by eexists environ, text, sents, false, [].
Qed.
End dial.
