(* ===== verification/OciPlan.v ===== *)
(** * What a container is started with ([internal/gateway/oci/invocation.go])

    The whole assembly of a container's command line: the limits and their validation, the image, the
    network policy read out of an entry's arguments, the variables' names, the container's name, and
    [buildPlan] over them, each rule in the code's order and with its own error. *)
From Stdlib Require Import ZArith Lia Ascii SpecFloat.
From stdpp Require Import base strings list gmap.
From S2P Require Import Prelude.
From S2P Require Import GoStrings.
From S2P Require Import GoTime.
From S2P Require Import Encode.
From S2P Require Import Registry.
From S2P Require Import Routing.
From S2P Require Import ChildEnv.

Definition defaultPodman : string := "podman".
Definition networkNone : string := "none".
Definition containerNamePrefix : string := "mcp-gw".

Definition mandatoryWrapper : list string := [
  "--rm"; "-i"; "--log-driver=none"; "--pull=never"; "--read-only"; "--read-only-tmpfs=false"; "--tmpfs=/tmp";
  "--cap-drop=all"; "--security-opt=no-new-privileges"].

(** ** Errors, with what each quotes *)

Inductive limits_fault := LUser | LUserRange | LPids | LMemory | LCPUs.

#[global] Instance limits_fault_eq_dec : EqDecision limits_fault.
Proof. solve_decision. Defined.

Inductive plan_error :=
| ErrInvalidContainerName (name : string)
| ErrNoImage
| ErrUnpinnedImage (image : string)
| ErrInvalidLimits (fault : limits_fault)
| ErrUnsupportedWrapperFlag (flag : string)
| ErrAmbiguousNetwork
| ErrInvalidNetwork (head : string)
| ErrNetworkNotAllowed (head : string)
| ErrInvalidEnvName (head : string)
| ErrRuntimeDirectingEnvName (name : string).

#[global] Instance plan_error_eq_dec : EqDecision plan_error.
Proof. solve_decision. Defined.

(** ** Limits *)

(** A Go [float64]; its shortest decimal text is [strconv]'s. *)
Abbreviation float64 := spec_float (only parsing).
Class FloatText := { FormatFloat : float64 -> string }.

Record Limits := { User : string; PidsLimit : Z; Memory : string; CPUs : float64 }.

Definition float_one : float64 := S754_finite false 4503599627370496 (-52).

Definition DefaultLimits : Limits :=
  {| User := "65534:65534"; PidsLimit := 256; Memory := "512m"; CPUs := float_one |}.

Definition withDefaults (l : Limits) : Limits :=
  let d := DefaultLimits in
  {| User := if bool_decide (User l = "") then User d else User l;
     PidsLimit := if PidsLimit l =? 0 then PidsLimit d else PidsLimit l;
     Memory := if bool_decide (Memory l = "") then Memory d else Memory l;
     CPUs := if SFeqb (CPUs l) (S754_zero false) then CPUs d else CPUs l |}.

(** [[1-9][0-9]{0,n}]. *)
Definition counting_text (n : nat) (s : string) : bool :=
  match s with
  | EmptyString => false
  | String a s' => in_range 49 57 (bz a) && str_forallb is_digit s' && (String.length s' <=? n)%nat
  end.

(** [^([1-9][0-9]{0,9}):([1-9][0-9]{0,9})$]: the two groups. *)
Definition numericUser (s : string) : option (string * string) :=
  match cut s ":" with
  | Some (u, g) => if counting_text 9 u && counting_text 9 g then Some (u, g) else None
  | None => None
  end.

Definition size_unit (a : ascii) : bool := bool_decide (a ∈ ["b"%char; "k"%char; "m"%char; "g"%char]).

(** [^([1-9][0-9]{0,12})([bkmg])$]. *)
Definition podmanSize (s : string) : option (string * ascii) :=
  match span_digits s with
  | (d, String u EmptyString) => if counting_text 12 d && size_unit u then Some (d, u) else None
  | _ => None
  end.

Definition max_uint64 : Z := 2 ^ 64 - 1.

(** [strconv.ParseUint(s, 10, 64)] of decimal digits: an error when out of range. *)
Definition ParseUint (s : string) : option Z := if uint 0 s <=? max_uint64 then Some (uint 0 s) else None.

Definition maxID : Z := Z.shiftl 1 32 - 2.
Definition minMemory : Z := Z.shiftl 6 20.
Definition maxPids : Z := Z.shiftl 1 22.

(** The float64 nearest to 0.01. *)
Definition minCPUs : float64 := S754_finite false 5764607523034235 (-59).

Definition unit_shift (u : ascii) : Z :=
  if bool_decide (u = "k"%char) then 10 else if bool_decide (u = "m"%char) then 20
  else if bool_decide (u = "g"%char) then 30 else 0.

Definition memoryBytes (size : string) : option Z :=
  match podmanSize size with
  | None => None
  | Some (d, u) =>
      match ParseUint d with
      | None => None
      | Some n => if Z.shiftr max_uint64 (unit_shift u) <? n then None else Some (Z.shiftl n (unit_shift u))
      end
  end.

Definition id_in_range (id : string) : bool :=
  match ParseUint id with Some n => n <=? maxID | None => false end.

Definition not_a_number (x : float64) : bool := match x with S754_nan => true | _ => false end.
Definition infinite (x : float64) : bool := match x with S754_infinity _ => true | _ => false end.

Definition ValidateLimits (l : Limits) : option limits_fault :=
  match numericUser (User l) with
  | None => Some LUser
  | Some (u, g) =>
      if negb (id_in_range u) || negb (id_in_range g) then Some LUserRange
      else if (PidsLimit l <=? 0) || (maxPids <? PidsLimit l) then Some LPids
      else if match memoryBytes (Memory l) with Some n => n <? minMemory | None => true end then Some LMemory
      else if not_a_number (CPUs l) || infinite (CPUs l) || SFltb (CPUs l) minCPUs then Some LCPUs
      else None
  end.

Definition limitArgs `{FloatText} (l : Limits) : list string := [
  "--user=" +:+ User l;
  "--pids-limit=" +:+ dec (PidsLimit l);
  "--memory=" +:+ Memory l;
  "--cpus=" +:+ FormatFloat (CPUs l)].

(** ** The image *)

Definition validateImage (image : string) : option plan_error :=
  if blank image then Some ErrNoImage
  else if negb (digestPinned image) then Some (ErrUnpinnedImage image)
  else None.

(** ** The network policy *)

(** [^[a-z0-9][a-z0-9_.-]{0,62}$]. *)
Definition network_char (a : ascii) : bool := is_lower a || is_digit a.
Definition networkName (s : string) : bool :=
  match s with
  | EmptyString => false
  | String a s' =>
      network_char a && (String.length s' <=? 62)%nat
      && str_forallb (fun b => network_char b || bool_decide (b ∈ ["_"%char; "."%char; "-"%char])) s'
  end.

Definition refusedNetworkModes : list string := ["host"; "private"].

Definition networkHead (network : string) : string :=
  match index_any network [":"%char; "/"%char; "="%char] with Some head => head | None => network end.

Definition allowedNetwork (network : string) : option plan_error :=
  if bool_decide (network ∈ refusedNetworkModes) || negb (networkName network)
  then Some (ErrNetworkNotAllowed (networkHead network)) else None.

Definition networkValue (arg : string) : option string :=
  match cut_prefix arg "--network=" with
  | Some value => Some value
  | None => cut_prefix arg "--net="
  end.

Definition flagOf (arg : string) : string := match cut arg "=" with Some (name, _) => name | None => arg end.

(** The loop over the arguments: the policy declared, if one is. *)
Fixpoint wrapper_args (args : list string) (declared : option string) : result plan_error (option string) :=
  match args with
  | [] => Ok declared
  | arg :: rest =>
      if bool_decide (arg ∈ mandatoryWrapper) then wrapper_args rest declared
      else match networkValue arg with
      | None => Err (ErrUnsupportedWrapperFlag (flagOf arg))
      | Some value =>
          match declared with
          | Some _ => Err ErrAmbiguousNetwork
          | None => wrapper_args rest (Some value)
          end
      end
  end.

Definition option_token_end : list ascii := [" "%char; zb 9; zb 13; zb 10; NUL].

Definition wrapperNetwork (args : list string) : result plan_error string :=
  declared <-? wrapper_args args None;;
  let network := default "" declared in
  if blank network then Ok networkNone
  else match index_any network option_token_end with
  | Some head => Err (ErrInvalidNetwork head)
  | None =>
      if has_prefix network "-" then Err (ErrInvalidNetwork (networkHead network))
      else match allowedNetwork network with Some e => Err e | None => Ok network end
  end.

Definition ValidateWrapperArgs (args : list string) : option plan_error :=
  match wrapperNetwork args with Ok _ => None | Err e => Some e end.

Definition ResolveNetwork (args : list string) : result plan_error string := wrapperNetwork args.

(** ** The variables' names *)

Definition runtimeDirectingEnvNames : list string := ["HOME"; "PATH"; "TMPDIR"; "TMP"; "TEMP"].
Definition runtimeDirectingEnvPrefixes : list string :=
  ["XDG_"; "CONTAINERS_"; "_CONTAINERS_"; "CONTAINER_"; "PODMAN_"; "STORAGE_"].

Definition hasNameOrPrefix (name : string) (names prefixes : list string) : bool :=
  if bool_decide (name ∈ names) then true else existsb (has_prefix name) prefixes.

Definition isRuntimeDirecting (name : string) : bool :=
  hasNameOrPrefix name runtimeDirectingEnvNames runtimeDirectingEnvPrefixes.

Definition name_token_end : list ascii := ["="%char; " "%char; zb 9; zb 13; zb 10; NUL].

Definition validateEnvName (name : string) : option plan_error :=
  if bool_decide (name = "") then Some (ErrInvalidEnvName "")
  else match index_any name name_token_end with
  | Some head => Some (ErrInvalidEnvName head)
  | None =>
      if has_prefix name "-" then Some (ErrInvalidEnvName name)
      else if contains_byte name "*" then Some (ErrInvalidEnvName name)
      else if IsCodeLoadingEnvName name then Some (ErrRuntimeDirectingEnvName name)
      else if isRuntimeDirecting name then Some (ErrRuntimeDirectingEnvName name)
      else None
  end.

Fixpoint oci_ValidateEnvVarNames (names : list string) : option plan_error :=
  match names with
  | [] => None
  | name :: rest => match validateEnvName name with Some e => Some e | None => oci_ValidateEnvVarNames rest end
  end.

Fixpoint collect_names (visited : list string) (names : list string) : result plan_error (list string) :=
  match visited with
  | [] => Ok names
  | name :: rest => match validateEnvName name with Some e => Err e | None => collect_names rest (names ++ [name]) end
  end.

Definition envNames `{MapRange} (env : gmap string string) : result plan_error (list string) :=
  names <-? collect_names (map fst (map_range env)) [];; Ok (sort_strings names).

(** ** The container's name *)

(** [^[A-Za-z0-9][A-Za-z0-9_.-]*$]. *)
Definition container_char (a : ascii) : bool := is_alnum a || bool_decide (a ∈ ["_"%char; "."%char; "-"%char]).
Definition safeContainerName (s : string) : bool :=
  match s with EmptyString => false | String a s' => is_alnum a && str_forallb container_char s' end.

Definition kept_rune (r : Z) : bool :=
  in_range 97 122 r || in_range 65 90 r || in_range 48 57 r || (r =? 95) || (r =? 46) || (r =? 45).

Definition sanitizeNameComponent (name : string) : string :=
  let b := foldl (fun b c => b +:+ (if kept_rune (fst c) then String (zb (fst c)) "" else "-")) "" (runes name) in
  let out := if (40 <? String.length b)%nat then str_take 40 b else b in
  if bool_decide (out = "") then "upstream" else out.

(** [random]: the eight bytes of [crypto/rand], as one number. *)
Definition newContainerName (upstream : string) (random : Z) : string :=
  containerNamePrefix +:+ "-" +:+ sanitizeNameComponent upstream +:+ "-" +:+ hex_encode (be64 random).

(** ** The plan *)

Record plan := { Path : string; PArgs : list string; ContainerName : string; Network : string }.
Record planOptions := { Podman : string; OName : string; OLimits : Limits }.

Section build.
Context `{FT : FloatText, MR : MapRange}.

Definition buildPlan (spec : UpstreamSpec) (env : gmap string string) (opts : planOptions) : result plan_error plan :=
  let podman := if bool_decide (Podman opts = "") then defaultPodman else Podman opts in
  if negb (safeContainerName (OName opts)) then Err (ErrInvalidContainerName (OName opts))
  else match validateImage (SpImage spec) with
  | Some e => Err e
  | None =>
      match ValidateLimits (OLimits opts) with
      | Some fault => Err (ErrInvalidLimits fault)
      | None =>
          network <-? wrapperNetwork (SpArgs spec);;
          names <-? envNames env;;
          let args := ["run"] ++ mandatoryWrapper ++ limitArgs (OLimits opts) ++ ["--name"; OName opts]
                      ++ ["--network=" +:+ network] ++ flat_map (fun name => ["--env"; name]) names
                      ++ [SpImage spec] in
          Ok {| Path := podman; PArgs := args; ContainerName := OName opts; Network := network |}
      end
  end.
End build.

Definition sweepArgs (containerName : string) : list string :=
  ["rm"; "--force"; "--ignore"; "--time=0"; containerName].

(** Concrete runs. *)
Definition demo_limits : Limits := DefaultLimits.
Definition demo_digest : string := "@sha256:" +:+ String.string_of_list_ascii (repeat "a"%char 64).

Example memory_ex : memoryBytes "512m" = Some 536870912 /\ memoryBytes "17179869184g" = None
  /\ memoryBytes "17179869183g" = Some 18446744072635809792 /\ memoryBytes "0512m" = None.
Proof. vm_compute. done. Qed.

Example limits_ex : ValidateLimits DefaultLimits = None
  /\ ValidateLimits {| User := "0:1"; PidsLimit := 1; Memory := "6m"; CPUs := float_one |} = Some LUser
  /\ ValidateLimits {| User := "1:4294967295"; PidsLimit := 1; Memory := "6m"; CPUs := float_one |} = Some LUserRange.
Proof. vm_compute. done. Qed.

Example network_ex : wrapperNetwork ["--rm"; "--network=pasta"] = Ok "pasta" /\ wrapperNetwork [] = Ok "none"
  /\ wrapperNetwork ["--net=host"] = Err (ErrNetworkNotAllowed "host")
  /\ wrapperNetwork ["--network=container:db"] = Err (ErrNetworkNotAllowed "container")
  /\ wrapperNetwork ["--privileged"] = Err (ErrUnsupportedWrapperFlag "--privileged").
Proof. vm_compute. done. Qed.

Example name_ex : newContainerName "case/mgmt é" 255 = "mcp-gw-case-mgmt---00000000000000ff".
Proof. vm_compute. done. Qed.

(** ** Numbers in text *)

Definition denotes (s : string) (n : Z) : Prop :=
  str_forallb is_digit s = true /\ has_prefix s "0" = false /\ s <> "" /\ uint 0 s = n.

Lemma uint_bounds acc s : 0 <= acc -> str_forallb is_digit s = true ->
  acc * 10 ^ Z.of_nat (String.length s) <= uint acc s < (acc + 1) * 10 ^ Z.of_nat (String.length s).
Proof.
  revert acc. induction s as [|a s IH]; intros acc Hacc; cbn [uint str_forallb String.length]; [intros; lia|].
  intros [Ha Hs]%andb_true_iff. unfold is_digit, in_range in Ha. apply andb_true_iff in Ha as [H1%Z.leb_le H2%Z.leb_le].
  rewrite Nat2Z.inj_succ, Z.pow_succ_r by lia. specialize (IH (acc * 10 + (bz a - 48)) ltac:(lia) Hs). nia.
Qed.

Lemma counting_text_denotes k s :
  counting_text k s = true <-> exists n, denotes s n /\ 1 <= n < 10 ^ Z.of_nat (S k).
Proof.
  destruct s as [|a s]; [split; [done|intros (n & (_ & _ & ? & _) & _); done]|].
  assert (Hd : forall n, denotes (String a s) n <->
    in_range 48 57 (bz a) = true /\ str_forallb is_digit s = true /\ bz a <> 48 /\ uint (bz a - 48) s = n).
  { intros n. unfold denotes. cbn [str_forallb]. change (uint 0 (String a s)) with (uint (bz a - 48) s).
    assert (Hz : has_prefix (String a s) "0" = bool_decide (a = "0"%char)) by (cbn; by destruct s; rewrite andb_true_r).
    rewrite Hz, andb_true_iff, bool_decide_eq_false. change (is_digit a) with (in_range 48 57 (bz a)).
    assert (a = "0"%char <-> bz a = 48) as -> by (split; [by intros ->|intros Hc; by apply bz_inj]). naive_solver. }
  setoid_rewrite Hd. cbn [counting_text]. unfold in_range. rewrite !andb_true_iff, Nat.leb_le, !Z.leb_le. split.
  - intros [[[H1 H2] Hs] Hl]. pose proof (uint_bounds (bz a - 48) s ltac:(lia) Hs) as Hb.
    assert (10 ^ Z.of_nat (String.length s) <= 10 ^ Z.of_nat k) by (apply Z.pow_le_mono_r; lia).
    assert (0 < 10 ^ Z.of_nat (String.length s)) by (apply Z.pow_pos_nonneg; lia).
    exists (uint (bz a - 48) s). rewrite Nat2Z.inj_succ, Z.pow_succ_r, andb_true_iff, !Z.leb_le by lia.
    repeat split; (done || lia || nia).
  - intros (n & ([H1%Z.leb_le H2%Z.leb_le]%andb_true_iff & Hs & Hz & <-) & Hn).
    pose proof (uint_bounds (bz a - 48) s ltac:(lia) Hs) as Hb. repeat split; [lia..|done|].
    apply Nat2Z.inj_le, Znot_gt_le. intros Hgt.
    assert (10 ^ Z.of_nat (S k) <= 10 ^ Z.of_nat (String.length s)) by (apply Z.pow_le_mono_r; lia). nia.
Qed.

Lemma id_in_range_spec id n : denotes id n -> n < 10 ^ 10 -> id_in_range id = (n <=? maxID).
Proof.
  intros (_ & _ & _ & Hn) Hlt. unfold id_in_range, ParseUint. rewrite Hn.
  rewrite (proj2 (Z.leb_le n max_uint64)) by (unfold max_uint64; lia). done.
Qed.

Definition is_id (id : string) : Prop := exists n, denotes id n /\ 1 <= n <= maxID.

Definition runs_as (user : string) : Prop := exists u g, user = u +:+ ":" +:+ g /\ is_id u /\ is_id g.

(** A size in bytes: a count and a unit, with no overflow. *)
Definition size_in_bytes (size : string) (bytes : Z) : Prop :=
  exists d u n, size = d +:+ String u "" /\ denotes d n /\ 1 <= n < 10 ^ 13 /\ size_unit u = true
    /\ bytes = n * 2 ^ unit_shift u /\ bytes < 2 ^ 64.

Definition limits_ok (l : Limits) : Prop :=
  runs_as (User l)
  /\ 1 <= PidsLimit l <= maxPids
  /\ (exists bytes, size_in_bytes (Memory l) bytes /\ minMemory <= bytes)
  /\ exists m e, CPUs l = S754_finite false m e /\ SFltb (CPUs l) minCPUs = false.

Lemma is_id_text id : is_id id <-> counting_text 9 id = true /\ id_in_range id = true.
Proof.
  assert (Hm : maxID = 4294967294) by done. rewrite counting_text_denotes. unfold is_id. rewrite Hm. split.
  - intros (n & Hd & Hn). rewrite (id_in_range_spec _ n Hd), Hm, Z.leb_le by lia.
    split; [exists n; split; [done|lia]|lia].
  - intros [(n & Hd & Hn) Hr]. rewrite (id_in_range_spec _ n Hd), Hm, Z.leb_le in Hr by lia.
    exists n. split; [done|lia].
Qed.

Lemma digits_no_colon s : str_forallb is_digit s = true -> contains_byte s ":" = false.
Proof. intros H. by apply (str_forallb_contains is_digit). Qed.

Lemma counting_digits k s : counting_text k s = true -> str_forallb is_digit s = true.
Proof. intros (n & (? & _) & _)%counting_text_denotes. done. Qed.

Lemma runs_as_text user :
  runs_as user <-> exists u g, numericUser user = Some (u, g) /\ id_in_range u = true /\ id_in_range g = true.
Proof.
  unfold runs_as, numericUser. setoid_rewrite is_id_text. split.
  - intros (u & g & -> & [Hu Hur] & [Hg Hgr]). exists u, g.
    change (":" +:+ g) with (String ":" g). rewrite cut_no_byte by (by eapply digits_no_colon, counting_digits). by rewrite Hu, Hg.
  - intros (u & g & Hc & Hu & Hg). destruct (cut user ":") as [[u' g']|] eqn:Hcut; [|done].
    destruct (counting_text 9 u') eqn:Hu', (counting_text 9 g') eqn:Hg'; try done. injection Hc as -> ->.
    exists u, g. apply cut_app in Hcut. by rewrite Hu', Hg'.
Qed.

Lemma span_digits_whole d rest :
  str_forallb is_digit d = true -> (forall a r, rest = String a r -> is_digit a = false) ->
  span_digits (d +:+ rest) = (d, rest).
Proof.
  intros Hd Hr. induction d as [|a d IH]; rewrite ?string_app_nil_l, ?string_app_cons; cbn [span_digits].
  - destruct rest as [|a r]; [done|]. cbn [span_digits]. by rewrite (Hr a r).
  - cbn [str_forallb] in Hd. apply andb_true_iff in Hd as [-> Hd]. by rewrite IH.
Qed.

Lemma span_digits_app_eq s : let '(d, rest) := span_digits s in s = d +:+ rest.
Proof.
  induction s as [|a s IH]; [done|]. cbn [span_digits]. destruct (is_digit a); [|done].
  destruct (span_digits s) as [d rest]. rewrite string_app_cons. by rewrite <- IH.
Qed.

Lemma size_unit_cases u : size_unit u = true -> is_digit u = false /\ 0 <= unit_shift u <= 30.
Proof.
  unfold size_unit. rewrite bool_decide_eq_true, !elem_of_cons, elem_of_nil.
  intros [->|[->|[->|[->|[]]]]]; vm_compute; intuition congruence.
Qed.

Lemma podmanSize_spec size d u :
  podmanSize size = Some (d, u) <-> size = d +:+ String u "" /\ counting_text 12 d = true /\ size_unit u = true.
Proof.
  unfold podmanSize. split.
  - pose proof (span_digits_app_eq size) as Hs. destruct (span_digits size) as [d' rest]. subst size.
    destruct rest as [|u' [|? ?]]; [done| |done]. destruct (counting_text 12 d') eqn:Hc, (size_unit u') eqn:Hu; try done.
    by intros [= -> ->].
  - intros (-> & Hc & Hu). rewrite span_digits_whole, Hc, Hu; [done| |].
    + by eapply counting_digits.
    + intros a r [= <- <-]. by apply size_unit_cases.
Qed.

(** The size is read exactly: a count times its unit, and the shift never overflows. *)
Lemma memoryBytes_spec size bytes : memoryBytes size = Some bytes <-> size_in_bytes size bytes.
Proof.
  unfold memoryBytes, size_in_bytes. split.
  - destruct (podmanSize size) as [[d u]|] eqn:Hp; [|done]. apply podmanSize_spec in Hp as (-> & Hc & Hu).
    apply counting_text_denotes in Hc as (n & Hd & Hn). pose proof Hd as (_ & _ & _ & Hun).
    unfold ParseUint. rewrite Hun, (proj2 (Z.leb_le n max_uint64)) by (unfold max_uint64; lia).
    apply size_unit_cases in Hu as Hs. destruct Hs as [_ Hs].
    destruct (Z.ltb_spec (Z.shiftr max_uint64 (unit_shift u)) n) as [|Hle]; [done|]. intros [= <-].
    exists d, u, n. rewrite Z.shiftr_div_pow2 in Hle by lia. rewrite Z.shiftl_mul_pow2 by lia.
    assert (0 < 2 ^ unit_shift u) by (apply Z.pow_pos_nonneg; lia).
    change (10 ^ Z.of_nat 13) with (10 ^ 13) in Hn.
    assert (n * 2 ^ unit_shift u <= max_uint64).
    { etransitivity; [apply Z.mul_le_mono_nonneg_r; [lia|exact Hle]|]. rewrite Z.mul_comm. by apply Z.mul_div_le. }
    clear Hle. unfold max_uint64 in *. split_and!; (done || lia).
  - intros (d & u & n & -> & Hd & Hn & Hu & -> & Hb).
    rewrite (proj2 (podmanSize_spec _ d u)); [|split; [done|split; [|done]]; apply counting_text_denotes; by exists n].
    pose proof Hd as (_ & _ & _ & Hun). unfold ParseUint.
    rewrite Hun, (proj2 (Z.leb_le n max_uint64)) by (unfold max_uint64; lia).
    apply size_unit_cases in Hu as Hs. destruct Hs as [_ Hs].
    assert (0 < 2 ^ unit_shift u) by (apply Z.pow_pos_nonneg; lia).
    rewrite (proj2 (Z.ltb_ge _ n)); [by rewrite Z.shiftl_mul_pow2 by lia|].
    rewrite Z.shiftr_div_pow2 by lia. apply Z.div_le_lower_bound; [done|]. unfold max_uint64. lia.
Qed.

Lemma ValidateLimits_None l : ValidateLimits l = None <-> limits_ok l.
Proof.
  unfold ValidateLimits, limits_ok. rewrite runs_as_text. setoid_rewrite <- memoryBytes_spec.
  destruct (numericUser (User l)) as [[u g]|]; [|split; [done|intros ((u & g & ? & _) & _); done]].
  assert (Hm : match memoryBytes (Memory l) with Some n => n <? minMemory | None => true end = false <->
               exists bytes, memoryBytes (Memory l) = Some bytes /\ minMemory <= bytes).
  { destruct (memoryBytes (Memory l)) as [n|]; [rewrite Z.ltb_ge|]; naive_solver. }
  assert (Hcpu : not_a_number (CPUs l) || infinite (CPUs l) || SFltb (CPUs l) minCPUs = false <->
                 exists m e, CPUs l = S754_finite false m e /\ SFltb (CPUs l) minCPUs = false).
  { destruct (CPUs l) as [[]|[]| |[] m e]; cbn [not_a_number infinite orb]; split; try done; try naive_solver;
      try (intros H; exfalso; vm_compute in H; done). }
  assert (Hid : (exists u' g', Some (u, g) = Some (u', g') /\ id_in_range u' = true /\ id_in_range g' = true) <->
                negb (id_in_range u) || negb (id_in_range g) = false).
  { rewrite orb_false_iff, !negb_false_iff. naive_solver. }
  rewrite <- Hm, <- Hcpu, Hid. clear Hm Hcpu Hid. destruct (negb _ || negb _); [naive_solver|].
  destruct (Z.leb_spec (PidsLimit l) 0), (Z.ltb_spec maxPids (PidsLimit l)); cbn [orb]; try (split; [done|intros; lia]).
  destruct (match memoryBytes (Memory l) with Some _ => _ | None => _ end); [naive_solver|].
  destruct (_ || SFltb _ _); [naive_solver|]. split; [|done]. intros _. repeat split; (done || lia || eauto 6).
Qed.

(** ** The network policy *)

(** The policies an entry's arguments declare, the restated flags aside. *)
Definition declared_networks (args : list string) : list string :=
  omap networkValue (filter (fun arg => arg ∉ mandatoryWrapper) args).

Definition wrapper_args_ok (args : list string) : Prop :=
  Forall (fun arg => arg ∈ mandatoryWrapper \/ exists value, networkValue arg = Some value) args.

(** The policy in force: what was declared, at most once, or none. *)
Definition network_policy (args : list string) (network : string) : Prop :=
  wrapper_args_ok args
  /\ exists declared, declared_networks args = option_list declared
     /\ (blank (default "" declared) = true /\ network = networkNone
         \/ declared = Some network /\ networkName network = true /\ network ∉ refusedNetworkModes).

Lemma option_list_inj {A} (a b : option A) : option_list a = option_list b -> a = b.
Proof. destruct a, b; simpl; congruence. Qed.

Lemma wrapper_args_Ok args d d' :
  wrapper_args args d = Ok d' <-> wrapper_args_ok args /\ option_list d ++ declared_networks args = option_list d'.
Proof.
  unfold wrapper_args_ok, declared_networks. revert d. induction args as [|arg args IH]; intros d; cbn [wrapper_args].
  { rewrite app_nil_r. split; [by intros [= ->]|]. by intros [_ ->%option_list_inj]. }
  rewrite Forall_cons. case_bool_decide as Hm.
  - rewrite filter_cons_False, IH by (intros H; by apply H). naive_solver.
  - rewrite filter_cons_True by done. cbn [omap list_omap]. destruct (networkValue arg) as [v|] eqn:Hv.
    + destruct d as [w|]; [split; [done|]; intros [_ H]; by destruct d'|]. rewrite IH. naive_solver.
    + naive_solver.
Qed.

Lemma networkName_bytes network a : networkName network = true -> contains_byte network a = true ->
  network_char a || bool_decide (a ∈ ["_"%char; "."%char; "-"%char]) = true.
Proof.
  intros Hn Hc. apply not_false_is_true. intros Hf. enough (contains_byte network a = false) by congruence.
  apply (str_forallb_contains (fun b => network_char b || bool_decide (b ∈ ["_"%char; "."%char; "-"%char]))); [|done].
  destruct network as [|b s]; [done|]. cbn in *. apply andb_true_iff in Hn as [[-> _]%andb_true_iff ->]. done.
Qed.

Lemma network_char_space a : network_char a = true -> space_byte a = false.
Proof.
  intros H. apply is_alnum_space. unfold network_char, is_alnum in *. apply orb_true_iff in H as [-> | ->];
    by rewrite ?orb_true_r.
Qed.

Lemma networkName_token network : networkName network = true ->
  blank network = false /\ index_any network option_token_end = None /\ has_prefix network "-" = false.
Proof.
  intros Hn. destruct network as [|a s]; [done|]. split_and!.
  - apply not_true_is_false. intros [Hs _]%blank_bytes%andb_true_iff. cbn in Hn.
    apply andb_true_iff in Hn as [[Ha _]%andb_true_iff _]. apply network_char_space in Ha. congruence.
  - apply index_any_None. intros c Hc. apply not_true_is_false. intros H%(networkName_bytes _ _ Hn).
    unfold option_token_end in Hc. rewrite !elem_of_cons, elem_of_nil in Hc. naive_solver.
  - cbn in *. apply andb_true_iff in Hn as [[Ha _]%andb_true_iff _]. destruct (bool_decide_reflect (a = "-"%char)); [|done].
    by subst.
Qed.

Lemma wrapperNetwork_Ok args network : wrapperNetwork args = Ok network <-> network_policy args network.
Proof.
  unfold wrapperNetwork, network_policy. split.
  - intros (d & Hd & H)%rbind_Ok_inv. apply wrapper_args_Ok in Hd as [Hok Hd]. split; [done|]. exists d. split; [done|].
    destruct (blank (default "" d)) eqn:Hb; [left; by injection H as <-|right].
    destruct (index_any _ _); [done|]. destruct (has_prefix _ "-"); [done|]. unfold allowedNetwork in H.
    case_bool_decide as Hr; [done|]. destruct (networkName (default "" d)) eqn:Hn; [|done]. injection H as <-.
    by destruct d.
  - intros (Hok & d & Hd & Hc). rewrite (proj2 (wrapper_args_Ok args None d)) by done. cbn [rbind].
    destruct Hc as [[-> ->]|(-> & Hn & Hr)]; [done|]. change (default "" (Some network)) with network.
    destruct (networkName_token _ Hn) as (-> & -> & ->). unfold allowedNetwork.
    by rewrite bool_decide_false, Hn.
Qed.

(** ** The names carried *)

Definition env_name_carried (name : string) : Prop :=
  name <> "" /\ (forall c, c ∈ name_token_end -> contains_byte name c = false) /\ has_prefix name "-" = false
  /\ contains_byte name "*" = false /\ IsCodeLoadingEnvName name = false /\ isRuntimeDirecting name = false.

Lemma validateEnvName_None name : validateEnvName name = None <-> env_name_carried name.
Proof.
  unfold validateEnvName, env_name_carried. rewrite <- index_any_None. case_bool_decide; [naive_solver|].
  destruct (index_any _ _), (has_prefix name "-"), (contains_byte name "*"), (IsCodeLoadingEnvName name),
    (isRuntimeDirecting name); naive_solver.
Qed.

Lemma collect_names_Ok visited acc names :
  collect_names visited acc = Ok names <-> Forall env_name_carried visited /\ names = acc ++ visited.
Proof.
  revert acc. induction visited as [|n visited IH]; intros acc; simpl.
  - rewrite app_nil_r. split; [intros [= ->]; auto|by intros [_ ->]].
  - pose proof (validateEnvName_None n) as Hn. rewrite Forall_cons. destruct (validateEnvName n); [naive_solver|].
    rewrite IH, <- app_assoc. simpl. naive_solver.
Qed.

Section plan.
Context `{FT : FloatText, MR : MapRange}.

Lemma envNames_Ok env names :
  envNames env = Ok names <-> (forall n, n ∈ dom env -> env_name_carried n) /\ names = sorted_keys env.
Proof.
  unfold envNames, sorted_keys.
  assert (Hp : map fst (map_range env) ≡ₚ map fst (map_to_list env)) by (by apply Permutation_map, map_range_perm).
  assert (Hf : Forall env_name_carried (map fst (map_range env)) <-> forall n, n ∈ dom env -> env_name_carried n).
  { rewrite Hp, Forall_forall. setoid_rewrite elem_of_dom. setoid_rewrite list_elem_of_fmap. split.
    - intros H n [v Hv]. apply H. exists (n, v). split; [done|by apply elem_of_map_to_list].
    - intros H n ([n' v] & -> & Hin%elem_of_map_to_list). apply H. by exists v. }
  rewrite <- Hf. split.
  - intros (l & [Hl ->]%collect_names_Ok & [= <-])%rbind_Ok_inv. split; [done|]. cbn [app]. by rewrite Hp.
  - intros [Hl ->]. rewrite (proj2 (collect_names_Ok _ [] _) (conj Hl eq_refl)). cbn [rbind app]. by rewrite Hp.
Qed.

(** ** The command line *)

(** The options the adapter writes itself. *)
Definition own_options (opts : planOptions) (network : string) : list string :=
  mandatoryWrapper ++ limitArgs (OLimits opts) ++ ["--name"; OName opts; "--network=" +:+ network].

Definition container_args (spec : UpstreamSpec) (names : list string) (opts : planOptions) (network : string) : list string :=
  "run" :: own_options opts network ++ flat_map (fun name => ["--env"; name]) names ++ [SpImage spec].

Record admissible (spec : UpstreamSpec) (env : gmap string string) (opts : planOptions) (network : string) : Prop := {
  adm_name : safeContainerName (OName opts) = true;
  adm_image : digestPinned (SpImage spec) = true;
  adm_limits : limits_ok (OLimits opts);
  adm_network : network_policy (SpArgs spec) network;
  adm_env : forall n, n ∈ dom env -> env_name_carried n
}.

Lemma validateImage_None image : validateImage image = None <-> digestPinned image = true.
Proof.
  unfold validateImage. pose proof (digestPinned_nonblank image). destruct (digestPinned image); simpl.
  - rewrite H by done. done.
  - by destruct (blank image).
Qed.

Lemma buildPlan_Ok spec env opts p :
  buildPlan spec env opts = Ok p <->
  exists network, admissible spec env opts network
    /\ p = {| Path := if bool_decide (Podman opts = "") then defaultPodman else Podman opts;
              PArgs := container_args spec (sorted_keys env) opts network;
              ContainerName := OName opts; Network := network |}.
Proof.
  assert (Ha : forall network, admissible spec env opts network <->
    safeContainerName (OName opts) = true /\ validateImage (SpImage spec) = None /\ ValidateLimits (OLimits opts) = None
    /\ wrapperNetwork (SpArgs spec) = Ok network /\ envNames env = Ok (sorted_keys env)).
  { intros network. rewrite validateImage_None, ValidateLimits_None, wrapperNetwork_Ok, envNames_Ok.
    split; [intros []; auto 10|]. by intros (? & ? & ? & ? & ? & _). }
  setoid_rewrite Ha. unfold buildPlan, container_args, own_options. split.
  - destruct (safeContainerName _); [|done]. destruct (validateImage _); [done|]. destruct (ValidateLimits _); [done|].
    cbn [negb]. intros (network & Hw & (names & Hn & H)%rbind_Ok_inv)%rbind_Ok_inv. injection H as <-.
    pose proof (proj1 (envNames_Ok _ _) Hn) as [_ ->]. exists network. split; [done|]. by rewrite <- !app_assoc.
  - intros (network & (-> & -> & -> & -> & ->) & ->). cbn [negb rbind]. by rewrite <- !app_assoc.
Qed.

(** *** What no entry can change *)

Definition is_option (token : string) : Prop := has_prefix token "-" = true.
#[local] Instance is_option_dec token : Decision (is_option token) := decide (has_prefix token "-" = true).

Lemma is_alnum_dash a : is_alnum a = true -> a <> "-"%char.
Proof. by intros H ->. Qed.

Lemma safeContainerName_option name : safeContainerName name = true -> ~ is_option name.
Proof.
  destruct name as [|a name]; [done|]. unfold is_option. cbn. intros [Ha%is_alnum_dash _]%andb_true_iff.
  by rewrite bool_decide_false.
Qed.

Lemma Forall_filter_id {A} (P : A -> Prop) `{forall x, Decision (P x)} l : Forall P l -> filter P l = l.
Proof. induction 1 as [|x l Hx _ IH]; [done|]. by rewrite filter_cons_True, IH. Qed.

Lemma own_options_filter opts network : safeContainerName (OName opts) = true ->
  filter is_option (own_options opts network)
  = mandatoryWrapper ++ limitArgs (OLimits opts) ++ ["--name"; "--network=" +:+ network].
Proof.
  intros Hs%safeContainerName_option. unfold own_options.
  rewrite !filter_app, (Forall_filter_id _ mandatoryWrapper), (Forall_filter_id _ (limitArgs _)) by (by repeat constructor).
  rewrite (filter_cons_True _ "--name"), filter_cons_False, filter_cons_True by done. done.
Qed.

Lemma env_options_filter names : Forall env_name_carried names ->
  filter is_option (flat_map (fun name => ["--env"; name]) names) = repeat "--env" (length names).
Proof.
  induction 1 as [|n names (_ & _ & Hd & _) _ IH]; [done|]. cbn [flat_map app length repeat].
  rewrite filter_cons_True by done. rewrite filter_cons_False by (unfold is_option; congruence). by rewrite IH.
Qed.

Lemma sorted_keys_spec (env : gmap string string) : (forall n, n ∈ sorted_keys env <-> n ∈ dom env) /\ StronglySorted str_le (sorted_keys env)
  /\ NoDup (sorted_keys env) /\ length (sorted_keys env) = size env.
Proof.
  split_and!.
  - intros n. by rewrite elem_of_sorted_keys, elem_of_dom.
  - apply sort_strings_sorted.
  - apply sort_strings_NoDup, NoDup_fst_map_to_list.
  - unfold sorted_keys. rewrite sort_strings_Permutation, length_map. by rewrite <- length_map_to_list.
Qed.

(** C39 [container_contract]: what a container is started with, whatever an entry says.  A plan is made
    exactly when the entry and the configuration are admissible: a name podman cannot read as an
    option, an image pinned to a digest, a numeric non-root user and group and a pids, memory and CPU
    ceiling in range, a network that is none or a plain network name and declared at most once, and
    variables that are neither code nor the runtime's own.  Its command line is then the adapter's: the
    options on it, before the image, are the mandatory wrapper, the limits, the name and the network,
    and one [--env] per variable of the entry, names only, sorted; nothing follows the image. *)
Theorem container_contract spec env opts p :
  (buildPlan spec env opts = Ok p <->
   exists network, admissible spec env opts network
     /\ p = {| Path := if bool_decide (Podman opts = "") then defaultPodman else Podman opts;
               PArgs := container_args spec (sorted_keys env) opts network;
               ContainerName := OName opts; Network := network |})
  /\ (buildPlan spec env opts = Ok p ->
      filter is_option (removelast (PArgs p))
      = mandatoryWrapper ++ limitArgs (OLimits opts) ++ ["--name"; "--network=" +:+ Network p] ++ repeat "--env" (size env)
      /\ last (PArgs p) = Some (SpImage spec)
      /\ (Network p = networkNone \/ networkName (Network p) = true /\ Network p ∉ refusedNetworkModes)
      /\ exists names, PArgs p = container_args spec names opts (Network p)
         /\ (forall n, n ∈ names <-> n ∈ dom env) /\ NoDup names /\ StronglySorted str_le names).
Proof.
  split; [apply buildPlan_Ok|]. intros (network & [Hname Himage Hlim Hnet Henv] & ->)%buildPlan_Ok. cbn [PArgs Network].
  destruct (sorted_keys_spec env) as (Hin & Hsort & Hnd & Hlen). unfold container_args. split_and!.
  - rewrite app_comm_cons, app_assoc, removelast_last. cbn [app]. rewrite filter_cons_False by done.
    rewrite filter_app, own_options_filter, env_options_filter, Hlen by (done || apply Forall_forall; naive_solver).
    by rewrite <- !app_assoc.
  - by rewrite app_comm_cons, app_assoc, last_snoc.
  - destruct Hnet as (_ & d & _ & [[_ ->]|(_ & ? & ?)]); auto.
  - by exists (sorted_keys env).
Qed.
End plan.

(** A minted name is always one podman takes as a name, and two draws never mint the same. *)
Lemma hex_encode_container s : str_forallb container_char (hex_encode s) = true.
Proof.
  assert (Hd : forall d, 0 <= d < 16 -> container_char (hex_digit false d) = true).
  { intros d Hd. assert (Hc : forallb (fun d => container_char (hex_digit false d)) (seqZ 0 16) = true) by (by vm_compute).
    rewrite forallb_forall in Hc. apply Hc, list_elem_of_In, elem_of_seqZ. lia. }
  induction s as [|a s IH]; [done|]. cbn [hex_encode str_forallb]. pose proof (bz_range a).
  rewrite IH, !Hd by lia. done.
Qed.

Lemma kept_rune_container r : kept_rune r = true -> container_char (zb r) = true.
Proof.
  unfold kept_rune, container_char, is_alnum, is_upper, is_lower, is_digit. intros H.
  assert (0 <= r < 256) by (unfold in_range in H; rewrite !orb_true_iff, !andb_true_iff, !Z.leb_le, !Z.eqb_eq in H; lia).
  rewrite bz_zb, Z.mod_small by lia. rewrite !orb_true_iff in H. destruct H as [[[[[H|H]|H]|H]|H]|H];
    ((by rewrite H, ?orb_true_r) || (apply Z.eqb_eq in H as ->; by vm_compute)).
Qed.

Lemma sanitize_foldl l b : str_forallb container_char b = true ->
  str_forallb container_char
    (foldl (fun b (c : Z * string) => b +:+ (if kept_rune (fst c) then String (zb (fst c)) "" else "-")) b l) = true.
Proof.
  revert b. induction l as [|c l IH]; intros b Hb; [done|]. cbn [foldl]. apply IH.
  rewrite Visible.str_forallb_app, Hb. destruct (kept_rune (fst c)) eqn:Hk; [|done].
  cbn [str_forallb]. by rewrite kept_rune_container.
Qed.

Lemma str_take_forallb f n s : str_forallb f s = true -> str_forallb f (str_take n s) = true.
Proof. revert s. induction n as [|n IH]; intros [|a s]; cbn; [done..|]. intros [-> Hs]%andb_true_iff. by apply IH. Qed.

Lemma sanitizeNameComponent_container name : str_forallb container_char (sanitizeNameComponent name) = true.
Proof.
  unfold sanitizeNameComponent. case_bool_decide; [done|]. destruct (40 <? _)%nat; [apply str_take_forallb|];
    by apply sanitize_foldl.
Qed.

Lemma newContainerName_safe upstream random : safeContainerName (newContainerName upstream random) = true.
Proof.
  unfold newContainerName, containerNamePrefix. cbn [String.append safeContainerName].
  rewrite !string_app_cons. cbn [safeContainerName]. rewrite !string_app_nil_l.
  assert (H : str_forallb container_char ("cp-gw" +:+ "-" +:+ sanitizeNameComponent upstream +:+ "-" +:+ hex_encode (be64 random)) = true).
  { by rewrite !Visible.str_forallb_app, sanitizeNameComponent_container, hex_encode_container. }
  exact H.
Qed.

Lemma newContainerName_unique u1 u2 r1 r2 : 0 <= r1 < 2 ^ 64 -> 0 <= r2 < 2 ^ 64 ->
  newContainerName u1 r1 = newContainerName u2 r2 -> r1 = r2.
Proof.
  intros H1 H2 Heq. apply be64_inj; [done|done|]. apply hex_encode_inj.
  unfold newContainerName in Heq. rewrite !string_app_assoc in Heq.
  assert (Hl : forall z, String.length (hex_encode (be64 z)) = 16%nat) by (intros z; by rewrite hex_encode_length, be64_length).
  pose proof (f_equal String.length Heq) as Hlen. rewrite !(string_length_app (_ +:+ "-")), !Hl in Hlen.
  eapply string_app_inj_length; [|exact Heq]. lia.
Qed.

(** A concrete entry. *)
Definition listed_order : MapRange := {| map_range := map_to_list; map_range_perm := fun m => Permutation_refl _ |}.
Definition demo_floats : FloatText := {| FormatFloat := fun x => if SFeqb x float_one then "1" else "0.01" |}.

Definition demo_spec : UpstreamSpec :=
  {| SpName := "cases"; SpTransport := TransportOCI; SpCommand := ""; SpArgs := ["--rm"; "--network=backends"]; SpURL := "";
     SpImage := "localhost/cases" +:+ demo_digest; SpAuthKind := ""; SpAuthName := ""; SpOperations := "" |}.

Definition demo_env : gmap string string := {["CASES_TOKEN" := "s3cret"; "CASES_URL" := "https://cases"]}.

Definition demo_opts : planOptions :=
  {| Podman := ""; OName := newContainerName "cases" 7; OLimits := DefaultLimits |}.

Definition demo_plan : plan :=
  {| Path := "podman";
     PArgs := ["run"; "--rm"; "-i"; "--log-driver=none"; "--pull=never"; "--read-only"; "--read-only-tmpfs=false"; "--tmpfs=/tmp";
       "--cap-drop=all"; "--security-opt=no-new-privileges"; "--user=65534:65534"; "--pids-limit=256"; "--memory=512m"; "--cpus=1";
       "--name"; "mcp-gw-cases-0000000000000007"; "--network=backends"; "--env"; "CASES_TOKEN"; "--env"; "CASES_URL";
       "localhost/cases" +:+ demo_digest];
     ContainerName := "mcp-gw-cases-0000000000000007"; Network := "backends" |}.

Lemma demo_planned : buildPlan (FT := demo_floats) (MR := listed_order) demo_spec demo_env demo_opts = Ok demo_plan.
Proof. vm_compute. reflexivity. Qed.

Lemma container_contract_witness :
  buildPlan (FT := demo_floats) (MR := listed_order) demo_spec demo_env demo_opts = Ok demo_plan
  /\ last (PArgs demo_plan) = Some (SpImage demo_spec).
Proof.
  split; [exact demo_planned|].
  exact (proj1 (proj2 (proj2 (@container_contract demo_floats listed_order demo_spec demo_env demo_opts demo_plan) demo_planned))).
Defined.

(** Fact [image_may_look_like_an_option]: the image rule admits a reference that begins with a dash.  It
    stands where podman still reads options: the only option on the line that is not the adapter's. *)
Theorem image_may_look_like_an_option :
  exists spec p, buildPlan (FT := demo_floats) (MR := listed_order) spec ∅ demo_opts = Ok p
    /\ last (PArgs p) = Some ("--privileged" +:+ demo_digest) /\ is_option ("--privileged" +:+ demo_digest).
Proof.
  exists {| SpName := "cases"; SpTransport := TransportOCI; SpCommand := ""; SpArgs := []; SpURL := "";
     SpImage := "--privileged" +:+ demo_digest; SpAuthKind := ""; SpAuthName := ""; SpOperations := "" |}.
  eexists. split; [vm_compute; reflexivity|]. by vm_compute.
Qed.
