(* ===== verification/OciDialer.v ===== *)
(** * Running a backend in a container ([internal/gateway/oci/oci.go])

    The dialer as programs over what it asks of the system: eight random bytes, the inner dialer's
    spawn and handshake, a podman command run to its end, the inner connection's close.  The theorems
    follow a container from the spawn that may create it to the removal that ends it, on every run. *)
From Stdlib Require Import ZArith Lia Ascii.
From stdpp Require Import base strings list gmap.
From S2P Require Import Prelude.
From S2P Require Import GoStrings.
From S2P Require Import GoTime.
From S2P Require Import Registry.
From S2P Require Import Prog.
From S2P Require Import GatewayTypes.
From S2P Require Import Routing.
From S2P Require Import ChildEnv.
From S2P Require Import OciPlan.

Definition innerTransport : string := "stdio".
Definition defaultCleanupGrace : Z := 10 * second.
Definition defaultProbeGrace : Z := 5 * second.
Definition defaultCleanupEnv : list string := ["PATH"; "HOME"].

(** ** The system *)

(** [cmd.Output()]'s error: the exit status when it has one, its text; and [ctx.Err() != nil]. *)
Record exec_error := { ee_code : option Z; ee_text : string }.
Record exec_answer := { ex_err : option exec_error; ex_late : bool }.

Inductive inner_answer := InnerFailed (e : foreign) | InnerConn (up : handle) | InnerNothing.

Inductive oci_effect :=
| ORand                                                               (* crypto/rand *)
| OInner (spec : UpstreamSpec) (env : gmap string string)             (* inner.Dial *)
| OExec (path : string) (args environ : list string) (ceiling : Z)    (* exec.CommandContext *)
| OCloseInner (up : handle).                                          (* u.Upstream.Close *)

Definition oci_answer (e : oci_effect) : Type :=
  match e with
  | ORand => option Z
  | OInner _ _ => inner_answer
  | OExec _ _ _ _ => exec_answer
  | OCloseInner _ => option foreign
  end.

(** The inner dialer and its connections are other code: they may panic. *)
#[export] Instance oci_effects : Effects :=
  {| eff := oci_effect; ans := oci_answer;
     may_panic := fun e => match e with OInner _ _ | OCloseInner _ => true | _ => false end |}.

Definition ask (e : oci_effect) : prog (oci_answer e) := trigger (E := oci_effects) e.

(** ** The dialer *)

Record Dialer := { podman : string; cleanupEnv : list string; cleanupGrace : Z; limits : Limits }.

Inductive Option :=
| WithPodmanPath (path : string)
| WithCleanupEnv (names : list string)
| WithLimits (l : Limits)
| WithCleanupGrace (grace : Z).

Definition apply_option (d : Dialer) (o : Option) : Dialer :=
  match o with
  | WithPodmanPath path =>
      {| podman := if bool_decide (path = "") then podman d else path; cleanupEnv := cleanupEnv d;
         cleanupGrace := cleanupGrace d; limits := limits d |}
  | WithCleanupEnv names =>
      {| podman := podman d; cleanupEnv := names; cleanupGrace := cleanupGrace d; limits := limits d |}
  | WithLimits l =>
      {| podman := podman d; cleanupEnv := cleanupEnv d; cleanupGrace := cleanupGrace d; limits := withDefaults l |}
  | WithCleanupGrace grace =>
      {| podman := podman d; cleanupEnv := cleanupEnv d; cleanupGrace := grace; limits := limits d |}
  end.

(** [None]: the panic of wiring it with no inner dialer. *)
Definition New (inner_wired : bool) (opts : list Option) : option Dialer :=
  if negb inner_wired then None
  else
    let d := foldl apply_option
      {| podman := defaultPodman; cleanupEnv := defaultCleanupEnv; cleanupGrace := defaultCleanupGrace;
         limits := DefaultLimits |} opts in
    Some (if cleanupGrace d <=? 0 then apply_option d (WithCleanupGrace defaultCleanupGrace) else d).

(** [ErrContainerNotReaped]: the container, the failure's text, whether the ceiling was reached. *)
Record unreaped := { ur_name : string; ur_text : string; ur_late : bool }.

Inductive presence := ImagePresent | ImageAbsent | PresenceUnknown (text : string) (late : bool).

Inductive oci_error :=
| ErrUnsupportedTransport (name transport : string)
| ErrNoContainerName (name : string)
| ErrPlan (name : string) (e : plan_error)
| ErrRun (name image network : string) (p : presence) (cause : foreign) (remains : option unreaped)
| ErrNoConnection (name : string) (remains : option unreaped).

(** The connection [Dial] returns: the inner one, and the container's name. *)
Record oci_upstream := { u_inner : handle; u_name : string; u_container : string }.

Section dialer.
Context `{FT : FloatText, PE : ProcessEnv, MR : MapRange}.

Definition cleanupEnvironment (d : Dialer) : list string := inherited_entries (cleanupEnv d).

Definition sweep (d : Dialer) (containerName : string) : prog (option unreaped) :=
  r <- ask (OExec (podman d) (sweepArgs containerName) (cleanupEnvironment d) (cleanupGrace d));;
  Ret (match ex_err r with
       | None => None
       | Some e => Some {| ur_name := containerName; ur_text := ee_text e; ur_late := ex_late r |}
       end).

Definition imagePresence (d : Dialer) (image : string) : prog presence :=
  r <- ask (OExec (podman d) ["image"; "exists"; image] (cleanupEnvironment d) defaultProbeGrace);;
  Ret (match ex_err r with
       | None => ImagePresent
       | Some e => if bool_decide (ee_code e = Some 1) then ImageAbsent else PresenceUnknown (ee_text e) (ex_late r)
       end).

Definition innerSpec (spec : UpstreamSpec) (p : plan) : UpstreamSpec :=
  {| SpName := SpName spec; SpTransport := innerTransport; SpCommand := Path p; SpArgs := PArgs p; SpURL := "";
     SpImage := ""; SpAuthKind := ""; SpAuthName := ""; SpOperations := "" |}.

Definition plan_options (d : Dialer) (spec : UpstreamSpec) (random : Z) : planOptions :=
  {| Podman := podman d; OName := newContainerName (SpName spec) random; OLimits := limits d |}.

Definition Dial (d : Dialer) (spec : UpstreamSpec) (env : gmap string string) : prog (result oci_error oci_upstream) :=
  if negb (bool_decide (SpTransport spec = TransportOCI)) then
    Ret (Err (ErrUnsupportedTransport (SpName spec) (SpTransport spec)))
  else
    random <- ask ORand;;
    match random with
    | None => Ret (Err (ErrNoContainerName (SpName spec)))
    | Some random =>
        match buildPlan spec env (plan_options d spec random) with
        | Err e => Ret (Err (ErrPlan (SpName spec) e))
        | Ok p =>
            inner <- ask (OInner (innerSpec spec p) env);;
            match inner with
            | InnerFailed cause =>
                remains <- sweep d (ContainerName p);;
                seen <- imagePresence d (SpImage spec);;
                Ret (Err (ErrRun (SpName spec) (SpImage spec) (Network p) seen cause remains))
            | InnerNothing =>
                remains <- sweep d (ContainerName p);;
                Ret (Err (ErrNoConnection (SpName spec) remains))
            | InnerConn up => Ret (Ok {| u_inner := up; u_name := SpName spec; u_container := ContainerName p |})
            end
        end
    end.

(** ** Close *)

(** What [closeErr] holds: the session's error, or the removal's joined to it. *)
Inductive close_error := SessionClose (e : foreign) | NotRemoved (session : option foreign) (remains : unreaped).

(** [closeOnce] and [closeErr]. *)
Record closing := { onceDone : bool; closeErr : option close_error }.
Definition unclosed : closing := {| onceDone := false; closeErr := None |}.

(** The function handed to [closeOnce.Do]. *)
Definition close_body (d : Dialer) (u : oci_upstream) : prog (option close_error) :=
  session <- ask (OCloseInner (u_inner u));;
  remains <- sweep d (u_container u);;
  Ret (match remains with
       | Some l => Some (NotRemoved session l)
       | None => match session with Some e => Some (SessionClose e) | None => None end
       end).

Definition Close (d : Dialer) (u : oci_upstream) (st : closing) : prog (option close_error) :=
  if onceDone st then Ret (closeErr st) else close_body d u.

(** [sync.Once] is done when its function has returned or panicked; [closeErr] is set only by a return. *)
Definition after_close (st : closing) (out : outcome (option close_error)) : closing :=
  if onceDone st then st
  else {| onceDone := true; closeErr := match out with Done e => e | Panicked _ => closeErr st end |}.

(** Any number of calls, from any number of goroutines: [sync.Once] lets one in at a time. *)
Inductive closes (d : Dialer) (u : oci_upstream) : closing -> list (list event * outcome (option close_error)) -> Prop :=
| closes_none st : closes d u st []
| closes_call st tr out rest :
    runs (Close d u st) tr out -> closes d u (after_close st out) rest -> closes d u st ((tr, out) :: rest).
End dialer.

(** ** Which containers may exist *)

(** The name a command line gives its container. *)
Fixpoint named (args : list string) : option string :=
  match args with
  | arg :: (name :: _) as rest => if bool_decide (arg = "--name") then Some name else named rest
  | _ => None
  end.

(** The container a command line removes. *)
Definition removes (args : list string) : option string :=
  match last args with
  | Some name => if bool_decide (args = sweepArgs name) then Some name else None
  | None => None
  end.

(** The ledger: a spawn, whatever it answered, may have remains its container; a removal that succeeded
    has taken it away. *)
Definition enter (alive : gset string) (ev : event) : gset string :=
  match ev_eff ev as e return reply (oci_answer e) -> gset string with
  | OInner spec _ => fun _ => match named (SpArgs spec) with Some name => {[name]} ∪ alive | None => alive end
  | OExec _ args _ _ => fun r =>
      match r, removes args with
      | Val a, Some name => match ex_err a with None => alive ∖ {[name]} | Some _ => alive end
      | _, _ => alive
      end
  | ORand | OCloseInner _ => fun _ => alive
  end (ev_ans ev).

Definition alive_after (tr : list event) : gset string := foldl enter (∅ : gset string) tr.

(** What a failed dial, or a close, says it could not remove. *)
Definition left_behind (e : oci_error) : option unreaped :=
  match e with ErrRun _ _ _ _ _ remains | ErrNoConnection _ remains => remains | _ => None end.

Definition not_removed (e : option close_error) : option unreaped :=
  match e with Some (NotRemoved _ remains) => Some remains | _ => None end.

Definition still_there (remains : option unreaped) : gset string :=
  match remains with Some l => {[ur_name l]} | None => ∅ end.

Lemma removes_sweep name : removes (sweepArgs name) = Some name.
Proof. unfold removes. cbn [last sweepArgs]. by rewrite bool_decide_true. Qed.

Lemma named_cons arg rest : arg <> "--name" -> named (arg :: rest) = named rest.
Proof. intros Hn. destruct rest as [|n rest]; [done|]. cbn [named]. by rewrite bool_decide_false. Qed.

Lemma named_skip pre rest : Forall (fun arg => arg <> "--name") pre -> named (pre ++ rest) = named rest.
Proof. induction 1 as [|arg pre Ha _ IH]; [done|]. cbn [app]. by rewrite named_cons. Qed.

Section theorems.
Context `{FT : FloatText, PE : ProcessEnv, MR : MapRange}.

Lemma named_container_args spec names opts network : named (container_args spec names opts network) = Some (OName opts).
Proof.
  unfold container_args, own_options. rewrite named_cons by done.
  rewrite <- !app_assoc, (named_skip mandatoryWrapper) by (by repeat constructor).
  rewrite (named_skip (limitArgs _)) by (by repeat constructor). cbn [app named]. by rewrite bool_decide_true.
Qed.

(** One question and the rest: the [wpa_step] of this signature. *)
Lemma wpa_ask {B} (acc : list event) (e : oci_effect) (f : oci_answer e -> prog B) Q :
  (forall x : oci_answer e, wpa (acc ++ [Ev (E := oci_effects) e (Val x)]) (f x) Q) ->
  (may_panic (Effects := oci_effects) e = true -> Q (acc ++ [Ev (E := oci_effects) e Blew]) (Panicked false)) ->
  wpa acc (bind (ask e) f) Q.
Proof. exact (wpa_step (E := oci_effects) acc e f Q). Qed.

(** What one removal leaves of a container, and says. *)
Lemma wpa_sweep d name (acc : list event) (Q : list event -> outcome (option unreaped) -> Prop) :
  (forall ev (remains : option unreaped), alive_after (acc ++ [ev]) = (if remains is Some _ then alive_after acc else alive_after acc ∖ {[name]}) ->
     (forall l, remains = Some l -> ur_name l = name) ->
     (forall env environ, ev_eff ev <> OInner env environ) -> Q (acc ++ [ev]) (Done remains)) ->
  wpa acc (sweep d name) Q.
Proof.
  intros HQ. unfold sweep. apply wpa_ask; [|done]. intros [err late]. apply wpa_ret. apply HQ.
  - unfold alive_after. rewrite foldl_app. cbn [foldl enter ev_eff ev_ans]. rewrite removes_sweep. cbn [ex_err].
    by destruct err.
  - destruct err; [|done]. by intros l [= <-].
  - done.
Qed.

Lemma alive_after_snoc acc ev : alive_after (acc ++ [ev]) = enter (alive_after acc) ev.
Proof. unfold alive_after. by rewrite foldl_app. Qed.

(** What the ledger says when a dial has ended. *)
Definition dial_ledger (tr : list event) (out : outcome (result oci_error oci_upstream)) : Prop :=
  match out with
  | Done (Ok u) => alive_after tr = {[u_container u]}
  | Done (Err e) => alive_after tr = still_there (left_behind e)
  | Panicked _ => exists spec env, last tr = Some (Ev (E := oci_effects) (OInner spec env) Blew)
  end.

Lemma Dial_ledger d spec env tr out : runs (Dial d spec env) tr out -> dial_ledger tr out.
Proof.
  revert tr out. apply wpa_runs. unfold Dial. destruct (negb _); [by apply wpa_ret|].
  apply wpa_ask; [|done]. intros [random|]; [|by apply wpa_ret].
  destruct (buildPlan _ _ _) as [p|e] eqn:Hp; [|by apply wpa_ret].
  apply buildPlan_Ok in Hp as (network & Hadm & ->). cbn [ContainerName Network].
  set (spec' := innerSpec _ _). set (name := OName _).
  assert (Ha : forall acc r, alive_after acc = ∅ ->
            alive_after (acc ++ [Ev (E := oci_effects) (OInner spec' env) r]) = {[name]}).
  { intros acc r Hacc. rewrite alive_after_snoc, Hacc. unfold enter. cbn [ev_eff ev_ans].
    unfold spec', innerSpec. cbn [SpArgs PArgs]. rewrite named_container_args. set_solver. }
  assert (Hsw : forall remains : option unreaped, (forall l, remains = Some l -> ur_name l = name) ->
            (if remains is Some _ then {[name]} else {[name]} ∖ {[name]} : gset string) = still_there remains).
  { intros [l|] Hl; cbn [still_there]; [by rewrite (Hl l)|set_solver]. }
  apply wpa_ask; [|intros _; eexists _, _; apply last_snoc].
  intros [cause|up|].
  - apply wpa_bind, wpa_sweep. intros ev remains Hr Hl _. rewrite Ha, (Hsw _ Hl) in Hr by done.
    apply wpa_bind. unfold imagePresence. apply wpa_ask; [|done]. intros [err late]. apply wpa_ret, wpa_ret.
    cbn [dial_ledger left_behind]. rewrite alive_after_snoc, Hr. unfold enter. cbn [ev_eff ev_ans].
    unfold removes. cbn [last]. by rewrite bool_decide_false.
  - apply wpa_ret. cbn [dial_ledger u_container]. by apply Ha.
  - apply wpa_bind, wpa_sweep. intros ev remains Hr Hl _. rewrite Ha, (Hsw _ Hl) in Hr by done. by apply wpa_ret.
Qed.

(** The first [Close], and those after it. *)
Lemma close_body_ledger d u acc : alive_after acc = {[u_container u]} ->
  wpa acc (close_body d u) (fun tr out => match out with
    | Done e => alive_after tr = still_there (not_removed e)
    | Panicked _ => tr = acc ++ [Ev (E := oci_effects) (OCloseInner (u_inner u)) Blew]
    end).
Proof.
  intros Hacc. unfold close_body. apply wpa_ask; [|done]. intros session. apply wpa_bind, wpa_sweep.
  intros ev remains Hr Hl _. rewrite (alive_after_snoc acc) in Hr. cbn [enter ev_eff ev_ans] in Hr.
  rewrite Hacc in Hr. apply wpa_ret. rewrite Hr. destruct remains as [l|]; cbn [not_removed still_there].
  - by rewrite (Hl l).
  - destruct session; cbn; set_solver.
Qed.

Lemma closes_done d u st calls : closes d u st calls -> onceDone st = true ->
  Forall (fun c => c = ([], Done (closeErr st))) calls.
Proof.
  induction 1 as [|st tr out rest Hr _ IH]; intros Hd; constructor.
  - unfold Close in Hr. rewrite Hd in Hr. by inversion Hr; subst.
  - unfold after_close in IH. rewrite Hd in IH. by apply IH.
Qed.

(** C38 [container_lifecycle]: no container is left that nobody answers for.  A dial that fails after the
    spawn that may have made its container has removed it, or says in its error which one it could not
    remove; a dial that succeeds leaves exactly the container its connection holds.  However often the
    connection is then closed, the container is removed once: the first close removes it, whatever the
    session's close reported, or says it could not, and every later close returns the first one's
    answer and does nothing.  So a close that returns nil leaves no container.  A panic of the inner
    code alone escapes this. *)
Theorem container_lifecycle d spec env tr out calls : runs (Dial d spec env) tr out ->
  match out with
  | Done (Err e) => alive_after tr = still_there (left_behind e)
  | Done (Ok u) => alive_after tr = {[u_container u]}
      /\ (closes d u unclosed calls -> match calls with
          | [] => True
          | (tr1, Done e) :: later =>
              alive_after (tr ++ tr1) = still_there (not_removed e)
              /\ (e = None -> alive_after (tr ++ tr1) = ∅)
              /\ Forall (fun call => call = ([], Done e)) later
          | (tr1, Panicked _) :: _ => tr1 = [Ev (E := oci_effects) (OCloseInner (u_inner u)) Blew]
          end)
  | Panicked _ => exists spec' env', last tr = Some (Ev (E := oci_effects) (OInner spec' env') Blew)
  end.
Proof.
  intros Hr%Dial_ledger. destruct out as [[u|e]|]; [|done..]. split; [done|]. intros Hc.
  inversion Hc as [|st tr1 out1 later Hr1 Hrest]; subst; [done|].
  pose proof (close_body_ledger d u tr Hr) as Hb. unfold wpa in Hb. rewrite wp_runs in Hb. specialize (Hb _ _ Hr1).
  apply closes_done in Hrest; [|done]. destruct out1 as [e|b].
  - split; [done|]. split; [by intros ->|]. done.
  - by apply app_inv_head in Hb.
Qed.

(** Fact [close_after_a_panic]: what the comment on [Close] does not allow for.  When the session's close
    panics, the removal is not run, and every later [Close] returns nil without running it: the
    container is still in the ledger. *)
Theorem close_after_a_panic d u acc tr b calls : alive_after acc = {[u_container u]} ->
  closes d u unclosed ((tr, Panicked b) :: calls) ->
  alive_after (acc ++ tr) = {[u_container u]} /\ Forall (fun call => call = ([], Done None)) calls.
Proof.
  intros Hacc Hc. inversion Hc as [|st tr1 out1 later Hr1 Hrest]; subst.
  pose proof (close_body_ledger d u acc Hacc) as Hb. unfold wpa in Hb. rewrite wp_runs in Hb. specialize (Hb _ _ Hr1).
  cbn in Hb. rewrite Hb, alive_after_snoc. split; [done|]. by apply closes_done in Hrest.
Qed.

(** ** What never reaches a command line, and what a removal can see *)

(** The same event, with other values for the entry's variables. *)
Definition with_env (env : gmap string string) (ev : event) : event :=
  match ev_eff ev as e return reply (oci_answer e) -> event with
  | OInner spec _ => fun r => Ev (E := oci_effects) (OInner spec env) r
  | e => fun r => Ev (E := oci_effects) e r
  end (ev_ans ev).

Lemma runs_ask {B} (e : oci_effect) (x : oci_answer e) (f : oci_answer e -> prog B) tr out :
  runs (f x) tr out -> runs (bind (ask e) f) (Ev (E := oci_effects) e (Val x) :: tr) out.
Proof. intros H. cbn. by apply (runs_vis (E := oci_effects) e). Qed.

Lemma buildPlan_names spec env env' opts : map fst (map_range env) = map fst (map_range env') ->
  buildPlan spec env opts = buildPlan spec env' opts.
Proof. intros H. unfold buildPlan, envNames. by rewrite H. Qed.

(** Fact [secrets_stay_out]: no value of a variable reaches a command line, an error or the connection.
    Two dials of an entry whose variables have the same names, with any values, go the same way: given
    the same answers, they run the same podman commands with the same arguments and environments, and
    return the same result.  The values are handed to the inner dialer and to nothing else. *)
Theorem secrets_stay_out d spec env env' tr out : map fst (map_range env) = map fst (map_range env') ->
  runs (Dial d spec env) tr out -> runs (Dial d spec env') (map (with_env env') tr) out.
Proof.
  intros Hn Hr. unfold Dial in Hr |- *. destruct (negb _); [by inversion Hr; subst; constructor|].
  assert (Hb : forall r, buildPlan spec env' (plan_options d spec r) = buildPlan spec env (plan_options d spec r))
    by (intros r; by rewrite (buildPlan_names spec env env')).
  revert tr out Hr. apply wpa_runs. apply wpa_ask; [|done]. intros [random|].
  2: { apply wpa_ret. apply runs_ask. constructor. }
  specialize (Hb random). destruct (buildPlan spec env _) as [p|e] eqn:Hp.
  2: { apply wpa_ret. apply runs_ask. cbn. rewrite Hb. constructor. }
  apply wpa_ask; [|intros _; apply runs_ask; cbn; rewrite Hb; by apply (runs_vis (E := oci_effects) (OInner _ _)); [|constructor]].
  intros [cause|up|].
  - unfold sweep, imagePresence. apply wpa_bind, wpa_ask; [|done]. intros a. apply wpa_ret.
    apply wpa_bind, wpa_ask; [|done]. intros a'. apply wpa_ret, wpa_ret.
    apply runs_ask. cbn. rewrite Hb. apply (runs_ask (OInner _ _) (InnerFailed cause)).
    do 2 (apply (runs_vis (E := oci_effects) (OExec _ _ _ _)); [done|]; cbn). constructor.
  - apply wpa_ret, runs_ask. cbn. rewrite Hb. apply (runs_ask (OInner _ _) (InnerConn up)). constructor.
  - unfold sweep. apply wpa_bind, wpa_ask; [|done]. intros a. apply wpa_ret, wpa_ret.
    apply runs_ask. cbn. rewrite Hb. apply (runs_ask (OInner _ _) InnerNothing).
    apply (runs_vis (E := oci_effects) (OExec _ _ _ _)); [done|]. constructor.
Qed.

Lemma carried_is_valid name value : env_name_carried name ->
  validateEnvEntry name value = None <-> contains_byte value NUL = false.
Proof.
  intros (Hne & Hb & _ & _ & Hc & _). rewrite validateEnvEntry_None.
  pose proof (Hb "="%char ltac:(left)) as He. pose proof (Hb NUL ltac:(do 5 right; left)) as Hn. naive_solver.
Qed.

Lemma getenv_cleanup d name : contains_byte name "=" = false ->
  getenv (cleanupEnvironment d) name = if bool_decide (name ∈ cleanupEnv d) then LookupEnv name else None.
Proof. apply getenv_inherited. Qed.

(** Fact [sweep_sees_the_same_runtime]: the environment a container is started from and the one it is
    removed with, when the two allowlists are the same, as the configuration must keep them.  The inner
    dialer refuses the entry only for a value with a NUL byte; each variable named on the command line
    reads as the vault's value in the process that starts the container; every other variable, and so
    every one that tells podman where its state is, reads the same there as in the process that removes
    it. *)
Theorem sweep_sees_the_same_runtime inherited d spec env opts p :
  buildPlan spec env opts = Ok p -> (forall name, name ∈ inherited <-> name ∈ cleanupEnv d) ->
  (is_ok (childEnv inherited env) = true <-> forall name value, env !! name = Some value -> contains_byte value NUL = false)
  /\ forall environ, childEnv inherited env = Ok environ ->
     (forall name value, env !! name = Some value -> getenv environ name = Some value)
     /\ (forall name, contains_byte name "=" = false -> env !! name = None ->
         getenv environ name = getenv (cleanupEnvironment d) name)
     /\ (forall name, contains_byte name "=" = false -> isRuntimeDirecting name = true ->
         getenv environ name = getenv (cleanupEnvironment d) name).
Proof.
  intros (network & [_ _ _ _ Hcar] & _)%buildPlan_Ok Hallow.
  assert (Hcar' : forall n v, env !! n = Some v -> env_name_carried n).
  { intros n v Hn. apply Hcar, elem_of_dom. by exists v. }
  split.
  - assert (Hiff : is_ok (childEnv inherited env) = true <-> env_entries_ok env).
    { destruct (childEnv inherited env) as [out|e] eqn:Hc; cbn [is_ok].
      - by apply childEnv_Ok in Hc as [Hok _].
      - split; [done|]. intros Hok. pose proof (proj2 (childEnv_Ok inherited env _) (conj Hok eq_refl)). congruence. }
    rewrite Hiff. unfold env_entries_ok. split; intros H n v Hn.
    + by apply (carried_is_valid n v); [eapply Hcar'|apply H].
    + by apply (carried_is_valid n v); [eapply Hcar'|eapply H].
  - intros environ Hc. assert (Hsame : forall name, contains_byte name "=" = false -> env !! name = None ->
      getenv environ name = getenv (cleanupEnvironment d) name).
    { intros name He Hn. rewrite (childEnv_reads _ _ _ _ He Hc), Hn, getenv_cleanup by done.
      by rewrite (bool_decide_ext _ _ (Hallow name)). }
    split_and!; [|done|].
    + intros name value Hn. destruct (Hcar' _ _ Hn) as (_ & Hb & _).
      rewrite (childEnv_reads inherited env) by (done || by apply Hb; left). by rewrite Hn.
    + intros name He Hd. apply Hsame; [done|]. destruct (env !! name) as [v|] eqn:Hn; [|done].
      destruct (Hcar' _ _ Hn) as (_ & _ & _ & _ & _ & Hr). congruence.
Qed.
End theorems.

(** ** Concrete runs *)

Definition demo_environ : ProcessEnv.
Proof.
  refine {| LookupEnv := fun n => if bool_decide (n = "HOME") then Some "/srv/gatte" else None |}.
  intros n v. case_bool_decide; [|done]. intros [= <-]. subst. by vm_compute.
Defined.

Definition demo_dialer : Dialer :=
  {| podman := defaultPodman; cleanupEnv := defaultCleanupEnv; cleanupGrace := defaultCleanupGrace; limits := DefaultLimits |}.

(** A system where the spawn fails and the removal works; and one where both succeed. *)
Definition demo_system (inner : inner_answer) (e : oci_effect) : reply (oci_answer e) :=
  match e with
  | ORand => Val (Some 7)
  | OInner _ _ => Val inner
  | OExec _ _ _ _ => Val {| ex_err := None; ex_late := false |}
  | OCloseInner _ => Val None
  end.

Definition demo_dial (inner : inner_answer) : list (event (E := oci_effects)) * outcome (result oci_error oci_upstream) :=
  exec (E := oci_effects) (demo_system inner)
    (Dial (FT := demo_floats) (PE := demo_environ) (MR := listed_order) demo_dialer demo_spec demo_env).

Definition demo_upstream : oci_upstream :=
  {| u_inner := 3; u_name := "cases"; u_container := "mcp-gw-cases-0000000000000007" |}.

Definition demo_close : list (event (E := oci_effects)) * outcome (option close_error) :=
  exec (E := oci_effects) (demo_system (InnerConn 3)) (Close (PE := demo_environ) demo_dialer demo_upstream unclosed).

Lemma demo_system_ok inner e : ok_reply (E := oci_effects) e (demo_system inner e).
Proof. by destruct e. Qed.

Lemma container_lifecycle_witness :
  alive_after (demo_dial (InnerConn 3)).1 = {["mcp-gw-cases-0000000000000007"]}
  /\ alive_after ((demo_dial (InnerConn 3)).1 ++ demo_close.1) = ∅
  /\ alive_after (demo_dial (InnerFailed [])).1 = ∅.
Proof.
  pose proof (exec_runs (E := oci_effects) (demo_system (InnerConn 3)) _ (demo_system_ok _)
    : runs (E := oci_effects) _ (demo_dial (InnerConn 3)).1 (demo_dial (InnerConn 3)).2) as Hd.
  pose proof (exec_runs (E := oci_effects) (demo_system (InnerFailed [])) _ (demo_system_ok _)
    : runs (E := oci_effects) _ (demo_dial (InnerFailed [])).1 (demo_dial (InnerFailed [])).2) as Hf.
  pose proof (exec_runs (E := oci_effects) (demo_system (InnerConn 3)) _ (demo_system_ok _)
    : runs (E := oci_effects) _ demo_close.1 demo_close.2) as Hc.
  assert (Hcs : closes (PE := demo_environ) demo_dialer demo_upstream unclosed [demo_close]).
  { rewrite (surjective_pairing demo_close). apply closes_call; [exact Hc|constructor]. }
  pose proof (@container_lifecycle demo_floats demo_environ listed_order _ _ _ _ _ [demo_close] Hd) as H1.
  pose proof (@container_lifecycle demo_floats demo_environ listed_order _ _ _ _ _ [] Hf) as H2.
  assert (Hout : (demo_dial (InnerConn 3)).2 = Done (Ok demo_upstream)) by (vm_compute; reflexivity).
  rewrite Hout in H1. destruct H1 as [Ha Hcl]. split; [exact Ha|]. split.
  - specialize (Hcl Hcs). rewrite (surjective_pairing demo_close) in Hcl.
    assert (Hco : demo_close.2 = Done None) by (vm_compute; reflexivity). rewrite Hco in Hcl.
    exact (proj1 (proj2 Hcl) eq_refl).
  - assert (Hfo : exists e, (demo_dial (InnerFailed [])).2 = Done (Err e) /\ left_behind e = None).
    { eexists. split; vm_compute; reflexivity. }
    destruct Hfo as (e & Hfo & Hl). rewrite Hfo in H2. rewrite H2, Hl. reflexivity.
Defined.

Lemma secrets_stay_out_witness :
  runs (E := oci_effects)
    (Dial (FT := demo_floats) (PE := demo_environ) (MR := listed_order) demo_dialer demo_spec
      {["CASES_TOKEN" := "other"; "CASES_URL" := ""]})
    (map (with_env {["CASES_TOKEN" := "other"; "CASES_URL" := ""]}) (demo_dial (InnerConn 3)).1) (demo_dial (InnerConn 3)).2.
Proof.
  refine (@secrets_stay_out demo_floats demo_environ listed_order demo_dialer demo_spec demo_env _ _ _ _ _).
  - vm_compute. reflexivity.
  - exact (exec_runs (E := oci_effects) (demo_system (InnerConn 3)) _ (demo_system_ok _)).
Defined.

Definition demo_child : list string := ["HOME=/srv/gatte"; "CASES_URL=https://cases"; "CASES_TOKEN=s3cret"].

Lemma sweep_sees_the_same_runtime_witness :
  childEnv (H := demo_environ) (H0 := listed_order) ["PATH"; "HOME"] demo_env = Ok demo_child
  /\ getenv demo_child "HOME" = getenv (cleanupEnvironment (PE := demo_environ) demo_dialer) "HOME"
  /\ getenv demo_child "CASES_TOKEN" = Some "s3cret".
Proof.
  assert (Hc : childEnv (H := demo_environ) (H0 := listed_order) ["PATH"; "HOME"] demo_env = Ok demo_child).
  { vm_compute. reflexivity. }
  pose proof (proj2 (@sweep_sees_the_same_runtime demo_floats demo_environ listed_order ["PATH"; "HOME"] demo_dialer demo_spec
    demo_env demo_opts demo_plan demo_planned (fun name => iff_refl _)) demo_child Hc) as (H1 & _ & H3).
  split; [exact Hc|split]; [apply H3; vm_compute; reflexivity|apply H1; vm_compute; reflexivity].
Defined.
