(* ===== verification/RestEgress.v ===== *)
(** * Where a REST call may connect ([internal/gateway/resthttp/egress.go])

    The address policy and the dialer that applies it.  Addresses are [netip.Addr]'s three shapes with
    its predicates, written on the address as a number; parsing an address is a parameter
    ([AddrParser]).  The policy is proved equal to a table of refused blocks, and the dialer to connect
    to no address the policy refuses, whatever a resolver answers. *)
From Stdlib Require Import ZArith Lia Ascii.
From stdpp Require Import base strings list.
From S2P Require Import Prelude.
From S2P Require Import GoStrings.
From S2P Require Import GoTime.
From S2P Require Import Prog.
From S2P Require Import GatewayTypes.

(** ** Addresses: [net/netip] *)

Inductive Addr := InvalidAddr | V4 (z : Z) | V6 (z : Z) (zone : string).

#[global] Instance Addr_eq_dec : EqDecision Addr.
Proof. solve_decision. Defined.

Definition well_formed_addr (a : Addr) : Prop :=
  match a with InvalidAddr => True | V4 z => 0 <= z < 2 ^ 32 | V6 z _ => 0 <= z < 2 ^ 128 end.

(** The octet at [i], most significant first. *)
Definition octet4 (z i : Z) : Z := z / 2 ^ (24 - 8 * i) mod 256.
Definition octet6 (z i : Z) : Z := z / 2 ^ (120 - 8 * i) mod 256.
Definition v6u16 (z : Z) : Z := z / 2 ^ 112.

(** [netip.Prefix.Contains]: the first [bits] bits of an address of width [w]. *)
Definition in_block (w : Z) (block : Z * Z) (z : Z) : bool := z / 2 ^ (w - snd block) =? fst block / 2 ^ (w - snd block).

Definition ip4 (a b c d : Z) : Z := a * 2 ^ 24 + b * 2 ^ 16 + c * 2 ^ 8 + d.

Definition IsValid (a : Addr) : bool := match a with InvalidAddr => false | _ => true end.
Definition Zone (a : Addr) : string := match a with V6 _ zone => zone | _ => "" end.
Definition Is4 (a : Addr) : bool := match a with V4 _ => true | _ => false end.
Definition Is6 (a : Addr) : bool := match a with V6 _ _ => true | _ => false end.

Definition Unmap (a : Addr) : Addr :=
  match a with V6 z zone => if z / 2 ^ 32 =? 0xffff then V4 (z mod 2 ^ 32) else a | _ => a end.

Definition IsUnspecified (a : Addr) : bool := bool_decide (a = V4 0) || bool_decide (a = V6 0 "").

Definition IsLoopback (a : Addr) : bool :=
  match a with V4 z => octet4 z 0 =? 127 | V6 z _ => z =? 1 | InvalidAddr => false end.

Definition IsPrivate (a : Addr) : bool :=
  match a with
  | V4 z => (octet4 z 0 =? 10) || (octet4 z 0 =? 172) && (Z.land (octet4 z 1) 0xf0 =? 16)
            || (octet4 z 0 =? 192) && (octet4 z 1 =? 168)
  | V6 z _ => Z.land (octet6 z 0) 0xfe =? 0xfc
  | InvalidAddr => false
  end.

Definition IsLinkLocalUnicast (a : Addr) : bool :=
  match a with
  | V4 z => (octet4 z 0 =? 169) && (octet4 z 1 =? 254)
  | V6 z _ => Z.land (v6u16 z) 0xffc0 =? 0xfe80
  | InvalidAddr => false
  end.

Definition IsMulticast (a : Addr) : bool :=
  match a with
  | V4 z => Z.land (octet4 z 0) 0xf0 =? 0xe0
  | V6 z _ => octet6 z 0 =? 0xff
  | InvalidAddr => false
  end.

Definition IsLinkLocalMulticast (a : Addr) : bool :=
  match a with
  | V4 z => (octet4 z 0 =? 224) && (octet4 z 1 =? 0) && (octet4 z 2 =? 0)
  | V6 z _ => Z.land (v6u16 z) 0xff0f =? 0xff02
  | InvalidAddr => false
  end.

Definition IsInterfaceLocalMulticast (a : Addr) : bool :=
  match a with V6 z _ => Z.land (v6u16 z) 0xff0f =? 0xff01 | _ => false end.

Definition broadcast : Addr := V4 (ip4 255 255 255 255).

Definition IsGlobalUnicast (a : Addr) : bool :=
  match a with
  | InvalidAddr => false
  | _ =>
      if bool_decide (a = V4 0) || bool_decide (a = broadcast) then false
      else negb (bool_decide (a = V6 0 "")) && negb (IsLoopback a) && negb (IsMulticast a) && negb (IsLinkLocalUnicast a)
  end.

(** [p.Contains(a)], for a prefix of either family; an address with a zone is in none. *)
Definition Contains4 (block : Z * Z) (a : Addr) : bool := match a with V4 z => in_block 32 block z | _ => false end.
Definition Contains6 (block : Z * Z) (a : Addr) : bool :=
  match a with V6 z zone => bool_decide (zone = "") && in_block 128 block z | _ => false end.

(** ** The policy *)

Definition cgnat : Z * Z := (ip4 100 64 0 0, 10).
Definition thisNetwork : Z * Z := (0, 8).
Definition nat64 : Z * Z := (0x0064ff9b * 2 ^ 96, 96).
Definition nat64Local : Z * Z := (0x0064ff9b0001 * 2 ^ 80, 48).
Definition sixToFour : Z * Z := (0x2002 * 2 ^ 112, 16).

(** [ErrEgressRefused], with the reason given. *)
Inductive refusal :=
| RInvalid | RZone | REmbeds (why : refusal) | RUnspecified | RThisNetwork | RLoopback | RPrivate
| RLinkLocal | RMulticast | RBroadcast | RCGNAT | RNotGlobal.

#[global] Instance refusal_eq_dec : EqDecision refusal.
Proof. solve_decision. Defined.

Definition embeddedIPv4 (a : Addr) : Addr :=
  match a with
  | V6 z _ => if Contains6 sixToFour a then V4 (z / 2 ^ 80 mod 2 ^ 32) else V4 (z mod 2 ^ 32)
  | _ => a
  end.

(** The switch on an address that embeds no other. *)
Definition refuse_range (a : Addr) : option refusal :=
  if IsUnspecified a then Some RUnspecified
  else if Is4 a && Contains4 thisNetwork a then Some RThisNetwork
  else if IsLoopback a then Some RLoopback
  else if IsPrivate a then Some RPrivate
  else if IsLinkLocalUnicast a then Some RLinkLocal
  else if IsMulticast a || IsLinkLocalMulticast a || IsInterfaceLocalMulticast a then Some RMulticast
  else if Is4 a && bool_decide (a = broadcast) then Some RBroadcast
  else if Is4 a && Contains4 cgnat a then Some RCGNAT
  else if negb (IsGlobalUnicast a) then Some RNotGlobal
  else None.

(** The recursive call is on an IPv4 address, which embeds none ([refuseAddr_v4]): two levels are all. *)
Fixpoint refuse_addr (depth : nat) (a : Addr) : option refusal :=
  if negb (IsValid a) then Some RInvalid
  else if negb (bool_decide (Zone a = "")) then Some RZone
  else
    let a := Unmap a in
    if Is6 a && (Contains6 nat64 a || Contains6 nat64Local a || Contains6 sixToFour a) then
      match depth with
      | O => Some RInvalid
      | S depth => match refuse_addr depth (embeddedIPv4 a) with Some why => Some (REmbeds why) | None => None end
      end
    else refuse_range a.

Definition refuseAddr (a : Addr) : option refusal := refuse_addr 1 a.

Lemma refuseAddr_v4 z depth : refuse_addr depth (V4 z) = refuse_range (V4 z).
Proof. by destruct depth. Qed.

(** ** The blocks *)

Definition refused4 : list (Z * Z) := [
  (ip4 0 0 0 0, 8); (ip4 127 0 0 0, 8); (ip4 10 0 0 0, 8); (ip4 172 16 0 0, 12); (ip4 192 168 0 0, 16);
  (ip4 169 254 0 0, 16); (ip4 224 0 0 0, 4); (ip4 255 255 255 255, 32); cgnat].

Definition refused6 : list (Z * Z) := [
  (0, 128); (1, 128); (0xfc * 2 ^ 120, 7); (0xfe80 * 2 ^ 112, 10); (0xff * 2 ^ 120, 8)].

Definition in_blocks (w : Z) (blocks : list (Z * Z)) (z : Z) : bool := existsb (fun b => in_block w b z) blocks.

(** The address a packet ends at: mapped, translated and tunnelled addresses are the IPv4 one inside. *)
Definition effective (a : Addr) : Addr :=
  let a := Unmap a in
  if Contains6 nat64 a || Contains6 nat64Local a || Contains6 sixToFour a then embeddedIPv4 a else a.

Definition allowed_addr (a : Addr) : bool :=
  match effective a with
  | V4 z => negb (in_blocks 32 refused4 z)
  | V6 z _ => negb (in_blocks 128 refused6 z)
  | InvalidAddr => false
  end && bool_decide (Zone a = "").

(** *** The policy is the table *)

Ltac eqbs := rewrite ?orb_true_iff, ?andb_true_iff, ?Z.eqb_eq.

(** Masks, checked value by value. *)
Lemma mask_table (w : Z) (P : Z -> bool) : forallb P (seqZ 0 w) = true -> forall o, 0 <= o < w -> P o = true.
Proof. intros H o Ho. rewrite forallb_forall in H. apply H, list_elem_of_In, elem_of_seqZ. lia. Qed.

Lemma land_f0 o : 0 <= o < 256 -> Z.land o 0xf0 = o / 16 * 16.
Proof. intros H. apply Z.eqb_eq. exact (mask_table 256 (fun o => Z.land o 0xf0 =? o / 16 * 16) ltac:(by vm_compute) o H). Qed.

Lemma land_fe o : 0 <= o < 256 -> Z.land o 0xfe = o / 2 * 2.
Proof. intros H. apply Z.eqb_eq. exact (mask_table 256 (fun o => Z.land o 0xfe =? o / 2 * 2) ltac:(by vm_compute) o H). Qed.

Lemma mask_table16 (P : Z -> bool) :
  forallb (fun h => forallb (fun l => P (h * 256 + l)) (seqZ 0 256)) (seqZ 0 256) = true ->
  forall o, 0 <= o < 65536 -> P o = true.
Proof.
  intros H o Ho. pose proof (mask_table 256 _ H (o / 256) ltac:(lia)) as H1. cbn beta in H1.
  pose proof (mask_table 256 _ H1 (o mod 256) ltac:(lia)) as H2. cbn beta in H2.
  replace o with (o / 256 * 256 + o mod 256) by lia. done.
Qed.

Lemma land_ffc0 o : 0 <= o < 65536 -> Z.land o 0xffc0 = o / 64 * 64.
Proof. intros H. apply Z.eqb_eq. exact (mask_table16 (fun o => Z.land o 0xffc0 =? o / 64 * 64) ltac:(by vm_compute) o H). Qed.

Lemma land_ff0f o : 0 <= o < 65536 -> Z.land o 0xff0f / 256 = o / 256.
Proof. intros H. apply Z.eqb_eq. exact (mask_table16 (fun o => Z.land o 0xff0f / 256 =? o / 256) ltac:(by vm_compute) o H). Qed.

(** The first two octets of an IPv4 address, and the prefixes of the table's lengths. *)
Lemma octets z : 0 <= z < 2 ^ 32 -> exists o0 o1, 0 <= o0 < 256 /\ 0 <= o1 < 256
  /\ octet4 z 0 = o0 /\ octet4 z 1 = o1 /\ z / 2 ^ (32 - 8) = o0 /\ z / 2 ^ (32 - 16) = o0 * 256 + o1
  /\ z / 2 ^ (32 - 12) = o0 * 16 + o1 / 16 /\ z / 2 ^ (32 - 4) = o0 / 16 /\ z / 2 ^ (32 - 10) = o0 * 4 + o1 / 64.
Proof.
  intros Hz. exists (z / 2 ^ 24), (z / 2 ^ 16 mod 256). unfold octet4.
  assert (Hd : forall a b, 0 < a -> 0 < b -> z / (a * b) = z / a / b) by (intros; by rewrite Z.div_div by lia).
  change (2 ^ (24 - 8 * 0)) with (2 ^ 24). change (2 ^ (24 - 8 * 1)) with (2 ^ 16).
  replace (2 ^ (32 - 8)) with (2 ^ 16 * 256) by done. replace (2 ^ (32 - 16)) with (2 ^ 16) by done.
  replace (2 ^ (32 - 12)) with (2 ^ 16 * 16) by done. replace (2 ^ (32 - 4)) with (2 ^ 16 * 4096) by done.
  replace (2 ^ (32 - 10)) with (2 ^ 16 * 64) by done. replace (2 ^ 24) with (2 ^ 16 * 256) by done.
  rewrite !Hd by lia.
  assert (Hr : 0 <= z / 2 ^ 16 < 65536) by (split; [apply Z.div_pos; lia|apply Z.div_lt_upper_bound; lia]).
  generalize dependent (z / 2 ^ 16). clear. intros h Hh. lia.
Qed.

(** The same of an IPv6 address. *)
Lemma octets6 z : 0 <= z < 2 ^ 128 -> exists u, 0 <= u < 65536
  /\ v6u16 z = u /\ octet6 z 0 = u / 256 /\ z / 2 ^ (128 - 7) = u / 512 /\ z / 2 ^ (128 - 10) = u / 64 /\ z / 2 ^ (128 - 8) = u / 256.
Proof.
  intros Hz. exists (z / 2 ^ 112). unfold v6u16, octet6.
  assert (Hd : forall a b, 0 < a -> 0 < b -> z / (a * b) = z / a / b) by (intros; by rewrite Z.div_div by lia).
  assert (Hr : 0 <= z / 2 ^ 112 < 65536) by (split; [apply Z.div_pos; lia|apply Z.div_lt_upper_bound; lia]).
  change (2 ^ (120 - 8 * 0)) with (2 ^ 120). change (2 ^ (128 - 7)) with (2 ^ 121). change (2 ^ (128 - 10)) with (2 ^ 118).
  change (2 ^ (128 - 8)) with (2 ^ 120).
  replace (2 ^ 120) with (2 ^ 112 * 256) by done. replace (2 ^ 121) with (2 ^ 112 * 512) by done.
  replace (2 ^ 118) with (2 ^ 112 * 64) by done. rewrite !Hd by lia.
  generalize dependent (z / 2 ^ 112). clear. intros h Hh. split_and!; lia.
Qed.

Lemma bool_iff (b c : bool) : (b = true <-> c = true) -> b = c.
Proof. destruct b, c; intuition congruence. Qed.

Lemma if_false (b c : bool) : (if b then false else c) = negb b && c.
Proof. by destruct b. Qed.

Lemma refuse_if (b : bool) (why : refusal) k : (if b then Some why else k) = None <-> b = false /\ k = None.
Proof. destruct b; naive_solver. Qed.

Lemma decide_v4 z k : bool_decide (V4 z = V4 k) = (z =? k).
Proof. apply bool_iff. rewrite bool_decide_eq_true, Z.eqb_eq. naive_solver. Qed.

Lemma decide_v6 z k : bool_decide (V6 z "" = V6 k "") = (z =? k).
Proof. apply bool_iff. rewrite bool_decide_eq_true, Z.eqb_eq. naive_solver. Qed.

Lemma refuse_range_v4 z : 0 <= z < 2 ^ 32 -> refuse_range (V4 z) = None <-> in_blocks 32 refused4 z = false.
Proof.
  intros Hz. destruct (octets z Hz) as (o0 & o1 & H0 & H1 & E0 & E1 & P8 & P16 & P12 & P4 & P10).
  unfold refuse_range. rewrite !refuse_if.
  unfold IsGlobalUnicast, IsUnspecified, IsLoopback, IsPrivate, IsLinkLocalUnicast, IsMulticast, IsLinkLocalMulticast,
    IsInterfaceLocalMulticast, Contains4, in_blocks, refused4, existsb, in_block, cgnat, thisNetwork, broadcast, Is4.
  cbn [fst snd]. rewrite E0, E1, P8, P16, P12, P4, P10, !decide_v4, !land_f0 by done.
  rewrite !(bool_decide_false (V4 z = V6 0 "")) by done.
  change (2 ^ (32 - 32)) with 1. rewrite Z.div_1_r.
  change (ip4 0 0 0 0 / 2 ^ (32 - 8)) with 0. change (0 / 2 ^ (32 - 8)) with 0. change (ip4 127 0 0 0 / 2 ^ (32 - 8)) with 127.
  change (ip4 10 0 0 0 / 2 ^ (32 - 8)) with 10. change (ip4 172 16 0 0 / 2 ^ (32 - 12)) with 2753.
  change (ip4 192 168 0 0 / 2 ^ (32 - 16)) with 49320. change (ip4 169 254 0 0 / 2 ^ (32 - 16)) with 43518.
  change (ip4 224 0 0 0 / 2 ^ (32 - 4)) with 14. change (ip4 100 64 0 0 / 2 ^ (32 - 10)) with 401.
  change (ip4 255 255 255 255 / 1) with 4294967295. change (ip4 255 255 255 255) with 4294967295.
  assert (Hzero : (z =? 0) = true -> (o0 =? 0) = true) by (rewrite !Z.eqb_eq; intros ->; by rewrite <- P8).
  clear E0 E1 P8 P16 P12 P4 P10 Hz. generalize (octet4 z 2). intros o2.
  assert (Hmul : (o0 =? 224) = true -> (o0 / 16 =? 14) = true) by (rewrite !Z.eqb_eq; by intros ->).
  assert ((o1 / 16 * 16 =? 16) = (o1 / 16 =? 1)) as -> by (apply bool_iff; eqbs; lia).
  assert ((o0 / 16 * 16 =? 224) = (o0 / 16 =? 14)) as -> by (apply bool_iff; eqbs; lia).
  assert ((o0 * 16 + o1 / 16 =? 2753) = (o0 =? 172) && (o1 / 16 =? 1)) as -> by (apply bool_iff; eqbs; lia).
  assert ((o0 * 256 + o1 =? 49320) = (o0 =? 192) && (o1 =? 168)) as -> by (apply bool_iff; eqbs; lia).
  assert ((o0 * 256 + o1 =? 43518) = (o0 =? 169) && (o1 =? 254)) as -> by (apply bool_iff; eqbs; lia).
  rewrite if_false.
  destruct (z =? 0); [by rewrite (Hzero eq_refl) in *; cbn; naive_solver|].
  destruct (o0 =? 224); [rewrite (Hmul eq_refl) in *|]; destruct ((o0 =? 172) && _), ((o0 =? 192) && _), ((o0 =? 169) && _),
    (o0 * 4 + o1 / 64 =? 401), (z =? 4294967295), (o0 =? 0), (o0 =? 127), (o0 =? 10); try destruct (o0 / 16 =? 14);
    cbn; clear; intuition congruence.
Qed.

Lemma refuse_range_v6 z : 0 <= z < 2 ^ 128 -> refuse_range (V6 z "") = None <-> in_blocks 128 refused6 z = false.
Proof.
  intros Hz. destruct (octets6 z Hz) as (u & Hu & E & E0 & P7 & P10 & P8).
  unfold refuse_range. rewrite !refuse_if.
  unfold IsGlobalUnicast, IsUnspecified, IsLoopback, IsPrivate, IsLinkLocalUnicast, IsMulticast, IsLinkLocalMulticast,
    IsInterfaceLocalMulticast, in_blocks, refused6, existsb, in_block, broadcast, Is4.
  cbn [fst snd]. rewrite E, E0, P7, P10, P8, !decide_v6.
  rewrite !(bool_decide_false (V6 z "" = V4 _)) by done.
  change (2 ^ (128 - 128)) with 1. rewrite Z.div_1_r.
  change (0 / 1) with 0. change (1 / 1) with 1. change (0xfc * 2 ^ 120 / 2 ^ (128 - 7)) with 126.
  change (0xfe80 * 2 ^ 112 / 2 ^ (128 - 10)) with 1018. change (0xff * 2 ^ 120 / 2 ^ (128 - 8)) with 255.
  rewrite land_ffc0, land_fe by lia.
  assert (Hll : (Z.land u 0xff0f =? 0xff02) || (Z.land u 0xff0f =? 0xff01) = true -> (u / 256 =? 255) = true).
  { rewrite orb_true_iff, !Z.eqb_eq, <- land_ff0f by lia. by intros [-> | ->]. }
  assert ((u / 256 / 2 * 2 =? 0xfc) = (u / 512 =? 126)) as -> by (apply bool_iff; eqbs; lia).
  assert ((u / 64 * 64 =? 0xfe80) = (u / 64 =? 1018)) as -> by (apply bool_iff; eqbs; lia).
  rewrite if_false. clear E E0 P7 P10 P8 Hz Hu.
  destruct ((Z.land u 0xff0f =? 0xff02)), ((Z.land u 0xff0f =? 0xff01)); try rewrite (Hll eq_refl) in *;
    destruct (z =? 0), (z =? 1), (u / 512 =? 126), (u / 64 =? 1018); try destruct (u / 256 =? 255);
    cbn; clear; intuition congruence.
Qed.

Lemma Unmap_well_formed a : well_formed_addr a -> well_formed_addr (Unmap a).
Proof. destruct a as [|z|z zone]; cbn; [done..|]. intros Hz. destruct (z / 2 ^ 32 =? 0xffff); cbn; [apply Z.mod_pos_bound|]; lia. Qed.

Lemma Unmap_Zone a : Zone a = "" -> Zone (Unmap a) = "".
Proof. destruct a as [|z|z zone]; cbn; [done..|]. by destruct (z / 2 ^ 32 =? 0xffff). Qed.

Lemma refuseAddr_unfold a : refuseAddr a =
  if negb (IsValid a) then Some RInvalid
  else if negb (bool_decide (Zone a = "")) then Some RZone
  else if Is6 (Unmap a) && (Contains6 nat64 (Unmap a) || Contains6 nat64Local (Unmap a) || Contains6 sixToFour (Unmap a)) then
    match refuse_addr 0 (embeddedIPv4 (Unmap a)) with Some why => Some (REmbeds why) | None => None end
  else refuse_range (Unmap a).
Proof. reflexivity. Qed.

(** C19 [egress_is_the_table]: which addresses a REST call may connect to.  The policy admits an address
    exactly when it has no zone and the address its packets end at, an IPv4 one where it is mapped,
    translated or tunnelled, is in none of the refused blocks: this network, loopback, the private
    ranges, link-local with the metadata endpoint, multicast, broadcast, carrier NAT, and the IPv6
    unspecified, loopback, unique-local, link-local and multicast blocks. *)
Theorem egress_is_the_table a : well_formed_addr a -> refuseAddr a = None <-> allowed_addr a = true.
Proof.
  intros Hwf. rewrite refuseAddr_unfold. unfold allowed_addr, effective.
  destruct (IsValid a) eqn:Hv; [|by destruct a]. cbn [negb].
  case_bool_decide as Hz; cbn [negb]; [|by rewrite andb_false_r]. rewrite andb_true_r.
  apply Unmap_well_formed in Hwf. apply Unmap_Zone in Hz. assert (Hv' : Unmap a <> InvalidAddr) by (destruct a; cbn; [done|done|by case_match]).
  destruct (Unmap a) as [|z|z zone]; [done| |]; cbn [Is6 andb Contains6 orb].
  - rewrite refuse_range_v4, negb_true_iff by done. done.
  - cbn in Hz. subst zone. rewrite !(bool_decide_true ("" = "")) by done. cbn [andb].
    destruct (in_block 128 nat64 z || in_block 128 nat64Local z || in_block 128 sixToFour z).
    + unfold embeddedIPv4. cbn [Contains6]. rewrite (bool_decide_true ("" = "")) by done. cbn [andb].
      destruct (in_block 128 sixToFour z); rewrite refuseAddr_v4, negb_true_iff, <- refuse_range_v4 by (apply Z.mod_pos_bound; lia);
        by destruct (refuse_range _).
    + rewrite refuse_range_v6, negb_true_iff by done. done.
Qed.

Definition metadata : Addr := V4 (ip4 169 254 169 254).

Lemma egress_is_the_table_witness :
  refuseAddr metadata = Some RLinkLocal /\ refuseAddr (V4 (ip4 93 184 216 34)) = None
  /\ refuseAddr (V6 (0x0064ff9b * 2 ^ 96 + ip4 127 0 0 1) "") = Some (REmbeds RLoopback)
  /\ refuseAddr (V6 (0xffff * 2 ^ 32 + ip4 10 0 0 1) "") = Some RPrivate
  /\ refuseAddr (V4 (ip4 100 127 255 255)) <> None.
Proof.
  split; [reflexivity|]. split; [apply (egress_is_the_table (V4 (ip4 93 184 216 34))); [vm_compute; split; congruence|reflexivity]|].
  split; [vm_compute; reflexivity|]. split; [vm_compute; reflexivity|].
  intros H. apply (egress_is_the_table (V4 (ip4 100 127 255 255))) in H; [discriminate H|vm_compute; split; congruence].
Defined.

(** ** The dialer *)

(** [net.SplitHostPort]: [None] for its errors. *)
Fixpoint cut_last (s : string) (sep : ascii) : option (string * string) :=
  match s with
  | EmptyString => None
  | String a s' =>
      match cut_last s' sep with
      | Some (before, after) => Some (String a before, after)
      | None => if bool_decide (a = sep) then Some ("", s') else None
      end
  end.

Definition SplitHostPort (hostport : string) : option (string * string) :=
  match cut_last hostport ":" with
  | None => None
  | Some (before, port) =>
      match cut_prefix hostport "[" with
      | Some inside =>
          match cut inside "]" with
          | None => None
          | Some (host, rest) =>
              if bool_decide (rest = ":" +:+ port) && negb (contains_byte inside "[") && negb (contains_byte rest "]")
              then Some (host, port) else None
          end
      | None =>
          if contains_byte before ":" || contains_byte hostport "[" || contains_byte hostport "]" then None
          else Some (before, port)
      end
  end.

(** [strconv.ParseUint(s, 10, 16)]. *)
Definition parse_port (s : string) : option Z :=
  if bool_decide (s = "") || negb (str_forallb is_digit s) then None
  else if uint 0 s <=? 65535 then Some (uint 0 s) else None.

(** [netip.ParseAddr], [netip.AddrPortFrom(a, port).String()] and [netip.ParseAddrPort]. *)
Class AddrParser := {
  ParseAddr : string -> option Addr;
  AddrPortString : Addr -> Z -> string;
  ParseAddrPort : string -> option (Addr * Z);
  ParseAddrPort_String : forall a port, IsValid a = true -> 0 <= port <= 65535 ->
    ParseAddrPort (AddrPortString a port) = Some (a, port)
}.

Inductive egress_effect :=
| ELookup (host : string)                                    (* the resolver *)
| EConnect (network : string) (a : Addr) (port : Z)          (* connect, past the Control hook *)
| ECtxErr.                                                   (* ctx.Err() != nil *)

Definition egress_answer (e : egress_effect) : Type :=
  match e with
  | ELookup _ => result foreign (list Addr)
  | EConnect _ _ _ => result foreign handle
  | ECtxErr => bool
  end.

#[export] Instance egress_effects : Effects :=
  {| eff := egress_effect; ans := egress_answer; may_panic := fun _ => false |}.

Inductive egress_error :=
| ErrNotTCP (network : string)
| ErrAddress (address : string)
| ErrNoPort (address : string)
| ErrResolve (host : string) (e : foreign)
| ErrNoAddresses (host : string)
| ErrEgressRefused (host : string) (why : refusal)
| ErrSocket (e : foreign)
| ErrNothingTried.

Definition is_tcp (network : string) : bool :=
  bool_decide (network = "tcp") || bool_decide (network = "tcp4") || bool_decide (network = "tcp6").

Section dial.
Context `{AP : AddrParser}.
Variable egress : Addr -> option refusal.

(** The [Control] hook. *)
Definition controlCheck (network address : string) : option egress_error :=
  if negb (is_tcp network) then Some (ErrNotTCP network)
  else match ParseAddrPort address with
  | None => Some (ErrAddress address)
  | Some (a, _) => match egress a with Some why => Some (ErrEgressRefused address why) | None => None end
  end.

(** [net.Dialer.DialContext] on a literal address: the hook runs on the socket, then it connects. *)
Definition dial_literal (network : string) (a : Addr) (port : Z) : prog (result egress_error handle) :=
  match controlCheck network (AddrPortString a port) with
  | Some e => Ret (Err e)
  | None =>
      r <- trigger (E := egress_effects) (EConnect network a port);;
      Ret (match r with Ok conn => Ok conn | Err e => Err (ErrSocket e) end)
  end.

Fixpoint first_refused (addrs : list Addr) : option refusal :=
  match addrs with
  | [] => None
  | a :: rest => match egress a with Some why => Some why | None => first_refused rest end
  end.

Fixpoint try_addrs (network : string) (port : Z) (addrs : list Addr) (last : egress_error)
  : prog (result egress_error handle) :=
  match addrs with
  | [] => Ret (Err last)
  | a :: rest =>
      r <- dial_literal network (Unmap a) port;;
      match r with
      | Ok conn => Ret (Ok conn)
      | Err e =>
          ended <- trigger (E := egress_effects) ECtxErr;;
          if ended : bool then Ret (Err e) else try_addrs network port rest e
      end
  end.

Definition dial_resolved (network host : string) (port : Z) (addrs : list Addr) : prog (result egress_error handle) :=
  match first_refused addrs with
  | Some why => Ret (Err (ErrEgressRefused host why))
  | None => try_addrs network port addrs ErrNothingTried
  end.

Definition dialPinned (network addr : string) : prog (result egress_error handle) :=
  if negb (is_tcp network) then Ret (Err (ErrNotTCP network))
  else match SplitHostPort addr with
  | None => Ret (Err (ErrAddress addr))
  | Some (host, portText) =>
      match parse_port portText with
      | None => Ret (Err (ErrNoPort addr))
      | Some port =>
          match ParseAddr host with
          | Some literal => dial_resolved network host port [literal]
          | None =>
              r <- trigger (E := egress_effects) (ELookup host);;
              match r with
              | Err e => Ret (Err (ErrResolve host e))
              | Ok [] => Ret (Err (ErrNoAddresses host))
              | Ok addrs => dial_resolved network host port addrs
              end
          end
      end
  end.

Lemma first_refused_None addrs : first_refused addrs = None <-> Forall (fun a => egress a = None) addrs.
Proof.
  induction addrs as [|a addrs IH]; simpl; [by split|]. rewrite Forall_cons.
  destruct (egress a); [naive_solver|]. rewrite IH. naive_solver.
Qed.

(** A connection attempt to one of these addresses, past the hook. *)
Definition pinned_to (network : string) (port : Z) (addrs : list Addr) (ev : event (E := egress_effects)) : Prop :=
  match ev_eff ev with
  | EConnect n a p => n = network /\ p = port /\ egress a = None /\ exists b, b ∈ addrs /\ a = Unmap b
  | _ => True
  end.

Definition made_by (tr : list (event (E := egress_effects))) (out : outcome (result egress_error handle)) : Prop :=
  forall conn, out = Done (Ok conn) -> exists n a p, Ev (E := egress_effects) (EConnect n a p) (Val (Ok conn)) ∈ tr.

Lemma wpa_egress {B} acc (e : egress_effect) (f : egress_answer e -> prog B) Q :
  (forall x : egress_answer e, wpa (acc ++ [Ev (E := egress_effects) e (Val x)]) (f x) Q) ->
  wpa acc (bind (trigger (E := egress_effects) e) f) Q.
Proof. intros H. by apply (wpa_step (E := egress_effects)). Qed.

Lemma dial_literal_wpa network a port addrs acc : (forall b, egress b = None -> IsValid b = true) -> 0 <= port <= 65535 ->
  (exists b, b ∈ addrs /\ a = Unmap b) -> IsValid a = true -> Forall (pinned_to network port addrs) acc ->
  wpa acc (dial_literal network a port) (fun tr out => Forall (pinned_to network port addrs) tr /\ made_by tr out).
Proof.
  intros Hv Hp Hin Ha Hacc. unfold dial_literal, controlCheck.
  assert (Hno : forall e, wpa acc (Ret (Err e)) (fun tr out => Forall (pinned_to network port addrs) tr /\ made_by tr out)).
  { intros e. apply wpa_ret. split; [done|]. by intros ? [=]. }
  destruct (negb (is_tcp network)); [apply Hno|]. rewrite ParseAddrPort_String by done.
  destruct (egress a) eqn:He; [apply Hno|]. apply wpa_egress. intros [conn|e]; apply wpa_ret; (split; [|]).
  - apply Forall_app. split; [done|]. by repeat constructor.
  - intros c [= <-]. exists network, a, port. apply elem_of_app. right. apply list_elem_of_here.
  - apply Forall_app. split; [done|]. by repeat constructor.
  - by intros ? [=].
Qed.

Lemma try_addrs_wpa network port addrs all last acc : (forall b, egress b = None -> IsValid b = true) -> 0 <= port <= 65535 ->
  Forall (fun a => egress a = None) addrs -> (forall a, a ∈ addrs -> a ∈ all) -> Forall (pinned_to network port all) acc ->
  wpa acc (try_addrs network port addrs last) (fun tr out => Forall (pinned_to network port all) tr /\ made_by tr out).
Proof.
  intros Hv Hp. revert last acc. induction addrs as [|a addrs IH]; intros last acc Hpass Hall Hacc; cbn [try_addrs].
  { apply wpa_ret. split; [done|]. by intros ? [=]. }
  apply Forall_cons in Hpass as [Ha Hpass]. apply wpa_bind. eapply wpa_mono; [|apply (dial_literal_wpa network (Unmap a) port all)]; try done.
  2: { exists a. split; [|done]. apply Hall. left. }
  2: { apply Hv in Ha. destruct a as [|z|z zone]; cbn in *; [done..|]. by destruct (z / 2 ^ 32 =? 0xffff). }
  intros tr [[conn|e]|b] [Htr Hmade]; cbn beta iota; [by apply wpa_ret| |done].
  apply wpa_egress. intros ended. assert (Hnext : Forall (pinned_to network port all) (tr ++ [Ev (E := egress_effects) ECtxErr (Val ended)])).
  { apply Forall_app. split; [done|]. by repeat constructor. }
  destruct ended; [apply wpa_ret; split; [done|]; by intros ? [=]|]. apply IH; [done| |done].
  intros b Hb. apply Hall. by right.
Qed.

Lemma parse_port_range s port : parse_port s = Some port -> 0 <= port <= 65535.
Proof.
  unfold parse_port. destruct (bool_decide (s = "")) eqn:E; [done|]. destruct (str_forallb is_digit s) eqn:Hd; [|done].
  cbn [orb negb]. destruct (Z.leb_spec (uint 0 s) 65535); [|done]. intros [= <-]. split; [|done].
  assert (Hn : forall acc s, 0 <= acc -> str_forallb is_digit s = true -> 0 <= uint acc s).
  { clear. intros acc s. revert acc. induction s as [|a s IH]; intros acc Ha; [done|]. cbn [str_forallb uint].
    intros [Hd Hs]%andb_true_iff. unfold is_digit, in_range in Hd. apply IH; [|done]. lia. }
  by apply Hn.
Qed.

(** The addresses a dial had to judge: the literal in the address, or what the resolver answered. *)
Definition judged (addr : string) (tr : list (event (E := egress_effects))) (addrs : list Addr) : Prop :=
  exists host port, SplitHostPort addr = Some (host, port)
    /\ (exists literal, ParseAddr host = Some literal /\ addrs = [literal]
        \/ ParseAddr host = None /\ Ev (E := egress_effects) (ELookup host) (Val (Ok addrs)) ∈ tr).

Definition pinned_dial (network addr : string) (tr : list (event (E := egress_effects))) (out : outcome (result egress_error handle)) : Prop :=
  made_by tr out
  /\ forall ev n a p, ev ∈ tr -> ev_eff ev = EConnect n a p ->
       exists addrs, judged addr tr addrs /\ Forall (fun b => egress b = None) addrs
         /\ egress a = None /\ exists b, b ∈ addrs /\ a = Unmap b.

(** What a walk ends with extends what it started from. *)
Lemma wpa_extends {A} acc (p : prog A) (Q : list (event (E := egress_effects)) -> outcome A -> Prop) :
  wpa acc p (fun tr out => (exists tr', tr = acc ++ tr') -> Q tr out) -> wpa acc p Q.
Proof. unfold wpa. apply wp_mono. intros tr out H. apply H. by exists tr. Qed.

Lemma dial_resolved_wpa network addr host portText port addrs acc : (forall b, egress b = None -> IsValid b = true) ->
  0 <= port <= 65535 -> SplitHostPort addr = Some (host, portText) ->
  (ParseAddr host = Some (default InvalidAddr (head addrs)) /\ length addrs = 1%nat
   \/ ParseAddr host = None /\ Ev (E := egress_effects) (ELookup host) (Val (Ok addrs)) ∈ acc) ->
  Forall (fun ev => forall n a p, ev_eff ev <> EConnect n a p) acc ->
  wpa acc (dial_resolved network host port addrs) (pinned_dial network addr).
Proof.
  intros Hv Hp Hs Hj Hacc. unfold dial_resolved. destruct (first_refused addrs) as [why|] eqn:Hf.
  - apply wpa_ret. split; [by intros ? [=]|]. intros ev n a p Hin He. rewrite Forall_forall in Hacc. by destruct (Hacc ev Hin n a p).
  - apply first_refused_None in Hf. apply wpa_extends. eapply wpa_mono; [|apply (try_addrs_wpa network port addrs addrs); try done].
    + intros tr out [Hpin Hmade] [tr' ->]. split; [done|]. intros ev n a p Hin He. exists addrs.
      rewrite Forall_forall in Hpin. specialize (Hpin ev Hin). unfold pinned_to in Hpin. rewrite He in Hpin.
      destruct Hpin as (_ & _ & Ha & Hb). split_and!; [|done|done|done]. exists host, portText. split; [done|].
      destruct Hj as [[Hl Hlen]|[Hn Hl]].
      * destruct addrs as [|b [|]]; [done| |done]. exists b. by left.
      * exists InvalidAddr. right. split; [done|]. apply elem_of_app. by left.
    + eapply Forall_impl; [exact Hacc|]. intros ev Hev. unfold pinned_to. destruct (ev_eff ev) eqn:He; try done.
      by destruct (Hev network0 a port0).
Qed.

Lemma dialPinned_pinned network addr tr out : (forall b, egress b = None -> IsValid b = true) ->
  runs (dialPinned network addr) tr out -> pinned_dial network addr tr out.
Proof.
  intros Hv. revert tr out. apply wpa_runs. unfold dialPinned.
  assert (Hno : forall acc e, Forall (fun ev : event (E := egress_effects) => forall n a p, ev_eff ev <> EConnect n a p) acc ->
    wpa acc (Ret (Err e)) (pinned_dial network addr)).
  { intros acc e Hacc. apply wpa_ret. split; [by intros ? [=]|]. intros ev n a p Hin He. rewrite Forall_forall in Hacc.
    by destruct (Hacc ev Hin n a p). }
  destruct (negb (is_tcp network)); [by apply Hno|]. destruct (SplitHostPort addr) as [[host portText]|] eqn:Hs; [|by apply Hno].
  destruct (parse_port portText) as [port|] eqn:Hp; [|by apply Hno]. apply parse_port_range in Hp.
  destruct (ParseAddr host) as [literal|] eqn:Hl.
  - apply (dial_resolved_wpa network addr host portText); try done. by left.
  - apply wpa_egress. intros [addrs|e]; [|apply Hno; by repeat constructor].
    destruct addrs as [|a addrs]; [apply Hno; by repeat constructor|].
    apply (dial_resolved_wpa network addr host portText); try done; [|by repeat constructor].
    right. split; [done|]. apply list_elem_of_here.
Qed.
End dial.

Section guarded.
Context `{AP : AddrParser}.

(** C18 [no_forbidden_connection]: a REST call reaches no address the policy refuses, whatever the
    resolver answers and whenever it changes its mind.  Every connection attempted is to an address
    that was judged in this same dial, as a literal: the one in the URL, or one of those the resolver
    answered; every address of that answer passed, so one refused address among them means no attempt
    at all; the address the socket uses passed again by itself; and a connection handed back is one of
    these attempts. *)
Theorem no_forbidden_connection network addr tr out :
  runs (dialPinned refuseAddr network addr) tr out ->
  (forall conn, out = Done (Ok conn) -> exists n a p, Ev (E := egress_effects) (EConnect n a p) (Val (Ok conn)) ∈ tr)
  /\ forall ev n a p, ev ∈ tr -> ev_eff ev = EConnect n a p ->
       refuseAddr a = None
       /\ exists addrs, judged addr tr addrs /\ Forall (fun b => refuseAddr b = None) addrs
          /\ exists b, b ∈ addrs /\ a = Unmap b.
Proof.
  intros Hr. apply dialPinned_pinned in Hr as [Hm Hc]; [|by intros []]. split; [done|].
  intros ev n a p Hin He. destruct (Hc ev n a p Hin He) as (addrs & ? & ? & ? & ?). split; [done|]. by exists addrs.
Qed.
End guarded.

(** ** A concrete dial: a name that answers with a public address, and one that adds the metadata endpoint *)

#[local] Instance Addr_countable : Countable Addr.
Proof.
  apply (inj_countable'
    (fun a => match a with InvalidAddr => inl tt | V4 z => inr (inl z) | V6 z zone => inr (inr (z, zone)) end)
    (fun x => match x with inl _ => InvalidAddr | inr (inl z) => V4 z | inr (inr (z, zone)) => V6 z zone end)).
  by intros [].
Defined.

Fixpoint bits (p : positive) : string :=
  match p with xH => "" | xO p => String "0" (bits p) | xI p => String "1" (bits p) end.
Fixpoint unbits (s : string) : positive :=
  match s with EmptyString => xH | String a s => if bool_decide (a = "0"%char) then xO (unbits s) else xI (unbits s) end.

Lemma unbits_bits p : unbits (bits p) = p.
Proof. induction p as [p IH|p IH|]; cbn [bits unbits]; [|rewrite bool_decide_true by done|done]; by rewrite ?IH. Qed.

Definition demo_parser : AddrParser.
Proof.
  refine {| ParseAddr := fun _ => None; AddrPortString := fun a p => bits (encode (a, p));
            ParseAddrPort := fun s => decode (unbits s) |}.
  intros a port _ _. by rewrite unbits_bits, decode_encode.
Defined.

Definition demo_resolver (addrs : list Addr) (e : egress_effect) : reply (egress_answer e) :=
  match e with
  | ELookup _ => Val (Ok addrs)
  | EConnect _ _ _ => Val (Ok 5)
  | ECtxErr => Val false
  end.

Definition demo_connect (addrs : list Addr) : list (event (E := egress_effects)) * outcome (result egress_error handle) :=
  exec (E := egress_effects) (demo_resolver addrs) (dialPinned (AP := demo_parser) refuseAddr "tcp" "api.example:443").

Definition public : Addr := V4 (ip4 93 184 216 34).

Lemma no_forbidden_connection_witness :
  (demo_connect [public]).2 = Done (Ok 5)
  /\ (exists n a p, Ev (E := egress_effects) (EConnect n a p) (Val (Ok 5)) ∈ (demo_connect [public]).1)
  /\ (demo_connect [public; metadata]).2 = Done (Err (ErrEgressRefused "api.example" RLinkLocal))
  /\ length (demo_connect [public; metadata]).1 = 1%nat.
Proof.
  pose proof (exec_runs (E := egress_effects) (demo_resolver [public])
    (dialPinned (AP := demo_parser) refuseAddr "tcp" "api.example:443") ltac:(by intros [])) as Hr.
  split; [vm_compute; reflexivity|]. split; [|split; vm_compute; reflexivity].
  apply (proj1 (@no_forbidden_connection demo_parser "tcp" "api.example:443" _ _ Hr)). vm_compute. reflexivity.
Defined.
