(* ===== verification/RestOperations.v ===== *)
(** * The operations of a REST upstream ([internal/gateway/resthttp/operation.go])

    An operation, its class, the path templates, and [Validate]: every rule an operation set is held to
    before an http entry is served, in the code's order and with its own error. *)
From Stdlib Require Import ZArith Lia Ascii.
From stdpp Require Import base strings list.
From S2P Require Import Prelude.
From S2P Require Import GoStrings.
From S2P Require Import GoTime.
From S2P Require Import Json.
From S2P Require Import Registry.
From S2P Require Import Quarantine.
From S2P Require Import JsonStrings.
From S2P Require Import GatewayTypes.
From S2P Require Import ToolSchema.
From S2P Require Import ChildEnv.

Definition PrefixPath : string := "path_".
Definition PrefixQuery : string := "query_".
Definition PrefixHeader : string := "header_".
Definition PrefixCookie : string := "cookie_".
Definition BodyProperty : string := "body".

Definition authorizationHeader : string := "authorization".
Definition maxPathLen : Z := 2048.

(** A schema is its text; [""] for one that is absent. *)
Record Operation := {
  OpName : string; OpDescription : string; Method : string; OpPath : string; OpInput : string; OpOutput : string
}.

Definition ClassOf (method : string) : string :=
  if bool_decide (method ∈ ["GET"; "HEAD"; "OPTIONS"]) then ClassSafe else ClassSensitive.

Definition ValidMethod (method : string) : bool :=
  bool_decide (method ∈ ["GET"; "HEAD"; "OPTIONS"; "POST"; "PUT"; "PATCH"; "DELETE"]).

Definition op_ToolDef (op : Operation) : ToolDef :=
  {| DName := OpName op; DDescription := OpDescription op; DInputSchema := OpInput op; DOutputSchema := OpOutput op;
     SecurityClass := ClassOf (Method op) |}.

(** [tokenChars] is the registry's grammar of a name. *)
Definition ValidToken (name : string) : bool := authNameChars name.

Definition controlHeaders : list string :=
  ["host"; "content-length"; "transfer-encoding"; "connection"; "upgrade"; "te"; "trailer"; "keep-alive";
   "authorization"; "cookie"].

Definition foldHeader (name : string) : string := str_map (fun a => if bz a =? 95 then "-"%char else a) (to_lower name).

Definition IsControlHeader (name : string) : bool :=
  bool_decide (foldHeader name ∈ controlHeaders) || has_prefix (foldHeader name) "proxy-".

(** ** Path templates *)

Inductive path_error :=
| PathEmpty | PathTooLong | PathNotRooted | PathEmptySegment | PathUnterminated | PathNested | PathTemplateName (name : string)
| PathTemplateTwice (name : string) | PathStrayBrace | PathQueryOrFragment | PathEscape_ | PathByte (c : ascii)
| PathDotSegment (seg : string).

#[global] Instance path_error_eq_dec : EqDecision path_error.
Proof. solve_decision. Defined.

(** [^[A-Za-z0-9_.-]+$]. *)
Definition templateNameChars (s : string) : bool :=
  negb (bool_decide (s = "")) && str_forallb (fun a => is_alnum a || bool_decide (a ∈ ["_"%char; "."%char; "-"%char])) s.

Definition isPathChar (a : ascii) : bool :=
  is_alnum a || contains_byte "-._~!$&'()*+,;=:@/" a.

(** The scan; a template and its braces are one step, so the text's length bounds the steps. *)
Fixpoint scan_path (fuel : nat) (s : string) (names : list string) : result path_error (list string) :=
  match fuel, s with
  | _, EmptyString => Ok names
  | O, _ => Ok names
  | S fuel, String c rest =>
      if bool_decide (c = "{"%char) then
        match cut rest "}" with
        | None => Err PathUnterminated
        | Some (name, after) =>
            if contains_byte name "{" || contains_byte name "/" then Err PathNested
            else if negb (templateNameChars name) then Err (PathTemplateName name)
            else if bool_decide (name ∈ names) then Err (PathTemplateTwice name)
            else scan_path fuel after (names ++ [name])
        end
      else if bool_decide (c = "}"%char) then Err PathStrayBrace
      else if bool_decide (c = "?"%char) || bool_decide (c = "#"%char) then Err PathQueryOrFragment
      else if bool_decide (c = "%"%char) then Err PathEscape_
      else if negb (isPathChar c) then Err (PathByte c)
      else scan_path fuel rest names
  end.

(** [strings.Split] at a byte. *)
Fixpoint split_on (sep : ascii) (s : string) : list string :=
  match s with
  | EmptyString => [""]
  | String a s' =>
      if bool_decide (a = sep) then "" :: split_on sep s'
      else match split_on sep s' with h :: t => String a h :: t | [] => [String a ""] end
  end.

(** The part of a segment before its first [;]. *)
Definition segment_head (seg : string) : string := match cut seg ";" with Some (head, _) => head | None => seg end.

Definition dot_segment (seg : string) : bool := bool_decide (segment_head seg = ".") || bool_decide (segment_head seg = "..").

Definition ParsePath (path : string) : result path_error (list string) :=
  if bool_decide (path = "") then Err PathEmpty
  else if maxPathLen <? blen path then Err PathTooLong
  else if negb (has_prefix path "/") then Err PathNotRooted
  else if str_contains path "//" then Err PathEmptySegment
  else
    names <-? scan_path (String.length path) path [];;
    match List.find dot_segment (split_on "/" (str_drop 1 path)) with
    | Some seg => Err (PathDotSegment seg)
    | None => Ok names
    end.

Example path_ex : ParsePath "/v1/{id}/x.{f}" = Ok ["id"; "f"] /\ ParsePath "/a/..;x/b" = Err (PathDotSegment "..;x")
  /\ ParsePath "//h" = Err PathEmptySegment /\ ParsePath "/a%2f" = Err PathEscape_ /\ ParsePath "/{a}{a}" = Err (PathTemplateTwice "a").
Proof. vm_compute. done. Qed.

(** ** JSON documents: a [json.Decoder] on one value *)

(** The first value of a text and what follows it. *)
Definition decode_first (raw : string) : option (json * string) :=
  value (S (String.length raw)) maxNestingDepth raw.

(** [dec.More()] after it: a closing bracket does not count as more. *)
Definition more (rest : string) : bool :=
  match skip_space rest with
  | EmptyString => false
  | String a _ => negb (bool_decide (a = "]"%char)) && negb (bool_decide (a = "}"%char))
  end.

Inductive document_error := DocMissing | DocInvalid | DocTrailing | DocNotObject.

Definition decodeObject (raw : string) : result document_error (list (string * json)) :=
  if bool_decide (raw = "") then Err DocMissing
  else match decode_first raw with
  | None => Err DocInvalid
  | Some (v, rest) =>
      if more rest then Err DocTrailing
      else match v with JObj members => Ok members | _ => Err DocNotObject end
  end.

(** A Go map's keys, sorted. *)
Definition object_keys (members : list (string * json)) : list string :=
  sort_strings (dedup (map (fun m => unquote m.1) members)).

(** ** Validation *)

Inductive schema_fault :=
| InputDocument (e : document_error)
| InputNotObjectType | PropertiesNotObject | RequiredNotArray | RequiredNotName | RequiredUndeclared (name : string)
| PropertyNotObject (key : string)
| BodyOnSafe (method : string)
| EmptyParameter (key : string) | QueryBytes (key : string) | QueryReserved (key : string)
| HeaderToken (key : string) | HeaderControl (key : string) | HeaderReserved (key : string) | HeaderRepeated (key : string)
| CookieToken (key : string) | CookieRepeated (key : string)
| OutsideVocabulary (key : string)
| TemplateUnfilled (name : string) | ParameterUnused.

Inductive operations_error :=
| KeylessWithName (name : string) | BearerWithName (name : string) | AuthNameToken (name : string)
| AuthNameControl (name : string) | AuthKindUnknown (kind : string)
| NoOperation
| OpNameIllegal (name : string) | OpNameTwice (name : string) | OpMethod (name method : string)
| OpPathFault (name : string) (e : path_error)
| OpSchemaFault (name : string) (e : schema_fault)
| OpOutputFault (name : string) (e : document_error).

(** The header, folded, and the query parameter, lower-cased, that the credential goes to. *)
Definition reservedSlots (authKind authName : string) : result operations_error (string * string) :=
  if bool_decide (authKind = AuthNone) then
    if bool_decide (authName = "") then Ok ("", "") else Err (KeylessWithName authName)
  else if bool_decide (authKind = AuthBearer) then
    if bool_decide (authName = "") then Ok (authorizationHeader, "") else Err (BearerWithName authName)
  else if bool_decide (authKind = AuthHeader) || bool_decide (authKind = AuthQuery) then
    if negb (ValidToken authName) then Err (AuthNameToken authName)
    else if bool_decide (authKind = AuthHeader) then
      if IsControlHeader authName && negb (bool_decide (foldHeader authName = authorizationHeader))
      then Err (AuthNameControl authName)
      else Ok (foldHeader authName, "")
    else Ok ("", to_lower authName)
  else Err (AuthKindUnknown authKind).

Definition isPrintableASCII (s : string) : bool := str_forallb (fun a => (32 <? bz a) && (bz a <? 127)) s.

(** What the loop over the properties has met: the path parameters, the headers folded, the cookies lower-cased. *)
Record met := { m_path : list string; m_headers : list string; m_cookies : list string }.

Section input.
Variables (method reservedHeader reservedQuery : string) (props : list (string * json)).

Definition check_property (key : string) (st : met) : result schema_fault met :=
  match member_value props key with
  | Some (JObj _) =>
      if bool_decide (key = BodyProperty) then
        if bool_decide (ClassOf method = ClassSafe) then Err (BodyOnSafe method) else Ok st
      else match cut_prefix key PrefixPath with
      | Some name =>
          if bool_decide (name = "") then Err (EmptyParameter key)
          else Ok {| m_path := name :: m_path st; m_headers := m_headers st; m_cookies := m_cookies st |}
      | None =>
      match cut_prefix key PrefixQuery with
      | Some name =>
          if bool_decide (name = "") then Err (EmptyParameter key)
          else if negb (isPrintableASCII name) then Err (QueryBytes key)
          else if negb (bool_decide (reservedQuery = "")) && bool_decide (to_lower name = reservedQuery) then Err (QueryReserved key)
          else Ok st
      | None =>
      match cut_prefix key PrefixHeader with
      | Some name =>
          if negb (ValidToken name) then Err (HeaderToken key)
          else if IsControlHeader name then Err (HeaderControl key)
          else if negb (bool_decide (reservedHeader = "")) && bool_decide (foldHeader name = reservedHeader) then Err (HeaderReserved key)
          else if bool_decide (foldHeader name ∈ m_headers st) then Err (HeaderRepeated key)
          else Ok {| m_path := m_path st; m_headers := foldHeader name :: m_headers st; m_cookies := m_cookies st |}
      | None =>
      match cut_prefix key PrefixCookie with
      | Some name =>
          if negb (ValidToken name) then Err (CookieToken key)
          else if bool_decide (to_lower name ∈ m_cookies st) then Err (CookieRepeated key)
          else Ok {| m_path := m_path st; m_headers := m_headers st; m_cookies := to_lower name :: m_cookies st |}
      | None => Err (OutsideVocabulary key)
      end end end end
  | _ => Err (PropertyNotObject key)
  end.

Fixpoint check_properties (keys : list string) (st : met) : result schema_fault met :=
  match keys with
  | [] => Ok st
  | key :: rest => st <-? check_property key st;; check_properties rest st
  end.

Fixpoint check_required (items : list json) : option schema_fault :=
  match items with
  | [] => None
  | JStr s :: rest =>
      match member_value props (unquote s) with
      | Some _ => check_required rest
      | None => Some (RequiredUndeclared (unquote s))
      end
  | _ :: _ => Some RequiredNotName
  end.
End input.

Definition schema_properties (schema : list (string * json)) : result schema_fault (list (string * json)) :=
  match member_value schema "properties" with
  | None => Ok []
  | Some (JObj props) => Ok props
  | Some _ => Err PropertiesNotObject
  end.

Definition validateInputSchema (op : Operation) (templates : list string) (reservedHeader reservedQuery : string)
  : option schema_fault :=
  match decodeObject (OpInput op) with
  | Err e => Some (InputDocument e)
  | Ok schema =>
      if negb (match member_value schema "type" with Some (JStr s) => bool_decide (unquote s = "object") | _ => false end)
      then Some InputNotObjectType
      else match schema_properties schema with
      | Err e => Some e
      | Ok props =>
          match match member_value schema "required" with
                | None => None
                | Some (JArr items) => check_required props items
                | Some _ => Some RequiredNotArray
                end with
          | Some e => Some e
          | None =>
              match check_properties (Method op) reservedHeader reservedQuery props (object_keys props)
                      {| m_path := []; m_headers := []; m_cookies := [] |} with
              | Err e => Some e
              | Ok st =>
                  match List.find (fun name => negb (bool_decide (name ∈ m_path st))) templates with
                  | Some name => Some (TemplateUnfilled name)
                  | None => if forallb (fun name => bool_decide (name ∈ templates)) (m_path st) then None else Some ParameterUnused
                  end
              end
          end
      end
  end.

Fixpoint validate_each (reservedHeader reservedQuery : string) (ops : list Operation) (names : list string)
  : option operations_error :=
  match ops with
  | [] => None
  | op :: rest =>
      if negb (ValidToolName (OpName op)) then Some (OpNameIllegal (OpName op))
      else if bool_decide (OpName op ∈ names) then Some (OpNameTwice (OpName op))
      else if negb (ValidMethod (Method op)) then Some (OpMethod (OpName op) (Method op))
      else match ParsePath (OpPath op) with
      | Err e => Some (OpPathFault (OpName op) e)
      | Ok templates =>
          match validateInputSchema op templates reservedHeader reservedQuery with
          | Some e => Some (OpSchemaFault (OpName op) e)
          | None =>
              match (if bool_decide (OpOutput op = "") then Ok [] else decodeObject (OpOutput op)) with
              | Err e => Some (OpOutputFault (OpName op) e)
              | Ok _ => validate_each reservedHeader reservedQuery rest (OpName op :: names)
              end
          end
      end
  end.

Definition ops_Validate (ops : list Operation) (authKind authName : string) : option operations_error :=
  match reservedSlots authKind authName with
  | Err e => Some e
  | Ok (reservedHeader, reservedQuery) =>
      match ops with [] => Some NoOperation | _ => validate_each reservedHeader reservedQuery ops [] end
  end.

(** ** The contract of an operation set *)

(** The parameters of one location, by the names of the properties. *)
Definition parameters (prefix : string) (keys : list string) : list string := omap (fun key => cut_prefix key prefix) keys.

Definition placed (method reservedHeader reservedQuery key : string) : Prop :=
  key = BodyProperty /\ ClassOf method <> ClassSafe
  \/ (exists n, key = PrefixPath +:+ n /\ n <> "")
  \/ (exists n, key = PrefixQuery +:+ n /\ n <> "" /\ isPrintableASCII n = true
       /\ (reservedQuery = "" \/ to_lower n <> reservedQuery))
  \/ (exists n, key = PrefixHeader +:+ n /\ ValidToken n = true /\ IsControlHeader n = false
       /\ (reservedHeader = "" \/ foldHeader n <> reservedHeader))
  \/ (exists n, key = PrefixCookie +:+ n /\ ValidToken n = true).

Definition an_object (v : option json) : Prop := exists members, v = Some (JObj members).

Record properties_ok (method reservedHeader reservedQuery : string) (props : list (string * json)) (templates : list string) : Prop := {
  po_placed : forall key, key ∈ object_keys props ->
    an_object (member_value props key) /\ placed method reservedHeader reservedQuery key;
  po_headers : NoDup (map foldHeader (parameters PrefixHeader (object_keys props)));
  po_cookies : NoDup (map to_lower (parameters PrefixCookie (object_keys props)));
  po_path : forall n, n ∈ templates <-> n ∈ parameters PrefixPath (object_keys props)
}.

Definition required_ok (schema props : list (string * json)) : Prop :=
  forall v, member_value schema "required" = Some v ->
    exists items, v = JArr items /\ Forall (fun i => exists s, i = JStr s /\ is_Some (member_value props (unquote s))) items.

Definition properties_of (schema props : list (string * json)) : Prop :=
  member_value schema "properties" = None /\ props = [] \/ member_value schema "properties" = Some (JObj props).

Definition input_ok (op : Operation) (templates : list string) (reservedHeader reservedQuery : string) : Prop :=
  exists schema props, decodeObject (OpInput op) = Ok schema
    /\ (exists s, member_value schema "type" = Some (JStr s) /\ unquote s = "object")
    /\ properties_of schema props /\ required_ok schema props
    /\ properties_ok (Method op) reservedHeader reservedQuery props templates.

Record operation_ok (reservedHeader reservedQuery : string) (op : Operation) : Prop := {
  oo_name : ValidToolName (OpName op) = true;
  oo_method : ValidMethod (Method op) = true;
  oo_input : exists templates, ParsePath (OpPath op) = Ok templates /\ input_ok op templates reservedHeader reservedQuery;
  oo_output : OpOutput op <> "" -> exists members, decodeObject (OpOutput op) = Ok members
}.

Lemma cut_prefix_app p n : cut_prefix (p +:+ n) p = Some n.
Proof. by apply cut_prefix_spec. Qed.

Lemma parameters_cons prefix key keys :
  parameters prefix (key :: keys) = option_list (cut_prefix key prefix) ++ parameters prefix keys.
Proof. unfold parameters. cbn [omap list_omap]. by destruct (cut_prefix key prefix). Qed.

Section property.
Variables (method reservedHeader reservedQuery : string) (props : list (string * json)).

(** What the properties met so far leave open for this one. *)
Definition fresh_property (key : string) (st : met) : Prop :=
  (forall n, cut_prefix key PrefixHeader = Some n -> foldHeader n ∉ m_headers st)
  /\ (forall n, cut_prefix key PrefixCookie = Some n -> to_lower n ∉ m_cookies st).

Definition add_property (key : string) (st : met) : met :=
  {| m_path := option_list (cut_prefix key PrefixPath) ++ m_path st;
     m_headers := map foldHeader (option_list (cut_prefix key PrefixHeader)) ++ m_headers st;
     m_cookies := map to_lower (option_list (cut_prefix key PrefixCookie)) ++ m_cookies st |}.

Lemma not_reserved (reserved x : string) :
  negb (bool_decide (reserved = "")) && bool_decide (x = reserved) = false <-> reserved = "" \/ x <> reserved.
Proof. repeat case_bool_decide; naive_solver. Qed.

Lemma check_property_accepts key st st' :
  check_property method reservedHeader reservedQuery props key st = Ok st' ->
  an_object (member_value props key) /\ placed method reservedHeader reservedQuery key
  /\ fresh_property key st /\ st' = add_property key st.
Proof.
  unfold check_property, an_object, placed, fresh_property, add_property.
  destruct (member_value props key) as [[]|]; try done.
  intros H. split; [by eexists|]. case_bool_decide as Hb.
  { subst key. case_bool_decide; [done|]. injection H as <-. split_and!; [by left|done|done|by destruct st]. }
  destruct (cut_prefix key PrefixPath) as [n|] eqn:Hp.
  { apply cut_prefix_spec in Hp as ->. case_bool_decide; [done|]. injection H as <-.
    split_and!; [right; left; by exists n|done|done|by destruct st]. }
  destruct (cut_prefix key PrefixQuery) as [n|] eqn:Hq.
  { apply cut_prefix_spec in Hq as ->. case_bool_decide; [done|]. destruct (isPrintableASCII n) eqn:Hpr; [|done].
    destruct (negb _ && _) eqn:Hr; [done|]. apply not_reserved in Hr. injection H as <-. split_and!; [|done|done|by destruct st].
    right; right; left. exists n. split_and!; done. }
  destruct (cut_prefix key PrefixHeader) as [n|] eqn:Hh.
  { apply cut_prefix_spec in Hh as ->. destruct (ValidToken n) eqn:Hv; [|done]. destruct (IsControlHeader n) eqn:Hc; [done|].
    cbn [negb] in H. destruct (negb _ && _) eqn:Hr; [done|]. apply not_reserved in Hr. case_bool_decide as Hd; [done|]. injection H as <-.
    split_and!; [|by intros ? [= <-]|done|by destruct st].
    right; right; right; left. exists n. split_and!; done. }
  destruct (cut_prefix key PrefixCookie) as [n|] eqn:Hc; [|done].
  apply cut_prefix_spec in Hc as ->. destruct (ValidToken n) eqn:Hv; [|done]. cbn [negb] in H.
  case_bool_decide as Hd; [done|]. injection H as <-. split_and!; [|done|by intros ? [= <-]|by destruct st].
  do 4 right. by exists n.
Qed.

Lemma check_property_placed key st :
  an_object (member_value props key) -> placed method reservedHeader reservedQuery key -> fresh_property key st ->
  check_property method reservedHeader reservedQuery props key st = Ok (add_property key st).
Proof.
  unfold check_property, add_property. intros [members ->] Hplaced [Hh Hk].
  destruct Hplaced as [[-> Hc]|[(n & -> & Hn)|[(n & -> & Hn & Hp & Hr)|[(n & -> & Hv & Hc & Hr)|(n & -> & Hv)]]]].
  - rewrite bool_decide_true, bool_decide_false by done. by destruct st.
  - rewrite bool_decide_false, cut_prefix_app, bool_decide_false by done. by destruct st.
  - rewrite bool_decide_false by done. change (cut_prefix (PrefixQuery +:+ n) PrefixPath) with (@None string).
    rewrite cut_prefix_app, bool_decide_false, Hp by done. cbn [negb].
    apply not_reserved in Hr as ->.
    by destruct st.
  - rewrite bool_decide_false by done. change (cut_prefix (PrefixHeader +:+ n) PrefixPath) with (@None string).
    change (cut_prefix (PrefixHeader +:+ n) PrefixQuery) with (@None string). rewrite cut_prefix_app, Hv, Hc in *. cbn [negb].
    apply not_reserved in Hr as ->.
    rewrite bool_decide_false by (by apply Hh). by destruct st.
  - rewrite bool_decide_false by done. change (cut_prefix (PrefixCookie +:+ n) PrefixPath) with (@None string).
    change (cut_prefix (PrefixCookie +:+ n) PrefixQuery) with (@None string).
    change (cut_prefix (PrefixCookie +:+ n) PrefixHeader) with (@None string). rewrite cut_prefix_app, Hv in *. cbn [negb].
    rewrite bool_decide_false by (by apply Hk). by destruct st.
Qed.

(** The step of the loop, as what it adds to what has been met. *)
Lemma check_property_Ok key st st' :
  check_property method reservedHeader reservedQuery props key st = Ok st' <->
  an_object (member_value props key) /\ placed method reservedHeader reservedQuery key
  /\ fresh_property key st /\ st' = add_property key st.
Proof.
  split; [apply check_property_accepts|]. intros (Ho & Hp & Hf & ->). by apply check_property_placed.
Qed.

(** Pairwise distinct, and none met before. *)
Definition new_among (l seen : list string) : Prop := NoDup l /\ forall x, x ∈ l -> x ∉ seen.

Lemma new_among_cons (o : option string) l seen :
  new_among (option_list o ++ l) seen <-> (forall x, o = Some x -> x ∉ seen) /\ new_among l (option_list o ++ seen).
Proof.
  unfold new_among. destruct o as [x|]; unfold option_list; simpl; [|naive_solver].
  rewrite (NoDup_cons x l). split.
  - intros [[Hx Hn] Hs]. split; [intros ? [= <-]; apply Hs; by left|]. split; [done|].
    intros y Hy [-> |Hseen]%elem_of_cons; [done|]. eapply Hs; [by right|done].
  - intros [Hx [Hn Hs]]. split; [split; [|done]|].
    + intros Hin. by apply (Hs x Hin); left.
    + intros y [-> |Hy]%elem_of_cons; [by apply Hx|]. intros Hseen. by apply (Hs y Hy); right.
Qed.

Lemma map_option_list {A B} (f : A -> B) (o : option A) : map f (option_list o) = option_list (f <$> o).
Proof. by destruct o. Qed.

Lemma check_properties_Ok keys st st' :
  check_properties method reservedHeader reservedQuery props keys st = Ok st' <->
  Forall (fun key => an_object (member_value props key) /\ placed method reservedHeader reservedQuery key) keys
  /\ new_among (map foldHeader (parameters PrefixHeader keys)) (m_headers st)
  /\ new_among (map to_lower (parameters PrefixCookie keys)) (m_cookies st)
  /\ st' = foldl (fun st key => add_property key st) st keys.
Proof.
  revert st. induction keys as [|key keys IH]; intros st; cbn [check_properties foldl].
  { split; [intros [= ->]|by intros (_ & _ & _ & ->)]. split_and!; try done; split; try constructor; by intros ? ?%not_elem_of_nil. }
  rewrite !parameters_cons, !map_app, !map_option_list, !new_among_cons, Forall_cons.
  assert (Hf : fresh_property key st <->
    (forall x, foldHeader <$> cut_prefix key PrefixHeader = Some x -> x ∉ m_headers st)
    /\ (forall x, to_lower <$> cut_prefix key PrefixCookie = Some x -> x ∉ m_cookies st)).
  { unfold fresh_property. destruct (cut_prefix key PrefixHeader), (cut_prefix key PrefixCookie); cbn; naive_solver. }
  split.
  - intros (st1 & (Ho & Hp & Hfr & ->)%check_property_Ok & Hr)%rbind_Ok_inv. apply IH in Hr as (Hall & Hh & Hc & ->).
    apply Hf in Hfr as [Hfh Hfc]. unfold add_property in Hh, Hc. cbn in Hh, Hc. rewrite map_option_list in Hh, Hc. done.
  - intros ([[Ho Hp] Hall] & [Hfh Hh] & [Hfc Hc] & ->).
    rewrite (check_property_placed key st Ho Hp (proj2 Hf (conj Hfh Hfc))). cbn [rbind]. apply IH.
    unfold add_property. cbn. by rewrite !map_option_list.
Qed.

Lemma met_path keys st n : n ∈ m_path (foldl (fun st key => add_property key st) st keys) <->
  n ∈ parameters PrefixPath keys \/ n ∈ m_path st.
Proof.
  revert st. induction keys as [|key keys IH]; intros st; cbn [foldl].
  - unfold parameters. cbn. rewrite elem_of_nil. naive_solver.
  - rewrite IH, parameters_cons. unfold add_property. cbn [m_path]. rewrite !elem_of_app. naive_solver.
Qed.

Lemma check_required_None items : check_required props items = None <->
  Forall (fun i => exists s, i = JStr s /\ is_Some (member_value props (unquote s))) items.
Proof.
  induction items as [|i items IH]; cbn [check_required]; [by split|]. rewrite Forall_cons.
  destruct i as [| | |s| |]; try (split; [done|by intros [(? & [=] & _) _]]).
  destruct (member_value props (unquote s)) as [v|] eqn:Hm.
  - rewrite IH. split; [|by intros [_ ?]]. intros H. split; [|done]. exists s. by rewrite Hm.
  - split; [done|]. intros [(s' & [= <-] & [v Hv]) _]. congruence.
Qed.
End property.

Lemma new_among_nil l : new_among l [] <-> NoDup l.
Proof. unfold new_among. split; [by intros [? _]|]. intros H. split; [done|]. by intros ? _ ?%not_elem_of_nil. Qed.

Lemma find_None {A} (f : A -> bool) l : List.find f l = None <-> Forall (fun x => f x = false) l.
Proof.
  induction l as [|x l IH]; cbn; [by split|]. rewrite Forall_cons. destruct (f x); [naive_solver|]. rewrite IH. naive_solver.
Qed.

Lemma forallb_Forall {A} (f : A -> bool) l : forallb f l = true <-> Forall (fun x => f x = true) l.
Proof. induction l as [|x l IH]; cbn; [by split|]. by rewrite Forall_cons, andb_true_iff, IH. Qed.

Lemma properties_checked method rh rq props templates :
  properties_ok method rh rq props templates <->
  exists st, check_properties method rh rq props (object_keys props) {| m_path := []; m_headers := []; m_cookies := [] |} = Ok st
    /\ List.find (fun name => negb (bool_decide (name ∈ m_path st))) templates = None
    /\ forallb (fun name => bool_decide (name ∈ templates)) (m_path st) = true.
Proof.
  setoid_rewrite check_properties_Ok. cbn [m_headers m_cookies].
  assert (Hp : forall st n, st = foldl (fun st key => add_property key st) {| m_path := []; m_headers := []; m_cookies := [] |}
      (object_keys props) -> n ∈ m_path st <-> n ∈ parameters PrefixPath (object_keys props)).
  { intros st n ->. rewrite met_path. cbn [m_path]. rewrite elem_of_nil. naive_solver. }
  setoid_rewrite find_None. setoid_rewrite forallb_Forall. setoid_rewrite Forall_forall. setoid_rewrite negb_false_iff.
  setoid_rewrite bool_decide_eq_true. setoid_rewrite new_among_nil. split.
  - intros [Hpl Hh Hc Hpa]. eexists. split_and!; [done|done|done|reflexivity| |].
    + intros n Hn. by apply (Hp _ n eq_refl), Hpa.
    + intros n Hn. by apply Hpa, (Hp _ n eq_refl).
  - intros (st & (Hpl & Hh & Hc & Hst) & Ht & Hu). split; try done. intros n. rewrite <- (Hp st n Hst). naive_solver.
Qed.

Lemma schema_properties_Ok schema props : schema_properties schema = Ok props <-> properties_of schema props.
Proof.
  unfold schema_properties, properties_of. destruct (member_value schema "properties") as [[]|]; naive_solver.
Qed.

Lemma validateInputSchema_None op templates rh rq :
  validateInputSchema op templates rh rq = None <-> input_ok op templates rh rq.
Proof.
  unfold validateInputSchema, input_ok. destruct (decodeObject (OpInput op)) as [schema|e].
  2: { split; [done|]. by intros (? & ? & [=] & _). }
  assert (Hty : match member_value schema "type" with Some (JStr s) => bool_decide (unquote s = "object") | _ => false end = true
    <-> exists s, member_value schema "type" = Some (JStr s) /\ unquote s = "object").
  { destruct (member_value schema "type") as [[]|]; try (split; [done|by intros (? & [=] & _)]).
    rewrite bool_decide_eq_true. naive_solver. }
  assert (Hreq : forall props, match member_value schema "required" with
      | None => None | Some (JArr items) => check_required props items | Some _ => Some RequiredNotArray end = None
    <-> required_ok schema props).
  { intros props. unfold required_ok. destruct (member_value schema "required") as [[]|];
      try (split; [done|intros H; by destruct (H _ eq_refl) as (? & [=] & _)]); [|split; [by intros _ ? [=]|done]].
    rewrite check_required_None. split; [intros H v [= <-]; eauto|]. intros H. by destruct (H _ eq_refl) as (? & [= <-] & ?). }
  destruct (match member_value schema "type" with Some (JStr s) => _ | _ => false end) eqn:Ht; cbn [negb].
  2: { split; [done|]. intros (? & ? & [= <-] & Hs & _). apply Hty in Hs. done. }
  destruct (schema_properties schema) as [props|e] eqn:Hp.
  2: { split; [done|]. intros (? & ? & [= <-] & _ & Hs%schema_properties_Ok & _). congruence. }
  specialize (Hreq props). destruct (match member_value schema "required" with Some (JArr _) => _ | Some _ => _ | None => _ end) eqn:Hr.
  { split; [done|]. intros (? & ? & [= <-] & _ & Hs%schema_properties_Ok & Hq & _). rewrite Hp in Hs. injection Hs as <-.
    by apply Hreq in Hq. }
  transitivity (properties_ok (Method op) rh rq props templates).
  - rewrite properties_checked. destruct (check_properties _ _ _ _ _ _) as [st|e]; [|split; [done|by intros (? & [=] & _)]].
    destruct (List.find _ templates) eqn:Hf; [split; [done|]; intros (? & [= <-] & ? & _); congruence|].
    destruct (forallb _ (m_path st)) eqn:Hu; [split; [|done]; intros _; by exists st|].
    split; [done|]. intros (? & [= <-] & _ & ?). congruence.
  - split.
    + intros H. exists schema, props. split_and!; [done|by apply Hty|by apply schema_properties_Ok|by apply Hreq|done].
    + intros (? & ? & [= <-] & _ & Hs%schema_properties_Ok & _ & H). rewrite Hp in Hs. by injection Hs as <-.
Qed.

Lemma validate_each_None rh rq ops names :
  validate_each rh rq ops names = None <-> Forall (operation_ok rh rq) ops /\ new_among (map OpName ops) names.
Proof.
  revert names. induction ops as [|op ops IH]; intros names; cbn [validate_each map].
  { split; [intros _; split; [done|]|done]. split; [constructor|]. by intros ? ?%not_elem_of_nil. }
  assert (Hop : operation_ok rh rq op <-> ValidToolName (OpName op) = true /\ ValidMethod (Method op) = true
    /\ (exists templates, ParsePath (OpPath op) = Ok templates /\ validateInputSchema op templates rh rq = None)
    /\ exists members, (if bool_decide (OpOutput op = "") then Ok [] else decodeObject (OpOutput op)) = Ok members).
  { setoid_rewrite validateInputSchema_None. split.
    - intros [Hn Hm Hi Ho]. split_and!; [done..|]. case_bool_decide; [by eexists|]. by apply Ho.
    - intros (Hn & Hm & Hi & members & Ho). split; try done. intros Hne. rewrite bool_decide_false in Ho by done. eauto. }
  change (OpName op :: map OpName ops) with (option_list (Some (OpName op)) ++ map OpName ops).
  rewrite Forall_cons, new_among_cons, Hop. cbn [option_list app].
  destruct (ValidToolName (OpName op)); [cbn [negb]|naive_solver].
  destruct (bool_decide_reflect (OpName op ∈ names)) as [Hin|Hin]; [split; [done|]; intros (_ & Hf & _); by destruct (Hf _ eq_refl)|].
  destruct (ValidMethod (Method op)); [cbn [negb]|naive_solver].
  destruct (ParsePath (OpPath op)) as [templates|e]; [|naive_solver].
  destruct (validateInputSchema op templates rh rq) eqn:Hv; [naive_solver|].
  destruct (if bool_decide (OpOutput op = "") then _ else _) as [members|e]; [|naive_solver].
  rewrite IH. split; [|naive_solver]. intros [Hall Hnew]. split_and!; try done; [by exists templates|by eexists|by intros ? [= <-]].
Qed.

(** The descriptor, and the two slots it reserves. *)
Definition descriptor_ok (authKind authName reservedHeader reservedQuery : string) : Prop :=
  authKind = AuthNone /\ authName = "" /\ reservedHeader = "" /\ reservedQuery = ""
  \/ authKind = AuthBearer /\ authName = "" /\ reservedHeader = authorizationHeader /\ reservedQuery = ""
  \/ authKind = AuthHeader /\ ValidToken authName = true
     /\ (IsControlHeader authName = false \/ foldHeader authName = authorizationHeader)
     /\ reservedHeader = foldHeader authName /\ reservedQuery = ""
  \/ authKind = AuthQuery /\ ValidToken authName = true /\ reservedHeader = "" /\ reservedQuery = to_lower authName.

Lemma reservedSlots_Ok authKind authName rh rq :
  reservedSlots authKind authName = Ok (rh, rq) <-> descriptor_ok authKind authName rh rq.
Proof.
  unfold reservedSlots, descriptor_ok.
  destruct (decide (authKind = AuthNone)) as [-> |H1].
  { rewrite bool_decide_true by done. case_bool_decide; unfold AuthNone, AuthBearer, AuthHeader, AuthQuery; naive_solver. }
  rewrite bool_decide_false by done. destruct (decide (authKind = AuthBearer)) as [-> |H2].
  { rewrite bool_decide_true by done. case_bool_decide; unfold AuthNone, AuthBearer, AuthHeader, AuthQuery; naive_solver. }
  rewrite bool_decide_false by done. destruct (decide (authKind = AuthHeader)) as [-> |H3].
  { rewrite !bool_decide_true by done. cbn [orb]. destruct (ValidToken authName); [cbn [negb]|naive_solver].
    destruct (IsControlHeader authName), (bool_decide_reflect (foldHeader authName = authorizationHeader)); cbn [negb andb];
      unfold AuthNone, AuthBearer, AuthHeader, AuthQuery; naive_solver. }
  rewrite (bool_decide_false (authKind = AuthHeader)) by done. destruct (decide (authKind = AuthQuery)) as [-> |H4].
  { rewrite bool_decide_true by done. cbn [orb]. destruct (ValidToken authName); cbn [negb]; naive_solver. }
  rewrite bool_decide_false by done. cbn [orb]. naive_solver.
Qed.

(** Fact [operations_contract]: which operation sets are served.  A set passes exactly when its descriptor
    is a known one; it is not empty and its names are distinct legal tool names; and of every operation
    the method is known, the path template parses, the input is an object schema whose required names
    are declared, every property is an object schema named by a location the adapter knows (a body on
    no safe method; a query name printable; a header or cookie name a token; no control header; not
    the slot the credential goes to), no two headers or cookies are the same to a server, and the path
    parameters are the template's; and an output schema, where there is one, is an object. *)
Theorem operations_contract ops authKind authName :
  ops_Validate ops authKind authName = None <->
  ops <> [] /\ NoDup (map OpName ops)
  /\ exists rh rq, descriptor_ok authKind authName rh rq /\ Forall (operation_ok rh rq) ops.
Proof.
  unfold ops_Validate. setoid_rewrite <- reservedSlots_Ok.
  destruct (reservedSlots authKind authName) as [[rh rq]|e]; [|naive_solver].
  assert (H : (match ops with [] => Some NoOperation | _ => validate_each rh rq ops [] end) = None <->
              ops <> [] /\ validate_each rh rq ops [] = None) by (destruct ops; naive_solver).
  rewrite H, validate_each_None, new_among_nil. naive_solver.
Qed.

(** A set of one operation. *)
Definition demo_op : Operation :=
  {| OpName := "get_alert"; OpDescription := "One alert"; Method := "GET"; OpPath := "/alerts/{id}";
     OpInput := dq "{'type':'object','properties':{'path_id':{'type':'string'},'query_full':{'type':'boolean'},'header_X-Trace':{}},'required':['path_id']}";
     OpOutput := "" |}.

Definition demo_taken : Operation :=
  {| OpName := "get_alert"; OpDescription := "One alert"; Method := "GET"; OpPath := "/alerts";
     OpInput := dq "{'type':'object','properties':{'header_x_api_key':{}}}"; OpOutput := "" |}.

Lemma demo_op_valid : ops_Validate [demo_op] AuthHeader "X-API-Key" = None.
Proof. vm_compute. reflexivity. Qed.

Example demo_taken_refused :
  ops_Validate [demo_taken] AuthHeader "X-API-Key" = Some (OpSchemaFault "get_alert" (HeaderReserved "header_x_api_key")).
Proof. vm_compute. reflexivity. Qed.
