(* ===== verification/JsonCanon.v ===== *)
(** * Documents and their canonical bytes ([internal/gateway/resthttp/operation.go])

    What [encoding/json] decodes into an [any] with [UseNumber], and what its encoder writes with HTML
    escaping off: [canonicalize] and [marshalCanonical].  A canonical text is read back to the document
    it was written from, so writing it again gives the same bytes. *)
From Stdlib Require Import ZArith Lia Ascii.
From stdpp Require Import base strings list.
From S2P Require Import Prelude.
From S2P Require Import GoStrings.
From S2P Require Import Utf8.
From S2P Require Import GoTime.
From S2P Require Import Json.
From S2P Require Import Redact.
From S2P Require Import JsonStrings.
From S2P Require Import ToolSchema.
From S2P Require Import RestOperations.

(** An [any]: an object is a Go map, its members in key order. *)
Inductive doc :=
| DNull | DBool (b : bool) | DNum (text : string) | DStr (s : string)
| DArr (items : list doc) | DObj (members : list (string * doc)).

(** A Go map's assignment, the keys kept in order. *)
Fixpoint put {A} (k : string) (v : A) (l : list (string * A)) : list (string * A) :=
  match l with
  | [] => [(k, v)]
  | (k', v') :: l' =>
      if bool_decide (k = k') then (k, v) :: l'
      else if str_leb k k' then (k, v) :: l
      else (k', v') :: put k v l'
  end.

Definition map_of {A} (l : list (string * A)) : list (string * A) := foldl (fun acc m => put m.1 m.2 acc) [] l.

Fixpoint doc_of (j : json) : doc :=
  match j with
  | JNull => DNull
  | JBool b => DBool b
  | JNum text => DNum text
  | JStr text => DStr (unquote text)
  | JArr items => DArr (map doc_of items)
  | JObj members => DObj (map_of (map (fun m => (unquote m.1, doc_of m.2)) members))
  end.

(** The encoder's texts, with no white space. *)
Definition array_text (items : list string) : string := "[" +:+ String.concat "," items +:+ "]".

Definition member_text (m : string * string) : string := json_string false m.1 +:+ ":" +:+ m.2.

Definition object_text (members : list (string * string)) : string :=
  "{" +:+ String.concat "," (map member_text members) +:+ "}".

Fixpoint doc_text (d : doc) : string :=
  match d with
  | DNull => "null"
  | DBool b => if b then "true" else "false"
  | DNum text => text
  | DStr s => json_string false s
  | DArr items => array_text (map doc_text items)
  | DObj members => object_text (map (fun m => (m.1, doc_text m.2)) members)
  end.

Definition canonicalize (raw : string) : result document_error string :=
  if bool_decide (raw = "") then Err DocMissing
  else match decode_first raw with
  | None => Err DocInvalid
  | Some (v, rest) => if more rest then Err DocTrailing else Ok (doc_text (doc_of v))
  end.

Example canonicalize_ex :
  canonicalize (dq " {'b':[1.50, 'a\u003cb'],'a':{},'b':null, 'a':true} ") = Ok (dq "{'a':true,'b':null}")
  /\ canonicalize (dq "['<\u2028']") = Ok (dq "['<\u2028']") /\ canonicalize "1 2" = Err DocTrailing.
Proof. vm_compute. done. Qed.

(** ** What a literal stands for is valid UTF-8 *)

Lemma valid_string_app r c s : self_delimiting r c -> valid_string s = true -> valid_string (c +:+ s) = true.
Proof. rewrite !valid_string_runes. intros Hc Hs. rewrite (runes_cons r c s Hc). by constructor. Qed.

(** A rune the decoder may append: every code point but the surrogates. *)
Definition code_point (r : Z) : Prop := 0 <= r <= 0x10FFFF /\ is_surrogate r = false.

Lemma wide_self_delimiting c x :
  decode_rune c = (x, String.length c) -> (2 <= String.length c)%nat -> self_delimiting x c.
Proof.
  intros Hd Hl. split_and!; [by destruct c; simpl in Hl; [lia|]|done|].
  unfold invalid_chunk. cbn [snd]. rewrite (proj2 (Nat.eqb_neq _ _)) by lia. apply andb_false_r.
Qed.

Lemma in_range_true lo hi z : lo <= z <= hi -> in_range lo hi z = true.
Proof. unfold in_range. rewrite andb_true_iff, !Z.leb_le. done. Qed.

Lemma lead_info_2 b : 0xC2 <= b <= 0xDF -> lead_info b = Some (2%nat, 0x80, 0xBF).
Proof. intros H. unfold lead_info. by rewrite (in_range_true _ _ b H). Qed.

Lemma lead_info_3 b :
  0xE0 <= b <= 0xEF -> lead_info b = Some (3%nat, if b =? 0xE0 then 0xA0 else 0x80, if b =? 0xED then 0x9F else 0xBF).
Proof.
  intros H. unfold lead_info, in_range. rewrite (proj2 (Z.leb_gt b 0xDF)), andb_false_r by lia.
  destruct (Z.eqb_spec b 0xE0) as [->|]; [done|]. destruct (Z.eqb_spec b 0xED) as [->|]; [done|].
  by rewrite !(proj2 (Z.leb_le _ _)) by lia.
Qed.

Lemma lead_info_4 b :
  0xF0 <= b <= 0xF4 -> lead_info b = Some (4%nat, if b =? 0xF0 then 0x90 else 0x80, if b =? 0xF4 then 0x8F else 0xBF).
Proof.
  intros H. assert (b = 0xF0 \/ b = 0xF1 \/ b = 0xF2 \/ b = 0xF3 \/ b = 0xF4) as Hb by lia.
  repeat destruct Hb as [->|Hb]; [done..|by subst].
Qed.

Lemma append_rune_self_delimiting r : code_point r -> exists x, self_delimiting x (append_rune r).
Proof.
  intros [Hr Hs]. unfold append_rune, is_surrogate, in_range in *.
  assert (Hb : forall z, 0 <= z < 256 -> bz (zb z) = z) by (intros z Hz; by rewrite bz_zb, Z.mod_small).
  assert (Hc : forall z, cont (zb (0x80 + z mod 64)) = true).
  { intros z. pose proof (Z.mod_pos_bound z 64). unfold cont. rewrite Hb by lia. apply in_range_true. lia. }
  destruct (Z.ltb_spec r 0x80); [exists (bz (zb r)); apply self_delimiting_ascii; rewrite Hb; lia|].
  pose proof (Z.mod_pos_bound (r / 64) 64). pose proof (Z.mod_pos_bound (r / 4096) 64).
  destruct (Z.ltb_spec r 0x800); [|destruct (Z.ltb_spec r 0x10000)]; eexists; (apply wide_self_delimiting; [|simpl; lia]);
    unfold bytes; cbn [map String.string_of_list_ascii decode_rune String.length].
  - rewrite Hb by lia. rewrite (proj2 (Z.ltb_ge _ _)) by lia. rewrite lead_info_2 by lia. fold (cont (zb (0x80 + r mod 64))). by rewrite Hc.
  - rewrite !Hb by lia. rewrite (proj2 (Z.ltb_ge _ _)) by lia. rewrite lead_info_3 by lia.
    rewrite Hc, in_range_true; [done|]. destruct (Z.eqb_spec (0xE0 + r / 4096) 0xE0); destruct (Z.eqb_spec (0xE0 + r / 4096) 0xED); lia.
  - rewrite !Hb by lia. rewrite (proj2 (Z.ltb_ge _ _)) by lia. rewrite lead_info_4 by lia.
    rewrite !Hc, in_range_true; [done|]. destruct (Z.eqb_spec (0xF0 + r / 262144) 0xF0); destruct (Z.eqb_spec (0xF0 + r / 262144) 0xF4); lia.
Qed.

Lemma append_rune_valid r s : code_point r -> valid_string s = true -> valid_string (append_rune r +:+ s) = true.
Proof. intros [x Hx]%append_rune_self_delimiting. by apply (valid_string_app x). Qed.

(** The body of a literal, as [string_body] takes it apart. *)
Inductive literal_body : string -> Prop :=
| body_end : literal_body ""
| body_plain a b : bz a <> 92 -> literal_body b -> literal_body (String a b)
| body_short c b : bz c <> 117 -> bz c < 0x80 -> literal_body b -> literal_body (String "\" (String c b))
| body_u h1 h2 h3 h4 b : is_hex h1 && is_hex h2 && is_hex h3 && is_hex h4 = true -> literal_body b ->
    literal_body (String "\" (String "u" (String h1 (String h2 (String h3 (String h4 b)))))).

Lemma bz_is a c : bz a = bz c -> a = c.
Proof. apply bz_inj. Qed.

Lemma string_body_literal s b r : string_body s = Some (b, r) -> literal_body b.
Proof.
  remember (String.length s) as n eqn:Hn. revert s b r Hn. induction (lt_wf n) as [n _ IH]. intros s b r ->.
  destruct s as [|a s]; [done|]. cbn [string_body]. destruct (Z.eqb_spec (bz a) 34); [intros [= <- <-]; constructor|].
  destruct (bz a <? 32); [done|]. destruct (Z.eqb_spec (bz a) 92) as [Ha|Ha].
  - apply (bz_is a "\") in Ha as ->. destruct s as [|c s]; [done|]. destruct (existsb _ _) eqn:Hc.
    + destruct (string_body s) as [[b' r']|] eqn:Hs; [|done]. intros [= <- <-].
      assert (bz c <> 117 /\ bz c < 0x80) as [].
      { cbn [existsb] in Hc. rewrite !orb_true_iff, !Z.eqb_eq in Hc. clear - Hc. lia. }
      constructor; [done..|]. eapply IH; [|done|exact Hs]. simpl; lia.
    + destruct (Z.eqb_spec (bz c) 117) as [Hu|]; [|done]. apply (bz_is c "u") in Hu as ->.
      destruct s as [|h1 [|h2 [|h3 [|h4 s]]]]; try done. destruct (is_hex h1 && is_hex h2 && is_hex h3 && is_hex h4) eqn:Hh; [|done].
      destruct (string_body s) as [[b' r']|] eqn:Hs; [|done]. intros [= <- <-].
      constructor; [done|]. eapply IH; [|done|exact Hs]. simpl; lia.
  - destruct (string_body s) as [[b' r']|] eqn:Hs; [|done]. intros [= <- <-].
    constructor; [done|]. eapply IH; [|done|exact Hs]. simpl; lia.
Qed.

Lemma literal_body_drop c s :
  str_forallb (fun a => 0x80 <=? bz a) c = true -> literal_body (c +:+ s) -> literal_body s.
Proof.
  induction c as [|a c IH]; [done|]. cbn [str_forallb]. rewrite andb_true_iff, Z.leb_le, string_app_cons. intros [Ha Hc] Hb.
  apply IH; [done|]. inversion Hb; subst; [done|by vm_compute in Ha..].
Qed.

Lemma hex_value_range h : is_hex h = true -> 0 <= hex_value h < 16.
Proof.
  unfold is_hex, hex_value, in_range. rewrite !orb_true_iff, !andb_true_iff, !Z.leb_le.
  intros H. repeat case_match; rewrite ?andb_true_iff, ?andb_false_iff, ?Z.leb_le, ?Z.leb_gt in *; lia.
Qed.

Lemma getu4_range s r rest : getu4 s = Some (r, rest) -> 0 <= r < 0x10000.
Proof.
  destruct s as [|b [|u [|h1 [|h2 [|h3 [|h4 s]]]]]]; try done. unfold getu4. case_match eqn:H; [|done]. intros [= <- _].
  rewrite !andb_true_iff in H. destruct H as [[[[[_ _] H1] H2] H3] H4].
  apply hex_value_range in H1, H2, H3, H4. lia.
Qed.

Lemma getu4_literal s r rest : getu4 s = Some (r, rest) -> literal_body s -> literal_body rest.
Proof.
  destruct s as [|b [|u [|h1 [|h2 [|h3 [|h4 s]]]]]]; try done. unfold getu4. case_match eqn:H; [|done]. intros [= _ <-].
  rewrite !andb_true_iff, !Z.eqb_eq in H. destruct H as [[[[[Hb Hu] _] _] _] _].
  intros Hs. inversion Hs; subst; done.
Qed.

Lemma getu4_body h1 h2 h3 h4 b :
  is_hex h1 && is_hex h2 && is_hex h3 && is_hex h4 = true ->
  exists r, getu4 (String "\" (String "u" (String h1 (String h2 (String h3 (String h4 b)))))) = Some (r, b).
Proof.
  rewrite !andb_true_iff. intros [[[H1 H2] H3] H4]. unfold getu4. rewrite H1, H2, H3, H4. eexists. reflexivity.
Qed.

Lemma utf16_decode_code_point r1 r2 : utf16_decode r1 r2 <> rune_error -> code_point (utf16_decode r1 r2).
Proof.
  unfold utf16_decode, code_point, is_surrogate, in_range. intros H. case_match eqn:E; [|done].
  rewrite !andb_true_iff, !Z.leb_le in E. split; [lia|]. rewrite andb_false_iff, !Z.leb_gt. lia.
Qed.

Lemma rune_error_code_point : code_point rune_error.
Proof. by vm_compute. Qed.

(** An escape of a code unit: a pair of surrogates is one rune, a lone one U+FFFD. *)
Lemma unquote_u_valid n s r1 rest :
  getu4 s = Some (r1, rest) -> literal_body rest ->
  (forall x, literal_body x -> valid_string (unquote_fuel n x) = true) ->
  valid_string (unquote_fuel (S n) s) = true.
Proof.
  intros Hg Hb IH. destruct s as [|a s1]; [done|]. cbn [unquote_fuel]. rewrite Hg.
  destruct (Z.eqb_spec (bz a) 92) as [_|Ha].
  2:{ exfalso. destruct s1 as [|u [|h1 [|h2 [|h3 [|h4 s1]]]]]; try done. unfold getu4 in Hg.
      rewrite (proj2 (Z.eqb_neq _ _)) in Hg by done. done. }
  assert (Herr : valid_string (append_rune rune_error +:+ unquote_fuel n rest) = true).
  { apply append_rune_valid; [apply rune_error_code_point|by apply IH]. }
  destruct (is_surrogate r1) eqn:Hsur.
  - destruct (getu4 rest) as [[r2 rest2]|] eqn:Hg2; [|done]. destruct (Z.eqb_spec (utf16_decode r1 r2) rune_error); [done|].
    apply append_rune_valid; [by apply utf16_decode_code_point|]. eapply IH, getu4_literal; done.
  - apply append_rune_valid; [|by apply IH]. apply getu4_range in Hg. split; [lia|done].
Qed.

Lemma unquote_plain_valid n a b :
  bz a <> 92 -> literal_body b ->
  (forall x, literal_body x -> valid_string (unquote_fuel n x) = true) ->
  valid_string (unquote_fuel (S n) (String a b)) = true.
Proof.
  intros Ha Hb IH. cbn [unquote_fuel]. rewrite (proj2 (Z.eqb_neq _ _)) by done.
  destruct (decode_rune (String a b)) as [r k] eqn:Hd.
  destruct ((r =? rune_error) && (k =? 1)%nat) eqn:Hbad.
  - apply andb_true_iff in Hbad as [_ ->%Nat.eqb_eq]. apply append_rune_valid; [apply rune_error_code_point|by apply IH].
  - pose proof (decode_rune_size (String a b) ltac:(done)) as Hk. rewrite Hd in Hk. cbn [snd] in Hk.
    assert (Hs : self_delimiting r (str_take k (String a b))).
    { apply decode_rune_take; [done..|]. unfold invalid_chunk. cbn [fst snd]. by rewrite str_take_length, Nat.min_l by lia. }
    apply (valid_string_app r); [done|]. apply IH.
    destruct (self_delimiting_cases _ _ Hs) as [(x & Hx & _)|(_ & Hh & _)].
    + assert (k = 1%nat) as -> by (apply (f_equal String.length) in Hx; rewrite str_take_length in Hx; simpl in Hx, Hk; lia). done.
    + apply (literal_body_drop _ _ Hh). rewrite str_take_drop. by constructor.
Qed.

Lemma unquote_valid s : literal_body s -> valid_string (unquote s) = true.
Proof.
  unfold unquote. generalize (String.length s) as n. intros n. revert s. induction n as [|n IH]; intros s Hs; [done|].
  destruct Hs as [|a b Ha Hb|c b Hc Hlow Hb|h1 h2 h3 h4 b Hh Hb]; [done|by apply unquote_plain_valid| |].
  - cbn [unquote_fuel]. change (bz "\" =? 92) with true. cbn match.
    replace (getu4 (String "\" (String c b))) with (@None (Z * string)).
    2:{ destruct b as [|h1 [|h2 [|h3 [|h4 b]]]]; try done. unfold getu4. by rewrite (proj2 (Z.eqb_neq (bz c) 117)), andb_false_r by done. }
    set (out := if _ =? 98 then _ else _). assert (Hout : 0 <= out < 0x80).
    { subst out. pose proof (bz_range c). repeat case_match; lia. }
    change (bytes [out]) with (String (zb out) ""). apply (valid_string_app (bz (zb out))); [|by apply IH].
    apply self_delimiting_ascii. rewrite bz_zb, Z.mod_small; lia.
  - destruct (getu4_body h1 h2 h3 h4 b Hh) as [r Hg]. by apply (unquote_u_valid _ _ _ _ Hg).
Qed.

(** ** A number is read as far as it was written *)

(** The text does not go on with the number before it. *)
Definition stops (x : string) : bool :=
  match x with
  | EmptyString => true
  | String a _ => negb (is_digit a) && negb (existsb (Z.eqb (bz a)) [46; 101; 69])
  end.

Definition no_digit (x : string) : bool := match x with EmptyString => true | String a _ => negb (is_digit a) end.

Lemma stops_no_digit x : stops x = true -> no_digit x = true.
Proof. destruct x; [done|]. unfold stops, no_digit. by rewrite andb_true_iff => -[? _]. Qed.

Lemma span_digits_digits s ds r : span_digits s = (ds, r) -> str_forallb is_digit ds = true.
Proof.
  revert ds r. induction s as [|a s IH]; intros ds r; simpl; [by intros [= <- <-]|]. destruct (is_digit a) eqn:Ha; [|by intros [= <- <-]].
  destruct (span_digits s) as [d r'] eqn:Hs. intros [= <- <-]. simpl. by rewrite Ha, (IH _ _ eq_refl).
Qed.

Lemma span_digits_stop ds x : str_forallb is_digit ds = true -> no_digit x = true -> span_digits (ds +:+ x) = (ds, x).
Proof. intros Hd Hx. apply span_digits_app; [done|]. intros a r ->. by apply negb_true_iff. Qed.

Lemma int_part_reads s i r : int_part s = Some (i, r) ->
  (forall x, no_digit x = true -> int_part (i +:+ x) = Some (i, x)) /\ exists a i', i = String a i' /\ is_digit a = true.
Proof.
  destruct s as [|a s]; [done|]. unfold int_part. destruct (Z.eqb_spec (bz a) 48) as [Ha|Ha].
  - intros [= <- <-]. split; [|exists a, ""; split; [done|]].
    + intros x _. rewrite string_app_cons, string_app_nil_l. by rewrite (proj2 (Z.eqb_eq _ _) Ha).
    + unfold is_digit. rewrite Ha. done.
  - destruct (span_digits (String a s)) as [[|d ds] r'] eqn:Hs; [done|]. intros [= <- <-].
    assert (d = a) as -> by (simpl in Hs; destruct (is_digit a); [destruct (span_digits s); by injection Hs|by injection Hs]).
    apply span_digits_digits in Hs. split; [|exists a, ds; split; [done|]; simpl in Hs; by apply andb_true_iff in Hs as [? _]].
    intros x Hx. rewrite string_app_cons. rewrite (proj2 (Z.eqb_neq _ _)) by done. rewrite <- string_app_cons.
    by rewrite span_digits_stop.
Qed.

Lemma frac_part_reads s f r : frac_part s = Some (f, r) ->
  (forall x, no_digit x = true -> (forall a x', x = String a x' -> bz a <> 46) -> frac_part (f +:+ x) = Some (f, x))
  /\ (f = "" \/ exists f', f = String "." f').
Proof.
  destruct s as [|a s]; [intros [= <- <-]|]; [|cbn [frac_part]; destruct (Z.eqb_spec (bz a) 46) as [Ha|Ha]].
  1,3: try intros [= <- <-]; split; [|by left]; intros [|b x] _ Hb; [done|]; rewrite string_app_nil_l; cbn [frac_part];
    by rewrite (proj2 (Z.eqb_neq _ _)) by (by eapply Hb).
  destruct (span_digits s) as [[|d ds] r'] eqn:Hs; [done|]. intros [= <- <-]. apply span_digits_digits in Hs.
  split; [|right; eexists; f_equal; by apply (bz_is a ".")].
  intros x Hx _. rewrite string_app_cons. cbn [frac_part]. rewrite (proj2 (Z.eqb_eq _ _) Ha). by rewrite span_digits_stop.
Qed.

Lemma digit_range a : is_digit a = true -> 48 <= bz a <= 57.
Proof. unfold is_digit, in_range. lia. Qed.

(** The sign of an exponent, or none. *)
Definition exp_sign (s : string) : string * string :=
  match s with
  | String c s1 => if (bz c =? 43) || (bz c =? 45) then (String c "", s1) else ("", s)
  | EmptyString => ("", s)
  end.

Lemma exp_sign_reads s d ds x : is_digit d = true ->
  exp_sign ((exp_sign s).1 +:+ String d ds +:+ x) = ((exp_sign s).1, String d ds +:+ x).
Proof.
  intros Hd%digit_range.
  assert (H0 : exp_sign (String d ds +:+ x) = ("", String d ds +:+ x)).
  { rewrite string_app_cons. cbn [exp_sign]. by rewrite !(proj2 (Z.eqb_neq _ _)) by lia. }
  destruct s as [|c s]; [exact H0|]. cbn [exp_sign]. destruct ((bz c =? 43) || (bz c =? 45)) eqn:Hc; [|exact H0].
  cbn [fst]. rewrite !string_app_cons, string_app_nil_l. cbn [exp_sign]. by rewrite Hc.
Qed.

Lemma exp_part_reads s e r : exp_part s = Some (e, r) ->
  (forall x, stops x = true -> exp_part (e +:+ x) = Some (e, x))
  /\ (e = "" \/ exists a e', e = String a e' /\ (bz a = 101 \/ bz a = 69)).
Proof.
  assert (Hnone : forall x, stops x = true -> exp_part ("" +:+ x) = Some ("", x)).
  { intros [|a x] Hx; [done|]. rewrite string_app_nil_l. cbn [exp_part stops existsb] in *.
    apply andb_true_iff in Hx as [_ Hx%negb_true_iff]. rewrite !orb_false_iff in Hx. destruct Hx as (_ & H1 & H2 & _). by rewrite H1, H2. }
  destruct s as [|a s]; [intros [= <- <-]; split; [done|by left]|]. cbn [exp_part].
  destruct ((bz a =? 101) || (bz a =? 69)) eqn:Ha; [|intros [= <- <-]; split; [done|by left]].
  change (match s with String c s1 => _ | "" => _ end) with (exp_sign s). pose proof (exp_sign_reads s) as Hsign.
  destruct (exp_sign s) as [sign s1]. cbn [fst] in Hsign.
  destruct (span_digits s1) as [[|d ds] r'] eqn:Hs; [done|]. intros [= <- <-]. apply span_digits_digits in Hs.
  split; [|right; eexists a, _; split; [by rewrite string_app_cons|lia]].
  intros x Hx. rewrite !string_app_cons. cbn [exp_part]. rewrite Ha. rewrite <- string_app_assoc.
  change (match sign +:+ String d ds +:+ x with String c s1 => _ | "" => _ end) with (exp_sign (sign +:+ String d ds +:+ x)).
  rewrite Hsign by (simpl in Hs; by apply andb_true_iff in Hs as [? _]).
  by rewrite span_digits_stop by (done || by apply stops_no_digit).
Qed.

(** The minus of a number, or none. *)
Definition num_sign (s : string) : string * string :=
  match s with String a s' => if bz a =? 45 then (String a "", s') else ("", s) | EmptyString => ("", s) end.

Lemma number_reads s n r : number s = Some (n, r) -> forall x, stops x = true -> number (n +:+ x) = Some (n, x).
Proof.
  unfold number. change (match s with String a s' => _ | "" => _ end) with (num_sign s).
  assert (Hsign : forall a i y, is_digit a = true -> num_sign ((num_sign s).1 +:+ String a i +:+ y) = ((num_sign s).1, String a i +:+ y)).
  { intros a i y Ha%digit_range.
    assert (H0 : num_sign (String a i +:+ y) = ("", String a i +:+ y)).
    { rewrite string_app_cons. cbn [num_sign]. by rewrite (proj2 (Z.eqb_neq _ _)) by lia. }
    destruct s as [|c s]; [exact H0|]. cbn [num_sign]. destruct (bz c =? 45) eqn:Hc; [|exact H0].
    cbn [fst]. rewrite !string_app_cons, string_app_nil_l. cbn [num_sign]. by rewrite Hc. }
  destruct (num_sign s) as [sign s0]. cbn [fst] in Hsign.
  destruct (int_part s0) as [[i s1]|] eqn:Hi; cbn [mbind option_bind]; [|done]. apply int_part_reads in Hi as (Hi & a & i' & -> & Ha).
  destruct (frac_part s1) as [[f s2]|] eqn:Hf; cbn [mbind option_bind]; [|done]. apply frac_part_reads in Hf as (Hf & Hf').
  destruct (exp_part s2) as [[e s3]|] eqn:He; cbn [mbind option_bind]; [|done]. apply exp_part_reads in He as (He & He').
  intros [= <- _] x Hx. rewrite <- !string_app_assoc. fold (num_sign (sign +:+ String a i' +:+ f +:+ e +:+ x)). rewrite Hsign by done.
  assert (Hex : no_digit (e +:+ x) = true /\ forall a x', e +:+ x = String a x' -> bz a <> 46).
  { destruct He' as [->|(b & e' & -> & Hb)].
    - rewrite string_app_nil_l. split; [by apply stops_no_digit|]. intros b x' ->. unfold stops in Hx. cbn [existsb] in Hx. lia.
    - rewrite string_app_cons. split; [unfold no_digit, is_digit, in_range; lia|]. intros ? ? [= <- _]. lia. }
  rewrite Hi; cbn [mbind option_bind].
  2:{ destruct Hf' as [->|[f' ->]]; [rewrite string_app_nil_l; apply Hex|]. by rewrite string_app_cons. }
  rewrite Hf by apply Hex. cbn [mbind option_bind]. by rewrite He by done.
Qed.

Lemma number_starts s n r : number s = Some (n, r) -> exists a n', n = String a n' /\ (bz a = 45 \/ 48 <= bz a <= 57).
Proof.
  intros H. apply number_reads with (x := "") in H; [|done]. rewrite string_app_nil_r in H.
  destruct n as [|a n]; [done|]. exists a, n. split; [done|]. destruct (Z.eqb_spec (bz a) 45) as [|Ha]; [by left|right].
  unfold number in H. rewrite (proj2 (Z.eqb_neq _ _)) in H by done. destruct (int_part (String a n)) as [[i s1]|] eqn:Hi; [|done].
  cbn [int_part] in Hi. destruct (Z.eqb_spec (bz a) 48); [lia|]. cbn [span_digits] in Hi. destruct (is_digit a) eqn:Hd; [|done].
  by apply digit_range in Hd.
Qed.

(** ** Go maps as sorted lists *)

Definition str_lt (a b : string) : Prop := str_le a b /\ a <> b.

Lemma str_lt_leb a b : str_lt a b -> str_leb b a = false.
Proof.
  intros [Hle Hne]. apply not_true_is_false. intros H. apply Hne. by apply (anti_symm str_le).
Qed.

Definition keys_sorted {A} (l : list (string * A)) : Prop := StronglySorted str_lt (map fst l).

Definition assoc {A} (k : string) (l : list (string * A)) : option A :=
  match List.find (fun m => bool_decide (m.1 = k)) l with Some m => Some m.2 | None => None end.

Lemma assoc_cons {A} k m (l : list (string * A)) : assoc k (m :: l) = if bool_decide (m.1 = k) then Some m.2 else assoc k l.
Proof. unfold assoc. simpl. by case_bool_decide. Qed.

Lemma assoc_put {A} k' k v (l : list (string * A)) : assoc k' (put k v l) = if bool_decide (k = k') then Some v else assoc k' l.
Proof.
  induction l as [|[k0 v0] l IH]; cbn [put].
  { by rewrite assoc_cons. }
  destruct (bool_decide_reflect (k = k0)) as [->|H0]; [|destruct (str_leb k k0)]; rewrite !assoc_cons; cbn [fst snd]; [by case_bool_decide|done|].
  rewrite IH. repeat case_bool_decide; congruence.
Qed.

Lemma put_keys {A} k v (l : list (string * A)) k' : k' ∈ map fst (put k v l) <-> k' = k \/ k' ∈ map fst l.
Proof.
  induction l as [|[k0 v0] l IH]; cbn [put map fst]; [by rewrite list_elem_of_singleton; set_solver|].
  case_bool_decide as H0; [|destruct (str_leb k k0)]; cbn [map fst]; rewrite ?elem_of_cons, ?IH; naive_solver.
Qed.

Lemma put_sorted {A} k v (l : list (string * A)) : keys_sorted l -> keys_sorted (put k v l).
Proof.
  unfold keys_sorted. induction l as [|[k0 v0] l IH]; cbn [put map fst]; [by repeat constructor|].
  intros [Hl Hk]%StronglySorted_inv. case_bool_decide as H0; [subst; by constructor|]. destruct (str_leb k k0) eqn:Hle; cbn [map fst].
  - constructor; [by constructor|]. constructor; [done|]. eapply Forall_impl; [exact Hk|]. intros k1 [H1 H2].
    split; [by etrans|]. intros ->. by destruct H0; apply (anti_symm str_le).
  - constructor; [by apply IH|]. apply Forall_forall. intros k1 [->|H1]%put_keys.
    + split; [|congruence]. destruct (total str_le k0 k) as [|H]; [done|]. unfold str_le in H. congruence.
    + rewrite Forall_forall in Hk. by apply Hk.
Qed.

Lemma put_last {A} k v (l : list (string * A)) : Forall (fun k' => str_lt k' k) (map fst l) -> put k v l = l ++ [(k, v)].
Proof.
  induction l as [|[k0 v0] l IH]; cbn [put map fst]; [done|]. intros [Hk Hl]%Forall_cons. rewrite (str_lt_leb _ _ Hk).
  destruct Hk as [_ Hne]. rewrite bool_decide_eq_false_2 by congruence. by rewrite IH.
Qed.

Lemma map_of_sorted {A} (l : list (string * A)) : keys_sorted (map_of l).
Proof.
  unfold map_of. assert (H : keys_sorted (@nil (string * A))) by constructor. revert H. generalize (@nil (string * A)) as acc.
  induction l as [|m l IH]; intros acc Hacc; [done|]. simpl. by apply IH, put_sorted.
Qed.

(** Two sorted lists with the same values are the same. *)
Lemma map_of_id {A} (l : list (string * A)) : keys_sorted l -> map_of l = l.
Proof.
  unfold map_of, keys_sorted. intros H. assert (Hg : forall acc, StronglySorted str_lt (map fst (acc ++ l)) ->
    foldl (fun acc m => put m.1 m.2 acc) acc l = acc ++ l); [|by apply (Hg [])].
  clear H. induction l as [|[k v] l IH]; intros acc H; [by rewrite app_nil_r|]. cbn [foldl fst snd].
  assert (Hk : Forall (fun k' => str_lt k' k) (map fst acc)).
  { rewrite map_app in H. apply Forall_forall. intros k' Hk'. rewrite list_elem_of_In in Hk'.
    eapply (StronglySorted_app_1_elem_of str_lt) with (x1 := k') (x2 := k) in H; [done|by apply list_elem_of_In|by left]. }
  rewrite put_last by done. rewrite IH by (by rewrite <- app_assoc). by rewrite <- app_assoc.
Qed.

Lemma assoc_map_of {A} k (l : list (string * A)) :
  assoc k (map_of l) = match List.find (fun m => bool_decide (m.1 = k)) (reverse l) with Some m => Some m.2 | None => None end.
Proof.
  unfold map_of. induction l as [|m l IH] using rev_ind; [done|]. rewrite foldl_app, reverse_app. cbn [foldl].
  rewrite assoc_put, IH. change (reverse [m]) with [m]. cbn [app List.find]. by case_bool_decide.
Qed.

Lemma elem_of_map_of {A} (P : string * A -> Prop) l : Forall P l -> Forall P (map_of l).
Proof.
  unfold map_of. assert (H : Forall P []) by constructor. revert H. generalize (@nil (string * A)) as acc.
  induction l as [|[k v] l IH]; intros acc Hacc Hl; [done|]. apply Forall_cons in Hl as [Hm Hl]. cbn [foldl]. apply IH; [|done].
  clear IH. induction acc as [|[k0 v0] acc IHa]; cbn [put fst snd]; [by constructor|]. apply Forall_cons in Hacc as [H0 Hacc].
  case_bool_decide; [by constructor|]. case_match; repeat constructor; auto.
Qed.

(** ** Canonical documents *)

(** What the decoder makes: numbers and strings well formed, keys in order, nested at most [depth] deep. *)
Fixpoint canonical (depth : nat) (d : doc) {struct d} : Prop :=
  match d with
  | DNull | DBool _ => True
  | DNum text => number text = Some (text, "")
  | DStr s => valid_string s = true
  | DArr items =>
      match depth with O => False | S n => foldr (fun v P => canonical n v /\ P) True items end
  | DObj members =>
      match depth with
      | O => False
      | S n => keys_sorted members /\ foldr (fun m P => (valid_string m.1 = true /\ canonical n m.2) /\ P) True members
      end
  end.

Lemma foldr_Forall {A} (P : A -> Prop) l : foldr (fun x Q => P x /\ Q) True l <-> Forall P l.
Proof. induction l; simpl; [by split|]. by rewrite Forall_cons, IHl. Qed.

Lemma elements_Forall {J} (v : nat -> string -> option (J * string)) (P : J -> Prop) f depth acc s l r :
  (forall s j r, v depth s = Some (j, r) -> P j) -> Forall P acc -> elements v f depth acc s = Some (l, r) -> Forall P l.
Proof.
  intros Hv. revert acc s. induction f as [|f IH]; intros acc s Hacc; simpl; [done|].
  destruct (v depth s) as [[j s1]|] eqn:Hj; simpl; [|done]. apply Hv in Hj.
  assert (Hacc' : Forall P (acc ++ [j])) by (apply Forall_app; split; [done|by constructor]).
  destruct (skip_space s1) as [|a s2]; [done|]. case_match; [by apply IH|]. case_match; [|done]. by intros [= <- <-].
Qed.

Lemma members_Forall {J} (v : nat -> string -> option (J * string)) (P : string -> J -> Prop) f depth acc s l r :
  (forall b s0 r0 s j r, string_body s0 = Some (b, r0) -> v depth s = Some (j, r) -> P b j) ->
  Forall (fun m => P m.1 m.2) acc -> members v f depth acc s = Some (l, r) -> Forall (fun m => P m.1 m.2) l.
Proof.
  intros Hv. revert acc s. induction f as [|f IH]; intros acc s Hacc; simpl; [done|].
  destruct (skip_space s) as [|q s1]; [done|]. case_match; [|done]. destruct (string_body s1) as [[k s2]|] eqn:Hk; simpl; [|done].
  destruct (skip_space s2) as [|c s3]; [done|]. case_match; [|done].
  destruct (v depth s3) as [[j s4]|] eqn:Hj; simpl; [|done]. pose proof (Hv _ _ _ _ _ _ Hk Hj) as Hp.
  assert (Hacc' : Forall (fun m => P m.1 m.2) (acc ++ [(k, j)])) by (apply Forall_app; split; [done|by constructor]).
  destruct (skip_space s4) as [|e s5]; [done|]. case_match; [by apply IH|]. case_match; [|done]. by intros [= <- <-].
Qed.

Lemma literal_canonical s j r depth : literal s = Some (j, r) -> canonical depth (doc_of j).
Proof.
  unfold literal. do 3 (destruct (cut_prefix s _); [intros [= <- <-]; exact I|]). destruct (number s) as [[n r']|] eqn:Hn; simpl; [|done].
  intros [= <- <-]. cbn [doc_of canonical]. pose proof (number_reads _ _ _ Hn "" eq_refl) as Hr. by rewrite string_app_nil_r in Hr.
Qed.

(** Whatever is decoded is canonical. *)
Lemma value_canonical f depth s j r : value f depth s = Some (j, r) -> canonical depth (doc_of j).
Proof.
  revert depth s j r. induction f as [|f IH]; intros depth s j r; simpl; [done|].
  destruct (skip_space s) as [|a s1]; [done|]. case_match.
  { destruct (string_body s1) as [[b r']|] eqn:Hb; simpl; [|done]. intros [= <- <-]. by eapply unquote_valid, string_body_literal. }
  assert (He : forall d, (let? '(l, r') := elements (value f) f d [] s1 in Some (JArr l, r')) = Some (j, r) -> canonical (S d) (doc_of j)).
  { intros d. destruct (elements _ _ _ _ _) as [[l r']|] eqn:Hl; simpl; [|done]. intros [= <- <-]. cbn [doc_of canonical].
    apply foldr_Forall, Forall_fmap. eapply elements_Forall; [|by constructor|exact Hl]. intros s' j' r1 Hj. by apply (IH d s' j' r1). }
  assert (Hm : forall d, (let? '(l, r') := members (value f) f d [] s1 in Some (JObj l, r')) = Some (j, r) -> canonical (S d) (doc_of j)).
  { intros d. destruct (members _ _ _ _ _) as [[l r']|] eqn:Hl; simpl; [|done]. intros [= <- <-]. cbn [doc_of canonical].
    split; [apply map_of_sorted|]. apply foldr_Forall, elem_of_map_of, Forall_fmap.
    eapply (members_Forall _ (fun b j => valid_string (unquote b) = true /\ canonical d (doc_of j))); [|by constructor|exact Hl].
    intros b s0 r0 s' j' r1 Hb Hj. split; [by eapply unquote_valid, string_body_literal|by eapply IH]. }
  case_match; [|case_match; [|apply literal_canonical]].
  all: destruct depth as [|d]; [done|]; destruct (skip_space s1) as [|c s2]; [apply He || apply Hm|]; simpl in *.
  all: repeat (case_match; try (apply He || apply Hm)); intros [= <- <-]; cbn [doc_of canonical map foldr]; repeat constructor.
Qed.

(** ** Reading a canonical text back *)

(** What the scanner makes of the encoder's text. *)
Fixpoint json_of (d : doc) : json :=
  match d with
  | DNull => JNull
  | DBool b => JBool b
  | DNum text => JNum text
  | DStr s => JStr (json_body false s)
  | DArr items => JArr (map json_of items)
  | DObj members => JObj (map (fun m => (json_body false m.1, json_of m.2)) members)
  end.

(** Induction on documents, through their lists. *)
Lemma doc_ind' (P : doc -> Prop) :
  P DNull -> (forall b, P (DBool b)) -> (forall t, P (DNum t)) -> (forall s, P (DStr s)) ->
  (forall l, Forall P l -> P (DArr l)) -> (forall l, Forall (fun m => P m.2) l -> P (DObj l)) -> forall d, P d.
Proof.
  intros H1 H2 H3 H4 H5 H6. fix IH 1. intros [|b|t|s|l|l]; [done|done|done|done| |].
  - apply H5. induction l as [|v l IHl]; constructor; [apply IH|exact IHl].
  - apply H6. induction l as [|m l IHl]; constructor; [apply IH|exact IHl].
Qed.

Lemma doc_of_json_of d depth : canonical depth d -> doc_of (json_of d) = d.
Proof.
  revert depth. induction d as [| | | |l IH|l IH] using doc_ind'; intros depth; cbn [canonical json_of doc_of]; try done.
  - intros Hs. unfold json_body. by rewrite unquote_json, repaired_valid.
  - destruct depth as [|n]; [done|]. rewrite foldr_Forall. intros Hl. f_equal. rewrite map_map.
    induction IH as [|v l Hv _ IH]; [done|]. apply Forall_cons in Hl as [H1 H2]. cbn [map]. by rewrite (Hv n), IH.
  - destruct depth as [|n]; [done|]. rewrite foldr_Forall. intros [Hsorted Hl]. f_equal. rewrite map_map. cbn [fst snd].
    transitivity (map_of l); [|by apply map_of_id]. f_equal. clear Hsorted.
    induction IH as [|[k v] l Hv _ IH]; [done|]. apply Forall_cons in Hl as [[H0 H1] H2]. cbn [map fst snd] in *.
    unfold json_body in *. by rewrite unquote_json, repaired_valid, (Hv n), IH.
Qed.

Section reads.
Context {J : Type}.
Variable v : nat -> string -> option (J * string).

Lemma elements_reads g d acc (l : list (string * J)) x :
  l <> [] -> (length l <= g)%nat ->
  Forall (fun p => forall y, stops y = true -> v d (p.1 +:+ y) = Some (p.2, y)) l ->
  elements v g d acc (String.concat "," (map fst l) +:+ String "]" x) = Some (acc ++ map snd l, x).
Proof.
  revert g acc. induction l as [|[t j] l IH]; intros [|g] acc Hne Hg Hl; cbn [length] in Hg; try done; try lia.
  apply Forall_cons in Hl as [Ht Hl]. cbn [fst snd] in Ht. destruct l as [|p l].
  - cbn [map String.concat elements fst snd]. by rewrite Ht.
  - change (String.concat "," (map fst ((t, j) :: p :: l))) with (t +:+ String "," (String.concat "," (map fst (p :: l)))).
    rewrite <- string_app_assoc, string_app_cons. cbn [elements]. rewrite Ht by done. cbn [mbind option_bind skip_space].
    change (is_space ",") with false. cbn match. change (bz "," =? 44) with true. cbn match.
    rewrite IH by (done || simpl in *; lia). cbn [map snd]. by rewrite <- app_assoc.
Qed.

(** A member's text: its key's literal, a colon, its value's text. *)
Definition member_of (p : string * string * J) : string * string := (p.1.1, p.1.2).
Definition member_read (p : string * string * J) : string * J := (json_body false p.1.1, p.2).

Lemma members_reads g d acc (l : list (string * string * J)) x :
  l <> [] -> (length l <= g)%nat ->
  Forall (fun p => forall y, stops y = true -> v d (p.1.2 +:+ y) = Some (p.2, y)) l ->
  members v g d acc (String.concat "," (map (fun p => member_text (member_of p)) l) +:+ String "}" x)
  = Some (acc ++ map member_read l, x).
Proof.
  assert (Hkey : forall k y, skip_space (json_string false k +:+ y) = String (zb 34) (json_body false k +:+ dquote +:+ y)).
  { intros k y. unfold json_string. by rewrite <- !string_app_assoc. }
  revert g acc. induction l as [|[[k t] j] l IH]; intros [|g] acc Hne Hg Hl; cbn [length] in Hg; try done; try lia.
  apply Forall_cons in Hl as [Ht Hl]. cbn [fst snd] in Ht. destruct l as [|p l].
  - cbn [map String.concat members]. unfold member_text at 1, member_of at 1 2. cbn [fst snd]. rewrite <- !string_app_assoc, Hkey.
    change (bz (zb 34) =? 34) with true. cbn match. unfold json_body at 1. rewrite string_body_json. fold (json_body false k).
    cbn [mbind option_bind]. rewrite string_app_cons, string_app_nil_l. cbn [skip_space]. change (is_space ":") with false. cbn match.
    change (bz ":" =? 58) with true. cbn match. by rewrite Ht.
  - change (String.concat "," (map (fun p => member_text (member_of p)) ((k, t, j) :: p :: l)))
      with ((json_string false k +:+ ":" +:+ t) +:+ String "," (String.concat "," (map (fun p => member_text (member_of p)) (p :: l)))).
    rewrite <- !string_app_assoc. cbn [members]. rewrite Hkey.
    change (bz (zb 34) =? 34) with true. cbn match. unfold json_body at 1. rewrite string_body_json. fold (json_body false k).
    cbn [mbind option_bind]. rewrite !string_app_cons, string_app_nil_l. cbn [skip_space]. change (is_space ":") with false. cbn match.
    change (bz ":" =? 58) with true. cbn match. rewrite Ht by done. cbn [mbind option_bind skip_space].
    change (is_space ",") with false. cbn match. change (bz "," =? 44) with true. cbn match.
    rewrite IH by (done || simpl in *; lia). cbn [map]. by rewrite <- app_assoc.
Qed.
End reads.

#[local] Abbreviation len := String.length.

Lemma concat_item_length (l : list string) t : t ∈ l -> (len t <= len (String.concat "," l))%nat.
Proof.
  induction l as [|t0 [|t1 l] IH]; [by intros ?%elem_of_nil|by intros ->%list_elem_of_singleton|].
  change (String.concat "," (t0 :: t1 :: l)) with (t0 +:+ String "," (String.concat "," (t1 :: l))).
  rewrite string_length_app. cbn [String.length]. intros [->|H]%elem_of_cons; [lia|]. specialize (IH H). lia.
Qed.

Lemma concat_length (l : list string) : Forall (fun t => t <> "") l -> (length l <= len (String.concat "," l))%nat.
Proof.
  induction l as [|t0 [|t1 l] IH]; [simpl; lia| |].
  - intros [H _]%Forall_cons. destruct t0; [done|]. simpl. lia.
  - intros [_ H]%Forall_cons. specialize (IH H).
    change (String.concat "," (t0 :: t1 :: l)) with (t0 +:+ String "," (String.concat "," (t1 :: l))).
    rewrite string_length_app. cbn [String.length length] in *. lia.
Qed.

(** How a value's text begins. *)
Definition begins (s : string) : Prop :=
  exists a s', s = String a s' /\ is_space a = false /\ a <> "]"%char.

Lemma begins_app s x : begins s -> begins (s +:+ x).
Proof. intros (a & s' & -> & H). exists a, (s' +:+ x). by rewrite string_app_cons. Qed.

Lemma begins_skip s : begins s -> skip_space s = s.
Proof. intros (a & s' & -> & H & _). simpl. by rewrite H. Qed.

Lemma number_text_begins t : number t = Some (t, "") -> exists a t', t = String a t' /\ (bz a = 45 \/ 48 <= bz a <= 57).
Proof. apply number_starts. Qed.

Lemma text_begins d depth : canonical depth d -> begins (doc_text d).
Proof.
  destruct d as [|[]|t|s|l|l]; cbn [canonical doc_text]; try (intros _; by eexists _, _).
  intros (a & t' & -> & Ha)%number_text_begins. exists a, t'. split; [done|]. split.
  - unfold is_space. lia.
  - intros ->. change (bz "]") with 93 in Ha. lia.
Qed.

Lemma text_nonempty d depth : canonical depth d -> doc_text d <> "".
Proof. intros (a & s & -> & _)%text_begins. done. Qed.

Lemma number_value f depth t x : number t = Some (t, "") -> stops x = true -> value (S f) depth (t +:+ x) = Some (JNum t, x).
Proof.
  intros Ht Hx. destruct (number_text_begins t Ht) as (a & t' & -> & Ha). cbn [value].
  rewrite begins_skip by (apply begins_app; exists a, t'; split_and!; [done|unfold is_space; lia|intros ->; change (bz "]") with 93 in Ha; lia]).
  rewrite string_app_cons. rewrite !(proj2 (Z.eqb_neq (bz a) _)) by lia. rewrite <- string_app_cons. unfold literal.
  assert (Hp : forall c p, bz c <> bz a -> cut_prefix (String a t' +:+ x) (String c p) = None).
  { intros c p Hc. unfold cut_prefix. rewrite string_app_cons. cbn [has_prefix]. by rewrite bool_decide_eq_false_2 by congruence. }
  rewrite !Hp by (change (bz "n") with 110; change (bz "t") with 116; change (bz "f") with 102; lia).
  by rewrite (number_reads _ _ _ Ht x Hx).
Qed.

Lemma value_string f depth s x : value (S f) depth (json_string false s +:+ x) = Some (JStr (json_body false s), x).
Proof.
  unfold json_string. rewrite <- !string_app_assoc. change (dquote +:+ ?y) with (String (zb 34) y) at 1. cbn [value skip_space].
  change (is_space (zb 34)) with false. cbn match. change (bz (zb 34) =? 34) with true. cbn match. by rewrite string_body_json.
Qed.

(** The reader on an array, past its bracket. *)
Lemma value_array_items f d s : begins s ->
  value (S f) (S d) (String "[" s) = (let? '(l, r) := elements (value f) f d [] s in Some (JArr l, r)).
Proof.
  intros H. cbn [value skip_space]. change (is_space "[") with false. cbn match.
  change (bz "[" =? 34) with false. change (bz "[" =? 91) with true. cbn match. rewrite (begins_skip _ H).
  destruct H as (a & s' & -> & _ & Ha). destruct (ascii_dec a "]") as [->|]; [done|].
  destruct a as [[] [] [] [] [] [] [] []]; done.
Qed.

Lemma value_object_members f d s : (exists y, s = String (zb 34) y) ->
  value (S f) (S d) (String "{" s) = (let? '(l, r) := members (value f) f d [] s in Some (JObj l, r)).
Proof.
  intros [y ->]. cbn [value skip_space]. change (is_space "{") with false. cbn match.
  change (bz "{" =? 34) with false. change (bz "{" =? 91) with false. change (bz "{" =? 123) with true. done.
Qed.

Definition reads_back (f : nat) (d : doc) : Prop :=
  forall depth x, canonical depth d -> (len (doc_text d) < f)%nat -> stops x = true ->
    value f depth (doc_text d +:+ x) = Some (json_of d, x).

Lemma array_reads_back f items : (forall d, reads_back f d) -> reads_back (S f) (DArr items).
Proof.
  intros IH [|n] x; [done|]. cbn [canonical doc_text json_of]. rewrite foldr_Forall. intros Hl Hf Hx.
  destruct items as [|v items]; [by vm_compute|]. unfold array_text in *. rewrite <- !string_app_assoc, string_app_cons, string_app_nil_l.
  rewrite string_app_cons, string_app_nil_l. rewrite !string_length_app in Hf. cbn [String.length] in Hf.
  set (l := v :: items) in *. set (body := String.concat "," (map doc_text l)) in *.
  assert (Hne : Forall (fun t => t <> "") (map doc_text l)) by (apply Forall_fmap; eapply Forall_impl; [exact Hl|intros; by eapply text_nonempty]).
  rewrite value_array_items.
  2:{ subst body l. apply Forall_cons in Hl as [Hv _]. apply text_begins in Hv. destruct items; cbn [map String.concat]; rewrite <- ?string_app_assoc; by apply begins_app. }
  assert (Hbody : body = String.concat "," (map fst (map (fun d => (doc_text d, json_of d)) l))) by (subst body; by rewrite map_map).
  rewrite Hbody, elements_reads.
  - cbn [mbind option_bind app]. by rewrite map_map.
  - subst l. done.
  - pose proof (concat_length _ Hne) as H. fold body in H. rewrite !length_map in *. lia.
  - apply Forall_fmap, Forall_forall. intros d Hd y Hy. cbn. rewrite Forall_forall in Hl. apply IH; [by apply Hl| |done].
    assert (len (doc_text d) <= len body)%nat; [|lia]. apply concat_item_length. by apply list_elem_of_fmap_2.
Qed.

Definition doc_member (m : string * doc) : string * string * json := (m.1, doc_text m.2, json_of m.2).

Lemma object_reads_back f members : (forall d, reads_back f d) -> reads_back (S f) (DObj members).
Proof.
  intros IH [|n] x; [done|]. cbn [canonical doc_text json_of]. rewrite foldr_Forall. intros [_ Hl] Hf Hx.
  destruct members as [|m members]; [by vm_compute|]. unfold object_text in *. rewrite <- !string_app_assoc, string_app_cons, string_app_nil_l.
  rewrite string_app_cons, string_app_nil_l. rewrite !string_length_app in Hf. cbn [String.length] in Hf.
  set (l := m :: members) in *. rewrite !map_map in *. change (map (fun m => member_text _) l) with (map (fun m => member_text (member_of (doc_member m))) l) in *.
  set (body := String.concat "," _) in *.
  assert (Hlen : forall m, m ∈ l -> (len (doc_text m.2) < len (member_text (member_of (doc_member m))))%nat).
  { intros m' _. unfold member_text, json_string, dquote. cbn. rewrite !string_length_app. cbn [String.length]. lia. }
  assert (Hbody : body = String.concat "," (map (fun p => member_text (member_of p)) (map doc_member l))) by (subst body; by rewrite map_map).
  rewrite value_object_members.
  2:{ subst body l. destruct members; cbn [map String.concat]; unfold member_text, json_string, dquote; rewrite <- !string_app_assoc; eexists; reflexivity. }
  rewrite Hbody, members_reads.
  - cbn [mbind option_bind app]. by rewrite map_map.
  - by subst l.
  - assert (Hne : Forall (fun t => t <> "") (map (fun m => member_text (member_of (doc_member m))) l)).
    { apply Forall_fmap, Forall_forall. intros m' _ H. unfold compose, member_text, json_string, dquote in H. by rewrite <- !string_app_assoc in H. }
    pose proof (concat_length _ Hne) as H. fold body in H. rewrite !length_map in *. lia.
  - apply Forall_fmap, Forall_forall. intros m' Hm y Hy. cbn. rewrite Forall_forall in Hl. apply IH; [by apply Hl| |done].
    pose proof (Hlen _ Hm) as H1. pose proof (concat_item_length (map (fun m => member_text (member_of (doc_member m))) l) _ (list_elem_of_fmap_2 _ _ _ Hm)) as H2.
    fold body in H2. lia.
Qed.

Lemma doc_reads f d : reads_back f d.
Proof.
  revert d. induction f as [|f IH]; intros d depth x Hd Hf Hx; [lia|].
  destruct d as [|b|t|s|l|l].
  - by destruct x.
  - by destruct b, x.
  - by apply number_value.
  - apply value_string.
  - by apply array_reads_back.
  - by apply object_reads_back.
Qed.

(** A canonical text is read to the document it was written from. *)
Lemma decode_first_text d : canonical maxNestingDepth d -> decode_first (doc_text d) = Some (json_of d, "").
Proof.
  intros Hd. unfold decode_first. rewrite <- (string_app_nil_r (doc_text d)) at 2. apply doc_reads; [done|lia|done].
Qed.

Lemma parse_text d : canonical maxNestingDepth d -> parse_json (doc_text d) = Some (json_of d).
Proof.
  intros Hd. unfold parse_json. pose proof (decode_first_text d Hd) as H. unfold decode_first in H. by rewrite H.
Qed.

Lemma decode_first_canonical raw v rest : decode_first raw = Some (v, rest) -> canonical maxNestingDepth (doc_of v).
Proof. apply value_canonical. Qed.

(** [canonicalize] writes a canonical document. *)
Lemma canonicalize_Ok raw c : canonicalize raw = Ok c <->
  exists v rest, raw <> "" /\ decode_first raw = Some (v, rest) /\ more rest = false /\ c = doc_text (doc_of v).
Proof.
  unfold canonicalize. case_bool_decide; [split; [done|naive_solver]|].
  destruct (decode_first raw) as [[v rest]|]; [|split; [done|naive_solver]].
  destruct (more rest) eqn:Hm; (split; [|intros (v' & rest' & _ & [= <- <-] & Hm' & ->); by rewrite Hm in Hm' || done]); [done|].
  intros [= <-]. by exists v, rest.
Qed.

Lemma canonicalize_text d : canonical maxNestingDepth d -> canonicalize (doc_text d) = Ok (doc_text d).
Proof.
  intros Hd. apply canonicalize_Ok. exists (json_of d), "". rewrite (doc_of_json_of d _ Hd).
  split_and!; [by eapply text_nonempty|by apply decode_first_text|done|done].
Qed.

(** The canonical form of a text is a fixed point. *)
Lemma canonicalize_idempotent raw c : canonicalize raw = Ok c -> canonicalize c = Ok c.
Proof. intros (v & rest & _ & Hv & _ & ->)%canonicalize_Ok. by apply canonicalize_text, (decode_first_canonical raw v rest). Qed.
