(* ===== verification/RestPath.v ===== *)
(** * Filling a path template ([fillPath] and [validPathValue], internal/gateway/resthttp/resthttp.go)

    A template [ParsePath] accepts is a list of literal bytes and holes.  Filled with values
    [validPathValue] accepts it keeps its segments: no value adds one, empties one, or makes a dot
    segment of one, and what a server decodes is the values themselves. *)
From Stdlib Require Import ZArith Lia Ascii.
From stdpp Require Import base strings list.
From S2P Require Import Prelude.
From S2P Require Import GoStrings.
From S2P Require Import Utf8.
From S2P Require Import GoTime.
From S2P Require Import Json.
From S2P Require Import Redact.
From S2P Require Import JsonStrings.
From S2P Require Import Registry.
From S2P Require Import Moments.
From S2P Require Import RestOperations.
From S2P Require Import JsonCanon.

Inductive fill_error :=
| NoArgument (name : string)
| OutOfBounds.          (* an unterminated template: the slice expression panics *)

Fixpoint fill_from (fuel : nat) (s : string) (pathValues : list (string * string)) : result fill_error string :=
  match fuel, s with
  | _, EmptyString | O, _ => Ok ""
  | S fuel, String c rest =>
      if bool_decide (c = "{"%char) then
        match cut rest "}" with
        | None => Err OutOfBounds
        | Some (name, after) =>
            match assoc name pathValues with
            | None => Err (NoArgument name)
            | Some v => tail <-? fill_from fuel after pathValues;; Ok (PathEscape v +:+ tail)
            end
        end
      else tail <-? fill_from fuel rest pathValues;; Ok (String c tail)
  end.

Definition fillPath (template : string) (pathValues : list (string * string)) : result fill_error string :=
  fill_from (String.length template) template pathValues.

Inductive value_fault := ValueEmpty | ValueDotSegment | ValueSlash | ValueControl.

Definition control_byte (a : ascii) : bool := (bz a <? 32) || (bz a =? 127).

Definition validPathValue (v : string) : option value_fault :=
  if bool_decide (v = "") then Some ValueEmpty
  else if bool_decide (v = ".") || bool_decide (v = "..") then Some ValueDotSegment
  else if contains_byte v "/" then Some ValueSlash
  else if negb (str_forallb (fun a => negb (control_byte a)) v) then Some ValueControl
  else None.

(** [url.PathUnescape]; [None] is an invalid escape. *)
Fixpoint PathUnescape (s : string) : option string :=
  match s with
  | EmptyString => Some ""
  | String a s' =>
      if bool_decide (a = "%"%char) then
        match s' with
        | String h1 (String h2 s'') =>
            if is_hex h1 && is_hex h2 then
              option_map (String (zb (hex_value h1 * 16 + hex_value h2))) (PathUnescape s'')
            else None
        | _ => None
        end
      else option_map (String a) (PathUnescape s')
  end.

Example fill_ex :
  fillPath "/v1/{id}/x.{f}" [("f", "a b"); ("id", "7?/..")] = Ok "/v1/7%3F%2F../x.a%20b"
  /\ fillPath "/{id}" [] = Err (NoArgument "id") /\ PathUnescape "a%20b%2f" = Some "a b/" /\ PathUnescape "%2" = None.
Proof. vm_compute. done. Qed.

(** ** A template as a list of pieces *)

Inductive piece := Lit (a : ascii) | Hole (name : string).

#[global] Instance piece_eq_dec : EqDecision piece.
Proof. solve_decision. Defined.

Definition render_piece (f : string -> string) (p : piece) : string :=
  match p with Lit a => String a "" | Hole n => f n end.

(** The template, or the path, or what the path stands for, by what is written for a hole. *)
Fixpoint render (f : string -> string) (ps : list piece) : string :=
  match ps with [] => "" | p :: ps => render_piece f p +:+ render f ps end.

Definition brace (n : string) : string := "{" +:+ n +:+ "}".

Definition holes (ps : list piece) : list string := omap (fun p => match p with Hole n => Some n | Lit _ => None end) ps.

Definition legal (p : piece) : Prop :=
  match p with Lit a => isPathChar a = true | Hole n => templateNameChars n = true end.

Lemma contains_app a b c : contains_byte (a +:+ b) c = contains_byte a c || contains_byte b c.
Proof. induction a as [|x a IH]; [by rewrite string_app_nil_l|]. rewrite string_app_cons. cbn [contains_byte]. by rewrite IH, orb_assoc. Qed.

Lemma cut_before s c b r : cut s c = Some (b, r) -> contains_byte b c = false.
Proof.
  revert b r. induction s as [|a s IH]; intros b r; cbn [cut]; [done|]. case_bool_decide; [by intros [= <- <-]|].
  destruct (cut s c) as [[b' r']|]; [|done]. intros [= <- <-]. cbn [contains_byte]. rewrite bool_decide_false by done. by eapply IH.
Qed.

(** The bytes a literal may be. *)
Lemma path_char_plain a c : isPathChar a = true -> c ∈ ["{"; "}"; "%"; "?"; "#"]%char -> a <> c.
Proof. intros Ha Hc ->. revert Ha. repeat (apply elem_of_cons in Hc as [->|Hc]; [by vm_compute|]). by apply elem_of_nil in Hc. Qed.

Lemma scan_pieces fuel s seen names : scan_path fuel s seen = Ok names -> (String.length s <= fuel)%nat ->
  exists ps, render brace ps = s /\ Forall legal ps /\ names = seen ++ holes ps.
Proof.
  revert s seen. induction fuel as [|fuel IH]; intros [|c s] seen; cbn [scan_path String.length]; try lia.
  1,2: intros [= <-] _; exists []; by rewrite app_nil_r.
  destruct (bool_decide_reflect (c = "{"%char)) as [->|Hopen].
  - destruct (cut s "}") as [[name after]|] eqn:Hcut; [|done]. destruct (contains_byte name "{" || _); [done|].
    destruct (templateNameChars name) eqn:Hn; cbn [negb]; [|done]. case_bool_decide; [done|].
    apply cut_app in Hcut as ->. rewrite string_length_app. cbn [String.length]. intros Hs Hl.
    apply IH in Hs as (ps & <- & Hps & ->); [|lia]. exists (Hole name :: ps). split_and!; [|by constructor|by rewrite <- app_assoc].
    cbn [render render_piece]. unfold brace. rewrite !string_app_cons, string_app_nil_l. f_equal. by rewrite <- string_app_assoc.
  - do 3 (case_bool_decide; [done|]). cbn [orb]. case_bool_decide; [done|]. destruct (isPathChar c) eqn:Hc; [|done]. cbn [negb].
    intros Hs Hl. apply IH in Hs as (ps & <- & Hps & ->); [|lia]. exists (Lit c :: ps). split_and!; [|by constructor|done].
    cbn [render render_piece]. by rewrite string_app_cons, string_app_nil_l.
Qed.

Lemma template_name_plain n c : templateNameChars n = true -> c ∈ ["{"; "}"; "/"; ";"]%char -> contains_byte n c = false.
Proof.
  unfold templateNameChars. rewrite andb_true_iff. intros [_ Hn] Hc. induction n as [|a n IH]; [done|].
  cbn [str_forallb contains_byte] in *. apply andb_true_iff in Hn as [Ha Hn]. rewrite IH by done. rewrite orb_false_r.
  apply bool_decide_eq_false_2. intros ->. repeat (apply elem_of_cons in Hc as [->|Hc]; [by vm_compute in Ha|]). by apply elem_of_nil in Hc.
Qed.

(** What a hole is filled with: the value of its name, [""] for none. *)
Definition value_of (pathValues : list (string * string)) (n : string) : string := default "" (assoc n pathValues).

Definition missing (pathValues : list (string * string)) (n : string) : bool := negb (bool_decide (is_Some (assoc n pathValues))).

Lemma render_length f ps : (String.length (render brace ps) <= f)%nat ->
  match ps with [] => True | p :: ps => exists f', f = S f' /\ (String.length (render brace ps) <= f')%nat end.
Proof.
  destruct ps as [|p ps]; [done|]. cbn [render]. rewrite string_length_app. intros H.
  assert (1 <= String.length (render_piece brace p))%nat by (destruct p; simpl; lia). destruct f as [|f]; [lia|]. exists f. split; [done|lia].
Qed.

Lemma fill_pieces f ps vals : Forall legal ps -> (String.length (render brace ps) <= f)%nat ->
  fill_from f (render brace ps) vals =
  match List.find (missing vals) (holes ps) with
  | Some n => Err (NoArgument n)
  | None => Ok (render (fun n => PathEscape (value_of vals n)) ps)
  end.
Proof.
  revert f. induction ps as [|p ps IH]; intros f Hl Hf; [by destruct f|]. apply Forall_cons in Hl as [Hp Hl].
  apply render_length in Hf as (f' & -> & Hf). specialize (IH f' Hl Hf). destruct p as [a|n]; cbn [render render_piece fill_from].
  - rewrite string_app_cons, string_app_nil_l. cbn [fill_from]. rewrite bool_decide_eq_false_2 by (by apply path_char_plain; [|left]).
    rewrite IH. cbn [holes omap list_omap]. fold (holes ps). destruct (List.find _ _); [done|]. cbn [rbind]. by rewrite string_app_cons, string_app_nil_l.
  - unfold brace at 1. rewrite <- !string_app_assoc, !string_app_cons, !string_app_nil_l. cbn [fill_from]. rewrite bool_decide_eq_true_2 by done.
    rewrite cut_no_byte by (apply template_name_plain; [done|right; left]). cbn [holes omap list_omap List.find]. fold (holes ps).
    unfold missing at 1, value_of at 1. destruct (assoc n vals) as [v|]; cbn [bool_decide]; [|done].
    rewrite bool_decide_eq_true_2 by eauto. cbn [negb default]. rewrite IH. by destruct (List.find _ _).
Qed.

(** *** Segments *)

Fixpoint piece_segments (ps : list piece) : list (list piece) :=
  match ps with
  | [] => [[]]
  | p :: ps =>
      if bool_decide (p = Lit "/") then [] :: piece_segments ps
      else match piece_segments ps with h :: t => (p :: h) :: t | [] => [[p]] end
  end.

Lemma split_on_app sep a b : contains_byte a sep = false ->
  split_on sep (a +:+ b) = match split_on sep b with h :: t => (a +:+ h) :: t | [] => [a] end.
Proof.
  assert (Hne : forall s, split_on sep s <> []).
  { intros s. destruct s as [|x s]; cbn [split_on]; [done|]. case_bool_decide; [done|]. by destruct (split_on sep s). }
  induction a as [|x a IH]; cbn [contains_byte]; [by intros _; rewrite string_app_nil_l; destruct (split_on sep b) eqn:E; [by destruct (Hne b)|]|].
  rewrite orb_false_iff, bool_decide_eq_false. intros [Hx Ha]. rewrite string_app_cons. cbn [split_on].
  rewrite bool_decide_eq_false_2 by done. rewrite IH by done. by destruct (split_on sep b).
Qed.

Lemma piece_segments_nonempty ps : exists h t, piece_segments ps = h :: t.
Proof. destruct ps as [|p ps]; cbn [piece_segments]; [by eexists _, _|]. case_bool_decide; [by eexists _, _|]. destruct (piece_segments ps); by eexists _, _. Qed.

Lemma split_render f ps : Forall (fun n => contains_byte (f n) "/" = false) (holes ps) ->
  split_on "/" (render f ps) = map (render f) (piece_segments ps).
Proof.
  induction ps as [|[a|n] ps IH]; [done| |]; cbn [holes omap list_omap piece_segments render render_piece]; fold (holes ps); intros Hf.
  - rewrite string_app_cons, string_app_nil_l. cbn [split_on]. rewrite IH by done.
    destruct (bool_decide_reflect (a = "/"%char)) as [->|Ha]; [by rewrite bool_decide_eq_true_2 by done|].
    rewrite bool_decide_eq_false_2 by congruence. by destruct (piece_segments_nonempty ps) as (h & t & ->).
  - apply Forall_cons in Hf as [Hn Hf]. rewrite split_on_app by done. rewrite IH by done. rewrite bool_decide_eq_false_2 by done.
    by destruct (piece_segments_nonempty ps) as (h & t & ->).
Qed.

(** *** What is written for a value *)

Definition hex_pair_ok (z : Z) : bool :=
  match fmt_hex 2 z with
  | String h1 (String h2 EmptyString) => is_hex h1 && is_hex h2 && (hex_value h1 * 16 + hex_value h2 =? z) && unreserved h1 && unreserved h2
  | _ => false
  end.

Lemma hex_pairs : forallb hex_pair_ok (seqZ 0 256) = true.
Proof. by vm_compute. Qed.

Lemma hex_pair a : exists h1 h2, fmt_hex 2 (bz a) = String h1 (String h2 "") /\ is_hex h1 && is_hex h2 = true
  /\ hex_value h1 * 16 + hex_value h2 = bz a /\ unreserved h1 = true /\ unreserved h2 = true.
Proof.
  pose proof hex_pairs as H. rewrite forallb_forall in H. specialize (H (bz a)). rewrite <- list_elem_of_In, elem_of_seqZ in H.
  pose proof (bz_range a). specialize (H ltac:(lia)). unfold hex_pair_ok in H.
  destruct (fmt_hex 2 (bz a)) as [|h1 [|h2 [|]]]; try done. rewrite !andb_true_iff, Z.eqb_eq in H. exists h1, h2.
  destruct H as [[[[? ?] ?] ?] ?]. split_and!; [done|by apply andb_true_iff|done..].
Qed.

Definition path_kept (a : ascii) : bool := unreserved a || contains_byte "$&+:=@" a.

Lemma PathEscape_cons a v :
  PathEscape (String a v) = (if path_kept a then String a "" else "%" +:+ fmt_hex 2 (bz a)) +:+ PathEscape v.
Proof. done. Qed.

(** A byte that is escaped, and is neither the escape's sign nor a digit, is not written at all. *)
Lemma PathEscape_hides v c : path_kept c = false -> c <> "%"%char -> contains_byte (PathEscape v) c = false.
Proof.
  intros Hc Hp. induction v as [|a v IH]; [done|]. rewrite PathEscape_cons, contains_app, IH, orb_false_r.
  assert (Hk : forall x, unreserved x = true -> x <> c) by (intros x Hx ->; unfold path_kept in Hc; by rewrite Hx in Hc).
  destruct (path_kept a) eqn:Ha; cbn [contains_byte].
  - rewrite orb_false_r. apply bool_decide_eq_false_2. intros ->. congruence.
  - destruct (hex_pair a) as (h1 & h2 & -> & _ & _ & H1 & H2). rewrite string_app_cons, string_app_nil_l. cbn [contains_byte].
    rewrite !bool_decide_eq_false_2; [done|by apply Hk|by apply Hk|done].
Qed.

Lemma PathUnescape_Escape v x : PathUnescape (PathEscape v +:+ x) = option_map (fun t => v +:+ t) (PathUnescape x).
Proof.
  induction v as [|a v IH]; [rewrite string_app_nil_l; destruct (PathUnescape x); [cbn [option_map]; by rewrite string_app_nil_l|done]|].
  rewrite PathEscape_cons, <- string_app_assoc. destruct (path_kept a) eqn:Ha.
  - rewrite string_app_cons, string_app_nil_l. cbn [PathUnescape]. rewrite bool_decide_eq_false_2 by (intros ->; by vm_compute in Ha).
    rewrite IH. destruct (PathUnescape x); cbn [option_map]; [by rewrite string_app_cons|done].
  - destruct (hex_pair a) as (h1 & h2 & -> & Hh & Hz & _ & _). rewrite <- !string_app_assoc, !string_app_cons, !string_app_nil_l. cbn [PathUnescape].
    rewrite bool_decide_eq_true_2, Hh, Hz, zb_bz, IH by done. destruct (PathUnescape x); cbn [option_map]; [by rewrite string_app_cons|done].
Qed.

Lemma PathUnescape_render val ps : Forall legal ps ->
  PathUnescape (render (fun n => PathEscape (val n)) ps) = Some (render val ps).
Proof.
  induction 1 as [|[a|n] ps Hp _ IH]; [done| |]; cbn [render render_piece].
  - rewrite !string_app_cons, !string_app_nil_l. cbn [PathUnescape].
    rewrite bool_decide_eq_false_2 by (apply path_char_plain; [done|right; right; left]). by rewrite IH.
  - by rewrite PathUnescape_Escape, IH.
Qed.

(** *** No dot segment is made *)

Fixpoint head_pieces (ps : list piece) : list piece :=
  match ps with
  | [] => []
  | p :: ps => if bool_decide (p = Lit ";") then [] else p :: head_pieces ps
  end.

Lemma segment_head_app a b : contains_byte a ";" = false -> segment_head (a +:+ b) = a +:+ segment_head b.
Proof.
  unfold segment_head. induction a as [|x a IH]; cbn [contains_byte]; [by intros _; rewrite !string_app_nil_l|].
  rewrite orb_false_iff, bool_decide_eq_false. intros [Hx Ha]. rewrite !string_app_cons. cbn [cut]. rewrite bool_decide_eq_false_2 by done.
  specialize (IH Ha). destruct (cut (a +:+ b) ";") as [[h t]|]; by rewrite <- IH.
Qed.

Lemma head_render f ps : Forall (fun n => contains_byte (f n) ";" = false) (holes ps) ->
  segment_head (render f ps) = render f (head_pieces ps).
Proof.
  induction ps as [|[a|n] ps IH]; [done| |]; cbn [holes omap list_omap head_pieces render render_piece]; fold (holes ps); intros Hf.
  - destruct (bool_decide_reflect (a = ";"%char)) as [->|Ha].
    + by rewrite string_app_cons, bool_decide_eq_true_2 by done.
    + rewrite bool_decide_eq_false_2 by congruence. rewrite segment_head_app; [by rewrite IH|].
      cbn [contains_byte]. by rewrite bool_decide_eq_false_2.
  - apply Forall_cons in Hf as [Hn Hf]. rewrite bool_decide_eq_false_2 by done. rewrite segment_head_app by done. by rewrite IH.
Qed.

Definition is_dot (a : ascii) : bool := bool_decide (a = "."%char).

Lemma dots_kept v : str_forallb is_dot (PathEscape v) = true -> PathEscape v = v.
Proof.
  induction v as [|a v IH]; [done|]. rewrite PathEscape_cons, forallb_app_string, andb_true_iff. intros [Ha Hv].
  rewrite IH by done. by destruct (path_kept a).
Qed.

Lemma PathEscape_length v : (String.length v <= String.length (PathEscape v))%nat.
Proof.
  induction v as [|a v IH]; [done|]. rewrite PathEscape_cons, string_length_app. destruct (path_kept a); [simpl; lia|].
  destruct (hex_pair a) as (h1 & h2 & -> & _). simpl. lia.
Qed.

Lemma few_dots s : str_forallb is_dot s = true -> (String.length s <= 2)%nat -> s = "" \/ s = "." \/ s = "..".
Proof.
  unfold is_dot. destruct s as [|a [|b [|c s]]]; cbn [str_forallb String.length]; [by left| | |lia].
  - rewrite andb_true_iff, bool_decide_eq_true. intros [-> _] _. by right; left.
  - rewrite !andb_true_iff, !bool_decide_eq_true. intros (-> & -> & _) _. by right; right.
Qed.

(** A value in a text of one or two dots is one the check refuses. *)
Lemma value_in_dots val n ps : Hole n ∈ ps -> validPathValue (val n) = None ->
  str_forallb is_dot (render (fun n => PathEscape (val n)) ps) = true ->
  (2 < String.length (render (fun n => PathEscape (val n)) ps))%nat.
Proof.
  intros Hin Hv Hd. assert (Hsub : str_forallb is_dot (PathEscape (val n)) = true
    /\ (String.length (PathEscape (val n)) <= String.length (render (fun n => PathEscape (val n)) ps))%nat).
  { induction ps as [|p ps IH]; [by apply elem_of_nil in Hin|]. cbn [render] in *. rewrite forallb_app_string, andb_true_iff in Hd.
    rewrite string_length_app. destruct Hd as [Hp Hd]. apply elem_of_cons in Hin as [<-|Hin]; cbn [render_piece] in *; [split; [done|lia]|].
    destruct (IH Hin Hd). split; [done|lia]. }
  destruct Hsub as [Hdots Hlen]. pose proof (dots_kept _ Hdots) as Hk. rewrite Hk in Hdots, Hlen. destruct (Nat.lt_ge_cases 2 (String.length (val n))); [lia|].
  unfold validPathValue in Hv. destruct (few_dots (val n) Hdots) as [H1|[H1|H1]]; [lia|..]; rewrite H1 in Hv; by vm_compute in Hv.
Qed.

Definition dots_only (s : string) : Prop := s = "." \/ s = "..".

Lemma head_not_dots val ps : Forall (fun n => validPathValue (val n) = None) (holes ps) ->
  ~ dots_only (render brace ps) -> ~ dots_only (render (fun n => PathEscape (val n)) ps).
Proof.
  intros Hv Hb Hd. destruct (holes ps) as [|n l] eqn:Hh.
  - apply Hb. replace (render brace ps) with (render (fun n => PathEscape (val n)) ps); [done|].
    clear - Hh. induction ps as [|[a|n] ps IH]; [done| |done]. cbn [render render_piece]. f_equal. apply IH. exact Hh.
  - assert (Hn : n ∈ holes ps) by (rewrite Hh; left). unfold holes in Hn. apply list_elem_of_omap in Hn as ([|n'] & Hin & [= ->]).
    apply Forall_cons in Hv as [Hv _]. pose proof (value_in_dots val n ps Hin Hv) as H. destruct Hd as [Hd|Hd]; rewrite Hd in H; specialize (H eq_refl); simpl in H; lia.
Qed.

(** *** The path a call is made on *)

Lemma piece_segments_holes ps : Forall (fun seg => forall n, n ∈ holes seg -> n ∈ holes ps) (piece_segments ps).
Proof.
  induction ps as [|p ps IH]; cbn [piece_segments]; [by repeat constructor|].
  assert (Hp : forall n, n ∈ holes ps -> n ∈ holes (p :: ps)) by (intros n Hn; unfold holes; destruct p; [done|by right]).
  case_bool_decide; [constructor; [by intros ? ?%elem_of_nil|eapply Forall_impl; [exact IH|naive_solver]]|].
  destruct (piece_segments_nonempty ps) as (h & t & Hseg). rewrite Hseg in *. apply Forall_cons in IH as [Hh Ht].
  constructor; [|eapply Forall_impl; [exact Ht|naive_solver]]. intros n Hn. unfold holes in Hn. destruct p as [a|n0]; cbn in Hn.
  - apply Hp, Hh, Hn.
  - apply elem_of_cons in Hn as [->|Hn]; [left|by apply Hp, Hh].
Qed.

Lemma head_pieces_holes ps n : n ∈ holes (head_pieces ps) -> n ∈ holes ps.
Proof.
  induction ps as [|p ps IH]; [done|]. cbn [head_pieces]. case_bool_decide; [by intros ?%elem_of_nil|].
  unfold holes in *. destruct p; cbn; [done|]. rewrite !elem_of_cons. naive_solver.
Qed.

Lemma brace_hides n c : templateNameChars n = true -> c ∈ ["/"; ";"]%char -> contains_byte (brace n) c = false.
Proof.
  intros Hn Hc. unfold brace. rewrite !contains_app, (template_name_plain n c Hn) by (by right; right).
  repeat (apply elem_of_cons in Hc as [->|Hc]; [done|]). by apply elem_of_nil in Hc.
Qed.

Lemma legal_holes ps : Forall legal ps -> Forall (fun n => templateNameChars n = true) (holes ps).
Proof. induction 1 as [|[a|n] ps Hp _ IH]; [done|done|]. by constructor. Qed.

Lemma dot_segment_dots s : dot_segment s = false <-> ~ dots_only (segment_head s).
Proof. unfold dot_segment, dots_only. rewrite orb_false_iff, !bool_decide_eq_false. naive_solver. Qed.

Lemma segments_not_dots val ps :
  Forall (fun n => templateNameChars n = true) (holes ps) -> Forall (fun n => validPathValue (val n) = None) (holes ps) ->
  Forall (fun seg => dot_segment (render brace seg) = false) (piece_segments ps) ->
  Forall (fun seg => dot_segment (render (fun n => PathEscape (val n)) seg) = false) (piece_segments ps).
Proof.
  rewrite !Forall_forall. intros Hl Hv Hb seg Hseg. specialize (Hb seg Hseg).
  pose proof (proj1 (Forall_forall _ _) (piece_segments_holes ps) seg Hseg) as Hin.
  rewrite dot_segment_dots, head_render in *.
  - apply head_not_dots; [|done]. apply Forall_forall. intros n Hn. by apply Hv, Hin, head_pieces_holes.
  - apply Forall_forall. intros n Hn. apply brace_hides; [by apply Hl, Hin|by right; left].
  - apply Forall_forall. intros n Hn. by apply PathEscape_hides.
Qed.

(** A filled template: the pieces of the template, the values in its holes. *)
Record stays_put (template : string) (names : list string) (vals : list (string * string)) (p : string) (ps : list piece) : Prop := {
  put_template : render brace ps = template /\ holes ps = names /\ Forall legal ps;
  put_path : p = render (fun n => PathEscape (value_of vals n)) ps;
  (** A server decodes the values themselves. *)
  put_decoded : PathUnescape p = Some (render (value_of vals) ps);
  (** Segment by segment, it is the template's, encoded or not. *)
  put_segments : split_on "/" template = map (render brace) (piece_segments ps)
    /\ split_on "/" p = map (render (fun n => PathEscape (value_of vals n))) (piece_segments ps)
    /\ split_on "/" (render (value_of vals) ps) = map (render (value_of vals)) (piece_segments ps);
  (** None is a dot segment, and one is empty only where the template's is. *)
  put_no_dots : Forall (fun s => dot_segment s = false) (split_on "/" p);
  put_empty : Forall (fun seg => render (fun n => PathEscape (value_of vals n)) seg = "" -> render brace seg = "") (piece_segments ps);
  (** It is a path and nothing else. *)
  put_rooted : has_prefix p "/" = true;
  put_plain : contains_byte p "?" = false /\ contains_byte p "#" = false
}.

Lemma render_hides val ps c : Forall legal ps -> c ∈ ["?"; "#"]%char ->
  contains_byte (render (fun n => PathEscape (val n)) ps) c = false.
Proof.
  intros Hl Hc. induction Hl as [|[a|n] ps Hp _ IH]; [done| |]; cbn [render render_piece]; rewrite contains_app, IH, orb_false_r.
  - cbn [contains_byte]. rewrite bool_decide_eq_false_2; [done|]. apply path_char_plain; [done|]. do 3 right. by rewrite elem_of_cons in *; set_solver.
  - apply PathEscape_hides; repeat (apply elem_of_cons in Hc as [->|Hc]; [done|]); by apply elem_of_nil in Hc.
Qed.

Lemma PathEscape_empty v : PathEscape v = "" -> v = "".
Proof. intros H. pose proof (PathEscape_length v) as Hl. rewrite H in Hl. by destruct v; [|simpl in Hl; lia]. Qed.

Lemma render_empty val ps : Forall (fun n => validPathValue (val n) = None) (holes ps) ->
  render (fun n => PathEscape (val n)) ps = "" -> ps = [].
Proof.
  destruct ps as [|[a|n] ps]; [done|done|]. cbn [render render_piece holes omap list_omap]. intros [Hv _]%Forall_cons Hr.
  assert (Hn : val n = ""); [|rewrite Hn in Hv; by vm_compute in Hv].
  apply PathEscape_empty. by destruct (PathEscape (val n)).
Qed.

Lemma ParsePath_pieces template names : ParsePath template = Ok names ->
  exists ps rest, template = String "/" rest /\ render brace ps = template /\ holes ps = names /\ Forall legal ps
    /\ Forall (fun seg => dot_segment (render brace seg) = false) (piece_segments ps).
Proof.
  unfold ParsePath. do 2 (case_match; [done|]). destruct (has_prefix template "/") eqn:Hp; [|done]. cbn [negb].
  destruct (str_contains template "//"); [done|]. destruct (scan_path _ _ _) as [ns|e] eqn:Hs; cbn [rbind]; [|done].
  destruct (List.find _ _) eqn:Hf; [done|]. intros [= <-]. apply scan_pieces in Hs as (ps & Hr & Hl & ->); [|lia].
  apply has_prefix_spec in Hp as [rest ->]. exists ps, rest. split_and!; try done.
  rewrite string_app_cons, string_app_nil_l in *. cbn [str_drop] in Hf.
  assert (Hsplit : split_on "/" (String "/" rest) = "" :: split_on "/" rest) by done.
  rewrite <- Hr, split_render in Hsplit.
  2:{ eapply Forall_impl; [by apply legal_holes|]. intros n Hn. apply brace_hides; [done|left]. }
  apply find_None in Hf. assert (Hall : Forall (fun s => dot_segment s = false) (map (render brace) (piece_segments ps))).
  { rewrite Hsplit. by constructor. }
  by apply Forall_fmap in Hall.
Qed.

(** Where a call can go.  For a template [ParsePath] accepts and values
    [validPathValue] accepts, the template is filled exactly when every one of its names has a value.
    The path then has the template's segments in the template's order, each with the values in its
    holes, encoded; a server that decodes it finds the values themselves, in the same segments; no
    segment is a dot segment, even cut at a [;], and no value empties one; and the path is rooted and
    carries neither a query nor a fragment. *)
Lemma path_stays_put template names vals :
  ParsePath template = Ok names ->
  (forall n v, assoc n vals = Some v -> validPathValue v = None) ->
  match fillPath template vals with
  | Ok p => (forall n, n ∈ names -> is_Some (assoc n vals)) /\ exists ps, stays_put template names vals p ps
  | Err e => exists n, e = NoArgument n /\ n ∈ names /\ assoc n vals = None
  end.
Proof.
  intros (ps & rest & Hroot & Hr & Hn & Hl & Hdots)%ParsePath_pieces Hvalid. unfold fillPath.
  rewrite <- Hr, fill_pieces by done. rewrite Hn. destruct (List.find (missing vals) names) as [n|] eqn:Hf.
  { apply find_some in Hf as [Hin Hm]. exists n. split; [done|]. split; [by apply list_elem_of_In|].
    unfold missing in Hm. apply negb_true_iff, bool_decide_eq_false in Hm. by apply eq_None_not_Some. }
  apply find_None in Hf. rewrite Forall_forall in Hf. assert (Hall : forall n, n ∈ names -> is_Some (assoc n vals)).
  { intros n Hin. specialize (Hf n Hin). unfold missing in Hf. by apply negb_false_iff, bool_decide_eq_true in Hf. }
  assert (Hvals : Forall (fun n => validPathValue (value_of vals n) = None) (holes ps)).
  { apply Forall_forall. intros n Hin. rewrite Hn in Hin. destruct (Hall n Hin) as [v Hv]. unfold value_of. rewrite Hv. by eapply Hvalid. }
  assert (Hsplit : split_on "/" (render (fun n => PathEscape (value_of vals n)) ps)
                   = map (render (fun n => PathEscape (value_of vals n))) (piece_segments ps)).
  { apply split_render, Forall_forall. intros n _. by apply PathEscape_hides. }
  split; [done|]. exists ps. split; try done.
  - by apply PathUnescape_render.
  - split_and!; [| |].
    + apply split_render. eapply Forall_impl; [by apply legal_holes|]. intros n Hname. apply brace_hides; [done|left].
    + done.
    + apply split_render. eapply Forall_impl; [exact Hvals|]. intros n Hv. cbn in Hv. unfold validPathValue in Hv.
      destruct (bool_decide _); [done|]. destruct (_ || _); [done|]. by destruct (contains_byte (value_of vals n) "/").
  - rewrite Hsplit. apply Forall_fmap. by apply segments_not_dots; [apply legal_holes|..].
  - eapply Forall_impl; [apply piece_segments_holes|]. intros seg Hseg He. cbn in Hseg.
    rewrite (render_empty (value_of vals) seg); [done| |done]. apply Forall_forall. intros n Hin. rewrite Forall_forall in Hvals. by apply Hvals, Hseg.
  - rewrite Hroot in Hr. destruct ps as [|[a|n] ps]; [done| |done]. cbn [render render_piece] in *. rewrite string_app_cons, string_app_nil_l in Hr.
    injection Hr as Ha _. rewrite Ha. apply has_prefix_spec. eexists. reflexivity.
  - split; apply render_hides; set_solver.
Qed.
