(* ===== verification/RestRequest.v ===== *)
(** * From a call's arguments to an HTTP request ([internal/gateway/resthttp/resthttp.go])

    The pinned base, the routes of an operation set, [Dial], and the request a call makes: where every
    argument goes, which arguments are refused, and where the credential is put. *)
From Stdlib Require Import ZArith Lia Ascii.
From stdpp Require Import base strings list.
From S2P Require Import Prelude.
From S2P Require Import GoStrings.
From S2P Require Import Utf8.
From S2P Require Import GoTime.
From S2P Require Import Json.
From S2P Require Import Redact.
From S2P Require Import JsonStrings.
From S2P Require Import Registry.
From S2P Require Import GatewayTypes.
From S2P Require Import ToolSchema.
From S2P Require Import RestEgress.
From S2P Require Import RestOperations.
From S2P Require Import JsonCanon.
From S2P Require Import RestPath.

(** ** [net/url] *)

(** [url.URL], as [url.Parse] fills it. *)
Record url_URL := {
  Scheme : string; Opaque : string; User : bool (* userinfo given *); Host : string; UrlPath : string; RawPath : string;
  ForceQuery : bool; RawQuery : string; Fragment : string; RawFragment : string
}.

(** The parser itself is the library's: [None] for an error. *)
Class UrlParser := { url_Parse : string -> option url_URL }.

Definition validOptionalPort (port : string) : bool :=
  match port with
  | EmptyString => true
  | String c rest => bool_decide (c = ":"%char) && str_forallb is_digit rest
  end.

(** [splitHostPort]: the host and its optional port, the brackets of an IPv6 literal dropped. *)
Definition splitHostPort (hostPort : string) : string * string :=
  let '(host, port) :=
    match cut_last hostPort ":" with
    | Some (before, after) => if validOptionalPort (":" +:+ after) then (before, after) else (hostPort, "")
    | None => (hostPort, "")
    end in
  (match cut_prefix host "[" with
   | Some inside => match cut_last inside "]" with Some (literal, EmptyString) => literal | _ => host end
   | None => host
   end, port).

Definition Hostname (u : url_URL) : string := (splitHostPort (Host u)).1.
Definition Port (u : url_URL) : string := (splitHostPort (Host u)).2.

(** [validEncoded] and [escape] of a path, and of a host. *)
Definition path_unescaped (a : ascii) : bool := unreserved a || contains_byte "$&+,/:;=@" a.
Definition validEncoded (s : string) : bool := str_forallb (fun a => contains_byte "!$&'()*+,;=:@[]%" a || path_unescaped a) s.
Definition host_unescaped (a : ascii) : bool := unreserved a || contains_byte "!$&'()*+,;=:[]<>" a || (bz a =? 34).

Definition EscapedPath (path rawPath : string) : string :=
  if negb (bool_decide (rawPath = "")) && validEncoded rawPath && bool_decide (PathUnescape rawPath = Some path) then rawPath
  else if bool_decide (path = "*") then "*"
  else escape_bytes path_unescaped false path.

(** [URL.String], for a URL of a scheme, a host and a rooted path only. *)
Definition url_text (scheme host path rawPath : string) : string :=
  scheme +:+ "://" +:+ escape_bytes host_unescaped false host +:+ EscapedPath path rawPath.

(** ** The base a client is pinned to *)

Record base := { b_scheme : string; b_host : string; b_origin : string; b_path : string; b_hostname : string }.

Inductive base_error :=
| UrlEmpty | UrlSyntax | UrlScheme (scheme : string) | UrlOpaque | UrlUserinfo | UrlQuery | UrlFragment | UrlNoHost
| UrlHostEscape (hostname : string) | UrlBasePath (e : path_error) | UrlTemplate (path : string)
| UrlHostRefused (hostname : string) (why : refusal).

(** [joinHostPort] brackets an IPv6 literal. *)
Definition joinHostPort (host port : string) : string :=
  if contains_byte host ":" then "[" +:+ host +:+ "]:" +:+ port else host +:+ ":" +:+ port.

Definition default_port (scheme : string) : string :=
  if bool_decide (scheme = "https") then "443" else if bool_decide (scheme = "http") then "80" else "".

Definition effective_port (u : url_URL) : string := if bool_decide (Port u = "") then default_port (Scheme u) else Port u.

Definition originOf (u : url_URL) : string := to_lower (Scheme u) +:+ "://" +:+ joinHostPort (to_lower (Hostname u)) (effective_port u).

(** [strings.TrimSuffix(path, "/")]. *)
Definition trim_slash (path : string) : string := match cut_last path "/" with Some (before, EmptyString) => before | _ => path end.

Section urls.
Context `{UP : UrlParser}.

Definition parseBase (raw : string) : result base_error base :=
  if blank raw then Err UrlEmpty
  else match url_Parse raw with
  | None => Err UrlSyntax
  | Some u =>
      if negb (bool_decide (Scheme u = "http")) && negb (bool_decide (Scheme u = "https")) then Err (UrlScheme (Scheme u))
      else if negb (bool_decide (Opaque u = "")) then Err UrlOpaque
      else if User u then Err UrlUserinfo
      else if negb (bool_decide (RawQuery u = "")) || ForceQuery u then Err UrlQuery
      else if negb (bool_decide (Fragment u = "")) || negb (bool_decide (RawFragment u = "")) then Err UrlFragment
      else if bool_decide (Hostname u = "") then Err UrlNoHost
      else if contains_byte (Hostname u) "%" then Err (UrlHostEscape (Hostname u))
      else
        let path := EscapedPath (UrlPath u) (RawPath u) in
        let port := if bool_decide (Port u = "") then (if bool_decide (Scheme u = "https") then "443" else "80") else Port u in
        let made := {| b_scheme := Scheme u; b_host := to_lower (Host u);
                       b_origin := Scheme u +:+ "://" +:+ joinHostPort (to_lower (Hostname u)) port;
                       b_path := trim_slash path; b_hostname := to_lower (Hostname u) |} in
        if bool_decide (path = "") || bool_decide (path = "/") then Ok made
        else match ParsePath path with
        | Err e => Err (UrlBasePath e)
        | Ok (_ :: _) => Err (UrlTemplate path)
        | Ok [] => Ok made
        end
  end.

Definition literalHostRefusal `{AP : AddrParser} (egress : Addr -> option refusal) (b : base) : option base_error :=
  match ParseAddr (b_hostname b) with
  | None => None
  | Some a => match egress a with Some why => Some (UrlHostRefused (b_hostname b) why) | None => None end
  end.

Definition ValidateBaseURL `{AP : AddrParser} (raw : string) : option base_error :=
  match parseBase raw with Err e => Some e | Ok b => literalHostRefusal refuseAddr b end.
End urls.

Definition maxRedirects : nat := 3.

Inductive redirect := ErrUseLastResponse | RedirectRefused (got : string).

(** [checkRedirect], [None] to follow; [via] are the requests already sent. *)
Definition checkRedirect {A} (b : base) (target : url_URL) (via : list A) : option redirect :=
  if negb (bool_decide (originOf target = b_origin b)) then Some (RedirectRefused (originOf target))
  else if (maxRedirects <=? length via)%nat then Some ErrUseLastResponse
  else None.

(** ** The source text of a value: [json.RawMessage] *)

Definition raw_value (fuel depth : nat) (s : string) : option (string * string) :=
  match value fuel depth s with
  | Some (_, rest) =>
      let s' := skip_space s in
      Some (str_take (String.length s' - String.length rest) s', rest)
  | None => None
  end.

(** [json.Unmarshal] into a [[]json.RawMessage]. *)
Definition raw_items (s : string) : option (list string) :=
  match parse_json s with
  | Some JNull => Some []
  | Some (JArr _) =>
      match skip_space s with
      | String _ s1 =>
          match skip_space s1 with
          | String "]"%char _ => Some []
          | _ => option_map fst (elements (raw_value (S (String.length s))) (S (String.length s)) (Nat.pred maxNestingDepth) [] s1)
          end
      | EmptyString => None
      end
  | _ => None
  end.

(** The members of an object, their keys and the source text of their values; [s] begins with one. *)
Definition raw_members (s : string) : option (list (string * string)) :=
  match skip_space s with
  | String _ s1 =>
      match skip_space s1 with
      | String "}"%char _ => Some []
      | _ =>
          option_map (fun r => map (fun m => (unquote m.1, m.2)) r.1)
            (members (raw_value (S (String.length s))) (S (String.length s)) (Nat.pred maxNestingDepth) [] s1)
      end
  | EmptyString => None
  end.

Example raw_ex :
  raw_items (dq " [ {'a': 1 } ,null, 'x' ] ") = Some [dq "{'a': 1 }"; "null"; dq "'x'"]
  /\ raw_members (dq " { 'a\u0062' : [1, 2] , 'c':-1.5e3} ,") = Some [("ab", "[1, 2]"); ("c", "-1.5e3")].
Proof. vm_compute. done. Qed.

(** [decoder.Decode(&fields)] of a map of raw values, then [decoder.More()]. *)
Inductive fields_error := FieldsNotObject | FieldsTrailing.

Definition decode_fields (args : string) : result fields_error (list (string * string)) :=
  match decode_first args with
  | Some (JNull, rest) => if more rest then Err FieldsTrailing else Ok []
  | Some (JObj _, rest) =>
      match raw_members args with
      | Some l => if more rest then Err FieldsTrailing else Ok (map_of l)
      | None => Err FieldsNotObject
      end
  | _ => Err FieldsNotObject
  end.

(** ** Scalars *)

Inductive scalar_error := ScalarEmpty | ScalarSyntax | ScalarShape.

(** [scalarText]: a string as itself, a number or boolean as written. *)
Definition scalarText (raw : string) : result scalar_error string :=
  let raw := trim_space raw in
  match raw with
  | EmptyString => Err ScalarEmpty
  | String a _ =>
      if bz a =? 34 then match parse_json raw with Some (JStr s) => Ok (unquote s) | _ => Err ScalarSyntax end
      else if (bz a =? 116) || (bz a =? 102) then match parse_json raw with Some (JBool _) => Ok raw | _ => Err ScalarSyntax end
      else if (bz a =? 45) || is_digit a then match parse_json raw with Some (JNum n) => Ok n | _ => Err ScalarSyntax end
      else Err ScalarShape
  end.

(** [scalarTexts]: or an array of scalars, for a query parameter. *)
Definition scalarTexts (raw : string) : result scalar_error (list string) :=
  let trimmed := trim_space raw in
  if has_prefix trimmed "[" then
    match raw_items trimmed with
    | None => Err ScalarSyntax
    | Some items =>
        (fix texts (items : list string) : result scalar_error (list string) :=
           match items with
           | [] => Ok []
           | item :: items => v <-? scalarText item;; rest <-? texts items;; Ok (v :: rest)
           end) items
    end
  else v <-? scalarText raw;; Ok [v].

Definition validHeaderValue (v : string) : bool :=
  str_forallb (fun a => negb (((bz a <? 32) && negb (bz a =? 9)) || (bz a =? 127))) v.

Definition cookie_octet (a : ascii) : bool :=
  let c := bz a in
  (c =? 0x21) || in_range 0x23 0x2b c || in_range 0x2d 0x3a c || in_range 0x3c 0x5b c || in_range 0x5d 0x7e c.

Definition validCookieValue (v : string) : bool := str_forallb cookie_octet v.

Example scalar_ex :
  scalarText (dq "'a\u00e9'") = Ok ("a" +:+ bytes [195; 169]) /\ scalarText "-1.50" = Ok "-1.50" /\ scalarText "null" = Err ScalarShape
  /\ scalarTexts (dq "[1, 'b',true]") = Ok ["1"; "b"; "true"] /\ scalarTexts "[[1]]" = Err ScalarShape.
Proof. vm_compute. done. Qed.

(** ** Headers: [net/http] *)

Fixpoint canonical_key (upper : bool) (s : string) : string :=
  match s with
  | EmptyString => ""
  | String a s' =>
      let c := if upper && in_range 97 122 (bz a) then zb (bz a - 32)
               else if negb upper && in_range 65 90 (bz a) then zb (bz a + 32) else a in
      String c (canonical_key (bool_decide (a = "-"%char)) s')
  end.

(** [http.CanonicalHeaderKey]: a name with a byte no header name has is left as it is. *)
Definition CanonicalHeaderKey (s : string) : string :=
  if str_forallb (fun a => isHTTPTokenChar (bz a)) s then canonical_key true s else s.

Definition Header : Type := list (string * list string).

Definition header_Set (name v : string) (h : Header) : Header := put (CanonicalHeaderKey name) [v] h.

Definition header_Get (name : string) (h : Header) : string :=
  match assoc (CanonicalHeaderKey name) h with Some (v :: _) => v | _ => "" end.

Example canonical_ex : CanonicalHeaderKey "x-API_key-2" = "X-Api_key-2" /\ CanonicalHeaderKey "a b" = "a b".
Proof. vm_compute. done. Qed.

(** [url.Values.Encode]; the values are in key order. *)
Definition values_Encode (q : list (string * list string)) : string :=
  String.concat "&" (flat_map (fun kv => map (fun v => QueryEscape kv.1 +:+ "=" +:+ QueryEscape v) kv.2) q).

(** ** Routes *)

Record rest_route := { r_op : Operation; r_props : list string }.

(** The declared property names. *)
Definition declared (schema : list (string * json)) : list string :=
  match member_value schema "properties" with Some (JObj props) => object_keys props | _ => [] end.

Fixpoint routesOf (ops : list Operation) : result operations_error (list (string * rest_route)) :=
  match ops with
  | [] => Ok []
  | op :: ops =>
      match decodeObject (OpInput op) with
      | Err e => Err (OpSchemaFault (OpName op) (InputDocument e))
      | Ok schema =>
          routes <-? routesOf ops;;
          Ok ((OpName op, {| r_op := op; r_props := declared schema |}) :: routes)
      end
  end.

(** ** The request *)

Inductive arg_error :=
| ArgsNotObject | ArgsTrailing
| ArgUndeclared (key : string)
| ArgScalar (key : string) (e : scalar_error)
| ArgPathValue (key : string) (e : value_fault)
| ArgHeaderValue (key : string) | ArgCookieValue (key : string)
| ArgVocabulary (key : string)
| ArgTemplate (e : fill_error)
| ArgPathEscape | ArgRequest.

(** What the loop over the arguments has placed so far. *)
Record placing := {
  pl_path : list (string * string); pl_query : list (string * list string); pl_header : Header;
  pl_cookies : list string; pl_body : option string
}.

Definition scalar_at (key : string) {A} (r : result scalar_error A) : result arg_error A :=
  match r with Ok v => Ok v | Err e => Err (ArgScalar key e) end.

Definition place (props : list string) (key raw : string) (st : placing) : result arg_error placing :=
  if negb (bool_decide (key ∈ props)) then Err (ArgUndeclared key)
  else if bool_decide (key = BodyProperty) then
    Ok {| pl_path := pl_path st; pl_query := pl_query st; pl_header := pl_header st; pl_cookies := pl_cookies st; pl_body := Some raw |}
  else match cut_prefix key PrefixPath with
  | Some name =>
      v <-? scalar_at key (scalarText raw);;
      match validPathValue v with
      | Some e => Err (ArgPathValue key e)
      | None => Ok {| pl_path := put name v (pl_path st); pl_query := pl_query st; pl_header := pl_header st;
                      pl_cookies := pl_cookies st; pl_body := pl_body st |}
      end
  | None =>
  match cut_prefix key PrefixQuery with
  | Some name =>
      values <-? scalar_at key (scalarTexts raw);;
      Ok {| pl_path := pl_path st; pl_query := put name values (pl_query st); pl_header := pl_header st;
            pl_cookies := pl_cookies st; pl_body := pl_body st |}
  | None =>
  match cut_prefix key PrefixHeader with
  | Some name =>
      v <-? scalar_at key (scalarText raw);;
      if negb (validHeaderValue v) then Err (ArgHeaderValue key)
      else Ok {| pl_path := pl_path st; pl_query := pl_query st; pl_header := header_Set name v (pl_header st);
                 pl_cookies := pl_cookies st; pl_body := pl_body st |}
  | None =>
  match cut_prefix key PrefixCookie with
  | Some name =>
      v <-? scalar_at key (scalarText raw);;
      if negb (validCookieValue v) then Err (ArgCookieValue key)
      else Ok {| pl_path := pl_path st; pl_query := pl_query st; pl_header := pl_header st;
                 pl_cookies := pl_cookies st ++ [name +:+ "=" +:+ v]; pl_body := pl_body st |}
  | None => Err (ArgVocabulary key)
  end end end end.

(** The fields in key order. *)
Fixpoint place_all (props : list string) (fields : list (string * string)) (st : placing) : result arg_error placing :=
  match fields with
  | [] => Ok st
  | (key, raw) :: fields => st <-? place props key raw st;; place_all props fields st
  end.

Record request := { q_method : string; q_url : string (* without its query *); q_header : Header; q_body : option string }.

Definition nothing_placed : placing := {| pl_path := []; pl_query := []; pl_header := []; pl_cookies := []; pl_body := None |}.

Definition headers_of (st : placing) : Header :=
  let h := pl_header st in
  let h := match pl_cookies st with [] => h | cookies => header_Set "Cookie" (String.concat "; " cookies) h end in
  match pl_body st with Some _ => header_Set "Content-Type" "application/json" h | None => h end.

Definition parse_args (args : string) : result arg_error (list (string * string)) :=
  if blank args then Ok []
  else match decode_fields args with
  | Ok fields => Ok fields
  | Err FieldsNotObject => Err ArgsNotObject
  | Err FieldsTrailing => Err ArgsTrailing
  end.

Definition buildRequest `{UP : UrlParser} (b : base) (rt : rest_route) (args : string)
  : result arg_error (request * list (string * list string)) :=
  fields <-? parse_args args;;
  st <-? place_all (r_props rt) fields nothing_placed;;
  match fillPath (OpPath (r_op rt)) (pl_path st) with
  | Err e => Err (ArgTemplate e)
  | Ok filled =>
      let escapedPath := b_path b +:+ filled in
      match PathUnescape escapedPath with
      | None => Err ArgPathEscape
      | Some unescaped =>
          let target := url_text (b_scheme b) (b_host b) unescaped escapedPath in
          match url_Parse target with
          | None => Err ArgRequest
          | Some _ =>
              Ok ({| q_method := Method (r_op rt); q_url := target; q_header := headers_of st; q_body := pl_body st |}, pl_query st)
          end
      end
  end.

(** [inject]: the credential where the descriptor says; what is there is replaced. *)
Definition inject (authKind authName value : string) (req : request) (query : list (string * list string))
  : request * list (string * list string) :=
  let set_header name v :=
    {| q_method := q_method req; q_url := q_url req; q_header := header_Set name v (q_header req); q_body := q_body req |} in
  if bool_decide (authKind = AuthBearer) then (set_header "Authorization" ("Bearer " +:+ value), query)
  else if bool_decide (authKind = AuthHeader) then (set_header authName value, query)
  else if bool_decide (authKind = AuthQuery) then (req, put authName [value] query)
  else (req, query).

(** The text of the URL a request goes to. *)
Definition request_url (req : request) (query : list (string * list string)) : string :=
  let q := values_Encode query in if bool_decide (q = "") then q_url req else q_url req +:+ "?" +:+ q.

(** ** Where the arguments end up *)

(** Everything placed is the value of an argument of that location, a declared property. *)
Record placed_from (props : list string) (fields : list (string * string)) (st : placing) : Prop := {
  pf_path : forall n v, assoc n (pl_path st) = Some v -> PrefixPath +:+ n ∈ props /\ validPathValue v = None
    /\ exists raw, (PrefixPath +:+ n, raw) ∈ fields /\ scalarText raw = Ok v;
  pf_query : forall n vs, assoc n (pl_query st) = Some vs -> PrefixQuery +:+ n ∈ props
    /\ exists raw, (PrefixQuery +:+ n, raw) ∈ fields /\ scalarTexts raw = Ok vs;
  pf_header : forall k vs, assoc k (pl_header st) = Some vs ->
    exists n v, k = CanonicalHeaderKey n /\ PrefixHeader +:+ n ∈ props /\ vs = [v] /\ validHeaderValue v = true
      /\ exists raw, (PrefixHeader +:+ n, raw) ∈ fields /\ scalarText raw = Ok v;
  pf_body : forall raw, pl_body st = Some raw -> BodyProperty ∈ props /\ (BodyProperty, raw) ∈ fields
}.

Lemma nothing_placed_from props fields : placed_from props fields nothing_placed.
Proof. by split. Qed.

Lemma assoc_put_inv {A} k' k (v v' : A) l : assoc k' (put k v l) = Some v' -> k' = k /\ v' = v \/ assoc k' l = Some v'.
Proof. rewrite assoc_put. case_bool_decide; [intros [= <-]; by left|by right]. Qed.

Lemma scalar_at_Ok {A} key (r : result scalar_error A) v : scalar_at key r = Ok v -> r = Ok v.
Proof. destruct r; cbn; congruence. Qed.

Lemma place_from props fields key raw st st' : (key, raw) ∈ fields ->
  placed_from props fields st -> place props key raw st = Ok st' -> placed_from props fields st'.
Proof.
  intros Hin [Hp Hq Hh Hb]. unfold place. destruct (bool_decide_reflect (key ∈ props)) as [Hkey|]; cbn [negb]; [|done].
  case_bool_decide as Hbody; [intros [= <-]; split; cbn; [done..|]; intros raw' [= <-]; by rewrite <- Hbody|].
  destruct (cut_prefix key PrefixPath) as [n|] eqn:E1.
  { apply cut_prefix_spec in E1 as ->. destruct (scalar_at _ _) as [v|] eqn:Hv; cbn [rbind]; [|done]. apply scalar_at_Ok in Hv.
    destruct (validPathValue v) eqn:Hval; [done|]. intros [= <-]. split; cbn; [|done..].
    intros n' v' [[-> ->]|Ha]%assoc_put_inv; [eauto|by eapply Hp]. }
  destruct (cut_prefix key PrefixQuery) as [n|] eqn:E2.
  { apply cut_prefix_spec in E2 as ->. destruct (scalar_at _ _) as [vs|] eqn:Hv; cbn [rbind]; [|done]. apply scalar_at_Ok in Hv.
    intros [= <-]. split; cbn; [done| |done..]. intros n' v' [[-> ->]|Ha]%assoc_put_inv; [eauto|by eapply Hq]. }
  destruct (cut_prefix key PrefixHeader) as [n|] eqn:E3.
  { apply cut_prefix_spec in E3 as ->. destruct (scalar_at _ _) as [v|] eqn:Hv; cbn [rbind]; [|done]. apply scalar_at_Ok in Hv.
    destruct (validHeaderValue v) eqn:Hval; [|done]. intros [= <-]. split; cbn; [done..| |done].
    unfold header_Set. intros k vs [[-> ->]|Ha]%assoc_put_inv; [|by apply Hh]. exists n, v. eauto 7. }
  destruct (cut_prefix key PrefixCookie) as [n|]; [|done]. destruct (scalar_at _ _) as [v|]; cbn [rbind]; [|done].
  destruct (validCookieValue v); [|done]. intros [= <-]. by split.
Qed.

Lemma place_all_from props fields l st st' : (forall kv, kv ∈ l -> kv ∈ fields) ->
  placed_from props fields st -> place_all props l st = Ok st' -> placed_from props fields st'.
Proof.
  revert st. induction l as [|[key raw] l IH]; intros st Hl Hst; cbn [place_all]; [by intros [= <-]|].
  destruct (place props key raw st) as [st1|] eqn:H1; cbn [rbind]; [|done]. apply IH; [intros kv Hkv; apply Hl; by right|].
  eapply place_from; [|exact Hst|exact H1]. apply Hl. by left.
Qed.

(** The case of a header name is no part of its folded form. *)
Lemma lower_byte_fold u a :
  lower_byte (if u && in_range 97 122 (bz a) then zb (bz a - 32) else if negb u && in_range 65 90 (bz a) then zb (bz a + 32) else a) = lower_byte a.
Proof.
  unfold lower_byte, in_range. destruct u; cbn [negb andb].
  - destruct ((97 <=? bz a) && (bz a <=? 122)) eqn:H; [|done]. rewrite !bz_zb, Z.mod_small by lia.
    rewrite (proj2 (andb_true_iff _ _)) by lia. rewrite (proj2 (andb_false_iff _ _)) by lia. rewrite Z.sub_add. apply zb_bz.
  - destruct ((65 <=? bz a) && (bz a <=? 90)) eqn:H; [|by rewrite H]. rewrite !bz_zb, Z.mod_small by lia.
    by rewrite (proj2 (andb_false_iff _ _)) by lia.
Qed.

Lemma to_lower_canonical s : to_lower (CanonicalHeaderKey s) = to_lower s.
Proof.
  unfold CanonicalHeaderKey. destruct (str_forallb _ s); [|done]. generalize true as u. unfold to_lower.
  induction s as [|a s IH]; intros u; cbn [canonical_key str_map]; [done|]. by rewrite IH, lower_byte_fold.
Qed.

Lemma foldHeader_canonical s : foldHeader (CanonicalHeaderKey s) = foldHeader s.
Proof. unfold foldHeader. by rewrite to_lower_canonical. Qed.

Lemma IsControlHeader_canonical s : IsControlHeader (CanonicalHeaderKey s) = IsControlHeader s.
Proof. unfold IsControlHeader. by rewrite foldHeader_canonical. Qed.

(** The declared names of a validated operation. *)
Lemma declared_placed rh rq op schema : operation_ok rh rq op -> decodeObject (OpInput op) = Ok schema ->
  (forall key, key ∈ declared schema -> placed (Method op) rh rq key)
  /\ exists templates, ParsePath (OpPath op) = Ok templates
       /\ forall n, n ∈ templates <-> n ∈ parameters PrefixPath (declared schema).
Proof.
  intros [_ _ (templates & Hpath & schema' & props & Hd & _ & Hprops & _ & Hok) _] Hschema.
  rewrite Hschema in Hd. injection Hd as <-. assert (Hdecl : declared schema = object_keys props).
  { unfold declared. destruct Hprops as [[-> ->]|Hp]; [done|]. by rewrite Hp. }
  rewrite Hdecl. split; [intros key Hkey; by apply (po_placed _ _ _ _ _ Hok)|]. exists templates. split; [done|]. apply (po_path _ _ _ _ _ Hok).
Qed.

Lemma placed_query method rh rq n : placed method rh rq (PrefixQuery +:+ n) -> isPrintableASCII n = true /\ (rq = "" \/ to_lower n <> rq).
Proof.
  intros [[H _]|[(? & H & _)|[(n' & H & _ & Hn & Hr)|[(? & H & _)|(? & H & _)]]]]; try discriminate H.
  apply (f_equal (fun s => cut_prefix s PrefixQuery)) in H. rewrite !cut_prefix_app in H. by injection H as <-.
Qed.

Lemma placed_header method rh rq n : placed method rh rq (PrefixHeader +:+ n) ->
  IsControlHeader n = false /\ (rh = "" \/ foldHeader n <> rh).
Proof.
  intros [[H _]|[(? & H & _)|[(? & H & _)|[(n' & H & _ & Hn & Hr)|(? & H & _)]]]]; try discriminate H.
  apply (f_equal (fun s => cut_prefix s PrefixHeader)) in H. rewrite !cut_prefix_app in H. by injection H as <-.
Qed.

(** ** Theorems *)

Lemma buildRequest_Ok `{UP : UrlParser} b rt args req q : buildRequest b rt args = Ok (req, q) ->
  exists fields st filled unescaped, parse_args args = Ok fields /\ placed_from (r_props rt) fields st
    /\ fillPath (OpPath (r_op rt)) (pl_path st) = Ok filled
    /\ PathUnescape (b_path b +:+ filled) = Some unescaped
    /\ req = {| q_method := Method (r_op rt); q_url := url_text (b_scheme b) (b_host b) unescaped (b_path b +:+ filled);
                q_header := headers_of st; q_body := pl_body st |}
    /\ q = pl_query st.
Proof.
  unfold buildRequest. destruct (parse_args args) as [fields|]; cbn [rbind]; [|done].
  destruct (place_all _ _ _) as [st|] eqn:Hst; cbn [rbind]; [|done]. apply (place_all_from _ fields) in Hst; [|done|apply nothing_placed_from].
  destruct (fillPath _ _) as [filled|] eqn:Hf; [|done]. destruct (PathUnescape _) as [unescaped|] eqn:Hu; [|done].
  destruct (url_Parse _); [|done]. intros [= <- <-]. by exists fields, st, filled, unescaped.
Qed.

Lemma headers_of_inv st k vs : assoc k (headers_of st) = Some vs ->
  k = "Content-Type" \/ k = "Cookie" \/ assoc k (pl_header st) = Some vs.
Proof.
  unfold headers_of, header_Set. change (CanonicalHeaderKey "Cookie") with "Cookie". change (CanonicalHeaderKey "Content-Type") with "Content-Type".
  destruct (pl_body st); [intros [[-> _]|H]%assoc_put_inv; [by left|revert H]|];
    (destruct (pl_cookies st); [by right; right|intros [[-> _]|H]%assoc_put_inv; by right; auto]).
Qed.

Inductive slot := SlotNone | SlotHeader (name value : string) | SlotQuery (name value : string).

(** Where the descriptor says the credential goes. *)
Definition slot_of (authKind authName value : string) : slot :=
  if bool_decide (authKind = AuthBearer) then SlotHeader "Authorization" ("Bearer " +:+ value)
  else if bool_decide (authKind = AuthHeader) then SlotHeader (CanonicalHeaderKey authName) value
  else if bool_decide (authKind = AuthQuery) then SlotQuery authName value
  else SlotNone.

(** The slot holds the credential and nothing else; no other name is the slot's to a server that folds
    case and underscores ([Content-Type] is set by the adapter itself); the rest is as it was. *)
Definition holds_alone (s : slot) (req req' : request) (q q' : list (string * list string)) : Prop :=
  match s with
  | SlotNone => req' = req /\ q' = q
  | SlotHeader name value =>
      q' = q /\ assoc name (q_header req') = Some [value]
      /\ (forall k, k <> name -> assoc k (q_header req') = assoc k (q_header req))
      /\ (forall k vs, assoc k (q_header req') = Some vs -> foldHeader k = foldHeader name -> k = name \/ k = "Content-Type")
      /\ q_method req' = q_method req /\ q_url req' = q_url req /\ q_body req' = q_body req
  | SlotQuery name value =>
      req' = req /\ assoc name q' = Some [value]
      /\ (forall k, k <> name -> assoc k q' = assoc k q)
      /\ (forall k vs, assoc k q' = Some vs -> to_lower k = to_lower name -> k = name)
  end.

Lemma header_alone req q name value :
  (forall k vs, assoc k (q_header req) = Some vs -> foldHeader k = foldHeader name -> k = CanonicalHeaderKey name \/ k = "Content-Type") ->
  holds_alone (SlotHeader (CanonicalHeaderKey name) value) req
    {| q_method := q_method req; q_url := q_url req; q_header := header_Set name value (q_header req); q_body := q_body req |} q q.
Proof.
  intros H. cbn [holds_alone q_header q_method q_url q_body]. unfold header_Set. split_and!; try done.
  - rewrite assoc_put. by rewrite bool_decide_eq_true_2.
  - intros k Hk. rewrite assoc_put. by rewrite bool_decide_eq_false_2.
  - intros k vs Ha Hf. rewrite foldHeader_canonical in Hf. apply assoc_put_inv in Ha as [[-> _]|Ha]; [by left|by eapply H].
Qed.

Lemma not_control_name k : foldHeader k = "cookie" \/ foldHeader k = authorizationHeader -> IsControlHeader k = true.
Proof. unfold IsControlHeader. by intros [->| ->]. Qed.

(** No argument's header is a control header, or the reserved one. *)
Lemma argument_headers rh rq op schema fields st k vs :
  operation_ok rh rq op -> decodeObject (OpInput op) = Ok schema -> placed_from (declared schema) fields st ->
  assoc k (pl_header st) = Some vs -> IsControlHeader k = false /\ (rh = "" \/ foldHeader k <> rh).
Proof.
  intros Hop Hschema Hst (n & v & -> & Hin & _)%(pf_header _ _ _ Hst). rewrite IsControlHeader_canonical, foldHeader_canonical.
  destruct (declared_placed _ _ _ _ Hop Hschema) as [Hpl _]. by eapply placed_header, Hpl.
Qed.

Lemma validated_operation ops authKind authName op : ops_Validate ops authKind authName = None -> op ∈ ops ->
  exists rh rq, descriptor_ok authKind authName rh rq /\ operation_ok rh rq op.
Proof.
  unfold ops_Validate. destruct (reservedSlots authKind authName) as [[rh rq]|] eqn:Hr; [|done]. apply reservedSlots_Ok in Hr.
  intros Hv Hin. exists rh, rq. split; [done|].
  assert (Hall : validate_each rh rq ops [] = None) by (by destruct ops). apply validate_each_None in Hall as [Hall _].
  rewrite Forall_forall in Hall. by apply Hall.
Qed.

(** C16 [credential_has_its_slot]: the caller and the credential never share a slot.  For an operation
    of a validated set, no argument sets a control header (the adapter writes [Cookie] itself); once the
    credential is injected, its header or query parameter holds exactly the vault's value, no header or
    parameter a server could read as the same one is there beside it, and the rest of the request is
    what the arguments made it.  A keyless entry's request is unchanged. *)
Theorem credential_has_its_slot `{UP : UrlParser} ops authKind authName op schema b args req q value :
  ops_Validate ops authKind authName = None -> op ∈ ops -> decodeObject (OpInput op) = Ok schema ->
  buildRequest b {| r_op := op; r_props := declared schema |} args = Ok (req, q) ->
  (forall k vs, assoc k (q_header req) = Some vs -> k = "Cookie" \/ IsControlHeader k = false)
  /\ holds_alone (slot_of authKind authName value) req (inject authKind authName value req q).1 q (inject authKind authName value req q).2.
Proof.
  intros Hv Hin Hschema Hb. destruct (validated_operation _ _ _ _ Hv Hin) as (rh & rq & Hd & Hop).
  apply buildRequest_Ok in Hb as (fields & st & filled & unescaped & _ & Hst & _ & _ & Hreq & Hq). cbn [r_props r_op] in *.
  pose proof (fun k vs => argument_headers rh rq op schema fields st k vs Hop Hschema Hst) as Harg.
  destruct (declared_placed _ _ _ _ Hop Hschema) as [Hpl _].
  assert (Hh : forall k vs, assoc k (q_header req) = Some vs -> k = "Content-Type" \/ k = "Cookie" \/ IsControlHeader k = false /\ (rh = "" \/ foldHeader k <> rh)).
  { rewrite Hreq. cbn [q_header]. intros k vs [->|[->|Ha]]%headers_of_inv; [by left|by right; left|]. right; right. by eapply Harg. }
  split; [intros k vs [->|[->|[? _]]]%Hh; [by right|by left|by right]|].
  unfold inject, slot_of. destruct Hd as [(-> & -> & _)|[(-> & -> & -> & _)|[(-> & Htok & Hctl & -> & _)|(-> & Htok & _ & ->)]]].
  - done.
  - apply (header_alone req q "Authorization"). intros k vs [->|[->|[Hc _]]]%Hh Hf; [by right|done|].
    rewrite not_control_name in Hc by (right; exact Hf). done.
  - cbn. apply header_alone. intros k vs [->|[->|[Hc Hr]]]%Hh Hf; [by right| |].
    + destruct Hctl as [Hctl|Hctl]; [|by rewrite Hctl in Hf]. rewrite not_control_name in Hctl by (left; symmetry; exact Hf). done.
    + destruct Hr as [Hr|Hr]; [|done]. exfalso. rewrite Hr in Hf. unfold ValidToken, authNameChars in Htok. by destruct authName.
  - cbn [fst snd]. rewrite !bool_decide_eq_false_2, bool_decide_eq_true_2 by done. cbn [holds_alone fst snd]. split; [done|]. split_and!.
    + rewrite assoc_put. by rewrite bool_decide_eq_true_2.
    + intros k Hk. rewrite assoc_put. by rewrite bool_decide_eq_false_2.
    + intros k vs [[-> _]|Ha]%assoc_put_inv Hf; [done|]. rewrite Hq in Ha. apply (pf_query _ _ _ Hst) in Ha as [Ha _]; apply Hpl, placed_query in Ha as [_ [Hr|Hr]]; [|done].
      exfalso. unfold ValidToken, authNameChars in Htok. destruct authName; [done|]. by rewrite Hr in Hf.
Qed.

(** *** The URL *)

Lemma ascii_all (P : ascii -> bool) : forallb P (map zb (seqZ 0 256)) = true -> forall a, P a = true.
Proof.
  rewrite forallb_forall. intros H a. apply H, in_map_iff. exists (bz a). split; [apply zb_bz|].
  apply list_elem_of_In, elem_of_seqZ. pose proof (bz_range a). lia.
Qed.

Definition encoded_byte (a : ascii) : bool := contains_byte "!$&'()*+,;=:@[]%" a || path_unescaped a.

Lemma path_char_encoded a : isPathChar a = true -> encoded_byte a = true.
Proof.
  pose proof (ascii_all (fun a => negb (isPathChar a) || encoded_byte a)) as H. specialize (H ltac:(by vm_compute) a).
  cbn beta in H. by destruct (isPathChar a).
Qed.

Lemma kept_encoded a : path_kept a = true -> encoded_byte a = true.
Proof.
  pose proof (ascii_all (fun a => negb (path_kept a) || encoded_byte a)) as H. specialize (H ltac:(by vm_compute) a).
  cbn beta in H. by destruct (path_kept a).
Qed.

Lemma unreserved_encoded a : unreserved a = true -> encoded_byte a = true.
Proof. intros H. apply kept_encoded. unfold path_kept. by rewrite H. Qed.

Lemma PathEscape_encoded v : validEncoded (PathEscape v) = true.
Proof.
  unfold validEncoded. induction v as [|a v IH]; [done|]. rewrite PathEscape_cons, forallb_app_string, IH, andb_true_r.
  destruct (path_kept a) eqn:Ha; [cbn [str_forallb]; rewrite andb_true_r; by apply kept_encoded|].
  destruct (hex_pair a) as (h1 & h2 & -> & _ & _ & H1%unreserved_encoded & H2%unreserved_encoded). unfold encoded_byte in *.
  rewrite string_app_cons, string_app_nil_l. cbn [str_forallb]. by rewrite H1, H2.
Qed.

Lemma render_encoded val ps : Forall legal ps -> validEncoded (render (fun n => PathEscape (val n)) ps) = true.
Proof.
  unfold validEncoded. induction 1 as [|[a|n] ps Hp _ IH]; [done| |]; cbn [render render_piece]; rewrite forallb_app_string, IH, andb_true_r.
  - cbn [str_forallb]. rewrite andb_true_r. by apply path_char_encoded.
  - apply PathEscape_encoded.
Qed.

Lemma EscapedPath_raw raw p : raw <> "" -> validEncoded raw = true -> PathUnescape raw = Some p -> EscapedPath p raw = raw.
Proof. intros Hne Hv Hp. unfold EscapedPath. by rewrite bool_decide_eq_false_2, Hv, bool_decide_eq_true_2. Qed.

(** A base path: literal bytes, rooted or empty, with no slash at its end. *)
Record base_path_ok (path : string) : Prop := {
  bp_literal : str_forallb isPathChar path = true;
  bp_rooted : path = "" \/ has_prefix path "/" = true;
  bp_end : trim_slash path = path;
  bp_dots : Forall (fun s => dot_segment s = false) (split_on "/" path);
  bp_empty : str_contains path "//" = false
}.

Lemma cut_last_spec s c b r : cut_last s c = Some (b, r) <-> s = b +:+ String c r /\ contains_byte r c = false.
Proof.
  assert (Hno : forall s, contains_byte s c = false <-> cut_last s c = None).
  { clear. induction s as [|a s IH]; cbn [contains_byte cut_last]; [done|]. rewrite orb_false_iff, IH, bool_decide_eq_false.
    destruct (cut_last s c) as [[]|]; [naive_solver|]. case_bool_decide; naive_solver. }
  revert b r. induction s as [|a s IH]; intros b r; cbn [cut_last]; [split; [done|]; by intros [?%(f_equal String.length) _]; rewrite string_length_app in *; simpl in *; lia|].
  destruct (cut_last s c) as [[b' r']|] eqn:Hs.
  - destruct (proj1 (IH b' r') eq_refl) as [-> Hr]. split; [intros [= <- <-]; by rewrite string_app_cons|].
    intros [Heq Hc]. destruct b as [|x b]; [rewrite string_app_nil_l in Heq; injection Heq as -> <-|].
    + rewrite contains_app in Hc. cbn [contains_byte] in Hc. by rewrite bool_decide_eq_true_2, orb_true_r in Hc by done.
    + rewrite string_app_cons in Heq. injection Heq as <- Heq. assert (H : Some (b', r') = Some (b, r)) by (by apply IH). by injection H as -> ->.
  - apply Hno in Hs. case_bool_decide as Ha.
    + subst. split; [intros [= <- <-]; by rewrite string_app_nil_l|]. intros [Heq Hc]. destruct b as [|x b].
      * by injection Heq as <-.
      * rewrite string_app_cons in Heq. injection Heq as _ ->. rewrite contains_app in Hs. cbn [contains_byte] in Hs.
        by rewrite bool_decide_eq_true_2, orb_true_r in Hs by done.
    + split; [done|]. intros [Heq Hc]. destruct b as [|x b]; [by injection Heq as ? _|].
      rewrite string_app_cons in Heq. injection Heq as _ ->. rewrite contains_app in Hs. cbn [contains_byte] in Hs.
      by rewrite bool_decide_eq_true_2, orb_true_r in Hs by done.
Qed.

Lemma split_on_sep sep a b : split_on sep (a +:+ String sep b) = split_on sep a ++ split_on sep b.
Proof.
  induction a as [|x a IH]; [rewrite string_app_nil_l; cbn [split_on]; by rewrite bool_decide_eq_true_2|].
  rewrite string_app_cons. cbn [split_on]. rewrite IH. case_bool_decide; [done|].
  assert (split_on sep a <> []) by (destruct a as [|y a]; cbn [split_on]; [done|]; case_bool_decide; [done|]; by destruct (split_on sep a)).
  by destruct (split_on sep a).
Qed.

Lemma str_contains_app a b sub : str_contains a sub = true -> str_contains (a +:+ b) sub = true.
Proof.
  assert (Hp : forall s, has_prefix s sub = true -> has_prefix (s +:+ b) sub = true).
  { intros s [r ->]%has_prefix_spec. apply has_prefix_spec. exists (r +:+ b). by rewrite string_app_assoc. }
  induction a as [|x a IH]; cbn [str_contains].
  - rewrite ?orb_false_r. intros H. specialize (Hp "" H). rewrite string_app_nil_l in *. destruct b; cbn [str_contains]; by rewrite Hp.
  - rewrite string_app_cons. cbn [str_contains]. rewrite !orb_true_iff. intros [H|H]; [left|right; by apply IH].
    specialize (Hp _ H). by rewrite string_app_cons in Hp.
Qed.

Lemma str_contains_suffix a b sub : str_contains b sub = true -> str_contains (a +:+ b) sub = true.
Proof. intros H. induction a as [|x a IH]; [by rewrite string_app_nil_l|]. rewrite string_app_cons. cbn [str_contains]. by rewrite IH, orb_true_r. Qed.

Lemma literal_template path ps : render brace ps = path -> holes ps = [] -> Forall legal ps -> str_forallb isPathChar path = true.
Proof.
  intros <- Hh Hl. induction Hl as [|[a|n] ps Hp _ IH]; [done| |done]. cbn [render render_piece]. rewrite forallb_app_string, IH by done.
  cbn [str_forallb]. cbn in Hp. by rewrite Hp.
Qed.

Lemma trim_slash_spec path : trim_slash path = path \/ path = trim_slash path +:+ "/".
Proof.
  unfold trim_slash. destruct (cut_last path "/") as [[b r]|] eqn:Hc; [|by left]. destruct r; [|by left].
  right. by apply cut_last_spec in Hc as [Hc _].
Qed.

Lemma no_slash_end path : str_contains (path +:+ "/") "//" = false -> trim_slash path = path.
Proof.
  intros H. destruct (trim_slash_spec path) as [|Hp]; [done|]. rewrite Hp, <- string_app_assoc in H.
  pose proof (str_contains_suffix (trim_slash path) "//" "//" eq_refl). change ("/" +:+ "/") with "//" in H. congruence.
Qed.

Lemma base_path_trimmed path : ParsePath path = Ok [] -> path <> "/" -> base_path_ok (trim_slash path).
Proof.
  intros Hp Hne. pose proof (ParsePath_pieces _ _ Hp) as (ps & rest & Hroot & Hr & Hh & Hl & Hd).
  pose proof (literal_template _ _ Hr Hh Hl) as Hlit.
  assert (Hdd : str_contains path "//" = false).
  { unfold ParsePath in Hp. do 2 (case_match; [done|]). destruct (negb (has_prefix path "/")); [done|]. by destruct (str_contains path "//"). }
  assert (Hseg : Forall (fun s => dot_segment s = false) (split_on "/" path)).
  { rewrite <- Hr, split_render; [by apply Forall_fmap|]. by rewrite Hh. }
  destruct (trim_slash_spec path) as [Ht|Ht]; [rewrite Ht; split; try done; right; rewrite Hroot; apply has_prefix_spec; by exists rest|].
  set (t := trim_slash path) in *. clearbody t. rewrite Ht in Hlit, Hdd, Hseg. rewrite forallb_app_string in Hlit. apply andb_true_iff in Hlit as [Hlit _].
  change "/" with (String "/" "") in Hseg. rewrite split_on_sep in Hseg. apply Forall_app in Hseg as [Hseg _]. split; try done.
  - destruct t as [|a t]; [by left|right]. rewrite Hroot, string_app_cons in Ht. injection Ht as <- _. apply has_prefix_spec. by exists t.
  - by apply no_slash_end.
  - destruct (str_contains t "//") eqn:Hc; [|done]. by rewrite (str_contains_app _ "/" _ Hc) in Hdd.
Qed.

Lemma parseBase_path `{UP : UrlParser} raw b : parseBase raw = Ok b -> base_path_ok (b_path b).
Proof.
  unfold parseBase. destruct (blank raw); [done|]. destruct (url_Parse raw) as [u|]; [|done]. do 7 (case_match; [done|]).
  set (path := EscapedPath _ _). cbv zeta. destruct (bool_decide_reflect (path = "")) as [He|]; cbn [orb].
  { intros [= <-]. cbn [b_path]. rewrite He. by split; [|left|..]; try constructor. }
  destruct (bool_decide_reflect (path = "/")) as [Hs|]; [intros [= <-]; cbn [b_path]; rewrite Hs; by split; [|left|..]; try constructor|].
  destruct (ParsePath _) as [[|]|] eqn:Hp; [|done..]. intros [= <-]. cbn [b_path]. by apply base_path_trimmed.
Qed.

(** C15 [request_stays_on_its_path]: where a call's request goes.  For a base [parseBase] accepted and an
    operation of a validated set, a request is on the base's scheme and host, at the base's path
    followed by the operation's template filled in, with the operation's method; every value in it is
    the text of an argument the schema declares for that hole; the filled template keeps the template's
    segments ([stays_put]); and no segment of the whole path is a dot segment, so no call climbs out of
    the base. *)
Theorem request_stays_on_its_path `{UP : UrlParser} raw b ops authKind authName op schema args req q :
  parseBase raw = Ok b -> ops_Validate ops authKind authName = None -> op ∈ ops -> decodeObject (OpInput op) = Ok schema ->
  buildRequest b {| r_op := op; r_props := declared schema |} args = Ok (req, q) ->
  exists fields templates vals filled ps,
    parse_args args = Ok fields /\ ParsePath (OpPath op) = Ok templates
    /\ (forall n v, assoc n vals = Some v -> PrefixPath +:+ n ∈ declared schema
          /\ exists raw, (PrefixPath +:+ n, raw) ∈ fields /\ scalarText raw = Ok v)
    /\ stays_put (OpPath op) templates vals filled ps
    /\ q_method req = Method op
    /\ q_url req = b_scheme b +:+ "://" +:+ escape_bytes host_unescaped false (b_host b) +:+ b_path b +:+ filled
    /\ Forall (fun s => dot_segment s = false) (split_on "/" (b_path b +:+ filled)).
Proof.
  intros Hbase Hv Hin Hschema Hb. destruct (validated_operation _ _ _ _ Hv Hin) as (rh & rq & _ & Hop).
  apply buildRequest_Ok in Hb as (fields & st & filled & unescaped & Hargs & Hst & Hf & Hu & -> & ->). cbn [r_props r_op q_method q_url] in *.
  destruct (oo_input _ _ _ Hop) as (templates & Hpath & _).
  pose proof (path_stays_put _ _ (pl_path st) Hpath) as Hput. rewrite Hf in Hput.
  destruct Hput as (_ & ps & Hps); [intros n v Hnv; by apply (pf_path _ _ _ Hst) in Hnv as (_ & ? & _)|].
  exists fields, templates, (pl_path st), filled, ps. apply parseBase_path in Hbase.
  assert (Hroot : exists rest, filled = String "/" rest) by (destruct (proj1 (has_prefix_spec _ _) (put_rooted _ _ _ _ _ Hps)) as [r ->]; by exists r).
  destruct Hroot as [rest Hroot]. split_and!; try done.
  - intros n v Hnv. apply (pf_path _ _ _ Hst) in Hnv as (? & _ & ?). done.
  - unfold url_text. rewrite EscapedPath_raw; [done| | |done].
    + rewrite Hroot. by destruct (b_path b).
    + unfold validEncoded. rewrite forallb_app_string. apply andb_true_iff. split.
      * pose proof (bp_literal _ Hbase) as Hlit. revert Hlit. generalize (b_path b) as s. induction s as [|a s IH]; [done|].
        cbn [str_forallb]. rewrite !andb_true_iff. intros [Ha Hs]. split; [by apply path_char_encoded|by apply IH].
      * rewrite (put_path _ _ _ _ _ Hps). apply render_encoded. by apply (put_template _ _ _ _ _ Hps).
  - pose proof (put_no_dots _ _ _ _ _ Hps) as Hd. rewrite Hroot in *. rewrite split_on_sep. apply Forall_app. split; [apply (bp_dots _ Hbase)|].
    apply (Forall_cons _ "" (split_on "/" rest)) in Hd. by destruct Hd.
Qed.

(** Fact [redirects_stay_on_the_origin]: the pin.  The base holds the origin of the URL it was parsed from, scheme
    http or https, default port explicit, case of the host dropped; a redirect is followed exactly when
    its target has that origin and fewer than three requests were sent; one past that is handed back
    as the answer, and any other target is refused. *)
Theorem redirects_stay_on_the_origin `{UP : UrlParser} {A} raw b target (via : list A) : parseBase raw = Ok b ->
  exists u, url_Parse raw = Some u /\ (Scheme u = "http" \/ Scheme u = "https") /\ Hostname u <> ""
    /\ User u = false /\ RawQuery u = "" /\ Fragment u = ""
    /\ match checkRedirect b target via with
       | None => originOf target = originOf u /\ (length via < maxRedirects)%nat
       | Some ErrUseLastResponse => originOf target = originOf u /\ (maxRedirects <= length via)%nat
       | Some (RedirectRefused got) => got = originOf target /\ originOf target <> originOf u
       end.
Proof.
  unfold parseBase. destruct (blank raw); [done|]. destruct (url_Parse raw) as [u|]; [|done]. intros H. exists u. split; [done|].
  destruct (negb _ && _) eqn:Hs; [done|]. destruct (negb (bool_decide (Opaque u = ""))); [done|]. destruct (User u); [done|].
  destruct (negb (bool_decide (RawQuery u = "")) || _) eqn:Hq; [done|]. destruct (negb (bool_decide (Fragment u = "")) || _) eqn:Hf; [done|].
  destruct (bool_decide_reflect (Hostname u = "")); [done|]. destruct (contains_byte _ _); [done|]. cbv zeta in H.
  apply orb_false_iff in Hq as [Hq _], Hf as [Hf _]. apply negb_false_iff, bool_decide_eq_true in Hq, Hf.
  assert (Hscheme : Scheme u = "http" \/ Scheme u = "https").
  { apply andb_false_iff in Hs as [Hs|Hs]; apply negb_false_iff, bool_decide_eq_true in Hs; auto. }
  split_and!; try done. assert (Ho : b_origin b = originOf u).
  { unfold originOf, effective_port, default_port. set (made := Build_base _ _ _ _ _) in H. assert (b = made) as ->.
    { repeat (case_match; try done); congruence. }
    cbn. by destruct Hscheme as [-> | ->]. }
  unfold checkRedirect. rewrite Ho. destruct (bool_decide_reflect (originOf target = originOf u)) as [Ht|Ht]; cbn [negb]; [|done].
  destruct (Nat.leb_spec maxRedirects (length via)); [done|]. split; [done|lia].
Qed.

(** ** Witnesses *)

Section demo.

(** A parser of plain absolute URLs. *)
Definition demo_url (raw : string) : option url_URL :=
  match cut raw ":" with
  | Some (scheme, rest) =>
      match cut_prefix rest "//" with
      | Some rest =>
          let '(host, path) := match cut rest "/" with Some (h, p) => (h, "/" +:+ p) | None => (rest, "") end in
          Some {| Scheme := scheme; Opaque := ""; User := false; Host := host; UrlPath := path; RawPath := "";
                  ForceQuery := false; RawQuery := ""; Fragment := ""; RawFragment := "" |}
      | None => None
      end
  | None => None
  end.

#[local] Instance demo_urls : UrlParser := {| url_Parse := demo_url |}.

Definition demo_base : base :=
  {| b_scheme := "https"; b_host := "api.example.org"; b_origin := "https://api.example.org:443"; b_path := "/v2"; b_hostname := "api.example.org" |}.

Definition demo_args : string := dq " {'path_id': 'a;b', 'query_full':true, 'header_X-Trace':'t1'} ".

Definition demo_request : request * list (string * list string) :=
  ({| q_method := "GET"; q_url := "https://api.example.org/v2/alerts/a%3Bb"; q_header := [("X-Trace", ["t1"])]; q_body := None |},
   [("full", ["true"])]).

Definition demo_schema : list (string * json) := match decodeObject (OpInput demo_op) with Ok schema => schema | Err _ => [] end.

Lemma request_stays_on_its_path_witness :
  parseBase "https://API.example.org/v2/" = Ok demo_base
  /\ buildRequest demo_base {| r_op := demo_op; r_props := declared demo_schema |} demo_args = Ok demo_request
  /\ exists fields templates vals filled ps,
    parse_args demo_args = Ok fields /\ ParsePath (OpPath demo_op) = Ok templates
    /\ (forall n v, assoc n vals = Some v -> PrefixPath +:+ n ∈ declared demo_schema
          /\ exists raw, (PrefixPath +:+ n, raw) ∈ fields /\ scalarText raw = Ok v)
    /\ stays_put (OpPath demo_op) templates vals filled ps
    /\ q_method demo_request.1 = Method demo_op
    /\ q_url demo_request.1 = b_scheme demo_base +:+ "://" +:+ escape_bytes host_unescaped false (b_host demo_base) +:+ b_path demo_base +:+ filled
    /\ Forall (fun s => dot_segment s = false) (split_on "/" (b_path demo_base +:+ filled)).
Proof.
  assert (Hbase : parseBase "https://API.example.org/v2/" = Ok demo_base) by (vm_compute; reflexivity).
  assert (Hb : buildRequest demo_base {| r_op := demo_op; r_props := declared demo_schema |} demo_args = Ok demo_request) by (vm_compute; reflexivity).
  split; [exact Hbase|]. split; [exact Hb|].
  apply (request_stays_on_its_path "https://API.example.org/v2/" demo_base [demo_op] AuthHeader "X-API-Key" demo_op demo_schema demo_args demo_request.1 demo_request.2).
  - exact Hbase.
  - vm_compute. reflexivity.
  - left.
  - vm_compute. reflexivity.
  - exact Hb.
Defined.

Lemma credential_has_its_slot_witness :
  (forall k vs, assoc k (q_header demo_request.1) = Some vs -> k = "Cookie" \/ IsControlHeader k = false)
  /\ holds_alone (slot_of AuthHeader "X-API-Key" "s3cret") demo_request.1 (inject AuthHeader "X-API-Key" "s3cret" demo_request.1 demo_request.2).1
       demo_request.2 (inject AuthHeader "X-API-Key" "s3cret" demo_request.1 demo_request.2).2
  /\ q_header (inject AuthHeader "X-API-Key" "s3cret" demo_request.1 demo_request.2).1 = [("X-Api-Key", ["s3cret"]); ("X-Trace", ["t1"])].
Proof.
  assert (Hb : buildRequest demo_base {| r_op := demo_op; r_props := declared demo_schema |} demo_args = Ok demo_request) by (vm_compute; reflexivity).
  destruct (credential_has_its_slot [demo_op] AuthHeader "X-API-Key" demo_op demo_schema demo_base demo_args demo_request.1 demo_request.2 "s3cret") as [H1 H2].
  - vm_compute. reflexivity.
  - left.
  - vm_compute. reflexivity.
  - exact Hb.
  - split; [exact H1|]. split; [exact H2|]. vm_compute. reflexivity.
Defined.
End demo.
