(* ===== verification/RestSets.v ===== *)
(** * The bytes of an operation set ([Decode] and [Encode], internal/gateway/resthttp/operation.go)

    The registry stores and the signer digests what [Encode] writes; the adapter serves what [Decode]
    reads.  A validated set is read back as it was written, its schemas in canonical form, and written
    again to the same bytes. *)
From Stdlib Require Import ZArith Lia Ascii.
From stdpp Require Import base strings list.
From S2P Require Import Prelude.
From S2P Require Import GoStrings.
From S2P Require Import Utf8.
From S2P Require Import GoTime.
From S2P Require Import Json.
From S2P Require Import Redact.
From S2P Require Import JsonStrings.
From S2P Require Import Registry.
From S2P Require Import GatewayTypes.
From S2P Require Import ToolSchema.
From S2P Require Import RestOperations.
From S2P Require Import JsonCanon.
From S2P Require Import RestPath.
From S2P Require Import RestRequest.

Inductive sets_error :=
| SetNotArray
| SetOperation (i : nat)
| SetNameTwice (name : string)
| SetUnordered (name after : string)
| SetInvalid (e : operations_error)
| SetInput (name : string) (e : document_error)
| SetOutput (name : string) (e : document_error).

Definition zero_op : Operation :=
  {| OpName := ""; OpDescription := ""; Method := ""; OpPath := ""; OpInput := ""; OpOutput := "" |}.

(** A string field: [null] leaves it as it is. *)
Definition string_field (raw old : string) : option string :=
  match parse_json raw with
  | Some (JStr s) => Some (unquote s)
  | Some JNull => Some old
  | _ => None
  end.

(** A field of an [Operation]; an unknown key is an error. *)
Definition op_field (key raw : string) (op : Operation) : option Operation :=
  if is_field "name" key then
    option_map (fun s => {| OpName := s; OpDescription := OpDescription op; Method := Method op; OpPath := OpPath op;
                            OpInput := OpInput op; OpOutput := OpOutput op |}) (string_field raw (OpName op))
  else if is_field "description" key then
    option_map (fun s => {| OpName := OpName op; OpDescription := s; Method := Method op; OpPath := OpPath op;
                            OpInput := OpInput op; OpOutput := OpOutput op |}) (string_field raw (OpDescription op))
  else if is_field "method" key then
    option_map (fun s => {| OpName := OpName op; OpDescription := OpDescription op; Method := s; OpPath := OpPath op;
                            OpInput := OpInput op; OpOutput := OpOutput op |}) (string_field raw (Method op))
  else if is_field "path" key then
    option_map (fun s => {| OpName := OpName op; OpDescription := OpDescription op; Method := Method op; OpPath := s;
                            OpInput := OpInput op; OpOutput := OpOutput op |}) (string_field raw (OpPath op))
  else if is_field "inputSchema" key then
    Some {| OpName := OpName op; OpDescription := OpDescription op; Method := Method op; OpPath := OpPath op;
            OpInput := raw; OpOutput := OpOutput op |}
  else if is_field "outputSchema" key then
    Some {| OpName := OpName op; OpDescription := OpDescription op; Method := Method op; OpPath := OpPath op;
            OpInput := OpInput op; OpOutput := raw |}
  else None.

Fixpoint op_fields (members : list (string * string)) (op : Operation) : option Operation :=
  match members with
  | [] => Some op
  | (key, raw) :: rest => match op_field key raw op with Some op => op_fields rest op | None => None end
  end.

(** [dec.Decode(&op)] with [DisallowUnknownFields], of one value's text. *)
Definition decode_op (raw : string) : option Operation :=
  match parse_json raw with
  | Some JNull => Some zero_op
  | Some (JObj _) => match raw_members raw with Some members => op_fields members zero_op | None => None end
  | _ => None
  end.

(** The loop over the elements; [prev] is the name before. *)
Fixpoint decode_each (i : nat) (prev : option string) (raws : list string) : result sets_error (list Operation) :=
  match raws with
  | [] => Ok []
  | raw :: rest =>
      match decode_op raw with
      | None => Err (SetOperation i)
      | Some op =>
          match match prev with
                | Some p =>
                    if str_leb (OpName op) p then
                      Some (if bool_decide (OpName op = p) then SetNameTwice p else SetUnordered (OpName op) p)
                    else None
                | None => None
                end with
          | Some e => Err e
          | None => ops <-? decode_each (S i) (Some (OpName op)) rest;; Ok (op :: ops)
          end
      end
  end.

(** An operation with its schemas in canonical form. *)
Definition canonical_op (op : Operation) : result sets_error Operation :=
  match canonicalize (OpInput op) with
  | Err e => Err (SetInput (OpName op) e)
  | Ok input =>
      match (if bool_decide (OpOutput op = "") then Ok "" else canonicalize (OpOutput op)) with
      | Err e => Err (SetOutput (OpName op) e)
      | Ok output =>
          Ok {| OpName := OpName op; OpDescription := OpDescription op; Method := Method op; OpPath := OpPath op;
                OpInput := input; OpOutput := output |}
      end
  end.

Fixpoint canonical_all (ops : list Operation) : result sets_error (list Operation) :=
  match ops with
  | [] => Ok []
  | op :: rest => op <-? canonical_op op;; rest <-? canonical_all rest;; Ok (op :: rest)
  end.

Definition Decode (operations authKind authName : string) : result sets_error (list Operation) :=
  match raw_items operations with
  | None => Err SetNotArray
  | Some raws =>
      ops <-? decode_each 0 None raws;;
      match ops_Validate ops authKind authName with
      | Some e => Err (SetInvalid e)
      | None => canonical_all ops
      end
  end.

(** The members of an item, in key order; a schema's canonical text is embedded as it is. *)
Definition item_members (op : Operation) : list (string * string) :=
  (if bool_decide (OpDescription op = "") then [] else [("description", json_string false (OpDescription op))])
  ++ [("inputSchema", OpInput op); ("method", json_string false (Method op)); ("name", json_string false (OpName op))]
  ++ (if bool_decide (OpOutput op = "") then [] else [("outputSchema", OpOutput op)])
  ++ [("path", json_string false (OpPath op))].

Fixpoint encode_items (prev : option string) (ops : list Operation) : result sets_error (list string) :=
  match ops with
  | [] => Ok []
  | op :: rest =>
      if bool_decide (prev = Some (OpName op)) then Err (SetNameTwice (OpName op))
      else
        op <-? canonical_op op;;
        items <-? encode_items (Some (OpName op)) rest;;
        Ok (object_text (item_members op) :: items)
  end.

Definition Encode (ops : list Operation) : result sets_error string :=
  items <-? encode_items None (sort_by OpName ops);; Ok (array_text items).

Definition demo_set : list Operation :=
  [demo_op; {| OpName := "add_note"; OpDescription := ""; Method := "POST"; OpPath := "/notes";
               OpInput := dq "{'type':'object', 'properties':{'body':{'b':1, 'a':2}}}"; OpOutput := dq "{ }" |}].

Example encode_ex :
  Encode (tail demo_set) = Ok (dq "[{'inputSchema':{'properties':{'body':{'a':2,'b':1}},'type':'object'},'method':'POST','name':'add_note','outputSchema':{},'path':'/notes'}]")
  /\ match Encode demo_set with
     | Ok b => match Decode b AuthHeader "X-API-Key" with
               | Ok ops => Encode ops = Ok b /\ map OpName ops = ["add_note"; "get_alert"]
               | Err _ => False
               end
     | Err _ => False
     end
  /\ Decode "[{}, {}]" "" "" = Err (SetNameTwice "") /\ Decode (dq "[{'Name':'a','x':1}]") "" "" = Err (SetOperation 0).
Proof. vm_compute. done. Qed.

(** ** A schema read from its canonical text is the same schema *)

(** The members of an object as the map they are decoded to. *)
Definition doc_members (m : list (string * json)) : list (string * doc) := map_of (map (fun x => (unquote x.1, doc_of x.2)) m).

Lemma find_map {A B} (f : A -> B) (p : B -> bool) l : List.find p (map f l) = option_map f (List.find (fun x => p (f x)) l).
Proof. induction l as [|x l IH]; [done|]. cbn [map List.find]. by destruct (p (f x)). Qed.

Lemma member_value_doc m k : doc_of <$> member_value m k = assoc k (doc_members m).
Proof.
  unfold doc_members, member_value. rewrite assoc_map_of. change (map ?f m) with (f <$> m). rewrite <- fmap_reverse.
  change (?f <$> reverse m) with (map f (reverse m)). rewrite find_map. cbn [fst snd].
  by destruct (List.find _ (reverse m)).
Qed.

Lemma map_of_keys {A} k (l : list (string * A)) : k ∈ map fst (map_of l) <-> k ∈ map fst l.
Proof.
  unfold map_of. assert (Hg : forall acc, k ∈ map fst (foldl (fun acc m => put m.1 m.2 acc) acc l) <-> k ∈ map fst acc \/ k ∈ map fst l).
  { induction l as [|m l IH]; intros acc; [set_solver|]. cbn [foldl map]. rewrite IH, put_keys, elem_of_cons. naive_solver. }
  rewrite Hg. set_solver.
Qed.

Lemma object_keys_doc m : object_keys m = map fst (doc_members m).
Proof.
  unfold object_keys, doc_members. set (l := map (fun x => (unquote x.1, doc_of x.2)) m).
  assert (Hl : map fst l = map (fun x => unquote x.1) m) by (subst l; by rewrite map_map).
  pose proof (map_of_sorted l) as Hs. unfold keys_sorted in Hs.
  assert (Hnd : NoDup (map fst (map_of l))).
  { clear - Hs. induction Hs as [|k l' _ IH Hk]; constructor; [|done]. intros Hin. rewrite Forall_forall in Hk. by destruct (Hk k Hin). }
  apply (StronglySorted_unique str_le).
  - apply sort_strings_sorted.
  - clear - Hs. induction Hs as [|k l' _ IH Hk]; constructor; [done|]. eapply Forall_impl; [exact Hk|]. by intros ? [? _].
  - rewrite sort_strings_Permutation. apply NoDup_Permutation; [apply NoDup_dedup|done|]. intros k. rewrite elem_of_dedup, map_of_keys. by rewrite Hl.
Qed.

(** Two texts of the same document. *)
Definition alike (m m' : list (string * json)) : Prop := doc_members m = doc_members m'.

Lemma alike_value m m' k : alike m m' -> doc_of <$> member_value m k = doc_of <$> member_value m' k.
Proof. unfold alike. rewrite !member_value_doc. by intros ->. Qed.

Lemma alike_keys m m' : alike m m' -> object_keys m = object_keys m'.
Proof. unfold alike. rewrite !object_keys_doc. by intros ->. Qed.

(** What an alike object holds where this one holds a value. *)
Lemma alike_Some m m' k v : alike m m' -> member_value m k = Some v -> exists v', member_value m' k = Some v' /\ doc_of v = doc_of v'.
Proof. intros H Hv. pose proof (alike_value _ _ k H) as Hk. rewrite Hv in Hk. destruct (member_value m' k) as [v'|]; [|done]. exists v'. by injection Hk. Qed.

Lemma alike_None m m' k : alike m m' -> member_value m k = None -> member_value m' k = None.
Proof. intros H Hv. pose proof (alike_value _ _ k H) as Hk. rewrite Hv in Hk. by destruct (member_value m' k). Qed.

Lemma doc_of_JStr s v : doc_of (JStr s) = doc_of v -> exists s', v = JStr s' /\ unquote s = unquote s'.
Proof. destruct v; try done. cbn. intros [= ?]. eauto. Qed.

Lemma doc_of_JObj m v : doc_of (JObj m) = doc_of v -> exists m', v = JObj m' /\ alike m m'.
Proof. destruct v; try done. cbn. intros [= ?]. eauto. Qed.

Lemma doc_of_JArr l v : doc_of (JArr l) = doc_of v -> exists l', v = JArr l' /\ map doc_of l = map doc_of l'.
Proof. destruct v; try done. cbn. intros [= ?]. eauto. Qed.

Lemma properties_ok_alike method rh rq props props' templates :
  alike props props' -> properties_ok method rh rq props templates -> properties_ok method rh rq props' templates.
Proof.
  intros Ha [Hp Hh Hc Ht]. pose proof (alike_keys _ _ Ha) as Hk. split; rewrite <- Hk; [|done..].
  intros key Hkey. destruct (Hp key Hkey) as [[m Hm] Hpl]. split; [|done].
  destruct (alike_Some _ _ _ _ Ha Hm) as (v' & Hv' & Hd). apply doc_of_JObj in Hd as (m' & -> & _). by exists m'.
Qed.

Lemma input_ok_alike op op' templates rh rq schema schema' :
  Method op' = Method op -> decodeObject (OpInput op) = Ok schema -> decodeObject (OpInput op') = Ok schema' -> alike schema schema' ->
  input_ok op templates rh rq -> input_ok op' templates rh rq.
Proof.
  intros Hm Hd Hd' Ha (s0 & props & Hs & (ty & Hty & Hobj) & Hprops & Hreq & Hok). rewrite Hd in Hs. injection Hs as <-.
  destruct (alike_Some _ _ _ _ Ha Hty) as (v' & Hv' & Hs). apply doc_of_JStr in Hs as (ty' & -> & Hty').
  assert (H : exists props', properties_of schema' props' /\ alike props props').
  { destruct Hprops as [[Hn ->]|Hp].
    - exists []. split; [left; split; [by eapply alike_None|done]|done].
    - destruct (alike_Some _ _ _ _ Ha Hp) as (w & Hw & Hdw). apply doc_of_JObj in Hdw as (props' & -> & Hpa). exists props'. by split; [right|]. }
  destruct H as (props' & Hprops' & Hpa). exists schema', props'. split; [done|]. split; [exists ty'; by rewrite <- Hty'|]. split; [done|].
  split; [|rewrite Hm; by eapply properties_ok_alike].
  assert (Ha' : alike schema' schema) by (symmetry; exact Ha). intros v Hv. destruct (alike_Some _ _ _ _ Ha' Hv) as (w & Hw & Hdw).
  destruct (Hreq w Hw) as (items & -> & Hitems). symmetry in Hdw. apply doc_of_JArr in Hdw as (items' & -> & Hi). exists items'. split; [done|].
  clear Hv Hw. revert items' Hi. induction Hitems as [|i items (s & -> & Hs) _ IH]; intros [|i' items'] Hi; try done. cbn [map] in Hi.
  pose proof (f_equal (fun l => match l with x :: _ => x | [] => DNull end) Hi) as H1.
  pose proof (f_equal (@tail doc) Hi) as H2. cbn beta iota in H1. cbn [tail] in H2. apply doc_of_JStr in H1 as (s' & -> & Hss). constructor; [|by apply IH].
  exists s'. split; [done|]. rewrite <- Hss. destruct Hs as [x Hx]. destruct (alike_Some _ _ _ _ Hpa Hx) as (x' & -> & _). by eexists.
Qed.

(** ** Canonical schemas *)

(** A schema that leaves room for the two levels an operation set nests it in. *)
Definition schema_fits (text : string) : Prop :=
  exists d, canonicalize text = Ok (doc_text d) /\ canonical (maxNestingDepth - 2) d.

Lemma canonical_mono n m d : (n <= m)%nat -> canonical n d -> canonical m d.
Proof.
  revert n m. induction d as [| | | |l IH|l IH] using doc_ind'; intros n m Hnm; cbn [canonical]; try done.
  - destruct n as [|n], m as [|m]; try done; [lia|]. rewrite !foldr_Forall, !Forall_forall in *. intros H v Hv.
    apply (IH v Hv n); [lia|by apply H].
  - destruct n as [|n], m as [|m]; try done; [lia|]. rewrite !foldr_Forall, !Forall_forall in *. intros [Hs H]. split; [done|]. intros v Hv.
    destruct (H v Hv). split; [done|]. apply (IH v Hv n); [lia|done].
Qed.

Lemma canonicalize_object text schema : decodeObject text = Ok schema ->
  exists schema', canonicalize text = Ok (doc_text (DObj (doc_members schema))) /\ decodeObject (doc_text (DObj (doc_members schema))) = Ok schema' /\ alike schema schema'.
Proof.
  unfold decodeObject at 1. intros H. destruct (bool_decide_reflect (text = "")) as [->|Hne]; [done|].
  destruct (decode_first text) as [[v rest]|] eqn:Hv; [|done]. destruct (more rest) eqn:Hm; [done|]. destruct v as [| | | | |m]; try done. injection H as ->.
  pose proof (decode_first_canonical _ _ _ Hv) as Hc. exists (map (fun m => (json_body false m.1, json_of m.2)) (doc_members schema)).
  split; [apply canonicalize_Ok; by exists (JObj schema), rest|]. cbn [doc_of] in Hc. fold (doc_members schema) in Hc. split.
  - unfold decodeObject. rewrite bool_decide_eq_false_2 by (by eapply text_nonempty). by rewrite decode_first_text.
  - pose proof (doc_of_json_of _ _ Hc) as Hd. cbn [json_of doc_of] in Hd. injection Hd as Hd. symmetry. exact Hd.
Qed.

(** The canonical form of an operation whose schemas have one. *)
Lemma canonical_op_ok rh rq op : operation_ok rh rq op -> exists op', canonical_op op = Ok op' /\ operation_ok rh rq op'
  /\ OpName op' = OpName op /\ OpDescription op' = OpDescription op /\ Method op' = Method op /\ OpPath op' = OpPath op
  /\ canonicalize (OpInput op) = Ok (OpInput op') /\ (if bool_decide (OpOutput op = "") then OpOutput op' = "" else canonicalize (OpOutput op) = Ok (OpOutput op')).
Proof.
  intros [Hn Hm (templates & Hpath & Hin) Hout]. pose proof Hin as (schema & props & Hschema & _).
  destruct (canonicalize_object _ _ Hschema) as (schema' & Hc & Hd' & Ha).
  assert (Ho : exists out, (if bool_decide (OpOutput op = "") then Ok "" else canonicalize (OpOutput op)) = Ok out
    /\ (out <> "" -> exists members, decodeObject out = Ok members)).
  { case_bool_decide as He; [by exists ""|]. destruct (Hout He) as [members Hmem].
    destruct (canonicalize_object _ _ Hmem) as (m' & Hc' & Hd'' & _). eexists. split; [exact Hc'|]. eauto. }
  destruct Ho as (out & Ho & Hmem). unfold canonical_op. rewrite Hc, Ho. eexists. split; [reflexivity|]. cbn.
  split; [split; cbn; try done|split_and!; try done; destruct (bool_decide (OpOutput op = "")); [by injection Ho as <-|done]].
  exists templates. split; [done|]. eapply (input_ok_alike op); [done|exact Hschema|exact Hd'|exact Ha|exact Hin].
Qed.

(** ** Reading the bytes back *)

#[local] Abbreviation len := String.length.

Lemma raw_value_reads f depth d y : canonical depth d -> (len (doc_text d) < f)%nat -> stops y = true ->
  raw_value f depth (doc_text d +:+ y) = Some (doc_text d, y).
Proof.
  intros Hd Hf Hy. unfold raw_value. rewrite (doc_reads f d depth y Hd Hf Hy). cbv zeta.
  rewrite begins_skip by (by apply begins_app, (text_begins _ depth)). rewrite string_length_app.
  replace (len (doc_text d) + len y - len y)%nat with (len (doc_text d)) by lia. by rewrite str_take_app.
Qed.

Lemma nonempty_texts depth l : Forall (canonical depth) l -> Forall (fun t => t <> "") (map doc_text l).
Proof. intros H. apply Forall_fmap. eapply Forall_impl; [exact H|]. intros d Hd. by eapply text_nonempty. Qed.

Lemma raw_items_text l : canonical maxNestingDepth (DArr l) -> raw_items (array_text (map doc_text l)) = Some (map doc_text l).
Proof.
  intros Hd. unfold raw_items. change (array_text (map doc_text l)) with (doc_text (DArr l)) at 1. rewrite parse_text by done. cbn [json_of].
  destruct l as [|v l]; [by vm_compute|]. set (items := v :: l) in *. change maxNestingDepth with (S (Nat.pred maxNestingDepth)) in Hd.
  cbn [canonical] in Hd. rewrite foldr_Forall in Hd. unfold array_text. rewrite !string_app_cons, !string_app_nil_l. cbn [skip_space].
  change (is_space "[") with false. cbn match. set (body := String.concat "," (map doc_text items)).
  assert (Hb : begins (body +:+ "]")).
  { subst body items. apply Forall_cons in Hd as [Hv _]. apply text_begins in Hv. destruct l; cbn [map String.concat]; rewrite <- ?string_app_assoc; by apply begins_app. }
  rewrite (begins_skip _ Hb). assert (Hbody : body = String.concat "," (map fst (map (fun d => (doc_text d, doc_text d)) items))) by (subst body; by rewrite map_map).
  assert (Hgo : elements (raw_value (S (len (String "[" (body +:+ "]"))))) (S (len (String "[" (body +:+ "]")))) (Nat.pred maxNestingDepth) [] (body +:+ "]")
    = Some (map doc_text items, "")).
  { assert (Hlen : (len body < len (String "[" (body +:+ "]")))%nat) by (cbn [String.length]; rewrite string_length_app; simpl; lia).
    set (f := S _). assert (Hf : (len body < f)%nat) by (subst f; lia). clearbody f. rewrite Hbody. change "]" with (String "]" "").
    rewrite (elements_reads (raw_value f)); [cbn [app]; by rewrite map_map| |rewrite length_map; pose proof (concat_length _ (nonempty_texts _ _ Hd)) as H; fold body in H; rewrite length_map in H; lia|].
    - by subst items.
    - apply Forall_fmap, Forall_forall. intros d Hin y Hy. cbn [compose fst snd]. rewrite Forall_forall in Hd. apply raw_value_reads; [by apply Hd| |done].
      assert (len (doc_text d) <= len body)%nat; [|lia]. apply concat_item_length. by apply list_elem_of_fmap_2. }
  destruct Hb as (a & s' & Hs & _ & Ha). rewrite Hs in *. destruct (ascii_dec a "]") as [->|]; [done|].
  destruct a as [[] [] [] [] [] [] [] []]; try done; by rewrite Hgo.
Qed.

Lemma raw_members_text l : l <> [] -> canonical maxNestingDepth (DObj l) ->
  raw_members (doc_text (DObj l)) = Some (map (fun m => (m.1, doc_text m.2)) l).
Proof.
  intros Hne Hd. change maxNestingDepth with (S (Nat.pred maxNestingDepth)) in Hd. cbn [canonical] in Hd. rewrite foldr_Forall in Hd. destruct Hd as [_ Hd].
  unfold raw_members. cbn [doc_text]. unfold object_text. rewrite !string_app_cons, !string_app_nil_l, map_map. cbn [skip_space].
  change (is_space "{") with false. cbn match.
  set (P := fun m : string * doc => (m.1, doc_text m.2, doc_text m.2)).
  change (map (fun m => member_text _) l) with (map (fun m => member_text (member_of (P m))) l).
  set (body := String.concat "," _). assert (Hbody : body = String.concat "," (map (fun p => member_text (member_of p)) (map P l))) by (subst body; by rewrite map_map).
  assert (Hb : exists y, body +:+ "}" = String (zb 34) y).
  { subst body. destruct l as [|m [|m' l]]; [done| |]; cbn [map String.concat]; unfold member_text, json_string, dquote; rewrite <- ?string_app_assoc; eexists; reflexivity. }
  assert (Hlen : forall m, m ∈ l -> (len (doc_text m.2) < len body)%nat).
  { intros m Hm. pose proof (concat_item_length (map (fun m => member_text (member_of (P m))) l) _ (list_elem_of_fmap_2 _ _ _ Hm)) as H. fold body in H.
    cut (len (doc_text m.2) < len (member_text (member_of (P m))))%nat; [lia|]. unfold member_text, json_string, dquote. cbn. rewrite !string_length_app. simpl. lia. }
  assert (Hcount : (length (map P l) <= len body)%nat).
  { assert (Hn : Forall (fun t => t <> "") (map (fun m => member_text (member_of (P m))) l)).
    { apply Forall_fmap, Forall_forall. intros m _ H. unfold compose, member_text, json_string, dquote in H. by rewrite <- !string_app_assoc in H. }
    pose proof (concat_length _ Hn) as H. fold body in H. by rewrite !length_map in *. }
  destruct Hb as [y Hy]. rewrite Hy. cbn [skip_space]. change (is_space (zb 34)) with false. cbn match.
  rewrite <- Hy. set (f := S (len (String "{" (body +:+ "}")))).
  assert (Hf : (len body < f)%nat) by (subst f; cbn [String.length]; rewrite string_length_app; lia). clearbody f.
  assert (Hgo : members (raw_value f) f (Nat.pred maxNestingDepth) [] (body +:+ "}") = Some (map member_read (map P l), "")).
  { rewrite Hbody. change "}" with (String "}" ""). rewrite (members_reads (raw_value f)); [done|by destruct l|lia|].
    apply Forall_fmap, Forall_forall. intros m Hm z Hz. cbn. rewrite Forall_forall in Hd. destruct (Hd m Hm) as [_ Hc].
    apply raw_value_reads; [done|specialize (Hlen m Hm); lia|done]. }
  transitivity (option_map (fun r : list (string * string) * string => map (fun m => (unquote m.1, m.2)) r.1)
    (members (raw_value f) f (Nat.pred maxNestingDepth) [] (body +:+ "}"))); [by rewrite Hy|].
  rewrite Hgo. cbn [option_map fst]. f_equal. rewrite !map_map. apply map_ext_in. intros m Hm%list_elem_of_In.
  unfold P, member_read, json_body. cbn [fst snd]. rewrite unquote_json. rewrite Forall_forall in Hd. by rewrite repaired_valid by (by apply Hd).
Qed.

(** ** ASCII texts are valid *)

Lemma ascii_valid s : str_forallb (fun a => bz a <? 128) s = true -> valid_string s = true.
Proof.
  induction s as [|a s IH]; [done|]. cbn [str_forallb]. rewrite andb_true_iff, Z.ltb_lt. intros [Ha Hs].
  change (String a s) with (String a "" +:+ s). apply (valid_string_app (bz a)); [by apply self_delimiting_ascii|by apply IH].
Qed.

Lemma forallb_ascii (f : ascii -> bool) s :
  forallb (fun a => negb (f a) || (bz a <? 128)) (map zb (seqZ 0 256)) = true -> str_forallb f s = true -> valid_string s = true.
Proof.
  intros Hf Hs. apply ascii_valid. revert Hs. induction s as [|a s IH]; [done|]. cbn [str_forallb]. rewrite !andb_true_iff.
  intros [Ha Hs]. split; [|by apply IH]. pose proof (ascii_all _ Hf a) as H. cbn beta in H. by rewrite Ha in H.
Qed.

Lemma tool_name_valid name : ValidToolName name = true -> valid_string name = true.
Proof. unfold ValidToolName. case_match; [done|]. apply forallb_ascii. by vm_compute. Qed.

Lemma method_valid method : ValidMethod method = true -> valid_string method = true.
Proof. unfold ValidMethod. rewrite bool_decide_eq_true. intros H. repeat (apply elem_of_cons in H as [->|H]; [by vm_compute|]). by apply elem_of_nil in H. Qed.

Definition template_byte (a : ascii) : bool := isPathChar a || contains_byte "{}" a.

Lemma path_valid path names : ParsePath path = Ok names -> valid_string path = true.
Proof.
  intros (ps & _ & _ & <- & _ & Hl & _)%ParsePath_pieces. apply (forallb_ascii template_byte); [by vm_compute|].
  induction Hl as [|[a|n] ps Hp _ IH]; [done| |]; cbn [render render_piece]; rewrite forallb_app_string, IH, andb_true_r.
  - cbn [str_forallb]. cbn in Hp. unfold template_byte. by rewrite Hp.
  - unfold brace. rewrite !forallb_app_string. cbn [legal] in Hp. unfold templateNameChars in Hp. apply andb_true_iff in Hp as [_ Hp].
    apply andb_true_iff. split; [done|]. apply andb_true_iff. split; [|done]. revert Hp. induction n as [|a n IHn]; [done|].
    cbn [str_forallb]. rewrite !andb_true_iff. intros [Ha Hn]. split; [|by apply IHn].
    pose proof (ascii_all (fun a => negb (is_alnum a || bool_decide (a ∈ ["_"%char; "."%char; "-"%char])) || template_byte a)) as H.
    specialize (H ltac:(by vm_compute) a). cbn beta in H. by rewrite Ha in H.
Qed.

(** ** An item of the set *)

(** An operation as a document, its schemas given as documents. *)
Definition op_doc (op : Operation) (input : doc) (output : option doc) : list (string * doc) :=
  (if bool_decide (OpDescription op = "") then [] else [("description", DStr (OpDescription op))])
  ++ [("inputSchema", input); ("method", DStr (Method op)); ("name", DStr (OpName op))]
  ++ match output with Some d => [("outputSchema", d)] | None => [] end
  ++ [("path", DStr (OpPath op))].

Definition output_text (output : option doc) : string := match output with Some d => doc_text d | None => "" end.

(** The strings and schemas of an operation can be written and read back. *)
Record item_ok (op : Operation) (input : doc) (output : option doc) : Prop := {
  io_strings : valid_string (OpDescription op) = true /\ valid_string (Method op) = true
    /\ valid_string (OpName op) = true /\ valid_string (OpPath op) = true;
  io_input : OpInput op = doc_text input /\ canonical (maxNestingDepth - 2) input;
  io_output : OpOutput op = output_text output /\ (forall d, output = Some d -> canonical (maxNestingDepth - 2) d)
}.

Lemma output_absent op input output : item_ok op input output -> bool_decide (OpOutput op = "") = match output with Some _ => false | None => true end.
Proof.
  intros [_ _ [-> Hd]]. destruct output as [d|]; [|done]. apply bool_decide_eq_false_2. eapply text_nonempty. by apply Hd.
Qed.

Lemma item_text op input output : item_ok op input output -> object_text (item_members op) = doc_text (DObj (op_doc op input output)).
Proof.
  intros Hok. cbn [doc_text]. f_equal. unfold item_members, op_doc. rewrite (output_absent _ _ _ Hok).
  destruct Hok as [_ [-> _] [-> _]]. case_bool_decide; by destruct output.
Qed.

Lemma op_doc_canonical op input output n : item_ok op input output -> (maxNestingDepth - 2 <= n)%nat -> canonical (S n) (DObj (op_doc op input output)).
Proof.
  intros [(H1 & H2 & H3 & H4) [_ Hin] [_ Hout]] Hn. assert (Hm : forall d, canonical (maxNestingDepth - 2) d -> canonical n d) by (intros d; by apply canonical_mono).
  cbn [canonical]. rewrite foldr_Forall. split.
  - assert (Hlt : forall a b, bool_decide (str_le a b /\ a <> b) = true -> str_lt a b) by (intros a b; by rewrite bool_decide_eq_true).
    unfold op_doc, keys_sorted. case_bool_decide; destruct output; cbn [app map fst]; repeat constructor; (apply Hlt; by vm_compute).
  - assert (Hout' : match output with Some d => canonical n d | None => True end) by (destruct output; [by apply Hm, Hout|done]).
    unfold op_doc. case_bool_decide; destruct output; cbn [app]; repeat (constructor; [split; [by vm_compute|cbn; by auto]|]); constructor.
Qed.

Lemma string_field_text s old : valid_string s = true -> string_field (json_string false s) old = Some s.
Proof.
  intros Hs. unfold string_field. change (json_string false s) with (doc_text (DStr s)). rewrite parse_text by done. cbn [json_of].
  unfold json_body. by rewrite unquote_json, repaired_valid.
Qed.

(** Each key of an item is the field of that name. *)
Lemma op_field_string key s op : valid_string s = true ->
  key ∈ ["name"; "description"; "method"; "path"] ->
  op_field key (json_string false s) op =
  Some {| OpName := if bool_decide (key = "name") then s else OpName op;
          OpDescription := if bool_decide (key = "description") then s else OpDescription op;
          Method := if bool_decide (key = "method") then s else Method op;
          OpPath := if bool_decide (key = "path") then s else OpPath op; OpInput := OpInput op; OpOutput := OpOutput op |}.
Proof.
  intros Hs Hk. unfold op_field. rewrite !string_field_text by done.
  repeat (apply elem_of_cons in Hk as [->|Hk]; [reflexivity|]). by apply elem_of_nil in Hk.
Qed.

Lemma op_field_input raw op : op_field "inputSchema" raw op =
  Some {| OpName := OpName op; OpDescription := OpDescription op; Method := Method op; OpPath := OpPath op; OpInput := raw; OpOutput := OpOutput op |}.
Proof. reflexivity. Qed.

Lemma op_field_output raw op : op_field "outputSchema" raw op =
  Some {| OpName := OpName op; OpDescription := OpDescription op; Method := Method op; OpPath := OpPath op; OpInput := OpInput op; OpOutput := raw |}.
Proof. reflexivity. Qed.

#[local] Opaque op_field.

Lemma op_fields_cons key raw rest op op' : op_field key raw op = Some op' -> op_fields ((key, raw) :: rest) op = op_fields rest op'.
Proof. intros H. cbn [op_fields]. by rewrite H. Qed.

Ltac read_field :=
  lazymatch goal with |- op_fields (_ :: _) _ = _ => idtac end; erewrite op_fields_cons;
  [|lazymatch goal with
    | |- op_field "inputSchema" _ _ = _ => apply op_field_input
    | |- op_field "outputSchema" _ _ = _ => apply op_field_output
    | _ => apply op_field_string; [done|repeat (first [left; reflexivity|right])]
    end].

Lemma decode_item op input output : item_ok op input output -> decode_op (object_text (item_members op)) = Some op.
Proof.
  intros Hok. rewrite (item_text _ _ _ Hok). pose proof (op_doc_canonical _ _ _ (Nat.pred maxNestingDepth) Hok ltac:(lia)) as Hc.
  change (S (Nat.pred maxNestingDepth)) with maxNestingDepth in Hc. unfold decode_op. rewrite (parse_text _ Hc). cbn [json_of].
  rewrite raw_members_text; [|unfold op_doc; by case_bool_decide|done].
  destruct Hok as [(H1 & H2 & H3 & H4) [Hin _] [Hout _]].
  destruct op as [name desc method path inp outp]. cbn [OpName OpDescription Method OpPath OpInput OpOutput] in *. subst inp outp.
  unfold op_doc. cbn [OpName OpDescription Method OpPath]. destruct (bool_decide_reflect (desc = "")) as [->|_]; destruct output as [d|];
    cbn [app map fst snd doc_text output_text];
    repeat read_field;
    reflexivity.
Qed.

#[local] Transparent op_field.

(** The operations of a validated set, in canonical form. *)
Record served (rh rq : string) (op op' : Operation) : Prop := {
  sv_made : canonical_op op = Ok op';
  sv_ok : operation_ok rh rq op';
  sv_same : OpName op' = OpName op /\ OpDescription op' = OpDescription op /\ Method op' = Method op /\ OpPath op' = OpPath op;
  sv_again : canonical_op op' = Ok op';
  sv_item : exists input output, item_ok op' input output
}.

(** Its texts are UTF-8, and its schemas leave room for the set around them. *)
Record op_fits (op : Operation) : Prop := {
  fit_text : valid_string (OpDescription op) = true;
  fit_input : schema_fits (OpInput op);
  fit_output : OpOutput op <> "" -> schema_fits (OpOutput op)
}.

Lemma served_op rh rq op : operation_ok rh rq op -> op_fits op -> exists op', served rh rq op op'.
Proof.
  intros Hok [Ht (din & Hin & Hcin) Hout]. destruct (canonical_op_ok _ _ _ Hok) as (op' & Hmade & Hok' & Hn & Hd & Hm & Hp & Hci & Hco).
  exists op'. assert (Hi : OpInput op' = doc_text din) by congruence.
  assert (Ho : exists output, OpOutput op' = output_text output /\ (forall d, output = Some d -> canonical (maxNestingDepth - 2) d)).
  { case_bool_decide as He; [exists None; by rewrite Hco|]. destruct (Hout He) as (d & Hd1 & Hd2). exists (Some d). split; [cbn; congruence|by intros ? [= <-]]. }
  destruct Ho as (output & Ho1 & Ho2). split; try done.
  - unfold canonical_op. rewrite Hi, canonicalize_text by (eapply canonical_mono; [|exact Hcin]; lia). rewrite Ho1. destruct output as [d|]; cbn [output_text].
    + rewrite bool_decide_eq_false_2 by (eapply text_nonempty; by apply Ho2).
      rewrite canonicalize_text by (eapply canonical_mono; [|by apply Ho2]; lia). destruct op'; cbn in *; by subst.
    + rewrite bool_decide_eq_true_2 by done. destruct op'; cbn in *; by subst.
  - exists din, output. split; [|by split|by split]. rewrite Hd. destruct Hok' as [Hvn Hvm (templates & Hvp & _) _].
    split_and!; [done|by apply method_valid|by apply tool_name_valid|by eapply path_valid].
Qed.

Definition sorted_names (ops : list Operation) : Prop := StronglySorted str_lt (map OpName ops).

Lemma encode_served rh rq ops ops' prev : Forall2 (served rh rq) ops ops' ->
  sorted_names ops -> (forall p op, prev = Some p -> op ∈ ops -> str_lt p (OpName op)) ->
  encode_items prev ops = Ok (map (fun op => object_text (item_members op)) ops').
Proof.
  intros H. revert prev. induction H as [|op op' ops ops' Hop _ IH]; intros prev Hs Hprev; [done|].
  unfold sorted_names in Hs. cbn [map] in Hs. apply StronglySorted_inv in Hs as [Hs Hlt]. cbn [encode_items].
  rewrite bool_decide_eq_false_2.
  2:{ intros Hp. destruct (Hprev (OpName op) op Hp ltac:(left)) as [_ Hne]. done. }
  rewrite (sv_made _ _ _ _ Hop). cbn [rbind]. rewrite IH; [done|done|]. intros p o [= <-] Ho. rewrite Forall_forall in Hlt.
  rewrite (proj1 (sv_same _ _ _ _ Hop)). apply Hlt. apply list_elem_of_fmap. by exists o.
Qed.

Lemma decode_served rh rq i prev ops ops' : Forall2 (served rh rq) ops ops' ->
  sorted_names ops' -> (forall p op, prev = Some p -> op ∈ ops' -> str_lt p (OpName op)) ->
  decode_each i prev (map (fun op => object_text (item_members op)) ops') = Ok ops'.
Proof.
  intros H. revert i prev. induction H as [|op op' ops ops' Hop _ IH]; intros i prev Hs Hprev; [done|].
  unfold sorted_names in Hs. cbn [map] in Hs. apply StronglySorted_inv in Hs as [Hs Hlt]. cbn [map decode_each].
  destruct (sv_item _ _ _ _ Hop) as (input & output & Hitem). rewrite (decode_item _ _ _ Hitem).
  assert (Hnone : match prev with Some p => if str_leb (OpName op') p then Some (if bool_decide (OpName op' = p) then SetNameTwice p else SetUnordered (OpName op') p) else None | None => None end = None).
  { destruct prev as [p|]; [|done]. by rewrite (str_lt_leb p (OpName op')) by (apply (Hprev p op'); [done|left]). }
  rewrite Hnone, IH; [done|done|]. intros p o [= <-] Ho. rewrite Forall_forall in Hlt. apply Hlt. apply list_elem_of_fmap. by exists o.
Qed.

Lemma canonical_all_served rh rq ops ops' : Forall2 (served rh rq) ops ops' -> canonical_all ops' = Ok ops'.
Proof. induction 1 as [|op op' ops ops' Hop _ IH]; [done|]. cbn [canonical_all]. rewrite (sv_again _ _ _ _ Hop). cbn [rbind]. by rewrite IH. Qed.

Lemma served_all rh rq ops : Forall (operation_ok rh rq) ops -> Forall op_fits ops -> exists ops', Forall2 (served rh rq) ops ops'.
Proof.
  induction ops as [|op ops IH]; intros Hok Hf; [by exists []|]. apply Forall_cons in Hok as [H1 Hok], Hf as [H2 Hf].
  destruct (served_op _ _ _ H1 H2) as [op' Hop]. destruct (IH Hok Hf) as [ops' Hops]. exists (op' :: ops'). by constructor.
Qed.

Lemma served_names rh rq ops ops' : Forall2 (served rh rq) ops ops' -> map OpName ops' = map OpName ops.
Proof. induction 1 as [|op op' ops ops' Hop _ IH]; [done|]. cbn [map]. by rewrite IH, (proj1 (sv_same _ _ _ _ Hop)). Qed.

Lemma served_again rh rq ops ops' : Forall2 (served rh rq) ops ops' -> Forall2 (served rh rq) ops' ops'.
Proof. induction 1 as [|op op' ops ops' [H1 H2 H3 H4 H5] _ IH]; [done|]. constructor; [by split|done]. Qed.

Lemma items_texts rh rq ops ops' : Forall2 (served rh rq) ops ops' ->
  exists l, map (fun op => object_text (item_members op)) ops' = map doc_text l /\ canonical maxNestingDepth (DArr l).
Proof.
  intros H. assert (Hex : exists l, map (fun op => object_text (item_members op)) ops' = map doc_text l /\ Forall (canonical (Nat.pred maxNestingDepth)) l).
  { induction H as [|op op' ops ops' Hop _ (l & Hl & Hc)]; [by exists []|]. destruct (sv_item _ _ _ _ Hop) as (input & output & Hitem).
    exists (DObj (op_doc op' input output) :: l). cbn [map]. rewrite (item_text _ _ _ Hitem), Hl. split; [done|]. constructor; [|done].
    apply (op_doc_canonical _ _ _ (Nat.pred (Nat.pred maxNestingDepth)) Hitem). lia. }
  destruct Hex as (l & Hl & Hc). exists l. split; [done|]. change maxNestingDepth with (S (Nat.pred maxNestingDepth)). cbn [canonical]. by apply foldr_Forall.
Qed.

Lemma sort_by_strict ops : NoDup (map OpName ops) -> sorted_names (sort_by OpName ops).
Proof.
  intros Hnd. unfold sorted_names. pose proof (sort_by_sorted OpName ops) as Hs.
  assert (Hnd' : NoDup (map OpName (sort_by OpName ops))) by (by rewrite (sort_by_Permutation OpName ops)).
  induction Hs as [|op l _ IH Hop]; [constructor|]. cbn [map] in *. apply NoDup_cons in Hnd' as [Hn Hnd']. constructor; [by apply IH|].
  apply Forall_forall. intros n Hin. pose proof Hin as Hin'. apply list_elem_of_fmap in Hin' as (o & -> & Ho). rewrite Forall_forall in Hop.
  split; [by apply Hop|]. intros He. by rewrite He in Hn.
Qed.

Lemma sorted_names_NoDup ops : sorted_names ops -> NoDup (map OpName ops).
Proof.
  unfold sorted_names. induction 1 as [|n l _ IH Hn]; constructor; [|done]. intros Hin. rewrite Forall_forall in Hn. by destruct (Hn n Hin).
Qed.

Lemma NoDup_names_inj ops x y : NoDup (map OpName ops) -> x ∈ ops -> y ∈ ops -> OpName x = OpName y -> x = y.
Proof.
  induction ops as [|op ops IH]; [by intros _ ?%elem_of_nil|]. cbn [map]. intros [Hn Hnd]%NoDup_cons Hx Hy He.
  apply elem_of_cons in Hx as [->|Hx], Hy as [->|Hy]; [done| | |by apply IH].
  - destruct Hn. rewrite He. apply list_elem_of_fmap. by exists y.
  - destruct Hn. rewrite <- He. apply list_elem_of_fmap. by exists x.
Qed.

Lemma sort_by_names_id ops : sorted_names ops -> sort_by OpName ops = ops.
Proof.
  intros Hs. apply (StronglySorted_unique_strong (fun a b => str_le (OpName a) (OpName b))).
  - intros x y Hx Hy Hxy Hyx. rewrite elem_of_sort_by in Hx. apply (NoDup_names_inj ops); [by apply sorted_names_NoDup|done|done|].
    by apply (anti_symm str_le).
  - apply sort_by_sorted.
  - clear -Hs. unfold sorted_names in Hs. induction ops as [|op ops IH]; [constructor|]. cbn [map] in Hs.
    apply StronglySorted_inv in Hs as [Hs Hop]. constructor; [by apply IH|]. apply Forall_forall. intros o Ho. rewrite Forall_forall in Hop.
    apply Hop. apply list_elem_of_fmap. by exists o.
  - apply sort_by_Permutation.
Qed.

(** What is kept of an operation through its stored form: everything but the spelling of its schemas. *)
Definition same_operation (op op' : Operation) : Prop :=
  OpName op' = OpName op /\ OpDescription op' = OpDescription op /\ Method op' = Method op /\ OpPath op' = OpPath op
  /\ canonical_op op = Ok op'.

(** C20 [operation_set_roundtrip]: what is signed is what is served.  A set [Validate] accepts, whose texts
    are UTF-8 and whose schemas nest at most 9998 deep, is always encoded; its bytes are decoded, for
    the same descriptor, to its operations in name order with their schemas in canonical form and
    nothing else changed; encoding those again gives the same bytes; and the bytes do not depend on the
    order the operations were in. *)
Theorem operation_set_roundtrip ops authKind authName :
  ops_Validate ops authKind authName = None -> Forall op_fits ops ->
  exists b ops', Encode ops = Ok b /\ Decode b authKind authName = Ok ops'
    /\ Forall2 same_operation (sort_by OpName ops) ops' /\ Encode ops' = Ok b
    /\ ops_Validate ops' authKind authName = None
    /\ forall ops2, ops2 ≡ₚ ops -> Encode ops2 = Ok b.
Proof.
  unfold ops_Validate at 1. destruct (reservedSlots authKind authName) as [[rh rq]|] eqn:Hr; [|done]. intros Hv Hfits.
  assert (Hne : ops <> []) by (by intros ->). assert (Hall : validate_each rh rq ops [] = None) by (by destruct ops).
  apply validate_each_None in Hall as [Hok Hnew]. rewrite new_among_nil in Hnew. set (s := sort_by OpName ops).
  assert (Hperm : s ≡ₚ ops) by apply sort_by_Permutation. destruct (served_all rh rq s) as [ops' Hs]; [by rewrite Hperm|by rewrite Hperm|].
  pose proof (sort_by_strict ops Hnew) as Hsorted. fold s in Hsorted.
  assert (Hsorted' : sorted_names ops') by (unfold sorted_names; by rewrite (served_names _ _ _ _ Hs)).
  assert (Henc : forall o, sort_by OpName o = s -> Encode o = Ok (array_text (map (fun op => object_text (item_members op)) ops'))).
  { intros o Ho. unfold Encode. rewrite Ho, (encode_served rh rq s ops' None Hs Hsorted) by done. done. }
  assert (Hvalid : ops_Validate ops' authKind authName = None).
  { unfold ops_Validate. rewrite Hr. assert (Hne' : ops' <> []).
    { intros ->. apply Forall2_nil_inv_r in Hs. apply Hne. rewrite Hs in Hperm. symmetry in Hperm. by apply Permutation_nil_r in Hperm. }
    assert (validate_each rh rq ops' [] = None); [|by destruct ops']. apply validate_each_None. rewrite new_among_nil. split.
    - clear -Hs. induction Hs as [|op op' ? ? Hop _ IH]; constructor; [apply (sv_ok _ _ _ _ Hop)|done].
    - by apply sorted_names_NoDup. }
  eexists _, ops'. split; [by apply Henc|]. split.
  { unfold Decode. destruct (items_texts _ _ _ _ Hs) as (l & Hl & Hc). rewrite Hl, raw_items_text, <- Hl by done.
    rewrite (decode_served rh rq 0 None s ops' Hs Hsorted') by done. cbn [rbind]. rewrite Hvalid. by eapply canonical_all_served. }
  split. { clear -Hs. induction Hs as [|op op' ? ? [Hm _ (?&?&?&?) _ _] _ IH]; constructor; [by split_and!|done]. }
  split. { unfold Encode. rewrite (sort_by_names_id ops' Hsorted'), (encode_served rh rq ops' ops' None (served_again _ _ _ _ Hs) Hsorted') by done. done. }
  split; [done|]. intros ops2 H2. apply Henc. rewrite <- (sort_by_names_id s Hsorted).
  apply (StronglySorted_unique_strong (fun a b => str_le (OpName a) (OpName b))); [|apply sort_by_sorted..|by rewrite !sort_by_Permutation, H2].
  intros x y Hx Hy Hxy Hyx. rewrite elem_of_sort_by in Hx, Hy. rewrite H2 in Hx. apply (NoDup_names_inj ops); [done|done|by rewrite <- Hperm|].
  by apply (anti_symm str_le).
Qed.

(** ** Witness *)

Lemma schema_fits_by text :
  match value (S (len text)) (maxNestingDepth - 2) text with
  | Some (v, _) => canonicalize text = Ok (doc_text (doc_of v))
  | None => False
  end -> schema_fits text.
Proof.
  destruct (value _ _ _) as [[v rest]|] eqn:Hv; [|done]. intros Hc. exists (doc_of v). split; [done|by eapply value_canonical].
Qed.

Definition demo_bytes : string := match Encode demo_set with Ok b => b | Err _ => "" end.
Definition demo_served : list Operation := match Decode demo_bytes AuthHeader "X-API-Key" with Ok ops => ops | Err _ => [] end.

Lemma operation_set_roundtrip_witness :
  ops_Validate demo_set AuthHeader "X-API-Key" = None /\ map OpName demo_served = ["add_note"; "get_alert"]
  /\ exists b ops', Encode demo_set = Ok b /\ Decode b AuthHeader "X-API-Key" = Ok ops'
    /\ Forall2 same_operation (sort_by OpName demo_set) ops' /\ Encode ops' = Ok b
    /\ ops_Validate ops' AuthHeader "X-API-Key" = None
    /\ forall ops2, ops2 ≡ₚ demo_set -> Encode ops2 = Ok b.
Proof.
  split; [vm_compute; reflexivity|]. split; [vm_compute; reflexivity|].
  apply (operation_set_roundtrip demo_set AuthHeader "X-API-Key").
  - vm_compute. reflexivity.
  - apply List.Forall_cons; [split|apply List.Forall_cons; [split|apply List.Forall_nil]].
    + vm_compute. reflexivity.
    + apply schema_fits_by. vm_compute. reflexivity.
    + intros H. vm_compute in H. congruence.
    + vm_compute. reflexivity.
    + apply schema_fits_by. vm_compute. reflexivity.
    + intros _. apply schema_fits_by. vm_compute. reflexivity.
Defined.

(** The limits of the round trip.  A byte that is not UTF-8 in a description is written as an escape and
    read back as U+FFFD, which is written as itself: the bytes change. *)
Definition demo_broken : Operation :=
  {| OpName := "get_alert"; OpDescription := bytes [255]; Method := "GET"; OpPath := "/alerts";
     OpInput := dq "{'type':'object'}"; OpOutput := "" |}.

Lemma broken_description_changes :
  ops_Validate [demo_broken] "" "" = None
  /\ match Encode [demo_broken] with
     | Ok b => match Decode b "" "" with Ok ops => Encode ops <> Ok b | Err _ => False end
     | Err _ => False
     end.
Proof. split; [vm_compute; reflexivity|]. vm_compute. congruence. Qed.
