(* ===== verification/RestCall.v ===== *)
(** * A REST upstream: dialing it and calling it ([internal/gateway/resthttp/resthttp.go])

    [Dial], [CallTool] and what an answer becomes.  The vault, the HTTP exchange (the egress guard's
    dialer is behind it, RestEgress.v) and the body's reader are effects; redirects are followed by the
    client's own loop, each hop through [checkRedirect]. *)
From Stdlib Require Import ZArith Lia Ascii.
From stdpp Require Import base strings list.
From S2P Require Import Prelude.
From S2P Require Import GoStrings.
From S2P Require Import GoTime.
From S2P Require Import Json.
From S2P Require Import Redact.
From S2P Require Import Registry.
From S2P Require Import GatewayTypes.
From S2P Require Import Prog.
From S2P Require Import ToolSchema.
From S2P Require Import Routing.
From S2P Require Import RestEgress.
From S2P Require Import RestOperations.
From S2P Require Import JsonCanon.
From S2P Require Import RestPath.
From S2P Require Import RestRequest.
From S2P Require Import RestSets.

Definition TransportHTTP : string := "http".

(** ** Dialing *)

Record rest_upstream := {
  u_base : base; u_authKind : string; u_authName : string; u_secretName : string;
  u_ops : list Operation; u_routes : list (string * rest_route); u_maxBody : Z
}.

Inductive auth_mismatch := KeylessWithSecret | NotOneSecret (n : nat) | UnnamedSecret.

Inductive rest_dial_error :=
| RestTransport (transport : string)
| RestURL (e : base_error)
| RestAuthMismatch (e : auth_mismatch)
| RestNoVault
| RestOperations (e : sets_error)
| RestRoutes (e : operations_error).

(** [secretRef]: the name of the one secret, [""] for a keyless entry. *)
Definition secretRef (authKind : string) (env : list (string * string)) : result auth_mismatch string :=
  if bool_decide (authKind = AuthNone) then match env with [] => Ok "" | _ => Err KeylessWithSecret end
  else match env with
  | [(name, _)] => if bool_decide (name = "") then Err UnnamedSecret else Ok name
  | _ => Err (NotOneSecret (length env))
  end.

Section dial.
Context `{UP : UrlParser, AP : AddrParser}.

(** [hasVault]: the dialer was built with a vault. *)
Definition rest_Dial (egress : Addr -> option refusal) (hasVault : bool) (maxBody : Z) (spec : UpstreamSpec)
    (env : list (string * string)) : result rest_dial_error rest_upstream :=
  if negb (bool_decide (SpTransport spec = TransportHTTP)) then Err (RestTransport (SpTransport spec))
  else match parseBase (SpURL spec) with
  | Err e => Err (RestURL e)
  | Ok b =>
      match literalHostRefusal egress b with
      | Some e => Err (RestURL e)
      | None =>
          match secretRef (SpAuthKind spec) env with
          | Err e => Err (RestAuthMismatch e)
          | Ok secretName =>
              if negb (bool_decide (secretName = "")) && negb hasVault then Err RestNoVault
              else match Decode (SpOperations spec) (SpAuthKind spec) (SpAuthName spec) with
              | Err e => Err (RestOperations e)
              | Ok ops =>
                  match routesOf ops with
                  | Err e => Err (RestRoutes e)
                  | Ok routes =>
                      Ok {| u_base := b; u_authKind := SpAuthKind spec; u_authName := SpAuthName spec; u_secretName := secretName;
                            u_ops := ops; u_routes := routes; u_maxBody := maxBody |}
                  end
              end
          end
      end
  end.
End dial.

Definition rest_ListTools (u : rest_upstream) : list ToolDef := map op_ToolDef (u_ops u).

(** ** Errors *)

(** An error of the client or of a body: its text, the text inside when it is a [*url.Error], what it
    wraps, and whether it wraps [ErrEgressRefused]. *)
Record client_error := { ce_text : string; ce_inner : option string; ce_is : foreign; ce_egress : bool }.

Record scrubbedError := { sc_text : string; sc_is : foreign; sc_egress : bool }.

Section scrub.
Context `{PT : PrintTable}.

Definition scrubCallError (e : client_error) (op : Operation) (env : list (string * string)) : scrubbedError :=
  let msg := match ce_inner e with Some inner => Method op +:+ " " +:+ OpPath op +:+ ": " +:+ inner | None => ce_text e end in
  {| sc_text := (MaskCredentials msg env).1; sc_is := ce_is e; sc_egress := ce_egress e |}.
End scrub.

(** ** The answer *)

(** A body's reader: the bytes it has, then an error, or the end. *)
Record stream := { st_bytes : string; st_error : option client_error }.

Inductive body_error := BodyTooLarge | BodyRead (e : client_error).

(** [readBody]: one byte past the limit tells a body of [limit] bytes from a longer one. *)
Definition readBody (s : stream) (limit : Z) : result body_error string :=
  let data := str_take (Z.to_nat (limit + 1)) (st_bytes s) in
  match st_error s with
  | Some e => if limit + 1 <=? blen (st_bytes s) then Err BodyTooLarge else Err (BodyRead e)
  | None => if limit <? blen data then Err BodyTooLarge else Ok data
  end.

Definition base64_digit (z : Z) : ascii :=
  if z <? 26 then zb (65 + z) else if z <? 52 then zb (71 + z) else if z <? 62 then zb (z - 4) else if z =? 62 then "+"%char else "/"%char.

(** [base64.StdEncoding.EncodeToString]. *)
Fixpoint base64 (s : string) : string :=
  match s with
  | EmptyString => ""
  | String a EmptyString =>
      String (base64_digit (bz a / 4)) (String (base64_digit (bz a mod 4 * 16)) "==")
  | String a (String b EmptyString) =>
      String (base64_digit (bz a / 4)) (String (base64_digit (bz a mod 4 * 16 + bz b / 16)) (String (base64_digit (bz b mod 16 * 4)) "="))
  | String a (String b (String c s)) =>
      String (base64_digit (bz a / 4)) (String (base64_digit (bz a mod 4 * 16 + bz b / 16))
        (String (base64_digit (bz b mod 16 * 4 + bz c / 64)) (String (base64_digit (bz c mod 64)) (base64 s))))
  end.

Example base64_ex : base64 "light work." = "bGlnaHQgd29yay4=" /\ base64 "light wo" = "bGlnaHQgd28=" /\ base64 (bytes [0; 255; 254]) = "AP/+".
Proof. vm_compute. done. Qed.

(** [mime.ParseMediaType]: the media type, or an error. *)
Class MediaTypes := { ParseMediaType : string -> option string }.

Definition has_suffix (s suffix : string) : bool := has_prefix (str_rev s) (str_rev suffix).

Definition isJSONMediaType `{MediaTypes} (contentType : string) : bool :=
  match ParseMediaType contentType with
  | None => false
  | Some mt => let mt := to_lower mt in bool_decide (mt = "application/json") || has_suffix mt "+json"
  end.

Record response := { r_status : Z; r_header : Header (* in the order the map is ranged over *); }.

(** The answer's headers under their canonical names. *)
Definition envelope_headers (h : Header) : list (string * list string) :=
  foldl (fun acc kv => put (CanonicalHeaderKey kv.1) kv.2 acc) [] h.

Definition strings_doc (vs : list string) : doc := match vs with [] => DNull | _ => DArr (map DStr vs) end.

(** [envelope], as it is marshalled; [body] is the JSON text of the body. *)
Definition envelope_text (resp : response) (body encoding : string) : string :=
  object_text ([("status", dec (r_status resp));
                ("headers", doc_text (DObj (map (fun kv => (kv.1, strings_doc kv.2)) (envelope_headers (r_header resp)))));
                ("body", body)]
               ++ (if bool_decide (encoding = "") then [] else [("encoding", json_string false encoding)])).

(** One text block: the content of a result. *)
Definition text_content (text : string) : string :=
  array_text [object_text [("type", json_string false "text"); ("text", json_string false text)]].

Definition isError (resp : response) : bool := (r_status resp <? 200) || (299 <? r_status resp).

Inductive serialize_error := BodyDocument (e : document_error) | Unscrubbable.

Section serialize.
Context `{PT : PrintTable, MT : MediaTypes}.

(** The body's place in the envelope: its JSON text, the encoding it is named with, and the document for
    [StructuredContent]. *)
Definition body_fields (resp : response) (body : string) : result serialize_error (string * string * string) :=
  if bool_decide (body = "") then Ok (json_string false "", "", "")
  else if isJSONMediaType (header_Get "Content-Type" (r_header resp)) && json_valid body then
    match canonicalize body with
    | Err e => Err (BodyDocument e)
    | Ok compact => Ok (compact, "", compact)
    end
  else if valid_string body then Ok (json_string false body, "", "")
  else Ok (json_string false (base64 body), "base64", "").

Definition serialize (resp : response) (body : string) (secrets : list (string * string)) : result serialize_error Result :=
  fields <-? body_fields resp body;;
  let '(bodyText, encoding, document) := fields in
  let structured := if isError resp then "" else document in
  match ScrubJSON (envelope_text resp bodyText encoding) secrets with
  | Err _ => Err Unscrubbable
  | Ok (text, _) =>
      match ScrubJSON structured secrets with
      | Err _ => Err Unscrubbable
      | Ok (structured, _) =>
          Ok {| Content := text_content text; StructuredContent := structured; IsError := isError resp; Notice := None |}
      end
  end.
End serialize.

(** ** The call *)

Inductive sent := SendFailed (e : client_error) | Answered (resp : response) (redirect : option url_URL).

Inductive rest_effect :=
| RResolve (name : string)
| RSend (method url : string) (headers : Header) (body : option string)
| RFollow (target : url_URL)       (* the client's next request of the exchange *)
| RReadBody | RCloseBody.

Definition rest_answer (e : rest_effect) : Type :=
  match e with
  | RResolve _ => result foreign string
  | RSend _ _ _ _ | RFollow _ => sent
  | RReadBody => stream
  | RCloseBody => unit
  end.

#[export] Instance rest_effects : Effects :=
  {| eff := rest_effect; ans := rest_answer; may_panic := fun _ => false |}.

Abbreviation act e := (trigger (E := rest_effects) e).

Inductive made := First (url : string) | Hop (target : url_URL).

(** What [CheckRedirect] refuses with, inside the client's [*url.Error]. *)
Definition redirect_error (b : base) (got : string) : client_error :=
  let inner := "resthttp: egress refused: redirect to " +:+ got +:+ " refused; this upstream is pinned to " +:+ b_origin b in
  {| ce_text := inner; ce_inner := Some inner; ce_is := []; ce_egress := true |}.

(** [http.Client.Do], from its first answer on; [via] are the requests made. *)
Fixpoint exchange (fuel : nat) (b : base) (via : list made) (answer : sent) : prog (result client_error response) :=
  match answer with
  | SendFailed e => Ret (Err e)
  | Answered resp None => Ret (Ok resp)
  | Answered resp (Some target) =>
      match checkRedirect b target via with
      | Some ErrUseLastResponse => Ret (Ok resp)
      | Some (RedirectRefused got) => Ret (Err (redirect_error b got))
      | None =>
          match fuel with
          | O => Ret (Ok resp)
          | S fuel => answer <- act (RFollow target);; exchange fuel b (via ++ [Hop target]) answer
          end
      end
  end.

Inductive call_error :=
| CallUnknownTool
| CallResolve (e : foreign)
| CallNoCredential
| CallFailed (e : scrubbedError)
| CallReadBody (e : scrubbedError)
| CallBodyTooLarge
| CallSerialize (e : serialize_error).

(** [argumentRefusal]: a result that is an error, and says why; or the answer. *)
Inductive called := Refused (e : arg_error) | Answer (r : Result).

(** The credential of the call, under its name; none for a keyless entry. *)
Definition credential (u : rest_upstream) : prog (result call_error (list (string * string))) :=
  if bool_decide (u_secretName u = "") then Ret (Ok [])
  else
    r <- act (RResolve (u_secretName u));;
    match r with
    | Err e => Ret (Err (CallResolve e))
    | Ok value => if bool_decide (value = "") then Ret (Err CallNoCredential) else Ret (Ok [(u_secretName u, value)])
    end.

Definition injected (u : rest_upstream) (env : list (string * string)) (req : request) (query : list (string * list string))
  : request * list (string * list string) :=
  match env with (_, value) :: _ => inject (u_authKind u) (u_authName u) value req query | [] => (req, query) end.

Section call.
Context `{UP : UrlParser, PT : PrintTable, MT : MediaTypes}.

Definition finish (u : rest_upstream) (op : Operation) (env : list (string * string)) (r : result client_error response)
  : prog (result call_error called) :=
  match r with
  | Err e => Ret (Err (CallFailed (scrubCallError e op env)))
  | Ok resp =>
      s <- act RReadBody;;
      act RCloseBody;;;
      Ret (match readBody s (u_maxBody u) with
           | Err BodyTooLarge => Err CallBodyTooLarge
           | Err (BodyRead e) => Err (CallReadBody (scrubCallError e op env))
           | Ok body => match serialize resp body env with
                        | Ok res => Ok (Answer res)
                        | Err e => Err (CallSerialize e)
                        end
           end)
  end.

Definition rest_CallTool (u : rest_upstream) (tool args : string) : prog (result call_error called) :=
  match assoc tool (u_routes u) with
  | None => Ret (Err CallUnknownTool)
  | Some rt =>
      match buildRequest (u_base u) rt args with
      | Err e => Ret (Ok (Refused e))
      | Ok (req, query) =>
          cred <- credential u;;
          match cred with
          | Err e => Ret (Err e)
          | Ok env =>
              let '(req, query) := injected u env req query in
              let url := request_url req query in
              answer <- act (RSend (q_method req) url (q_header req) (q_body req));;
              r <- exchange maxRedirects (u_base u) [First url] answer;;
              finish u (r_op rt) env r
          end
      end
  end.
End call.

(** ** What a dialed upstream is *)

Lemma canonical_all_valid rh rq ops ops' : Forall (operation_ok rh rq) ops -> canonical_all ops = Ok ops' ->
  Forall (operation_ok rh rq) ops' /\ map OpName ops' = map OpName ops.
Proof.
  revert ops'. induction ops as [|op ops IH]; intros ops' Hok; cbn [canonical_all]; [by intros [= <-]|].
  apply Forall_cons in Hok as [Hop Hok]. destruct (canonical_op_ok _ _ _ Hop) as (op' & -> & Hop' & Hn & _). cbn [rbind].
  destruct (canonical_all ops) as [rest|]; cbn [rbind]; [|done]. intros [= <-]. destruct (IH rest Hok eq_refl) as [H1 H2].
  split; [by constructor|]. cbn [map]. by rewrite Hn, H2.
Qed.

Lemma Decode_valid b authKind authName ops : Decode b authKind authName = Ok ops -> ops_Validate ops authKind authName = None.
Proof.
  unfold Decode. destruct (raw_items b) as [raws|]; [|done]. destruct (decode_each _ _ _) as [ops0|]; cbn [rbind]; [|done].
  unfold ops_Validate. destruct (reservedSlots authKind authName) as [[rh rq]|]; [|done].
  destruct ops0 as [|op0 ops0]; [done|]. destruct (validate_each rh rq (op0 :: ops0) []) eqn:Hv; [done|]. intros Hc.
  apply validate_each_None in Hv as [Hok Hnew]. destruct (canonical_all_valid _ _ _ _ Hok Hc) as [Hok' Hn].
  assert (Hall : validate_each rh rq ops [] = None) by (apply validate_each_None; split; [done|by rewrite Hn]). by destruct ops.
Qed.

Lemma routesOf_spec ops routes : routesOf ops = Ok routes ->
  Forall2 (fun op r => r.1 = OpName op /\ r_op r.2 = op /\ exists schema, decodeObject (OpInput op) = Ok schema /\ r_props r.2 = declared schema) ops routes.
Proof.
  revert routes. induction ops as [|op ops IH]; intros routes; cbn [routesOf]; [by intros [= <-]|].
  destruct (decodeObject (OpInput op)) as [schema|] eqn:Hs; [|done]. destruct (routesOf ops) as [rest|]; cbn [rbind]; [|done].
  intros [= <-]. constructor; [|by apply IH]. split_and!; [done|done|by exists schema].
Qed.

Lemma assoc_In {A} k (l : list (string * A)) v : assoc k l = Some v -> (k, v) ∈ l.
Proof.
  induction l as [|[k' v'] l IH]; [done|]. rewrite assoc_cons. cbn [fst snd]. case_bool_decide as H; [|by right; apply IH].
  intros [= ->]. subst. left.
Qed.

(** A dialed upstream: its base, its validated operations, a route for each. *)
Record dialed `{UP : UrlParser} (url : string) (u : rest_upstream) : Prop := {
  dl_base : parseBase url = Ok (u_base u);
  dl_ops : ops_Validate (u_ops u) (u_authKind u) (u_authName u) = None;
  dl_secret : u_secretName u = "" <-> u_authKind u = AuthNone;
  dl_route : forall tool rt, assoc tool (u_routes u) = Some rt ->
    exists op schema, op ∈ u_ops u /\ OpName op = tool /\ decodeObject (OpInput op) = Ok schema
      /\ rt = {| r_op := op; r_props := declared schema |}
}.

Lemma secretRef_Ok authKind env name : secretRef authKind env = Ok name -> name = "" <-> authKind = AuthNone.
Proof.
  unfold secretRef. case_bool_decide as Hk; [by destruct env; [intros [= <-]|]|].
  destruct env as [|[n v] [|]]; try done. case_bool_decide as Hn; [done|]. by intros [= <-].
Qed.

Lemma rest_Dial_Ok `{UP : UrlParser, AP : AddrParser} egress hasVault maxBody spec env u :
  rest_Dial egress hasVault maxBody spec env = Ok u -> dialed (SpURL spec) u /\ literalHostRefusal egress (u_base u) = None
    /\ u_authKind u = SpAuthKind spec /\ u_authName u = SpAuthName spec.
Proof.
  unfold rest_Dial. destruct (negb _); [done|]. destruct (parseBase (SpURL spec)) as [b|] eqn:Hb; [|done].
  destruct (literalHostRefusal egress b) eqn:Hl; [done|]. destruct (secretRef _ _) as [name|] eqn:Hs; [|done].
  destruct (_ && _); [done|]. destruct (Decode _ _ _) as [ops|] eqn:Hd; [|done]. destruct (routesOf ops) as [routes|] eqn:Hr; [|done].
  intros [= <-]. split; [|by split_and!]. split; cbn; [done|by eapply Decode_valid|by eapply secretRef_Ok|].
  intros tool rt Ha%assoc_In. apply routesOf_spec in Hr. apply list_elem_of_lookup in Ha as [i Hi].
  destruct (Forall2_lookup_r _ _ _ _ _ Hr Hi) as (op & Hop & H1 & H2 & schema & H3 & H4). cbn [fst snd] in *.
  exists op, schema. split_and!; [by eapply list_elem_of_lookup_2|done|done|]. destruct rt as [o p]. cbn in *. by subst.
Qed.

(** ** Every run of a call *)

Abbreviation rev := (event (E := rest_effects)).

Definition saw (e : rest_effect) (a : rest_answer e) : rev := Ev (E := rest_effects) e (Val a).

(** Requests after the first: each to the pinned origin. *)
Definition followed (b : base) (hops : list rev) : Prop :=
  Forall (fun ev => exists target answer, ev = saw (RFollow target) answer /\ originOf target = b_origin b) hops.

Section runs.
Context `{UP : UrlParser, PT : PrintTable, MT : MediaTypes}.

(** The credential as the vault answered it. *)
Definition resolved (u : rest_upstream) (env : list (string * string)) (acc : list rev) : Prop :=
  u_secretName u = "" /\ env = [] /\ acc = []
  \/ exists value, u_secretName u <> "" /\ value <> "" /\ env = [(u_secretName u, value)]
       /\ acc = [saw (RResolve (u_secretName u)) (Ok value)].

(** The request a call sends, credential and all. *)
Definition sends (u : rest_upstream) (env : list (string * string)) (req : request) (query : list (string * list string)) (answer : sent) : rev :=
  saw (RSend (q_method (injected u env req query).1)
             (request_url (injected u env req query).1 (injected u env req query).2)
             (q_header (injected u env req query).1) (q_body (injected u env req query).1)) answer.

(** What a body that was read becomes. *)
Definition read_out (u : rest_upstream) (op : Operation) (env : list (string * string)) (resp : response) (s : stream)
  : result call_error called :=
  match readBody s (u_maxBody u) with
  | Err BodyTooLarge => Err CallBodyTooLarge
  | Err (BodyRead e) => Err (CallReadBody (scrubCallError e op env))
  | Ok body => match serialize resp body env with Ok res => Ok (Answer res) | Err e => Err (CallSerialize e) end
  end.

(** The runs of [CallTool]. *)
Inductive call_run (u : rest_upstream) (tool args : string) : list rev -> result call_error called -> Prop :=
| run_unknown : assoc tool (u_routes u) = None -> call_run u tool args [] (Err CallUnknownTool)
| run_refused rt e : assoc tool (u_routes u) = Some rt -> buildRequest (u_base u) rt args = Err e ->
    call_run u tool args [] (Ok (Refused e))
| run_unresolved rt req q e : assoc tool (u_routes u) = Some rt -> buildRequest (u_base u) rt args = Ok (req, q) ->
    u_secretName u <> "" ->
    call_run u tool args [saw (RResolve (u_secretName u)) (Err e)] (Err (CallResolve e))
| run_empty_secret rt req q : assoc tool (u_routes u) = Some rt -> buildRequest (u_base u) rt args = Ok (req, q) ->
    u_secretName u <> "" ->
    call_run u tool args [saw (RResolve (u_secretName u)) (Ok "")] (Err CallNoCredential)
| run_failed rt req q env acc answer hops e : assoc tool (u_routes u) = Some rt -> buildRequest (u_base u) rt args = Ok (req, q) ->
    resolved u env acc -> followed (u_base u) hops -> (length hops < maxRedirects)%nat ->
    call_run u tool args (acc ++ sends u env req q answer :: hops) (Err (CallFailed (scrubCallError e (r_op rt) env)))
| run_answered rt req q env acc answer hops resp s : assoc tool (u_routes u) = Some rt -> buildRequest (u_base u) rt args = Ok (req, q) ->
    resolved u env acc -> followed (u_base u) hops -> (length hops < maxRedirects)%nat ->
    call_run u tool args (acc ++ sends u env req q answer :: hops ++ [saw RReadBody s; saw RCloseBody tt]) (read_out u (r_op rt) env resp s).

Lemma wpa_rest {B} acc (e : rest_effect) (f : rest_answer e -> prog B) Q :
  (forall x : rest_answer e, wpa (acc ++ [saw e x]) (f x) Q) -> wpa acc (bind (act e) f) Q.
Proof. intros H. by apply (wpa_step (E := rest_effects)). Qed.

Lemma exchange_wpa fuel b via answer acc Q :
  (length via <= maxRedirects)%nat ->
  (forall hops r, followed b hops -> (length via + length hops <= maxRedirects)%nat -> Q (acc ++ hops) (Done r)) ->
  wpa acc (exchange fuel b via answer) Q.
Proof.
  revert via answer acc. induction fuel as [|fuel IH]; intros via answer acc Hvia HQ.
  all: assert (Hret : forall r, wpa acc (Ret r) Q) by (intros r; apply wpa_ret; specialize (HQ [] r); rewrite app_nil_r in HQ; apply HQ; [constructor|simpl; lia]).
  all: destruct answer as [e|resp [target|]]; cbn [exchange]; try apply Hret.
  all: destruct (checkRedirect b target via) as [[|got]|] eqn:Hc; try apply Hret.
  unfold checkRedirect in Hc. destruct (bool_decide_reflect (originOf target = b_origin b)) as [Ho|]; [|done]. cbn [negb] in Hc.
  destruct (Nat.leb_spec maxRedirects (length via)) as [|Hlt]; [done|].
  apply wpa_rest. intros answer. apply IH; [rewrite length_app; simpl; lia|]. intros hops r Hh Hl. rewrite <- app_assoc. apply HQ.
  - constructor; [by exists target, answer|done].
  - rewrite length_app in Hl. simpl in *. lia.
Qed.

Lemma credential_wpa u acc Q :
  (forall env acc', resolved u env acc' -> Q (acc ++ acc') (Done (Ok env))) ->
  (forall e, u_secretName u <> "" -> Q (acc ++ [saw (RResolve (u_secretName u)) (Err e)]) (Done (Err (CallResolve e)))) ->
  (u_secretName u <> "" -> Q (acc ++ [saw (RResolve (u_secretName u)) (Ok "")]) (Done (Err CallNoCredential))) ->
  wpa acc (credential u) Q.
Proof.
  intros H1 H2 H3. unfold credential. case_bool_decide as Hn.
  - apply wpa_ret. rewrite <- (app_nil_r acc). apply H1. by left.
  - apply wpa_rest. intros [value|e]; [|by apply wpa_ret, H2]. case_bool_decide as Hv; apply wpa_ret; [subst; by apply H3|].
    apply H1. right. by exists value.
Qed.

Lemma CallTool_runs u tool args tr out :
  runs (rest_CallTool u tool args) tr out -> exists r, out = Done r /\ call_run u tool args tr r.
Proof.
  revert tr out. apply wpa_runs. unfold rest_CallTool. destruct (assoc tool (u_routes u)) as [rt|] eqn:Hrt.
  2:{ apply wpa_ret. eexists. split; [reflexivity|]. by constructor. }
  destruct (buildRequest (u_base u) rt args) as [[req q]|e] eqn:Hb.
  2:{ apply wpa_ret. eexists. split; [reflexivity|]. by eapply run_refused. }
  apply wpa_bind, credential_wpa; cbn [app].
  - intros env acc Hres. pose proof (surjective_pairing (injected u env req q)) as Hinj. rewrite Hinj.
    apply wpa_rest. intros answer. apply wpa_bind, exchange_wpa; [unfold maxRedirects; simpl; lia|]. intros hops r Hh Hl. rewrite <- app_assoc. cbn [length app] in *.
    destruct r as [resp|e]; cbn [finish].
    + apply wpa_rest. intros s. apply wpa_rest. intros []. apply wpa_ret. eexists. split; [reflexivity|]. rewrite <- !app_assoc. cbn [app].
      by apply (run_answered u tool args rt req q env acc answer hops resp s).
    + apply wpa_ret. eexists. split; [reflexivity|]. by apply (run_failed u tool args rt req q env acc answer hops e).
  - intros e Hn. apply wpa_ret. eexists. split; [reflexivity|]. by eapply run_unresolved.
  - intros Hn. apply wpa_ret. eexists. split; [reflexivity|]. by eapply run_empty_secret.
Qed.

End runs.

(** ** The credential in what comes back *)

Section hides.
Context `{UP : UrlParser, PT : PrintTable, MT : MediaTypes}.

(** A JSON text with every rendering of a value masked, still valid; or untouched, with none in it. *)
Definition masked_json (value raw out : string) : Prop :=
  (out = raw /\ ~ occurs_one raw (jsonRenderingsOf value))
  \/ (json_valid out = true /\ hides [jsonRenderingsOf value] raw out).

Lemma valued_one name value : value <> "" -> valued [(name, value)] = [(name, value)].
Proof. intros Hv. unfold valued. by rewrite filter_cons_True. Qed.

Lemma scrub_one raw name value out hit : value <> "" -> ScrubJSON raw [(name, value)] = Ok (out, hit) -> masked_json value raw out.
Proof.
  intros Hv. unfold ScrubJSON, scrubJSON. case_bool_decide as Hraw; cbn [rbind].
  { intros [= <- _]. left. split; [done|]. subst. intros (form & start & _ & Hn & Ho%occurs_bound); [|done]. destruct form; [done|]. simpl in Ho. lia. }
  rewrite (valued_one name value Hv). cbn [map snd]. destruct (maskSpans _ _) as [out' hits] eqn:H. apply maskSpans_hides in H as [Hh Hf].
  pose proof (hits_existsb _ _ _ Hf) as He. destruct (existsb id hits) eqn:Hx; cbn [negb].
  - destruct (json_valid out') eqn:Hj; cbn [rbind]; [|done]. intros [= <- _]. right. done.
  - cbn [rbind]. intros [= <- _]. left. split; [done|]. intros Ho. assert (false = true); [|done]. apply He. eexists. split; [by left|done].
Qed.

Lemma scrubCallError_hides e op name value :
  exists text, hides [renderingsOf value] text (sc_text (scrubCallError e op [(name, value)])).
Proof.
  unfold scrubCallError, MaskCredentials. cbn [sc_text map snd]. destruct (maskSpans _ _) as [out hits] eqn:H.
  apply maskSpans_hides in H as [Hh _]. eexists. exact Hh.
Qed.

Lemma serialize_hides resp body name value res : value <> "" -> serialize resp body [(name, value)] = Ok res ->
  exists bodyText encoding document text, body_fields resp body = Ok (bodyText, encoding, document)
    /\ masked_json value (envelope_text resp bodyText encoding) text /\ Content res = text_content text
    /\ masked_json value (if isError resp then "" else document) (StructuredContent res) /\ IsError res = isError resp.
Proof.
  intros Hv. unfold serialize. destruct (body_fields resp body) as [[[bodyText encoding] document]|]; cbn [rbind]; [|done].
  destruct (ScrubJSON (envelope_text _ _ _) _) as [[text hit]|] eqn:H1; [|done].
  destruct (ScrubJSON (if isError resp then _ else _) _) as [[structured hit']|] eqn:H2; [|done]. intros [= <-].
  exists bodyText, encoding, document, text. split_and!; [done|by eapply scrub_one|done|by eapply scrub_one|done].
Qed.

(** The vault's answer in an event. *)
Definition vault_reply (e : rest_effect) : reply (rest_answer e) -> option (result foreign string) :=
  match e with
  | RResolve _ => fun a => match a with Val r => Some r | Blew => None end
  | _ => fun _ => None
  end.

Definition vault_answer (ev : rev) : option (result foreign string) := vault_reply (ev_eff ev) (ev_ans ev).

Definition hidden (u : rest_upstream) (value : string) (r : result call_error called) : Prop :=
  match r with
  | Err (CallFailed e) | Err (CallReadBody e) => exists text, hides [renderingsOf value] text (sc_text e)
  | Ok (Answer res) =>
      exists envelope text document, masked_json value envelope text /\ Content res = text_content text
        /\ masked_json value document (StructuredContent res)
  | _ => True
  end.

(** C17 [call_hides_the_credential]: what a call returns does not show what it injected.  Whatever the server
    or the client answers, the text of an error has every rendering of the value the vault gave this
    call masked; and a result is one text block around an envelope, and a structured document, in
    which every JSON rendering of that value is masked and which are still valid JSON, or in which
    none occurred. *)
Theorem call_hides_the_credential u tool args tr r value :
  runs (rest_CallTool u tool args) tr (Done r) ->
  saw (RResolve (u_secretName u)) (Ok value) ∈ tr -> value <> "" -> hidden u value r.
Proof.
  intros Hr Hin Hne. apply CallTool_runs in Hr as (r' & [= <-] & Hrun).
  assert (Henv : forall env acc rest, resolved u env acc -> saw (RResolve (u_secretName u)) (Ok value) ∈ acc ++ rest ->
    (forall ev, ev ∈ rest -> forall n a, ev <> saw (RResolve n) a) -> env = [(u_secretName u, value)]).
  { intros env acc rest Hres Hacc Hno. apply elem_of_app in Hacc as [Hacc|Hacc]; [|by destruct (Hno _ Hacc _ _ eq_refl)].
    destruct Hres as [(_ & _ & ->)|(v & _ & _ & -> & ->)]; [by apply elem_of_nil in Hacc|]. apply list_elem_of_singleton, (f_equal vault_answer) in Hacc. cbn in Hacc. by injection Hacc as <-. }
  assert (Hhops : forall hops n a, followed (u_base u) hops -> saw (RResolve n) a ∉ hops).
  { intros hops n a Hh Hs. unfold followed in Hh. rewrite Forall_forall in Hh. by destruct (Hh _ Hs) as (target & answer & [=] & _). }
  destruct Hrun as [| | | |rt req q env acc answer hops e Hrt Hb Hres Hh _|rt req q env acc answer hops resp s Hrt Hb Hres Hh _]; try done.
  - rewrite (Henv env acc _ Hres Hin); [apply scrubCallError_hides|].
    intros ev [->|Hev]%elem_of_cons n a; [done|]. intros ->. by eapply Hhops.
  - assert (He : env = [(u_secretName u, value)]).
    { apply (Henv env acc _ Hres Hin). intros ev [->|[Hev|Hev]%elem_of_app]%elem_of_cons n a; [done|intros ->; by eapply Hhops|].
      intros ->. by repeat (apply elem_of_cons in Hev as [[=]|Hev]); apply elem_of_nil in Hev. }
    rewrite He. unfold read_out. destruct (readBody s (u_maxBody u)) as [body|[|e]]; [|done|apply scrubCallError_hides].
    destruct (serialize resp body _) as [res|e] eqn:Hs; [|done]. cbn [hidden].
    destruct (serialize_hides _ _ _ _ _ Hne Hs) as (bodyText & encoding & document & text & _ & H1 & H2 & H3 & _). by eexists _, text, _.
Qed.
End hides.

(** ** Witnesses *)

Section demo.

#[local] Instance demo_urls' : UrlParser := demo_urls.
#[local] Instance demo_addrs : AddrParser := demo_parser.
#[local] Instance demo_print' : PrintTable := demo_print.
#[local] Instance demo_media : MediaTypes :=
  {| ParseMediaType := fun s => Some (match cut s ";" with Some (mt, _) => mt | None => s end) |}.

Definition demo_spec : UpstreamSpec :=
  {| SpName := "soc"; SpTransport := "http"; SpCommand := ""; SpArgs := []; SpURL := "https://API.example.org/v2/"; SpImage := "";
     SpAuthKind := AuthHeader; SpAuthName := "X-API-Key"; SpOperations := demo_bytes |}.

Definition demo_dial : result rest_dial_error rest_upstream :=
  rest_Dial refuseAddr true 1048576 demo_spec [("SOC_KEY", "s3cret")].

Definition demo_up : rest_upstream :=
  match demo_dial with
  | Ok u => u
  | Err _ => {| u_base := demo_base; u_authKind := ""; u_authName := ""; u_secretName := ""; u_ops := []; u_routes := []; u_maxBody := 0 |}
  end.

(** A server that moves the call to its own [/v3] once and echoes the key. *)
Definition demo_server (e : rest_effect) : reply (rest_answer e) :=
  match e with
  | RResolve _ => Val (Ok "s3cret")
  | RSend _ _ _ _ => Val (Answered {| r_status := 307; r_header := [] |} (demo_url "https://api.example.org:443/v3"))
  | RFollow _ => Val (Answered {| r_status := 200; r_header := [("Content-Type", ["application/json; charset=utf-8"])] |} None)
  | RReadBody => Val {| st_bytes := dq "{'you': 'sent s3cret', 'n': 1.0}"; st_error := None |}
  | RCloseBody => Val tt
  end.

Definition demo_call : list rev * outcome (result call_error called) := exec (E := rest_effects) demo_server (rest_CallTool demo_up "get_alert" demo_args).

Definition demo_result : Result :=
  {| Content := dq "[{'type':'text','text':'{\'status\':200,\'headers\':{\'Content-Type\':[\'application/json; charset=utf-8\']},\'body\':{\'n\':1.0,\'you\':\'sent [redacted]\'}}'}]";
     StructuredContent := dq "{'n':1.0,'you':'sent [redacted]'}"; IsError := false; Notice := None |}.

Lemma demo_runs : runs (rest_CallTool demo_up "get_alert" demo_args) (fst demo_call) (snd demo_call).
Proof. apply (exec_runs (E := rest_effects)). by intros []. Qed.


Lemma call_hides_the_credential_witness : hidden demo_up "s3cret" (Ok (Answer demo_result)).
Proof.
  apply (call_hides_the_credential demo_up "get_alert" demo_args (fst demo_call)).
  - assert (H : snd demo_call = Done (Ok (Answer demo_result))) by (vm_compute; reflexivity). rewrite <- H. apply demo_runs.
  - replace (fst demo_call) with (saw (RResolve (u_secretName demo_up)) (Ok "s3cret") :: tail (fst demo_call)) by (vm_compute; reflexivity). left.
  - vm_compute. congruence.
Defined.
End demo.
