(* ===== verification/Config.v ===== *)
(** * The configuration ([internal/config/config.go])

    The file's sections as records, and [Config.Validate]: the defaults it fills in and every fault it
    reports, in order.  TOML itself is a library's; [Load] is in ConfigLoad. *)
From Stdlib Require Import ZArith Lia Ascii SpecFloat.
From stdpp Require Import base strings list gmap.
From S2P Require Import Prelude.
From S2P Require Import GoStrings.
From S2P Require Import Utf8.
From S2P Require Import Spaces.
From S2P Require Import Visible.
From S2P Require Import GoTime.
From S2P Require Import Registry.
From S2P Require Import Access.
From S2P Require Import Quota.
From S2P Require Import GatewayTypes.
From S2P Require Import ChildEnv.
From S2P Require Import OciPlan.
From S2P Require Import CallSlots.
From S2P Require Import RestEgress.
From S2P Require Import RestRequest.

(** ** The file *)

Record OIDC := { o_issuer : string; o_audience : string; o_groups_claim : string; o_authorization_servers : list string;
                 o_scopes_supported : option (list string) (* [None]: not written *) }.
Record Vault := { v_secrets_file : string; v_age_key_file : string }.
Record Signer := { s_key_file : string; s_trusted_keys : option (list string) (* [None]: not written *); s_require_signed : option bool }.
Record QuarantineCfg := { q_refresh_interval : option Z }.
Record Response := { r_max_bytes : option Z; r_call_timeout : option Z; r_max_concurrent : option Z }.
Record SIEM := { siem_path : string; siem_chain : string }.
Record QuotaCfg := { q_providers : list Provider; q_free_tools : list string }.
Record Telemetry := { t_address : string; t_transport : string; t_tls : bool; t_tls_ca_file : string; t_host : string;
                      t_cliente_soc : string; t_buffer : option Z }.
Record OCI := { oci_user : string; oci_pids_limit : option Z; oci_memory : string; oci_cpus : option float64 }.
Record ConnectCfg := { n_client_id : string; n_callback_port : Z; n_ca_file : string; n_server_name : string }.
Record Admin := { a_operator_group : string; a_account_group : string; a_console_manages : bool }.
Record Analyst := { y_contact : string; y_backend_notes : option (gmap string string) (* [None]: not written *) }.

Record FileRole := { f_name : string; f_tools : option (list string) (* [None]: not written *); f_grants : gmap string (list string);
                     f_non_read : bool }.

Record Config := {
  listen : string; database : string; oidc : OIDC; vault : Vault; signer : Signer; quarantine : QuarantineCfg;
  response : Response; siem : SIEM; quota : QuotaCfg; telemetry : Telemetry; oci : OCI;
  allow_credentialed_stdio : bool; users_file : string; connect : ConnectCfg; admin : Admin; analyst : Analyst;
  roles_file : string; cfg_roles : list FileRole; group_to_role : gmap string string
}.

(** The role as the policy sees it, field for field. *)
Definition toAccess (r : FileRole) : Role :=
  {| RoleName := f_name r; Tools := default [] (f_tools r); Grants := f_grants r; NonRead := f_non_read r |}.

(** ** Values with a default *)

Definition DefaultMaxResultBytes : Z := Z.shiftl 1 20.
Definition MinCallTimeout : Z := second.
Definition DefaultCallTimeout : Z := 2 * minute.
Definition MinResultBytes : Z := 4096.
Definition DefaultListen : string := "127.0.0.1:8080".
Definition DefaultGroupsClaim : string := "groups".
Definition DefaultRefreshInterval : Z := 5 * minute.
Definition MinRefreshInterval : Z := second.
Definition DefaultRequireSigned : bool := true.
Definition DefaultTelemetryBuffer : Z := 4096.
Definition MinTelemetryBuffer : Z := 64.
Definition MaxContactRunes : nat := 200.
Definition MaxBackendNotes : nat := 12.
Definition MaxBackendNoteRunes : nat := 160.
Definition MaxBackendNotesRunes : nat := 480.

Definition MaxConcurrentCallsOrDefault (r : Response) : Z := default DefaultMaxConcurrentCallsPerAnalyst (r_max_concurrent r).
Definition CallTimeoutOrDefault (r : Response) : Z := default DefaultCallTimeout (r_call_timeout r).
Definition MaxResultBytes (r : Response) : Z := default DefaultMaxResultBytes (r_max_bytes r).
Definition RefreshEvery (q : QuarantineCfg) : Z := default DefaultRefreshInterval (q_refresh_interval q).
Definition SignaturesRequired (s : Signer) : bool := default DefaultRequireSigned (s_require_signed s).
Definition BufferSize (t : Telemetry) : Z := default DefaultTelemetryBuffer (t_buffer t).
Definition siem_Enabled (s : SIEM) : bool := negb (blank (siem_path s)).
Definition telemetry_Enabled (t : Telemetry) : bool := negb (blank (t_address t)).

Definition trusted_keys (s : Signer) : list string := default [] (s_trusted_keys s).

(** ** Faults *)

Inductive line_fault := LineUntrimmed | LineNotUTF8 | LineTooLong (n : nat) | LineCarries (r : Z).
Inductive bind_fault := NotHostPort | NoListenPort | UnusablePort (port : string) | NotLoopback.
Inductive resource_fault := NotURI | NotAbsolute | HasFragment | HasQuery | NotHTTPS.
Inductive key_fault := KeyEmpty (i : nat) | KeyNotBase64 (i : nat) | KeySize (i : nat) (n : nat).
Inductive siem_fault := ChainWithoutPath | PathUntrimmed | PathWithoutChain | ChainUntrimmed.
Inductive oci_fault := OciUser | OciPids (n : Z) | OciMemory | OciCPUs.

Inductive config_fault :=
| UsersFileNotAbsolute | ServerName (n : string) | ClientID (n : string) | CallbackPort | ConnectWithoutClient | CAFileNotAbsolute
| Listen (f : bind_fault) | NoDatabase | UntrimmedPath (key value : string)
| NoIssuer | Issuer (f : resource_fault) | NoAudience | Audience (f : resource_fault)
| AuthorizationServer (i : nat) (f : resource_fault) | NotAScope (i : nat) (s : string) | ScopeTwice (i : nat) (s : string)
| Contact (f : line_fault) | TooManyNotes (n : nat) | NoteName (n : string) | NoteEmpty (n : string)
| Note (n : string) (f : line_fault) | NotesTooLong (n : nat)
| NoSecretsFile | NoAgeKeyFile | TrustedKey (f : key_fault) | NoTrustedKeys
| IntervalNotPositive | IntervalTooShort (d : Z) | MaxBytesNotPositive | MaxBytesTooFew (n : Z)
| TimeoutNotPositive | TimeoutTooShort (d : Z) | ConcurrencyNotPositive | Siem (f : siem_fault)
| RoleFault (i : nat) (es : list role_error) | RoleTwice (n : string) | NonReadWithoutTools (n : string)
| RoleToolNotNamespaced (role tool : string) | RoleToolWildcard (role tool : string) | RoleToolTwice (role tool : string)
| ProviderFault (i : nat) (es : list provider_error) | ProviderTwice (n : string) | ProviderToolSpace (p tool : string)
| ProviderToolNotNamespaced (p tool : string) | ProviderToolElsewhere (p tool upstream : string)
| FreeToolEmpty (i : nat) | FreeToolSpace (i : nat) (tool : string) | FreeToolNotNamespaced (i : nat) (tool : string)
| FreeToolTwice (tool : string) | FreeToolCharged (tool account : string)
| TelemetryWithoutAddress | TelemetryAddress | TelemetryTransport | TelemetryTLSOverUDP | TelemetryCAWithoutTLS
| TelemetryNoHost | TelemetryNoCliente | TelemetryClienteUntrimmed | BufferNotPositive | BufferTooSmall (n : Z)
| GroupEmptyName | GroupName (g : string) (e : group_error) | GroupUndefinedRole (g role : string)
| Oci (f : oci_fault).

(** [errs = append(errs, e)] under a condition. *)
Definition fault_if (broken : bool) (e : config_fault) : list config_fault := if broken then [e] else [].

(** ** Single values *)

Definition isScopeToken (s : string) : bool :=
  negb (bool_decide (s = ""))
  && str_forallb (fun a => negb ((bz a <? 0x21) || (0x7e <? bz a) || (bz a =? 34) || (bz a =? 92))) s.

Definition connectNameRe (s : string) : bool :=
  match s with
  | String a rest => (is_lower a || is_digit a) && str_forallb (fun c => is_lower c || is_digit c || bool_decide (c = "-"%char)) rest
                     && (String.length rest <=? 31)%nat
  | EmptyString => false
  end.

Definition connectClientRe (s : string) : bool :=
  str_forallb (fun c => is_alnum c || contains_byte "._~-" c) s && (1 <=? String.length s)%nat && (String.length s <=? 128)%nat.

(** [filepath.IsAbs]. *)
Definition is_abs (path : string) : bool := has_prefix path "/".

Section single.
Context `{UT : UnicodeTables, AP : AddrParser, UP : UrlParser}.

Definition validAnalystLine (s : string) (maxRunes : nat) : option line_fault :=
  if negb (trimmed s) then Some LineUntrimmed
  else if negb (valid_string s) then Some LineNotUTF8
  else if (maxRunes <? length (runes s))%nat then Some (LineTooLong (length (runes s)))
  else match List.find (fun c => Hides (fst c) || (fst c =? 34) || (fst c =? 92)) (runes s) with
       | Some (r, _) => Some (LineCarries r)
       | None => None
       end.

(** [strings.EqualFold] with a word of lower-case ASCII letters: two other code points fold to one. *)
Definition fold_rune (r : Z) : Z :=
  if (65 <=? r) && (r <=? 90) then r + 32 else if r =? 0x17f then 115 else if r =? 0x212a then 107 else r.
Definition folds_to (s word : string) : bool := bool_decide (map (fun c => fold_rune (fst c)) (runes s) = map fst (runes word)).

(** [net.ParseIP(host)] and its [IsLoopback]. *)
Definition loopback_ip (host : string) : bool :=
  match ParseAddr host with Some a => bool_decide (Zone a = "") && IsLoopback (Unmap a) | None => false end.

Definition IsLoopbackAddr (addr : string) : bool :=
  match SplitHostPort addr with None => false | Some (host, _) => folds_to host "localhost" || loopback_ip host end.

(** [net.LookupPort("tcp", port)] knows the host's services. *)
Definition RequireLoopbackBind (LookupPort : string -> option Z) (addr : string) : option bind_fault :=
  if IsLoopbackAddr addr then
    match SplitHostPort addr with
    | None => Some NotHostPort
    | Some (_, port) =>
        if bool_decide (port = "") then Some NoListenPort
        else match LookupPort port with None => Some (UnusablePort port) | Some _ => None end
    end
  else Some NotLoopback.

Definition isLoopbackHost (host : string) : bool :=
  bool_decide (to_lower host ∈ ["localhost"; "127.0.0.1"; "::1"]) || has_prefix host "127.".

Definition ResourceIdentifier (raw : string) (allowInsecure : bool) : result resource_fault url_URL :=
  match url_Parse raw with
  | None => Err NotURI
  | Some u =>
      if bool_decide (RestRequest.Scheme u = "") || bool_decide (RestRequest.Host u = "") then Err NotAbsolute
      else if negb (bool_decide (Fragment u = "")) || contains_byte raw "#" then Err HasFragment
      else if negb (bool_decide (RawQuery u = "")) then Err HasQuery
      else if negb (bool_decide (RestRequest.Scheme u = "https")) && negb allowInsecure && negb (isLoopbackHost (Hostname u)) then Err NotHTTPS
      else Ok u
  end.

Definition resource_fault_of (raw : string) : option resource_fault :=
  match ResourceIdentifier (trim_space raw) false with Ok _ => None | Err e => Some e end.
End single.

(** ** Keys: [base64.StdEncoding.DecodeString] *)

Definition base64_value (a : ascii) : option Z :=
  if is_upper a then Some (bz a - 65) else if is_lower a then Some (bz a - 71) else if is_digit a then Some (bz a + 4)
  else if bool_decide (a = "+"%char) then Some 62 else if bool_decide (a = "/"%char) then Some 63 else None.

(** The bytes of four digits, the last of which may be padding. *)
Fixpoint base64_quads (s : string) : option string :=
  match s with
  | EmptyString => Some ""
  | String a (String b (String c (String d rest))) =>
      match base64_value a, base64_value b, base64_value c, base64_value d with
      | Some w, Some x, Some y, Some z =>
          match base64_quads rest with
          | Some out => Some (String (zb (w * 4 + x / 16)) (String (zb (x mod 16 * 16 + y / 4)) (String (zb (y mod 4 * 64 + z)) out)))
          | None => None
          end
      | Some w, Some x, Some y, None =>
          if bool_decide (d = "="%char) && bool_decide (rest = "")
          then Some (String (zb (w * 4 + x / 16)) (String (zb (x mod 16 * 16 + y / 4)) "")) else None
      | Some w, Some x, None, None =>
          if bool_decide (c = "="%char) && bool_decide (d = "="%char) && bool_decide (rest = "")
          then Some (String (zb (w * 4 + x / 16)) "") else None
      | _, _, _, _ => None
      end
  | _ => None
  end.

Fixpoint drop_newlines (s : string) : string :=
  match s with
  | EmptyString => ""
  | String a rest => if (bz a =? 10) || (bz a =? 13) then drop_newlines rest else String a (drop_newlines rest)
  end.

Definition base64_decode (s : string) : option string := base64_quads (drop_newlines s).

Definition PublicKeySize : nat := 32.

Fixpoint public_keys (i : nat) (raws : list string) : result key_fault (list string) :=
  match raws with
  | [] => Ok []
  | raw :: rest =>
      let text := trim_space raw in
      if bool_decide (text = "") then Err (KeyEmpty i)
      else match base64_decode text with
           | None => Err (KeyNotBase64 i)
           | Some decoded =>
               if negb (String.length decoded =? PublicKeySize)%nat then Err (KeySize i (String.length decoded))
               else keys <-? public_keys (S i) rest;; Ok (decoded :: keys)
           end
  end.

Definition TrustedPublicKeys (s : Signer) : result key_fault (list string) := public_keys 0 (trusted_keys s).

(** ** [Validate], section by section *)

Section validate.
Context `{UT : UnicodeTables, AP : AddrParser, UP : UrlParser, MR : MapRange} (LookupPort : string -> option Z).

(** The defaults it fills in. *)
Definition with_defaults (c : Config) : Config :=
  let o := oidc c in
  let n := connect c in
  {| listen := if blank (listen c) then DefaultListen else listen c;
     database := database c;
     oidc := {| o_issuer := o_issuer o; o_audience := o_audience o;
                o_groups_claim := if blank (o_groups_claim o) then DefaultGroupsClaim else o_groups_claim o;
                o_authorization_servers := if bool_decide (o_authorization_servers o = []) && negb (bool_decide (o_issuer o = ""))
                                           then [o_issuer o] else o_authorization_servers o;
                o_scopes_supported := o_scopes_supported o |};
     vault := vault c; signer := signer c; quarantine := quarantine c; response := response c; siem := siem c;
     quota := quota c; telemetry := telemetry c; oci := oci c; allow_credentialed_stdio := allow_credentialed_stdio c;
     users_file := users_file c;
     connect := {| n_client_id := n_client_id n; n_callback_port := n_callback_port n; n_ca_file := n_ca_file n;
                   n_server_name := if bool_decide (n_server_name n = "") then "gatte" else n_server_name n |};
     admin := admin c; analyst := analyst c; roles_file := roles_file c; cfg_roles := cfg_roles c; group_to_role := group_to_role c |}.

Definition check_connect (c : Config) : list config_fault :=
  let n := connect c in
  fault_if (negb (bool_decide (users_file c = "")) && negb (is_abs (users_file c))) UsersFileNotAbsolute
  ++ fault_if (negb (connectNameRe (n_server_name n))) (ServerName (n_server_name n))
  ++ fault_if (negb (bool_decide (n_client_id n = "")) && negb (connectClientRe (n_client_id n))) (ClientID (n_client_id n))
  ++ fault_if (negb (bool_decide (n_client_id n = "")) && ((n_callback_port n <? 1) || (65535 <? n_callback_port n))) CallbackPort
  ++ fault_if (bool_decide (n_client_id n = "") && (negb (n_callback_port n =? 0) || negb (bool_decide (n_ca_file n = "")))) ConnectWithoutClient
  ++ fault_if (negb (bool_decide (n_ca_file n = "")) && negb (is_abs (n_ca_file n))) CAFileNotAbsolute.

Definition check_paths (c : Config) : list config_fault :=
  match RequireLoopbackBind LookupPort (listen c) with Some f => [Listen f] | None => [] end
  ++ fault_if (blank (database c)) NoDatabase
  ++ flat_map (fun f => fault_if (negb (bool_decide (f.2 = "")) && negb (trimmed f.2)) (UntrimmedPath f.1 f.2))
       [("database", database c); ("vault.secrets_file", v_secrets_file (vault c));
        ("vault.age_key_file", v_age_key_file (vault c)); ("signer.key_file", s_key_file (signer c))].

Definition check_resource (missing : config_fault) (invalid : resource_fault -> config_fault) (raw : string) : list config_fault :=
  if blank raw then [missing] else match resource_fault_of raw with Some f => [invalid f] | None => [] end.

Fixpoint check_scopes (i : nat) (seen : list string) (scopes : list string) : list config_fault :=
  match scopes with
  | [] => []
  | scope :: rest =>
      (if negb (isScopeToken scope) then [NotAScope i scope] else fault_if (bool_decide (scope ∈ seen)) (ScopeTwice i scope))
      ++ check_scopes (S i) (scope :: seen) rest
  end.

Definition check_oidc (o : OIDC) : list config_fault :=
  check_resource NoIssuer Issuer (o_issuer o)
  ++ check_resource NoAudience Audience (o_audience o)
  ++ concat (imap (fun i raw => match resource_fault_of raw with Some f => [AuthorizationServer i f] | None => [] end) (o_authorization_servers o))
  ++ check_scopes 0 [] (default [] (o_scopes_supported o)).

Definition check_note (name note : string) : list config_fault :=
  fault_if (negb (ValidName name)) (NoteName name)
  ++ (if bool_decide (note = "") then [NoteEmpty name]
      else match validAnalystLine note MaxBackendNoteRunes with Some f => [Note name f] | None => [] end).

Definition check_analyst (y : Analyst) : list config_fault :=
  let notes := sort_by fst (map_to_list (default ∅ (y_backend_notes y))) in
  let total := foldl (fun n e => (n + length (runes e.1) + length (runes e.2))%nat) O notes in
  (if bool_decide (y_contact y = "") then []
   else match validAnalystLine (y_contact y) MaxContactRunes with Some f => [Contact f] | None => [] end)
  ++ fault_if (MaxBackendNotes <? length notes)%nat (TooManyNotes (length notes))
  ++ flat_map (fun e => check_note e.1 e.2) notes
  ++ fault_if (MaxBackendNotesRunes <? total)%nat (NotesTooLong total).

Definition check_signer (c : Config) : list config_fault :=
  fault_if (blank (v_secrets_file (vault c))) NoSecretsFile
  ++ fault_if (blank (v_age_key_file (vault c))) NoAgeKeyFile
  ++ match TrustedPublicKeys (signer c) with Err f => [TrustedKey f] | Ok _ => [] end
  ++ fault_if (SignaturesRequired (signer c) && bool_decide (trusted_keys (signer c) = [])) NoTrustedKeys.

(** A number with a floor: not positive, or below the smallest taken. *)
Definition check_floor (v : option Z) (least : Z) (none : config_fault) (few : Z -> config_fault) : list config_fault :=
  match v with None => [] | Some n => if n <=? 0 then [none] else fault_if (n <? least) (few n) end.

Definition check_response (c : Config) : list config_fault :=
  check_floor (q_refresh_interval (quarantine c)) MinRefreshInterval IntervalNotPositive IntervalTooShort
  ++ check_floor (r_max_bytes (response c)) MinResultBytes MaxBytesNotPositive MaxBytesTooFew
  ++ check_floor (r_call_timeout (response c)) MinCallTimeout TimeoutNotPositive TimeoutTooShort
  ++ match r_max_concurrent (response c) with Some n => fault_if (n <=? 0) ConcurrencyNotPositive | None => [] end.

Definition siem_validate (s : SIEM) : list siem_fault :=
  let path := trim_space (siem_path s) in
  let chain := trim_space (siem_chain s) in
  if bool_decide (path = "") && bool_decide (chain = "") then []
  else (if bool_decide (path = "") then [ChainWithoutPath] else if negb (bool_decide (siem_path s = path)) then [PathUntrimmed] else [])
    ++ (if bool_decide (chain = "") && negb (bool_decide (path = "")) then [PathWithoutChain]
        else if negb (bool_decide (siem_chain s = chain)) then [ChainUntrimmed] else []).

(** The tools of a role, with its [granted] set. *)
Fixpoint check_role_tools (role : string) (granted : list string) (tools : list string) : list config_fault :=
  match tools with
  | [] => []
  | tool :: rest =>
      if blank tool then check_role_tools role granted rest
      else match SplitNamespaced tool with
      | None => RoleToolNotNamespaced role tool :: check_role_tools role granted rest
      | Some (_, toolID) =>
          if bool_decide (toolID = GrantAll) then RoleToolWildcard role tool :: check_role_tools role granted rest
          else fault_if (bool_decide (tool ∈ granted)) (RoleToolTwice role tool) ++ check_role_tools role (tool :: granted) rest
      end
  end.

(** The roles, with the [seen] set, which [group_to_role] is then held to. *)
Fixpoint check_roles (i : nat) (seen : list string) (rs : list Role) : list config_fault * list string :=
  match rs with
  | [] => ([], seen)
  | r :: rest =>
      let first := match ValidateRole r with [] => [] | es => [RoleFault i es] end in
      if blank (RoleName r) then let '(fs, seen) := check_roles (S i) seen rest in (first ++ fs, seen)
      else
        let here := first ++ fault_if (bool_decide (RoleName r ∈ seen)) (RoleTwice (RoleName r))
          ++ fault_if (NonRead r && bool_decide (Tools r = [])) (NonReadWithoutTools (RoleName r))
          ++ check_role_tools (RoleName r) [] (Tools r) in
        let '(fs, seen) := check_roles (S i) (RoleName r :: seen) rest in (here ++ fs, seen)
  end.

Definition check_provider_tool (p : Provider) (tool : string) : list config_fault :=
  if blank tool then []
  else if containsSpace tool then [ProviderToolSpace (PName p) tool]
  else match SplitNamespaced tool with
  | None => [ProviderToolNotNamespaced (PName p) tool]
  | Some (upstream, _) =>
      fault_if (negb (blank (Quota.Upstream p)) && negb (bool_decide (upstream = Quota.Upstream p))) (ProviderToolElsewhere (PName p) tool upstream)
  end.

Fixpoint check_providers (i : nat) (accounts : list string) (ps : list Provider) : list config_fault :=
  match ps with
  | [] => []
  | p :: rest =>
      match ValidateProvider p with [] => [] | es => [ProviderFault i es] end
      ++ (if blank (PName p) then check_providers (S i) accounts rest
          else fault_if (bool_decide (PName p ∈ accounts)) (ProviderTwice (PName p))
               ++ flat_map (check_provider_tool p) (PTools p)
               ++ check_providers (S i) (PName p :: accounts) rest)
  end.

(** [charged[tool] = p.Name], over every account: the last to charge a tool. *)
Definition charged (ps : list Provider) : gmap string string :=
  foldl (fun m p => foldl (fun m tool => <[tool := PName p]> m) m (PTools p)) ∅ ps.

Fixpoint check_free (m : gmap string string) (i : nat) (declared : list string) (tools : list string) : list config_fault :=
  match tools with
  | [] => []
  | tool :: rest =>
      if blank tool then FreeToolEmpty i :: check_free m (S i) declared rest
      else if containsSpace tool then FreeToolSpace i tool :: check_free m (S i) declared rest
      else match SplitNamespaced tool with
      | None => FreeToolNotNamespaced i tool :: check_free m (S i) declared rest
      | Some _ =>
          fault_if (bool_decide (tool ∈ declared)) (FreeToolTwice tool)
          ++ match m !! tool with Some account => [FreeToolCharged tool account] | None => [] end
          ++ check_free m (S i) (tool :: declared) rest
      end
  end.

Definition telemetryWritten (t : Telemetry) : bool :=
  negb (blank (t_transport t)) || t_tls t || negb (blank (t_tls_ca_file t)) || negb (blank (t_host t))
  || negb (blank (t_cliente_soc t)) || bool_decide (is_Some (t_buffer t)).

Definition telemetryTransportUDP : string := "udp".
Definition telemetryTransportTCP : string := "tcp".

Definition check_telemetry (t : Telemetry) : list config_fault :=
  if negb (telemetry_Enabled t) then fault_if (telemetryWritten t) TelemetryWithoutAddress
  else
    fault_if (match SplitHostPort (t_address t) with
              | None => true
              | Some (host, port) => bool_decide (host = "") || bool_decide (port = "") || negb (trimmed host) || negb (trimmed port)
              end) TelemetryAddress
    ++ fault_if (negb (bool_decide (t_transport t = telemetryTransportUDP)) && negb (bool_decide (t_transport t = telemetryTransportTCP))) TelemetryTransport
    ++ fault_if (t_tls t && bool_decide (t_transport t = telemetryTransportUDP)) TelemetryTLSOverUDP
    ++ fault_if (negb (blank (t_tls_ca_file t)) && negb (t_tls t)) TelemetryCAWithoutTLS
    ++ fault_if (blank (t_host t)) TelemetryNoHost
    ++ (if blank (t_cliente_soc t) then [TelemetryNoCliente] else fault_if (negb (trimmed (t_cliente_soc t))) TelemetryClienteUntrimmed)
    ++ check_floor (t_buffer t) MinTelemetryBuffer BufferNotPositive BufferTooSmall.

Definition check_group (seen : list string) (group role : string) : list config_fault :=
  (if blank group then [GroupEmptyName] else match ValidateGroupName group with Some e => [GroupName group e] | None => [] end)
  ++ fault_if (negb (bool_decide (role ∈ seen))) (GroupUndefinedRole group role).

(** The adapter's patterns and bounds again, over the values the file wrote. *)
Definition oci_validate (o : OCI) : list oci_fault :=
  (if bool_decide (oci_user o = "") then []
   else match numericUser (oci_user o) with
        | Some (u, g) => if id_in_range u && id_in_range g then [] else [OciUser]
        | None => [OciUser]
        end)
  ++ match oci_pids_limit o with Some n => if (n <=? 0) || (maxPids <? n) then [OciPids n] else [] | None => [] end
  ++ (if bool_decide (oci_memory o = "") then []
      else match memoryBytes (oci_memory o) with Some n => if minMemory <=? n then [] else [OciMemory] | None => [OciMemory] end)
  ++ match oci_cpus o with
     | Some x => if not_a_number x || infinite x || SFltb x minCPUs then [OciCPUs] else []
     | None => []
     end.

Definition Validate (c : Config) : Config * list config_fault :=
  let c := with_defaults c in
  let '(role_faults, seen) := check_roles 0 [] (map toAccess (cfg_roles c)) in
  (c, check_connect c ++ check_paths c ++ check_oidc (oidc c) ++ check_analyst (analyst c) ++ check_signer c ++ check_response c
      ++ map Siem (siem_validate (siem c)) ++ role_faults
      ++ check_providers 0 [] (q_providers (quota c)) ++ check_free (charged (q_providers (quota c))) 0 [] (q_free_tools (quota c))
      ++ check_telemetry (telemetry c)
      ++ flat_map (fun e => check_group seen e.1 e.2) (map_range (group_to_role c))
      ++ map Oci (oci_validate (oci c))).
End validate.
