(* ===== verification/ConfigLoad.v ===== *)
(** * Reading the configuration ([internal/config/load.go])

    [Load] and [ValidateRolesText]: the file and the roles file it names, keys nothing reads, keys TOML's
    decoder collapsed, and the policy and the quota plan a configuration gives.  The decoder is a
    parameter.  The theorem: a configuration that loads is one the gateway can serve. *)
From Stdlib Require Import ZArith Lia Ascii SpecFloat.
From stdpp Require Import base strings list gmap.
From S2P Require Import Prelude.
From S2P Require Import GoStrings.
From S2P Require Import Utf8.
From S2P Require Import Spaces.
From S2P Require Import Visible.
From S2P Require Import GoTime.
From S2P Require Import Registry.
From S2P Require Import Access.
From S2P Require Import Quota.
From S2P Require Import GatewayTypes.
From S2P Require Import ChildEnv.
From S2P Require Import OciPlan.
From S2P Require Import RestEgress.
From S2P Require Import RestRequest.
From S2P Require Import Config.

(** ** The decoder *)

(** [toml.MetaData]. *)
Record MetaData := { Keys : list (list string); Undecoded : list (list string); IsDefined : string -> bool }.

(** [toml.Decode] into a [Config] and into a roles file. *)
Class Toml := {
  decode_config : string -> option (Config * MetaData);
  decode_roles : string -> option (list FileRole * gmap string string * MetaData)
}.

(** ** Paths: [path/filepath] *)

Fixpoint split_slash (acc : string) (s : string) : list string :=
  match s with
  | EmptyString => [acc]
  | String a rest => if bool_decide (a = "/"%char) then acc :: split_slash "" rest else split_slash (acc +:+ String a "") rest
  end.

(** The elements kept so far, the last first. *)
Definition clean_step (rooted : bool) (stack : list string) (e : string) : list string :=
  if bool_decide (e = "") || bool_decide (e = ".") then stack
  else if bool_decide (e = "..") then
    match stack with
    | top :: below => if bool_decide (top = "..") then ".." :: stack else below
    | [] => if rooted then [] else [".."]
    end
  else e :: stack.

Definition Clean (path : string) : string :=
  let rooted := is_abs path in
  let elements := rev (foldl (clean_step rooted) [] (split_slash "" path)) in
  let text := (if rooted then "/" else "") +:+ String.concat "/" elements in
  if bool_decide (text = "") then "." else text.

Definition Dir (path : string) : string :=
  Clean (match cut_last path "/" with Some (before, _) => before +:+ "/" | None => "" end).

Definition Join (dir file : string) : string := if bool_decide (dir = "") then Clean file else Clean (dir +:+ "/" +:+ file).

(** [filepath.Abs]; the working directory may be unreadable. *)
Definition Abs (cwd : option string) (path : string) : option string :=
  if is_abs path then Some (Clean path) else match cwd with Some wd => Some (Join wd path) | None => None end.

(** ** Keys *)

Inductive load_error :=
| Unreadable (path : string) | NotTOML (path : string) | UnknownKeys (path : string) (keys : list (list string))
| CollapsedKeys (path : string) (keys : list string)
| NoRolesFileForText | RolesFileUntrimmed (file : string) | RolesInBoth (sections : list string)
| Invalid (path rolesPath : string) (faults : list config_fault).

Definition rejectUnknownKeys (path : string) (md : MetaData) : option load_error :=
  match Undecoded md with [] => None | keys => Some (UnknownKeys path keys) end.

(** The paths [rejectCollapsedMapKeys] counts, once for each time a key was written. *)
Definition written_path (key : list string) : option string :=
  match key with
  | [a; b; backend] => if bool_decide (a = "role") && bool_decide (b = "grants") then Some ("role.grants." +:+ backend) else None
  | [a; b] => if bool_decide (a = "role") && bool_decide (b = "tools") then Some "role.tools"
              else if bool_decide (a = "signer") && bool_decide (b = "trusted_keys") then Some "signer.trusted_keys" else None
  | _ => None
  end.

Definition survived_paths (roles : list FileRole) (keys : option (list string)) : list string :=
  flat_map (fun r => map (fun e => "role.grants." +:+ e.1) (map_to_list (f_grants r))
                     ++ match f_tools r with Some _ => ["role.tools"] | None => [] end) roles
  ++ match keys with Some _ => ["signer.trusted_keys"] | None => [] end.

Definition occurrences (p : string) (l : list string) : nat := length (List.filter (fun q => bool_decide (q = p)) l).

Definition rejectCollapsedMapKeys (path : string) (md : MetaData) (roles : list FileRole) (keys : option (list string)) : option load_error :=
  let written := omap written_path (Keys md) in
  let survived := survived_paths roles keys in
  match List.filter (fun p => (occurrences p survived <? occurrences p written)%nat) (dedup written) with
  | [] => None
  | lost => Some (CollapsedKeys path (sort_strings lost))
  end.

(** ** [load] *)

Section load.
Context `{UT : UnicodeTables, AP : AddrParser, UP : UrlParser, MR : MapRange, TM : Toml}.
Context (LookupPort : string -> option Z) (ReadFile : string -> option string) (cwd : option string).

Definition with_roles (c : Config) (file : string) (roles : list FileRole) (groups : gmap string string) : Config :=
  {| listen := listen c; database := database c; oidc := oidc c; vault := vault c; signer := signer c; quarantine := quarantine c;
     response := response c; siem := siem c; quota := quota c; telemetry := telemetry c; oci := oci c;
     allow_credentialed_stdio := allow_credentialed_stdio c; users_file := users_file c; connect := connect c; admin := admin c;
     analyst := analyst c; roles_file := file; cfg_roles := roles; group_to_role := groups |}.

(** Where the roles file is. *)
Definition roles_path (path : string) (file : string) : string :=
  let joined := if is_abs file then file else Join (Dir path) file in
  default joined (Abs cwd joined).

(** The configuration with its roles, and the path they came from. *)
Definition loadRolesFile (path : string) (md : MetaData) (c : Config) (rolesText : option string) : result load_error (Config * string) :=
  if bool_decide (roles_file c = "") then
    match rolesText with Some _ => Err NoRolesFileForText | None => Ok (c, "") end
  else if negb (trimmed (roles_file c)) then Err (RolesFileUntrimmed (roles_file c))
  else
    match (if IsDefined md "role" then ["[[role]]"] else []) ++ (if IsDefined md "group_to_role" then ["[group_to_role]"] else []) with
    | (_ :: _) as both => Err (RolesInBoth both)
    | [] =>
        let file := roles_path path (roles_file c) in
        match match rolesText with Some text => Some text | None => ReadFile file end with
        | None => Err (Unreadable file)
        | Some text =>
            match decode_roles text with
            | None => Err (NotTOML file)
            | Some (roles, groups, rmd) =>
                match rejectUnknownKeys file rmd with
                | Some e => Err e
                | None =>
                    match rejectCollapsedMapKeys file rmd roles None with
                    | Some e => Err e
                    | None => Ok (with_roles c file roles groups, file)
                    end
                end
            end
        end
    end.

Definition load (path : string) (rolesText : option string) : result load_error Config :=
  match ReadFile path with
  | None => Err (Unreadable path)
  | Some data =>
      match decode_config data with
      | None => Err (NotTOML path)
      | Some (c, md) =>
          match rejectUnknownKeys path md with
          | Some e => Err e
          | None =>
              match rejectCollapsedMapKeys path md (cfg_roles c) (s_trusted_keys (signer c)) with
              | Some e => Err e
              | None =>
                  r <-? loadRolesFile path md c rolesText;;
                  let '(c, rolesPath) := r in
                  match Validate LookupPort c with
                  | (c, []) => Ok c
                  | (_, faults) => Err (Invalid path rolesPath faults)
                  end
              end
          end
      end
  end.

Definition Load (path : string) : result load_error Config := load path None.

(** A nil text is an empty file's. *)
Definition ValidateRolesText (path : string) (text : string) : option load_error :=
  match load path (Some text) with Ok _ => None | Err e => Some e end.

Definition ToAccessPolicy (c : Config) : result policy_error Policy :=
  NewPolicy (map toAccess (cfg_roles c)) (map_range (group_to_role c)).

Definition ToQuotaPlan (c : Config) : result Quota.plan_error Plan := NewPlan (q_providers (quota c)) (q_free_tools (quota c)).

(** [cmd/mcp-gateway/dialer.go]: the limits the container adapter is given. *)
Definition ociLimits (o : OCI) : Limits :=
  let d := DefaultLimits in
  {| OciPlan.User := if bool_decide (oci_user o = "") then OciPlan.User d else oci_user o;
     PidsLimit := default (PidsLimit d) (oci_pids_limit o);
     Memory := if bool_decide (oci_memory o = "") then Memory d else oci_memory o;
     CPUs := default (CPUs d) (oci_cpus o) |}.
End load.

(** ** What [Validate] accepts *)

Lemma fault_if_nil b e : fault_if b e = [] <-> b = false.
Proof. by destruct b. Qed.

Lemma app_nil_iff {A} (l1 l2 : list A) : l1 ++ l2 = [] <-> l1 = [] /\ l2 = [].
Proof. split; [apply app_nil|by intros [-> ->]]. Qed.

Lemma flat_map_nil {A B} (f : A -> list B) l : flat_map f l = [] <-> forall x, x ∈ l -> f x = [].
Proof.
  induction l as [|x l IH]; cbn [flat_map]; [by split; [intros _ x ?%elem_of_nil|]|]. rewrite app_nil_iff, IH. split.
  - intros [Hx Hl] y [->|Hy]%elem_of_cons; auto.
  - intros H. split; [apply H; left|intros y Hy; apply H; by right].
Qed.

(** A tool a role names: namespaced, and no wildcard. *)
Definition role_tool_ok (tool : string) : Prop := exists up t, SplitNamespaced tool = Some (up, t) /\ t <> GrantAll.

Lemma blank_tool_refused r tool : ValidateRole r = [] -> tool ∈ Tools r -> blank tool = false.
Proof.
  unfold ValidateRole. rewrite !app_nil_iff, flat_map_nil. intros (_ & _ & H & _) Ht. apply H in Ht. rewrite app_nil_iff in Ht.
  by destruct (blank tool), Ht.
Qed.

Lemma check_role_tools_nil role granted tools : check_role_tools role granted tools = [] ->
  (forall tool, tool ∈ tools -> blank tool = false) -> Forall role_tool_ok tools.
Proof.
  revert granted. induction tools as [|tool tools IH]; intros granted H Hb; [constructor|]. cbn [check_role_tools] in H.
  rewrite (Hb tool) in H by left. destruct (SplitNamespaced tool) as [[up t]|] eqn:Hs; [|done]. destruct (bool_decide_reflect (t = GrantAll)); [done|].
  apply app_nil_iff in H as [_ H]. constructor; [by exists up, t|]. eapply IH; [exact H|]. intros x Hx. apply Hb. by right.
Qed.

Lemma check_roles_nil i seen rs seen' : check_roles i seen rs = ([], seen') ->
  Forall (fun r => ValidateRole r = [] /\ Forall role_tool_ok (Tools r) /\ (NonRead r = true -> Tools r <> [])) rs
  /\ NoDup (map RoleName rs) /\ (forall n, n ∈ map RoleName rs -> n ∉ seen)
  /\ forall n, n ∈ seen' <-> n ∈ seen \/ n ∈ map RoleName rs.
Proof.
  revert i seen seen'. induction rs as [|r rs IH]; intros i seen seen'; cbn [check_roles map].
  { intros [= <-]. split_and!; [constructor|constructor|by intros n ?%elem_of_nil|]. intros n. rewrite elem_of_nil. naive_solver. }
  destruct (blank (RoleName r)) eqn:Hb.
  { destruct (check_roles (S i) seen rs) as [fs s2] eqn:Hrs. intros [= Hf _]. apply app_nil_iff in Hf as [Hf _].
    destruct (ValidateRole r) eqn:Hv; [|done]. exfalso. revert Hv. unfold ValidateRole. rewrite Hb, !app_nil_iff. by intros (_ & ? & _). }
  destruct (check_roles (S i) (RoleName r :: seen) rs) as [fs s2] eqn:Hrs. intros [= Hf <-].
  rewrite !app_nil_iff, !fault_if_nil in Hf. destruct Hf as ((Hv & Hseen & Hnr & Ht) & ->). apply bool_decide_eq_false in Hseen.
  assert (Hvr : ValidateRole r = []) by (by destruct (ValidateRole r)).
  destruct (IH _ _ _ Hrs) as (Hall & Hnd & Hnew & Hs2). split_and!.
  - constructor; [|done]. split_and!; [done| |].
    + eapply check_role_tools_nil; [exact Ht|]. intros tool. by apply blank_tool_refused.
    + intros Hn Hnil. rewrite Hn, bool_decide_true in Hnr by done. done.
  - apply NoDup_cons. split; [|done]. intros Hin. apply (Hnew _ Hin). left.
  - intros n [->|Hn]%elem_of_cons; [done|]. intros Hin. apply (Hnew n Hn). by right.
  - intros n. rewrite Hs2, !elem_of_cons. naive_solver.
Qed.

(** ** Accounts and free tools *)

Lemma check_providers_nil i accounts ps : check_providers i accounts ps = [] ->
  Forall (fun p => ValidateProvider p = [] /\ forall tool, tool ∈ PTools p -> exists t, SplitNamespaced tool = Some (Quota.Upstream p, t)) ps
  /\ NoDup (map PName ps) /\ forall n, n ∈ map PName ps -> n ∉ accounts.
Proof.
  revert i accounts. induction ps as [|p ps IH]; intros i accounts; cbn [check_providers map].
  { intros _. split_and!; [constructor|constructor|by intros n ?%elem_of_nil]. }
  intros [Hv H]%app_nil_iff. assert (Hvp : ValidateProvider p = []) by (by destruct (ValidateProvider p)). clear Hv.
  assert (Hp : blank (PName p) = false /\ blank (Quota.Upstream p) = false /\ forall tool, tool ∈ PTools p -> blank tool = false).
  { pose proof Hvp as Hc. unfold ValidateProvider in Hc. rewrite !app_nil_iff in Hc. destruct Hc as (_ & Hn & Hu & _ & _ & _ & Hts).
    split_and!; [by destruct (blank (PName p))|by destruct (blank (Quota.Upstream p))|].
    intros tool Htool. clear -Hts Htool. revert Hts. generalize ([] : list string). induction (PTools p) as [|x xs IH]; [by apply elem_of_nil in Htool|].
    intros seen. cbn [check_tools]. apply elem_of_cons in Htool as [->|Htool].
    - by destruct (blank x).
    - destruct (blank x); [done|]. destruct (bool_decide _); [done|]. by apply IH. }
  destruct Hp as (Hbn & Hbu & Hbt). rewrite Hbn in H. apply app_nil_iff in H as [Hacc H]. apply app_nil_iff in H as [Htools H].
  apply fault_if_nil, bool_decide_eq_false in Hacc. destruct (IH _ _ H) as (Hall & Hnd & Hnew). split_and!.
  - constructor; [|done]. split; [done|]. intros tool Ht. rewrite flat_map_nil in Htools. specialize (Htools tool Ht). unfold check_provider_tool in Htools.
    rewrite (Hbt tool Ht) in Htools. destruct (containsSpace tool); [done|]. destruct (SplitNamespaced tool) as [[up t]|]; [|done].
    rewrite Hbu in Htools. apply fault_if_nil in Htools. cbn [negb andb] in Htools. apply negb_false_iff, bool_decide_eq_true in Htools as ->. by exists t.
  - apply NoDup_cons. split; [|done]. intros Hin. apply (Hnew _ Hin). left.
  - intros n [->|Hn]%elem_of_cons; [done|]. intros Hin. apply (Hnew n Hn). by right.
Qed.

Lemma charged_tools (p : Provider) (m : gmap string string) tools tool : tool ∈ tools \/ is_Some (m !! tool) ->
  is_Some (foldl (fun m tool => <[tool := PName p]> m) m tools !! tool).
Proof.
  revert m. induction tools as [|x tools IH]; intros m; cbn [foldl]; [by intros [?%elem_of_nil|?]|]. intros H. apply IH.
  destruct (decide (x = tool)) as [->|Hne]; [right; rewrite lookup_insert_eq; eauto|]. rewrite lookup_insert_ne by done. set_solver.
Qed.

Lemma charged_spends ps tool : charged ps !! tool = None -> spends tool ps = [].
Proof.
  unfold charged. assert (H : forall m : gmap string string, (exists p, p ∈ ps /\ tool ∈ PTools p) \/ is_Some (m !! tool) ->
    is_Some (foldl (fun m p => foldl (fun m tool => <[tool := PName p]> m) m (PTools p)) m ps !! tool)).
  { induction ps as [|p ps IH]; intros m; cbn [foldl]; [intros [(p & ?%elem_of_nil & _)|?]; done|]. intros H. apply IH.
    destruct H as [(q & [->|Hq]%elem_of_cons & Ht)|Hm]; [right; apply charged_tools; by left|left; eauto|right; apply charged_tools; by right]. }
  intros Hn. unfold spends. destruct (filter _ ps) as [|p l] eqn:Hf; [done|]. exfalso.
  assert (Hp : p ∈ filter (fun p => tool ∈ PTools p) ps) by (rewrite Hf; left). apply list_elem_of_filter in Hp as [Ht Hp].
  destruct (H ∅) as [x Hx]; [left; eauto|]. congruence.
Qed.

Lemma check_free_nil m i declared tools : check_free m i declared tools = [] ->
  Forall (fun tool => blank tool = false /\ containsSpace tool = false /\ m !! tool = None) tools /\ NoDup tools
  /\ forall tool, tool ∈ tools -> tool ∉ declared.
Proof.
  revert i declared. induction tools as [|tool tools IH]; intros i declared; cbn [check_free].
  { intros _. split_and!; [constructor|constructor|by intros ? ?%elem_of_nil]. }
  destruct (blank tool) eqn:Hb; [done|]. destruct (containsSpace tool) eqn:Hs; [done|]. destruct (SplitNamespaced tool); [|done].
  intros H. apply app_nil_iff in H as [Hd H]. apply app_nil_iff in H as [Hm H]. apply fault_if_nil, bool_decide_eq_false in Hd.
  destruct (m !! tool) eqn:Hl; [done|]. destruct (IH _ _ H) as (Hall & Hnd & Hnew). split_and!.
  - by constructor.
  - apply NoDup_cons. split; [|done]. intros Hin. apply (Hnew _ Hin). left.
  - intros x [->|Hx]%elem_of_cons; [done|]. intros Hin. apply (Hnew x Hx). by right.
Qed.

Lemma collect_providers_total byName acc ps : Forall (fun p => ValidateProvider p = []) ps -> NoDup (map PName ps) ->
  (forall n, n ∈ map PName ps -> n ∉ byName) -> collect_providers byName acc ps = Ok (acc ++ ps).
Proof.
  intros Hv. revert byName acc. induction Hv as [|p ps Hp _ IH]; intros byName acc Hnd Hnew; cbn [collect_providers]; [by rewrite app_nil_r|].
  cbn [map] in *. apply NoDup_cons in Hnd as [Hn Hnd]. rewrite Hp, bool_decide_false by (apply Hnew; left). rewrite IH; [by rewrite <- app_assoc|done|].
  intros n Hin [->|Hx]%elem_of_cons; [done|]. by apply (Hnew n); [right|].
Qed.

Lemma collect_free_total idx fr tools : Forall (fun tool => trim_space tool = tool /\ tool <> "" /\ idx !! tool = None) tools -> NoDup tools ->
  (forall tool, tool ∈ tools -> tool ∉ fr) -> exists f, collect_free idx fr tools = Ok f.
Proof.
  intros Hv. revert fr. induction Hv as [|tool tools (Ht & Hne & Hi) _ IH]; intros fr Hnd Hnew; cbn [collect_free]; [eauto|].
  apply NoDup_cons in Hnd as [Hn Hnd]. rewrite Ht, bool_decide_false by done. rewrite bool_decide_false by (apply Hnew; left). rewrite Hi.
  apply IH; [done|]. intros x Hx [->%elem_of_singleton|Hf]%elem_of_union; [done|]. by apply (Hnew x); [right|].
Qed.

Lemma NewPlan_total ps free : check_providers 0 [] ps = [] -> check_free (charged ps) 0 [] free = [] -> exists plan, NewPlan ps free = Ok plan.
Proof.
  intros (Hps & Hnd & _)%check_providers_nil (Hf & Hndf & _)%check_free_nil. unfold NewPlan.
  assert (Hv : Forall (fun p => ValidateProvider p = []) ps) by (eapply Forall_impl; [exact Hps|]; by intros p [? _]).
  rewrite collect_providers_total; [|done|done|by intros n _ ?%elem_of_nil]. cbn [rbind app]. cbv zeta.
  destruct (collect_free_total (index_tools (sort_by PName ps)) ∅ free) as [f ->]; [|done|set_solver|by eexists].
  eapply Forall_impl; [exact Hf|]. intros tool (Hb & Hs & Hm). apply trim_space_id in Hs. split_and!; [done| |].
  - intros ->. by vm_compute in Hb.
  - apply index_tools_lookup.
    + rewrite sort_by_Permutation. eapply Forall_impl; [exact Hv|]. by intros q (_ & _ & ? & _)%ValidateProvider_ok.
    + apply charged_spends in Hm. unfold spends in *. destruct (filter _ (sort_by PName ps)) as [|p l] eqn:E; [done|]. exfalso.
      assert (Hp : p ∈ filter (fun p => tool ∈ PTools p) (sort_by PName ps)) by (rewrite E; left).
      apply list_elem_of_filter in Hp as [Ht Hp]. rewrite elem_of_sort_by in Hp.
      assert (Hin : p ∈ filter (fun p => tool ∈ PTools p) ps) by (by apply list_elem_of_filter). rewrite Hm in Hin. by apply elem_of_nil in Hin.
Qed.

(** ** Limits and keys *)

Lemma ociLimits_valid o : oci_validate o = [] -> ValidateLimits (ociLimits o) = None.
Proof.
  unfold oci_validate. rewrite !app_nil_iff. intros (Hu & Hp & Hm & Hc). unfold ValidateLimits, ociLimits. cbn [OciPlan.User PidsLimit Memory CPUs].
  assert (H1 : exists u g, numericUser (if bool_decide (oci_user o = "") then OciPlan.User DefaultLimits else oci_user o) = Some (u, g)
                /\ id_in_range u = true /\ id_in_range g = true).
  { destruct (bool_decide (oci_user o = "")); [by exists "65534", "65534"|]. destruct (numericUser (oci_user o)) as [[u g]|]; [|done].
    exists u, g. destruct (id_in_range u), (id_in_range g); try done. }
  assert (H2 : (default (PidsLimit DefaultLimits) (oci_pids_limit o) <=? 0) || (maxPids <? default (PidsLimit DefaultLimits) (oci_pids_limit o)) = false).
  { destruct (oci_pids_limit o) as [n|]; cbn [default from_option id]; [|done]. by destruct (_ || _). }
  assert (H3 : match memoryBytes (if bool_decide (oci_memory o = "") then Memory DefaultLimits else oci_memory o) with Some n => n <? minMemory | None => true end = false).
  { destruct (bool_decide (oci_memory o = "")); [done|]. destruct (memoryBytes (oci_memory o)) as [n|]; [|done]. destruct (Z.leb_spec minMemory n); [|done]. lia. }
  assert (H4 : not_a_number (default (CPUs DefaultLimits) (oci_cpus o)) || infinite (default (CPUs DefaultLimits) (oci_cpus o))
               || SFltb (default (CPUs DefaultLimits) (oci_cpus o)) minCPUs = false).
  { destruct (oci_cpus o) as [x|]; cbn [default from_option id]; [|done]. by destruct (_ || _). }
  destruct H1 as (u & g & -> & -> & ->). cbn [negb orb]. by rewrite H2, H3, H4.
Qed.

Lemma public_keys_sizes i raws keys : public_keys i raws = Ok keys ->
  length keys = length raws /\ Forall (fun k => String.length k = PublicKeySize) keys.
Proof.
  revert i keys. induction raws as [|raw raws IH]; intros i keys; cbn [public_keys]; [by intros [= <-]|]. cbv zeta.
  destruct (bool_decide (trim_space raw = "")); [done|]. destruct (base64_decode _) as [k|]; [|done].
  destruct (Nat.eqb_spec (String.length k) PublicKeySize); [|done]. cbn [negb].
  intros (ks & Hk & [= <-])%rbind_Ok_inv. destruct (IH _ _ Hk) as [Hl Hs]. split; [cbn; by f_equal|by constructor].
Qed.

Lemma check_floor_nil v least none few n : check_floor v least none few = [] -> v = Some n -> least <= n.
Proof. intros H ->. cbn [check_floor] in H. destruct (n <=? 0); [done|]. apply fault_if_nil, Z.ltb_ge in H. done. Qed.

Section theorems.
Context `{UT : UnicodeTables, AP : AddrParser, UP : UrlParser, MR : MapRange, TM : Toml}.
Context (LookupPort : string -> option Z) (ReadFile : string -> option string) (cwd : option string).

Lemma load_Ok path text c : load LookupPort ReadFile cwd path text = Ok c ->
  exists c0, Validate LookupPort c0 = (c, []).
Proof.
  unfold load. destruct (ReadFile path); [|done]. destruct (decode_config _) as [[c1 md]|]; [|done].
  destruct (rejectUnknownKeys _ _); [done|]. destruct (rejectCollapsedMapKeys _ _ _ _); [done|].
  intros ([c0 file] & _ & H)%rbind_Ok_inv. exists c0. destruct (Validate LookupPort c0) as [c' [|f fs]]; [by injection H as ->|done].
Qed.

(** The parts of an accepted configuration. *)
Record accepted (c : Config) : Prop := {
  ac_paths : check_paths LookupPort c = [];
  ac_signer : check_signer c = [];
  ac_response : check_response c = [];
  ac_roles : exists seen, check_roles 0 [] (map toAccess (cfg_roles c)) = ([], seen)
    /\ forall g r, group_to_role c !! g = Some r -> check_group seen g r = [];
  ac_providers : check_providers 0 [] (q_providers (quota c)) = [];
  ac_free : check_free (charged (q_providers (quota c))) 0 [] (q_free_tools (quota c)) = [];
  ac_oci : oci_validate (oci c) = []
}.

Lemma Validate_accepted c0 c : Validate LookupPort c0 = (c, []) -> accepted c.
Proof.
  unfold Validate. set (d := with_defaults c0). destruct (check_roles 0 [] (map toAccess (cfg_roles d))) as [fs seen] eqn:Hr. intros [= <- H].
  rewrite !app_nil_iff in H. destruct H as (_ & Hp & _ & _ & Hs & Hresp & _ & -> & Hprov & Hfree & _ & Hg & Ho).
  split; try done.
  - exists seen. split; [done|]. intros g r Hl. rewrite flat_map_nil in Hg. apply (Hg (g, r)). rewrite map_range_perm. by apply elem_of_map_to_list.
  - change (oci d) with (oci c0). by destruct (oci_validate (oci c0)).
Qed.

Lemma accepted_policy c : accepted c -> exists policy, ToAccessPolicy c = Ok policy.
Proof.
  intros [_ _ _ (seen & Hr & Hg) _ _ _]. destruct (check_roles_nil _ _ _ _ Hr) as (Hall & Hnd & _ & Hseen).
  assert (Hfst : NoDup (map fst (map_range (group_to_role c)))).
  { change (NoDup ((map_range (group_to_role c)).*1)). rewrite map_range_perm. apply NoDup_fst_map_to_list. }
  unfold ToAccessPolicy. pose proof (proj2 (proj1 (NewPolicy_accepts (map toAccess (cfg_roles c)) (map_range (group_to_role c)) Hfst))) as H.
  destruct (NewPolicy _ _) as [policy|]; [by exists policy|]. exfalso. assert (false = true); [|done]. apply H. split_and!; [|done|].
  - eapply Forall_impl; [exact Hall|]. by intros r (? & _).
  - apply Forall_forall. intros [g r] Hin. rewrite map_range_perm in Hin. apply elem_of_map_to_list, Hg in Hin. unfold check_group in Hin.
    apply app_nil_iff in Hin as [Hgn Hrole]. apply fault_if_nil, negb_false_iff, bool_decide_eq_true, Hseen in Hrole. cbn [fst snd]. split.
    + destruct (blank g) eqn:Hb; [done|]. by destruct (ValidateGroupName g).
    + destruct Hrole as [?%elem_of_nil|Hrole]; [done|]. apply list_elem_of_fmap in Hrole as (role & -> & Hin). by exists role.
Qed.

Lemma accepted_authorizes c policy id up t : accepted c -> ToAccessPolicy c = Ok policy -> no_dot up -> t <> "" ->
  Authorize policy id (up +:+ nameSeparator +:+ t) = Ok tt <->
  exists g r, g ∈ Groups id /\ r ∈ cfg_roles c /\ group_to_role c !! g = Some (f_name r)
    /\ (up +:+ nameSeparator +:+ t ∈ default [] (f_tools r) \/ exists ids, f_grants r !! up = Some ids /\ (GrantAll ∈ ids \/ t ∈ ids)).
Proof.
  intros _ Hp Hup Ht. assert (Hfst : NoDup (map fst (map_range (group_to_role c)))).
  { change (NoDup ((map_range (group_to_role c)).*1)). rewrite map_range_perm. apply NoDup_fst_map_to_list. }
  rewrite (policy_decision_exact _ _ _ id up t Hp Hfst Hup Ht). split.
  - intros (g & r & Hg & Hr & Hm & H). apply list_elem_of_fmap in Hr as (role & -> & Hrole). exists g, role.
    rewrite map_range_perm in Hm. apply elem_of_map_to_list in Hm. done.
  - intros (g & r & Hg & Hr & Hm & H). exists g, (toAccess r). split_and!; [done| | |done].
    + apply list_elem_of_fmap. by exists r.
    + rewrite map_range_perm. by apply elem_of_map_to_list.
Qed.

(** What a configuration in force may be relied on for. *)
Record serves (c : Config) (policy : Policy) (plan : Plan) (keys : list string) : Prop := {
  sv_authorizes : forall id up t, no_dot up -> t <> "" ->
    Authorize policy id (up +:+ nameSeparator +:+ t) = Ok tt <->
    exists g r, g ∈ Groups id /\ r ∈ cfg_roles c /\ group_to_role c !! g = Some (f_name r)
      /\ (up +:+ nameSeparator +:+ t ∈ default [] (f_tools r) \/ exists ids, f_grants r !! up = Some ids /\ (GrantAll ∈ ids \/ t ∈ ids));
  sv_named : forall r tool, r ∈ cfg_roles c -> tool ∈ default [] (f_tools r) -> role_tool_ok tool;
  sv_non_read : forall r, r ∈ cfg_roles c -> f_non_read r = true -> default [] (f_tools r) <> [];
  sv_accounts : forall p tool, p ∈ q_providers (quota c) -> tool ∈ PTools p -> exists t, SplitNamespaced tool = Some (Quota.Upstream p, t);
  sv_free : forall tool now, tool ∈ q_free_tools (quota c) -> IsDeclared plan tool = true /\ Charges plan tool now = [];
  sv_keys : length keys = length (trusted_keys (signer c)) /\ Forall (fun k => String.length k = PublicKeySize) keys
            /\ (SignaturesRequired (signer c) = true -> keys <> []);
  sv_limits : ValidateLimits (ociLimits (oci c)) = None;
  sv_loopback : IsLoopbackAddr (listen c) = true;
  sv_bounds : MinRefreshInterval <= RefreshEvery (quarantine c) /\ MinResultBytes <= MaxResultBytes (response c)
              /\ MinCallTimeout <= CallTimeoutOrDefault (response c) /\ 1 <= MaxConcurrentCallsOrDefault (response c)
}.

Lemma floor_default v least none few d : check_floor v least none few = [] -> least <= d -> least <= default d v.
Proof. intros H Hd. destruct v as [n|]; [|done]. by apply (check_floor_nil _ _ _ _ n H). Qed.

Lemma accepted_serves c : accepted c -> exists policy plan keys,
  ToAccessPolicy c = Ok policy /\ ToQuotaPlan c = Ok plan /\ TrustedPublicKeys (signer c) = Ok keys /\ serves c policy plan keys.
Proof.
  intros Hac. destruct (accepted_policy c Hac) as [policy Hp]. pose proof Hac as [Hpaths Hsigner Hresp (seen & Hr & _) Hprov Hfree Hoci].
  destruct (NewPlan_total _ _ Hprov Hfree) as [plan Hplan]. unfold check_signer in Hsigner. rewrite !app_nil_iff, !fault_if_nil in Hsigner.
  destruct Hsigner as (_ & _ & Hk & Hreq). destruct (TrustedPublicKeys (signer c)) as [keys|] eqn:Hkeys; [|done].
  exists policy, plan, keys. split_and!; [done..|]. destruct (check_roles_nil _ _ _ _ Hr) as (Hall & _). rewrite Forall_forall in Hall.
  destruct (check_providers_nil _ _ _ Hprov) as (Hps & _). rewrite Forall_forall in Hps.
  destruct (check_free_nil _ _ _ _ Hfree) as (Hfs & _). rewrite Forall_forall in Hfs.
  destruct (NewPlan_inv _ _ _ Hplan) as (_ & Hwf & Hin). pose proof (public_keys_sizes _ _ _ Hkeys) as [Hlen Hsizes].
  unfold check_response in Hresp. rewrite !app_nil_iff in Hresp. destruct Hresp as (Hq & Hb & Ht & Hcc).
  split.
  - intros id up t. by apply accepted_authorizes.
  - intros r tool Hr' Htool. destruct (Hall (toAccess r)) as (_ & Hok & _); [apply list_elem_of_fmap; by exists r|].
    rewrite Forall_forall in Hok. by apply Hok.
  - intros r Hr' Hn. destruct (Hall (toAccess r)) as (_ & _ & Hok); [apply list_elem_of_fmap; by exists r|]. by apply Hok.
  - intros p tool Hp' Htool. destruct (Hps p Hp') as [_ H]. by apply H.
  - intros tool now Htool. destruct (Hfs tool Htool) as (_ & Hs & _). apply trim_space_id in Hs.
    assert (Hf : tool ∈ free plan) by (apply Hin; exists tool; by rewrite Hs). pose proof Hwf as (_ & _ & _ & _ & Hfree').
    split; [unfold IsDeclared; destruct (byTool plan !! tool); [done|]; by apply bool_decide_true|]. by rewrite Charges_eq, Hfree'.
  - split_and!; [done|done|]. intros Hreq'. rewrite Hreq' in Hreq. cbn [andb] in Hreq. apply bool_decide_eq_false in Hreq. intros ->.
    apply Hreq. by destruct (trusted_keys (signer c)).
  - by apply ociLimits_valid.
  - unfold check_paths in Hpaths. apply app_nil_iff in Hpaths as [Hl _]. unfold RequireLoopbackBind in Hl. by destruct (IsLoopbackAddr (listen c)).
  - split_and!; [by eapply floor_default|by eapply floor_default|by eapply floor_default|].
    unfold MaxConcurrentCallsOrDefault. destruct (r_max_concurrent (response c)) as [n|]; [|done]. apply fault_if_nil, Z.leb_gt in Hcc. cbn. lia.
Qed.

(** C28 [loaded_config_serves]: a configuration that loads is one the gateway can serve.  Its policy and its
    quota plan are built, its keys decode and are there when signatures are required, and its container
    limits are the adapter's to run with; the policy authorises a call exactly by the file's own roles
    and groups, every tool a role or an account names is namespaced, on the account's own backend, and a
    free tool is declared and charged to none; the listener is on loopback and every bound has its floor.
    And a roles text that [ValidateRolesText] accepts loads once it is the file's. *)
Theorem loaded_config_serves path :
  (forall c, Load LookupPort ReadFile cwd path = Ok c -> exists policy plan keys,
     ToAccessPolicy c = Ok policy /\ ToQuotaPlan c = Ok plan /\ TrustedPublicKeys (signer c) = Ok keys /\ serves c policy plan keys)
  /\ (forall text written, ValidateRolesText LookupPort ReadFile cwd path text = None -> written path = ReadFile path ->
        (forall c, load LookupPort ReadFile cwd path (Some text) = Ok c -> written (roles_file c) = Some text) ->
        exists c, load LookupPort ReadFile cwd path (Some text) = Ok c /\ Load LookupPort written cwd path = Ok c).
Proof.
  split.
  - intros c Hl. apply load_Ok in Hl as (c0 & Hv). by eapply accepted_serves, Validate_accepted.
  - intros text written Hv Hpath Hfile. unfold ValidateRolesText in Hv. destruct (load LookupPort ReadFile cwd path (Some text)) as [c|] eqn:Hl; [|done].
    specialize (Hfile c eq_refl). exists c. split; [done|]. revert Hl. unfold Load, load. rewrite Hpath. destruct (ReadFile path); [|done].
    destruct (decode_config _) as [[c1 md]|]; [|done]. destruct (rejectUnknownKeys path md); [done|].
    destruct (rejectCollapsedMapKeys path md _ _); [done|]. unfold loadRolesFile. destruct (bool_decide (roles_file c1 = "")); [done|].
    destruct (negb (trimmed (roles_file c1))); [done|]. destruct (_ ++ _); [|done]. set (file := roles_path cwd path (roles_file c1)). cbv zeta.
    intros Hl. assert (Hw : written file = Some text); [|by rewrite Hw].
    destruct (decode_roles text) as [[[roles groups] rmd]|]; [|done]. destruct (rejectUnknownKeys file rmd); [done|].
    destruct (rejectCollapsedMapKeys file rmd _ _); [done|]. cbn [rbind] in Hl. unfold Validate in Hl.
    destruct (check_roles _ _ _) as [fs seen] in Hl. rewrite <- Hfile. f_equal. destruct (_ ++ _) in Hl; [|done]. by injection Hl as <-.
Qed.
End theorems.

(** ** Witness *)

Section demo.

#[local] Instance demo_tables' : UnicodeTables := AuditLog.demo_tables.
#[local] Instance demo_addrs' : AddrParser := demo_parser.
#[local] Instance demo_urls' : UrlParser := RestRequest.demo_urls.
#[local] Instance demo_range : MapRange := OciPlan.listed_order.

Definition demo_role (name tool : string) : FileRole :=
  {| f_name := name; f_tools := Some [tool]; f_grants := {[ "docs" := ["*"] ]}; f_non_read := false |}.

(** A configuration whose every optional section is left out, and whose roles are in a file of their own. *)
Definition demo_config : Config :=
  {| listen := "localhost:8080"; database := "/var/lib/gatte.db";
     oidc := {| o_issuer := "https://idp.example/r"; o_audience := "https://gatte.example/mcp"; o_groups_claim := "";
                o_authorization_servers := []; o_scopes_supported := Some ["openid"] |};
     vault := {| v_secrets_file := "s.yaml"; v_age_key_file := "k.txt" |};
     signer := {| s_key_file := ""; s_trusted_keys := Some ["AAECAwQFBgcICQoLDA0ODxAREhMUFRYXGBkaGxwdHh8="]; s_require_signed := None |};
     quarantine := {| q_refresh_interval := None |};
     response := {| r_max_bytes := Some 65536; r_call_timeout := None; r_max_concurrent := None |};
     siem := {| siem_path := ""; siem_chain := "" |};
     quota := {| q_providers := []; q_free_tools := ["docs.read"] |};
     telemetry := {| t_address := ""; t_transport := ""; t_tls := false; t_tls_ca_file := ""; t_host := ""; t_cliente_soc := ""; t_buffer := None |};
     oci := {| oci_user := ""; oci_pids_limit := Some 32; oci_memory := ""; oci_cpus := None |};
     allow_credentialed_stdio := false; users_file := "";
     connect := {| n_client_id := ""; n_callback_port := 0; n_ca_file := ""; n_server_name := "" |};
     admin := {| a_operator_group := ""; a_account_group := ""; a_console_manages := false |};
     analyst := {| y_contact := ""; y_backend_notes := None |};
     roles_file := "roles.toml"; cfg_roles := []; group_to_role := ∅ |}.

(** A decoder of that one configuration, whose roles file holds the name of its role. *)
#[local] Instance demo_toml : Toml :=
  {| decode_config := fun _ => Some (demo_config, {| Keys := []; Undecoded := []; IsDefined := fun _ => false |});
     decode_roles := fun s => Some ([demo_role s "docs.read"], {[ "soc" := s ]}, {| Keys := []; Undecoded := []; IsDefined := fun _ => false |}) |}.

Definition demo_port (port : string) : option Z := if bool_decide (port = "8080") then Some 8080 else None.
Definition demo_files (roles : string) (path : string) : option string :=
  if bool_decide (path = "/etc/gatte/gatte.toml") then Some "" else if bool_decide (path = "/etc/gatte/roles.toml") then Some roles else None.

Definition demo_load (files : string -> option string) : result load_error Config := Load demo_port files None "/etc/gatte/gatte.toml".

Definition demo_loaded : Config := match demo_load (demo_files "n1") with Ok c => c | Err _ => demo_config end.

Lemma loaded_config_serves_witness :
  demo_load (demo_files "n1") = Ok demo_loaded
  /\ (exists policy plan keys, ToAccessPolicy demo_loaded = Ok policy /\ ToQuotaPlan demo_loaded = Ok plan
        /\ TrustedPublicKeys (signer demo_loaded) = Ok keys /\ serves demo_loaded policy plan keys)
  /\ ValidateRolesText demo_port (demo_files "n1") None "/etc/gatte/gatte.toml" "n2" = None
  /\ exists c, load demo_port (demo_files "n1") None "/etc/gatte/gatte.toml" (Some "n2") = Ok c /\ demo_load (demo_files "n2") = Ok c.
Proof.
  assert (H1 : demo_load (demo_files "n1") = Ok demo_loaded) by (by vm_compute).
  assert (H2 : ValidateRolesText demo_port (demo_files "n1") None "/etc/gatte/gatte.toml" "n2" = None) by (by vm_compute).
  destruct (loaded_config_serves demo_port (demo_files "n1") None "/etc/gatte/gatte.toml") as [Hserve Hroles].
  split; [exact H1|]. split; [exact (Hserve _ H1)|]. split; [exact H2|].
  apply (Hroles _ (demo_files "n2") H2); [by vm_compute|]. intros c Hl.
  assert (Hf : match load demo_port (demo_files "n1") None "/etc/gatte/gatte.toml" (Some "n2") with
               | Ok c' => demo_files "n2" (roles_file c') = Some "n2" | Err _ => False end) by (by vm_compute).
  by rewrite Hl in Hf.
Defined.
End demo.
