(* ===== verification/Dialer.v ===== *)
(** * The one dialer ([cmd/mcp-gateway/dialer.go])

    How an entry reaches its adapter, and what the console asks before it registers or signs one.  The
    theorem puts the two together with the registry, the configuration and the three adapters: the
    console refuses exactly the entries the dialer would refuse for what they say. *)
From Stdlib Require Import ZArith Lia Ascii SpecFloat.
From stdpp Require Import base strings list gmap.
From S2P Require Import Prelude.
From S2P Require Import GoStrings.
From S2P Require Import GoTime.
From S2P Require Import Utf8.
From S2P Require Import Visible.
From S2P Require Import AuditLog.
From S2P Require Import Registry.
From S2P Require Import Redact.
From S2P Require Import Prog.
From S2P Require Import GatewayTypes.
From S2P Require Import Routing.
From S2P Require Import ChildEnv.
From S2P Require Import OciPlan.
From S2P Require Import OciDialer.
From S2P Require Import RestEgress.
From S2P Require Import RestOperations.
From S2P Require Import RestRequest.
From S2P Require Import RestSets.
From S2P Require Import RestCall.
From S2P Require Import Config.
From S2P Require Import ConfigLoad.

(** ** The REST adapter's policy ([internal/gateway/resthttp/resthttp.go]) *)

Definition defaultClientTimeout : Z := 2 * minute.

(** [provider] is a vault or none; the resolver and the egress policy are those of the program. *)
Record rest_dialer := { provider : bool; timeout : Z; maxBody : Z }.

Inductive rest_option := WithHTTPClientTimeout (d : Z) | WithMaxBodyBytes (n : Z).

Definition apply_rest_option (dl : rest_dialer) (o : rest_option) : rest_dialer :=
  match o with
  | WithHTTPClientTimeout d => {| provider := provider dl; timeout := if 0 <? d then d else timeout dl; maxBody := maxBody dl |}
  | WithMaxBodyBytes n => {| provider := provider dl; timeout := timeout dl; maxBody := if 0 <? n then n else maxBody dl |}
  end.

Definition rest_New (vault : bool) (opts : list rest_option) : rest_dialer :=
  foldl apply_rest_option {| provider := vault; timeout := defaultClientTimeout; maxBody := DefaultMaxResultBytes |} opts.

(** ** The dialer *)

Record transportDialer := {
  td_stdio : list string (* the names the stdio adapter inherits *);
  td_oci : Dialer; td_resthttp : rest_dialer; allowCredentialedStdio : bool
}.

(** [None]: the panic of wiring the container adapter with no inner dialer, which never happens here. *)
Definition newTransportDialer (cfg : Config) (credentials : bool) : option transportDialer :=
  match New true [WithCleanupEnv defaultInheritedEnv; WithLimits (ociLimits (oci cfg))] with
  | None => None
  | Some d =>
      Some {| td_stdio := defaultInheritedEnv; td_oci := d;
              td_resthttp := rest_New credentials [WithMaxBodyBytes (MaxResultBytes (Config.response cfg));
                                                   WithHTTPClientTimeout (CallTimeoutOrDefault (Config.response cfg))];
              allowCredentialedStdio := allow_credentialed_stdio cfg |}
  end.

Inductive dial_refusal := CredentialedStdio (name : string) | TransportNotServed (name transport : string).

(** What a dial goes on to: a refusal, or the adapter's own. *)
Inductive dialing :=
| DialRefused (e : dial_refusal)
| DialStdio (p : prog (E := spawn_effects) (result stdio_error handle))
| DialOCI (p : prog (E := oci_effects) (result oci_error oci_upstream))
| DialRest (r : result rest_dial_error rest_upstream).

Section dialer.
Context `{FT : FloatText, PE : ProcessEnv, MR : MapRange, PT : PrintTable, UP : UrlParser, AP : AddrParser}.

Definition transport_Dial (d : transportDialer) (spec : UpstreamSpec) (env : gmap string string) : dialing :=
  if bool_decide (SpTransport spec = TransportStdio) then
    if (0 <? size env)%nat && negb (allowCredentialedStdio d) then DialRefused (CredentialedStdio (SpName spec))
    else DialStdio (stdio_Dial (td_stdio d) spec env)
  else if bool_decide (SpTransport spec = TransportOCI) then DialOCI (OciDialer.Dial (td_oci d) spec env)
  else if bool_decide (SpTransport spec = TransportHTTP) then
    DialRest (rest_Dial refuseAddr (provider (td_resthttp d)) (maxBody (td_resthttp d)) spec (map_range env))
  else DialRefused (TransportNotServed (SpName spec) (SpTransport spec)).

(** ** What the console asks *)

Definition credentialedStdioRefusal (entry : UpstreamServer) (cfg : option Config) : bool :=
  if negb (bool_decide (STransport entry = TransportStdio)) || bool_decide (EnvVarNames entry = []) then false
  else match cfg with Some c => negb (allow_credentialed_stdio c) | None => true end.

Inductive console_refusal :=
| StdioNames (e : env_error) | ContainerRules (e : plan_error) | RestBase (e : base_error) | RestSet (e : sets_error).

Definition dialTimeRefusal (entry : UpstreamServer) : option console_refusal :=
  if bool_decide (STransport entry = TransportStdio) then
    match ValidateEnvVarNames (EnvVarNames entry) with Some e => Some (StdioNames e) | None => None end
  else if bool_decide (STransport entry = TransportOCI) then
    match ValidateWrapperArgs (Args entry) with
    | Some e => Some (ContainerRules e)
    | None => match oci_ValidateEnvVarNames (EnvVarNames entry) with Some e => Some (ContainerRules e) | None => None end
    end
  else if bool_decide (STransport entry = TransportHTTP) then
    match ValidateBaseURL (URL entry) with
    | Some e => Some (RestBase e)
    | None => match Decode (Operations entry) (SAuthKind entry) (AuthName entry) with Err e => Some (RestSet e) | Ok _ => None end
    end
  else None.

Definition stdioNetwork : string := "host".

Definition entryNetwork (entry : UpstreamServer) : result plan_error string :=
  if bool_decide (STransport entry = TransportOCI) then ResolveNetwork (Args entry) else Ok stdioNetwork.
End dialer.

(** ** What becomes of a dial *)

(** The dial reaches what the entry names - a process, a container, a client - with [network] as its
    network; only the random source of a container's name may still fail before. *)
Definition starts (x : dialing) (entry : UpstreamServer) (network : string) : Prop :=
  match x with
  | DialRefused _ => False
  | DialStdio p => network = stdioNetwork /\ forall tr out, runs p tr out -> exists environ answer rest,
      tr = Ev (E := spawn_effects) (SConnect (Command entry) (Args entry) environ) answer :: rest
  | DialOCI p => forall tr out, runs p tr out ->
      tr = [Ev (E := oci_effects) ORand (Val None)] /\ out = Done (Err (ErrNoContainerName (Name entry)))
      \/ exists random spec env answer rest,
           tr = Ev (E := oci_effects) ORand (Val (Some random)) :: Ev (E := oci_effects) (OInner spec env) answer :: rest
           /\ "--network=" +:+ network ∈ SpArgs spec /\ last (SpArgs spec) = Some (Image entry)
  | DialRest r => network = stdioNetwork /\ exists u, r = Ok u /\ u_authKind u = SAuthKind entry /\ u_authName u = AuthName entry
  end.

(** The dial is refused and nothing was started. *)
Definition refused (x : dialing) : Prop :=
  match x with
  | DialRefused _ => True
  | DialStdio p => forall tr out, runs p tr out -> tr = [] /\ exists e, out = Done (Err e)
  | DialOCI p => forall tr out, runs p tr out -> Forall (fun ev => ev_eff (E := oci_effects) ev = ORand) tr /\ exists e, out = Done (Err e)
  | DialRest r => exists e, r = Err e
  end.

(** The values the vault answered for the entry's names; none can hold a NUL byte in an environment. *)
Record resolved_for (entry : UpstreamServer) (env : gmap string string) : Prop := {
  rf_names : forall n, n ∈ dom env <-> n ∈ EnvVarNames entry;
  rf_values : forall n v, env !! n = Some v -> contains_byte v NUL = false
}.

Section meets.
Context `{FT : FloatText, PE : ProcessEnv, MR : MapRange, PT : PrintTable, UP : UrlParser, AP : AddrParser}.

(** A program only adds events. *)
Lemma wpa_prefix {E : Effects} {A} acc (p : prog A) : wpa acc p (fun tr _ => exists rest, tr = acc ++ rest).
Proof. apply wp_true. eauto. Qed.

Lemma resolved_size entry env : resolved_for entry env -> (0 <? size env)%nat = negb (bool_decide (EnvVarNames entry = [])).
Proof.
  intros [Hn _]. destruct (EnvVarNames entry) as [|n l] eqn:He.
  - assert (env = ∅) as ->; [|by rewrite map_size_empty]. apply dom_empty_inv_L. apply elem_of_equiv_empty_L. intros x Hx%Hn.
    by apply elem_of_nil in Hx.
  - rewrite bool_decide_false by done. apply Nat.ltb_lt. assert (Hin : n ∈ dom env) by (apply Hn; left).
    enough (size env <> 0)%nat by lia. intros Hs%map_size_empty_inv. subst. by rewrite dom_empty_L in Hin.
Qed.

Lemma stdio_names names env entry : resolved_for entry env -> EnvVarNames entry = names ->
  (ValidateEnvVarNames names = None <-> forall inherited, exists environ, childEnv inherited env = Ok environ).
Proof.
  intros [Hn Hv] <-. assert (Hlist : ValidateEnvVarNames (EnvVarNames entry) = None <-> Forall (fun n => validateEnvEntry n "" = None) (EnvVarNames entry)).
  { generalize (EnvVarNames entry). intros l. induction l as [|n l IH]; cbn [ValidateEnvVarNames]; [by split|].
    rewrite Forall_cons. destruct (validateEnvEntry n ""); [naive_solver|]. naive_solver. }
  assert (Hone : forall n v, env !! n = Some v -> validateEnvEntry n v = None <-> validateEnvEntry n "" = None).
  { intros n v Hl. specialize (Hv _ _ Hl). rewrite !validateEnvEntry_None. naive_solver. }
  rewrite Hlist. split.
  - intros Hf inherited. rewrite Forall_forall in Hf. eexists. apply child_entries_Ok. split; [|done].
    apply Forall_forall. intros [n v] Hin. rewrite map_range_perm in Hin. apply elem_of_map_to_list in Hin. apply (Hone _ _ Hin).
    apply Hf, Hn, elem_of_dom. eauto.
  - intros H. destruct (H []) as [environ [Hf _]%child_entries_Ok]. rewrite Forall_forall in Hf. apply Forall_forall.
    intros n [v Hl]%Hn%elem_of_dom. apply (Hone _ _ Hl). apply (Hf (n, v)). rewrite map_range_perm. by apply elem_of_map_to_list.
Qed.

Lemma stdio_meets d entry env : resolved_for entry env -> STransport entry = TransportStdio -> blank (Command entry) = false ->
  (ValidateEnvVarNames (EnvVarNames entry) = None -> starts (DialStdio (stdio_Dial (td_stdio d) (specFor entry) env)) entry stdioNetwork)
  /\ (ValidateEnvVarNames (EnvVarNames entry) <> None -> refused (DialStdio (stdio_Dial (td_stdio d) (specFor entry) env))).
Proof.
  intros Hr Ht Hc. pose proof (stdio_names _ env entry Hr eq_refl) as Hnames.
  assert (Hcmd : Command entry <> "") by (intros He; by rewrite He in Hc).
  unfold starts, refused, stdio_Dial, specFor. cbn [SpTransport SpCommand SpName SpArgs]. rewrite Ht, bool_decide_true by done.
  rewrite bool_decide_false by done. cbn [negb]. split.
  - intros Hok. split; [done|]. destruct (proj1 Hnames Hok (td_stdio d)) as [environ ->]. apply wpa_runs. apply wpa_step.
    + intros answer. eapply wpa_mono; [|apply wpa_prefix]. intros tr _ [rest ->]. by eexists _, _, _.
    + intros _. by eexists environ, Blew, [].
  - intros Hbad. apply wpa_runs. destruct (childEnv (td_stdio d) env) as [environ|e] eqn:He; [|apply wpa_ret; eauto].
    exfalso. apply Hbad, Hnames. intros inherited. apply child_entries_Ok in He as [Hf _]. eexists. by apply child_entries_Ok.
Qed.

Lemma oci_names names env entry : resolved_for entry env -> EnvVarNames entry = names ->
  (oci_ValidateEnvVarNames names = None <-> forall n, n ∈ dom env -> env_name_carried n).
Proof.
  intros [Hn _] <-. setoid_rewrite Hn. generalize (EnvVarNames entry). intros l. rewrite <- Forall_forall.
  induction l as [|n l IH]; cbn [oci_ValidateEnvVarNames]; [by split|]. rewrite Forall_cons. pose proof (validateEnvName_None n) as Hv.
  destruct (validateEnvName n); naive_solver.
Qed.

(** The network's option and the image on a container's command line. *)
Lemma container_line spec names opts network :
  "--network=" +:+ network ∈ container_args spec names opts network /\ last (container_args spec names opts network) = Some (SpImage spec).
Proof.
  unfold container_args. split.
  - right. apply elem_of_app. left. unfold own_options. rewrite !elem_of_app. right. right. do 2 right. left.
  - by rewrite app_comm_cons, app_assoc, last_snoc.
Qed.

Lemma limits_default l : ValidateLimits l = None -> ValidateLimits (withDefaults l) = None.
Proof.
  assert (Hd : limits_ok DefaultLimits) by (by apply ValidateLimits_None; vm_compute).
  rewrite !ValidateLimits_None. intros (Hu & Hp & Hm & m & e & Hc & Hmin). destruct Hd as (Hu' & _ & Hm' & _).
  unfold withDefaults. split_and!; cbn [OciPlan.User PidsLimit Memory CPUs].
  - by case_bool_decide.
  - destruct (Z.eqb_spec (PidsLimit l) 0); lia.
  - destruct (Z.eqb_spec (PidsLimit l) 0); [lia|]. by destruct Hp.
  - by case_bool_decide.
  - assert (Hz : SFeqb (CPUs l) (S754_zero false) = false) by (by rewrite Hc). rewrite Hz. eauto.
Qed.

Lemma oci_meets d entry env : resolved_for entry env -> STransport entry = TransportOCI -> digestPinned (Image entry) = true ->
  ValidateLimits (limits d) = None ->
  (forall network, wrapperNetwork (Args entry) = Ok network -> oci_ValidateEnvVarNames (EnvVarNames entry) = None ->
     starts (DialOCI (OciDialer.Dial d (specFor entry) env)) entry network)
  /\ ((forall network, wrapperNetwork (Args entry) = Ok network -> oci_ValidateEnvVarNames (EnvVarNames entry) <> None) ->
     refused (DialOCI (OciDialer.Dial d (specFor entry) env))).
Proof.
  intros Hr Ht Himage Hlim. pose proof (oci_names _ env entry Hr eq_refl) as Hnames.
  unfold starts, refused, OciDialer.Dial. cbn [SpTransport SpName specFor]. rewrite Ht, bool_decide_true by done. cbn [negb].
  fold (specFor entry). split.
  - intros network Hnet Hok. apply (wpa_runs (E := oci_effects)). apply wpa_ask; [|done]. intros [random|]; [|apply wpa_ret; auto].
    destruct (buildPlan (specFor entry) env (plan_options d (specFor entry) random)) as [p|e] eqn:Hb.
    + apply buildPlan_Ok in Hb as (net & [_ _ _ Hpol _] & ->). apply wrapperNetwork_Ok in Hpol. cbn [SpArgs specFor] in Hpol.
      assert (net = network) as -> by congruence. apply wpa_ask.
      * intros answer. eapply wpa_mono; [|apply wpa_prefix]. intros tr out [rest ->]. right. eexists _, _, _, _, _. split; [done|].
        cbn [SpArgs innerSpec PArgs]. by apply container_line.
      * intros _. right. eexists _, _, _, _, _. split; [done|]. cbn [SpArgs innerSpec PArgs]. by apply container_line.
    + exfalso. enough (exists p, buildPlan (specFor entry) env (plan_options d (specFor entry) random) = Ok p) as [p Hp] by congruence.
      eexists. apply buildPlan_Ok. exists network. split; [|done]. split; cbn; [apply newContainerName_safe|done|by apply ValidateLimits_None| |].
      * by apply wrapperNetwork_Ok.
      * by apply Hnames.
  - intros Hbad. apply (wpa_runs (E := oci_effects)). apply wpa_ask; [|done]. intros [random|]; [|apply wpa_ret; split; [by repeat constructor|eauto]].
    destruct (buildPlan (specFor entry) env (plan_options d (specFor entry) random)) as [p|e] eqn:Hb; [|apply wpa_ret; split; [by repeat constructor|eauto]].
    exfalso. apply buildPlan_Ok in Hb as (net & [_ _ _ Hpol Henv] & _). apply wrapperNetwork_Ok in Hpol. apply (Hbad _ Hpol). by apply Hnames.
Qed.

(** An operation set that decodes has its routes. *)
Lemma routes_of_decoded b authKind authName ops : Decode b authKind authName = Ok ops -> exists routes, RestRequest.routesOf ops = Ok routes.
Proof.
  intros Hd%Decode_valid. unfold ops_Validate in Hd. destruct (reservedSlots authKind authName) as [[rh rq]|]; [|done].
  destruct ops as [|op0 ops0] eqn:He; [done|]. rewrite <- He in *. assert (Hall : Forall (operation_ok rh rq) ops).
  { apply (validate_each_None rh rq ops []). by destruct (validate_each rh rq ops []). }
  clear -Hall. induction Hall as [|op ops [_ _ (templates & _ & schema & props & Hs & _) _] _ [routes IH]]; cbn [RestRequest.routesOf]; [eauto|].
  rewrite Hs, IH. cbn [rbind]. eauto.
Qed.

Lemma secretRef_resolved entry env : resolved_for entry env -> http_auth_ok entry -> Forall env_name_ok (EnvVarNames entry) ->
  exists name, secretRef (SAuthKind entry) (map_range env) = Ok name.
Proof.
  intros [Hn _] Hauth Hok. unfold secretRef. assert (Hdom : forall n, n ∈ map fst (map_range env) <-> n ∈ EnvVarNames entry).
  { intros n. rewrite <- Hn, elem_of_dom. rewrite list_elem_of_fmap. setoid_rewrite (map_range_perm env). split.
    - intros ([? v] & -> & Hin%elem_of_map_to_list). eauto.
    - intros [v Hl]. exists (n, v). split; [done|]. by apply elem_of_map_to_list. }
  assert (Hnd : NoDup (map fst (map_range env))).
  { change (NoDup ((map_range env).*1)). rewrite map_range_perm. apply NoDup_fst_map_to_list. }
  destruct Hauth as [(-> & Hnames & _)|[[n Hnames] Hkind]]; rewrite Hnames in *.
  - rewrite bool_decide_true by done. destruct (map_range env) as [|[x v] l]; [eauto|]. exfalso.
    apply (not_elem_of_nil x), Hdom. left.
  - rewrite bool_decide_false by (by destruct Hkind as [(-> & _)|[(-> & _)|(-> & _)]]). apply Forall_singleton in Hok as [Hblank _].
    assert (Hin : n ∈ map fst (map_range env)) by (apply Hdom; left).
    assert (Hall : forall x, x ∈ map fst (map_range env) -> x = n) by (by intros x ?%Hdom%list_elem_of_singleton).
    destruct (map_range env) as [|[x v] [|[y w] l]]; cbn [map fst] in *.
    + by apply elem_of_nil in Hin.
    + rewrite (Hall x) by left. rewrite bool_decide_false; [eauto|]. by intros ->.
    + exfalso. apply NoDup_cons in Hnd as [Hx _]. apply Hx. rewrite (Hall x), (Hall y) by set_solver. left.
Qed.
End meets.

(** ** The console and the dialer *)

Section agreement.
Context `{FT : FloatText, PE : ProcessEnv, MR : MapRange, PT : PrintTable, UP : UrlParser, AP : AddrParser}.
Context `{UT : UnicodeTables, TM : Toml, RU : Registry.UrlParser}.
Context (LookupPort : string -> option Z) (ReadFile : string -> option string) (cwd : option string).

Lemma load_limits path c : Load LookupPort ReadFile cwd path = Ok c -> ValidateLimits (withDefaults (ociLimits (oci c))) = None.
Proof. intros (c0 & Hv)%load_Ok. apply limits_default, ociLimits_valid. by destruct (Validate_accepted _ _ _ Hv). Qed.

Lemma rest_meets d entry env : resolved_for entry env -> STransport entry = TransportHTTP -> http_auth_ok entry ->
  Forall env_name_ok (EnvVarNames entry) -> provider (td_resthttp d) = true ->
  let dial := DialRest (rest_Dial refuseAddr (provider (td_resthttp d)) (maxBody (td_resthttp d)) (specFor entry) (map_range env)) in
  (dialTimeRefusal entry = None -> starts dial entry stdioNetwork) /\ (dialTimeRefusal entry <> None -> refused dial).
Proof.
  intros Hr Ht Hauth Hnames ->. destruct (secretRef_resolved entry env Hr Hauth Hnames) as [name Hname].
  unfold dialTimeRefusal, ValidateBaseURL, starts, refused, rest_Dial. cbn [SpTransport SpURL SpAuthKind SpAuthName SpOperations specFor].
  rewrite Ht, Hname, (bool_decide_true (TransportHTTP = TransportHTTP)) by done. cbn [negb].
  rewrite andb_false_r, !bool_decide_false by done.
  destruct (parseBase (URL entry)) as [b|]; [|split; [done|eauto]]. destruct (literalHostRefusal refuseAddr b); [split; [done|eauto]|].
  destruct (Decode _ _ _) as [ops|] eqn:Hd; [|split; [done|eauto]]. destruct (routes_of_decoded _ _ _ _ Hd) as [routes ->].
  split; [|done]. intros _. split; [done|]. by eexists.
Qed.

(** C29 [console_refuses_what_the_dialer_refuses]: under a configuration that loads, with a vault, the
    console refuses at registration and at signing exactly the well-formed entries the serving process
    would refuse for what they say.  An entry it accepts is dialled: its command is spawned, its
    container's image is run with the network [entryNetwork] lists for it, its REST client is made with
    the entry's authentication; an entry it refuses is refused by the dialer before anything is started. *)
Theorem console_refuses_what_the_dialer_refuses path c : Load LookupPort ReadFile cwd path = Ok c ->
  exists d, newTransportDialer c true = Some d
    /\ forall entry env, Registry.Validate entry = None -> resolved_for entry env ->
       let dial := transport_Dial d (specFor entry) env in
       (dialTimeRefusal entry = None -> credentialedStdioRefusal entry (Some c) = false ->
          exists network, entryNetwork entry = Ok network /\ starts dial entry network)
       /\ (dialTimeRefusal entry <> None \/ credentialedStdioRefusal entry (Some c) = true -> refused dial).
Proof.
  intros Hlim%load_limits. unfold newTransportDialer. cbn. eexists. split; [done|]. intros entry env (_ & Hshape & Hnames)%Validate_None Hr.
  destruct Hshape as [(Ht & Hc & _ & _)|[(Ht & Himage & _ & _ & _)|(Ht & _ & _ & _ & _ & Hauth & _)]].
  - set (d := Build_transportDialer _ _ _ _). destruct (stdio_meets d entry env Hr Ht Hc) as [Hs Hf].
    assert (Hcred : (0 <? size env)%nat && negb (allow_credentialed_stdio c) = credentialedStdioRefusal entry (Some c)).
    { unfold credentialedStdioRefusal. rewrite Ht, (resolved_size _ _ Hr). by destruct (bool_decide (EnvVarNames entry = [])). }
    unfold transport_Dial, dialTimeRefusal, entryNetwork. cbn [SpTransport specFor]. rewrite Ht, !bool_decide_true, bool_decide_false by done.
    change (allowCredentialedStdio d) with (allow_credentialed_stdio c). fold (specFor entry). rewrite Hcred. cbv zeta. split.
    + intros Hv ->. exists stdioNetwork. split; [done|]. apply Hs. by destruct (ValidateEnvVarNames _).
    + destruct (credentialedStdioRefusal entry (Some c)); [done|]. intros [Hv|]; [|done]. apply Hf. intros He. by rewrite He in Hv.
  - set (d := Build_transportDialer _ _ _ _). destruct (oci_meets (td_oci d) entry env Hr Ht Himage Hlim) as [Hs Hf].
    unfold transport_Dial, dialTimeRefusal, credentialedStdioRefusal, entryNetwork, ResolveNetwork, ValidateWrapperArgs.
    cbn [SpTransport specFor]. rewrite Ht, !(bool_decide_false (TransportOCI = TransportStdio)), !bool_decide_true by done. fold (specFor entry).
    cbn [negb orb]. cbv zeta. destruct (wrapperNetwork (Args entry)) as [network|e].
    + destruct (oci_ValidateEnvVarNames (EnvVarNames entry)) as [e|].
      * split; [done|]. intros _. apply Hf. by intros network' [= <-].
      * split; [|by intros [?|?]]. intros _ _. exists network. split; [done|]. by apply Hs.
    + split; [done|]. intros _. by apply Hf.
  - set (d := Build_transportDialer _ _ _ _). destruct (rest_meets d entry env Hr Ht Hauth Hnames eq_refl) as [Hs Hf].
    unfold transport_Dial, credentialedStdioRefusal, entryNetwork. cbn [SpTransport specFor]. rewrite Ht. fold (specFor entry).
    rewrite !(bool_decide_false (TransportHTTP = TransportStdio)), !(bool_decide_false (TransportHTTP = TransportOCI)), (bool_decide_true (TransportHTTP = TransportHTTP)) by done.
    cbn [negb orb]. cbv zeta. split; [|by intros [?|?]; [apply Hf|]]. intros Hv _. exists stdioNetwork. split; [done|]. by apply Hs.
Qed.
End agreement.

(** ** Witness *)

Definition demo_cases : UpstreamServer :=
  {| Name := "casemgmt"; STransport := TransportOCI; Command := ""; Args := ["--network=backends"]; Image := "localhost/cases" +:+ demo_digest;
     URL := ""; EnvVarNames := ["CASES_TOKEN"]; SAuthKind := AuthNone; AuthName := ""; Operations := ""; CreatedAt := zero_time; UpdatedAt := zero_time |}.

Definition demo_credentials : gmap string string := {[ "CASES_TOKEN" := "s3cret" ]}.

Lemma demo_resolved (entry : UpstreamServer) : EnvVarNames entry = ["CASES_TOKEN"] -> resolved_for entry demo_credentials.
Proof.
  intros He. split.
  - intros n. rewrite He. unfold demo_credentials. set_solver.
  - intros n v. unfold demo_credentials. by intros [_ <-]%lookup_singleton_Some.
Qed.

(** The same backend as a local process. *)
Definition demo_process : UpstreamServer :=
  {| Name := "casemgmt"; STransport := TransportStdio; Command := "/usr/bin/cases"; Args := []; Image := "";
     URL := ""; EnvVarNames := ["CASES_TOKEN"]; SAuthKind := AuthNone; AuthName := ""; Operations := ""; CreatedAt := zero_time; UpdatedAt := zero_time |}.

Section demo.
#[local] Existing Instances demo_floats demo_environ listed_order AuditLog.demo_tables RestEgress.demo_parser RestRequest.demo_urls Redact.demo_print
  ConfigLoad.demo_toml Registry.demo_url.

Definition demo_dialer : transportDialer :=
  match newTransportDialer demo_loaded true with
  | Some d => d
  | None => {| td_stdio := []; td_oci := {| podman := ""; cleanupEnv := []; cleanupGrace := 0; limits := DefaultLimits |};
               td_resthttp := rest_New true []; allowCredentialedStdio := false |}
  end.

Lemma console_refuses_what_the_dialer_refuses_witness :
  starts (transport_Dial demo_dialer (specFor demo_cases) demo_credentials) demo_cases "backends"
  /\ refused (transport_Dial demo_dialer (specFor demo_process) demo_credentials).
Proof.
  assert (Hload : demo_load (demo_files "n1") = Ok demo_loaded) by (by vm_compute).
  destruct (console_refuses_what_the_dialer_refuses demo_port (demo_files "n1") None _ _ Hload) as (d & Hd & H).
  assert (demo_dialer = d) as -> by (unfold demo_dialer; by rewrite Hd). split.
  - destruct (H demo_cases demo_credentials) as [Hs _]; [by vm_compute|by apply demo_resolved|].
    destruct Hs as (network & Hn & Hs); [by vm_compute..|]. assert (network = "backends") as <-; [|exact Hs].
    assert (He : entryNetwork demo_cases = Ok "backends") by (by vm_compute). congruence.
  - destruct (H demo_process demo_credentials) as [_ Hf]; [by vm_compute|by apply demo_resolved|]. apply Hf. right. by vm_compute.
Defined.
End demo.
