(* ===== verification/Reload.v ===== *)
(** * What a reload changes ([internal/reload/reload.go])

    The difference between the configuration in force and the one just read: who gains and loses which
    tool, which groups and accounts moved, and which keys wait for a restart.  The theorem says what the
    difference tells, what an empty one means, and the one change it does not see. *)
From Stdlib Require Import ZArith Lia Ascii SpecFloat.
From stdpp Require Import base strings list gmap sorting.
From S2P Require Import Prelude.
From S2P Require Import GoStrings.
From S2P Require Import Utf8.
From S2P Require Import Visible.
From S2P Require Import GoTime.
From S2P Require Import AuditLog.
From S2P Require Import Access.
From S2P Require Import Quota.
From S2P Require Import Redact.
From S2P Require Import ChildEnv.
From S2P Require Import OciPlan.
From S2P Require Import RestEgress.
From S2P Require Import RestRequest.
From S2P Require Import Config.
From S2P Require Import ConfigLoad.

(** ** [time.Duration.String] *)

(** [fmtFrac]: the last [prec] digits of [v] as a fraction without its trailing zeros, and the rest. *)
Fixpoint fmt_frac (prec : nat) (v : Z) (printing : bool) (acc : string) : string * Z :=
  match prec with
  | O => (if printing then "." +:+ acc else acc, v)
  | S prec =>
      let printing := printing || negb (v mod 10 =? 0) in
      fmt_frac prec (v / 10) printing (if printing then String (digit (v mod 10)) acc else acc)
  end.

Definition micro_sign : string := bytes [0xc2; 0xb5].

Definition duration_magnitude (u : Z) : string :=
  if u <? second then
    if u =? 0 then "0s"
    else
      let '(prec, unit) := if u <? 1000 then (0%nat, "n") else if u <? 1000000 then (3%nat, micro_sign) else (6%nat, "m") in
      let '(frac, v) := fmt_frac prec u false "" in
      dec v +:+ frac +:+ unit +:+ "s"
  else
    let '(frac, v) := fmt_frac 9 u false "" in
    let tail := dec (v mod 60) +:+ frac +:+ "s" in
    let minutes := v / 60 in
    if minutes =? 0 then tail
    else
      let tail := dec (minutes mod 60) +:+ "m" +:+ tail in
      let hours := minutes / 60 in
      if hours =? 0 then tail else dec hours +:+ "h" +:+ tail.

Definition duration_string (d : Z) : string := if d <? 0 then "-" +:+ duration_magnitude (- d) else duration_magnitude d.

Example duration_ex : duration_string (90 * minute + 1500000000) = "1h30m1.5s" /\ duration_string 1500 = "1.5" +:+ micro_sign +:+ "s"
  /\ duration_string (24 * 60 * minute) = "24h0m0s" /\ duration_string 0 = "0s".
Proof. by vm_compute. Qed.

(** ** The changes *)

Definition Reloadable : list string := ["role"; "group_to_role"; "quota"; "roles_file"].

Record RoleChange := {
  rc_role : string; Added : bool; Removed : bool; Gained : list string; Lost : list string;
  GrantsAdded : list string; GrantsRemoved : list string; NonReadChanged : bool; rc_non_read : bool
}.
Record GroupChange := { gc_group : string; gc_from : string; gc_to : string }.
Record QuotaChange := { qc_account : string; qc_change : string; qc_from : string; qc_to : string }.

Record Changes := {
  c_roles : list RoleChange; c_groups : list GroupChange; c_quota : list QuotaChange;
  FreeToolsChanged : bool; c_not_reloaded : list string
}.

(** [len(xs) == 0]. *)
Definition none {A} (xs : list A) : bool := match xs with [] => true | _ => false end.

Definition Empty (c : Changes) : bool :=
  none (c_roles c) && none (c_groups c) && none (c_quota c) && negb (FreeToolsChanged c).

(** A map of the entries of a list, the last under a key standing. *)
Definition by_name {A} (name : A -> string) (l : list A) : gmap string A := foldl (fun m x => <[name x := x]> m) ∅ l.

(** The keys of both maps, sorted. *)
Definition all_names {A B} (before : gmap string A) (after : gmap string B) : list string :=
  sort_strings (sort_strings (map fst (map_to_list before))
                ++ filter (fun n => before !! n = None) (map fst (map_to_list after))).

(** What is in the first set and not in the second, sorted. *)
Definition only_in (a b : gset string) : list string := sort_strings (elements (a ∖ b)).

Definition reach (r : FileRole) (routed : list string) : gset string :=
  list_to_set (filter (fun t => Allows (toAccess r) t = true) routed).

(** The zero [config.Role]. *)
Definition no_role : FileRole := {| f_name := ""; f_tools := None; f_grants := ∅; f_non_read := false |}.

Definition grantSet (r : FileRole) : gset string :=
  list_to_set (default [] (f_tools r) ++ flat_map (fun e => map (fun t => e.1 +:+ "." +:+ t) e.2) (map_to_list (f_grants r))).

Definition role_change (n : string) (before after : option FileRole) (routed : list string) : RoleChange :=
  let b := default no_role before in
  let a := default no_role after in
  let rb := match before with Some b => reach b routed | None => ∅ end in
  let ra := match after with Some a => reach a routed | None => ∅ end in
  let had := bool_decide (before <> None) in
  let has := bool_decide (after <> None) in
  {| rc_role := n; Added := negb had; Removed := negb has; Gained := only_in ra rb; Lost := only_in rb ra;
     GrantsAdded := only_in (grantSet a) (grantSet b); GrantsRemoved := only_in (grantSet b) (grantSet a);
     NonReadChanged := had && has && negb (eqb (f_non_read b) (f_non_read a)); rc_non_read := f_non_read a |}.

Definition role_changed (ch : RoleChange) : bool :=
  Added ch || Removed ch || negb (none (Gained ch)) || negb (none (Lost ch)) || negb (none (GrantsAdded ch))
  || negb (none (GrantsRemoved ch)) || NonReadChanged ch.

Definition roleChanges (old next : list FileRole) (routed : list string) : list RoleChange :=
  let before := by_name f_name old in
  let after := by_name f_name next in
  filter (fun ch => role_changed ch = true) (map (fun n => role_change n (before !! n) (after !! n) routed) (all_names before after)).

(** [old[k]] of a missing key is the empty text. *)
Definition groupChanges (old next : gmap string string) : list GroupChange :=
  omap (fun k => let was := default "" (old !! k) in let now := default "" (next !! k) in
                 if bool_decide (was = now) then None else Some {| gc_group := k; gc_from := was; gc_to := now |})
       (all_names old next).

Definition quotaSummary (p : Provider) : string :=
  dec (Limit p) +:+ " per " +:+ duration_string (Window p) +:+ " on " +:+ Upstream p +:+ ": "
  +:+ String.concat ", " (sort_strings (PTools p)).

Definition quota_change (n : string) (before after : option Provider) : option QuotaChange :=
  match before, after with
  | None, Some a => Some {| qc_account := n; qc_change := "added"; qc_from := ""; qc_to := quotaSummary a |}
  | Some b, None => Some {| qc_account := n; qc_change := "removed"; qc_from := quotaSummary b; qc_to := "" |}
  | Some b, Some a =>
      if bool_decide (quotaSummary a = quotaSummary b) then None
      else Some {| qc_account := n; qc_change := "changed"; qc_from := quotaSummary b; qc_to := quotaSummary a |}
  | None, None => None
  end.

Definition quotaChanges (old next : list Provider) : list QuotaChange :=
  let before := by_name PName old in
  let after := by_name PName next in
  omap (fun n => quota_change n (before !! n) (after !! n)) (all_names before after).

(** ** What waits for a restart *)

Definition NotServe : list string := ["signer.key_file"; "idp"; "connect"; "admin"].

Definition notServe (key : string) : bool := existsb (fun k => bool_decide (key = k) || has_prefix key (k +:+ ".")) NotServe.

(** A top-level field by its TOML key: compared as a whole, or a struct whose fields are. *)
Definition comparison : Type := Config -> Config -> bool.
Inductive config_field := Whole (key : string) (differs : comparison) | Struct (key : string) (fields : list (string * comparison)).

(** [!reflect.DeepEqual] of a field. *)
Definition differ {A} `{EqDecision A} (f : Config -> A) : comparison := fun a b => negb (bool_decide (f a = f b)).

(** A pointer to a number compares by Go's [==] of what it points to. *)
Definition differ_float (f : Config -> option float64) : comparison := fun a b =>
  match f a, f b with
  | None, None => false
  | Some x, Some y => negb (SFeqb x y)
  | _, _ => true
  end.

#[global] Instance SIEM_eq_dec : EqDecision SIEM.
Proof. solve_decision. Defined.
#[global] Instance Provider_eq_dec : EqDecision Provider.
Proof. solve_decision. Defined.
#[global] Instance FileRole_eq_dec : EqDecision FileRole.
Proof. solve_decision. Defined.

(** The fields of [config.Config], as reflection walks them. *)
Definition config_fields : list config_field := [
  Whole "listen" (differ listen); Whole "database" (differ database);
  Struct "oidc" [("issuer", differ (fun c => o_issuer (oidc c))); ("audience", differ (fun c => o_audience (oidc c)));
                 ("groups_claim", differ (fun c => o_groups_claim (oidc c)));
                 ("authorization_servers", differ (fun c => o_authorization_servers (oidc c)));
                 ("scopes_supported", differ (fun c => o_scopes_supported (oidc c)))];
  Struct "vault" [("secrets_file", differ (fun c => v_secrets_file (vault c))); ("age_key_file", differ (fun c => v_age_key_file (vault c)))];
  Struct "signer" [("key_file", differ (fun c => s_key_file (signer c))); ("trusted_keys", differ (fun c => s_trusted_keys (signer c)));
                   ("require_signed", differ (fun c => s_require_signed (signer c)))];
  Struct "quarantine" [("refresh_interval", differ (fun c => q_refresh_interval (quarantine c)))];
  Struct "response" [("max_bytes", differ (fun c => r_max_bytes (response c))); ("call_timeout", differ (fun c => r_call_timeout (response c)));
                     ("max_concurrent_calls_per_analyst", differ (fun c => r_max_concurrent (response c)))];
  Struct "audit" [("siem", differ siem)];
  Struct "quota" [("provider", differ (fun c => q_providers (quota c))); ("free_tools", differ (fun c => q_free_tools (quota c)))];
  Struct "telemetry" [("address", differ (fun c => t_address (telemetry c))); ("transport", differ (fun c => t_transport (telemetry c)));
                      ("tls", differ (fun c => t_tls (telemetry c))); ("tls_ca_file", differ (fun c => t_tls_ca_file (telemetry c)));
                      ("host", differ (fun c => t_host (telemetry c))); ("cliente_soc", differ (fun c => t_cliente_soc (telemetry c)));
                      ("buffer", differ (fun c => t_buffer (telemetry c)))];
  Struct "oci" [("user", differ (fun c => oci_user (oci c))); ("pids_limit", differ (fun c => oci_pids_limit (oci c)));
                ("memory", differ (fun c => oci_memory (oci c))); ("cpus", differ_float (fun c => oci_cpus (oci c)))];
  Struct "upstreams" [("allow_credentialed_stdio", differ allow_credentialed_stdio)];
  Struct "idp" [("users_file", differ users_file)];
  Struct "connect" [("client_id", differ (fun c => n_client_id (connect c))); ("callback_port", differ (fun c => n_callback_port (connect c)));
                    ("ca_file", differ (fun c => n_ca_file (connect c))); ("server_name", differ (fun c => n_server_name (connect c)))];
  Struct "admin" [("operator_group", differ (fun c => a_operator_group (admin c))); ("account_group", differ (fun c => a_account_group (admin c)));
                  ("console_manages", differ (fun c => a_console_manages (admin c)))];
  Struct "analyst" [("contact", differ (fun c => y_contact (analyst c))); ("backend_notes", differ (fun c => y_backend_notes (analyst c)))];
  Whole "roles_file" (differ roles_file); Whole "role" (differ cfg_roles); Whole "group_to_role" (differ group_to_role)].

Definition field_changes (old next : Config) (f : config_field) : list string :=
  match f with
  | Whole key differs =>
      if bool_decide (key ∈ Reloadable) then [] else if negb (notServe key) && differs old next then [key] else []
  | Struct key fields =>
      if bool_decide (key ∈ Reloadable) then []
      else omap (fun e => let sub := key +:+ "." +:+ e.1 in
                          if negb (notServe sub) && (e.2 : comparison) old next then Some sub else None) fields
  end.

Definition NotReloaded (old next : Config) : list string := sort_strings (flat_map (field_changes old next) config_fields).

Definition Diff (old next : Config) (routed : list string) : Changes :=
  {| c_roles := roleChanges (cfg_roles old) (cfg_roles next) routed;
     c_groups := groupChanges (group_to_role old) (group_to_role next);
     c_quota := quotaChanges (q_providers (quota old)) (q_providers (quota next));
     FreeToolsChanged := negb (bool_decide (sort_strings (q_free_tools (quota old)) = sort_strings (q_free_tools (quota next))));
     c_not_reloaded := NotReloaded old next |}.

(** ** The line of the trail *)

Section summary.
Context `{PT : PrintTable}.

Definition orNone (s : string) : string := if bool_decide (s = "") then "(none)" else Quote s.

Definition marked (mark : string) (xs : list string) : string := String.concat "" (map (fun x => mark +:+ x) xs).

Definition role_part (r : RoleChange) : string :=
  "role " +:+ Quote (rc_role r)
  +:+ (if Added r then " added" else if Removed r then " removed" else "")
  +:+ marked " +" (Gained r) +:+ marked " -" (Lost r)
  +:+ (if (0 <? length (GrantsAdded r) + length (GrantsRemoved r))%nat && negb (Added r) && negb (Removed r)
       then " grant" +:+ marked " +" (GrantsAdded r) +:+ marked " -" (GrantsRemoved r) else "")
  +:+ (if NonReadChanged r then " non_read=" +:+ (if rc_non_read r then "true" else "false") else "").

Definition summary_cut : string := " ... (truncated; the full diff is in the request result)".

Definition Summary (c : Changes) (max : Z) : string :=
  let parts := map role_part (c_roles c)
    ++ map (fun g => "group " +:+ Quote (gc_group g) +:+ ": " +:+ orNone (gc_from g) +:+ " -> " +:+ orNone (gc_to g)) (c_groups c)
    ++ map (fun q => "quota " +:+ Quote (qc_account q) +:+ " " +:+ qc_change q) (c_quota c)
    ++ (if FreeToolsChanged c then ["quota.free_tools changed"] else []) in
  let parts := if none parts then ["no change to roles, groups or quota"] else parts in
  let out := String.concat "; " parts
    +:+ (if none (c_not_reloaded c) then "" else "; NOT applied until restart: " +:+ String.concat ", " (c_not_reloaded c)) in
  if (0 <? max) && (max <? blen out) then
    let n := Z.max 0 (max - blen summary_cut) in
    str_take (cut_at out (Z.to_nat n)) out +:+ summary_cut
  else out.
End summary.

(** ** Facts *)

Lemma none_nil {A} (xs : list A) : none xs = true <-> xs = [].
Proof. by destruct xs. Qed.

Lemma by_name_foldl {A} (name : A -> string) l (m : gmap string A) n x : NoDup (map name l) ->
  (foldl (fun m x => <[name x := x]> m) m l !! n = Some x <-> (x ∈ l /\ name x = n) \/ (n ∉ map name l /\ m !! n = Some x)).
Proof.
  revert m. induction l as [|y l IH]; intros m; cbn [foldl map].
  { intros _. split; [intros H; right; split; [by apply not_elem_of_nil|done]|]. by intros [[?%elem_of_nil _]|[_ ?]]. }
  intros [Hy Hnd]%NoDup_cons. rewrite (IH _ Hnd), elem_of_cons, not_elem_of_cons. destruct (decide (name y = n)) as [<-|Hne].
  - rewrite lookup_insert_eq. split; [intros [[? ?]|[_ [= ->]]]; auto|]. intros [[[-> | Hx] Hn]|[[? _] _]]; [by right|by left; split|done].
  - rewrite lookup_insert_ne by done. split; [intros [[? ?]|[? ?]]; [auto|right; split; [split|]; congruence]|].
    intros [[[-> | Hx] Hn]|[[_ ?] ?]]; [done|by left|by right].
Qed.

Lemma by_name_lookup {A} (name : A -> string) l n x : NoDup (map name l) -> by_name name l !! n = Some x <-> x ∈ l /\ name x = n.
Proof. intros Hnd. unfold by_name. rewrite by_name_foldl by done. rewrite lookup_empty. naive_solver. Qed.

Lemma elem_of_keys {A} (m : gmap string A) n : n ∈ map fst (map_to_list m) <-> is_Some (m !! n).
Proof.
  rewrite list_elem_of_fmap. split.
  - intros ([? x] & -> & H%elem_of_map_to_list). eauto.
  - intros [x H]. exists (n, x). split; [done|]. by apply elem_of_map_to_list.
Qed.

Lemma elem_of_all_names {A B} (before : gmap string A) (after : gmap string B) n :
  n ∈ all_names before after <-> is_Some (before !! n) \/ is_Some (after !! n).
Proof.
  unfold all_names. rewrite elem_of_sort_strings, elem_of_app, elem_of_sort_strings, list_elem_of_filter, !elem_of_keys.
  rewrite eq_None_not_Some. destruct (decide (is_Some (before !! n))); naive_solver.
Qed.

Lemma elem_of_only_in (a b : gset string) t : t ∈ only_in a b <-> t ∈ a /\ t ∉ b.
Proof. unfold only_in. by rewrite elem_of_sort_strings, elem_of_elements, elem_of_difference. Qed.

Lemma elem_of_reach r routed t : t ∈ reach r routed <-> t ∈ routed /\ Allows (toAccess r) t = true.
Proof. unfold reach. rewrite elem_of_list_to_set, list_elem_of_filter. naive_solver. Qed.

(** ** What the difference tells *)

(** Holders of the role reach the tool. *)
Definition reaches (p : Policy) (n tool : string) : Prop := exists r, roles p !! n = Some r /\ Allows r tool = true.

Section tells.
Context `{MR : MapRange}.

Lemma policy_roles c p n : ToAccessPolicy c = Ok p -> roles p !! n = toAccess <$> (by_name f_name (cfg_roles c) !! n).
Proof.
  intros (_ & Hnd & _ & Hl & _)%NewPolicy_Ok_inv. assert (Hnd' : NoDup (map f_name (cfg_roles c))).
  { by rewrite map_map in Hnd. }
  rewrite Hl. destruct (by_name f_name (cfg_roles c) !! n) as [r|] eqn:Hr; cbn [fmap option_fmap option_map].
  - apply (by_name_lookup f_name) in Hr as [Hin <-]; [|done]. apply (find_role_unique _ (toAccess r) Hnd).
    apply list_elem_of_fmap. by exists r.
  - destruct (List.find _ _) as [x|] eqn:Hf; [|done]. apply find_role_Some in Hf as [Hin Hn].
    apply list_elem_of_fmap in Hin as (r & -> & Hin). assert (by_name f_name (cfg_roles c) !! n = Some r) by (by apply by_name_lookup). congruence.
Qed.

Lemma policy_groups c p : ToAccessPolicy c = Ok p -> groupToRole p = group_to_role c.
Proof.
  intros (_ & _ & _ & _ & ->)%NewPolicy_Ok_inv. apply map_eq. intros g. apply option_eq. intros n.
  assert (Hnd : NoDup (map fst (map_range (group_to_role c)))).
  { change (NoDup ((map_range (group_to_role c)).*1)). rewrite map_range_perm. apply NoDup_fst_map_to_list. }
  rewrite foldl_insert_lookup by done. rewrite lookup_empty. rewrite map_range_perm, elem_of_map_to_list. naive_solver.
Qed.

Lemma policy_group_names c p g n : ToAccessPolicy c = Ok p -> group_to_role c !! g = Some n -> n <> "".
Proof.
  intros Hp Hg. pose proof (NewPolicy_wf _ _ _ Hp) as Hwf. assert (Hnd : NoDup (map fst (map_range (group_to_role c)))).
  { change (NoDup ((map_range (group_to_role c)).*1)). rewrite map_range_perm. apply NoDup_fst_map_to_list. }
  destruct (Hwf Hnd) as [Hr Hm]. rewrite <- (policy_groups _ _ Hp) in Hg. destruct (Hm _ _ Hg) as [_ [r Hl]].
  destruct (Hr _ _ Hl) as [<- Hv]. intros He. revert Hv. unfold ValidateRole. rewrite He, !app_nil_iff. intros (_ & ? & _). done.
Qed.

Lemma reaches_by_name c p n t : ToAccessPolicy c = Ok p ->
  reaches p n t <-> exists r, by_name f_name (cfg_roles c) !! n = Some r /\ Allows (toAccess r) t = true.
Proof.
  intros Hp. unfold reaches. rewrite (policy_roles _ _ _ Hp). split.
  - intros (r & (r0 & -> & ->)%fmap_Some & Ha). eauto.
  - intros (r & -> & Ha). by exists (toAccess r).
Qed.

(** What [role_change] says of a routed tool. *)
Lemma change_tells co cn po pn routed n t : ToAccessPolicy co = Ok po -> ToAccessPolicy cn = Ok pn -> t ∈ routed ->
  let ch := role_change n (by_name f_name (cfg_roles co) !! n) (by_name f_name (cfg_roles cn) !! n) routed in
  (t ∈ Gained ch <-> reaches pn n t /\ ~ reaches po n t) /\ (t ∈ Lost ch <-> reaches po n t /\ ~ reaches pn n t).
Proof.
  intros Ho Hn Ht. cbv zeta. unfold role_change. cbn [Gained Lost]. rewrite !elem_of_only_in, (reaches_by_name _ _ _ _ Ho), (reaches_by_name _ _ _ _ Hn).
  destruct (by_name f_name (cfg_roles co) !! n) as [b|], (by_name f_name (cfg_roles cn) !! n) as [a|];
    rewrite ?elem_of_reach, ?elem_of_empty; naive_solver.
Qed.

Lemma elem_of_roleChanges old next routed ch : ch ∈ roleChanges old next routed <->
  exists n, (is_Some (by_name f_name old !! n) \/ is_Some (by_name f_name next !! n))
    /\ ch = role_change n (by_name f_name old !! n) (by_name f_name next !! n) routed /\ role_changed ch = true.
Proof.
  unfold roleChanges. rewrite list_elem_of_filter, list_elem_of_fmap. setoid_rewrite elem_of_all_names. naive_solver.
Qed.

Lemma told (l : list string) ch t (Hl : l = Gained ch \/ l = Lost ch) : t ∈ l -> role_changed ch = true.
Proof.
  intros Ht. unfold role_changed. assert (Hnl : none l = false) by (destruct l; [by apply elem_of_nil in Ht|done]).
  destruct Hl as [-> | ->]; rewrite Hnl; cbn [negb]; by rewrite ?orb_true_r, ?orb_true_l.
Qed.

Lemma diff_tells co cn po pn routed n t : ToAccessPolicy co = Ok po -> ToAccessPolicy cn = Ok pn -> t ∈ routed ->
  let told_by (f : RoleChange -> list string) := exists ch, ch ∈ c_roles (Diff co cn routed) /\ rc_role ch = n /\ t ∈ f ch in
  (told_by Gained <-> reaches pn n t /\ ~ reaches po n t) /\ (told_by Lost <-> reaches po n t /\ ~ reaches pn n t).
Proof.
  intros Ho Hn Ht. destruct (change_tells co cn po pn routed n t Ho Hn Ht) as [Hg Hlost]. cbv zeta. cbn [c_roles Diff].
  assert (Hin : forall f, (f = Gained \/ f = Lost) ->
    (exists ch, ch ∈ roleChanges (cfg_roles co) (cfg_roles cn) routed /\ rc_role ch = n /\ t ∈ f ch) <->
    t ∈ f (role_change n (by_name f_name (cfg_roles co) !! n) (by_name f_name (cfg_roles cn) !! n) routed)).
  { intros f Hf. split.
    - intros (ch & (m & _ & -> & _)%elem_of_roleChanges & <- & Htf). done.
    - intros Htf. eexists. split; [|split; [|exact Htf]; done]. apply elem_of_roleChanges. exists n. split; [|split; [done|]].
      + destruct (by_name f_name (cfg_roles co) !! n) eqn:E1; [eauto|]. destruct (by_name f_name (cfg_roles cn) !! n) eqn:E2; [eauto|].
        exfalso. destruct Hf as [-> | ->]; cbn [role_change Gained Lost] in Htf; apply elem_of_only_in in Htf as [H _]; by apply elem_of_empty in H.
      + destruct Hf as [-> | ->]; (eapply told; [|exact Htf]; auto). }
  split; [rewrite Hin; auto|rewrite Hin; auto].
Qed.
End tells.

(** ** What an empty difference means *)

Section empty.
Context `{MR : MapRange}.

Lemma Empty_spec c : Empty c = true <-> c_roles c = [] /\ c_groups c = [] /\ c_quota c = [] /\ FreeToolsChanged c = false.
Proof. unfold Empty. rewrite !andb_true_iff, !none_nil, negb_true_iff. tauto. Qed.

Lemma groups_unchanged co cn po pn : ToAccessPolicy co = Ok po -> ToAccessPolicy cn = Ok pn ->
  groupChanges (group_to_role co) (group_to_role cn) = [] -> group_to_role co = group_to_role cn.
Proof.
  intros Ho Hn H. apply map_eq. intros g.
  assert (Hd : default "" (group_to_role co !! g) = default "" (group_to_role cn !! g)).
  { destruct (group_to_role co !! g) as [x|] eqn:E1, (group_to_role cn !! g) as [y|] eqn:E2; cbn; try done.
    all: destruct (decide (g ∈ all_names (group_to_role co) (group_to_role cn))) as [Hin|Hout];
         [|exfalso; apply Hout, elem_of_all_names; eauto].
    all: unfold groupChanges in H; destruct (bool_decide_reflect (default "" (group_to_role co !! g) = default "" (group_to_role cn !! g))) as [He|He];
         [by rewrite E1, E2 in He|].
    all: exfalso; eapply (not_elem_of_nil); erewrite <- H; apply list_elem_of_omap; exists g; split; [done|]; cbv zeta;
         by rewrite bool_decide_false. }
  destruct (group_to_role co !! g) as [x|] eqn:E1, (group_to_role cn !! g) as [y|] eqn:E2; cbn in Hd; subst; try done.
  - by pose proof (policy_group_names _ _ _ _ Ho E1).
  - by pose proof (policy_group_names _ _ _ _ Hn E2).
Qed.

Lemma reaches_dec p n t : Decision (reaches p n t).
Proof.
  unfold reaches. destruct (roles p !! n) as [r|]; [|right; by intros (? & ? & _)].
  destruct (Allows r t) eqn:Ha; [left; eauto|right]. intros (? & [= <-] & ?). congruence.
Qed.

Lemma Authorize_reaches p id t : Authorize p id t = Ok tt <-> exists g n, g ∈ Groups id /\ groupToRole p !! g = Some n /\ reaches p n t.
Proof.
  rewrite Authorize_spec. setoid_rewrite elem_of_RolesFor. split.
  - intros (r & (g & n & Hg & Hn & ->) & Ha). exists g, n. split_and!; [done..|]. unfold reaches.
    destruct (roles p !! n) as [r|]; [eauto|]. by vm_compute in Ha.
  - intros (g & n & Hg & Hn & r & Hr & Ha). exists r. split; [|done]. exists g, n. by rewrite Hr.
Qed.

Lemma empty_keeps_reach co cn po pn routed id t : ToAccessPolicy co = Ok po -> ToAccessPolicy cn = Ok pn ->
  Empty (Diff co cn routed) = true -> t ∈ routed -> Authorize pn id t = Authorize po id t.
Proof.
  intros Ho Hn (Hroles & Hgroups & _)%Empty_spec Ht. cbn [c_roles c_groups Diff] in *.
  pose proof (groups_unchanged _ _ _ _ Ho Hn Hgroups) as Hg. assert (Hreach : forall n, reaches pn n t <-> reaches po n t).
  { intros n. destruct (diff_tells co cn po pn routed n t Ho Hn Ht) as [Hgain Hlose]. cbn [c_roles Diff] in *. rewrite Hroles in *.
    assert (Hno : forall f : RoleChange -> list string, ~ exists ch, ch ∈ ([] : list RoleChange) /\ rc_role ch = n /\ t ∈ f ch) by (by intros f (ch & ?%elem_of_nil & _)).
    destruct (reaches_dec pn n t), (reaches_dec po n t); try tauto; exfalso; [apply (Hno Gained)|apply (Hno Lost)]; tauto. }
  assert (Hiff : Authorize pn id t = Ok tt <-> Authorize po id t = Ok tt).
  { rewrite !Authorize_reaches, (policy_groups _ _ Ho), (policy_groups _ _ Hn), Hg. by setoid_rewrite Hreach. }
  unfold Authorize in *. destruct (existsb _ (RolesFor pn id)), (existsb _ (RolesFor po id)); try done; exfalso; naive_solver.
Qed.
End empty.

(** ** What is left for a restart *)

(** [serve_control.go]: the configuration in force after a reload. *)
Definition applied (old next : Config) : Config :=
  {| listen := listen old; database := database old; oidc := oidc old; vault := vault old; signer := signer old; quarantine := quarantine old;
     response := response old; siem := siem old; quota := quota next; telemetry := telemetry old; oci := oci old;
     allow_credentialed_stdio := allow_credentialed_stdio old; users_file := users_file old; connect := connect old; admin := admin old;
     analyst := analyst old; roles_file := roles_file next; cfg_roles := cfg_roles next; group_to_role := group_to_role next |}.

(** The keys the serving process reads: all but those of [NotServe]. *)
Definition serve_reads (c : Config) : Config :=
  {| listen := listen c; database := database c; oidc := oidc c; vault := vault c;
     signer := {| s_key_file := ""; s_trusted_keys := s_trusted_keys (signer c); s_require_signed := s_require_signed (signer c) |};
     quarantine := quarantine c; response := response c; siem := siem c; quota := quota c; telemetry := telemetry c; oci := oci c;
     allow_credentialed_stdio := allow_credentialed_stdio c; users_file := "";
     connect := {| n_client_id := ""; n_callback_port := 0; n_ca_file := ""; n_server_name := "" |};
     admin := {| a_operator_group := ""; a_account_group := ""; a_console_manages := false |};
     analyst := analyst c; roles_file := roles_file c; cfg_roles := cfg_roles c; group_to_role := group_to_role c |}.

Lemma differ_false {A} `{EqDecision A} (f : Config -> A) a b : differ f a b = false -> f a = f b.
Proof. unfold differ. by intros ?%negb_false_iff%bool_decide_eq_true. Qed.

Lemma float_equal m e m' e' : SFeqb (S754_finite false m e) (S754_finite false m' e') = true -> (m, e) = (m', e').
Proof.
  unfold SFeqb, SFcompare. destruct (Z.compare_spec e e') as [->|?|?]; try done.
  change (Pos.compare_cont Eq m m') with (Pos.compare m m'). by destruct (Pos.compare_spec m m') as [->|?|?].
Qed.

Lemma cpus_equal old next : ValidateLimits (ociLimits (oci old)) = None -> ValidateLimits (ociLimits (oci next)) = None ->
  differ_float (fun c => oci_cpus (oci c)) old next = false -> oci_cpus (oci old) = oci_cpus (oci next).
Proof.
  rewrite !ValidateLimits_None. intros (_ & _ & _ & m & e & H1 & _) (_ & _ & _ & m' & e' & H2 & _). unfold differ_float, ociLimits in *. cbn [CPUs] in *.
  destruct (oci_cpus (oci old)) as [x|], (oci_cpus (oci next)) as [y|]; try done. cbn in H1, H2. subst.
  intros [= -> ->]%negb_false_iff%float_equal. done.
Qed.

Lemma whole_kept old next key d : field_changes old next (Whole key d) = [] -> bool_decide (key ∈ Reloadable) = false -> notServe key = false -> d old next = false.
Proof. cbn [field_changes]. intros H Hr Hs. rewrite Hr, Hs in H. by destruct (d old next). Qed.

Lemma struct_kept old next key fields : field_changes old next (Struct key fields) = [] -> bool_decide (key ∈ Reloadable) = false ->
  Forall (fun e : string * comparison => notServe (key +:+ "." +:+ e.1) = false -> e.2 old next = false) fields.
Proof.
  cbn [field_changes]. intros H Hr. rewrite Hr in H. induction fields as [|e fields IH]; [constructor|].
  cbn [omap list_omap] in H. cbv zeta in H. destruct (negb (notServe (key +:+ "." +:+ e.1)) && (e.2 : comparison) old next) eqn:Hd; [done|].
  constructor; [|by apply IH]. intros Hs. by rewrite Hs in Hd.
Qed.

Lemma all_kept old next : NotReloaded old next = [] -> Forall (fun f => field_changes old next f = []) config_fields.
Proof.
  unfold NotReloaded. intros H%(f_equal length). rewrite (Permutation_length (sort_strings_Permutation _)) in H.
  apply nil_length_inv in H. rewrite flat_map_nil in H. by apply Forall_forall.
Qed.

(** The fields of one section that a restart is not waited for. *)
Ltac kept H :=
  apply struct_kept in H; [|by vm_compute]; rewrite ?Forall_cons in H;
  repeat match goal with
  | H' : _ /\ _ |- _ => destruct H'
  | H' : notServe ?key = false -> _ |- _ => cbn [fst snd] in H'; first [specialize (H' eq_refl) | clear H']
  | H' : differ _ _ _ = false |- _ => apply differ_false in H'
  end.

Lemma nothing_left old next : ValidateLimits (ociLimits (oci old)) = None -> ValidateLimits (ociLimits (oci next)) = None ->
  NotReloaded old next = [] -> serve_reads (applied old next) = serve_reads next.
Proof.
  intros H1 H2. pose proof (cpus_equal _ _ H1 H2) as Hcpus. clear H1 H2. intros H%all_kept. unfold config_fields in H. rewrite !Forall_cons in H.
  destruct H as (Hlisten & Hdb & Hoidc & Hvault & Hsigner & Hquar & Hresp & Haudit & _ & Htel & Hoci & Hup & _ & _ & _ & Hanalyst & _).
  apply whole_kept in Hlisten; [|by vm_compute..]. apply whole_kept in Hdb; [|by vm_compute..].
  kept Hoidc. kept Hvault. kept Hsigner. kept Hquar. kept Hresp. kept Haudit. kept Htel. kept Hoci. kept Hup. kept Hanalyst.
  match goal with H : differ_float _ _ _ = false |- _ => apply Hcpus in H end. clear Hcpus. destruct old, next. cbn in *.
  repeat match goal with
  | x : OIDC |- _ => destruct x | x : Vault |- _ => destruct x | x : Signer |- _ => destruct x | x : QuarantineCfg |- _ => destruct x
  | x : Response |- _ => destruct x | x : Telemetry |- _ => destruct x | x : OCI |- _ => destruct x | x : Analyst |- _ => destruct x
  end.
  cbn in *. by subst.
Qed.

(** ** The theorem *)

Section reload.
Context `{UT : UnicodeTables, AP : AddrParser, UP : UrlParser, MR : MapRange, TM : Toml}.
Context (LookupPort : string -> option Z) (cwd : option string).

End reload.

(** ** What it does not see, and witnesses *)

Section demo.
#[local] Existing Instances AuditLog.demo_tables RestEgress.demo_parser RestRequest.demo_urls OciPlan.listed_order.

Definition demo_with (rs : list FileRole) (groups : gmap string string) : Config :=
  with_roles demo_config "/etc/gatte/roles.toml" rs groups.

(** A non-read role that reaches [cases.close] by a grant, and the same role with the tool in its own list. *)
Definition demo_granted : FileRole :=
  {| f_name := "dfir"; f_tools := Some ["cases.read"]; f_grants := {[ "cases" := ["close"] ]}; f_non_read := true |}.
Definition demo_listed : FileRole :=
  {| f_name := "dfir"; f_tools := Some ["cases.read"; "cases.close"]; f_grants := ∅; f_non_read := true |}.

Definition demo_bia : Identity := {| Subject := "u-bia"; IdName := "Bia"; Groups := ["ir"] |}.

(** Fact [empty_difference_can_clear_a_tool]: the file's two spellings of a grant are one text in
    [grantSet], and reach is blind to the class of a tool: a reload that moves a tool from a non-read
    role's grants to its own list is reported as changing nothing, and its holders may act with it. *)
Theorem empty_difference_can_clear_a_tool :
  let old := demo_with [demo_granted] {[ "ir" := "dfir" ]} in
  let next := demo_with [demo_listed] {[ "ir" := "dfir" ]} in
  exists po pn, ToAccessPolicy old = Ok po /\ ToAccessPolicy next = Ok pn
    /\ Empty (Diff old next ["cases.read"; "cases.close"]) = true
    /\ AuthorizeNonRead po demo_bia "cases.close" <> Ok tt /\ AuthorizeNonRead pn demo_bia "cases.close" = Ok tt.
Proof. eexists _, _. split; [vm_compute; reflexivity|]. split; [vm_compute; reflexivity|]. vm_compute. done. Qed.

(** Two roles files: one role renamed, another tool. *)
#[local] Instance demo_toml' : Toml :=
  {| decode_config := fun _ => Some (demo_config, {| Keys := []; Undecoded := []; IsDefined := fun _ => false |});
     decode_roles := fun s => Some ([{| f_name := "n1"; f_tools := Some ["docs." +:+ s]; f_grants := ∅; f_non_read := false |}],
                                    {[ "soc" := "n1" ]}, {| Keys := []; Undecoded := []; IsDefined := fun _ => false |}) |}.

Definition demo_reload (tool : string) : result load_error Config := Load demo_port (demo_files tool) None "/etc/gatte/gatte.toml".
Definition demo_at (tool : string) : Config := match demo_reload tool with Ok c => c | Err _ => demo_config end.

End demo.
