(* ===== verification/Control.v ===== *)
(** * Operator requests and their store ([internal/control], [internal/control/sqlite])

    An operator's request to the running gateway is a row the gateway answers on.  [serve_process] and
    [serve_request] as the texts their columns hold, and [RecordProcess], [Process], [Submit], [Get],
    [Pending], [Finish] and [Abandon], each one statement.  The theorem: the tables implement a queue of
    numbered requests on which the first answer stands, for every history with faults anywhere. *)
From Stdlib Require Import ZArith Lia Ascii.
From stdpp Require Import base strings list.
From S2P Require Import Prelude.
From S2P Require Import GoStrings.
From S2P Require Import GoTime.

#[local] Opaque format_time parse_time.

(** ** Requests *)

Definition KindReload : string := "reload".
Definition KindRedial : string := "redial".
Definition StatePending : string := "pending".
Definition StateDone : string := "done".
Definition OutcomeApplied : string := "applied".
Definition OutcomeRefused : string := "refused".

Record Request := {
  ID : Z; Kind : string; Target : string; Actor : string; Tag : string; RequestedAt : time; State : string;
  DoneAt : time; Outcome : string; Result : string (* empty is nil *); Boot : time
}.

Record Process := { PID : Z; PBoot : time; StartToken : string }.

Inductive invalid_request := InvalidProcess | InvalidKind (kind : string) | NoTarget | TargetOfReload | NoActorOrTime | InvalidOutcome (o : string).

Inductive control_error :=
| ErrUnavailable | ErrNotFound | ErrNoProcess | ErrInvalid (e : invalid_request).

(** ** The tables *)

Record process_row := { p_pid : Z; p_boot : string; p_token : string }.

Record request_row := {
  q_id : Z; q_kind : string; q_target : string; q_actor : string; q_tag : string; q_requested : string; q_state : string;
  q_done : string; q_outcome : string; q_result : string; q_boot : string
}.

(** The rows of [serve_request] by id, and the largest id ever given ([AUTOINCREMENT]). *)
Record tables := { serve_process : option process_row; serve_request : list request_row; last_id : Z }.

Definition no_tables : tables := {| serve_process := None; serve_request := []; last_id := 0 |}.

Definition formatTime (t : time) : string := if IsZero t then "" else format_time (UTC t).

Definition parseTime (s : string) : option time := if bool_decide (s = "") then Some zero_time else parse_time s.

(** [fault]: the database refused the statement. *)
Definition RecordProcess (t : tables) (fault : bool) (p : Process) : tables * option control_error :=
  if (PID p <=? 0) || IsZero (PBoot p) then (t, Some (ErrInvalid InvalidProcess))
  else if fault then (t, Some ErrUnavailable)
  else ({| serve_process := Some {| p_pid := PID p; p_boot := formatTime (PBoot p); p_token := StartToken p |};
           serve_request := serve_request t; last_id := last_id t |}, None).

Definition read_process (t : tables) (fault : bool) : result control_error Process :=
  if fault then Err ErrUnavailable
  else match serve_process t with
       | None => Err ErrNoProcess
       | Some r => match parseTime (p_boot r) with
                   | None => Err ErrUnavailable
                   | Some boot => Ok {| PID := p_pid r; PBoot := boot; StartToken := p_token r |}
                   end
       end.

Definition submit_fault (r : Request) : option invalid_request :=
  if negb (bool_decide (Kind r = KindReload)) && negb (bool_decide (Kind r = KindRedial)) then Some (InvalidKind (Kind r))
  else if bool_decide (Kind r = KindRedial) && bool_decide (Target r = "") then Some NoTarget
  else if bool_decide (Kind r = KindReload) && negb (bool_decide (Target r = "")) then Some TargetOfReload
  else if bool_decide (Actor r = "") || IsZero (RequestedAt r) then Some NoActorOrTime
  else None.

Definition new_row (id : Z) (r : Request) : request_row :=
  {| q_id := id; q_kind := Kind r; q_target := Target r; q_actor := Actor r; q_tag := Tag r;
     q_requested := formatTime (RequestedAt r); q_state := StatePending;
     q_done := ""; q_outcome := ""; q_result := ""; q_boot := "" |}.

Definition Submit (t : tables) (fault : bool) (r : Request) : tables * result control_error Z :=
  match submit_fault r with
  | Some e => (t, Err (ErrInvalid e))
  | None =>
      if fault then (t, Err ErrUnavailable)
      else let id := last_id t + 1 in
           ({| serve_process := serve_process t; serve_request := serve_request t ++ [new_row id r]; last_id := id |}, Ok id)
  end.

Definition scanRequest (q : request_row) : option Request :=
  match parseTime (q_requested q), parseTime (q_done q), parseTime (q_boot q) with
  | Some requested, Some done, Some boot =>
      Some {| ID := q_id q; Kind := q_kind q; Target := q_target q; Actor := q_actor q; Tag := q_tag q;
              RequestedAt := requested; State := q_state q; DoneAt := done; Outcome := q_outcome q;
              Result := q_result q; Boot := boot |}
  | _, _, _ => None
  end.

Definition Get (t : tables) (fault : bool) (id : Z) : result control_error Request :=
  if fault then Err ErrUnavailable
  else match List.find (fun q => q_id q =? id) (serve_request t) with
       | None => Err ErrNotFound
       | Some q => match scanRequest q with Some r => Ok r | None => Err ErrUnavailable end
       end.

Fixpoint scan_requests (rows : list request_row) : result control_error (list Request) :=
  match rows with
  | [] => Ok []
  | q :: rest => match scanRequest q with
                 | None => Err ErrUnavailable
                 | Some r => out <-? scan_requests rest;; Ok (r :: out)
                 end
  end.

(** [ORDER BY id]: the order the rows are in. *)
Definition Pending (t : tables) (fault : bool) : result control_error (list Request) :=
  if fault then Err ErrUnavailable
  else scan_requests (List.filter (fun q => bool_decide (q_state q = StatePending)) (serve_request t)).

Definition finished (outcome result : string) (boot at_ : time) (q : request_row) : request_row :=
  {| q_id := q_id q; q_kind := q_kind q; q_target := q_target q; q_actor := q_actor q; q_tag := q_tag q;
     q_requested := q_requested q; q_state := StateDone; q_done := formatTime at_; q_outcome := outcome;
     q_result := result; q_boot := formatTime boot |}.

(** [WHERE id = ? AND state = ?]. *)
Definition finishes (id : Z) (q : request_row) : bool := (q_id q =? id) && bool_decide (q_state q = StatePending).

(** [fault] is the update's, [read_fault] that of the read which tells a missing request from an
    answered one. *)
Definition Finish (t : tables) (fault read_fault : bool) (id : Z) (outcome result : string) (boot at_ : time)
  : tables * option control_error :=
  if negb (bool_decide (outcome = OutcomeApplied)) && negb (bool_decide (outcome = OutcomeRefused))
  then (t, Some (ErrInvalid (InvalidOutcome outcome)))
  else if fault then (t, Some ErrUnavailable)
  else
    let rows := map (fun q => if finishes id q then finished outcome result boot at_ q else q) (serve_request t) in
    let t' := {| serve_process := serve_process t; serve_request := rows; last_id := last_id t |} in
    if existsb (finishes id) (serve_request t) then (t', None)
    else (t', match Get t' read_fault id with Err ErrNotFound => Some ErrNotFound | _ => None end).

Definition Abandon (t : tables) (fault read_fault : bool) (id : Z) (result : string) (at_ : time) : tables * option control_error :=
  Finish t fault read_fault id OutcomeRefused result zero_time at_.

(** ** The queue *)

Record answer := { a_outcome : string; a_result : string; a_boot : time; a_at : time }.

(** Request [i] of the list has id [i + 1]; an answered one keeps its answer. *)
Record queue := { process : option Process; requests : list (Request * option answer) }.

Inductive control_op :=
| OpRecordProcess (fault : bool) (p : Process)
| OpSubmit (fault : bool) (r : Request)
| OpFinish (fault read_fault : bool) (id : Z) (outcome result : string) (boot at_ : time)
| OpAbandon (fault read_fault : bool) (id : Z) (result : string) (at_ : time).

Definition control_answer : Type := result control_error (option Z).

Definition unit_answer (e : option control_error) : control_answer := match e with Some e => Err e | None => Ok None end.

Definition apply_control (op : control_op) (t : tables) : tables * control_answer :=
  match op with
  | OpRecordProcess fault p => let '(t', e) := RecordProcess t fault p in (t', unit_answer e)
  | OpSubmit fault r => let '(t', a) := Submit t fault r in (t', match a with Ok id => Ok (Some id) | Err e => Err e end)
  | OpFinish fault rf id outcome result boot at_ =>
      let '(t', e) := Finish t fault rf id outcome result boot at_ in (t', unit_answer e)
  | OpAbandon fault rf id result at_ => let '(t', e) := Abandon t fault rf id result at_ in (t', unit_answer e)
  end.

Definition index_of (id : Z) : nat := Z.to_nat (id - 1).

Definition valid_id (q : queue) (id : Z) : bool := (1 <=? id) && (id <=? Z.of_nat (length (requests q))).

(** The answer of a request that has none yet; of an answered one, the first stands. *)
Definition settle_request (q : queue) (rf : bool) (id : Z) (a : answer) : queue * control_answer :=
  if valid_id q id then
    ({| process := process q;
        requests := alter (fun ra => (ra.1, match ra.2 with None => Some a | Some first => Some first end)) (index_of id) (requests q) |},
     Ok None)
  else (q, if rf then Ok None else Err ErrNotFound).

Definition promised_control (op : control_op) (q : queue) : queue * control_answer :=
  match op with
  | OpRecordProcess fault p =>
      if (PID p <=? 0) || IsZero (PBoot p) then (q, Err (ErrInvalid InvalidProcess))
      else if fault then (q, Err ErrUnavailable)
      else ({| process := Some {| PID := PID p; PBoot := UTC (PBoot p); StartToken := StartToken p |}; requests := requests q |}, Ok None)
  | OpSubmit fault r =>
      match submit_fault r with
      | Some e => (q, Err (ErrInvalid e))
      | None => if fault then (q, Err ErrUnavailable)
                else ({| process := process q; requests := requests q ++ [(r, None)] |}, Ok (Some (Z.of_nat (length (requests q)) + 1)))
      end
  | OpFinish fault rf id outcome result boot at_ =>
      if bool_decide (outcome = OutcomeApplied) || bool_decide (outcome = OutcomeRefused) then
        if fault then (q, Err ErrUnavailable)
        else settle_request q rf id {| a_outcome := outcome; a_result := result; a_boot := UTC boot; a_at := UTC at_ |}
      else (q, Err (ErrInvalid (InvalidOutcome outcome)))
  | OpAbandon fault rf id result at_ =>
      if fault then (q, Err ErrUnavailable)
      else settle_request q rf id {| a_outcome := OutcomeRefused; a_result := result; a_boot := zero_time; a_at := UTC at_ |}
  end.

(** What is read back of a request. *)
Definition read_back (id : Z) (ra : Request * option answer) : Request :=
  let '(r, a) := ra in
  {| ID := id; Kind := Kind r; Target := Target r; Actor := Actor r; Tag := Tag r; RequestedAt := UTC (RequestedAt r);
     State := match a with None => StatePending | Some _ => StateDone end;
     DoneAt := match a with None => zero_time | Some a => a_at a end;
     Outcome := match a with None => "" | Some a => a_outcome a end;
     Result := match a with None => "" | Some a => a_result a end;
     Boot := match a with None => zero_time | Some a => a_boot a end |}.

Definition writable (t : time) : Prop := 0 <= year_of (UTC t) <= 9999.

Definition op_times (op : control_op) : Prop :=
  match op with
  | OpRecordProcess _ p => writable (PBoot p)
  | OpSubmit _ r => writable (RequestedAt r)
  | OpFinish _ _ _ _ _ boot at_ => writable boot /\ writable at_
  | OpAbandon _ _ _ _ at_ => writable at_
  end.


(** ** The tables hold the queue *)

Definition row_of (id : Z) (ra : Request * option answer) : request_row :=
  match ra.2 with
  | None => new_row id ra.1
  | Some a => finished (a_outcome a) (a_result a) (a_boot a) (a_at a) (new_row id ra.1)
  end.

Definition tables_of (q : queue) : tables :=
  {| serve_process := option_map (fun p => {| p_pid := PID p; p_boot := formatTime (PBoot p); p_token := StartToken p |}) (process q);
     serve_request := imap (fun i ra => row_of (Z.of_nat i + 1) ra) (requests q);
     last_id := Z.of_nat (length (requests q)) |}.

Definition answer_times (a : answer) : Prop := writable (a_boot a) /\ writable (a_at a).

Definition request_times (ra : Request * option answer) : Prop :=
  writable (RequestedAt ra.1) /\ match ra.2 with None => True | Some a => answer_times a /\ zone (a_boot a) = 0 /\ zone (a_at a) = 0 end.

Record holds (t : tables) (q : queue) : Prop := {
  ho_tables : t = tables_of q;
  ho_process : match process q with None => True | Some p => writable (PBoot p) /\ zone (PBoot p) = 0 end;
  ho_times : Forall request_times (requests q)
}.

Lemma parse_formatTime t : writable t -> parseTime (formatTime t) = Some (UTC t).
Proof.
  intros Hw. unfold formatTime, parseTime. destruct (IsZero t) eqn:Hz.
  - rewrite bool_decide_true by done. f_equal. apply Z.eqb_eq in Hz. unfold UTC. by rewrite Hz.
  - assert (Hf : formattable (UTC t)) by (split; [done|]; unfold UTC; cbn [zone]; by split).
    pose proof (parse_format_time _ Hf) as Hp. rewrite bool_decide_false; [done|]. intros He. rewrite He in Hp. by vm_compute in Hp.
Qed.

Lemma UTC_idem t : UTC (UTC t) = UTC t.
Proof. done. Qed.

Lemma UTC_zone t : zone t = 0 -> UTC t = t.
Proof. destruct t. cbn. by intros ->. Qed.

Lemma formatTime_UTC t : formatTime (UTC t) = formatTime t.
Proof. done. Qed.

Lemma scan_row id ra : request_times ra -> scanRequest (row_of id ra) = Some (read_back id ra).
Proof.
  destruct ra as [r [a|]]; intros [Hr Ha]; unfold scanRequest, row_of; cbn [snd fst finished new_row q_requested q_done q_boot].
  - destruct Ha as ([Hb Hat] & Hzb & Hza). rewrite !parse_formatTime by done. by rewrite (UTC_zone (a_boot a)), (UTC_zone (a_at a)).
  - by rewrite parse_formatTime.
Qed.

Lemma row_id id ra : q_id (row_of id ra) = id.
Proof. by destruct ra as [r [a|]]. Qed.

Lemma row_pending id ra : bool_decide (q_state (row_of id ra) = StatePending) = bool_decide (ra.2 = None).
Proof. by destruct ra as [r [a|]]. Qed.

Lemma find_row l k id :
  List.find (fun q => q_id q =? id) (imap (fun i ra => row_of (Z.of_nat (k + i) + 1) ra) l)
  = if (Z.of_nat k + 1 <=? id) && (id <=? Z.of_nat (k + length l)) then option_map (row_of id) (l !! Z.to_nat (id - 1 - Z.of_nat k)) else None.
Proof.
  revert k. induction l as [|ra l IH]; intros k.
  - cbn [imap List.find length]. destruct (_ && _) eqn:E; [|done]. apply andb_true_iff in E as [?%Z.leb_le ?%Z.leb_le]. lia.
  - cbn [imap List.find length]. rewrite row_id, Nat.add_0_r. destruct (Z.eqb_spec (Z.of_nat k + 1) id) as [<-|Hne].
    + rewrite Z.leb_refl. destruct (Z.leb_spec (Z.of_nat k + 1) (Z.of_nat (k + S (length l)))); [|lia]. cbn [andb].
      by replace (Z.to_nat (Z.of_nat k + 1 - 1 - Z.of_nat k)) with O by lia.
    + specialize (IH (S k)). rewrite <- (imap_ext (fun i ra => row_of (Z.of_nat (k + S i) + 1) ra)) in IH
        by (intros; do 3 f_equal; lia). unfold compose. rewrite IH.
      destruct (Z.leb_spec (Z.of_nat (S k) + 1) id), (Z.leb_spec (Z.of_nat k + 1) id); try lia; cbn [andb]; [|done].
      destruct (Z.leb_spec id (Z.of_nat (S k + length l))), (Z.leb_spec id (Z.of_nat (k + S (length l)))); try lia; [|done].
      replace (Z.to_nat (id - 1 - Z.of_nat k)) with (S (Z.to_nat (id - 1 - Z.of_nat (S k)))) by lia. done.
Qed.

Lemma Get_tables q fault id : Forall request_times (requests q) ->
  Get (tables_of q) fault id =
    if fault then Err ErrUnavailable
    else if valid_id q id then match requests q !! index_of id with Some ra => Ok (read_back id ra) | None => Err ErrNotFound end
    else Err ErrNotFound.
Proof.
  intros Ht. unfold Get. destruct fault; [done|]. cbn [tables_of serve_request].
  pose proof (find_row (requests q) 0 id) as Hf. cbn [Nat.add Z.of_nat] in Hf. rewrite Hf. clear Hf. rewrite Z.add_0_l.
  unfold valid_id, index_of. destruct (_ && _); [|done]. rewrite Z.sub_0_r. destruct (requests q !! _) as [ra|] eqn:Hl; [|done].
  cbn [option_map]. rewrite scan_row; [done|]. rewrite Forall_lookup in Ht. by eapply Ht.
Qed.

Lemma valid_id_lookup q id : valid_id q id = true -> is_Some (requests q !! index_of id).
Proof. intros H. apply lookup_lt_is_Some. unfold valid_id in H. apply andb_true_iff in H as [?%Z.leb_le ?%Z.leb_le]. unfold index_of. lia. Qed.

Lemma finishes_row k id ra : finishes id (row_of k ra) = (k =? id) && bool_decide (ra.2 = None).
Proof. unfold finishes. by rewrite row_id, row_pending. Qed.

Lemma finish_rows outcome result boot at_ id (l : list (Request * option answer)) : 1 <= id ->
  map (fun q => if finishes id q then finished outcome result boot at_ q else q) (imap (fun i ra => row_of (Z.of_nat i + 1) ra) l)
  = imap (fun i ra => row_of (Z.of_nat i + 1) ra)
      (alter (fun ra => (ra.1, match ra.2 with None => Some {| a_outcome := outcome; a_result := result; a_boot := UTC boot; a_at := UTC at_ |} | Some a => Some a end))
         (index_of id) l).
Proof.
  intros Hid. apply list_eq. intros i. change (map ?f ?l) with (f <$> l). rewrite list_lookup_fmap, !list_lookup_imap.
  destruct (decide (i = index_of id)) as [->|Hi].
  - rewrite list_lookup_alter_eq. destruct (l !! index_of id) as [[r a]|]; [|done]. cbn [fmap option_fmap option_map].
    rewrite finishes_row. unfold index_of. replace (Z.of_nat (Z.to_nat (id - 1)) + 1) with id by lia. rewrite Z.eqb_refl. by destruct a.
  - rewrite list_lookup_alter_ne by done. destruct (l !! i) as [ra|]; [|done]. cbn [fmap option_fmap option_map]. rewrite finishes_row.
    destruct (Z.eqb_spec (Z.of_nat i + 1) id); [|done]. unfold index_of in Hi. lia.
Qed.

Lemma settle_requests q rf id a : Forall request_times (requests q) -> answer_times a -> zone (a_boot a) = 0 -> zone (a_at a) = 0 ->
  Forall request_times (requests (settle_request q rf id a).1).
Proof.
  intros Hq Ha Hzb Hza. unfold settle_request. destruct (valid_id q id); [|done]. cbn [fst requests]. apply Forall_alter; [done|].
  intros ra Hl Hra. rewrite Forall_lookup in Hq. destruct ra as [r [first|]]; [done|]. by destruct Hra.
Qed.

Lemma Finish_holds t q fault rf id outcome result boot at_ : holds t q -> writable boot -> writable at_ ->
  (bool_decide (outcome = OutcomeApplied) || bool_decide (outcome = OutcomeRefused)) = true ->
  let '(t', e) := Finish t fault rf id outcome result boot at_ in
  let '(q', a) := if fault then (q, Err ErrUnavailable)
                  else settle_request q rf id {| a_outcome := outcome; a_result := result; a_boot := UTC boot; a_at := UTC at_ |} in
  unit_answer e = a /\ holds t' q'.
Proof.
  intros [-> Hp Ht] Hb Hat Ho. unfold Finish. rewrite <- negb_orb, Ho. cbn [negb]. destruct fault; [done|].
  set (a := {| a_outcome := outcome; a_result := result; a_boot := UTC boot; a_at := UTC at_ |}).
  assert (Hta : Forall request_times (requests (settle_request q rf id a).1)) by (by apply settle_requests).
  unfold settle_request in *. cbn [tables_of serve_request serve_process last_id]. destruct (valid_id q id) eqn:Hv.
  - assert (1 <= id) by (unfold valid_id in Hv; apply andb_true_iff in Hv as [?%Z.leb_le _]; lia). rewrite finish_rows by done.
    set (q' := {| process := process q; requests := _ |}) in *.
    assert (Htab : {| serve_process := serve_process (tables_of q); serve_request := imap (fun i ra => row_of (Z.of_nat i + 1) ra) (requests q');
                      last_id := last_id (tables_of q) |} = tables_of q') by (unfold tables_of, q'; cbn; by rewrite length_alter).
    cbn [tables_of serve_process last_id] in Htab. unfold q' in Htab at 1. cbn [requests] in Htab. fold a. rewrite Htab.
    assert (Hh : holds (tables_of q') q') by (by split). destruct (existsb _ _); [done|]. split; [|done].
    rewrite Get_tables by done. destruct rf; [done|]. assert (Hv' : valid_id q' id = true) by (unfold valid_id, q'; cbn; by rewrite length_alter).
    rewrite Hv'. by destruct (valid_id_lookup _ _ Hv') as [ra ->].
  - assert (Hno : existsb (finishes id) (imap (fun i ra => row_of (Z.of_nat i + 1) ra) (requests q)) = false).
    { apply not_true_is_false. intros Hex. apply existsb_exists in Hex as (row & Hin & Hf). apply list_elem_of_In, elem_of_lookup_imap_1 in Hin as (i & ra & -> & Hl).
      rewrite finishes_row in Hf. apply andb_true_iff in Hf as [Hf%Z.eqb_eq _]. apply lookup_lt_Some in Hl.
      unfold valid_id in Hv. apply andb_false_iff in Hv as [Hv%Z.leb_gt|Hv%Z.leb_gt]; lia. }
    rewrite Hno. assert (Hsame : map (fun q0 => if finishes id q0 then finished outcome result boot at_ q0 else q0)
      (imap (fun i ra => row_of (Z.of_nat i + 1) ra) (requests q)) = imap (fun i ra => row_of (Z.of_nat i + 1) ra) (requests q)).
    { rewrite <- (map_id (imap _ _)) at 2. apply map_ext_in. intros row Hin. destruct (finishes id row) eqn:Hf; [|done].
      assert (existsb (finishes id) (imap (fun i ra => row_of (Z.of_nat i + 1) ra) (requests q)) = true); [|congruence].
      apply existsb_exists. by exists row. }
    rewrite Hsame. fold (tables_of q). rewrite Get_tables by done. rewrite Hv. by destruct rf.
Qed.

Lemma control_step op t q : op_times op -> holds t q ->
  (apply_control op t).2 = (promised_control op q).2 /\ holds (apply_control op t).1 (promised_control op q).1.
Proof.
  intros Hop Hh. pose proof Hh as [-> Hp Ht]. destruct op as [fault p|fault r|fault rf id outcome result boot at_|fault rf id result at_]; cbn [apply_control promised_control op_times] in *.
  - unfold RecordProcess. destruct ((PID p <=? 0) || IsZero (PBoot p)); [done|]. by destruct fault.
  - unfold Submit. destruct (submit_fault r); [done|]. destruct fault; [done|]. cbn [fst snd]. split; [done|]. split; [|done|].
    + unfold tables_of. cbn. rewrite imap_app, length_app. cbn [imap length]. rewrite Nat.add_0_r. f_equal. lia.
    + apply Forall_app. split; [done|]. by apply Forall_singleton.
  - destruct (bool_decide (outcome = OutcomeApplied) || bool_decide (outcome = OutcomeRefused)) eqn:Ho.
    + destruct Hop as [Hb Hat]. pose proof (Finish_holds _ q fault rf id outcome result boot at_ Hh Hb Hat Ho) as H.
      destruct (Finish _ _ _ _ _ _ _ _) as [t' e]. destruct fault; [done|]. by destruct (settle_request _ _ _ _).
    + unfold Finish. by rewrite <- negb_orb, Ho.
  - unfold Abandon. assert (Hz : writable zero_time) by (by vm_compute).
    pose proof (Finish_holds _ q fault rf id OutcomeRefused result zero_time at_ Hh Hz Hop eq_refl) as H.
    destruct (Finish _ _ _ _ _ _ _ _) as [t' e]. destruct fault; [done|]. by destruct (settle_request _ _ _ _).
Qed.

(** ** Reading it back *)

Definition read_queue (q : queue) (id : Z) : option Request :=
  if valid_id q id then option_map (read_back id) (requests q !! index_of id) else None.

Definition unanswered (q : queue) : list Request :=
  List.filter (fun r => bool_decide (State r = StatePending)) (imap (fun i ra => read_back (Z.of_nat i + 1) ra) (requests q)).

Lemma scan_pending (l : list (Request * option answer)) k : Forall request_times l ->
  scan_requests (List.filter (fun q => bool_decide (q_state q = StatePending)) (imap (fun i ra => row_of (Z.of_nat (k + i) + 1) ra) l))
  = Ok (List.filter (fun r => bool_decide (State r = StatePending)) (imap (fun i ra => read_back (Z.of_nat (k + i) + 1) ra) l)).
Proof.
  intros Hl. revert k. induction Hl as [|ra l Hra _ IH]; intros k; [done|]. cbn [imap List.filter]. unfold compose.
  rewrite (imap_ext _ (fun i ra => row_of (Z.of_nat (S k + i) + 1) ra)) by (intros; do 3 f_equal; lia).
  rewrite (imap_ext (fun i x => read_back (Z.of_nat (k + S i) + 1) x) (fun i ra => read_back (Z.of_nat (S k + i) + 1) ra)) by (intros; do 3 f_equal; lia).
  specialize (IH (S k)). rewrite row_pending.
  assert (Hs : bool_decide (State (read_back (Z.of_nat (k + 0) + 1) ra) = StatePending) = bool_decide (ra.2 = None)) by (by destruct ra as [r [a|]]).
  rewrite Hs. destruct (bool_decide (ra.2 = None)); [|done]. cbn [scan_requests]. rewrite scan_row by done. by rewrite IH.
Qed.

Lemma read_promised op q id r : read_queue q id = Some r -> State r = StateDone -> read_queue (promised_control op q).1 id = Some r.
Proof.
  unfold read_queue. destruct (valid_id q id) eqn:Hv; [|done]. destruct (requests q !! index_of id) as [ra|] eqn:Hl; [|done]. intros [= <-] Hd.
  assert (Hsettle : forall rf id' a, read_queue (settle_request q rf id' a).1 id = Some (read_back id ra)).
  { intros rf id' a. unfold settle_request, read_queue. destruct (valid_id q id'); [|by cbn [fst]; rewrite Hv, Hl]. cbn [fst requests]. unfold valid_id in *. cbn [requests].
    rewrite length_alter, Hv. destruct (decide (index_of id = index_of id')) as [He|Hne]; [|by rewrite list_lookup_alter_ne, Hl].
    rewrite <- He, list_lookup_alter_eq, Hl. destruct ra as [r [first|]]; [done|]. by vm_compute in Hd. }
  destruct op as [fault p|fault r|fault rf id' outcome result boot at_|fault rf id' result at_]; cbn [promised_control].
  - destruct (_ || _); [by cbn [fst]; rewrite Hv, Hl|]. destruct fault; cbn [fst]; [by rewrite Hv, Hl|]. unfold valid_id in *. cbn [requests]. by rewrite Hv, Hl.
  - destruct (submit_fault r); [by cbn [fst]; rewrite Hv, Hl|]. destruct fault; cbn [fst]; [by rewrite Hv, Hl|]. unfold valid_id in *. cbn [requests]. rewrite length_app.
    apply andb_true_iff in Hv as [Hv1 Hv2%Z.leb_le]. rewrite Hv1. destruct (Z.leb_spec id (Z.of_nat (length (requests q) + length [(r, None : option answer)]))); [|simpl in *; lia].
    cbn [andb]. by rewrite lookup_app_l, Hl by (by eapply lookup_lt_Some).
  - destruct (_ || _); [|by cbn [fst]; rewrite Hv, Hl]. destruct fault; [by cbn [fst]; rewrite Hv, Hl|]. apply Hsettle.
  - destruct fault; [by cbn [fst]; rewrite Hv, Hl|]. apply Hsettle.
Qed.

Definition empty_queue : queue := {| process := None; requests := [] |}.

(** C36 [control_refines]: the tables are a queue on which the first answer stands.  For every history of
    operations, with faults of the database anywhere, the answers are those the queue gives: a valid
    request gets the next number; a process replaces the one recorded; an answer, the gateway's or the
    requester's giving up, is kept exactly when the request had none.  Afterwards [Get], [Pending] and
    [Process] read that queue, every field as given and the unanswered requests oldest first; and an
    answered request reads the same after any further history. *)
Theorem control_refines ops : Forall op_times ops ->
  let '(t, answers) := run_history apply_control ops no_tables in
  let '(q, promises) := run_history promised_control ops empty_queue in
  answers = promises
  /\ (forall id, Get t false id = match read_queue q id with Some r => Ok r | None => Err ErrNotFound end)
  /\ Pending t false = Ok (unanswered q)
  /\ read_process t false = match process q with Some p => Ok p | None => Err ErrNoProcess end
  /\ forall more id r, Forall op_times more -> Get t false id = Ok r -> State r = StateDone ->
       Get (run_history apply_control more t).1 false id = Ok r.
Proof.
  intros Hops. assert (H0 : holds no_tables empty_queue) by (by split).
  destruct (run_history_sim holds op_times _ _ control_step ops _ _ Hops H0) as [Ha Hh].
  destruct (run_history apply_control ops no_tables) as [t answers], (run_history promised_control ops empty_queue) as [q promises]. cbn [fst snd] in *.
  assert (Hget : forall t q, holds t q -> forall id, Get t false id = match read_queue q id with Some r => Ok r | None => Err ErrNotFound end).
  { clear. intros t q [-> _ Ht] id. rewrite Get_tables by done. unfold read_queue. destruct (valid_id q id); [|done]. by destruct (requests q !! _). }
  split_and!; [done|by apply Hget| | |].
  - destruct Hh as [-> _ Ht]. unfold Pending. cbn [tables_of serve_request]. exact (scan_pending (requests q) 0 Ht).
  - destruct Hh as [-> Hp _]. unfold read_process. cbn [tables_of serve_process]. destruct (process q) as [p|]; [|done]. cbn [option_map p_boot p_pid p_token].
    destruct Hp as [Hw Hz]. rewrite parse_formatTime by done. rewrite UTC_zone by done. by destruct p.
  - intros more id r Hmore Hr Hd. destruct (run_history_sim holds op_times _ _ control_step more _ _ Hmore Hh) as [_ Hh'].
    rewrite (Hget _ _ Hh'). rewrite (Hget _ _ Hh) in Hr. destruct (read_queue q id) as [r'|] eqn:Hq; [|done]. injection Hr as ->.
    assert (Hk : read_queue (run_history promised_control more q).1 id = Some r); [|by rewrite Hk].
    apply (run_history_invariant (fun q => read_queue q id = Some r)); [|done]. intros op q' H. by apply read_promised.
Qed.

(** ** Witness: a request answered by serve, then given up by its requester, too late *)

Definition demo_request : Request :=
  {| ID := 0; Kind := KindRedial; Target := "casemgmt"; Actor := "(operator:alice)"; Tag := "[cli]";
     RequestedAt := Time (63893739845 * second) 0; State := ""; DoneAt := zero_time; Outcome := ""; Result := ""; Boot := zero_time |}.

Definition demo_history : list control_op :=
  [OpSubmit true demo_request; OpSubmit false demo_request; OpSubmit false demo_request;
   OpFinish false false 1 OutcomeApplied "{}" (Time (63893739800 * second) 0) (Time (63893739846 * second) 0);
   OpAbandon false false 1 "late" (Time (63893739865 * second) 0); OpFinish false false 7 OutcomeApplied "" zero_time zero_time].

Lemma demo_history_times : Forall op_times demo_history.
Proof. repeat constructor; try (by vm_compute). Qed.

Lemma control_refines_witness :
  Forall op_times demo_history
  /\ (run_history apply_control demo_history no_tables).2 = [Err ErrUnavailable; Ok (Some 1); Ok (Some 2); Ok None; Ok None; Err ErrNotFound]
  /\ map ID (unanswered (run_history promised_control demo_history empty_queue).1) = [2]
  /\ (run_history apply_control demo_history no_tables).2 = (run_history promised_control demo_history empty_queue).2.
Proof.
  split; [exact demo_history_times|]. split; [vm_compute; reflexivity|]. split; [vm_compute; reflexivity|].
  pose proof (control_refines demo_history demo_history_times) as H.
  destruct (run_history apply_control demo_history no_tables) as [t answers], (run_history promised_control demo_history empty_queue) as [q promises].
  exact (proj1 H).
Defined.
