(* ===== verification/ServeControl.v ===== *)
(** * The operator's requests, as the serving process answers them
      ([cmd/mcp-gateway/serve_control.go], [serve_blocks.go], and [round] of [serve.go])

    On SIGHUP the process takes the pending requests from the store, reloads the reloadable part of the
    configuration or re-dials a backend, runs one round out of turn, and answers each request on its own
    row of the trail and then on its own row of the store.  Programs over what it asks of the stores, the
    Gateway and the file system; the log is left out.  The theorems follow the requests on every run. *)
From Stdlib Require Import ZArith Lia Ascii.
From stdpp Require Import base strings list gmap.
From S2P Require Import Prelude.
From S2P Require Import GoStrings.
From S2P Require Import Utf8.
From S2P Require Import Visible.
From S2P Require Import GoTime.
From S2P Require Import AuditLog.
From S2P Require Import Access.
From S2P Require Import Blocklist.
From S2P Require Import Quota.
From S2P Require Import Redact.
From S2P Require Import Prog.
From S2P Require Import ChildEnv.
From S2P Require Import Config.
From S2P Require Import ConfigLoad.
From S2P Require Import Reload.
From S2P Require Import Control.

(** ** What is asked of the others *)

(** A failed write: whether the database was busy, so that nothing was written ([store.IsBusy]), and its text. *)
Record write_error := { we_busy : bool; we_text : string }.

Inductive apply_fault := QuotaMisconfigured | RegistryUnavailable | PolicyRefused.
Inductive redial_fault := RedialHeldBack | RedialClosed | RedialRefused.
Inductive reconcile_end := Reconciled | ReconcileClosed | ReconcileSuspended | ReconcileQuota | ReconcilePartial.
Inductive refresh_end := Refreshed | RefreshClosed | RefreshPartial.

(** An answer before its encoding as JSON ([adminapi.ServeRequest], the fields serve sets). *)
Record api_role := { ar_role : string; ar_added : bool; ar_removed : bool; ar_gained : list string; ar_lost : list string;
                     ar_grants_added : list string; ar_grants_removed : list string }.
Record ReloadChanges := { rl_roles : list api_role; rl_groups : list GroupChange; rl_quota : list QuotaChange;
                          rl_free_tools : bool; rl_not_reloaded : list string }.
Record RedialOutcome := { WasConnected : bool; Live : bool; Cause : string }.
Record OperatorRow := { or_identity : string; or_tool : string; or_reason : string; or_timestamp : time }.
Record ServeRequest := {
  sr_refusal : string; sr_reload : option ReloadChanges; sr_redial : option RedialOutcome; sr_recorded : bool;
  sr_audit : option OperatorRow; sr_warnings : list (string * string); sr_messages : list string
}.

Inductive serve_effect :=
| SPending | SRecordProcess (p : Process)
| SFinish (id : Z) (outcome : string) (body : ServeRequest) (boot at_ : time)
| SLoad (path : string) | SRouted | SApplyPolicy (p : Policy) (plan : Plan)
| SRedial (target : string) | SBackendState (target : string)
| SReconcile | SRefresh | SDrift | SBeat
| SRecord (rec : AuditRecord) | SNow | SRest (backoff : Z)
| SExpired | SRemoveExpired (subject : string) (until : time).

(** [SRest]: the context ended first. *)
Definition serve_answer (e : serve_effect) : Type :=
  match e with
  | SPending => result string (list Request)
  | SRecordProcess _ => option string
  | SFinish _ _ _ _ _ | SRecord _ => option write_error
  | SLoad _ => result string Config
  | SRouted => list string
  | SApplyPolicy _ _ => option (apply_fault * string)
  | SRedial _ => result (redial_fault * string) bool
  | SBackendState _ => bool * string
  | SReconcile => reconcile_end
  | SRefresh => refresh_end
  | SDrift | SBeat => unit
  | SNow => time
  | SRest _ => bool
  | SExpired => result string (list Block)
  | SRemoveExpired _ _ => result string bool
  end.

#[export] Instance serve_effects : Effects := {| eff := serve_effect; ans := serve_answer; may_panic := fun _ => false |}.

Definition call (e : serve_effect) : prog (serve_answer e) := trigger (E := serve_effects) e.

(** The texts of the errors a configuration is refused with. *)
Class ErrorTexts := { policy_text : policy_error -> string; plan_text : Quota.plan_error -> string }.

(** The parts of [serveStack] that do not change; [audit] and the rest are there or nil. *)
Record serveStack := {
  configPath : string; st_boot : time; refreshEvery : Z; st_pid : Z; startToken : string;
  hasControl : bool; hasAudit : bool; hasBlocks : bool; hasQuotaStore : bool
}.

Definition maxReloadReason : Z := 4000.
Definition signalActor : string := "(gateway)".
Definition unknownActor : string := "(unknown)".
Definition busyAttempts : nat := 4.
Definition registryRetryEvery : Z := 5 * second.

Definition ConfigReload : string := "(config reload)".
Definition UpstreamRedial : string := "(upstream redial)".
Definition AccessBlockExpired : string := "(access block expired)".
Definition OperatorTarget : string := "(gateway)".

Definition RefusalInvalidConfig : string := "invalid_config".
Definition RefusalQuotaMismatch : string := "quota_mismatch".
Definition RefusalRegistryUnavailable : string := "registry_unavailable".
Definition RefusalNotServable : string := "not_servable".
Definition RefusalHeldBack : string := "held_back".
Definition RefusalSuperseded : string := "superseded_by_restart".
Definition WarnAuditWriteFailed : string := "audit_write_failed".

(** ** Writing with retries ([cmd/mcp-gateway/access.go]) *)

Fixpoint busy_loop (attempts : nat) (backoff : Z) (last : option write_error) (fn : prog (option write_error)) : prog (option write_error) :=
  match attempts with
  | O => Ret last
  | S attempts =>
      r <- fn;;
      match r with
      | Some e =>
          if we_busy e then
            ended <- call (SRest backoff);;
            if ended : bool then Ret (Some e) else busy_loop attempts (2 * backoff) (Some e) fn
          else Ret (Some e)
      | None => Ret None
      end
  end.

Definition retryBusy (fn : prog (option write_error)) : prog (option write_error) := busy_loop busyAttempts 100000000 None fn.

Section serve.
Context `{MR : MapRange, PT : PrintTable, ET : ErrorTexts} (s : serveStack).

(** ** One answer *)

Definition toAPIChanges (c : Changes) : ReloadChanges :=
  {| rl_roles := map (fun r => {| ar_role := rc_role r; ar_added := Added r; ar_removed := Removed r; ar_gained := Gained r; ar_lost := Lost r;
                                  ar_grants_added := GrantsAdded r; ar_grants_removed := GrantsRemoved r |}) (c_roles c);
     rl_groups := c_groups c; rl_quota := c_quota c; rl_free_tools := FreeToolsChanged c; rl_not_reloaded := c_not_reloaded c |}.

Definition refusal_answer (refusal : string) (reload : option ReloadChanges) (message : string) : ServeRequest :=
  {| sr_refusal := refusal; sr_reload := reload; sr_redial := None; sr_recorded := false; sr_audit := None; sr_warnings := [];
     sr_messages := [message] |}.

Definition row_reason (r : Request) (outcome reason : string) : string :=
  let reason := if bool_decide (reason = "") then outcome else reason in
  let reason := if bool_decide (Tag r = "") then reason else Tag r +:+ " " +:+ reason in
  if maxReloadReason + 100 <? blen reason
  then str_take (cut_at reason (Z.to_nat maxReloadReason)) reason +:+ " ... (truncated)" else reason.

(** The operator row of a request. *)
Definition row_of_request (r : Request) (outcome reason : string) (now : time) : AuditRecord :=
  {| AnalystIdentity := if blank (Actor r) then unknownActor else Actor r;
     Tool := if bool_decide (Kind r = KindRedial) then UpstreamRedial else ConfigReload;
     TargetUpstream := if bool_decide (Kind r = KindRedial) then Target r else OperatorTarget;
     Timestamp := now; AuditLog.Outcome := if bool_decide (outcome = OutcomeApplied) then OutcomeAllowed else OutcomeDenied;
     AuditLog.Reason := row_reason r outcome reason; SourceAddress := ""; AnalystName := "" |}.

Definition recorded_answer (res : ServeRequest) (rec : AuditRecord) (err : option write_error) : ServeRequest :=
  match err with
  | Some e =>
      {| sr_refusal := sr_refusal res; sr_reload := sr_reload res; sr_redial := sr_redial res; sr_recorded := sr_recorded res;
         sr_audit := sr_audit res; sr_messages := sr_messages res;
         sr_warnings := sr_warnings res ++ [(WarnAuditWriteFailed, "The audit trail has no row for this: " +:+ we_text e)] |}
  | None =>
      {| sr_refusal := sr_refusal res; sr_reload := sr_reload res; sr_redial := sr_redial res; sr_recorded := true;
         sr_audit := Some {| or_identity := AnalystIdentity rec; or_tool := Tool rec; or_reason := AuditLog.Reason rec; or_timestamp := Timestamp rec |};
         sr_messages := sr_messages res; sr_warnings := sr_warnings res |}
  end.

Definition finish (r : Request) (outcome : string) (res : ServeRequest) (reason : string) : prog unit :=
  now <- call SNow;;
  let now := UTC now in
  let rec := row_of_request r outcome reason now in
  res <- (if hasAudit s then err <- retryBusy (call (SRecord rec));; Ret (recorded_answer res rec err) else Ret res);;
  if (ID r =? 0) || negb (hasControl s) then Ret tt
  else retryBusy (call (SFinish (ID r) outcome res (st_boot s) now));;; Ret tt.

(** ** A reload *)

(** [strings.ReplaceAll(text, "\n", "; ")]. *)
Fixpoint one_line (text : string) : string :=
  match text with
  | EmptyString => ""
  | String a rest => if bz a =? 10 then "; " +:+ one_line rest else String a (one_line rest)
  end.

Definition refuse_reload (refusal : string) (changes : option ReloadChanges) (error : string) : string * ServeRequest * string :=
  (OutcomeRefused, refusal_answer refusal changes ("Nothing changed; the roles, groups and quota in force are kept: " +:+ one_line error),
   "refused (" +:+ refusal +:+ "): " +:+ one_line error).

Definition applied_answer (d : Changes) : ServeRequest :=
  let left := String.concat ", " (c_not_reloaded d) in
  {| sr_refusal := ""; sr_reload := Some (toAPIChanges d); sr_redial := None; sr_recorded := false; sr_audit := None;
     sr_warnings := if none (c_not_reloaded d) then []
       else [("not_reloaded", "These keys differ from the file this process started with and are NOT in effect until a restart: " +:+ left)];
     sr_messages := (if Empty d
         then ["The file was re-read and validated; nothing in [[role]], [group_to_role] or [quota] changed what anyone reaches."]
         else ["Applied from the next call on. Clients that already listed their tools keep that list until they reconnect (Claude Code: /mcp); a call to a tool a role lost is refused at once."])
       ++ (if none (c_not_reloaded d) then [] else ["NOT applied until a restart: " +:+ left +:+ "."]) |}.

(** [cfg] is the configuration in force; the first component is the one after. *)
Definition reloadConfig (cfg : Config) : prog (Config * (string * ServeRequest * string)) :=
  let invalid error := Ret (cfg, refuse_reload RefusalInvalidConfig None error) in
  if bool_decide (configPath s = "") then invalid "this process has no configuration file path to re-read"
  else
    loaded <- call (SLoad (configPath s));;
    match loaded with
    | Err error => invalid error
    | Ok next =>
        match ToAccessPolicy next with
        | Err e => invalid (policy_text e)
        | Ok policy =>
            match ToQuotaPlan next with
            | Err e => invalid (plan_text e)
            | Ok plan =>
                if negb (hasQuotaStore s) then invalid "quota: gate needs a store; a nil store would make every call free"
                else
                  routed <- call SRouted;;
                  let d := Diff cfg next routed in
                  failed <- call (SApplyPolicy policy plan);;
                  match failed with
                  | Some (QuotaMisconfigured, e) => Ret (cfg, refuse_reload RefusalQuotaMismatch (Some (toAPIChanges d)) e)
                  | Some (RegistryUnavailable, e) => Ret (cfg, refuse_reload RefusalRegistryUnavailable (Some (toAPIChanges d)) e)
                  | Some (PolicyRefused, e) => Ret (cfg, refuse_reload RefusalInvalidConfig (Some (toAPIChanges d)) e)
                  | None => Ret (applied cfg next, (OutcomeApplied, applied_answer d, "applied: " +:+ Summary d maxReloadReason))
                  end
            end
        end
    end.

(** ** The end of a block *)

Definition expiredBlockReason (b : Block) : string :=
  let note := "placed by " +:+ By b +:+ " at " +:+ format_seconds (At b)
              +:+ (if bool_decide (Blocklist.Reason b = "") then "" else ": " +:+ Blocklist.Reason b) in
  "subject " +:+ Quote (BSubject b) +:+ (if IsZero (Until b) then "" else " until " +:+ format_seconds (Until b)) +:+ ": " +:+ note.

Definition expiry_row (b : Block) (now : time) : AuditRecord :=
  {| AnalystIdentity := signalActor; Tool := AccessBlockExpired; TargetUpstream := OperatorTarget; Timestamp := now;
     AuditLog.Outcome := OutcomeAllowed; AuditLog.Reason := expiredBlockReason b; SourceAddress := ""; AnalystName := "" |}.

Fixpoint expire_each (blocks : list Block) (removed : Z) : prog Z :=
  match blocks with
  | [] => Ret removed
  | b :: rest =>
      now <- call SNow;;
      err <- retryBusy (call (SRecord (expiry_row b (UTC now))));;
      match err with
      | Some _ => expire_each rest removed
      | None =>
          r <- call (SRemoveExpired (BSubject b) (Until b));;
          expire_each rest (match r with Ok true => removed + 1 | _ => removed end)
      end
  end.

Definition expireBlocks : prog Z :=
  if negb (hasBlocks s) || negb (hasAudit s) then Ret 0
  else
    r <- call SExpired;;
    match r with Err _ => Ret 0 | Ok blocks => expire_each blocks 0 end.

(** ** A round *)

(** How long to rest, and whether the Gateway is closed. *)
Definition round : prog (Z * bool) :=
  r <- call SReconcile;;
  match r with
  | ReconcileClosed => Ret (0, true)
  | ReconcileSuspended => call SBeat;;; Ret (registryRetryEvery, false)
  | _ =>
      f <- call SRefresh;;
      match f with
      | RefreshClosed => Ret (0, true)
      | _ => call SDrift;;; expireBlocks;;; call SBeat;;; Ret (refreshEvery s, false)
      end
  end.

(** ** The requests *)

(** The loop over the pending requests: the configuration in force, whether a round is needed, what each
    redial found, and the redials to answer after it. *)
Record pass := { p_cfg : Config; p_round : bool; p_redialed : gmap Z bool; p_redials : list Request }.

(** [true]: the Gateway is closed. *)
Definition handle_one (st : pass) (r : Request) : prog (pass * bool) :=
  if bool_decide (Kind r = KindReload) then
    x <- reloadConfig (p_cfg st);;
    let '(cfg, (outcome, res, reason)) := x in
    finish r outcome res reason;;;
    Ret ({| p_cfg := cfg; p_round := p_round st || bool_decide (outcome = OutcomeApplied);
            p_redialed := p_redialed st; p_redials := p_redials st |}, false)
  else if bool_decide (Kind r = KindRedial) then
    x <- call (SRedial (Target r));;
    match x with
    | Err (RedialClosed, _) => Ret (st, true)
    | Err (fault, error) =>
        let refusal := match fault with RedialHeldBack => RefusalHeldBack | _ => RefusalNotServable end in
        finish r OutcomeRefused (refusal_answer refusal None ("Nothing was dropped: " +:+ error))
          ("refused (" +:+ refusal +:+ "): " +:+ error);;;
        Ret (st, false)
    | Ok connected =>
        Ret ({| p_cfg := p_cfg st; p_round := true; p_redialed := <[ID r := connected]> (p_redialed st); p_redials := p_redials st ++ [r] |}, false)
    end
  else
    finish r OutcomeRefused (refusal_answer "unknown_kind" None ("This gateway does not know requests of kind " +:+ Quote (Kind r) +:+ "."))
      "refused: unknown kind";;;
    Ret (st, false).

Fixpoint handle_each (st : pass) (rs : list Request) : prog (pass * bool) :=
  match rs with
  | [] => Ret (st, false)
  | r :: rest => x <- handle_one st r;; let '(st, closed) := x in if closed : bool then Ret (st, true) else handle_each st rest
  end.

Definition opDash (cause : string) : string := if bool_decide (cause = "") then "-" else cause.
Definition show_bool (b : bool) : string := if b then "true" else "false".

Definition redial_answer (r : Request) (was live : bool) (cause : string) : ServeRequest :=
  {| sr_refusal := ""; sr_reload := None; sr_redial := Some {| WasConnected := was; Live := live; Cause := cause |}; sr_recorded := false;
     sr_audit := None; sr_warnings := [];
     sr_messages := [Target r +:+
       (if live then " was dropped and dialled again, with the vault as it is now, and it is live."
        else if negb was then " had no live connection; it was dialled and is not live yet (" +:+ opDash cause +:+ "). The next round tries again."
        else " was dropped; it is not live again yet (" +:+ opDash cause +:+ "). The next round tries again, and its calls are answered as reconnecting meanwhile.")] |}.

Fixpoint answer_redials (redialed : gmap Z bool) (rs : list Request) : prog unit :=
  match rs with
  | [] => Ret tt
  | r :: rest =>
      x <- call (SBackendState (Target r));;
      let '(live, cause) := x in
      let was := default false (redialed !! ID r) in
      finish r OutcomeApplied (redial_answer r was live cause)
        ("was connected: " +:+ show_bool was +:+ "; live after the round: " +:+ show_bool live
         +:+ (if negb live && negb (bool_decide (cause = "")) then " (" +:+ cause +:+ ")" else ""));;;
      answer_redials redialed rest
  end.

(** The request a bare signal stands for. *)
Definition signal_request : Request :=
  {| ID := 0; Kind := KindReload; Target := ""; Actor := signalActor; Tag := "[signal]"; RequestedAt := zero_time; State := "";
     DoneAt := zero_time; Control.Outcome := ""; Control.Result := ""; Boot := zero_time |}.

(** The configuration in force after, whether to stop, and how long to rest before the next round. *)
Definition handleControl (cfg : Config) : prog (Config * (bool * Z)) :=
  read <- (if hasControl s then call SPending else Ret (Ok []));;
  let pending := match read with Ok ((_ :: _) as rs) => rs | _ => [signal_request] end in
  x <- handle_each {| p_cfg := cfg; p_round := false; p_redialed := ∅; p_redials := [] |} pending;;
  let '(st, closed) := x in
  if closed : bool then Ret (p_cfg st, (true, 0))
  else
    y <- (if p_round st then round else Ret (0, false));;
    let '(next, stop) := y in
    if stop : bool then Ret (p_cfg st, (true, 0))
    else answer_redials (p_redialed st) (p_redials st);;; Ret (p_cfg st, (false, next)).

(** ** At startup *)

Definition superseded : ServeRequest :=
  refusal_answer RefusalSuperseded None "The gateway restarted before answering this request. The restart read the whole configuration file and dials every backend, so there is nothing left to do.".

Fixpoint supersede (rs : list Request) : prog unit :=
  match rs with
  | [] => Ret tt
  | r :: rest => finish r OutcomeRefused superseded "";;; supersede rest
  end.

Definition announce : prog unit :=
  if negb (hasControl s) then Ret tt
  else
    read <- call SPending;;
    match read with Ok pending => supersede pending | Err _ => Ret tt end;;;
    call (SRecordProcess {| PID := st_pid s; PBoot := st_boot s; StartToken := startToken s |});;;
    Ret tt.
End serve.

(** ** Reading a run *)

Abbreviation sev := (event (E := serve_effects)).

(** The row an event put on the trail. *)
Definition wrote (ev : sev) : option AuditRecord :=
  match ev with Ev e a =>
    match e return reply (serve_answer e) -> option AuditRecord with
    | SRecord rec => fun a => match a with Val None => Some rec | _ => None end
    | _ => fun _ => None
    end a
  end.

(** The request an event answered. *)
Definition answered (ev : sev) : option Z :=
  match ev with Ev e a =>
    match e return reply (serve_answer e) -> option Z with
    | SFinish id _ _ _ _ => fun a => match a with Val None => Some id | _ => None end
    | _ => fun _ => None
    end a
  end.

(** The requests an event read. *)
Definition requests (ev : sev) : option (list Request) :=
  match ev with Ev e a =>
    match e return reply (serve_answer e) -> option (list Request) with
    | SPending => fun a => match a with Val (Ok rs) => Some rs | _ => None end
    | _ => fun _ => None
    end a
  end.

(** Whether an event put a policy in force, and whether it changed what a round has to see to. *)
Definition policy_applied (ev : sev) : option bool :=
  match ev with Ev e a =>
    match e return reply (serve_answer e) -> option bool with
    | SApplyPolicy _ _ => fun a => Some (match a with Val None => true | _ => false end)
    | _ => fun _ => None
    end a
  end.

Definition redial_accepted (ev : sev) : bool :=
  match ev with Ev e a =>
    match e return reply (serve_answer e) -> bool with
    | SRedial _ => fun a => match a with Val (Ok _) => true | _ => false end
    | _ => fun _ => false
    end a
  end.

Definition changes (ev : sev) : bool := bool_decide (policy_applied ev = Some true) || redial_accepted ev.
Definition reconciles (ev : sev) : bool := match ev_eff ev with SReconcile => true | _ => false end.

(** The configuration in force and the one last read, from the events alone. *)
Definition force_step (st : Config * option Config) (ev : sev) : Config * option Config :=
  match ev with Ev e a =>
    match e return reply (serve_answer e) -> Config * option Config with
    | SLoad _ => fun a => match a with Val (Ok next) => (st.1, Some next) | _ => st end
    | SApplyPolicy _ _ => fun a => match a, st.2 with Val None, Some next => (applied st.1 next, st.2) | _, _ => st end
    | _ => fun _ => st
    end a
  end.
Definition in_force (cfg : Config) (tr : list sev) : Config * option Config := foldl force_step (cfg, None) tr.

Definition rows (tr : list sev) : list AuditRecord := omap wrote tr.
Definition answers (tr : list sev) : list Z := omap answered tr.
(** What the last application of a policy came to. *)
Definition last_apply (tr : list sev) : option bool := last (omap policy_applied tr).

Definition row_tried (tr : list sev) (rec : AuditRecord) : Prop := exists a, Ev (E := serve_effects) (SRecord rec) a ∈ tr.
Definition answer_tried (tr : list sev) (id : Z) : Prop := exists outcome body boot at_ a, Ev (E := serve_effects) (SFinish id outcome body boot at_) a ∈ tr.

Definition operator_row (rec : AuditRecord) : OperatorRow :=
  {| or_identity := AnalystIdentity rec; or_tool := Tool rec; or_reason := AuditLog.Reason rec; or_timestamp := Timestamp rec |}.

Section properties.
Context `{MR : MapRange, PT : PrintTable, ET : ErrorTexts} (s : serveStack).

(** What an event may be, after the events before it. *)
Definition ok_event (cfg : Config) (pending : list Request) (before : list sev) (ev : sev) : Prop :=
  match ev_eff ev with
  | SFinish id outcome body _ at_ =>
      exists r reason, r ∈ pending /\ ID r = id
        /\ (hasAudit s = true -> row_tried before (row_of_request r outcome reason at_))
        /\ (sr_recorded body = true -> row_of_request r outcome reason at_ ∈ rows before
              /\ sr_audit body = Some (operator_row (row_of_request r outcome reason at_)))
        /\ (Kind r = KindReload -> outcome = OutcomeApplied -> last_apply before = Some true)
  | SApplyPolicy p plan =>
      existsb reconciles before = false
      /\ exists next, (in_force cfg before).2 = Some next /\ ToAccessPolicy next = Ok p /\ ToQuotaPlan next = Ok plan
  | SRedial target => existsb reconciles before = false /\ exists r, r ∈ pending /\ Kind r = KindRedial /\ Target r = target
  | SBackendState _ => existsb reconciles before = true
  | SReconcile => existsb reconciles before = false /\ existsb changes before = true
  | SRemoveExpired subject until =>
      exists b now earlier, before = earlier ++ [Ev (E := serve_effects) (SRecord (expiry_row b now)) (Val None)]
        /\ BSubject b = subject /\ Until b = until
  | _ => True
  end.

Definition good (cfg : Config) (pending : list Request) (tr : list sev) : Prop :=
  forall before ev after, tr = before ++ ev :: after -> ok_event cfg pending before ev.

(** ** Retries *)

(** The events of a write tried several times. *)
Definition tried (mk : option write_error -> sev) (evs : list sev) (err : option write_error) : Prop :=
  exists fails, Forall (fun ev => (exists w, ev = mk (Some w)) \/ exists b x, ev = Ev (E := serve_effects) (SRest b) (Val x)) fails
    /\ evs = fails ++ match err with None => [mk None] | Some _ => [] end.

Section retry.
Context (fn : prog (E := serve_effects) (option write_error)) (mk : option write_error -> sev).
Hypothesis Hfn : forall acc (Q : list sev -> outcome (option write_error) -> Prop), (forall r, Q (acc ++ [mk r]) (Done r)) -> wpa acc fn Q.

Lemma wpa_busy_loop n backoff last acc (Q : list sev -> outcome (option write_error) -> Prop) : (n = O -> last <> None) ->
  (forall evs err, tried mk evs err -> (n <> O -> exists r rest, evs = mk r :: rest) -> Q (acc ++ evs) (Done err)) ->
  wpa acc (busy_loop n backoff last fn) Q.
Proof.
  revert backoff last acc Q. induction n as [|n IH]; intros backoff last acc Q Hl H; cbn [busy_loop].
  { apply wpa_ret. rewrite <- (app_nil_r acc). apply H; [|done]. exists []. split; [constructor|]. destruct last; [done|]. by destruct Hl. }
  apply wpa_bind, Hfn. intros [w|].
  - destruct (we_busy w).
    + apply (wpa_step (E := serve_effects)); [|done]. intros [|].
      * apply wpa_ret. rewrite <- app_assoc. apply H; [|by eexists _, _]. exists [mk (Some w); Ev (E := serve_effects) (SRest backoff) (Val true)].
        split; [|done]. constructor; [by left; exists w|]. constructor; [by right; exists backoff, true|constructor].
      * apply IH; [done|]. intros evs err (fails & Hf & ->) _. rewrite <- !app_assoc. apply H; [|by eexists _, _].
        exists (mk (Some w) :: Ev (E := serve_effects) (SRest backoff) (Val false) :: fails). split; [|done].
        constructor; [by left; exists w|]. by constructor; [right; exists backoff, false|].
    + apply wpa_ret, H; [|by eexists _, _]. exists [mk (Some w)]. split; [|done]. constructor; [by left; exists w|constructor].
  - apply wpa_ret, H; [|by eexists _, _]. by exists [].
Qed.

Lemma wpa_retryBusy acc (Q : list sev -> outcome (option write_error) -> Prop) :
  (forall evs err, tried mk evs err -> (exists r rest, evs = mk r :: rest) -> Q (acc ++ evs) (Done err)) ->
  wpa acc (retryBusy fn) Q.
Proof. intros H. apply wpa_busy_loop; [done|]. intros evs err Ht Hn. apply H; [done|]. by apply Hn. Qed.
End retry.

Definition record_try (rec : AuditRecord) (r : option write_error) : sev := Ev (E := serve_effects) (SRecord rec) (Val r).
Definition finish_try (id : Z) (outcome : string) (body : ServeRequest) (boot at_ : time) (r : option write_error) : sev :=
  Ev (E := serve_effects) (SFinish id outcome body boot at_) (Val r).

Lemma wpa_record rec acc (Q : list sev -> outcome (option write_error) -> Prop) :
  (forall evs err, tried (record_try rec) evs err -> (exists r rest, evs = record_try rec r :: rest) -> Q (acc ++ evs) (Done err)) ->
  wpa acc (retryBusy (call (SRecord rec))) Q.
Proof. apply wpa_retryBusy. intros acc' Q' H. by apply (wpa_trigger (E := serve_effects)). Qed.

Lemma wpa_store id oc body boot at_ acc (Q : list sev -> outcome (option write_error) -> Prop) :
  (forall evs err, tried (finish_try id oc body boot at_) evs err -> (exists r rest, evs = finish_try id oc body boot at_ r :: rest) ->
     Q (acc ++ evs) (Done err)) ->
  wpa acc (retryBusy (call (SFinish id oc body boot at_))) Q.
Proof. apply wpa_retryBusy. intros acc' Q' H. by apply (wpa_trigger (E := serve_effects)). Qed.

(** ** Extending a run *)

(** Events that change neither the configuration, nor the rows, nor the answers. *)
Definition quiet (ev : sev) : Prop :=
  policy_applied ev = None /\ redial_accepted ev = false /\ reconciles ev = false /\ forall st, force_step st ev = st.

Lemma good_nil cfg pending : good cfg pending [].
Proof. by intros [|] ? ? ?. Qed.

Lemma good_app cfg pending tr evs : good cfg pending tr ->
  (forall before ev after, evs = before ++ ev :: after -> ok_event cfg pending (tr ++ before) ev) -> good cfg pending (tr ++ evs).
Proof.
  intros Hg He before ev after Heq. symmetry in Heq. apply app_eq_app in Heq as (l & [(-> & H)|(-> & H)]).
  - by apply (He l ev after).
  - destruct l as [|x l]; cbn [app] in H; [|injection H as -> ->; by eapply Hg].
    rewrite app_nil_r in *. rewrite <- (app_nil_r before). by apply (He [] ev after).
Qed.

Lemma good_snoc cfg pending tr ev : good cfg pending tr -> ok_event cfg pending tr ev -> good cfg pending (tr ++ [ev]).
Proof.
  intros Hg Ho. apply good_app; [done|]. intros [|x [|y l]] ev' after; cbn [app]; intros H; try discriminate.
  injection H as -> _. by rewrite app_nil_r.
Qed.

Lemma quiet_app cfg tr evs : Forall quiet evs ->
  in_force cfg (tr ++ evs) = in_force cfg tr /\ existsb reconciles (tr ++ evs) = existsb reconciles tr
  /\ existsb changes (tr ++ evs) = existsb changes tr /\ last_apply (tr ++ evs) = last_apply tr.
Proof.
  intros Hq. revert tr. induction Hq as [|ev evs (H1 & H2 & H3 & H4) _ IH]; intros tr; [by rewrite app_nil_r|].
  replace (tr ++ ev :: evs) with ((tr ++ [ev]) ++ evs) by (by rewrite <- app_assoc). destruct (IH (tr ++ [ev])) as (-> & -> & -> & ->).
  unfold in_force, last_apply. rewrite foldl_app, !existsb_app, omap_app. cbn [foldl existsb omap list_omap]. unfold changes. rewrite H1, H2, H3, H4.
  by rewrite !orb_false_r, app_nil_r.
Qed.

Lemma omap_none {A B} (f : A -> option B) l : Forall (fun x => f x = None) l -> omap f l = [].
Proof. induction 1 as [|x l Hx _ IH]; [done|]. cbn [omap list_omap]. by rewrite Hx. Qed.

(** A write tried: the row or the answer it left. *)
Lemma tried_record rec evs err : tried (record_try rec) evs err ->
  Forall quiet evs /\ answers evs = [] /\ (err = None -> rec ∈ rows evs) /\ forall before ev after, evs = before ++ ev :: after ->
    ev_eff ev = SRecord rec \/ exists b, ev_eff ev = SRest b.
Proof.
  intros (fails & Hf & ->). assert (Hall : Forall (fun ev => quiet ev /\ answered ev = None /\ (ev_eff ev = SRecord rec \/ exists b, ev_eff ev = SRest b))
    (fails ++ match err with None => [record_try rec None] | Some _ => [] end)).
  { apply Forall_app. split.
    - eapply Forall_impl; [exact Hf|]. intros ev [[w ->]|(b & x & ->)]; (split; [by repeat split|split; [done|eauto]]).
    - destruct err; [constructor|]. constructor; [|constructor]. split; [by repeat split|split; [done|by left]]. }
  split_and!.
  - eapply Forall_impl; [exact Hall|]. by intros ev (? & _).
  - apply omap_none. eapply Forall_impl; [exact Hall|]. by intros ev (_ & ? & _).
  - intros ->. unfold rows. rewrite omap_app. apply elem_of_app. right. left.
  - intros before ev after Heq. rewrite Heq in Hall. apply Forall_app in Hall as [_ Hall]. apply Forall_cons in Hall as [(_ & _ & H) _]. exact H.
Qed.

Lemma tried_store id oc body boot at_ evs err : tried (finish_try id oc body boot at_) evs err ->
  Forall quiet evs /\ (answers evs = match err with None => [id] | Some _ => [] end) /\ forall before ev after, evs = before ++ ev :: after ->
    ev_eff ev = SFinish id oc body boot at_ \/ exists b, ev_eff ev = SRest b.
Proof.
  intros (fails & Hf & ->). assert (Hall : Forall (fun ev => quiet ev /\ (ev_eff ev = SFinish id oc body boot at_ \/ exists b, ev_eff ev = SRest b))
    (fails ++ match err with None => [finish_try id oc body boot at_ None] | Some _ => [] end)).
  { apply Forall_app. split.
    - eapply Forall_impl; [exact Hf|]. intros ev [[w ->]|(b & x & ->)]; (split; [by repeat split|eauto]).
    - destruct err; [constructor|]. constructor; [|constructor]. split; [by repeat split|by left]. }
  split_and!.
  - eapply Forall_impl; [exact Hall|]. by intros ev (? & _).
  - unfold answers. rewrite omap_app, (omap_none answered fails); [by destruct err|].
    eapply Forall_impl; [exact Hf|]. by intros ev [[w ->]|(b & x & ->)].
  - intros before ev after Heq. rewrite Heq in Hall. apply Forall_app in Hall as [_ Hall]. apply Forall_cons in Hall as [(_ & H) _]. exact H.
Qed.

(** ** One answer *)

(** What [finish] adds to a run. *)
Definition finished_by (cfg : Config) (pending : list Request) (r : Request) (acc evs : list sev) : Prop :=
  Forall quiet evs /\ good cfg pending (acc ++ evs) /\ (answers evs = [] \/ answers evs = [ID r])
  /\ (ID r <> 0 -> hasControl s = true -> answer_tried evs (ID r)).

Lemma good_store cfg pending acc id oc body boot at_ evs err : good cfg pending acc ->
  (forall l, Forall quiet l -> ok_event cfg pending (acc ++ l) (finish_try id oc body boot at_ None)) ->
  tried (finish_try id oc body boot at_) evs err -> good cfg pending (acc ++ evs).
Proof.
  intros Hg Hok (Hq & _ & He)%tried_store. apply good_app; [done|]. intros before ev after Heq.
  assert (Hqb : Forall quiet before) by (rewrite Heq in Hq; by apply Forall_app in Hq as [? _]). specialize (Hok before Hqb).
  unfold ok_event in *. cbn [ev_eff finish_try] in Hok. by destruct (He _ _ _ Heq) as [-> | [b ->]].
Qed.

Lemma good_record cfg pending acc rec evs err : good cfg pending acc -> tried (record_try rec) evs err -> good cfg pending (acc ++ evs).
Proof.
  intros Hg (_ & _ & _ & He)%tried_record. apply good_app; [done|]. intros before ev after Heq. unfold ok_event.
  by destruct (He _ _ _ Heq) as [-> | [b ->]].
Qed.

(** The answer given once the row was tried. *)
Lemma wpa_answer cfg pending r oc body reason now acc evs0 (Q : list sev -> outcome unit -> Prop) :
  Forall quiet evs0 -> answers evs0 = [] -> good cfg pending (acc ++ evs0) -> r ∈ pending ->
  (hasAudit s = true -> row_tried evs0 (row_of_request r oc reason now)) ->
  (sr_recorded body = true -> row_of_request r oc reason now ∈ rows evs0 /\ sr_audit body = Some (operator_row (row_of_request r oc reason now))) ->
  (Kind r = KindReload -> oc = OutcomeApplied -> last_apply acc = Some true) ->
  (forall evs, finished_by cfg pending r acc evs -> Q (acc ++ evs) (Done tt)) ->
  wpa (acc ++ evs0) (if (ID r =? 0) || negb (hasControl s) then Ret tt else retryBusy (call (SFinish (ID r) oc body (st_boot s) now));;; Ret tt) Q.
Proof.
  intros Hq Ha Hg Hr Htried Hrec Happ H. destruct ((ID r =? 0) || negb (hasControl s)) eqn:Hno.
  { apply wpa_ret, H. split_and!; [done|done|by left|]. intros Hid Hc. rewrite Hc in Hno. cbn [negb] in Hno. rewrite orb_false_r in Hno. by apply Z.eqb_eq in Hno. }
  apply wpa_bind, wpa_store. intros evs err Ht (a & rest & Hfirst). apply wpa_ret. rewrite <- app_assoc. apply H.
  destruct (tried_store _ _ _ _ _ _ _ Ht) as (Hq' & Ha' & _). split_and!.
  - by apply Forall_app.
  - rewrite app_assoc. eapply good_store; [done| |exact Ht]. intros l Hl. cbn. exists r, reason. split_and!; [done|done| | |].
    + intros Hau. destruct (Htried Hau) as [x Hx]. exists x. rewrite !elem_of_app. auto.
    + intros Hb. destruct (Hrec Hb) as [Hin ->]. split; [|done]. unfold rows in *. rewrite !omap_app, !elem_of_app. auto.
    + intros Hk Ho. rewrite <- app_assoc. destruct (quiet_app cfg acc (evs0 ++ l)) as (_ & _ & _ & ->); [by apply Forall_app|auto].
  - unfold answers in *. rewrite omap_app, Ha, Ha'. destruct err; auto.
  - intros _ _. rewrite Hfirst. eexists _, _, _, _, _. apply elem_of_app. right. left.
Qed.

Lemma wpa_finish cfg pending r oc res reason acc (Q : list sev -> outcome unit -> Prop) :
  good cfg pending acc -> r ∈ pending -> sr_recorded res = false ->
  (Kind r = KindReload -> oc = OutcomeApplied -> last_apply acc = Some true) ->
  (forall evs, finished_by cfg pending r acc evs -> Q (acc ++ evs) (Done tt)) ->
  wpa acc (finish s r oc res reason) Q.
Proof.
  intros Hg Hr Hres Happ H. unfold finish. apply (wpa_step (E := serve_effects)); [|done]. intros now.
  set (first := Ev (E := serve_effects) SNow (Val now)). assert (Hfirst : Forall quiet [first]) by (by repeat constructor).
  assert (Hg1 : good cfg pending (acc ++ [first])) by (by apply good_snoc). destruct (hasAudit s) eqn:Hau.
  - apply wpa_bind, wpa_bind, wpa_record. intros evs err Ht (a & rest & Heq). apply wpa_ret. rewrite <- app_assoc.
    destruct (tried_record _ _ _ Ht) as (Hq & Ha & Hrows & _).
    apply wpa_answer with (cfg := cfg) (pending := pending) (reason := reason) (evs0 := [first] ++ evs); try done.
    + by apply Forall_app.
    + rewrite app_assoc. eapply good_record; [exact Hg1|exact Ht].
    + intros _. rewrite Heq. eexists. right. left.
    + intros Hb. destruct err as [w|]; cbn [recorded_answer sr_recorded] in Hb; [congruence|]. split; [|done].
      unfold rows. cbn [app omap list_omap wrote first]. by apply Hrows.
  - apply wpa_bind, wpa_ret. apply wpa_answer with (cfg := cfg) (pending := pending) (reason := reason) (evs0 := [first]); try done; congruence.
Qed.

(** ** A reload *)

(** What a reload adds to a run. *)
Record reloaded_by (cfg : Config) (pending : list Request) (acc evs : list sev) (x : Config * (string * ServeRequest * string)) : Prop := {
  rb_good : good cfg pending (acc ++ evs);
  rb_answers : answers evs = [];
  rb_force : x.1 = (in_force cfg (acc ++ evs)).1;
  rb_fresh : sr_recorded x.2.1.2 = false;
  rb_round : existsb reconciles (acc ++ evs) = existsb reconciles acc;
  rb_changes : existsb changes (acc ++ evs) = existsb changes acc || bool_decide (x.2.1.1 = OutcomeApplied);
  rb_applied : x.2.1.1 = OutcomeApplied -> last_apply (acc ++ evs) = Some true
}.

Lemma refused_by cfg pending acc evs refusal api error : good cfg pending (acc ++ evs) -> answers evs = [] ->
  (in_force cfg (acc ++ evs)).1 = (in_force cfg acc).1 -> existsb reconciles evs = false -> existsb changes evs = false ->
  reloaded_by cfg pending acc evs ((in_force cfg acc).1, refuse_reload refusal api error).
Proof.
  intros Hg Ha Hf Hr Hc. split; cbn; try done.
  - by rewrite existsb_app, Hr, orb_false_r.
  - by rewrite existsb_app, Hc.
Qed.

Lemma wpa_reload cfg pending acc (Q : list sev -> outcome (Config * (string * ServeRequest * string)) -> Prop) :
  good cfg pending acc -> existsb reconciles acc = false ->
  (forall evs x, reloaded_by cfg pending acc evs x -> Q (acc ++ evs) (Done x)) ->
  wpa acc (reloadConfig s (in_force cfg acc).1) Q.
Proof.
  intros Hg Hrec H. set (cur := (in_force cfg acc).1).
  assert (Hno : forall evs refusal api error, good cfg pending (acc ++ evs) -> answers evs = [] -> (in_force cfg (acc ++ evs)).1 = cur ->
    existsb reconciles evs = false -> existsb changes evs = false -> wpa (acc ++ evs) (Ret (cur, refuse_reload refusal api error)) Q).
  { intros evs refusal api error Hg' Ha Hf Hr Hc. by apply wpa_ret, H, refused_by. }
  assert (Hnow : forall error, wpa acc (Ret (cur, refuse_reload RefusalInvalidConfig None error)) Q).
  { intros error. rewrite <- (app_nil_r acc). apply Hno; rewrite ?app_nil_r; done. }
  unfold reloadConfig. cbv zeta. destruct (bool_decide _); [apply Hnow|]. apply (wpa_step (E := serve_effects)); [|done].
  intros loaded. set (e1 := Ev (E := serve_effects) (SLoad (configPath s)) (Val loaded)).
  assert (Hg1 : good cfg pending (acc ++ [e1])) by (by apply good_snoc).
  assert (Hcur : forall l, Forall quiet l -> (in_force cfg (acc ++ [e1] ++ l)).1 = cur).
  { intros l Hl. rewrite app_assoc. destruct (quiet_app cfg (acc ++ [e1]) l Hl) as (-> & _). unfold in_force. rewrite foldl_app. by destruct loaded. }
  assert (Hbad : forall error, wpa (acc ++ [e1]) (Ret (cur, refuse_reload RefusalInvalidConfig None error)) Q).
  { intros error. apply Hno; try done. by rewrite <- (app_nil_r [e1]), Hcur. }
  destruct loaded as [next|]; [|apply Hbad]. destruct (ToAccessPolicy next) as [policy|] eqn:Hp; [|apply Hbad].
  destruct (ToQuotaPlan next) as [plan|] eqn:Hplan; [|apply Hbad]. destruct (negb (hasQuotaStore s)); [apply Hbad|].
  apply (wpa_step (E := serve_effects)); [|done]. intros routed. apply (wpa_step (E := serve_effects)); [|done]. intros failed.
  set (e2 := Ev (E := serve_effects) SRouted (Val routed)). set (e3 := Ev (E := serve_effects) (SApplyPolicy policy plan) (Val failed)).
  assert (Hlast : in_force cfg (acc ++ [e1] ++ [e2]) = (cur, Some next)).
  { unfold in_force. rewrite !foldl_app. cbn [foldl force_step e1 e2]. by rewrite surjective_pairing at 1. }
  assert (Hg3 : good cfg pending (acc ++ [e1] ++ [e2] ++ [e3])).
  { rewrite !app_assoc. apply good_snoc; [by apply good_snoc|]. cbn [ok_event ev_eff e3]. unfold ok_event. cbn [ev_eff e3]. split.
    - by rewrite !existsb_app, Hrec.
    - exists next. rewrite <- app_assoc, Hlast. done. }
  rewrite <- !app_assoc. assert (Hf3 : in_force cfg (acc ++ [e1] ++ [e2] ++ [e3]) = force_step (cur, Some next) e3).
  { rewrite !app_assoc. unfold in_force in *. rewrite foldl_app. rewrite <- !app_assoc, Hlast. done. }
  destruct failed as [[fault error]|].
  - destruct fault; apply Hno; try done; by rewrite Hf3.
  - apply wpa_ret, H. split; try done; cbn [fst snd].
    + by rewrite Hf3.
    + by rewrite existsb_app, orb_false_r.
    + rewrite existsb_app. f_equal.
    + intros _. unfold last_apply. rewrite omap_app. cbn. by rewrite last_snoc.
Qed.

(** ** The loop over the requests *)

(** After the requests of [done]. *)
Record at_pass (cfg : Config) (pending done : list Request) (st : pass) (acc : list sev) : Prop := {
  ap_good : good cfg pending acc;
  ap_answers : answers acc ++ map ID (p_redials st) ⊆+ map ID done;
  ap_answered : forall r, r ∈ done -> r ∈ p_redials st \/ ID r = 0 \/ hasControl s = false \/ answer_tried acc (ID r);
  ap_cfg : p_cfg st = (in_force cfg acc).1;
  ap_fresh : existsb reconciles acc = false;
  ap_round : p_round st = existsb changes acc;
  ap_redials : forall r, r ∈ p_redials st -> r ∈ pending /\ Kind r = KindRedial;
  ap_redialed : p_redials st <> [] -> p_round st = true
}.

Lemma answer_tried_app tr evs id : answer_tried tr id -> answer_tried (tr ++ evs) id.
Proof. intros (o & b & t & t' & a & H). exists o, b, t, t', a. apply elem_of_app. by left. Qed.

Lemma pass_step cfg pending done st st' acc e evs r : at_pass cfg pending done st acc ->
  answers e = [] -> existsb reconciles (acc ++ e) = false -> finished_by cfg pending r (acc ++ e) evs ->
  p_redials st' = p_redials st -> p_cfg st' = (in_force cfg (acc ++ e)).1 -> p_round st' = existsb changes (acc ++ e) ->
  at_pass cfg pending (done ++ [r]) st' (acc ++ e ++ evs).
Proof.
  intros [Hg Ha Hd Hc Hf Hr Hrd Hrr] He Hrec (Hq & Hg' & Hans & Htried) Hrds Hcfg Hround. rewrite app_assoc.
  destruct (quiet_app cfg (acc ++ e) evs Hq) as (Hin & Hre & Hch & _). split; rewrite ?Hrds, ?Hin, ?Hre, ?Hch; try done.
  - unfold answers in *. rewrite !omap_app, He, app_nil_r, map_app. cbn [map]. destruct Hans as [-> | ->].
    + rewrite app_nil_r. transitivity (map ID done); [done|]. by apply submseteq_inserts_r.
    + rewrite <- app_assoc, (Permutation_app_comm [ID r]), app_assoc. by apply submseteq_skips_r.
  - intros r' [Hr'|Hr']%elem_of_app.
    + destruct (Hd r' Hr') as [?|[?|[?|?]]]; auto. right. right. right. by apply answer_tried_app, answer_tried_app.
    + apply list_elem_of_singleton in Hr' as ->. destruct (Z.eq_dec (ID r) 0); [auto|]. destruct (hasControl s) eqn:Hcl; [|auto].
      right. right. right. destruct (Htried n eq_refl) as (o & b & t & t' & a & H). exists o, b, t, t', a. apply elem_of_app. by right.
  - intros Hne. specialize (Hrr Hne). rewrite Hround, existsb_app, <- Hr, Hrr. done.
Qed.

Lemma wpa_handle_one cfg pending done st r acc (Q : list sev -> outcome (pass * bool) -> Prop) :
  at_pass cfg pending done st acc -> r ∈ pending ->
  (forall evs st', at_pass cfg pending (done ++ [r]) st' (acc ++ evs) -> Q (acc ++ evs) (Done (st', false))) ->
  (forall evs, at_pass cfg pending done st (acc ++ evs) -> Q (acc ++ evs) (Done (st, true))) ->
  wpa acc (handle_one s st r) Q.
Proof.
  intros Hp Hr Hgo Hstop. pose proof Hp as [Hg Ha Hd Hc Hf Hrn Hrd Hrr]. unfold handle_one. destruct (bool_decide_reflect (Kind r = KindReload)) as [Hk|Hk].
  { rewrite Hc. apply wpa_bind, wpa_reload with (pending := pending); [done|done|]. intros e [cfg' [[oc res] reason]] [Hg' Ha' Hf' Hs' Hrec' Hch' Happ'].
    cbn [fst snd] in *. apply wpa_bind, wpa_finish with (cfg := cfg) (pending := pending); [done..|auto|]. intros evs Hev. apply wpa_ret.
    rewrite <- app_assoc. apply Hgo. eapply pass_step; [exact Hp|done|by rewrite Hrec'|done|done|done|]. cbn [p_round]. by rewrite Hch', Hrn. }
  destruct (bool_decide_reflect (Kind r = KindRedial)) as [Hk'|Hk'].
  - apply (wpa_step (E := serve_effects)); [|done]. intros x. set (e := Ev (E := serve_effects) (SRedial (Target r)) (Val x)).
    assert (Hg' : good cfg pending (acc ++ [e])) by (apply good_snoc; [done|]; split; [done|by exists r]).
    assert (Hf' : existsb reconciles (acc ++ [e]) = false) by (by rewrite existsb_app, Hf).
    assert (Hc' : (in_force cfg (acc ++ [e])).1 = p_cfg st) by (unfold in_force in *; by rewrite foldl_app, Hc).
    assert (Hans : answers (acc ++ [e]) = answers acc) by (unfold answers; rewrite omap_app; apply app_nil_r).
    destruct x as [connected|[fault error]].
    + apply wpa_ret, Hgo. split; cbn [p_redials p_cfg p_round]; try done.
      * rewrite Hans, !map_app, app_assoc. by apply submseteq_skips_r.
      * intros r' [Hr'|Hr']%elem_of_app; [|left; apply elem_of_app; by right].
        destruct (Hd r' Hr') as [?|[?|[?|?]]]; auto; [left; apply elem_of_app; by left|right; right; right; by apply answer_tried_app].
      * by rewrite existsb_app, orb_true_r.
      * intros r' [Hr'|Hr']%elem_of_app; [auto|]. by apply list_elem_of_singleton in Hr' as ->.
    + assert (Hch : existsb changes (acc ++ [e]) = existsb changes acc) by (rewrite existsb_app; apply orb_false_r).
      assert (Hrefuse : forall refusal message reason, wpa (acc ++ [e]) (finish s r OutcomeRefused (refusal_answer refusal None message) reason;;; Ret (st, false)) Q).
      { intros refusal message reason. apply wpa_bind, wpa_finish with (cfg := cfg) (pending := pending); [done..|]. intros evs Hev. apply wpa_ret.
        rewrite <- app_assoc. apply Hgo. eapply pass_step; [exact Hp|done..|]. by rewrite Hch. }
      destruct fault; [apply Hrefuse| |apply Hrefuse]. apply wpa_ret, Hstop. split; try done; [by rewrite Hans| |by rewrite Hch].
      intros r' Hr'. destruct (Hd r' Hr') as [?|[?|[?|?]]]; auto. right. right. right. by apply answer_tried_app.
  - apply wpa_bind, wpa_finish with (cfg := cfg) (pending := pending); [done..|]. intros evs Hev. apply wpa_ret. apply Hgo.
    rewrite <- (app_nil_l evs). eapply pass_step; [exact Hp|done|by rewrite app_nil_r|by rewrite app_nil_r|done|by rewrite app_nil_r|by rewrite app_nil_r].
Qed.

Lemma wpa_handle_each cfg pending rest done st acc (Q : list sev -> outcome (pass * bool) -> Prop) :
  at_pass cfg pending done st acc -> (forall r, r ∈ rest -> r ∈ pending) ->
  (forall evs st', at_pass cfg pending (done ++ rest) st' (acc ++ evs) -> Q (acc ++ evs) (Done (st', false))) ->
  (forall evs st' some, some ⊆+ rest -> at_pass cfg pending (done ++ some) st' (acc ++ evs) -> Q (acc ++ evs) (Done (st', true))) ->
  wpa acc (handle_each s st rest) Q.
Proof.
  revert done st acc. induction rest as [|r rest IH]; intros done st acc Hp Hin Hgo Hstop; cbn [handle_each].
  { apply wpa_ret. rewrite <- (app_nil_r acc). apply Hgo. by rewrite !app_nil_r. }
  apply wpa_bind. eapply wpa_handle_one; [exact Hp|apply Hin; left| |].
  - intros evs st' Hp'. eapply IH; [exact Hp'|intros x Hx; apply Hin; by right| |].
    + intros evs' st'' H. rewrite <- !app_assoc in *. by apply Hgo.
    + intros evs' st'' some Hs H. rewrite <- !app_assoc in *. apply Hstop with (some := [r] ++ some); [by apply submseteq_skip|done].
  - intros evs H. apply wpa_ret. apply Hstop with (some := []); [apply submseteq_nil_l|by rewrite app_nil_r].
Qed.

(** ** The round *)

(** Events that answer no request and change no configuration. *)
Definition neutral (cfg : Config) (acc evs : list sev) : Prop :=
  answers evs = [] /\ in_force cfg (acc ++ evs) = in_force cfg acc /\ existsb changes evs = false.

Lemma neutral_app cfg acc l1 l2 : neutral cfg acc l1 -> neutral cfg (acc ++ l1) l2 -> neutral cfg acc (l1 ++ l2).
Proof.
  intros (Ha & Hf & Hc) (Ha' & Hf' & Hc'). split_and!; [|by rewrite app_assoc, Hf'|by rewrite existsb_app, Hc, Hc'].
  unfold answers in *. by rewrite omap_app, Ha, Ha'.
Qed.

Lemma quiet_neutral cfg acc evs : Forall quiet evs -> answers evs = [] -> neutral cfg acc evs.
Proof.
  intros Hq Ha. destruct (quiet_app cfg acc evs Hq) as (Hf & _ & _ & _). split_and!; [done|done|].
  by destruct (quiet_app cfg [] evs Hq) as (_ & _ & Hc & _).
Qed.

Lemma wpa_expire_each cfg pending blocks removed acc (Q : list sev -> outcome Z -> Prop) : good cfg pending acc ->
  (forall evs n, good cfg pending (acc ++ evs) -> neutral cfg acc evs -> Q (acc ++ evs) (Done n)) ->
  wpa acc (expire_each blocks removed) Q.
Proof.
  revert removed acc. induction blocks as [|b blocks IH]; intros removed acc Hg H; cbn [expire_each].
  { apply wpa_ret. rewrite <- (app_nil_r acc). apply H; rewrite ?app_nil_r; [done|by apply quiet_neutral]. }
  apply (wpa_step (E := serve_effects)); [|done]. intros now. set (e1 := Ev (E := serve_effects) SNow (Val now)).
  apply wpa_bind, wpa_record. intros evs err Ht _. pose proof (tried_record _ _ _ Ht) as (Hq & Ha & _).
  assert (Hg1 : good cfg pending ((acc ++ [e1]) ++ evs)) by (eapply good_record; [by apply good_snoc|exact Ht]).
  assert (Hn1 : neutral cfg acc ([e1] ++ evs)) by (apply quiet_neutral; [apply Forall_app; split; [by repeat constructor|done]|done]).
  rewrite <- app_assoc in *. destruct err as [w|].
  - apply IH; [done|]. intros evs' n Hg' Hn'. rewrite <- (app_assoc acc) in *. apply H; [done|by apply neutral_app].
  - apply (wpa_step (E := serve_effects)); [|done]. intros x. set (e2 := Ev (E := serve_effects) (SRemoveExpired (BSubject b) (Until b)) (Val x)).
    assert (Hn2 : neutral cfg acc (([e1] ++ evs) ++ [e2])).
    { apply neutral_app; [done|]. apply quiet_neutral; [by repeat constructor|done]. }
    apply IH.
    + apply good_snoc; [done|]. destruct Ht as (fails & _ & ->). exists b, (UTC now), (acc ++ [e1] ++ fails). split; [|done]. by rewrite <- !app_assoc.
    + intros evs' n Hg' Hn'. rewrite <- !(app_assoc acc) in *. apply H; [done|by apply neutral_app].
Qed.

Lemma wpa_expire cfg pending acc (Q : list sev -> outcome Z -> Prop) : good cfg pending acc ->
  (forall evs n, good cfg pending (acc ++ evs) -> neutral cfg acc evs -> Q (acc ++ evs) (Done n)) ->
  wpa acc (expireBlocks s) Q.
Proof.
  intros Hg H. assert (Hnone : wpa acc (Ret 0) Q).
  { apply wpa_ret. rewrite <- (app_nil_r acc). apply H; rewrite ?app_nil_r; [done|by apply quiet_neutral]. }
  unfold expireBlocks. destruct (_ || _); [done|]. apply (wpa_step (E := serve_effects)); [|done]. intros x.
  set (e := Ev (E := serve_effects) SExpired (Val x)). assert (Hg' : good cfg pending (acc ++ [e])) by (by apply good_snoc).
  assert (Hn : neutral cfg acc [e]) by (apply quiet_neutral; [by repeat constructor|done]). destruct x as [blocks|]; [|by apply wpa_ret, H].
  apply wpa_expire_each with (cfg := cfg) (pending := pending); [done|]. intros evs n Hg2 Hn2. rewrite <- app_assoc in *.
  apply H; [done|by apply neutral_app].
Qed.

Lemma wpa_round cfg pending acc (Q : list sev -> outcome (Z * bool) -> Prop) : good cfg pending acc ->
  existsb reconciles acc = false -> existsb changes acc = true ->
  (forall evs x, good cfg pending (acc ++ evs) -> neutral cfg acc evs -> existsb reconciles evs = true -> Q (acc ++ evs) (Done x)) ->
  wpa acc (round s) Q.
Proof.
  intros Hg Hr Hch H. unfold round. apply (wpa_step (E := serve_effects)); [|done]. intros x. set (e := Ev (E := serve_effects) SReconcile (Val x)).
  assert (Hn : neutral cfg acc [e]) by (split_and!; [done|unfold in_force; by rewrite foldl_app|done]).
  assert (Hg' : good cfg pending (acc ++ [e])) by (by apply good_snoc).
  assert (Hbeat : forall evs (out : Z * bool), good cfg pending (acc ++ [e] ++ evs) -> neutral cfg acc ([e] ++ evs) ->
    wpa (acc ++ [e] ++ evs) (call SBeat;;; Ret out) Q).
  { intros evs out Hg2 Hn2. apply (wpa_step (E := serve_effects)); [|done]. intros b. apply wpa_ret.
    replace ((acc ++ [e] ++ evs) ++ [_]) with (acc ++ ([e] ++ evs ++ [Ev (E := serve_effects) SBeat (Val b)])) by (by rewrite <- !app_assoc).
    apply H; [rewrite !app_assoc; rewrite <- (app_assoc acc); by apply good_snoc| |done].
    rewrite app_assoc. apply neutral_app; [done|]. apply quiet_neutral; [by repeat constructor|done]. }
  assert (Hmore : wpa (acc ++ [e]) (f <- call SRefresh;; match f with
    | RefreshClosed => Ret (0, true)
    | _ => call SDrift;;; expireBlocks s;;; call SBeat;;; Ret (refreshEvery s, false) end) Q).
  { apply (wpa_step (E := serve_effects)); [|done]. intros f. set (e2 := Ev (E := serve_effects) SRefresh (Val f)).
    assert (Hn2 : neutral cfg acc ([e] ++ [e2])) by (apply neutral_app; [done|]; apply quiet_neutral; [by repeat constructor|done]).
    assert (Hg2 : good cfg pending ((acc ++ [e]) ++ [e2])) by (by apply good_snoc).
    assert (Hrest : wpa ((acc ++ [e]) ++ [e2]) (call SDrift;;; expireBlocks s;;; call SBeat;;; Ret (refreshEvery s, false)) Q).
    { apply (wpa_step (E := serve_effects)); [|done]. intros d. set (e3 := Ev (E := serve_effects) SDrift (Val d)).
      apply wpa_bind, wpa_expire with (cfg := cfg) (pending := pending); [by apply good_snoc|]. intros evs n Hg4 Hn4.
      rewrite <- !app_assoc in *. apply (Hbeat ([e2] ++ [e3] ++ evs)); [done|].
      change (neutral cfg acc (([e] ++ [e2]) ++ ([e3] ++ evs))). apply neutral_app; [done|]. apply neutral_app; [apply quiet_neutral; [by repeat constructor|done]|].
      by rewrite <- !app_assoc. }
    destruct f; [exact Hrest| |exact Hrest]. apply wpa_ret. rewrite <- app_assoc in *. by apply H. }
  destruct x; try exact Hmore; [by apply wpa_ret, H|]. specialize (Hbeat [] (registryRetryEvery, false)). rewrite app_nil_r in Hbeat. by apply Hbeat.
Qed.

(** ** The redials' answers *)

Lemma wpa_answer_redials cfg pending redialed rs acc (Q : list sev -> outcome unit -> Prop) :
  good cfg pending acc -> existsb reconciles acc = true -> (forall r, r ∈ rs -> r ∈ pending /\ Kind r = KindRedial) ->
  (forall evs, Forall quiet evs -> good cfg pending (acc ++ evs) -> answers evs ⊆+ map ID rs ->
     (forall r, r ∈ rs -> ID r <> 0 -> hasControl s = true -> answer_tried evs (ID r)) -> Q (acc ++ evs) (Done tt)) ->
  wpa acc (answer_redials s redialed rs) Q.
Proof.
  revert acc. induction rs as [|r rs IH]; intros acc Hg Hrec Hin H; cbn [answer_redials].
  { apply wpa_ret. rewrite <- (app_nil_r acc). apply H; rewrite ?app_nil_r; [done|done|apply submseteq_nil_l|by intros r ?%elem_of_nil]. }
  apply (wpa_step (E := serve_effects)); [|done]. intros [live cause]. set (e := Ev (E := serve_effects) (SBackendState (Target r)) (Val (live, cause))).
  destruct (Hin r) as [Hr Hk]; [left|]. assert (Hq : Forall quiet [e]) by (by repeat constructor).
  apply wpa_bind, wpa_finish with (cfg := cfg) (pending := pending); [by apply good_snoc|done|done|by rewrite Hk|].
  intros evs (Hq1 & Hg1 & Ha1 & Ht1). rewrite <- app_assoc in *. assert (Hq2 : Forall quiet ([e] ++ evs)) by (by apply Forall_app).
  apply IH; [done|by rewrite existsb_app, Hrec|intros r' Hr'; apply Hin; by right|].
  intros evs2 Hq3 Hg2 Ha2 Ht2. rewrite <- app_assoc in *. apply H; [change (Forall quiet (([e] ++ evs) ++ evs2)); by apply Forall_app|done| |].
  - unfold answers in *. rewrite !omap_app. cbn [omap list_omap answered e app map]. destruct Ha1 as [-> | ->]; [by apply submseteq_cons|by apply submseteq_skip].
  - intros r' [->|Hr']%elem_of_cons Hid Hc.
    + destruct (Ht1 Hid Hc) as (o & b & t & t' & a & Hi). exists o, b, t, t', a. rewrite !elem_of_app. auto.
    + destruct (Ht2 r' Hr' Hid Hc) as (o & b & t & t' & a & Hi). exists o, b, t, t', a. rewrite !elem_of_app. auto.
Qed.

(** ** Every run *)

(** The requests a run answers: those it read, or the signal's own. *)
Definition taken (tr : list sev) : list Request :=
  match (if hasControl s then head tr else None) with
  | Some ev => match requests ev with Some ((_ :: _) as rs) => rs | _ => [signal_request] end
  | None => [signal_request]
  end.

(** What a run comes to. *)
Record answered_all (cfg : Config) (pending : list Request) (tr : list sev) (cfg' : Config) (stop : bool) : Prop := {
  aa_events : good cfg pending tr;
  aa_config : cfg' = (in_force cfg tr).1;
  aa_once : answers tr ⊆+ map ID pending;
  aa_each : stop = false -> hasControl s = true -> forall r, r ∈ pending -> ID r <> 0 -> answer_tried tr (ID r);
  aa_round : stop = false -> existsb reconciles tr = existsb changes tr
}.

Lemma submseteq_prefix {A} (l1 l2 l3 : list A) : l1 ++ l2 ⊆+ l3 -> l1 ⊆+ l3.
Proof. intros H. etransitivity; [|exact H]. apply submseteq_inserts_r. done. Qed.

(** From the end of the loop, with or without a round. *)
Lemma wpa_last cfg pending st acc evs next (Q : list sev -> outcome (Config * (bool * Z)) -> Prop) : at_pass cfg pending pending st acc ->
  good cfg pending (acc ++ evs) -> neutral cfg acc evs -> existsb reconciles (acc ++ evs) = existsb changes acc ->
  (forall tr cfg' stop next, answered_all cfg pending (acc ++ tr) cfg' stop -> Q (acc ++ tr) (Done (cfg', (stop, next)))) ->
  wpa (acc ++ evs) (answer_redials s (p_redialed st) (p_redials st);;; Ret (p_cfg st, (false, next))) Q.
Proof.
  intros [Hg Ha Hd Hc Hf Hr Hrd Hrr] Hg' (Hna & Hnf & Hnc) Hround H.
  assert (Hend : forall l, Forall quiet l -> good cfg pending ((acc ++ evs) ++ l) -> answers l ⊆+ map ID (p_redials st) ->
    (forall r, r ∈ p_redials st -> ID r <> 0 -> hasControl s = true -> answer_tried l (ID r)) ->
    Q ((acc ++ evs) ++ l) (Done (p_cfg st, (false, next)))).
  { intros l Hq Hgl Hal Htl. destruct (quiet_app cfg (acc ++ evs) l Hq) as (Hql & Hrl & Hcl & _). rewrite <- app_assoc in *. apply H.
    split; [done|by rewrite Hql, Hnf| | |].
    - unfold answers in *. rewrite !omap_app, Hna. cbn [app]. etransitivity; [|exact Ha]. by apply submseteq_skips_l.
    - intros _ Hcontrol r Hin Hid. destruct (Hd r Hin) as [Hin'|[?|[?|?]]]; [|done|congruence|by apply answer_tried_app].
      destruct (Htl r Hin' Hid Hcontrol) as (o & b & t & t' & a & Hl). exists o, b, t, t', a. rewrite !elem_of_app. auto.
    - intros _. rewrite Hrl, Hcl, Hround, existsb_app, Hnc. by rewrite orb_false_r. }
  apply wpa_bind. destruct (p_redials st) as [|rd rds] eqn:Hrds.
  - cbn [answer_redials]. apply wpa_ret, wpa_ret. rewrite <- (app_nil_r (acc ++ evs)).
    apply Hend; rewrite ?app_nil_r; [done|done|apply submseteq_nil_l|by intros r ?%elem_of_nil].
  - rewrite <- Hrds in *. apply wpa_answer_redials with (cfg := cfg) (pending := pending); [done| |exact Hrd|].
    + rewrite Hround, <- Hr. apply Hrr. by rewrite Hrds.
    + intros l Hq Hgl Hal Htl. by apply wpa_ret, Hend.
Qed.

Lemma wpa_requests cfg pending acc (Q : list sev -> outcome (Config * (bool * Z)) -> Prop) :
  Forall quiet acc -> answers acc = [] -> good cfg pending acc ->
  (forall evs cfg' stop next, answered_all cfg pending (acc ++ evs) cfg' stop -> Q (acc ++ evs) (Done (cfg', (stop, next)))) ->
  wpa acc (x <- handle_each s {| p_cfg := cfg; p_round := false; p_redialed := ∅; p_redials := [] |} pending;;
    let '(st, closed) := x in
    if closed : bool then Ret (p_cfg st, (true, 0))
    else
      y <- (if p_round st then round s else Ret (0, false));;
      let '(next, stop) := y in
      if stop : bool then Ret (p_cfg st, (true, 0))
      else answer_redials s (p_redialed st) (p_redials st);;; Ret (p_cfg st, (false, next))) Q.
Proof.
  intros Hq Ha Hg H. destruct (quiet_app cfg [] acc Hq) as (Hf0 & Hr0 & Hc0 & _). cbn [app] in *.
  apply wpa_bind, wpa_handle_each with (cfg := cfg) (pending := pending) (done := []).
  { split; cbn; rewrite ?Ha, ?Hf0, ?Hr0, ?Hc0; try done; by intros r ?%elem_of_nil. }
  { done. }
  2: { intros evs st some Hs [Hg' Ha' _ Hc' _ _ _ _]. apply wpa_ret, H. split; try done. cbn [app] in Ha'. apply submseteq_prefix in Ha'.
       etransitivity; [exact Ha'|]. apply fmap_submseteq. exact Hs. }
  intros evs st Hp. cbn [app] in Hp. pose proof Hp as [Hg' Ha' _ Hc' Hf' Hr' _ _].
  assert (Hfin : forall tr cfg' stop next, answered_all cfg pending ((acc ++ evs) ++ tr) cfg' stop -> Q ((acc ++ evs) ++ tr) (Done (cfg', (stop, next)))).
  { intros tr cfg' stop next Hall. rewrite <- app_assoc in *. by apply H. }
  apply wpa_bind. destruct (p_round st).
  - apply wpa_round with (cfg := cfg) (pending := pending); [done..|]. intros evs2 [next stop] Hg2 Hn2 Hrec2. destruct stop.
    + apply wpa_ret, Hfin. destruct Hn2 as (Ha2 & Hf2 & _). split; [done|by rewrite Hf2| |done..].
      unfold answers in *. rewrite omap_app, Ha2, app_nil_r. by eapply submseteq_prefix.
    + eapply wpa_last; [exact Hp|done|done| |exact Hfin]. by rewrite existsb_app, Hf', Hrec2.
  - apply wpa_ret. rewrite <- (app_nil_r (acc ++ evs)). eapply wpa_last; [exact Hp|by rewrite app_nil_r|by apply quiet_neutral|by rewrite app_nil_r, Hf'|exact Hfin].
Qed.


Lemma wpa_supersede cfg pending rs acc (Q : list sev -> outcome unit -> Prop) : good cfg pending acc -> (forall r, r ∈ rs -> r ∈ pending) ->
  (forall evs, good cfg pending (acc ++ evs) -> (forall r, r ∈ rs -> ID r <> 0 -> hasControl s = true -> answer_tried (acc ++ evs) (ID r)) ->
     Q (acc ++ evs) (Done tt)) ->
  wpa acc (supersede s rs) Q.
Proof.
  revert acc. induction rs as [|r rs IH]; intros acc Hg Hin H; cbn [supersede].
  { apply wpa_ret. rewrite <- (app_nil_r acc). apply H; [by rewrite app_nil_r|by intros r ?%elem_of_nil]. }
  apply wpa_bind, wpa_finish with (cfg := cfg) (pending := pending); [done|apply Hin; left|done|done|]. intros evs (_ & Hg1 & _ & Ht1).
  apply IH; [done|intros r' Hr'; apply Hin; by right|]. intros evs2 Hg2 Ht2. rewrite <- app_assoc in *. apply H; [done|].
  intros r' [->|Hr']%elem_of_cons Hid Hc; [|by apply Ht2]. destruct (Ht1 Hid Hc) as (o & b & t & t' & a & Hi). exists o, b, t, t', a.
  rewrite !elem_of_app. auto.
Qed.

(** Fact [restart_answers_what_is_left]: before it serves, a process tries to answer as superseded every
    request it reads as pending, each on its row first, and records itself. *)
Theorem restart_answers_what_is_left cfg tr out : hasControl s = true -> runs (announce s) tr out ->
  out = Done tt /\ exists read, head tr = Some (Ev (E := serve_effects) SPending (Val read))
    /\ match read with
       | Ok pending => good cfg pending tr /\ forall r, r ∈ pending -> ID r <> 0 -> answer_tried tr (ID r)
       | Err _ => True
       end
    /\ exists a, Ev (E := serve_effects) (SRecordProcess {| PID := st_pid s; PBoot := st_boot s; StartToken := startToken s |}) a ∈ tr.
Proof.
  intros Hc. revert tr out. apply wpa_runs. unfold announce. rewrite Hc. cbn [negb]. apply (wpa_step (E := serve_effects)); [|done].
  intros read. cbn [app]. set (e := Ev (E := serve_effects) SPending (Val read)). apply wpa_bind. destruct read as [pending|error].
  - apply wpa_supersede with (cfg := cfg) (pending := pending); [apply (good_snoc cfg _ [] e); [apply good_nil|done]|done|].
    intros evs Hg Ht. apply (wpa_step (E := serve_effects)); [|done]. intros a. apply wpa_ret. split; [done|]. exists (Ok pending). split; [done|]. split.
    + split; [by apply good_snoc|]. intros r Hr Hid. by apply answer_tried_app, Ht.
    + exists (Val a). rewrite !elem_of_app. right. left.
  - apply wpa_ret. apply (wpa_step (E := serve_effects)); [|done]. intros a. apply wpa_ret. split; [done|]. exists (Err error).
    split; [done|]. split; [done|]. exists (Val a). right. left.
Qed.
End properties.

(** ** Witness *)

Section demo.
#[local] Existing Instances OciPlan.listed_order Redact.demo_print.
#[local] Instance demo_texts : ErrorTexts := {| policy_text := fun _ => "invalid"; plan_text := fun _ => "invalid" |}.

Definition demo_stack : serveStack :=
  {| configPath := "/etc/gatte/gatte.toml"; st_boot := zero_time; refreshEvery := 5 * minute; st_pid := 42; startToken := "";
     hasControl := true; hasAudit := true; hasBlocks := true; hasQuotaStore := true |}.

Definition demo_asks : list Request :=
  [ {| ID := 1; Kind := KindReload; Target := ""; Actor := "(operator:alice)"; Tag := ""; RequestedAt := zero_time; State := StatePending;
       DoneAt := zero_time; Control.Outcome := ""; Control.Result := ""; Boot := zero_time |};
    {| ID := 2; Kind := KindRedial; Target := "casemgmt"; Actor := ""; Tag := "[cli]"; RequestedAt := zero_time; State := StatePending;
       DoneAt := zero_time; Control.Outcome := ""; Control.Result := ""; Boot := zero_time |} ].

Definition demo_block : Block := {| BSubject := "u1"; Blocklist.Reason := "laptop lost"; By := "(operator:bob)"; At := zero_time; Until := Time second 0 |}.

(** Two requests, a file with another role, one expired block; the rows about the redial cannot be written. *)
Definition demo_world (e : serve_effect) : reply (serve_answer e) :=
  match e with
  | SPending => Val (Ok demo_asks)
  | SRecordProcess _ => Val None
  | SFinish _ _ _ _ _ => Val None
  | SRecord rec => Val (if bool_decide (Tool rec = UpstreamRedial) then Some {| we_busy := false; we_text := "disk full" |} else None)
  | SLoad _ => Val (Ok (demo_with [demo_listed] {[ "ir" := "dfir" ]}))
  | SRouted => Val ["cases.close"]
  | SApplyPolicy _ _ => Val None
  | SRedial _ => Val (Ok true)
  | SBackendState _ => Val (true, "")
  | SReconcile => Val Reconciled
  | SRefresh => Val Refreshed
  | SDrift => Val tt
  | SBeat => Val tt
  | SNow => Val (Time (63893739845 * second) 0)
  | SRest _ => Val false
  | SExpired => Val (Ok [demo_block])
  | SRemoveExpired _ _ => Val (Ok true)
  end.

Definition demo_run := exec (E := serve_effects) demo_world (handleControl demo_stack demo_config).

End demo.
