(* ===== verification/AdminPorts.v ===== *)
(** * The management service: its ports and its answers ([internal/admin/service.go])

    Every operator action, whether of the command line or of the management API, is an operation of this
    service.  Its ports are effects: whatever the stores, the identity provider's file, the vault and
    other processes do between two of them is an answer of the environment.  What every operation
    shares is here: who it is attributed to, how a failure is mapped onto the contract, the retry of a
    busy database, the row it writes, and the reading of a run.  The sentences shown to the operator are
    left out; an error is its code and its details, a warning its code. *)
From Stdlib Require Import ZArith Lia Ascii.
From stdpp Require Import base strings list gmap.
From S2P Require Import Prelude.
From S2P Require Import GoStrings.
From S2P Require Import GoTime.
From S2P Require Import AuditLog.
From S2P Require Import Access.
From S2P Require Import Blocklist.
From S2P Require Import Quarantine.
From S2P Require Import Prog.
From S2P Require Import Config.
From S2P Require Import ServeControl.

(** ** Answers *)

Record RoleCoverage := { cov_role : string; cov_how : string; cov_wildcard : bool; cov_non_read : bool }.

Inductive detail := DText (text : string) | DCallable (covered : list RoleCoverage).

(** [adminapi.Error]: its code and its details. *)
Record api_error := { e_code : string; e_details : list (string * detail) }.

Definition refusal (code : string) : api_error := {| e_code := code; e_details := [] |}.
Definition With (e : api_error) (key value : string) : api_error :=
  {| e_code := e_code e; e_details := e_details e ++ [(key, DText value)] |}.

Definition CodeBadRequest : string := "bad_request".
Definition CodeInvalidArgument : string := "invalid_argument".
Definition CodeFingerprintRequired : string := "fingerprint_required".
Definition CodeGroupNotMapped : string := "group_not_mapped".
Definition CodePeerUnattributable : string := "peer_unattributable".
Definition CodeForbiddenPeer : string := "forbidden_peer".
Definition CodeNotFound : string := "not_found".
Definition CodeFingerprintMismatch : string := "fingerprint_mismatch".
Definition CodeFingerprintMoved : string := "fingerprint_moved".
Definition CodeDefinitionUnavailable : string := "definition_unavailable".
Definition CodeChangedNotRevocable : string := "changed_not_revocable".
Definition CodeAccountExists : string := "account_exists".
Definition CodePayloadTooLarge : string := "payload_too_large".
Definition CodeCorruptState : string := "corrupt_state".
Definition CodeInternal : string := "internal".
Definition CodeConfigUnavailable : string := "config_unavailable".
Definition CodeStoreBusy : string := "store_busy".
Definition CodeAccountNotManaged : string := "account_not_managed".
Definition CodeManifestRequired : string := "manifest_required".
Definition CodeManifestMismatch : string := "manifest_mismatch".
Definition CodeNotSensitive : string := "not_sensitive".
Definition CodeNotApproved : string := "not_approved".
Definition CodeNoNonReadGrant : string := "no_non_read_grant".
Definition CodeFeatureDisabled : string := "feature_disabled".

Definition WarnNeverSeen : string := "never_seen".
Definition WarnNoRoleGrants : string := "no_role_grants".
Definition WarnWildcardGrant : string := "wildcard_grant".
Definition WarnIdPReload : string := "idp_reload".
Definition WarnSensitiveUncleared : string := "sensitive_uncleared".
Definition WarnOffboardIncomplete : string := "offboard_incomplete".
Definition WarnKeyNotTrusted : string := "key_not_trusted".

Record ActionResult := { Changed : bool; Recorded : bool; Audit : option OperatorRow; Warnings : list string }.

Definition newResult : ActionResult := {| Changed := false; Recorded := false; Audit := None; Warnings := [] |}.
Definition changed (r : ActionResult) : ActionResult :=
  {| Changed := true; Recorded := Recorded r; Audit := Audit r; Warnings := Warnings r |}.
Definition warn (r : ActionResult) (codes : list string) : ActionResult :=
  {| Changed := Changed r; Recorded := Recorded r; Audit := Audit r; Warnings := Warnings r ++ codes |}.

(** ** Failures of the ports *)

Inductive fault :=
| Busy (text : string)          (* the database stayed locked: nothing was written *)
| Sentinel (e : q_error) (text : string)
| NoAccount | AccountExists     (* [idp.ErrNotFound], [idp.ErrExists] *)
| Refused (e : api_error)       (* an [*adminapi.Error] of the adapter *)
| Failed (text : string).

Definition IsBusy (f : fault) : bool := match f with Busy _ => true | _ => false end.

Definition storeErr (f : fault) : api_error :=
  match f with
  | Busy _ => refusal CodeStoreBusy
  | Sentinel ErrInvalidStatus _ => refusal CodeCorruptState
  | Refused e => e
  | _ => refusal CodeInternal
  end.

(** ** The ports *)

Record Account := { Username : string; DisplayName : string; Email : string; acct_groups : list string; Disabled : bool }.

Record Maintenance := { m_target : string; m_message : string; m_until : time; m_started_at : time; m_set_by : string; m_set_at : time }.
Record StartResult := { sr_stored : Maintenance; sr_previous : option Maintenance; sr_changed : bool }.

Record SignOutcome := { KeyFingerprint : string; Trusted : bool }.

Record UpstreamAuth := { au_kind : string; au_name : string; au_secret : string }.
Record RegisterUpstreamRequest := {
  rq_name : string; rq_url : string; OpenAPIURL : string; OpenAPIDocument : string; rq_auth_kind : string; rq_auth_name : string; KeyName : string
}.
(** What the ingestion answers: each tool's class, and the entry it registered. *)
Record registered := { rg_name : string; rg_url : string; rg_auth : UpstreamAuth; rg_tools : list (string * string) }.
Record deregistered := { dg_registered : bool; dg_signature : bool; dg_forgotten : Z }.

Inductive admin_effect :=
| AConfig | ANow | ARest (backoff : Z) | ARecord (rec : AuditRecord)
| AHasAnalyst (subject : string)
| ABlocks | APlace (b : Block) | AUnblock (subject : string)
| AGet (server tool : string) | ADefinition (hash : string) | AListTools (server : string)
| AApprove (server tool hash : string) | ARevoke (server tool : string) | AClear (server tool : string)
| AApproveSet (server manifest : string)
| AUpstreams | AStart (m : Maintenance) | AEnd (target : string)
| AOpen | AAccounts | AAdd (a : Account) (hash : string) | ASetGroups (username : string) (groups : list string)
| ASetDisabled (username : string) (disabled : bool) | ASetPassword (username hash : string) | ADelete (username : string)
| ANewPassword
| ACheckPaths (paths : list string) | ACheckAgeKey (path : string)
| ASetSecret (name value : string) | ADeleteSecret (name : string)
| AReadRoles | AValidateRoles (text : string) | AWriteRoles (text : string)
| ARegisterHTTP (req : RegisterUpstreamRequest) | ADeregister (name : string) | ASign (name : string).

(** [APlace]: whether it was placed, and the ended block it replaced.  [ANewPassword]: the password and its hash. *)
Definition admin_answer (e : admin_effect) : Type :=
  match e with
  | AConfig => result api_error Config
  | ANow => time
  | ARest _ => bool
  | ARecord _ | AStart _ | AEnd _ | APlace _ | AUnblock _ | ABlocks | AGet _ _ | ADefinition _ | AListTools _
  | AApprove _ _ _ | ARevoke _ _ | AClear _ _ | AApproveSet _ _ | AUpstreams | AOpen | AAccounts | AAdd _ _ | ASetGroups _ _
  | ASetDisabled _ _ | ASetPassword _ _ | ADelete _ | ANewPassword | ASetSecret _ _ | ADeleteSecret _ | AReadRoles | AWriteRoles _
  | AHasAnalyst _ | ARegisterHTTP _ | ADeregister _ | ASign _ =>
      result fault
        match e with
        | APlace _ => bool * option Block
        | AUnblock _ | AHasAnalyst _ | ASetSecret _ _ | ADeleteSecret _ => bool
        | ABlocks => list Block
        | AGet _ _ | AApprove _ _ _ | ARevoke _ _ | AClear _ _ => Quarantine.Tool
        | AListTools _ => list Quarantine.Tool
        | AApproveSet _ _ => list Approval
        | AUpstreams => list string
        | AStart _ => StartResult
        | AEnd _ => option Maintenance
        | AAccounts => list Account
        | ANewPassword => string * string
        | AReadRoles => string
        | ARegisterHTTP _ => registered
        | ADeregister _ => deregistered
        | ASign _ => SignOutcome
        | _ => unit
        end
  | ACheckPaths _ | ACheckAgeKey _ => option api_error
  | AValidateRoles _ => option string
  end.

#[export] Instance admin_effects : Effects := {| eff := admin_effect; ans := admin_answer; may_panic := fun _ => false |}.

Definition ask (e : admin_effect) : prog (admin_answer e) := trigger (E := admin_effects) e.

(** Which of the ports this backend was built with. *)
Record ports := {
  hasBlockStore : bool; hasTools : bool; hasTrail : bool; hasMaintenance : bool; hasUpstreams : bool; hasAccounts : bool; hasVault : bool;
  hasRoles : bool; hasRegister : bool; hasDeregister : bool; hasSign : bool; checksPaths : bool; checksAgeKey : bool
}.

Definition need (ok : bool) : option api_error := if ok then None else Some (refusal CodeInternal).

(** ** Who acts *)

Record Actor := { a_name : string; a_via : string; a_front : string; a_root : bool; a_operator : bool }.

Definition OperatorIdentity (name : string) : string := "(operator:" +:+ name +:+ ")".
Definition Actor_Identity (a : Actor) : string := OperatorIdentity (a_name a).

Definition Actor_Tag (a : Actor) : string :=
  let front := if bool_decide (a_front a = "") then "api" else a_front a in
  "[" +:+ front +:+ "]" +:+ (if bool_decide (a_via a = "") then "" else " [via " +:+ a_via a +:+ "]").

Definition unattributable (c : ascii) : bool := bool_decide (bz c ∈ [32; 9; 13; 10; 40; 41]).

Definition checkActor (a : Actor) : option api_error :=
  if bool_decide (a_name a = "") || negb (str_forallb (fun c => negb (unattributable c)) (a_name a))
  then Some (refusal CodePeerUnattributable) else None.

(** ** The Tool of an operator row *)

Definition ToolApprove : string := "(tool approve)".
Definition ToolRevoke : string := "(tool revoke)".
Definition ToolClear : string := "(tool clear)".
Definition ToolApproveSet : string := "(tool approve set)".
Definition AccessBlock : string := "(access block)".
Definition AccessUnblock : string := "(access unblock)".
Definition AccountAdd : string := "(account add)".
Definition AccountGroups : string := "(account groups)".
Definition AccountDisable : string := "(account disable)".
Definition AccountEnable : string := "(account enable)".
Definition AccountReset : string := "(account reset password)".
Definition AccountDelete : string := "(account delete)".
Definition AccountOffboard : string := "(account offboard)".
Definition MaintenanceOn : string := "(maintenance on)".
Definition MaintenanceOff : string := "(maintenance off)".
Definition UpstreamRegister : string := "(upstream register)".
Definition UpstreamDeregister : string := "(upstream deregister)".
Definition UpstreamSign : string := "(upstream sign)".
Definition SecretSet : string := "(secret set)".
Definition SecretDelete : string := "(secret delete)".
Definition RolesSet : string := "(roles set)".

(** ** What every operation does *)

Definition operatorRow (a : Actor) (tool reason : string) (at_ : time) : AuditRecord :=
  {| AnalystIdentity := Actor_Identity a; AuditLog.Tool := tool; TargetUpstream := OperatorTarget; Timestamp := at_;
     AuditLog.Outcome := OutcomeAllowed; AuditLog.Reason := reason; SourceAddress := ""; AnalystName := "" |}.

Fixpoint busy_tries {R} (more : nat) (backoff : Z) (fn : prog (E := admin_effects) (result fault R)) : prog (E := admin_effects) (result fault R) :=
  r <- fn;;
  match r with
  | Err (Busy text) =>
      ended <- ask (ARest backoff);;
      if ended : bool then Ret r else match more with O => Ret r | S more => busy_tries more (2 * backoff) fn end
  | _ => Ret r
  end.

(** [busyAttempts] tries. *)
Definition retry {R} (fn : prog (E := admin_effects) (result fault R)) : prog (E := admin_effects) (result fault R) :=
  busy_tries (busyAttempts - 1) 100000000 fn.

Definition recorded (res : ActionResult) (rec : AuditRecord) (r : result fault unit) : ActionResult :=
  match r with
  | Err _ => {| Changed := Changed res; Recorded := false; Audit := None; Warnings := Warnings res ++ [WarnAuditWriteFailed] |}
  | Ok _ => {| Changed := Changed res; Recorded := true; Audit := Some (operator_row rec); Warnings := Warnings res |}
  end.

(** The row of a change that took effect. *)
Definition record (res : ActionResult) (rec : AuditRecord) : prog (E := admin_effects) ActionResult :=
  r <- retry (ask (ARecord rec));; Ret (recorded res rec r).

(** The row of [tool] for [reason], now. *)
Definition record_now (a : Actor) (res : ActionResult) (tool reason : string) : prog (E := admin_effects) ActionResult :=
  now <- ask ANow;; record res (operatorRow a tool reason (UTC now)).

(** ** Reading a run *)

Abbreviation aev := (event (E := admin_effects)).

(** Whether an event changed something an operator acts on. *)
Definition acted (ev : aev) : bool :=
  match ev with Ev e a =>
    match e return reply (admin_answer e) -> bool with
    | APlace _ => fun a => match a with Val (Ok (placed, _)) => placed | _ => false end
    | AUnblock _ => fun a => match a with Val (Ok _) => true | _ => false end
    | AApprove _ _ _ => fun a => match a with Val (Ok _) => true | _ => false end
    | ARevoke _ _ => fun a => match a with Val (Ok _) => true | _ => false end
    | AClear _ _ => fun a => match a with Val (Ok _) => true | _ => false end
    | AApproveSet _ _ => fun a => match a with Val (Ok _) => true | _ => false end
    | AStart _ => fun a => match a with Val (Ok r) => sr_changed r | _ => false end
    | AEnd _ => fun a => match a with Val (Ok (Some _)) => true | _ => false end
    | AAdd _ _ => fun a => match a with Val (Ok _) => true | _ => false end
    | ASetGroups _ _ => fun a => match a with Val (Ok _) => true | _ => false end
    | ASetDisabled _ _ => fun a => match a with Val (Ok _) => true | _ => false end
    | ASetPassword _ _ => fun a => match a with Val (Ok _) => true | _ => false end
    | ADelete _ => fun a => match a with Val (Ok _) => true | _ => false end
    | ASetSecret _ _ => fun a => match a with Val (Ok _) => true | _ => false end
    | ADeleteSecret _ => fun a => match a with Val (Ok existed) => existed | _ => false end
    | AWriteRoles _ => fun a => match a with Val (Ok _) => true | _ => false end
    | ARegisterHTTP _ => fun a => match a with Val (Ok _) => true | _ => false end
    | ADeregister _ => fun a => match a with Val (Ok d) => dg_registered d || dg_signature d || (0 <? dg_forgotten d) | _ => false end
    | ASign _ => fun a => match a with Val (Ok _) => true | _ => false end
    | _ => fun _ => false
    end a
  end.

(** The row an event tried to write, and whether it was written. *)
Definition row_try (ev : aev) : option (AuditRecord * bool) :=
  match ev with Ev e a =>
    match e return reply (admin_answer e) -> option (AuditRecord * bool) with
    | ARecord rec => fun a => Some (rec, match a with Val (Ok _) => true | _ => false end)
    | _ => fun _ => None
    end a
  end.

Definition acts (tr : list aev) : bool := existsb acted tr.
Definition tries (tr : list aev) : list (AuditRecord * bool) := omap row_try tr.
Definition written (tr : list aev) : list AuditRecord := omap (fun x : AuditRecord * bool => if x.2 then Some x.1 else None) (tries tr).

(** Nothing happened yet. *)
Definition idle (tr : list aev) : Prop := acts tr = false /\ tries tr = [].

Lemma acts_app tr1 tr2 : acts (tr1 ++ tr2) = acts tr1 || acts tr2.
Proof. apply existsb_app. Qed.

Lemma tries_app tr1 tr2 : tries (tr1 ++ tr2) = tries tr1 ++ tries tr2.
Proof. apply omap_app. Qed.

Lemma written_app tr1 tr2 : written (tr1 ++ tr2) = written tr1 ++ written tr2.
Proof. unfold written. by rewrite tries_app, omap_app. Qed.

Lemma idle_nil : idle [].
Proof. done. Qed.

Lemma idle_app tr1 tr2 : idle tr1 -> idle tr2 -> idle (tr1 ++ tr2).
Proof. intros [A1 T1] [A2 T2]. split; [by rewrite acts_app, A1, A2|by rewrite tries_app, T1, T2]. Qed.

Lemma idle_written tr : idle tr -> written tr = [].
Proof. intros [_ T]. unfold written. by rewrite T. Qed.

(** ** Walking a program *)

(** One event of an effect. *)
Definition did (e : admin_effect) (x : admin_answer e) : aev := Ev (E := admin_effects) e (Val x).

Lemma wpa_admin_ask {B} acc e (f : admin_answer e -> prog (E := admin_effects) B) (Q : list aev -> outcome B -> Prop) :
  (forall x, wpa (acc ++ [did e x]) (f x) Q) -> wpa acc (bind (ask e) f) Q.
Proof. intros H. by apply (wpa_step (E := admin_effects)). Qed.

Section retry.
Context {R : Type} (fn : prog (E := admin_effects) (result fault R)) (mk : result fault R -> aev).
Hypothesis Hfn : forall acc (Q : list aev -> outcome (result fault R) -> Prop), (forall r, Q (acc ++ [mk r]) (Done r)) -> wpa acc fn Q.

(** What a retried call adds to a run: tries that found the database busy, and the rests between them. *)
Definition noise (ev : aev) : Prop := (exists t, ev = mk (Err (Busy t))) \/ exists b x, ev = did (ARest b) x.
Definition tried (evs : list aev) (r : result fault R) : Prop :=
  exists pre post, evs = pre ++ mk r :: post /\ Forall noise pre /\ Forall (fun ev => exists b x, ev = did (ARest b) x) post.

Lemma wpa_busy_tries more backoff acc (Q : list aev -> outcome (result fault R) -> Prop) :
  (forall evs r, tried evs r -> Q (acc ++ evs) (Done r)) -> wpa acc (busy_tries more backoff fn) Q.
Proof.
  revert backoff acc Q. induction more as [|more IH]; intros backoff acc Q H; cbn [busy_tries]; apply wpa_bind, Hfn; intros r.
  all: assert (Hnow : wpa (acc ++ [mk r]) (Ret r) Q)
    by (apply wpa_ret, H; exists [], []; split; [done|]; by split; constructor).
  all: destruct r as [x|[t| | | | |]]; try exact Hnow; apply wpa_admin_ask; intros ended.
  all: assert (Hend : Q ((acc ++ [mk (Err (Busy t))]) ++ [did (ARest backoff) ended]) (Done (Err (Busy t))))
    by (rewrite <- app_assoc; apply H; exists [], [did (ARest backoff) ended]; split; [done|]; split; [constructor|];
        constructor; [by eexists _, _|constructor]).
  - destruct ended; by apply wpa_ret.
  - destruct ended; [by apply wpa_ret|]. apply IH. intros evs r (pre & post & -> & Hpre & Hpost). rewrite <- !app_assoc. apply H.
    exists (mk (Err (Busy t)) :: did (ARest backoff) false :: pre), post. split; [done|]. split; [|done].
    constructor; [left; by exists t|]. constructor; [right; by eexists _, _|done].
Qed.

Lemma wpa_retry acc (Q : list aev -> outcome (result fault R) -> Prop) :
  (forall evs r, tried evs r -> Q (acc ++ evs) (Done r)) -> wpa acc (retry fn) Q.
Proof. apply wpa_busy_tries. Qed.

(** A retried call that is no row: one act, when it came through. *)
Lemma tried_act evs r : tried evs r -> (forall t, acted (mk (Err (Busy t))) = false) -> (forall r, row_try (mk r) = None) ->
  acts evs = acted (mk r) /\ tries evs = [] /\ mk r ∈ evs.
Proof.
  intros (pre & post & -> & Hpre & Hpost) Ha Hr.
  assert (Hq : forall l, Forall noise l -> acts l = false /\ tries l = []).
  { induction 1 as [|ev l [[t ->]|(b & x & ->)] _ [IHa IHt]]; [done| |]; unfold acts, tries in *; cbn [existsb omap list_omap]; [by rewrite Ha, Hr, IHa, IHt|by rewrite IHa, IHt]. }
  destruct (Hq pre Hpre) as [Pa Pt]. destruct (Hq post) as [Qa Qt]; [eapply Forall_impl; [exact Hpost|]; by right|].
  rewrite acts_app, tries_app, Pa, Pt. unfold acts, tries in *. cbn [existsb omap list_omap]. rewrite Hr, Qa, Qt, orb_false_r.
  split_and!; [done|done|]. apply elem_of_app. right. left.
Qed.
End retry.

(** What the attempts at one row leave. *)
Definition row_attempts (rec : AuditRecord) (r : result fault unit) (evs : list aev) : Prop :=
  acts evs = false /\ tries evs <> [] /\ Forall (fun x => x.1 = rec) (tries evs)
  /\ written evs = match r with Ok _ => [rec] | Err _ => [] end.

Lemma wpa_row rec acc (Q : list aev -> outcome (result fault unit) -> Prop) :
  (forall evs r, row_attempts rec r evs -> Q (acc ++ evs) (Done r)) -> wpa acc (retry (ask (ARecord rec))) Q.
Proof.
  intros H. apply (wpa_retry (ask (ARecord rec)) (did (ARecord rec))).
  { intros acc' Q' H'. by apply (wpa_trigger (E := admin_effects)). }
  intros evs r (pre & post & -> & Hpre & Hpost). apply H.
  assert (Hq : forall l, Forall (noise (did (ARecord rec))) l ->
    acts l = false /\ Forall (fun x => x = (rec, false)) (tries l)).
  { induction 1 as [|ev l [[t ->]|(b & x & ->)] _ [IHa IHt]]; [by split; constructor| |]; (split; [done|]).
    - change (tries _) with ((rec, false) :: tries l). by constructor.
    - exact IHt. }
  destruct (Hq pre Hpre) as [Pa Pt]. destruct (Hq post) as [Qa Qt]; [eapply Forall_impl; [exact Hpost|]; by right|].
  assert (Hw : forall l, Forall (fun x => x = (rec, false)) l -> omap (fun x : AuditRecord * bool => if x.2 then Some x.1 else None) l = []).
  { induction 1 as [|x l -> _ IH]; [done|exact IH]. }
  assert (Ht : tries (pre ++ did (ARecord rec) r :: post) = tries pre ++ (rec, match r with Ok _ => true | Err _ => false end) :: tries post)
    by (rewrite tries_app; done).
  unfold row_attempts, written. rewrite Ht, omap_app, (Hw _ Pt). split_and!.
  - rewrite acts_app, Pa. exact Qa.
  - intros He. by apply app_eq_nil in He as [_ He].
  - apply Forall_app. split; [by eapply Forall_impl; [exact Pt|]; intros x ->|]. constructor; [done|].
    by eapply Forall_impl; [exact Qt|]; intros x ->.
  - destruct r; cbn [app omap list_omap snd fst]; by rewrite (Hw _ Qt).
Qed.

(** ** What an answer owes *)

(** A row is the actor's own, of one of the operation's kinds. *)
Definition attributed (a : Actor) (tools : list string) (rec : AuditRecord) : Prop :=
  exists tool reason at_, tool ∈ tools /\ rec = operatorRow a tool reason at_.

(** The answer is true to the run: [Changed] is whether something changed; a refusal changed nothing; an
    answer without a change tried no row, one with a change did; [Recorded] means every row is on the
    trail and the last one is shown, and its absence after a change is a warning. *)
Record accounted (a : Actor) (tools : list string) (tr : list aev) (res : ActionResult) (err : option api_error) : Prop := {
  ac_rows : Forall (fun x => attributed a tools x.1) (tries tr);
  ac_changed : Changed res = acts tr;
  ac_refused : err <> None -> acts tr = false;
  ac_silent : err = None -> acts tr = false -> tries tr = [];
  ac_told : err = None -> acts tr = true -> tries tr <> [];
  ac_recorded : Recorded res = true -> acts tr = true /\ Forall (fun x => x.1 ∈ written tr) (tries tr)
                /\ exists rec, rec ∈ written tr /\ Audit res = Some (operator_row rec);
  ac_lost : acts tr = true -> Recorded res = false -> WarnAuditWriteFailed ∈ Warnings res
}.

(** No row before the change it is of. *)
Definition act_first (tr : list aev) : Prop :=
  forall before ev after, tr = before ++ ev :: after -> row_try ev <> None -> acts before = true.

(** No change before its row is on the trail. *)
Definition row_first (tr : list aev) : Prop :=
  forall before ev after, tr = before ++ ev :: after -> acted ev = true -> written before <> [].

(** What the quarantine's contract says of its answers ([Quarantine.v]). *)
Definition honest_event (ev : aev) : Prop :=
  match ev with Ev e a =>
    match e return reply (admin_answer e) -> Prop with
    | AApprove _ _ hash => fun a => match a with Val (Ok after) => exists t now, ApprovedFingerprint t hash now = Ok after /\ hash <> "" | _ => True end
    | ARevoke _ _ => fun a => match a with Val (Ok after) => exists t now, Revoked t now = Ok after | _ => True end
    | AClear _ _ => fun a => match a with Val (Ok after) => exists t now, Cleared t now = Ok after /\ tool_ok t | _ => True end
    | AApproveSet _ _ => fun a => match a with Val (Ok l) => Forall (fun ap => exists now, After_ ap = Approved (Before_ ap) now /\ ObservedHash (Before_ ap) <> "") l | _ => True end
    | _ => fun _ => True
    end a
  end.
Definition honest (tr : list aev) : Prop := Forall honest_event tr.

Definition fine (a : Actor) (tools : list string) (tr : list aev) (res : ActionResult) (err : option api_error) : Prop :=
  accounted a tools tr res err /\ act_first tr.

Definition said {X} (ar : X -> ActionResult) (a : Actor) (tools : list string) (tr : list aev) (out : outcome (X * option api_error)) : Prop :=
  match out with Done (x, err) => honest tr -> fine a tools tr (ar x) err | Panicked _ => False end.

Lemma tries_none tr before ev after : tries tr = [] -> tr = before ++ ev :: after -> row_try ev = None.
Proof.
  intros Ht ->. rewrite tries_app in Ht. apply app_eq_nil in Ht as [_ Ht]. unfold tries in Ht. cbn [omap list_omap] in Ht. by destruct (row_try ev).
Qed.

Lemma act_first_silent tr : tries tr = [] -> act_first tr.
Proof. intros Ht before ev after Heq Hr. by rewrite (tries_none _ _ _ _ Ht Heq) in Hr. Qed.

Lemma act_first_app tr evs : acts tr = true -> act_first tr -> act_first (tr ++ evs).
Proof.
  intros Ha Hf before ev after Heq Hr. symmetry in Heq. apply app_eq_app in Heq as (l & [(-> & H)|(-> & H)]).
  - by rewrite acts_app, Ha.
  - destruct l as [|x l]; cbn [app] in H; [by rewrite app_nil_r in Ha|]. injection H as -> ->. by eapply Hf.
Qed.

Lemma act_first_snoc tr ev : act_first tr -> row_try ev = None -> act_first (tr ++ [ev]).
Proof.
  intros Hf Hr before ev' after Heq Hrow. destruct after as [|y after] using rev_ind.
  - apply app_inj_tail in Heq as [_ <-]. by rewrite Hr in Hrow.
  - rewrite app_comm_cons, app_assoc in Heq. apply app_inj_tail in Heq as [-> _]. by eapply Hf.
Qed.

(** A run in which something changed, and whose rows so far are the actor's. *)
Record moved (a : Actor) (tools : list string) (tr : list aev) : Prop := {
  mv_acts : acts tr = true; mv_first : act_first tr; mv_rows : Forall (fun x => attributed a tools x.1) (tries tr)
}.

Lemma moved_app a tools tr evs : moved a tools tr -> Forall (fun x => attributed a tools x.1) (tries evs) -> moved a tools (tr ++ evs).
Proof.
  intros [Ha Hf Hr] He. split; [by rewrite acts_app, Ha|by apply act_first_app|]. rewrite tries_app. by apply Forall_app.
Qed.

Lemma moved_now a tools tr evs : idle tr -> acts evs = true -> tries evs = [] -> moved a tools (tr ++ evs) /\ tries (tr ++ evs) = [].
Proof.
  intros [A T] Ha Ht. assert (Hts : tries (tr ++ evs) = []) by (by rewrite tries_app, T, Ht).
  split; [|done]. split; [by rewrite acts_app, A|by apply act_first_silent|]. rewrite Hts. constructor.
Qed.

(** ** The ends of an operation *)

Lemma fine_idle a tools tr res err : idle tr -> Changed res = false -> Recorded res = false -> fine a tools tr res err.
Proof.
  intros [A T] Hc Hr. split; [|by apply act_first_silent]. split; rewrite ?A, ?T; try done; first [by constructor | intros; congruence].
Qed.

(** One change, then its row. *)
Lemma fine_recorded a tools tr evs res rec r : moved a tools tr -> tries tr = [] -> Changed res = true ->
  attributed a tools rec -> row_attempts rec r evs -> fine a tools (tr ++ evs) (recorded res rec r) None.
Proof.
  intros Hm Ht Hc Hat (Ha & Hn & Hall & Hw). assert (Hrows : tries (tr ++ evs) = tries evs) by (by rewrite tries_app, Ht).
  assert (Hwr : written (tr ++ evs) = written evs) by (unfold written; by rewrite Hrows).
  assert (Hacts : acts (tr ++ evs) = true) by (rewrite acts_app, (mv_acts _ _ _ Hm); done).
  split; [|apply act_first_app; apply Hm]. split; rewrite ?Hrows, ?Hwr, ?Hacts; try done.
  - eapply Forall_impl; [exact Hall|]. by intros x ->.
  - by destruct r.
  - destruct r; [|done]. intros _. rewrite Hw. split; [done|]. split.
    + eapply Forall_impl; [exact Hall|]. intros x ->. left.
    + exists rec. split; [left|done].
  - destruct r; [done|]. intros _ _. cbn. apply elem_of_app. right. left.
Qed.

Lemma wpa_admin_record res rec acc (Q : list aev -> outcome ActionResult -> Prop) :
  (forall evs r, row_attempts rec r evs -> Q (acc ++ evs) (Done (recorded res rec r))) -> wpa acc (record res rec) Q.
Proof. intros H. unfold record. apply wpa_bind, wpa_row. intros evs r Hr. by apply wpa_ret, H. Qed.

(** The end of an operation that changed one thing: its row, then the answer. *)
Lemma wpa_record_now {X} (ar : X -> ActionResult) a tools res tool reason acc (f : ActionResult -> prog (E := admin_effects) (X * option api_error)) :
  moved a tools acc -> tries acc = [] -> Changed res = true -> tool ∈ tools ->
  (forall tr res', fine a tools tr res' None -> wpa tr (f res') (said ar a tools)) ->
  wpa acc (res' <- record_now a res tool reason;; f res') (said ar a tools).
Proof.
  intros Hm Ht Hc Hin H. unfold record_now. apply wpa_bind, wpa_admin_ask. intros now. apply wpa_admin_record. intros evs r Hr. apply H. apply fine_recorded; try done.
  - by apply moved_app; [done|constructor].
  - by rewrite tries_app, Ht.
  - by eexists _, _, _.
Qed.

Lemma idle_snoc tr e x : idle tr -> acted (did e x) = false -> row_try (did e x) = None -> idle (tr ++ [did e x]).
Proof.
  intros Hi Ha Hr. apply idle_app; [done|]. split; unfold acts, tries; cbn [existsb omap list_omap]; [by rewrite Ha|by rewrite Hr].
Qed.

(** ** What the contract of the quarantine gives *)

Lemma approved_usable t now : ObservedHash t <> "" -> Usable (Approved t now) = true \/ TClass (Approved t now) <> ClassSafe.
Proof.
  intros Hn. destruct (decide (TClass t = ClassSafe)) as [Hs|Hs]; [left|by right]. unfold Usable, ApprovedAsAdvertised. cbn.
  rewrite (bool_decide_eq_false_2 (ObservedHash t = "")), (bool_decide_eq_true_2 (ObservedHash t = ObservedHash t)) by done.
  by rewrite (bool_decide_eq_true_2 (TClass t = ClassSafe)).
Qed.

Lemma cleared_usable t now after : tool_ok t -> Cleared t now = Ok after -> Usable after = true.
Proof.
  intros (_ & _ & _ & _ & Hobs & _ & _). unfold Cleared. destruct (negb _); [done|]. case_bool_decide; [done|].
  destruct (bool_decide (TStatus t = StatusApproved)) eqn:Es; [|done]. apply bool_decide_eq_true in Es. cbn [negb orb].
  case_bool_decide as Ha; [done|]. intros [= <-]. unfold Usable, ApprovedAsAdvertised. cbn.
  rewrite Es, (Hobs Es), (bool_decide_eq_true_2 (StatusApproved = StatusApproved)), (bool_decide_eq_false_2 (ApprovedHash t = "")), (bool_decide_eq_true_2 (ApprovedHash t = ApprovedHash t)) by done.
  by case_bool_decide.
Qed.

Lemma revoked_unusable t now after : Revoked t now = Ok after -> Usable after = false.
Proof. unfold Revoked. destruct (negb _); [done|]. case_bool_decide; [done|]. by intros [= <-]. Qed.

(** ** Walking an operation *)

(** One event, and the rest, of a run in which nothing happened so far. *)
Ltac quiet_ask x := apply wpa_admin_ask; intros x; match goal with H : idle ?acc |- wpa (?acc ++ [?ev]) _ _ =>
  let H' := fresh "Hi" in assert (H' : idle (acc ++ [ev])) by (by apply idle_snoc); clear H end.

(** The end of such a run. *)
Ltac done_idle := apply wpa_ret; intros _; by apply fine_idle.

(** A retried change: nothing happened, or that and nothing else. *)
Lemma wpa_change {R} a tools acc (fn : prog (E := admin_effects) (result fault R))
    (mk : result fault R -> aev) (took : R -> bool) (Q : list aev -> outcome (result fault R) -> Prop) :
  (forall acc (Q : list aev -> outcome (result fault R) -> Prop), (forall r, Q (acc ++ [mk r]) (Done r)) -> wpa acc fn Q) ->
  (forall r, row_try (mk r) = None) -> (forall f, acted (mk (Err f)) = false) -> (forall x, acted (mk (Ok x)) = took x) ->
  idle acc ->
  (forall tr f, idle tr -> Q tr (Done (Err f))) ->
  (forall tr x, took x = false -> idle tr -> Q tr (Done (Ok x))) ->
  (forall tr x, took x = true -> moved a tools tr -> tries tr = [] -> mk (Ok x) ∈ tr -> Q tr (Done (Ok x))) ->
  wpa acc (retry fn) Q.
Proof.
  intros Hfn Hr Hf Hx Hi He Hn Hy. apply (wpa_retry fn mk Hfn). intros evs r Ht.
  destruct (tried_act mk evs r Ht) as (Ha & Hts & Hin); [intros t; apply Hf|done|].
  destruct r as [x|f].
  - rewrite Hx in Ha. destruct (took x) eqn:Ek.
    + destruct (moved_now a tools acc evs Hi Ha Hts) as [Hm Hts']. apply Hy; try done. apply elem_of_app. by right.
    + apply Hn; [done|]. by apply idle_app.
  - rewrite Hf in Ha. apply He. by apply idle_app.
Qed.

(** A retried port that changes something, in a run in which nothing happened so far. *)
Ltac retried a tools e took := apply wpa_bind;
  apply (wpa_change a tools _ (ask e) (did e) took);
  [intros; by apply (wpa_trigger (E := admin_effects))|done|done|done|done| | |].

(** An event that is neither a change nor a row, and warnings, after an answer. *)
Lemma fine_snoc a tools tr e x res codes : fine a tools tr res None -> acted (did e x) = false -> row_try (did e x) = None ->
  fine a tools (tr ++ [did e x]) (warn res codes) None.
Proof.
  intros [[H1 H2 H3 H4 H5 H6 H7] Hf] Ha Hr.
  assert (Hacts : acts (tr ++ [did e x]) = acts tr) by (rewrite acts_app; unfold acts; cbn [existsb]; by rewrite Ha, !orb_false_r).
  assert (Htries : tries (tr ++ [did e x]) = tries tr) by (rewrite tries_app; unfold tries at 2; cbn [omap list_omap]; by rewrite Hr, app_nil_r).
  split; [|].
  - assert (Hw : written (tr ++ [did e x]) = written tr) by (unfold written; by rewrite Htries).
    split; rewrite ?Hacts, ?Htries, ?Hw; cbn [warn Changed Recorded Audit Warnings]; try done.
    intros Ha' Hr'. apply elem_of_app. left. by apply H7.
  - by apply act_first_snoc.
Qed.
