(* ===== verification/AdminAccess.v ===== *)
(** * The management service: the blocklist and the quarantine
      ([internal/admin/access.go], [tools.go], [review_set.go], and the reach of [review.go])

    Block and unblock, approve, revoke and clear, and the approval of a whole review set, as programs over
    the ports of [AdminPorts.v].  A block is placed first and recorded second, an unblock the other way
    round; an approval is of the fingerprint that was shown and of no other. *)
From Stdlib Require Import ZArith Lia Ascii.
From stdpp Require Import base strings list gmap.
From S2P Require Import Prelude.
From S2P Require Import GoStrings.
From S2P Require Import Visible.
From S2P Require Import GoTime.
From S2P Require Import Encode.
From S2P Require Import AuditLog.
From S2P Require Import Access.
From S2P Require Import Blocklist.
From S2P Require Import Redact.
From S2P Require Import Prog.
From S2P Require Import Config.
From S2P Require Import Reload.
From S2P Require Import ServeControl.
From S2P Require Import Quarantine.
From S2P Require Import AdminPorts.

Section blocks.
Context `{FT : FormatTable, PT : PrintTable} (s : ports).

Record BlockRequest := { br_subject : string; br_reason : string; br_until : option time }.
Record BlockResult := { br_result : ActionResult; br_of : string }.

Definition BlockNote (a : Actor) (reason : string) : string :=
  Actor_Tag a +:+ (if bool_decide (trim_space reason = "") then "" else " " +:+ trim_space reason).

Definition BlockReasonUntil (subject : string) (until : time) (note : string) : string :=
  "subject " +:+ Quote subject +:+ (if IsZero until then "" else " until " +:+ format_seconds until)
  +:+ (if bool_decide (note = "") then "" else ": " +:+ note).

Definition BlockReason (subject note : string) : string := BlockReasonUntil subject zero_time note.

Definition ReplacedBlockReason (reason : string) (old : Block) : string :=
  reason +:+ " [replaces the expired block placed by " +:+ By old +:+ " at " +:+ format_seconds (At old)
  +:+ ", ended " +:+ format_seconds (Until old) +:+ "]".

(** The note, or the refusal. *)
Definition validateBlock (a : Actor) (req : BlockRequest) : prog (E := admin_effects) (result api_error string) :=
  match checkActor a with
  | Some e => Ret (Err e)
  | None =>
      match ValidateSubject (br_subject req) with
      | Some _ => Ret (Err (With (refusal CodeInvalidArgument) "field" "subject"))
      | None =>
          let note := BlockNote a (br_reason req) in
          now <- ask ANow;;
          if negb (bool_decide (ValidateBlock {| BSubject := br_subject req; Reason := note; By := a_name a; At := now; Until := zero_time |} = []))
          then Ret (Err (With (refusal CodeInvalidArgument) "field" "reason"))
          else
            match br_until req with
            | None => Ret (Ok note)
            | Some until =>
                now <- ask ANow;;
                if negb (After until now) then Ret (Err (With (refusal CodeInvalidArgument) "field" "until")) else Ret (Ok note)
            end
      end
  end.

(** [blockOutcome]: the answer, the row it wrote, and what stopped it before anything changed. *)
Record blockOutcome := { bo_result : ActionResult; bo_row : option OperatorRow }.

(** The store is a [BlockReplacer], as every store of the repository is. *)
Definition placeBlock (a : Actor) (req : BlockRequest) (note : string) (res : ActionResult) :
    prog (E := admin_effects) (blockOutcome * option api_error) :=
  now <- ask ANow;;
  let now := UTC now in
  let until := match br_until req with Some u => UTC u | None => zero_time end in
  r <- retry (ask (APlace {| BSubject := br_subject req; Reason := note; By := a_name a; At := now; Until := until |}));;
  match r with
  | Err f => Ret ({| bo_result := res; bo_row := None |}, Some (storeErr f))
  | Ok (false, _) => Ret ({| bo_result := res; bo_row := None |}, None)
  | Ok (true, replaced) =>
      let res := changed res in
      let reason := BlockReasonUntil (br_subject req) until note in
      let reason := match replaced with Some old => ReplacedBlockReason reason old | None => reason end in
      res <- record res (operatorRow a AccessBlock reason now);;
      let row := if Recorded res then Audit res else None in
      if hasTrail s then
        seen <- ask (AHasAnalyst (br_subject req));;
        match seen with
        | Ok true => Ret ({| bo_result := res; bo_row := row |}, None)
        | _ => Ret ({| bo_result := warn res [WarnNeverSeen]; bo_row := row |}, None)
        end
      else Ret ({| bo_result := res; bo_row := row |}, None)
  end.

Definition Service_Block (a : Actor) (req : BlockRequest) : prog (E := admin_effects) (BlockResult * option api_error) :=
  let answer res err := Ret ({| br_result := res; br_of := br_subject req |}, err) in
  v <- validateBlock a req;;
  match v with
  | Err e => answer newResult (Some e)
  | Ok note =>
      match need (hasBlockStore s) with
      | Some e => answer newResult (Some e)
      | None =>
          cfg <- ask AConfig;;
          match cfg with
          | Err e => answer newResult (Some e)
          | Ok _ => x <- placeBlock a req note newResult;; answer (bo_result x.1) x.2
          end
      end
  end.

Definition Service_Unblock (a : Actor) (req : BlockRequest) : prog (E := admin_effects) (BlockResult * option api_error) :=
  let answer res err := Ret ({| br_result := res; br_of := br_subject req |}, err) in
  v <- validateBlock a req;;
  match v with
  | Err e => answer newResult (Some e)
  | Ok note =>
      match need (hasBlockStore s) with
      | Some e => answer newResult (Some e)
      | None =>
          cfg <- ask AConfig;;
          match cfg with
          | Err e => answer newResult (Some e)
          | Ok _ =>
              bs <- ask ABlocks;;
              match bs with
              | Err f => answer newResult (Some (storeErr f))
              | Ok bs =>
                  if negb (existsb (fun b => bool_decide (BSubject b = br_subject req)) bs) then answer newResult None
                  else
                    now <- ask ANow;;
                    let rec := operatorRow a AccessUnblock (BlockReason (br_subject req) note) (UTC now) in
                    r <- retry (ask (ARecord rec));;
                    match r with
                    | Err f => answer newResult (Some (storeErr f))
                    | Ok _ =>
                        l <- retry (ask (AUnblock (br_subject req)));;
                        match l with
                        | Err _ => answer newResult (Some (refusal CodeInternal))
                        | Ok _ => answer {| Changed := true; Recorded := true; Audit := Some (operator_row rec); Warnings := [] |} None
                        end
                    end
              end
          end
      end
  end.
End blocks.

(** ** Who reaches a tool ([review.go]) *)

Section reach.
Context `{PT : PrintTable}.

(** [slices.Contains(r.Tools, name)], then the first grant of the map that covers it: backend names hold
    no separator, so one entry at most does. *)
Fixpoint grant_reason (name : string) (grants : list (string * list string)) : string * bool :=
  match grants with
  | [] => ("granted", false)
  | (backend, ids) :: rest =>
      match cut_prefix name (backend +:+ ".") with
      | Some tool =>
          if bool_decide (tool = "") then grant_reason name rest
          else if bool_decide (GrantAll ∈ ids) then ("[role.grants] " +:+ backend +:+ " = [" +:+ Quote GrantAll +:+ "]   <- wildcard", true)
          else if bool_decide (tool ∈ ids) then ("[role.grants] " +:+ backend +:+ " names " +:+ Quote tool, false)
          else grant_reason name rest
      | None => grant_reason name rest
      end
  end.

Definition grantReason (r : FileRole) (name : string) : string * bool :=
  if bool_decide (name ∈ default [] (f_tools r)) then ("tools = [" +:+ Quote name +:+ "]", false)
  else grant_reason name (map_to_list (f_grants r)).

Definition CallableBy (roles : list FileRole) (server tool : string) : list RoleCoverage :=
  let name := server +:+ "." +:+ tool in
  map (fun r => {| cov_role := f_name r; cov_how := (grantReason r name).1; cov_wildcard := (grantReason r name).2; cov_non_read := f_non_read r |})
      (filter (fun r => Allows (toAccess r) name = true) roles).

Definition ClearableBy (roles : list FileRole) (server tool : string) : list RoleCoverage :=
  let name := server +:+ "." +:+ tool in
  map (fun r => {| cov_role := f_name r; cov_how := "tools = [" +:+ Quote name +:+ "]"; cov_wildcard := false; cov_non_read := true |})
      (filter (fun r => NonRead (toAccess r) && AllowsExplicitly (toAccess r) name = true) roles).

Definition sensitive (t : Quarantine.Tool) : bool := negb (bool_decide (TClass t = ClassSafe)).

Definition ReachableBy (roles : list FileRole) (t : Quarantine.Tool) : list RoleCoverage :=
  if sensitive t then ClearableBy roles (ServerName t) (ToolName t) else CallableBy roles (ServerName t) (ToolName t).
End reach.

(** ** Approving, revoking, clearing *)

Section tools.
Context `{PT : PrintTable} (s : ports).

Record ApproveRequest := { ap_server : string; ap_tool : string; ap_fingerprint : string }.
Record ToolRef := { tr_server : string; tr_tool : string }.

(** The result's Tool is the entry itself; [ToolOf] copies it field by field. *)
Record ApproveResult := { apr_result : ActionResult; PreviousStatus : string; PreviousBaseline : string; apr_tool : option Quarantine.Tool; apr_callable : list RoleCoverage }.
Record RevokeResult := { rvr_result : ActionResult; WasApprovedAt : string; rvr_tool : option Quarantine.Tool }.
Record ClearResult := { clr_result : ActionResult; clr_tool : option Quarantine.Tool; ClearedBy : list RoleCoverage }.

Definition tool_name (t : Quarantine.Tool) : string := ServerName t +:+ "." +:+ ToolName t.

Definition NormalizeFingerprint (fp : string) : string :=
  let fp := trim_space fp in match cut_prefix fp "sha256:" with Some rest => rest | None => fp end.

Definition getTool (server tool : string) : prog (E := admin_effects) (result api_error Quarantine.Tool) :=
  match need (hasTools s) with
  | Some e => Ret (Err e)
  | None =>
      if bool_decide (server = "") || bool_decide (tool = "") then Ret (Err (With (refusal CodeInvalidArgument) "field" "server"))
      else
        r <- ask (AGet server tool);;
        match r with
        | Ok t => Ret (Ok t)
        | Err (Sentinel ErrNotFound _) => Ret (Err (refusal CodeNotFound))
        | Err f => Ret (Err (storeErr f))
        end
  end.

(** The warnings of an approval. *)
Definition approve_warnings (callable : list RoleCoverage) (after : Quarantine.Tool) : list string :=
  (if none callable then [WarnNoRoleGrants] else [])
  ++ (if existsb cov_wildcard callable then [WarnWildcardGrant] else [])
  ++ (if negb (Usable after) && sensitive after then [WarnSensitiveUncleared] else []).

Definition approve_reason (before after : Quarantine.Tool) (a : Actor) : string :=
  "tool " +:+ Quote (tool_name before) +:+ " approved at sha256:" +:+ ApprovedHash after
  +:+ (if sensitive after then " (sensitive; not served until cleared)" else "")
  +:+ (if negb (bool_decide (ApprovedHash before = "")) && negb (bool_decide (ApprovedHash before = ApprovedHash after))
       then " (was sha256:" +:+ ApprovedHash before +:+ ")" else "")
  +:+ " " +:+ Actor_Tag a.

Definition ApproveTool (a : Actor) (req : ApproveRequest) : prog (E := admin_effects) (ApproveResult * option api_error) :=
  let stop err := Ret ({| apr_result := newResult; PreviousStatus := ""; PreviousBaseline := ""; apr_tool := None; apr_callable := [] |}, Some err) in
  match checkActor a with
  | Some e => stop e
  | None =>
      let reviewed := NormalizeFingerprint (ap_fingerprint req) in
      cfg <- ask AConfig;;
      match cfg with
      | Err e => stop e
      | Ok cfg =>
          got <- getTool (ap_server req) (ap_tool req);;
          match got with
          | Err e => stop e
          | Ok before =>
              let answer res baseline tool callable err :=
                Ret ({| apr_result := res; PreviousStatus := TStatus before; PreviousBaseline := baseline; apr_tool := Some tool; apr_callable := callable |}, err) in
              if bool_decide (reviewed = "") then
                answer newResult "" before [] (Some (With (refusal CodeFingerprintRequired) "observed_fingerprint" (ObservedHash before)))
              else if negb (bool_decide (reviewed = ObservedHash before)) then
                answer newResult "" before []
                  (Some (With (With (refusal CodeFingerprintMismatch) "observed_fingerprint" (ObservedHash before)) "status" (TStatus before)))
              else
                let callable := ReachableBy (cfg_roles cfg) before in
                let refuse err := answer newResult "" before callable (Some err) in
                if bool_decide (TStatus before = StatusApproved) && Usable before then answer newResult "" before callable None
                else if bool_decide (TStatus before = StatusApproved) && bool_decide (ApprovedHash before = ObservedHash before) && sensitive before then
                  answer (warn newResult [WarnSensitiveUncleared]) "" before callable None
                else
                  d <- ask (ADefinition (ObservedHash before));;
                  match d with
                  | Err (Sentinel ErrDefinitionNotKept _) =>
                      now <- ask (AGet (ServerName before) (ToolName before));;
                      match now with
                      | Ok now =>
                          if negb (bool_decide (ObservedHash now = ObservedHash before))
                          then refuse (With (refusal CodeFingerprintMoved) "observed_fingerprint" (ObservedHash now))
                          else refuse (refusal CodeDefinitionUnavailable)
                      | Err _ => refuse (refusal CodeDefinitionUnavailable)
                      end
                  | Err f => refuse (storeErr f)
                  | Ok _ =>
                      r <- retry (ask (AApprove (ServerName before) (ToolName before) (ObservedHash before)));;
                      match r with
                      | Err (Sentinel ErrFingerprintMoved _) => refuse (With (refusal CodeFingerprintMoved) "observed_fingerprint" (ObservedHash before))
                      | Err f => refuse (storeErr f)
                      | Ok after =>
                          let baseline := if bool_decide (TStatus before = StatusChanged) then ApprovedHash before else "" in
                          let res := warn (changed newResult) (approve_warnings callable after) in
                          if negb (Usable after) && negb (sensitive after) then answer res baseline after callable (Some (refusal CodeInternal))
                          else
                            res <- record_now a res ToolApprove (approve_reason before after a);;
                            answer res baseline after callable None
                      end
                  end
          end
      end
  end.

Definition RevokeTool (a : Actor) (req : ToolRef) : prog (E := admin_effects) (RevokeResult * option api_error) :=
  let stop err := Ret ({| rvr_result := newResult; WasApprovedAt := ""; rvr_tool := None |}, Some err) in
  match checkActor a with
  | Some e => stop e
  | None =>
      cfg <- ask AConfig;;
      match cfg with
      | Err e => stop e
      | Ok _ =>
          got <- getTool (tr_server req) (tr_tool req);;
          match got with
          | Err e => stop e
          | Ok before =>
              let unchanged err := Ret ({| rvr_result := newResult; WasApprovedAt := ""; rvr_tool := Some before |}, err) in
              if bool_decide (TStatus before = StatusPending) then unchanged None
              else
                r <- retry (ask (ARevoke (ServerName before) (ToolName before)));;
                match r with
                | Err (Sentinel ErrChangedIsNotRevocable _) => unchanged (Some (refusal CodeChangedNotRevocable))
                | Err f => unchanged (Some (storeErr f))
                | Ok after =>
                    let answer res err := Ret ({| rvr_result := res; WasApprovedAt := ApprovedHash before; rvr_tool := Some after |}, err) in
                    if Usable after then answer (changed newResult) (Some (refusal CodeInternal))
                    else
                      res <- record_now a (changed newResult) ToolRevoke
                        ("tool " +:+ Quote (tool_name before) +:+ " revoked, was approved at sha256:" +:+ ApprovedHash before +:+ " " +:+ Actor_Tag a);;
                      answer res None
                end
          end
      end
  end.

Definition ClearTool (a : Actor) (req : ToolRef) : prog (E := admin_effects) (ClearResult * option api_error) :=
  let stop err := Ret ({| clr_result := newResult; clr_tool := None; ClearedBy := [] |}, Some err) in
  match checkActor a with
  | Some e => stop e
  | None =>
      cfg <- ask AConfig;;
      match cfg with
      | Err e => stop e
      | Ok cfg =>
          got <- getTool (tr_server req) (tr_tool req);;
          match got with
          | Err e => stop e
          | Ok before =>
              let answer res tool by_ err := Ret ({| clr_result := res; clr_tool := Some tool; ClearedBy := by_ |}, err) in
              let refuse by_ err := answer newResult before by_ (Some err) in
              if negb (Class_Valid (TClass before)) then refuse [] (refusal CodeCorruptState)
              else if negb (sensitive before) then refuse [] (With (refusal CodeNotSensitive) "status" (TStatus before))
              else if negb (bool_decide (TStatus before = StatusApproved)) || bool_decide (ApprovedHash before = "") then
                refuse [] (With (With (refusal CodeNotApproved) "status" (TStatus before)) "observed_fingerprint" (ObservedHash before))
              else
                let by_ := ClearableBy (cfg_roles cfg) (ServerName before) (ToolName before) in
                if none by_ then
                  refuse [] {| e_code := CodeNoNonReadGrant;
                               e_details := [("callable_by", DCallable (CallableBy (cfg_roles cfg) (ServerName before) (ToolName before)))] |}
                else if Usable before then answer newResult before by_ None
                else
                  r <- retry (ask (AClear (ServerName before) (ToolName before)));;
                  match r with
                  | Err (Sentinel ErrNotApproved _) => refuse by_ (refusal CodeNotApproved)
                  | Err (Sentinel ErrNotSensitive _) => refuse by_ (refusal CodeNotSensitive)
                  | Err (Sentinel ErrInvalidClass _) => refuse by_ (refusal CodeCorruptState)
                  | Err f => refuse by_ (storeErr f)
                  | Ok after =>
                      if negb (Usable after) then answer (changed newResult) after by_ (Some (refusal CodeInternal))
                      else
                        res <- record_now a (changed newResult) ToolClear
                          ("tool " +:+ Quote (tool_name before) +:+ " cleared for sensitive serving at sha256:" +:+ ApprovedHash after +:+ " " +:+ Actor_Tag a);;
                        answer res after by_ None
                  end
          end
      end
  end.
End tools.

(** ** A review set ([review_set.go]) *)

Section review_set.
Context `{PT : PrintTable, HF : HashFunction} (s : ports).

Record ApproveSetRequest := { as_server : string; as_manifest : string }.
Record ApprovedTool := { at_previous : string; at_baseline : string; at_tool : Quarantine.Tool; at_callable : list RoleCoverage }.
Record ApproveSetResult := { asr_result : ActionResult; asr_server : string; asr_manifest : string; asr_approved : list ApprovedTool; asr_rows : list OperatorRow }.

Definition NormalizeManifest (m : string) : string := NormalizeFingerprint m.

Definition listServer (server : string) : prog (E := admin_effects) (result api_error (list Quarantine.Tool)) :=
  match need (hasTools s) with
  | Some e => Ret (Err e)
  | None =>
      if blank server then Ret (Err (With (refusal CodeInvalidArgument) "field" "server"))
      else
        r <- ask (AListTools server);;
        match r with
        | Err f => Ret (Err (storeErr f))
        | Ok [] => Ret (Err (refusal CodeNotFound))
        | Ok tools => Ret (Ok tools)
        end
  end.

(** Every definition of the set is kept, so that it could be shown. *)
Fixpoint check_kept (set : list Quarantine.Tool) : prog (E := admin_effects) (option api_error) :=
  match set with
  | [] => Ret None
  | t :: rest =>
      d <- ask (ADefinition (ObservedHash t));;
      match d with
      | Ok _ => check_kept rest
      | Err (Sentinel ErrDefinitionNotKept _) => Ret (Some (refusal CodeDefinitionUnavailable))
      | Err f => Ret (Some (storeErr f))
      end
  end.

Definition approved_item (roles : list FileRole) (ap : Approval) : ApprovedTool :=
  {| at_previous := TStatus (Before_ ap); at_tool := After_ ap;
     at_baseline := if bool_decide (TStatus (Before_ ap) = StatusChanged) then ApprovedHash (Before_ ap) else "";
     at_callable := ReachableBy roles (After_ ap) |}.

(** The items in order; [true] when one is neither usable nor sensitive, and the loop stops there. *)
Fixpoint approved_items (roles : list FileRole) (approvals : list Approval) : list ApprovedTool * bool :=
  match approvals with
  | [] => ([], false)
  | ap :: rest =>
      if negb (Usable (After_ ap)) && negb (sensitive (After_ ap)) then ([], true)
      else let '(items, bug) := approved_items roles rest in (approved_item roles ap :: items, bug)
  end.

Definition set_warnings (items : list ApprovedTool) : list string :=
  let unreached acts := existsb (fun i => none (at_callable i) && Bool.eqb (sensitive (at_tool i)) acts) items in
  (if unreached false then [WarnNoRoleGrants] else []) ++ (if unreached true then [WarnNoRoleGrants] else [])
  ++ (if existsb (fun i => existsb (fun c => cov_wildcard c && negb (bool_decide (cov_role c = ""))) (at_callable i)) items then [WarnWildcardGrant] else [])
  ++ (if existsb (fun i => negb (Usable (at_tool i))) items then [WarnSensitiveUncleared] else []).

Definition set_row_reason (manifest : string) (a : Actor) (ap : Approval) : string :=
  "tool " +:+ Quote (tool_name (After_ ap)) +:+ " approved at sha256:" +:+ ApprovedHash (After_ ap)
  +:+ (if negb (bool_decide (ApprovedHash (Before_ ap) = "")) && negb (bool_decide (ApprovedHash (Before_ ap) = ApprovedHash (After_ ap)))
       then " (was sha256:" +:+ ApprovedHash (Before_ ap) +:+ ")" else "")
  +:+ (if sensitive (After_ ap) then " (sensitive; not served until cleared)" else "")
  +:+ " in review set sha256:" +:+ manifest +:+ " " +:+ Actor_Tag a.

(** One row per tool: those written, and how many were lost. *)
Fixpoint set_rows (a : Actor) (manifest : string) (now : time) (approvals : list Approval) : prog (E := admin_effects) (list OperatorRow * nat) :=
  match approvals with
  | [] => Ret ([], O)
  | ap :: rest =>
      let rec := operatorRow a ToolApprove (set_row_reason manifest a ap) now in
      r <- retry (ask (ARecord rec));;
      x <- set_rows a manifest now rest;;
      Ret (match r with Ok _ => (operator_row rec :: x.1, x.2) | Err _ => (x.1, S x.2) end)
  end.

Definition plural (n : nat) (one many : string) : string := if (n =? 1)%nat then one else many.

Definition set_summary (manifest server : string) (approvals : list Approval) (a : Actor) : string :=
  let n := length approvals in
  let changed := length (filter (fun ap => TStatus (Before_ ap) = StatusChanged) approvals) in
  "review set sha256:" +:+ manifest +:+ " of backend " +:+ Quote server +:+ " approved: " +:+ dec (Z.of_nat n) +:+ " " +:+ plural n "tool" "tools"
  +:+ " (" +:+ dec (Z.of_nat (n - changed)) +:+ " pending, " +:+ dec (Z.of_nat changed) +:+ " changed) " +:+ Actor_Tag a.

(** A lost row takes [Recorded] back. *)
Definition with_lost (res : ActionResult) (lost : nat) : ActionResult :=
  match lost with
  | O => res
  | S _ => {| Changed := Changed res; Recorded := false; Audit := Audit res; Warnings := Warnings res ++ [WarnAuditWriteFailed] |}
  end.

Definition ApproveToolSet (a : Actor) (req : ApproveSetRequest) : prog (E := admin_effects) (ApproveSetResult * option api_error) :=
  let answer res manifest approved rows err :=
    Ret ({| asr_result := res; asr_server := as_server req; asr_manifest := manifest; asr_approved := approved; asr_rows := rows |}, err) in
  let refuse err := answer newResult "" [] [] (Some err) in
  match checkActor a with
  | Some e => refuse e
  | None =>
      let reviewed := NormalizeManifest (as_manifest req) in
      cfg <- ask AConfig;;
      match cfg with
      | Err e => refuse e
      | Ok cfg =>
          got <- listServer (as_server req);;
          match got with
          | Err e => refuse e
          | Ok tools =>
              let set := ReviewSet tools in
              let current := if none set then "" else Manifest (as_server req) set in
              if bool_decide (reviewed = "") then
                refuse (if bool_decide (current = "") then refusal CodeManifestRequired else With (refusal CodeManifestRequired) "manifest" current)
              else if none set then answer newResult "" [] [] None
              else if negb (bool_decide (reviewed = current)) then refuse (With (refusal CodeManifestMismatch) "manifest" current)
              else
                unkept <- check_kept set;;
                match unkept with
                | Some e => refuse e
                | None =>
                    r <- retry (ask (AApproveSet (as_server req) current));;
                    match r with
                    | Err (Sentinel ErrReviewSetMoved _) | Err (Sentinel ErrReviewSetEmpty _) => refuse (refusal CodeManifestMismatch)
                    | Err f => refuse (storeErr f)
                    | Ok approvals =>
                        let '(items, bug) := approved_items (cfg_roles cfg) approvals in
                        if bug : bool then answer (changed newResult) current items [] (Some (refusal CodeInternal))
                        else
                          now <- ask ANow;;
                          x <- set_rows a current (UTC now) approvals;;
                          res <- record (warn (changed newResult) (set_warnings items))
                            (operatorRow a ToolApproveSet (set_summary current (as_server req) approvals a) (UTC now));;
                          answer (with_lost res x.2) current items x.1 None
                    end
                end
          end
      end
  end.
End review_set.

(** ** Every answer is true to its run *)

Section accounts.
Context `{FT : FormatTable, PT : PrintTable, HF : HashFunction} (s : ports).

Lemma wpa_validateBlock a req acc (Q : list aev -> outcome (result api_error string) -> Prop) :
  idle acc -> (forall tr v, idle tr -> (v = Ok (BlockNote a (br_reason req)) \/ exists e, v = Err e) -> Q tr (Done v)) -> wpa acc (validateBlock a req) Q.
Proof.
  intros Hi H. unfold validateBlock.
  assert (Hend : forall tr v, idle tr -> (v = Ok (BlockNote a (br_reason req)) \/ exists e, v = Err e) -> wpa tr (Ret v) Q) by (intros; by apply wpa_ret, H).
  destruct (checkActor a); [apply Hend; eauto|]. destruct (ValidateSubject _); [apply Hend; eauto|].
  quiet_ask now. destruct (negb _); [apply Hend; eauto|]. destruct (br_until req); [|apply Hend; eauto].
  quiet_ask now'. destruct (negb _); apply Hend; eauto.
Qed.

Lemma wpa_getTool server tool acc (Q : list aev -> outcome (result api_error Quarantine.Tool) -> Prop) :
  idle acc -> (forall tr v, idle tr -> Q tr (Done v)) -> wpa acc (getTool s server tool) Q.
Proof.
  intros Hi H. unfold getTool. destruct (need _); [by apply wpa_ret, H|]. destruct (_ || _); [by apply wpa_ret, H|].
  quiet_ask r. destruct r as [t|[| | | | |]]; try by apply wpa_ret, H. destruct e; by apply wpa_ret, H.
Qed.

(** What a placed block leaves: its row tried, and the answer of it. *)
Definition block_placed (a : Actor) (tools : list string) (tr : list aev) (bo : blockOutcome) : Prop :=
  moved a tools tr /\ fine a tools tr (bo_result bo) None /\ Changed (bo_result bo) = true.

Lemma wpa_placeBlock a tools req note acc (Q : list aev -> outcome (blockOutcome * option api_error) -> Prop) :
  idle acc -> AccessBlock ∈ tools ->
  (forall tr err, idle tr -> Q tr (Done ({| bo_result := newResult; bo_row := None |}, err))) ->
  (forall tr bo, block_placed a tools tr bo -> Q tr (Done (bo, None))) ->
  wpa acc (placeBlock s a req note newResult) Q.
Proof.
  intros Hi Hin Hno Hyes. unfold placeBlock. quiet_ask now. cbv zeta.
  match goal with |- context [APlace ?b] => retried a tools (APlace b) (fun x : bool * option Block => x.1) end.
  - intros tr f Hi'. by apply wpa_ret, Hno.
  - intros tr [[] rep] Hp Hi'; [done|]. by apply wpa_ret, Hno.
  - intros tr [[] rep] Hp Hm Hts _; [|done]. apply wpa_bind, wpa_admin_record. intros evs r Hr.
    set (rec := operatorRow _ _ _ _) in *. set (res := recorded (changed newResult) rec r).
    assert (Hf : fine a tools (tr ++ evs) res None) by (apply fine_recorded; [done|done|done|by eexists _, _, _|done]).
    assert (Hm' : moved a tools (tr ++ evs)).
    { apply moved_app; [done|]. destruct Hr as (_ & _ & Hall & _). eapply Forall_impl; [exact Hall|]. intros x ->. by eexists _, _, _. }
    assert (Hc : Changed res = true) by (unfold res; by destruct r).
    destruct (hasTrail s); [|by apply wpa_ret, Hyes].
    apply wpa_admin_ask. intros seen.
    assert (Hend : forall codes row, Q ((tr ++ evs) ++ [did (AHasAnalyst (br_subject req)) seen]) (Done ({| bo_result := warn res codes; bo_row := row |}, None))).
    { intros codes row. apply Hyes. split_and!; [by apply moved_app; [done|constructor]|by apply fine_snoc|done]. }
    destruct seen as [[]|]; apply wpa_ret; [|by apply Hend..].
    specialize (Hend [] (if Recorded res then Audit res else None)). unfold warn in Hend. rewrite app_nil_r in Hend. by destruct res.
Qed.

Lemma Service_Block_fine a req acc : idle acc -> wpa acc (Service_Block s a req) (said br_result a [AccessBlock]).
Proof.
  intros Hi. unfold Service_Block. apply wpa_bind, wpa_validateBlock; [done|]. intros tr v Hv _. cbn beta iota.
  destruct v as [note|e]; [|done_idle]. destruct (need _); [done_idle|]. quiet_ask cfg. destruct cfg; [|done_idle].
  apply wpa_bind, (wpa_placeBlock a [AccessBlock]); [done|left|..].
  - intros tr' err Hi'. done_idle.
  - intros tr' bo (_ & Hf & _). apply wpa_ret. intros _. exact Hf.
Qed.

(** An unblock, whose row comes first. *)
Definition unblocked (a : Actor) (tr : list aev) (res : ActionResult) (err : option api_error) : Prop :=
  accounted a [AccessUnblock] tr res err /\ row_first tr.

Lemma row_first_idle tr : acts tr = false -> row_first tr.
Proof.
  intros Ha before ev after -> He. rewrite acts_app in Ha. unfold acts in Ha. cbn [existsb] in Ha. rewrite He in Ha. by rewrite orb_true_r in Ha.
Qed.

Lemma row_first_app tr evs : acts tr = false -> written tr <> [] -> row_first (tr ++ evs).
Proof.
  intros Ha Hw before ev after Heq He. symmetry in Heq. apply app_eq_app in Heq as (l & [(-> & H)|(-> & H)]).
  - rewrite written_app. by intros [? _]%app_eq_nil.
  - destruct l as [|x l]; cbn [app] in H; [by rewrite app_nil_r in *|]. injection H as -> ->. exfalso.
    rewrite acts_app in Ha. unfold acts in Ha. cbn [existsb] in Ha. rewrite He in Ha. by rewrite orb_true_r in Ha.
Qed.

Lemma unblocked_idle a tr err : idle tr -> unblocked a tr newResult err.
Proof. intros Hi. split; [by apply fine_idle|by apply row_first_idle, Hi]. Qed.

(** The row is on the trail, the lift did not come through. *)
Lemma unblocked_lost a tr evs e : idle tr -> acts evs = false -> Forall (fun x => attributed a [AccessUnblock] x.1) (tries evs) ->
  unblocked a (tr ++ evs) newResult (Some e).
Proof.
  intros Hi Ha Hat. assert (Hacts : acts (tr ++ evs) = false) by (by rewrite acts_app, Ha, (proj1 Hi)).
  split; [|by apply row_first_idle]. split; rewrite ?Hacts; try done. by rewrite tries_app, (proj2 Hi).
Qed.

Lemma unblocked_done a tr evs evs' rec : idle tr -> attributed a [AccessUnblock] rec -> row_attempts rec (Ok tt) evs ->
  acts evs' = true -> tries evs' = [] ->
  unblocked a (tr ++ evs ++ evs') {| Changed := true; Recorded := true; Audit := Some (operator_row rec); Warnings := [] |} None.
Proof.
  intros Hi Hat (Ha & Hn & Hall & Hw) Ha' Ht'. rewrite app_assoc.
  assert (Htries : tries ((tr ++ evs) ++ evs') = tries evs) by (by rewrite !tries_app, Ht', (proj2 Hi), app_nil_r).
  assert (Hwr : written ((tr ++ evs) ++ evs') = [rec]) by (unfold written in *; by rewrite Htries).
  assert (Hacts : acts ((tr ++ evs) ++ evs') = true) by (by rewrite !acts_app, Ha', orb_true_r).
  split.
  - split; rewrite ?Htries, ?Hwr, ?Hacts; cbn [Changed Recorded Audit Warnings]; try done.
    + eapply Forall_impl; [exact Hall|]. by intros x ->.
    + intros _. split; [done|]. split; [|exists rec; split; [left|done]]. eapply Forall_impl; [exact Hall|]. intros x ->. left.
  - apply row_first_app; [by rewrite acts_app, Ha, (proj1 Hi)|]. rewrite written_app, Hw. by intros [_ ?]%app_eq_nil.
Qed.

Lemma Service_Unblock_fine a req acc : idle acc ->
  wpa acc (Service_Unblock s a req) (fun tr out => match out with Done (x, err) => unblocked a tr (br_result x) err | Panicked _ => False end).
Proof.
  intros Hi. unfold Service_Unblock. apply wpa_bind, wpa_validateBlock; [done|]. intros tr v Hv _. cbn beta iota.
  destruct v as [note|e]; [|by apply wpa_ret, unblocked_idle]. destruct (need _); [by apply wpa_ret, unblocked_idle|].
  quiet_ask cfg. destruct cfg; [|by apply wpa_ret, unblocked_idle]. quiet_ask bs. destruct bs as [bs|f]; [|by apply wpa_ret, unblocked_idle].
  destruct (negb _); [by apply wpa_ret, unblocked_idle|]. quiet_ask now. cbv zeta. apply wpa_bind, wpa_row. intros evs r Hr.
  assert (Hat : attributed a [AccessUnblock] (operatorRow a AccessUnblock (BlockReason (br_subject req) note) (UTC now))) by (eexists _, _, _; split; [left|done]).
  assert (Hrows : Forall (fun x => attributed a [AccessUnblock] x.1) (tries evs)) by (destruct Hr as (_ & _ & Hall & _); eapply Forall_impl; [exact Hall|]; by intros x ->).
  destruct r as [[]|f]; [|apply wpa_ret, unblocked_lost; [done|by destruct Hr|done]].
  apply wpa_bind, (wpa_retry (ask (AUnblock (br_subject req))) (did (AUnblock (br_subject req)))).
  { intros acc' Q' H'. by apply (wpa_trigger (E := admin_effects)). }
  intros evs' l Hl. destruct (tried_act _ _ _ Hl) as (Ha & Ht & _); [done|done|]. rewrite <- app_assoc.
  destruct l as [lifted|f]; apply wpa_ret.
  - by apply unblocked_done.
  - apply unblocked_lost; [done|by rewrite acts_app, Ha, (proj1 Hr)|]. rewrite tries_app, Ht, app_nil_r. done.
Qed.

(** ** The quarantine's operations *)

Lemma honest_in tr ev : honest tr -> ev ∈ tr -> honest_event ev.
Proof. unfold honest. rewrite Forall_forall. eauto. Qed.

Lemma ApproveTool_fine a req acc : idle acc -> wpa acc (ApproveTool s a req) (said apr_result a [ToolApprove]).
Proof.
  intros Hi. unfold ApproveTool. cbv zeta. destruct (checkActor a); [done_idle|]. quiet_ask cfg. destruct cfg as [cfg|]; [|done_idle].
  apply wpa_bind, wpa_getTool; [done|]. intros tr got Hg. cbn beta iota. destruct got as [before|]; [|done_idle].
  destruct (bool_decide _); [done_idle|]. destruct (negb _); [done_idle|]. destruct (_ && Usable before); [done_idle|].
  destruct (_ && sensitive before); [done_idle|]. quiet_ask d. destruct d as [d|f]; cycle 1.
  { destruct f as [|[] text| | | |]; try done_idle. quiet_ask now. destruct now as [now|]; [|done_idle]. destruct (negb _); done_idle. }
  retried a [ToolApprove] (AApprove (ServerName before) (ToolName before) (ObservedHash before)) (fun _ : Quarantine.Tool => true).
  - intros tr' f Hi'. destruct f as [|[] text| | | |]; done_idle.
  - done.
  - intros tr' after _ Hm Hts Hin. destruct (negb (Usable after) && negb (sensitive after)) eqn:Hbug.
    + apply wpa_ret. intros Hh. apply (honest_in _ _ Hh) in Hin as (t & now & Ha & Hn). exfalso.
      unfold ApprovedFingerprint in Ha. destruct (bool_decide (ObservedHash t = _)) eqn:Eo; [|done]. apply bool_decide_eq_true in Eo.
      injection Ha as <-. rewrite <- Eo in Hn. destruct (approved_usable t now Hn) as [Hu|Hs].
      * by rewrite Hu in Hbug.
      * unfold sensitive in Hbug. rewrite (bool_decide_eq_false_2 _ Hs) in Hbug. by rewrite andb_false_r in Hbug.
    + apply (wpa_record_now apr_result a [ToolApprove]); [done|done|done|left|]. intros tr2 res' Hf. apply wpa_ret. intros _. exact Hf.
Qed.

Lemma RevokeTool_fine a req acc : idle acc -> wpa acc (RevokeTool s a req) (said rvr_result a [ToolRevoke]).
Proof.
  intros Hi. unfold RevokeTool. cbv zeta. destruct (checkActor a); [done_idle|]. quiet_ask cfg. destruct cfg as [cfg|]; [|done_idle].
  apply wpa_bind, wpa_getTool; [done|]. intros tr got Hg. cbn beta iota. destruct got as [before|]; [|done_idle].
  destruct (bool_decide _); [done_idle|].
  retried a [ToolRevoke] (ARevoke (ServerName before) (ToolName before)) (fun _ : Quarantine.Tool => true).
  - intros tr' f Hi'. destruct f as [|[] text| | | |]; done_idle.
  - done.
  - intros tr' after _ Hm Hts Hin. destruct (Usable after) eqn:Hu.
    + apply wpa_ret. intros Hh. apply (honest_in _ _ Hh) in Hin as (t & now & Ha). by rewrite (revoked_unusable _ _ _ Ha) in Hu.
    + apply (wpa_record_now rvr_result a [ToolRevoke]); [done|done|done|left|]. intros tr2 res' Hf. apply wpa_ret. intros _. exact Hf.
Qed.

Lemma ClearTool_fine a req acc : idle acc -> wpa acc (ClearTool s a req) (said clr_result a [ToolClear]).
Proof.
  intros Hi. unfold ClearTool. cbv zeta. destruct (checkActor a); [done_idle|]. quiet_ask cfg. destruct cfg as [cfg|]; [|done_idle].
  apply wpa_bind, wpa_getTool; [done|]. intros tr got Hg. cbn beta iota. destruct got as [before|]; [|done_idle].
  destruct (negb (Class_Valid _)); [done_idle|]. destruct (negb (sensitive before)); [done_idle|]. destruct (_ || _); [done_idle|].
  destruct (none _); [done_idle|]. destruct (Usable before); [done_idle|].
  retried a [ToolClear] (AClear (ServerName before) (ToolName before)) (fun _ : Quarantine.Tool => true).
  - intros tr' f Hi'. destruct f as [|[] text| | | |]; done_idle.
  - done.
  - intros tr' after _ Hm Hts Hin. destruct (Usable after) eqn:Hu; cbn [negb].
    + apply (wpa_record_now clr_result a [ToolClear]); [done|done|done|left|]. intros tr2 res' Hf. apply wpa_ret. intros _. exact Hf.
    + apply wpa_ret. intros Hh. apply (honest_in _ _ Hh) in Hin as (t & now & Ha & Hok). by rewrite (cleared_usable _ _ _ Hok Ha) in Hu.
Qed.
(** The rows of a set: the actor's, and all on the trail when none was lost. *)
Definition rows_tried (a : Actor) (tools : list string) (evs : list aev) (lost : nat) : Prop :=
  acts evs = false /\ Forall (fun x => attributed a tools x.1) (tries evs)
  /\ (lost = O -> Forall (fun x => x.1 ∈ written evs) (tries evs)).

Lemma rows_tried_app a tools evs1 evs2 l1 l2 : rows_tried a tools evs1 l1 -> rows_tried a tools evs2 l2 -> rows_tried a tools (evs1 ++ evs2) (l1 + l2).
Proof.
  intros (A1 & R1 & W1) (A2 & R2 & W2). split; [by rewrite acts_app, A1|]. rewrite tries_app, written_app. split; [by apply Forall_app|].
  intros Hz. apply Forall_app. split; [eapply Forall_impl; [apply W1; lia|]|eapply Forall_impl; [apply W2; lia|]]; intros x Hx; apply elem_of_app; auto.
Qed.

Lemma rows_tried_one a tools rec r evs : attributed a tools rec -> row_attempts rec r evs ->
  rows_tried a tools evs (match r with Ok _ => O | Err _ => 1%nat end).
Proof.
  intros Hat (Ha & _ & Hall & Hw). split; [done|]. split; [eapply Forall_impl; [exact Hall|]; by intros x ->|].
  destruct r; [|done]. intros _. rewrite Hw. eapply Forall_impl; [exact Hall|]. intros x ->. left.
Qed.

Lemma wpa_set_rows a manifest now approvals tools acc (Q : list aev -> outcome (list OperatorRow * nat) -> Prop) : ToolApprove ∈ tools ->
  (forall evs x, rows_tried a tools evs x.2 -> Q (acc ++ evs) (Done x)) -> wpa acc (set_rows a manifest now approvals) Q.
Proof.
  intros Hin. revert acc Q. induction approvals as [|ap rest IH]; intros acc Q H; cbn [set_rows].
  { apply wpa_ret. rewrite <- (app_nil_r acc). apply H. by repeat split; constructor. }
  cbv zeta. apply wpa_bind, wpa_row. intros evs r Hr. apply wpa_bind, IH. intros evs' x Hx. apply wpa_ret. rewrite <- app_assoc. apply H.
  assert (Hat : attributed a tools (operatorRow a ToolApprove (set_row_reason manifest a ap) now)) by (by eexists _, _, _).
  pose proof (rows_tried_app _ _ _ _ _ _ (rows_tried_one _ _ _ _ _ Hat Hr) Hx) as Hall. by destruct r.
Qed.

(** One change, then several rows, the last of them shown. *)
Lemma fine_rows a tools tr evs evs' res rec r lost : moved a tools tr -> tries tr = [] -> Changed res = true ->
  rows_tried a tools evs lost -> attributed a tools rec -> row_attempts rec r evs' ->
  fine a tools (tr ++ evs ++ evs') (with_lost (recorded res rec r) lost) None.
Proof.
  intros Hm Ht Hc He Hat Hr. pose proof (rows_tried_app _ _ _ _ _ _ He (rows_tried_one _ _ _ _ _ Hat Hr)) as (A & R & W).
  assert (Htries : tries (tr ++ evs ++ evs') = tries (evs ++ evs')) by (by rewrite tries_app, Ht).
  assert (Hwr : written (tr ++ evs ++ evs') = written (evs ++ evs')) by (unfold written; by rewrite Htries).
  assert (Hacts : acts (tr ++ evs ++ evs') = true) by (by rewrite acts_app, (mv_acts _ _ _ Hm)).
  split; [|apply act_first_app; apply Hm]. split; rewrite ?Htries, ?Hwr, ?Hacts; try done.
  - by destruct lost, r.
  - rewrite tries_app. intros _ _ [_ ?]%app_eq_nil. by destruct Hr as (_ & ? & _).
  - destruct lost; [|done]. destruct r as [[]|]; [|done]. intros _. split; [done|]. split; [by apply W|].
    exists rec. split; [|done]. rewrite written_app. apply elem_of_app. right. destruct Hr as (_ & _ & _ & ->). left.
  - intros _. destruct lost; cbn [with_lost Recorded Warnings].
    + destruct r; [done|]. intros _. cbn. apply elem_of_app. right. left.
    + intros _. apply elem_of_app. right. left.
Qed.

Lemma wpa_listServer server acc (Q : list aev -> outcome (result api_error (list Quarantine.Tool)) -> Prop) :
  idle acc -> (forall tr v, idle tr -> Q tr (Done v)) -> wpa acc (listServer s server) Q.
Proof.
  intros Hi H. unfold listServer. destruct (need _); [by apply wpa_ret, H|]. destruct (blank _); [by apply wpa_ret, H|].
  quiet_ask r. destruct r as [[|t l]|f]; by apply wpa_ret, H.
Qed.

Lemma wpa_check_kept set acc (Q : list aev -> outcome (option api_error) -> Prop) :
  idle acc -> (forall tr v, idle tr -> Q tr (Done v)) -> wpa acc (check_kept set) Q.
Proof.
  intros Hi H. revert acc Hi. induction set as [|t rest IH]; intros acc Hi; cbn [check_kept]; [by apply wpa_ret, H|].
  quiet_ask d. destruct d as [d|f]; [by apply IH|]. destruct f as [|[] text| | | |]; by apply wpa_ret, H.
Qed.

Lemma no_bug roles approvals : Forall (fun ap => exists now, After_ ap = Approved (Before_ ap) now /\ ObservedHash (Before_ ap) <> "") approvals ->
  (approved_items roles approvals).2 = false.
Proof.
  induction 1 as [|ap rest (now & Ha & Hn) _ IH]; [done|]. cbn [approved_items].
  destruct (negb (Usable (After_ ap)) && negb (sensitive (After_ ap))) eqn:Hbug; [|by destruct (approved_items roles rest)]. exfalso.
  rewrite Ha in Hbug. destruct (approved_usable (Before_ ap) now Hn) as [Hu|Hs]; [by rewrite Hu in Hbug|].
  unfold sensitive in Hbug. rewrite (bool_decide_eq_false_2 _ Hs) in Hbug. by rewrite andb_false_r in Hbug.
Qed.

Lemma ApproveToolSet_fine a req acc : idle acc -> wpa acc (ApproveToolSet s a req) (said asr_result a [ToolApprove; ToolApproveSet]).
Proof.
  intros Hi. unfold ApproveToolSet. cbv zeta. destruct (checkActor a); [done_idle|]. quiet_ask cfg. destruct cfg as [cfg|]; [|done_idle].
  apply wpa_bind, wpa_listServer; [done|]. intros tr got Hg. cbn beta iota. destruct got as [tools|]; [|done_idle].
  set (current := if none (ReviewSet tools) then "" else _). destruct (bool_decide _); [done_idle|]. destruct (none (ReviewSet tools)); [done_idle|].
  destruct (negb _); [done_idle|]. apply wpa_bind, wpa_check_kept; [done|]. intros tr' unkept Hk. cbn beta iota. destruct unkept; [done_idle|].
  retried a [ToolApprove; ToolApproveSet] (AApproveSet (as_server req) current) (fun _ : list Approval => true).
  - intros tr2 f Hi'. destruct f as [|[] text| | | |]; done_idle.
  - done.
  - intros tr2 approvals _ Hm Hts Hin. destruct (approved_items (cfg_roles cfg) approvals) as [items bug] eqn:Eb. destruct bug.
    + apply wpa_ret. intros Hh. apply (honest_in _ _ Hh) in Hin. pose proof (no_bug (cfg_roles cfg) _ Hin) as Hb. by rewrite Eb in Hb.
    + apply wpa_admin_ask. intros now. assert (Hm' : moved a [ToolApprove; ToolApproveSet] (tr2 ++ [did ANow now])) by (by apply moved_app; [done|constructor]).
      apply wpa_bind, (wpa_set_rows _ _ _ _ [ToolApprove; ToolApproveSet]); [left|]. intros evs x Hx. apply wpa_bind, wpa_admin_record. intros evs' r Hr.
      apply wpa_ret. intros _. rewrite <- app_assoc. apply fine_rows; try done.
      * by rewrite tries_app, Hts.
      * eexists _, _, _. split; [right; left|done].
Qed.
End accounts.
