(* ===== verification/AdminDecisions.v ===== *)
(** * What an operator's decision is of

    The approval of a tool, of a review set, and the clearance of a tool that acts, followed to the port:
    what [AdminAccess.v]'s programs have read by the time they ask the quarantine to change. *)
From Stdlib Require Import ZArith Lia Ascii.
From stdpp Require Import base strings list gmap.
From S2P Require Import Prelude.
From S2P Require Import GoStrings.
From S2P Require Import GoTime.
From S2P Require Import Encode.
From S2P Require Import AuditLog.
From S2P Require Import Access.
From S2P Require Import Redact.
From S2P Require Import Prog.
From S2P Require Import Config.
From S2P Require Import Reload.
From S2P Require Import ServeControl.
From S2P Require Import Quarantine.
From S2P Require Import AdminPorts.
From S2P Require Import AdminAccess.

(** Every event of a run is one its past allows. *)
Definition guarded (ok : list aev -> admin_effect -> Prop) (tr : list aev) : Prop :=
  forall before ev after, tr = before ++ ev :: after -> ok before (ev_eff ev).

Section guarded.
Context (ok : list aev -> admin_effect -> Prop).
Hypothesis ok_mono : forall before more e, ok before e -> ok (before ++ more) e.

Lemma guarded_nil : guarded ok [].
Proof. by intros [|] ? ? ?. Qed.

Lemma guarded_snoc tr ev : guarded ok tr -> ok tr (ev_eff ev) -> guarded ok (tr ++ [ev]).
Proof.
  intros Hg Ho before ev' after Heq. destruct after as [|y after] using rev_ind.
  - apply app_inj_tail in Heq as [<- <-]. exact Ho.
  - rewrite app_comm_cons, app_assoc in Heq. apply app_inj_tail in Heq as [-> _]. by eapply Hg.
Qed.

Lemma guarded_all tr evs : guarded ok tr -> Forall (fun ev => ok tr (ev_eff ev)) evs -> guarded ok (tr ++ evs).
Proof.
  intros Hg He. revert tr Hg He. induction evs as [|ev evs IH]; intros tr Hg He; [by rewrite app_nil_r|].
  apply Forall_cons in He as [He Hrest]. replace (tr ++ ev :: evs) with ((tr ++ [ev]) ++ evs) by (by rewrite <- app_assoc).
  apply IH; [by apply guarded_snoc|]. eapply Forall_impl; [exact Hrest|]. intros x Hx. by apply ok_mono.
Qed.

(** A retried port whose effect the past allows. *)
Lemma guarded_retry {R} (fn : prog (E := admin_effects) (result fault R)) (mk : result fault R -> aev) e acc (Q : list aev -> outcome (result fault R) -> Prop) :
  (forall acc (Q : list aev -> outcome (result fault R) -> Prop), (forall r, Q (acc ++ [mk r]) (Done r)) -> wpa acc fn Q) ->
  (forall r, ev_eff (mk r) = e) -> guarded ok acc -> ok acc e -> (forall backoff, ok acc (ARest backoff)) ->
  (forall evs r, guarded ok (acc ++ evs) -> Q (acc ++ evs) (Done r)) -> wpa acc (retry fn) Q.
Proof.
  intros Hfn He Hg Ho Hrest H. apply (wpa_retry fn mk Hfn). intros evs r (pre & post & -> & Hpre & Hpost). apply H. apply guarded_all; [done|].
  apply Forall_app. split; [|constructor].
  - eapply Forall_impl; [exact Hpre|]. intros ev [[t ->]|(b & x & ->)]; [by rewrite He|apply Hrest].
  - by rewrite He.
  - eapply Forall_impl; [exact Hpost|]. intros ev (b & x & ->). apply Hrest.
Qed.
End guarded.

Section decisions.
Context `{PT : PrintTable, HF : HashFunction} (s : ports).

(** The only changes are approvals of the fingerprint the request names, which the entry read was
    advertising, and whose definition is kept. *)
Definition as_shown (req : ApproveRequest) (before : list aev) (e : admin_effect) : Prop :=
  match e with
  | AApprove server tool hash =>
      hash = NormalizeFingerprint (ap_fingerprint req) /\ hash <> ""
      /\ (exists t, did (AGet (ap_server req) (ap_tool req)) (Ok t) ∈ before /\ ServerName t = server /\ ToolName t = tool /\ ObservedHash t = hash)
      /\ exists d, did (ADefinition hash) (Ok d) ∈ before
  | AConfig | ANow | ARest _ | ARecord _ | AGet _ _ | ADefinition _ => True
  | _ => False
  end.

(** The only change is the approval of the set the request's manifest names, which is the manifest of the
    listing read, every definition of it kept. *)
Definition set_as_shown (req : ApproveSetRequest) (before : list aev) (e : admin_effect) : Prop :=
  match e with
  | AApproveSet server manifest =>
      server = as_server req /\ manifest = NormalizeManifest (as_manifest req)
      /\ exists tools, did (AListTools server) (Ok tools) ∈ before /\ ReviewSet tools <> [] /\ Manifest server (ReviewSet tools) = manifest
         /\ forall t, t ∈ ReviewSet tools -> exists d, did (ADefinition (ObservedHash t)) (Ok d) ∈ before
  | AConfig | ANow | ARest _ | ARecord _ | AListTools _ | ADefinition _ => True
  | _ => False
  end.

(** The only change is the clearance of an approved tool that acts, which a non-read role of the
    configuration read names in its own list. *)
Definition clear_as_shown (req : ToolRef) (before : list aev) (e : admin_effect) : Prop :=
  match e with
  | AClear server tool =>
      exists t cfg r, did (AGet (tr_server req) (tr_tool req)) (Ok t) ∈ before /\ ServerName t = server /\ ToolName t = tool
        /\ TStatus t = StatusApproved /\ ApprovedHash t <> "" /\ TClass t <> ClassSafe
        /\ did AConfig (Ok cfg) ∈ before /\ r ∈ cfg_roles cfg /\ NonRead (toAccess r) = true /\ AllowsExplicitly (toAccess r) (server +:+ "." +:+ tool) = true
  | AConfig | ANow | ARest _ | ARecord _ | AGet _ _ => True
  | _ => False
  end.

Lemma as_shown_mono req before more e : as_shown req before e -> as_shown req (before ++ more) e.
Proof.
  destruct e; cbn; try done. intros (? & ? & (t & ? & ?) & (d & ?)). split_and!; [done|done|exists t|exists d]; rewrite ?elem_of_app; auto.
Qed.

Lemma set_as_shown_mono req before more e : set_as_shown req before e -> set_as_shown req (before ++ more) e.
Proof.
  destruct e; cbn; try done. intros (? & ? & tools & ? & ? & ? & Hk). split_and!; [done|done|]. exists tools. rewrite elem_of_app. split_and!; [auto|done|done|].
  intros t Ht. destruct (Hk t Ht) as [d Hd]. exists d. rewrite elem_of_app. auto.
Qed.

Lemma clear_as_shown_mono req before more e : clear_as_shown req before e -> clear_as_shown req (before ++ more) e.
Proof. destruct e; cbn; try done. intros (t & cfg & r & ? & ? & ? & ? & ? & ? & ? & ?). exists t, cfg, r. rewrite !elem_of_app. naive_solver. Qed.

(** The postcondition that says so of the whole run. *)
Definition keeps {A} (ok : list aev -> admin_effect -> Prop) (tr : list aev) (out : outcome A) : Prop := guarded ok tr.

(** One more event of those always allowed. *)
Ltac free_ask x := apply wpa_admin_ask; intros x; match goal with H : guarded ?ok ?acc |- wpa (?acc ++ [?ev]) _ _ =>
  let H' := fresh "Hg" in assert (H' : guarded ok (acc ++ [ev])) by (apply guarded_snoc; [exact H|exact I]);
  let I := fresh "Hin" in assert (I : ev ∈ acc ++ [ev]) by (apply elem_of_app; right; left); clear H end.
Ltac done_kept := by apply wpa_ret.

(** The row at the end, and any number of events after a change. *)
Lemma keeps_record {A} (ok : list aev -> admin_effect -> Prop) acc res rec (Q : list aev -> outcome A -> Prop) (f : ActionResult -> prog (E := admin_effects) A) :
  (forall before more e, ok before e -> ok (before ++ more) e) -> (forall tr, ok tr (ARecord rec)) -> (forall tr b, ok tr (ARest b)) ->
  guarded ok acc -> (forall tr res', guarded ok tr -> wpa tr (f res') Q) -> wpa acc (res' <- record res rec;; f res') Q.
Proof.
  intros Hm Hr Hb Hg H. unfold record. apply wpa_bind, wpa_bind. apply (guarded_retry ok Hm (ask (ARecord rec)) (did (ARecord rec)) (ARecord rec)); try done.
  { intros acc' Q' H'. by apply (wpa_trigger (E := admin_effects)). }
  intros evs r Hg'. apply wpa_ret. by apply H.
Qed.

Lemma keeps_record_now {A} (ok : list aev -> admin_effect -> Prop) a acc res tool reason (Q : list aev -> outcome A -> Prop) (f : ActionResult -> prog (E := admin_effects) A) :
  (forall before more e, ok before e -> ok (before ++ more) e) -> (forall tr rec, ok tr (ARecord rec)) -> (forall tr b, ok tr (ARest b)) -> (forall tr, ok tr ANow) ->
  guarded ok acc -> (forall tr res', guarded ok tr -> wpa tr (f res') Q) -> wpa acc (res' <- record_now a res tool reason;; f res') Q.
Proof.
  intros Hm Hr Hb Hn Hg H. unfold record_now. apply wpa_bind, wpa_admin_ask. intros now.
  assert (Hg' : guarded ok (acc ++ [did ANow now])) by (apply guarded_snoc; [done|apply Hn]).
  set (rec := operatorRow a tool reason (UTC now)). unfold record. apply wpa_bind.
  apply (guarded_retry ok Hm (ask (ARecord rec)) (did (ARecord rec)) (ARecord rec)); try done.
  { intros acc' Q' H'. by apply (wpa_trigger (E := admin_effects)). }
  intros evs r Hg2. by apply wpa_ret, H.
Qed.

Lemma wpa_getTool_read ok server tool acc (Q : list aev -> outcome (result api_error Quarantine.Tool) -> Prop) :
  (forall tr, ok tr (AGet server tool)) -> guarded ok acc ->
  (forall more e, guarded ok (acc ++ more) -> Q (acc ++ more) (Done (Err e))) ->
  (forall more t, guarded ok (acc ++ more) -> did (AGet server tool) (Ok t) ∈ acc ++ more -> Q (acc ++ more) (Done (Ok t))) ->
  wpa acc (getTool s server tool) Q.
Proof.
  intros Ho Hg He Ht. unfold getTool.
  assert (Hnow : forall e, wpa acc (Ret (Err e)) Q) by (intros e; apply wpa_ret; rewrite <- (app_nil_r acc); apply He; by rewrite app_nil_r).
  destruct (need _); [apply Hnow|]. destruct (_ || _); [apply Hnow|].
  apply wpa_admin_ask. intros r. assert (Hg' : guarded ok (acc ++ [did (AGet server tool) r])) by (apply guarded_snoc; [done|apply Ho]).
  destruct r as [t|[|[] text| | | |]]; apply wpa_ret; try by apply He. apply Ht; [done|]. apply elem_of_app. right. left.
Qed.

Lemma ApproveTool_shown a req : wpa [] (ApproveTool s a req) (keeps (as_shown req)).
Proof.
  pose proof (guarded_nil (as_shown req)) as Hg. unfold ApproveTool. cbv zeta. destruct (checkActor a); [done_kept|].
  free_ask cfg. destruct cfg as [cfg|]; [|done_kept]. apply wpa_bind. eapply (wpa_getTool_read (as_shown req)); [intros; exact I|exact Hg0|..]; [intros more e Hg; done_kept|].
  intros more before Hg Hread. destruct (bool_decide (_ = "")) eqn:En; [done_kept|]. apply bool_decide_eq_false in En.
  destruct (bool_decide (_ = ObservedHash before)) eqn:Eo; cbn [negb]; [|done_kept]. apply bool_decide_eq_true in Eo.
  destruct (_ && Usable before); [done_kept|]. destruct (_ && sensitive before); [done_kept|].
  revert Hread. generalize dependent (([] ++ [did AConfig (Ok cfg)]) ++ more). intros acc Hg Hread.
  apply wpa_admin_ask. intros d. assert (Hg' : guarded (as_shown req) (acc ++ [did (ADefinition (ObservedHash before)) d])) by (apply guarded_snoc; [exact Hg|exact I]).
  destruct d as [d|f]; cycle 1.
  { destruct f as [|[] text| | | |]; try done_kept. free_ask now. destruct now as [now|]; [|done_kept]. destruct (negb _); done_kept. }
  apply wpa_bind. eapply (guarded_retry (as_shown req) (as_shown_mono req) _ (did (AApprove _ _ _)) (AApprove _ _ _)); [|done|exact Hg'| |intros; exact I|].
  { intros acc' Q' H'. by apply (wpa_trigger (E := admin_effects)). }
  { cbn. rewrite <- Eo. split_and!; [done|done|exists before; rewrite elem_of_app; auto|]. exists d. rewrite Eo. apply elem_of_app. right. left. }
  intros evs r Hg2. destruct r as [after|f]; [|destruct f as [|[] text| | | |]; done_kept]. destruct (_ && _); [done_kept|].
  apply (keeps_record_now (as_shown req)); [apply as_shown_mono|intros; exact I|intros; exact I|intros; exact I|exact Hg2|]. intros tr res' Hg3. done_kept.
Qed.

Lemma wpa_check_kept_read req set acc (Q : list aev -> outcome (option api_error) -> Prop) :
  guarded (set_as_shown req) acc ->
  (forall more e, guarded (set_as_shown req) (acc ++ more) -> Q (acc ++ more) (Done (Some e))) ->
  (forall more, guarded (set_as_shown req) (acc ++ more) ->
     (forall t, t ∈ set -> exists d, did (ADefinition (ObservedHash t)) (Ok d) ∈ acc ++ more) -> Q (acc ++ more) (Done None)) ->
  wpa acc (check_kept set) Q.
Proof.
  revert acc. induction set as [|t set IH]; intros acc Hg He Hn; cbn [check_kept].
  { apply wpa_ret. rewrite <- (app_nil_r acc). apply Hn; [by rewrite app_nil_r|]. by intros t ?%not_elem_of_nil. }
  free_ask d. destruct d as [d|f].
  - apply IH; [done|..].
    + intros more e. rewrite <- app_assoc. apply He.
    + intros more. rewrite <- app_assoc. intros Hg' Hk. apply Hn; [done|]. intros t' [->|Ht']%elem_of_cons; [|by apply Hk].
      exists d. rewrite app_assoc. apply elem_of_app. by left.
  - destruct f as [|[] text| | | |]; apply wpa_ret, He; done.
Qed.

Lemma wpa_set_rows_kept req a manifest now approvals acc (Q : list aev -> outcome (list OperatorRow * nat) -> Prop) :
  guarded (set_as_shown req) acc -> (forall tr x, guarded (set_as_shown req) tr -> Q tr (Done x)) -> wpa acc (set_rows a manifest now approvals) Q.
Proof.
  revert acc Q. induction approvals as [|ap rest IH]; intros acc Q Hg H; cbn [set_rows]; [by apply wpa_ret, H|].
  cbv zeta. set (rec := operatorRow _ _ _ _). apply wpa_bind.
  apply (guarded_retry (set_as_shown req) (set_as_shown_mono req) (ask (ARecord rec)) (did (ARecord rec)) (ARecord rec)); [|done|done|exact I|intros; exact I|].
  { intros acc' Q' H'. by apply (wpa_trigger (E := admin_effects)). }
  intros evs r Hg'. apply wpa_bind, IH; [done|]. intros tr x Hx. by apply wpa_ret, H.
Qed.

Lemma ApproveToolSet_shown a req : wpa [] (ApproveToolSet s a req) (keeps (set_as_shown req)).
Proof.
  pose proof (guarded_nil (set_as_shown req)) as Hg. unfold ApproveToolSet. cbv zeta. destruct (checkActor a); [done_kept|].
  free_ask cfg. destruct cfg as [cfg|]; [|done_kept]. revert Hg0. generalize ([] ++ [did AConfig (Ok cfg)]) as acc. intros acc Hg. clear Hin.
  apply wpa_bind. unfold listServer. destruct (need _); [apply wpa_ret; done_kept|]. destruct (blank _); [apply wpa_ret; done_kept|].
  free_ask got. destruct got as [[|t l]|f]; try (apply wpa_ret; done_kept). apply wpa_ret. remember (t :: l) as tools eqn:Et. clear Et t l.
  destruct (bool_decide (NormalizeManifest _ = "")); [done_kept|]. destruct (none (ReviewSet tools)) eqn:En; [done_kept|].
  destruct (bool_decide (_ = Manifest _ _)) eqn:Em; cbn [negb]; [|done_kept]. apply bool_decide_eq_true in Em.
  revert Hg0 Hin. generalize (acc ++ [did (AListTools (as_server req)) (Ok tools)]) as acc1. intros acc1 Hg1 Hin1.
  apply wpa_bind, (wpa_check_kept_read req); [done|intros more e Hg2; done_kept|]. intros more Hg2 Hk.
  set (current := Manifest _ _) in *. apply wpa_bind.
  apply (guarded_retry (set_as_shown req) (set_as_shown_mono req) (ask (AApproveSet (as_server req) current)) (did (AApproveSet (as_server req) current)) (AApproveSet (as_server req) current));
    [|done|done| |intros; exact I|].
  { intros acc' Q' H'. by apply (wpa_trigger (E := admin_effects)). }
  { cbn. split_and!; [done|by rewrite Em|]. exists tools. split_and!; [apply elem_of_app; by left|by destruct (ReviewSet tools)|done|exact Hk]. }
  intros evs r Hg3. destruct r as [approvals|f]; [|destruct f as [|[] text| | | |]; done_kept].
  destruct (approved_items _ _) as [items []]; [done_kept|]. free_ask now. apply wpa_bind, (wpa_set_rows_kept req); [done|]. intros tr x Hx.
  apply (keeps_record (set_as_shown req)); [apply set_as_shown_mono|intros; exact I|intros; exact I|done|]. intros tr' res' Hg'. done_kept.
Qed.

Lemma ClearableBy_named roles server tool c : c ∈ ClearableBy roles server tool ->
  exists r, r ∈ roles /\ NonRead (toAccess r) = true /\ AllowsExplicitly (toAccess r) (server +:+ "." +:+ tool) = true.
Proof.
  unfold ClearableBy. intros (r & _ & Hr)%list_elem_of_fmap. apply list_elem_of_filter in Hr as [Hr Hin]. exists r.
  apply andb_true_iff in Hr. tauto.
Qed.

Lemma ClearTool_shown a req : wpa [] (ClearTool s a req) (keeps (clear_as_shown req)).
Proof.
  pose proof (guarded_nil (clear_as_shown req)) as Hg. unfold ClearTool. cbv zeta. destruct (checkActor a); [done_kept|].
  free_ask cfg. destruct cfg as [cfg|]; [|done_kept]. apply wpa_bind.
  eapply (wpa_getTool_read (clear_as_shown req)); [intros; exact I|exact Hg0|intros more e Hg; done_kept|]. intros more before Hg Hread.
  destruct (negb (Class_Valid _)); [done_kept|]. destruct (sensitive before) eqn:Es; cbn [negb]; [|done_kept].
  destruct (bool_decide (TStatus before = _)) eqn:Est; cbn [negb orb]; [|done_kept]. apply bool_decide_eq_true in Est.
  destruct (bool_decide (ApprovedHash before = "")) eqn:Eh; [done_kept|]. apply bool_decide_eq_false in Eh.
  destruct (ClearableBy (cfg_roles cfg) (ServerName before) (ToolName before)) as [|c l] eqn:Ec; cbn [none]; [done_kept|].
  destruct (Usable before); [done_kept|]. apply wpa_bind.
  eapply (guarded_retry (clear_as_shown req) (clear_as_shown_mono req) _ (did (AClear (ServerName before) (ToolName before))) (AClear (ServerName before) (ToolName before))); [|done|exact Hg| |intros; exact I|].
  { intros acc' Q' H'. by apply (wpa_trigger (E := admin_effects)). }
  { destruct (ClearableBy_named (cfg_roles cfg) (ServerName before) (ToolName before) c) as (r & Hr & Hn & Ha); [rewrite Ec; left|].
    cbn. exists before, cfg, r. unfold sensitive in Es. apply negb_true_iff, bool_decide_eq_false in Es.
    split_and!; try done. left. }
  intros evs r Hg2. destruct r as [after|f]; [|destruct f as [|[] text| | | |]; done_kept]. destruct (negb _); [done_kept|].
  apply (keeps_record_now (clear_as_shown req)); [apply clear_as_shown_mono|intros; exact I|intros; exact I|intros; exact I|exact Hg2|].
  intros tr res' Hg3. done_kept.
Qed.

(** C33 [decisions_are_of_what_was_shown]: on every run, an approval asks the quarantine only for the
    fingerprint the operator's request names, which the entry just read advertises and whose definition
    is kept to be shown; the approval of a review set only for the manifest the request names, which is
    the manifest of the listing just read, every definition of it kept; a clearance only for an approved
    tool that acts, named in the own list of a non-read role of the configuration just read.  None of
    the three changes anything else. *)
Theorem decisions_are_of_what_was_shown a :
  (forall req tr out, runs (ApproveTool s a req) tr out -> guarded (as_shown req) tr)
  /\ (forall req tr out, runs (ApproveToolSet s a req) tr out -> guarded (set_as_shown req) tr)
  /\ (forall req tr out, runs (ClearTool s a req) tr out -> guarded (clear_as_shown req) tr).
Proof.
  split_and!; intros req tr out Hr.
  - exact (wpa_runs _ _ (ApproveTool_shown a req) tr out Hr).
  - exact (wpa_runs _ _ (ApproveToolSet_shown a req) tr out Hr).
  - exact (wpa_runs _ _ (ClearTool_shown a req) tr out Hr).
Qed.
End decisions.

(** ** Three decisions *)

Section demo.
#[local] Existing Instances Redact.demo_print.

Definition demo_ports : ports :=
  {| hasBlockStore := true; hasTools := true; hasTrail := true; hasMaintenance := true; hasUpstreams := true; hasAccounts := true; hasVault := true;
     hasRoles := true; hasRegister := true; hasDeregister := true; hasSign := true; checksPaths := true; checksAgeKey := true |}.

Definition demo_ana : Actor := {| a_name := "ana"; a_via := ""; a_front := "cli"; a_root := false; a_operator := true |}.

(** [cases.close] as observed, and as approved and not cleared. *)
Definition demo_pending : Quarantine.Tool :=
  {| ServerName := "cases"; ToolName := "close"; TStatus := StatusPending; ApprovedHash := ""; ObservedHash := "h1"; TClass := ClassSensitive;
     SensitiveClearedHash := ""; FirstSeenAt := zero_time; TUpdatedAt := zero_time |}.
Definition demo_approved : Quarantine.Tool := Approved demo_pending zero_time.

Definition demo_at_work (t : Quarantine.Tool) (e : admin_effect) : reply (admin_answer e) :=
  match e with
  | AConfig => Val (Ok (demo_with [demo_listed] {[ "ir" := "dfir" ]}))
  | ANow => Val (Time (5 * second) 0)
  | ARest _ => Val false
  | ARecord _ | ADefinition _ | AAdd _ _ | ASetGroups _ _ | ASetDisabled _ _ | ASetPassword _ _ | ADelete _ | AOpen | AWriteRoles _ => Val (Ok tt)
  | AHasAnalyst _ | AUnblock _ | ASetSecret _ _ | ADeleteSecret _ => Val (Ok true)
  | ABlocks => Val (Ok [])
  | APlace _ => Val (Ok (true, None))
  | AGet _ _ => Val (Ok t)
  | AListTools _ => Val (Ok [t])
  | AApprove _ _ _ => Val (Ok (Approved t zero_time))
  | ARevoke _ _ => Val (Ok demo_pending)
  | AClear _ _ => Val (match Cleared t zero_time with Ok t => Ok t | Err e => Err (Sentinel e "") end)
  | AApproveSet _ _ => Val (Ok [{| Before_ := t; After_ := Approved t zero_time |}])
  | AUpstreams => Val (Ok ["cases"])
  | AStart m => Val (Ok {| sr_stored := m; sr_previous := None; sr_changed := true |})
  | AEnd _ => Val (Ok None)
  | AAccounts => Val (Ok [])
  | ANewPassword => Val (Ok ("pw", "hash"))
  | ACheckPaths _ | ACheckAgeKey _ | AValidateRoles _ => Val None
  | AReadRoles => Val (Ok "")
  | ARegisterHTTP _ | ADeregister _ | ASign _ => Val (Err (Failed "down"))
  end.

Definition demo_runs {A} (t : Quarantine.Tool) (p : prog (E := admin_effects) A) : list aev * outcome A := exec (E := admin_effects) (demo_at_work t) p.

Lemma demo_is_run {A} t (p : prog (E := admin_effects) A) : runs p (demo_runs t p).1 (demo_runs t p).2.
Proof. apply (exec_runs (E := admin_effects)). by intros []. Qed.

Definition demo_approval : ApproveRequest := {| ap_server := "cases"; ap_tool := "close"; ap_fingerprint := " sha256:h1" |}.
Definition demo_approve := demo_runs demo_pending (ApproveTool demo_ports demo_ana demo_approval).
Definition demo_stale := demo_runs demo_pending (ApproveTool demo_ports demo_ana {| ap_server := "cases"; ap_tool := "close"; ap_fingerprint := "sha256:h0" |}).
Definition demo_manifest : ApproveSetRequest := {| as_server := "cases"; as_manifest := Manifest "cases" [demo_pending] |}.
Definition demo_set := demo_runs demo_pending (ApproveToolSet demo_ports demo_ana demo_manifest).
Definition demo_ref : ToolRef := {| tr_server := "cases"; tr_tool := "close" |}.
Definition demo_clear := demo_runs demo_approved (ClearTool demo_ports demo_ana demo_ref).

Definition err_code {X} (out : outcome (X * option api_error)) : option string := match out with Done (_, Some e) => Some (e_code e) | _ => None end.

Example demo_rows :
  map AuditLog.Tool (written demo_approve.1) = [ToolApprove] /\ map AuditLog.Tool (written demo_set.1) = [ToolApprove; ToolApproveSet]
  /\ map AuditLog.Tool (written demo_clear.1) = [ToolClear] /\ err_code demo_stale.2 = Some CodeFingerprintMismatch.
Proof. vm_compute. repeat split. Qed.

Lemma decisions_are_of_what_was_shown_witness :
  acts demo_approve.1 = true /\ guarded (as_shown demo_approval) demo_approve.1
  /\ acts demo_set.1 = true /\ guarded (set_as_shown demo_manifest) demo_set.1
  /\ acts demo_clear.1 = true /\ guarded (clear_as_shown demo_ref) demo_clear.1.
Proof.
  destruct (decisions_are_of_what_was_shown demo_ports demo_ana) as (H1 & H2 & H3).
  split; [by vm_compute|]. split; [apply (H1 demo_approval _ demo_approve.2), demo_is_run|].
  split; [by vm_compute|]. split; [apply (H2 demo_manifest _ demo_set.2), demo_is_run|].
  split; [by vm_compute|]. apply (H3 demo_ref _ demo_clear.2), demo_is_run.
Defined.
End demo.
