(* ===== verification/AdminManage.v ===== *)
(** * The management service: maintenance, the console's management, accounts and offboarding
      ([internal/admin/maintenance.go], [manage.go], [accounts.go], [offboard.go], [internal/idp/idp.go])

    The rest of the operations that change something, over the same ports, and the theorem that every
    operation's answer is true to what its run did. *)
From Stdlib Require Import ZArith Lia Ascii.
From stdpp Require Import base strings list gmap.
From S2P Require Import Prelude.
From S2P Require Import GoStrings.
From S2P Require Import Visible.
From S2P Require Import GoTime.
From S2P Require Import Encode.
From S2P Require Import AuditLog.
From S2P Require Import Registry.
From S2P Require Import Access.
From S2P Require Import Blocklist.
From S2P Require Import Redact.
From S2P Require Import Prog.
From S2P Require Import Config.
From S2P Require Import Reload.
From S2P Require Import ServeControl.
From S2P Require Import Quarantine.
From S2P Require Import AdminPorts.
From S2P Require Import AdminAccess.

(** [mail.ParseAddress]: the address of the text, when it is one. *)
Class MailParser := { ParseAddress : string -> option string }.

(** ** Maintenance ([internal/health/health.go], [maintenance.go]) *)

Definition GatewayTarget : string := "(gateway)".
Definition ScopeGateway : string := "gateway".
Definition ScopeUpstream : string := "upstream".
Definition MaxMessageRunes : Z := 200.
Definition MaxUntilAhead : Z := 90 * 24 * hour.

Inductive maintenance_fault := MessageMissing | MessageLong | MessageNotUTF8 | MessageHides | UntilPast | UntilFar.

Definition ValidateMessage `{UT : UnicodeTables} (raw : string) : result maintenance_fault string :=
  let msg := trim_space raw in
  if bool_decide (msg = "") then Err MessageMissing
  else if MaxMessageRunes <? rune_count msg then Err MessageLong
  else if negb (valid_string msg) then Err MessageNotUTF8
  else if existsb (fun c => Hides (fst c)) (runes msg) then Err MessageHides
  else Ok msg.

Definition ValidateUntil (until now : time) : option maintenance_fault :=
  if IsZero until then None
  else if negb (After until now) then Some UntilPast
  else if MaxUntilAhead <? Sub until now then Some UntilFar
  else None.

Section maintenance.
Context `{UT : UnicodeTables, PT : PrintTable} (s : ports).

Record MaintenanceRequest := { mr_scope : string; mr_upstream : string; mr_message : string; mr_until : option time }.
Record MaintenanceResult := { mnt_result : ActionResult; mnt_stored : option Maintenance; mnt_previous : option Maintenance }.

Definition maintenanceSubject (scope upstream : string) : string :=
  if bool_decide (scope = ScopeGateway) then "gateway" else "upstream " +:+ Quote upstream.

Definition MaintenanceReason (scope upstream : string) (a : Actor) (until : time) (message : string) : string :=
  maintenanceSubject scope upstream +:+ ": " +:+ Actor_Tag a +:+ " "
  +:+ (if IsZero until then "no announced end" else "until " +:+ format_seconds until) +:+ ": " +:+ Quote message.

Definition maintenanceTarget (scope upstream : string) : result api_error string :=
  if bool_decide (scope = ScopeGateway) then
    if bool_decide (upstream = "") then Ok GatewayTarget else Err (With (refusal CodeInvalidArgument) "field" "upstream")
  else if bool_decide (scope = ScopeUpstream) then
    if bool_decide (upstream = "") then Err (With (refusal CodeInvalidArgument) "field" "upstream") else Ok upstream
  else Err (With (refusal CodeInvalidArgument) "field" "scope").

(** [checkRegistered], over [Upstreams]. *)
Definition checkRegistered (name : string) : prog (E := admin_effects) (option api_error) :=
  cfg <- ask AConfig;;
  match cfg with
  | Err e => Ret (Some e)
  | Ok _ =>
      if hasUpstreams s then
        r <- ask AUpstreams;;
        match r with
        | Err f => Ret (Some (storeErr f))
        | Ok names => Ret (if bool_decide (name ∈ names) then None else Some (With (refusal CodeNotFound) "upstream" name))
        end
      else Ret (Some (With (refusal CodeNotFound) "upstream" name))
  end.

Definition StartMaintenance (a : Actor) (req : MaintenanceRequest) : prog (E := admin_effects) (MaintenanceResult * option api_error) :=
  let deny err := Ret ({| mnt_result := newResult; mnt_stored := None; mnt_previous := None |}, Some err) in
  let invalid field := deny (With (refusal CodeInvalidArgument) "field" field) in
  match checkActor a with
  | Some e => deny e
  | None =>
      match maintenanceTarget (mr_scope req) (mr_upstream req) with
      | Err e => deny e
      | Ok target =>
          match ValidateMessage (mr_message req) with
          | Err _ => invalid "message"
          | Ok msg =>
              now <- ask ANow;;
              let now := UTC now in
              let until := match mr_until req with Some u => UTC u | None => zero_time end in
              match ValidateUntil until now with
              | Some _ => invalid "until"
              | None =>
                  match need (hasMaintenance s) with
                  | Some e => deny e
                  | None =>
                      cfg <- ask AConfig;;
                      match cfg with
                      | Err e => deny e
                      | Ok _ =>
                          known <- (if bool_decide (mr_scope req = ScopeUpstream) then checkRegistered (mr_upstream req) else Ret None);;
                          match known with
                          | Some e => deny e
                          | None =>
                              r <- retry (ask (AStart {| m_target := target; m_message := msg; m_until := until; m_started_at := zero_time;
                                                         m_set_by := Actor_Identity a; m_set_at := now |}));;
                              match r with
                              | Err f => deny (storeErr f)
                              | Ok started =>
                                  let answer res := Ret ({| mnt_result := res; mnt_stored := Some (sr_stored started); mnt_previous := sr_previous started |}, None) in
                                  if negb (sr_changed started) then answer newResult
                                  else
                                    res <- record (changed newResult)
                                      (operatorRow a MaintenanceOn (MaintenanceReason (mr_scope req) (mr_upstream req) a until msg) now);;
                                    answer res
                              end
                          end
                      end
                  end
              end
          end
      end
  end.

Record MaintenanceTarget := { mt_scope : string; mt_upstream : string }.

Definition EndMaintenance (a : Actor) (req : MaintenanceTarget) : prog (E := admin_effects) (MaintenanceResult * option api_error) :=
  let answer res previous err := Ret ({| mnt_result := res; mnt_stored := None; mnt_previous := previous |}, err) in
  let deny err := answer newResult None (Some err) in
  match checkActor a with
  | Some e => deny e
  | None =>
      match maintenanceTarget (mt_scope req) (mt_upstream req) with
      | Err e => deny e
      | Ok target =>
          match need (hasMaintenance s) with
          | Some e => deny e
          | None =>
              cfg <- ask AConfig;;
              match cfg with
              | Err e => deny e
              | Ok _ =>
                  now <- ask ANow;;
                  r <- retry (ask (AEnd target));;
                  match r with
                  | Err f => deny (storeErr f)
                  | Ok None => answer newResult None None
                  | Ok (Some ended) =>
                      res <- record (changed newResult)
                        (operatorRow a MaintenanceOff (maintenanceSubject (mt_scope req) (mt_upstream req) +:+ ": " +:+ Actor_Tag a) (UTC now));;
                      answer res (Some ended) None
                  end
              end
          end
      end
  end.
End maintenance.

(** ** What the console manages ([manage.go]) *)

Section manage.
Context `{PT : PrintTable, HF : HashFunction} (s : ports).

Definition managing : prog (E := admin_effects) (result api_error Config) :=
  cfg <- ask AConfig;;
  match cfg with
  | Err e => Ret (Err e)
  | Ok cfg => Ret (if a_console_manages (admin cfg) then Ok cfg else Err (With (refusal CodeFeatureDisabled) "key" "admin.console_manages"))
  end.

Definition operatorPeer (a : Actor) : option api_error := if a_root a || a_operator a then None else Some (refusal CodeForbiddenPeer).

Definition invalid_name : api_error := With (refusal CodeInvalidArgument) "field" "name".

Definition name_breaks (c : ascii) : bool := bool_decide (bz c ∈ [47; 92; 32; 9; 13; 10]).

Definition upstreamName (name : string) : option api_error :=
  if blank name then Some invalid_name
  else if (128 <? blen name) || negb (str_forallb (fun c => negb (name_breaks c)) name) || negb (ValidName name) then Some invalid_name
  else None.

Definition secret_char (c : ascii) : bool := is_alnum c || bool_decide (c = "_"%char).

Definition secretName (name : string) : option api_error :=
  if (128 <? blen name)
     || negb (match name with EmptyString => false | String c rest => secret_char c && negb (is_digit c) && str_forallb secret_char rest end)
  then Some invalid_name else None.

(** [vaultErr]. *)
Definition vaultErr (f : fault) : api_error := match f with Refused e => e | _ => refusal CodeInternal end.

Definition vaultPaths (cfg : Config) : prog (E := admin_effects) (option api_error) :=
  let secrets := v_secrets_file (vault cfg) in
  let key := v_age_key_file (vault cfg) in
  if negb (checksPaths s) then Ret None
  else if negb (checksAgeKey s) then ask (ACheckPaths [secrets; key])
  else
    e <- ask (ACheckPaths [secrets]);;
    match e with Some e => Ret (Some e) | None => ask (ACheckAgeKey key) end.

Definition isHTTPURL (u : string) : bool := has_prefix (to_lower u) "http://" || has_prefix (to_lower u) "https://".

Definition MaxSecretValueBytes : Z := 65536.
Definition MaxUpstreamDocumentBytes : Z := 4194304.
Definition MaxRolesTextBytes : Z := 1048576.

Definition authWords (u : UpstreamAuth) : string :=
  (if bool_decide (au_kind u = "") then "none" else au_kind u)
  +:+ (if bool_decide (au_name u = "") then "" else " " +:+ au_name u)
  +:+ (if bool_decide (au_secret u = "") then "" else " <" +:+ au_secret u +:+ ">").

(** What is wrong with the request, in the order it is checked. *)
Definition register_refusal (req : RegisterUpstreamRequest) : option api_error :=
  let bad field := Some (With (refusal CodeInvalidArgument) "field" field) in
  let document := bool_decide (OpenAPIDocument req = "") in
  let url := bool_decide (OpenAPIURL req = "") in
  if url && document then bad "openapi_url"
  else if negb url && negb document then bad "openapi_document"
  else if negb url && negb (isHTTPURL (OpenAPIURL req)) then bad "openapi_url"
  else if MaxUpstreamDocumentBytes <? blen (OpenAPIDocument req) then Some (With (refusal CodePayloadTooLarge) "field" "openapi_document")
  else if contains_byte (KeyName req) "="%char then bad "key_name"
  else if bool_decide (KeyName req = "") then None else secretName (KeyName req).

Definition register_reason (out : registered) : string :=
  let n := length (rg_tools out) in
  let acting := length (filter (fun t : string * string => t.2 = ClassSensitive) (rg_tools out)) in
  "upstream " +:+ Quote (rg_name out) +:+ " registered: http " +:+ rg_url out +:+ ", " +:+ dec (Z.of_nat n) +:+ " " +:+ plural n "operation" "operations"
  +:+ " (" +:+ dec (Z.of_nat (n - acting)) +:+ " safe, " +:+ dec (Z.of_nat acting) +:+ " sensitive), auth " +:+ authWords (rg_auth out).

Definition RegisterUpstream (a : Actor) (req : RegisterUpstreamRequest) : prog (E := admin_effects) ((ActionResult * option registered) * option api_error) :=
  let deny err := Ret ((newResult, None), Some err) in
  match checkActor a with
  | Some e => deny e
  | None =>
      cfg <- managing;;
      match cfg with
      | Err e => deny e
      | Ok _ =>
          match upstreamName (rq_name req) with
          | Some e => deny e
          | None =>
              match register_refusal req with
              | Some e => deny e
              | None =>
                  match need (hasRegister s) with
                  | Some e => deny e
                  | None =>
                      r <- ask (ARegisterHTTP req);;
                      match r with
                      | Err f => deny (storeErr f)
                      | Ok out =>
                          res <- record_now a (changed newResult) UpstreamRegister (register_reason out +:+ " " +:+ Actor_Tag a);;
                          Ret ((res, Some out), None)
                      end
                  end
              end
          end
      end
  end.

Definition deregister_reason (name : string) (out : deregistered) : string :=
  "upstream " +:+ Quote name +:+ " deregistered: registered " +:+ show_bool (dg_registered out) +:+ ", signature removed " +:+ show_bool (dg_signature out)
  +:+ ", " +:+ dec (dg_forgotten out) +:+ " quarantine " +:+ (if dg_forgotten out =? 1 then "entry" else "entries") +:+ " removed".

Definition DeregisterUpstream (a : Actor) (name confirm : string) : prog (E := admin_effects) ((ActionResult * option deregistered) * option api_error) :=
  let deny err := Ret ((newResult, None), Some err) in
  match checkActor a with
  | Some e => deny e
  | None =>
      cfg <- managing;;
      match cfg with
      | Err e => deny e
      | Ok _ =>
          match upstreamName name with
          | Some e => deny e
          | None =>
              if negb (bool_decide (confirm = name)) then deny (With (refusal CodeInvalidArgument) "field" "confirm")
              else
                match need (hasDeregister s) with
                | Some e => deny e
                | None =>
                    r <- ask (ADeregister name);;
                    match r with
                    | Err f => deny (storeErr f)
                    | Ok out =>
                        if dg_registered out || dg_signature out || (0 <? dg_forgotten out) then
                          res <- record_now a (changed newResult) UpstreamDeregister (deregister_reason name out +:+ " " +:+ Actor_Tag a);;
                          Ret ((res, Some out), None)
                        else Ret ((newResult, Some out), None)
                    end
                end
          end
      end
  end.

Definition SignUpstream (a : Actor) (name : string) : prog (E := admin_effects) ((ActionResult * option SignOutcome) * option api_error) :=
  let deny err := Ret ((newResult, None), Some err) in
  match checkActor a with
  | Some e => deny e
  | None =>
      cfg <- managing;;
      match cfg with
      | Err e => deny e
      | Ok _ =>
          match upstreamName name with
          | Some e => deny e
          | None =>
              match operatorPeer a with
              | Some e => deny e
              | None =>
                  match need (hasSign s) with
                  | Some e => deny e
                  | None =>
                      r <- ask (ASign name);;
                      match r with
                      | Err f => deny (storeErr f)
                      | Ok out =>
                          res <- record_now a (warn (changed newResult) (if Trusted out then [] else [WarnKeyNotTrusted])) UpstreamSign
                            ("upstream " +:+ Quote name +:+ " signed with key " +:+ KeyFingerprint out +:+ " " +:+ Actor_Tag a);;
                          Ret ((res, Some out), None)
                      end
                  end
              end
          end
      end
  end.

(** What stands before any write of the vault, and the configuration. *)
Definition vault_gate (a : Actor) (name : string) (checks : option api_error) : prog (E := admin_effects) (option api_error) :=
  match checkActor a with
  | Some e => Ret (Some e)
  | None =>
      cfg <- managing;;
      match cfg with
      | Err e => Ret (Some e)
      | Ok cfg =>
          match secretName name with
          | Some e => Ret (Some e)
          | None =>
              match operatorPeer a with
              | Some e => Ret (Some e)
              | None =>
                  match checks with
                  | Some e => Ret (Some e)
                  | None => match need (hasVault s) with Some e => Ret (Some e) | None => vaultPaths cfg end
                  end
              end
          end
      end
  end.

Definition value_refusal (value : string) : option api_error :=
  if bool_decide (value = "") then Some (With (refusal CodeInvalidArgument) "field" "value")
  else if MaxSecretValueBytes <? blen value then Some (With (refusal CodePayloadTooLarge) "field" "value")
  else None.

(** The answer says whether the name was there before. *)
Definition SetSecret (a : Actor) (name value : string) : prog (E := admin_effects) ((ActionResult * bool) * option api_error) :=
  gate <- vault_gate a name (value_refusal value);;
  match gate with
  | Some e => Ret ((newResult, false), Some e)
  | None =>
      r <- ask (ASetSecret name value);;
      match r with
      | Err f => Ret ((newResult, false), Some (vaultErr f))
      | Ok existed =>
          res <- record_now a (changed newResult) SecretSet
            ("secret " +:+ Quote name +:+ " " +:+ (if existed : bool then "replaced" else "created") +:+ " " +:+ Actor_Tag a);;
          Ret ((res, existed), None)
      end
  end.

Definition DeleteSecret (a : Actor) (name : string) : prog (E := admin_effects) ((ActionResult * bool) * option api_error) :=
  gate <- vault_gate a name None;;
  match gate with
  | Some e => Ret ((newResult, false), Some e)
  | None =>
      r <- ask (ADeleteSecret name);;
      match r with
      | Err f => Ret ((newResult, false), Some (vaultErr f))
      | Ok false => Ret ((newResult, false), None)
      | Ok true =>
          res <- record_now a (changed newResult) SecretDelete ("secret " +:+ Quote name +:+ " deleted " +:+ Actor_Tag a);;
          Ret ((res, true), None)
      end
  end.

Definition rolesConfigured (cfg : Config) : option api_error :=
  if bool_decide (roles_file cfg = "") then Some (With (refusal CodeFeatureDisabled) "key" "roles_file") else None.

Record RolesResult := { rr_result : ActionResult; rr_path : string; rr_sha256 : string; ReloadNeeded : bool }.

Definition PutRoles (a : Actor) (text : string) : prog (E := admin_effects) (RolesResult * option api_error) :=
  let answer res path sha reload err := Ret ({| rr_result := res; rr_path := path; rr_sha256 := sha; ReloadNeeded := reload |}, err) in
  match checkActor a with
  | Some e => answer newResult "" "" false (Some e)
  | None =>
      cfg <- managing;;
      match cfg with
      | Err e => answer newResult "" "" false (Some e)
      | Ok cfg =>
          match rolesConfigured cfg with
          | Some e => answer newResult "" "" false (Some e)
          | None =>
              match operatorPeer a with
              | Some e => answer newResult "" "" false (Some e)
              | None =>
                  let path := roles_file cfg in
                  if MaxRolesTextBytes <? blen text then answer newResult path "" false (Some (With (refusal CodePayloadTooLarge) "field" "text"))
                  else
                    match need (hasRoles s) with
                    | Some e => answer newResult path "" false (Some e)
                    | None =>
                        v <- ask (AValidateRoles text);;
                        match v with
                        | Some _ => answer newResult path "" false (Some (With (refusal CodeInvalidArgument) "field" "text"))
                        | None =>
                            let sha := hex_sum256 text in
                            cur <- ask AReadRoles;;
                            if match cur with Ok t => bool_decide (t = text) | Err _ => false end then answer newResult path sha false None
                            else
                              w <- ask (AWriteRoles text);;
                              match w with
                              | Err _ => answer newResult path sha false (Some (refusal CodeInternal))
                              | Ok _ =>
                                  res <- record_now a (changed newResult) RolesSet
                                    ("roles file " +:+ path +:+ " set to sha256:" +:+ sha +:+ " " +:+ Actor_Tag a);;
                                  answer res path sha true None
                              end
                        end
                    end
              end
          end
      end
  end.
End manage.

(** ** Accounts ([internal/idp/idp.go], [accounts.go]) *)

Section accounts.
Context `{FT : FormatTable, PT : PrintTable, MP : MailParser} (s : ports).

Inductive account_fault := BadUsername | BadDisplayName | BadEmail | BadGroup (g : string).

Definition hasControl (t : string) : bool := any_rune is_control t || any_rune in_Cf t.

Definition lower_alnum (c : ascii) : bool := in_range 97 122 (bz c) || is_digit c.
Definition username_char (c : ascii) : bool := lower_alnum c || bool_decide (bz c ∈ [46; 95; 45]).

Definition usernameRe (name : string) : bool :=
  match name with EmptyString => false | String c rest => lower_alnum c && str_forallb username_char rest && (blen name <=? 64) end.

Definition group_breaks (c : ascii) : bool := bool_decide (bz c ∈ [32; 9; 10]).

Definition ValidateGroup (g : string) : bool :=
  negb (bool_decide (g = "")) && (blen g <=? 128) && bool_decide (trim_space g = g) && negb (hasControl g)
  && str_forallb (fun c => negb (group_breaks c)) g.

Definition ValidateAccount (a : Account) : option account_fault :=
  if negb (usernameRe (Username a)) then Some BadUsername
  else if blank (DisplayName a) || (100 <? blen (DisplayName a)) || hasControl (DisplayName a) then Some BadDisplayName
  else if negb (bool_decide (Email a = "")) && (negb (bool_decide (ParseAddress (Email a) = Some (Email a))) || hasControl (Email a)) then Some BadEmail
  else match List.find (fun g => negb (ValidateGroup g)) (acct_groups a) with Some g => Some (BadGroup g) | None => None end.

Definition fieldOf (e : account_fault) : string :=
  match e with BadUsername => "username" | BadDisplayName => "display_name" | BadEmail => "email" | BadGroup _ => "groups" end.

(** [directory]: the configuration, once the users file opens. *)
Definition directory : prog (E := admin_effects) (result api_error Config) :=
  cfg <- ask AConfig;;
  match cfg with
  | Err e => Ret (Err e)
  | Ok cfg =>
      if negb (hasAccounts s) then Ret (Err (With (refusal CodeConfigUnavailable) "problem" "does_not_load"))
      else
        r <- ask AOpen;;
        match r with
        | Err _ => Ret (Err (With (refusal CodeConfigUnavailable) "path" (users_file cfg)))
        | Ok _ => Ret (Ok cfg)
        end
  end.

Definition findAccount (username : string) : prog (E := admin_effects) (result api_error Account) :=
  r <- ask AAccounts;;
  match r with
  | Err _ => Ret (Err (refusal CodeInternal))
  | Ok accts =>
      match List.find (fun a => bool_decide (Username a = username)) accts with
      | Some a => Ret (Ok a)
      | None => Ret (Err (With (refusal CodeNotFound) "username" username))
      end
  end.

Definition inReach (a : Actor) (cfg : Config) (acct : Account) : option api_error :=
  if a_root a then None
  else
    let unmanaged := With (refusal CodeAccountNotManaged) "username" (Username acct) in
    match acct_groups acct with
    | [] => Some unmanaged
    | groups =>
        match List.find (fun g => bool_decide (group_to_role cfg !! g = None)) groups with
        | Some g => Some (With unmanaged "group" g)
        | None => None
        end
    end.

(** The groups, each once, sorted; or the first that maps to no role. *)
Fixpoint mapped_groups (cfg : Config) (seen : list string) (groups : list string) : result api_error (list string) :=
  match groups with
  | [] => Ok []
  | g :: rest =>
      if bool_decide (group_to_role cfg !! g = None) then Err (With (refusal CodeGroupNotMapped) "group" g)
      else if bool_decide (g ∈ seen) then mapped_groups cfg seen rest
      else match mapped_groups cfg (g :: seen) rest with Ok out => Ok (g :: out) | Err e => Err e end
  end.
Definition mappedGroups (cfg : Config) (groups : list string) : result api_error (list string) :=
  match mapped_groups cfg [] groups with Ok out => Ok (sort_by (fun g => g) out) | Err e => Err e end.

(** How a change ends: it was so already, a refusal, a failure of the directory, or the row's detail. *)
Inductive change_end := NoChange | ChangeRefused (e : api_error) | ChangeFailed (f : fault) | ChangeMade (detail : string).

Definition change_error (acct : Account) (f : fault) : api_error :=
  match f with
  | Refused e => e
  | NoAccount => With (refusal CodeNotFound) "username" (Username acct)
  | AccountExists => With (refusal CodeAccountExists) "username" (Username acct)
  | _ => refusal CodeInternal
  end.

Definition groupList (groups : list string) : string := match groups with [] => "(none)" | _ => String.concat ", " groups end.

Definition zero_account (username : string) : Account :=
  {| Username := username; DisplayName := ""; Email := ""; acct_groups := []; Disabled := false |}.

(** [accountChange]; [X] is what the change hands back besides the account. *)
Definition accountChange {X} (nothing : X) (a : Actor) (tool : string) (change : Config -> prog (E := admin_effects) (Account * X * change_end)) :
    prog (E := admin_effects) ((ActionResult * Account * X) * option api_error) :=
  match checkActor a with
  | Some e => Ret ((newResult, zero_account "", nothing), Some e)
  | None =>
      dir <- directory;;
      match dir with
      | Err e => Ret ((newResult, zero_account "", nothing), Some e)
      | Ok cfg =>
          x <- change cfg;;
          let '(acct, extra, end_) := x in
          match end_ with
          | NoChange => Ret ((newResult, acct, nothing), None)
          | ChangeRefused e => Ret ((newResult, acct, nothing), Some e)
          | ChangeFailed f => Ret ((newResult, acct, nothing), Some (change_error acct f))
          | ChangeMade detail =>
              let reason := "account " +:+ Quote (Username acct) +:+ (if bool_decide (detail = "") then "" else ": " +:+ detail) in
              res <- record_now a (warn (changed newResult) [WarnIdPReload]) tool (reason +:+ " " +:+ Actor_Tag a);;
              Ret ((res, acct, extra), None)
          end
      end
  end.

(** One write of the users file, and the account after it. *)
Definition change_by {X} (e : admin_effect) (did_it : admin_answer e -> option fault) (before after : Account) (nothing extra : X) (detail : string) :
    prog (E := admin_effects) (Account * X * change_end) :=
  r <- ask e;;
  match did_it r with
  | Some f => Ret ((before, nothing), ChangeFailed f)
  | None => Ret ((after, extra), ChangeMade detail)
  end.

Definition failed (r : result fault unit) : option fault := match r with Err f => Some f | Ok _ => None end.

(** The account the change is of, within the actor's reach. *)
Definition on_account {X} (nothing : X) (a : Actor) (cfg : Config) (username : string) (f : Account -> prog (E := admin_effects) (Account * X * change_end)) :
    prog (E := admin_effects) (Account * X * change_end) :=
  found <- findAccount username;;
  match found with
  | Err e => Ret ((zero_account username, nothing), ChangeRefused e)
  | Ok cur => match inReach a cfg cur with Some e => Ret ((cur, nothing), ChangeRefused e) | None => f cur end
  end.

Record NewAccount := { n_username : string; n_display : string; n_email : string; n_groups : list string }.

(** The account and the one-time password of a change that went through. *)
Record PasswordResult := { pw_result : ActionResult; pw_account : option Account; OneTimePassword : string }.

Definition password_answer (x : (ActionResult * Account * string) * option api_error) : prog (E := admin_effects) (PasswordResult * option api_error) :=
  match x with
  | ((res, _, _), Some e) => Ret ({| pw_result := res; pw_account := None; OneTimePassword := "" |}, Some e)
  | ((res, acct, pw), None) => Ret ({| pw_result := res; pw_account := Some acct; OneTimePassword := pw |}, None)
  end.

Definition AddAccount (a : Actor) (n : NewAccount) : prog (E := admin_effects) (PasswordResult * option api_error) :=
  x <- accountChange "" a AccountAdd (fun cfg =>
    let base groups := {| Username := trim_space (n_username n); DisplayName := trim_space (n_display n); Email := trim_space (n_email n);
                          acct_groups := groups; Disabled := false |} in
    match mappedGroups cfg (n_groups n) with
    | Err e => Ret ((base [], ""), ChangeRefused e)
    | Ok groups =>
        let acct := base groups in
        match ValidateAccount acct with
        | Some e => Ret ((acct, ""), ChangeRefused (With (refusal CodeInvalidArgument) "field" (fieldOf e)))
        | None =>
            found <- findAccount (Username acct);;
            match found with
            | Ok _ => Ret ((acct, ""), ChangeRefused (With (refusal CodeAccountExists) "username" (Username acct)))
            | Err _ =>
                p <- ask ANewPassword;;
                match p with
                | Err f => Ret ((acct, ""), ChangeFailed f)
                | Ok (pw, hash) => change_by (AAdd acct hash) failed acct acct "" pw ("groups " +:+ groupList groups)
                end
            end
        end
    end);;
  password_answer x.

Definition with_groups (cur : Account) (groups : list string) : Account :=
  {| Username := Username cur; DisplayName := DisplayName cur; Email := Email cur; acct_groups := groups; Disabled := Disabled cur |}.
Definition with_disabled (cur : Account) (disabled : bool) : Account :=
  {| Username := Username cur; DisplayName := DisplayName cur; Email := Email cur; acct_groups := acct_groups cur; Disabled := disabled |}.

(** The groups are compared joined by a NUL. *)
Definition joined (groups : list string) : string := String.concat (String (zb 0) "") groups.

Definition SetAccountGroups (a : Actor) (username : string) (groups : list string) : prog (E := admin_effects) ((ActionResult * Account * unit) * option api_error) :=
  accountChange tt a AccountGroups (fun cfg => on_account tt a cfg username (fun cur =>
    match mappedGroups cfg groups with
    | Err e => Ret ((cur, tt), ChangeRefused e)
    | Ok groups =>
        if bool_decide (joined (sort_by (fun g => g) (acct_groups cur)) = joined groups) then Ret ((cur, tt), NoChange)
        else change_by (ASetGroups username groups) failed cur (with_groups cur groups) tt tt ("groups " +:+ groupList groups)
    end)).

Definition SetAccountDisabled (a : Actor) (username : string) (disabled : bool) : prog (E := admin_effects) ((ActionResult * Account * unit) * option api_error) :=
  accountChange tt a (if disabled then AccountDisable else AccountEnable) (fun cfg => on_account tt a cfg username (fun cur =>
    if Bool.eqb (Disabled cur) disabled then Ret ((cur, tt), NoChange)
    else change_by (ASetDisabled username disabled) failed cur (with_disabled cur disabled) tt tt "")).

Definition ResetAccountPassword (a : Actor) (username : string) : prog (E := admin_effects) (PasswordResult * option api_error) :=
  x <- accountChange "" a AccountReset (fun cfg => on_account "" a cfg username (fun cur =>
    p <- ask ANewPassword;;
    match p with
    | Err f => Ret ((cur, ""), ChangeFailed f)
    | Ok (pw, hash) => change_by (ASetPassword username hash) failed cur cur "" pw ""
    end));;
  password_answer x.

Definition DeleteAccount (a : Actor) (username : string) : prog (E := admin_effects) ((ActionResult * Account * unit) * option api_error) :=
  accountChange tt a AccountDelete (fun cfg => on_account tt a cfg username (fun cur =>
    change_by (ADelete username) failed cur cur tt tt ("groups " +:+ groupList (acct_groups cur)))).
End accounts.
