(* ===== verification/AdminActions.v ===== *)
(** * The management service: offboarding, and every operator action together
      ([internal/admin/offboard.go])

    Offboarding composes a block, a disable and a summary row.  Then [perform] runs any of the operations
    that change something, and the theorem states what its answer owes to its run: whether something
    changed, whether it is on the trail, and in which order. *)
From Stdlib Require Import ZArith Lia Ascii.
From stdpp Require Import base strings list gmap.
From S2P Require Import Prelude.
From S2P Require Import GoStrings.
From S2P Require Import Visible.
From S2P Require Import GoTime.
From S2P Require Import Encode.
From S2P Require Import AuditLog.
From S2P Require Import Access.
From S2P Require Import Blocklist.
From S2P Require Import Redact.
From S2P Require Import Prog.
From S2P Require Import Config.
From S2P Require Import Reload.
From S2P Require Import ServeControl.
From S2P Require Import Quarantine.
From S2P Require Import AdminPorts.
From S2P Require Import AdminAccess.
From S2P Require Import AdminDecisions.
From S2P Require Import AdminManage.

Section offboard.
Context `{FT : FormatTable, PT : PrintTable} (s : ports).

Record OffboardRequest := { or_subject : string; or_why : string }.

(** [did] and the parts of the answer folded in so far. *)
Record parts := { pt_changed : bool; pt_did : list string; pt_warnings : list string; pt_rows : list OperatorRow; pt_audit : option OperatorRow; pt_recorded : bool }.

Definition no_parts : parts := {| pt_changed := false; pt_did := []; pt_warnings := []; pt_rows := []; pt_audit := None; pt_recorded := true |}.

(** [add]: one part's answer, and whether it was to write a row. *)
Definition add_part (st : parts) (part : ActionResult) (wroteRow : bool) : parts :=
  let st := {| pt_changed := pt_changed st; pt_did := pt_did st; pt_warnings := pt_warnings st ++ Warnings part; pt_rows := pt_rows st;
               pt_audit := pt_audit st; pt_recorded := pt_recorded st |} in
  if negb wroteRow then st
  else
    match (if Recorded part then Audit part else None) with
    | Some row => {| pt_changed := pt_changed st; pt_did := pt_did st; pt_warnings := pt_warnings st; pt_rows := pt_rows st ++ [row];
                     pt_audit := Some row; pt_recorded := pt_recorded st |}
    | None => {| pt_changed := pt_changed st; pt_did := pt_did st; pt_warnings := pt_warnings st; pt_rows := pt_rows st;
                 pt_audit := pt_audit st; pt_recorded := false |}
    end.

(** The half went through. *)
Definition with_did (st : parts) (word : string) : parts :=
  {| pt_changed := true; pt_did := pt_did st ++ [word]; pt_warnings := pt_warnings st; pt_rows := pt_rows st; pt_audit := pt_audit st; pt_recorded := pt_recorded st |}.

Record OffboardResult := { of_result : ActionResult; of_account : option Account; of_blocked : bool; of_disabled : bool; of_rows : list OperatorRow }.

Definition offboard_answer (st : parts) (recorded : bool) (acct : option Account) (blocked disabled : bool) (err : option api_error) :
    prog (E := admin_effects) (OffboardResult * option api_error) :=
  Ret ({| of_result := {| Changed := pt_changed st; Recorded := recorded; Audit := pt_audit st; Warnings := pt_warnings st |};
          of_account := acct; of_blocked := blocked; of_disabled := disabled; of_rows := pt_rows st |}, err).

Definition offboardReason (username reason : string) : string :=
  "offboard of account " +:+ Quote username +:+ (if bool_decide (reason = "") then "" else "; " +:+ reason).

Definition joinWords (ws : list string) : string :=
  match ws with [] => "nothing" | [w] => w | w0 :: w1 :: _ => w0 +:+ " and " +:+ w1 end.

(** What stands before the block of an offboard with a subject. *)
Definition offboard_note (a : Actor) (block : BlockRequest) : prog (E := admin_effects) (result api_error string) :=
  if bool_decide (br_subject block = "") then Ret (Ok "")
  else if negb (a_root a) && negb (a_operator a) then Ret (Err (refusal CodeForbiddenPeer))
  else
    v <- validateBlock a block;;
    match v with
    | Err e => Ret (Err e)
    | Ok note => Ret (match need (hasBlockStore s) with Some e => Err e | None => Ok note end)
    end.

(** The block half: the parts after it, or what stopped everything. *)
Definition offboard_block (a : Actor) (block : BlockRequest) (note : string) : prog (E := admin_effects) (result api_error parts) :=
  if bool_decide (br_subject block = "") then Ret (Ok no_parts)
  else
    x <- placeBlock s a block note newResult;;
    match x.2 with
    | Some e => Ret (Err e)
    | None =>
        let st := add_part no_parts (bo_result x.1) (Changed (bo_result x.1)) in
        Ret (Ok (if Changed (bo_result x.1) then with_did st "blocked" else st))
    end.

(** The disable half: the parts after it and whether the account is disabled. *)
Definition offboard_disable (a : Actor) (username : string) (cur : Account) (st : parts) : prog (E := admin_effects) (result api_error (parts * bool)) :=
  if Disabled cur then Ret (Ok (st, true))
  else
    r <- ask (ASetDisabled username true);;
    match r with
    | Err _ =>
        if negb (pt_changed st) then Ret (Err (refusal CodeInternal))
        else Ret (Ok (add_part st (warn newResult [WarnOffboardIncomplete]) false, false))
    | Ok _ =>
        res <- record_now a (warn newResult [WarnIdPReload]) AccountDisable ("account " +:+ Quote username +:+ ": offboard " +:+ Actor_Tag a);;
        Ret (Ok (add_part (with_did st "disabled") res true, true))
    end.

Definition offboard_reason (username subject why : string) (did : list string) (a : Actor) : string :=
  "account " +:+ Quote username +:+ ", " +:+ (if bool_decide (subject = "") then "no subject" else "subject " +:+ Quote subject) +:+ ": "
  +:+ joinWords did +:+ " " +:+ Actor_Tag a +:+ (if bool_decide (why = "") then "" else " " +:+ why).

Definition Offboard (a : Actor) (username : string) (req : OffboardRequest) : prog (E := admin_effects) (OffboardResult * option api_error) :=
  let block := {| br_subject := or_subject req; br_reason := offboardReason username (or_why req); br_until := None |} in
  let deny acct err := offboard_answer no_parts false acct false false (Some err) in
  match checkActor a with
  | Some e => deny None e
  | None =>
      v <- offboard_note a block;;
      match v with
      | Err e => deny None e
      | Ok note =>
          dir <- directory s;;
          match dir with
          | Err e => deny None e
          | Ok cfg =>
              found <- findAccount username;;
              match found with
              | Err e => deny None e
              | Ok cur =>
                  match inReach a cfg cur with
                  | Some e => deny None e
                  | None =>
                      b <- offboard_block a block note;;
                      match b with
                      | Err e => deny (Some cur) e
                      | Ok st =>
                          let blocked := negb (bool_decide (or_subject req = "")) in
                          d <- offboard_disable a username cur st;;
                          match d with
                          | Err e => offboard_answer st false (Some cur) blocked false (Some e)
                          | Ok (st, disabled) =>
                              let acct := Some (with_disabled cur disabled) in
                              if pt_changed st then
                                res <- record_now a newResult AccountOffboard (offboard_reason username (or_subject req) (or_why req) (pt_did st) a);;
                                let st := add_part st res true in
                                offboard_answer st (pt_recorded st) acct blocked disabled None
                              else offboard_answer st false acct blocked disabled None
                          end
                      end
                  end
              end
          end
      end
  end.
End offboard.

(** ** Every operation that changes something *)

Inductive operation :=
| OpBlock (req : BlockRequest) | OpUnblock (req : BlockRequest)
| OpApprove (req : ApproveRequest) | OpRevoke (req : ToolRef) | OpClear (req : ToolRef) | OpApproveSet (req : ApproveSetRequest)
| OpStartMaintenance (req : MaintenanceRequest) | OpEndMaintenance (req : MaintenanceTarget)
| OpRegister (req : RegisterUpstreamRequest) | OpDeregister (name confirm : string) | OpSign (name : string)
| OpSetSecret (name value : string) | OpDeleteSecret (name : string) | OpPutRoles (text : string)
| OpAddAccount (n : NewAccount) | OpSetGroups (username : string) (groups : list string) | OpSetDisabled (username : string) (disabled : bool)
| OpResetPassword (username : string) | OpDeleteAccount (username : string) | OpOffboard (username : string) (req : OffboardRequest).

(** The kinds of row the operation writes. *)
Definition rows_of (op : operation) : list string :=
  match op with
  | OpBlock _ => [AccessBlock] | OpUnblock _ => [AccessUnblock] | OpApprove _ => [ToolApprove] | OpRevoke _ => [ToolRevoke] | OpClear _ => [ToolClear]
  | OpApproveSet _ => [ToolApprove; ToolApproveSet] | OpStartMaintenance _ => [MaintenanceOn] | OpEndMaintenance _ => [MaintenanceOff]
  | OpRegister _ => [UpstreamRegister] | OpDeregister _ _ => [UpstreamDeregister] | OpSign _ => [UpstreamSign]
  | OpSetSecret _ _ => [SecretSet] | OpDeleteSecret _ => [SecretDelete] | OpPutRoles _ => [RolesSet]
  | OpAddAccount _ => [AccountAdd] | OpSetGroups _ _ => [AccountGroups] | OpSetDisabled _ d => [if d then AccountDisable else AccountEnable]
  | OpResetPassword _ => [AccountReset] | OpDeleteAccount _ => [AccountDelete] | OpOffboard _ _ => [AccessBlock; AccountDisable; AccountOffboard]
  end.

Definition is_unblock (op : operation) : bool := match op with OpUnblock _ => true | _ => false end.

Section perform.
Context `{UT : UnicodeTables, FT : FormatTable, PT : PrintTable, HF : HashFunction, MP : MailParser} (s : ports).

(** The part of an operation's answer all of them share. *)
Definition common {X} (ar : X -> ActionResult) (p : prog (E := admin_effects) (X * option api_error)) : prog (E := admin_effects) (ActionResult * option api_error) :=
  x <- p;; Ret (ar x.1, x.2).

Definition perform (a : Actor) (op : operation) : prog (E := admin_effects) (ActionResult * option api_error) :=
  match op with
  | OpBlock req => common br_result (Service_Block s a req)
  | OpUnblock req => common br_result (Service_Unblock s a req)
  | OpApprove req => common apr_result (ApproveTool s a req)
  | OpRevoke req => common rvr_result (RevokeTool s a req)
  | OpClear req => common clr_result (ClearTool s a req)
  | OpApproveSet req => common asr_result (ApproveToolSet s a req)
  | OpStartMaintenance req => common mnt_result (StartMaintenance s a req)
  | OpEndMaintenance req => common mnt_result (EndMaintenance s a req)
  | OpRegister req => common fst (RegisterUpstream s a req)
  | OpDeregister name confirm => common fst (DeregisterUpstream s a name confirm)
  | OpSign name => common fst (SignUpstream s a name)
  | OpSetSecret name value => common fst (SetSecret s a name value)
  | OpDeleteSecret name => common fst (DeleteSecret s a name)
  | OpPutRoles text => common rr_result (PutRoles s a text)
  | OpAddAccount n => common pw_result (AddAccount s a n)
  | OpSetGroups username groups => common (fun x => x.1.1) (SetAccountGroups s a username groups)
  | OpSetDisabled username disabled => common (fun x => x.1.1) (SetAccountDisabled s a username disabled)
  | OpResetPassword username => common pw_result (ResetAccountPassword s a username)
  | OpDeleteAccount username => common (fun x => x.1.1) (DeleteAccount s a username)
  | OpOffboard username req => common of_result (Offboard s a username req)
  end.
End perform.

(** ** Each operation's answer *)

(** A change asked once: nothing happened, or that. *)
Ltac change_once a tools x := apply wpa_admin_ask; intros x;
  match goal with H : idle ?acc |- wpa (?acc ++ [?ev]) _ _ =>
    let H' := fresh "Hstep" in
    assert (H' : (acted ev = false -> idle (acc ++ [ev])) /\ (acted ev = true -> moved a tools (acc ++ [ev]) /\ tries (acc ++ [ev]) = []))
      by (split; [intros; by apply idle_snoc|intros ?Ha; apply moved_now; [exact H|unfold acts; cbn [existsb]; by rewrite Ha|done]]);
    clear H; destruct H' as [?Hno ?Hyes] end.

Section answers.
Context `{UT : UnicodeTables, FT : FormatTable, PT : PrintTable, HF : HashFunction, MP : MailParser} (s : ports).

Lemma wpa_record_said {X} (ar : X -> ActionResult) a tools res tool reason now acc (f : ActionResult -> prog (E := admin_effects) (X * option api_error)) :
  moved a tools acc -> tries acc = [] -> Changed res = true -> tool ∈ tools ->
  (forall tr res', fine a tools tr res' None -> wpa tr (f res') (said ar a tools)) ->
  wpa acc (res' <- record res (operatorRow a tool reason now);; f res') (said ar a tools).
Proof.
  intros Hm Ht Hc Hin H. apply wpa_bind, wpa_admin_record. intros evs r Hr. apply H. apply fine_recorded; try done. by eexists _, _, _.
Qed.

Lemma wpa_checkRegistered name acc (Q : list aev -> outcome (option api_error) -> Prop) :
  idle acc -> (forall tr v, idle tr -> Q tr (Done v)) -> wpa acc (checkRegistered s name) Q.
Proof.
  intros Hi H. unfold checkRegistered. quiet_ask cfg. destruct cfg; [|by apply wpa_ret, H]. destruct (hasUpstreams s); [|by apply wpa_ret, H].
  quiet_ask r. destruct r; by apply wpa_ret, H.
Qed.

Lemma StartMaintenance_fine a req acc : idle acc -> wpa acc (StartMaintenance s a req) (said mnt_result a [MaintenanceOn]).
Proof.
  intros Hi. unfold StartMaintenance. cbv zeta. destruct (checkActor a); [done_idle|]. destruct (maintenanceTarget _ _) as [target|]; [|done_idle].
  destruct (ValidateMessage _) as [msg|]; [|done_idle]. quiet_ask now. destruct (ValidateUntil _ _); [done_idle|]. destruct (need _); [done_idle|].
  quiet_ask cfg. destruct cfg as [cfg|]; [|done_idle]. apply wpa_bind.
  assert (Hk : forall (Q : list aev -> outcome (option api_error) -> Prop), (forall tr v, idle tr -> Q tr (Done v)) ->
    wpa ((acc ++ [did ANow now]) ++ [did AConfig (Ok cfg)]) (if bool_decide (mr_scope req = ScopeUpstream) then checkRegistered s (mr_upstream req) else Ret None) Q).
  { intros Q HQ. destruct (bool_decide _); [by apply wpa_checkRegistered|by apply wpa_ret, HQ]. }
  apply Hk. intros tr known Hi'. cbn beta iota. destruct known; [done_idle|].
  match goal with |- context [AStart ?m] => retried a [MaintenanceOn] (AStart m) sr_changed end.
  - intros tr' f Hi2. done_idle.
  - intros tr' st Hc Hi2. rewrite Hc. done_idle.
  - intros tr' st Hc Hm Hts _. rewrite Hc. cbn [negb]. apply (wpa_record_said mnt_result a [MaintenanceOn]); [done|done|done|left|].
    intros tr2 res' Hf. apply wpa_ret. intros _. exact Hf.
Qed.

Lemma EndMaintenance_fine a req acc : idle acc -> wpa acc (EndMaintenance s a req) (said mnt_result a [MaintenanceOff]).
Proof.
  intros Hi. unfold EndMaintenance. cbv zeta. destruct (checkActor a); [done_idle|]. destruct (maintenanceTarget _ _) as [target|]; [|done_idle].
  destruct (need _); [done_idle|]. quiet_ask cfg. destruct cfg as [cfg|]; [|done_idle]. quiet_ask now.
  retried a [MaintenanceOff] (AEnd target) (fun m : option Maintenance => match m with Some _ => true | None => false end).
  - intros tr' f Hi2. done_idle.
  - intros tr' [m|] Hc Hi2; [done|]. done_idle.
  - intros tr' [m|] Hc Hm Hts _; [|done]. apply (wpa_record_said mnt_result a [MaintenanceOff]); [done|done|done|left|].
    intros tr2 res' Hf. apply wpa_ret. intros _. exact Hf.
Qed.

Lemma wpa_managing acc (Q : list aev -> outcome (result api_error Config) -> Prop) :
  idle acc -> (forall tr v, idle tr -> Q tr (Done v)) -> wpa acc managing Q.
Proof. intros Hi H. unfold managing. quiet_ask cfg. destruct cfg; by apply wpa_ret, H. Qed.

(** The end of an operation whose change went through. *)
Ltac now_recorded ar a tools H := destruct H as [Hm Hts]; [done|]; apply (wpa_record_now ar a tools); [exact Hm|exact Hts|done|left|];
  let tr := fresh "tr" in let res := fresh "res" in let Hf := fresh "Hf" in intros tr res Hf; apply wpa_ret; intros _; exact Hf.

Lemma RegisterUpstream_fine a req acc : idle acc -> wpa acc (RegisterUpstream s a req) (said fst a [UpstreamRegister]).
Proof.
  intros Hi. unfold RegisterUpstream. cbv zeta. destruct (checkActor a); [done_idle|]. apply wpa_bind, wpa_managing; [done|]. intros tr cfg Hi'. cbn beta iota.
  destruct cfg; [|done_idle]. destruct (upstreamName _); [done_idle|]. destruct (register_refusal _); [done_idle|]. destruct (need _); [done_idle|].
  change_once a [UpstreamRegister] r. destruct r as [out|f]; [now_recorded (@fst ActionResult (option registered)) a [UpstreamRegister] Hyes|].
  specialize (Hno eq_refl). done_idle.
Qed.

Lemma DeregisterUpstream_fine a name confirm acc : idle acc -> wpa acc (DeregisterUpstream s a name confirm) (said fst a [UpstreamDeregister]).
Proof.
  intros Hi. unfold DeregisterUpstream. cbv zeta. destruct (checkActor a); [done_idle|]. apply wpa_bind, wpa_managing; [done|]. intros tr cfg Hi'. cbn beta iota.
  destruct cfg; [|done_idle]. destruct (upstreamName _); [done_idle|]. destruct (negb _); [done_idle|]. destruct (need _); [done_idle|].
  change_once a [UpstreamDeregister] r. destruct r as [out|f]; [|specialize (Hno eq_refl); done_idle]. cbn [acted did] in Hno, Hyes.
  destruct (dg_registered out || dg_signature out || (0 <? dg_forgotten out)).
  - now_recorded (@fst ActionResult (option deregistered)) a [UpstreamDeregister] Hyes.
  - specialize (Hno eq_refl). done_idle.
Qed.

Lemma SignUpstream_fine a name acc : idle acc -> wpa acc (SignUpstream s a name) (said fst a [UpstreamSign]).
Proof.
  intros Hi. unfold SignUpstream. cbv zeta. destruct (checkActor a); [done_idle|]. apply wpa_bind, wpa_managing; [done|]. intros tr cfg Hi'. cbn beta iota.
  destruct cfg; [|done_idle]. destruct (upstreamName _); [done_idle|]. destruct (operatorPeer a); [done_idle|]. destruct (need _); [done_idle|].
  change_once a [UpstreamSign] r. destruct r as [out|f]; [now_recorded (@fst ActionResult (option SignOutcome)) a [UpstreamSign] Hyes|].
  specialize (Hno eq_refl). done_idle.
Qed.

Lemma wpa_vault_gate a name checks acc (Q : list aev -> outcome (option api_error) -> Prop) :
  idle acc -> (forall tr v, idle tr -> Q tr (Done v)) -> wpa acc (vault_gate s a name checks) Q.
Proof.
  intros Hi H. unfold vault_gate. destruct (checkActor a); [by apply wpa_ret, H|]. apply wpa_bind, wpa_managing; [done|]. intros tr cfg Hi'. cbn beta iota.
  destruct cfg as [cfg|]; [|by apply wpa_ret, H]. destruct (secretName name); [by apply wpa_ret, H|]. destruct (operatorPeer a); [by apply wpa_ret, H|].
  destruct checks; [by apply wpa_ret, H|]. destruct (need _); [by apply wpa_ret, H|]. unfold vaultPaths. cbv zeta. destruct (checksPaths s); cbn [negb]; [|by apply wpa_ret, H].
  assert (Hone : forall e tr, (e = ACheckAgeKey (v_age_key_file (vault cfg)) \/ exists l, e = ACheckPaths l) -> idle tr -> forall v, idle (tr ++ [did e v])).
  { intros e tr' [->|[l ->]] Hi2 v; by apply idle_snoc. }
  destruct (checksAgeKey s); cbn [negb].
  - apply wpa_admin_ask. intros v. assert (Hi2 := Hone (ACheckPaths _) tr ltac:(eauto) Hi' v). destruct v; [by apply wpa_ret, H|].
    apply (wpa_trigger (E := admin_effects)); [|done]. intros v. apply H. by apply (Hone (ACheckAgeKey _)); [left|].
  - apply (wpa_trigger (E := admin_effects)); [|done]. intros v. apply H. apply (Hone (ACheckPaths _)); eauto.
Qed.

Lemma SetSecret_fine a name value acc : idle acc -> wpa acc (SetSecret s a name value) (said fst a [SecretSet]).
Proof.
  intros Hi. unfold SetSecret. apply wpa_bind, wpa_vault_gate; [done|]. intros tr gate Hi'. cbn beta iota. destruct gate; [done_idle|].
  change_once a [SecretSet] r. destruct r as [out|f]; [now_recorded (@fst ActionResult bool) a [SecretSet] Hyes|]. specialize (Hno eq_refl). done_idle.
Qed.

Lemma DeleteSecret_fine a name acc : idle acc -> wpa acc (DeleteSecret s a name) (said fst a [SecretDelete]).
Proof.
  intros Hi. unfold DeleteSecret. apply wpa_bind, wpa_vault_gate; [done|]. intros tr gate Hi'. cbn beta iota. destruct gate; [done_idle|].
  change_once a [SecretDelete] r. destruct r as [[]|f].
  - now_recorded (@fst ActionResult bool) a [SecretDelete] Hyes.
  - specialize (Hno eq_refl). done_idle.
  - specialize (Hno eq_refl). done_idle.
Qed.

Lemma PutRoles_fine a text acc : idle acc -> wpa acc (PutRoles s a text) (said rr_result a [RolesSet]).
Proof.
  intros Hi. unfold PutRoles. cbv zeta. destruct (checkActor a); [done_idle|]. apply wpa_bind, wpa_managing; [done|]. intros tr cfg Hi'. cbn beta iota.
  destruct cfg as [cfg|]; [|done_idle]. destruct (rolesConfigured cfg); [done_idle|]. destruct (operatorPeer a); [done_idle|]. destruct (_ <? _); [done_idle|].
  destruct (need _); [done_idle|]. quiet_ask v. destruct v; [done_idle|]. quiet_ask cur. destruct (match cur with Ok t => _ | Err _ => _ end); [done_idle|].
  change_once a [RolesSet] w. destruct w as [w|f]; [now_recorded rr_result a [RolesSet] Hyes|]. specialize (Hno eq_refl). done_idle.
Qed.
(** What a change of the users file leaves: it went through, or nothing happened. *)
Definition change_made {X} (a : Actor) (tools : list string) (tr : list aev) (out : outcome (Account * X * change_end)) : Prop :=
  match out with
  | Done (_, ChangeMade _) => moved a tools tr /\ tries tr = []
  | Done _ => idle tr
  | Panicked _ => False
  end.

Lemma wpa_directory acc (Q : list aev -> outcome (result api_error Config) -> Prop) :
  idle acc -> (forall tr v, idle tr -> Q tr (Done v)) -> wpa acc (directory s) Q.
Proof.
  intros Hi H. unfold directory. quiet_ask cfg. destruct cfg; [|by apply wpa_ret, H]. destruct (negb _); [by apply wpa_ret, H|].
  quiet_ask r. destruct r; by apply wpa_ret, H.
Qed.

Lemma wpa_findAccount username acc (Q : list aev -> outcome (result api_error Account) -> Prop) :
  idle acc -> (forall tr v, idle tr -> Q tr (Done v)) -> wpa acc (findAccount username) Q.
Proof. intros Hi H. unfold findAccount. quiet_ask r. destruct r as [accts|]; [|by apply wpa_ret, H]. destruct (List.find _ accts); by apply wpa_ret, H. Qed.

Lemma wpa_accountChange {X} (nothing : X) a tool change acc : idle acc ->
  (forall cfg acc, idle acc -> wpa acc (change cfg) (change_made a [tool])) ->
  wpa acc (accountChange s nothing a tool change) (said (fun x => x.1.1) a [tool]).
Proof.
  intros Hi H. unfold accountChange. destruct (checkActor a); [done_idle|]. apply wpa_bind, wpa_directory; [done|]. intros tr dir Hi'. cbn beta iota.
  destruct dir as [cfg|]; [|done_idle]. apply wpa_bind. eapply wpa_mono; [|exact (H cfg tr Hi')]. cbv beta. intros evs [[[acct extra] end_]|]; [|done].
  intros Hmade. destruct end_ as [|e|f|detail]; cbn [change_made] in Hmade; try done_idle. destruct Hmade as [Hm Hts]. cbv zeta.
  apply (wpa_record_now (fun x : ActionResult * Account * X => x.1.1) a [tool]); [exact Hm|exact Hts|done|left|].
  intros tr' res Hf. apply wpa_ret. intros _. exact Hf.
Qed.

Lemma wpa_on_account {X} (nothing : X) a cfg username f tools acc : idle acc ->
  (forall cur acc, idle acc -> wpa acc (f cur) (change_made a tools)) -> wpa acc (on_account nothing a cfg username f) (change_made a tools).
Proof.
  intros Hi H. unfold on_account. apply wpa_bind, wpa_findAccount; [done|]. intros tr found Hi'. cbn beta iota.
  destruct found as [cur|]; [|by apply wpa_ret]. destruct (inReach a cfg cur); [by apply wpa_ret|]. by apply H.
Qed.

(** One write: through, or nothing happened. *)
Lemma wpa_change_by {X} a tools e (did_it : admin_answer e -> option fault) before after (nothing extra : X) detail acc : idle acc ->
  (forall r, row_try (did e r) = None) -> (forall r, acted (did e r) = match did_it r with None => true | Some _ => false end) ->
  wpa acc (change_by e did_it before after nothing extra detail) (change_made a tools).
Proof.
  intros Hi Hr Ha. unfold change_by. apply wpa_admin_ask. intros r. specialize (Ha r). destruct (did_it r) as [f|]; apply wpa_ret; cbn [change_made].
  - by apply idle_snoc.
  - apply moved_now; [done|unfold acts; cbn [existsb]; by rewrite Ha|]. unfold tries. cbn [omap list_omap]. by rewrite Hr.
Qed.

Lemma failed_acted (r : result fault unit) : match r with Ok _ => true | Err _ => false end = match failed r with None => true | Some _ => false end.
Proof. by destruct r. Qed.

Lemma SetAccountGroups_fine a username groups acc : idle acc -> wpa acc (SetAccountGroups s a username groups) (said (fun x => x.1.1) a [AccountGroups]).
Proof.
  intros Hi. apply wpa_accountChange; [done|]. intros cfg acc' Hi'. apply wpa_on_account; [done|]. intros cur acc2 Hi2.
  destruct (mappedGroups cfg groups) as [gs|e]; [|by apply wpa_ret]. destruct (bool_decide _); [by apply wpa_ret|].
  apply (wpa_change_by a); [done|done|exact failed_acted].
Qed.

Lemma SetAccountDisabled_fine a username disabled acc : idle acc ->
  wpa acc (SetAccountDisabled s a username disabled) (said (fun x => x.1.1) a [if disabled then AccountDisable else AccountEnable]).
Proof.
  intros Hi. apply wpa_accountChange; [done|]. intros cfg acc' Hi'. apply wpa_on_account; [done|]. intros cur acc2 Hi2.
  destruct (Bool.eqb _ _); [by apply wpa_ret|]. apply (wpa_change_by a); [done|done|exact failed_acted].
Qed.

Lemma DeleteAccount_fine a username acc : idle acc -> wpa acc (DeleteAccount s a username) (said (fun x => x.1.1) a [AccountDelete]).
Proof.
  intros Hi. apply wpa_accountChange; [done|]. intros cfg acc' Hi'. apply wpa_on_account; [done|]. intros cur acc2 Hi2.
  apply (wpa_change_by a); [done|done|exact failed_acted].
Qed.

(** The answer of an operation that hands out a password. *)
Lemma wpa_password a tools p acc : wpa acc p (said (fun x => x.1.1) a tools) -> wpa acc (x <- p;; password_answer x) (said pw_result a tools).
Proof.
  intros H. apply wpa_bind. eapply wpa_mono; [|exact H]. cbv beta. intros evs [[[[res acct] pw] err]|]; [|done]. cbn [said]. intros Hf.
  destruct err; apply wpa_ret; exact Hf.
Qed.

Lemma ResetAccountPassword_fine a username acc : idle acc -> wpa acc (ResetAccountPassword s a username) (said pw_result a [AccountReset]).
Proof.
  intros Hi. apply wpa_password, wpa_accountChange; [done|]. intros cfg acc' Hi'. apply wpa_on_account; [done|]. intros cur acc2 Hi2.
  quiet_ask p. destruct p as [[pw hash]|f]; [|by apply wpa_ret]. apply (wpa_change_by a); [done|done|exact failed_acted].
Qed.

Lemma AddAccount_fine a n acc : idle acc -> wpa acc (AddAccount s a n) (said pw_result a [AccountAdd]).
Proof.
  intros Hi. apply wpa_password, wpa_accountChange; [done|]. intros cfg acc' Hi'. cbv zeta. destruct (mappedGroups cfg _) as [groups|]; [|by apply wpa_ret].
  destruct (ValidateAccount _); [by apply wpa_ret|]. apply wpa_bind, wpa_findAccount; [done|]. intros tr found Hi2. cbn beta iota.
  destruct found; [by apply wpa_ret|]. quiet_ask p. destruct p as [[pw hash]|f]; [|by apply wpa_ret]. apply (wpa_change_by a); [done|done|exact failed_acted].
Qed.
(** ** Offboarding *)

Definition offboard_rows : list string := [AccessBlock; AccountDisable; AccountOffboard].

(** The parts so far are true to the run so far. *)
Record parts_ok (a : Actor) (tr : list aev) (st : parts) : Prop := {
  po_acts : acts tr = pt_changed st;
  po_first : act_first tr;
  po_rows : Forall (fun x => attributed a offboard_rows x.1) (tries tr);
  po_silent : pt_changed st = false -> tries tr = [];
  po_recorded : pt_recorded st = true -> Forall (fun x => x.1 ∈ written tr) (tries tr);
  po_lost : pt_recorded st = false -> WarnAuditWriteFailed ∈ pt_warnings st
}.

Lemma parts_idle a tr : idle tr -> parts_ok a tr no_parts.
Proof. intros [A T]. split; rewrite ?T; try done; first [by apply act_first_silent|intros; constructor|constructor]. Qed.

Lemma parts_is_idle a tr st : parts_ok a tr st -> pt_changed st = false -> idle tr.
Proof. intros [A _ _ T _ _] Hc. split; [by rewrite A|by apply T]. Qed.

(** An event that is no row. *)
Lemma parts_quiet a tr st e x : parts_ok a tr st -> acted (did e x) = false -> row_try (did e x) = None -> parts_ok a (tr ++ [did e x]) st.
Proof.
  intros [A F R T W L] Ha Hr.
  assert (Htries : tries (tr ++ [did e x]) = tries tr) by (rewrite tries_app; unfold tries at 2; cbn [omap list_omap]; by rewrite Hr, app_nil_r).
  assert (Hacts : acts (tr ++ [did e x]) = acts tr) by (rewrite acts_app; unfold acts at 2; cbn [existsb]; by rewrite Ha, !orb_false_r).
  split; rewrite ?Htries, ?Hacts; try done; [by apply act_first_snoc|]. unfold written. rewrite Htries. exact W.
Qed.

(** The change of one half. *)
Lemma parts_did a tr st e x word : parts_ok a tr st -> acted (did e x) = true -> row_try (did e x) = None -> parts_ok a (tr ++ [did e x]) (with_did st word).
Proof.
  intros [A F R T W L] Ha Hr.
  assert (Htries : tries (tr ++ [did e x]) = tries tr) by (rewrite tries_app; unfold tries at 2; cbn [omap list_omap]; by rewrite Hr, app_nil_r).
  split; rewrite ?Htries; cbn [with_did pt_changed pt_recorded pt_warnings]; try done.
  - rewrite acts_app. unfold acts at 2. cbn [existsb]. by rewrite Ha, orb_true_r.
  - by apply act_first_snoc.
  - unfold written. rewrite Htries. exact W.
Qed.

(** Warnings that go with no row. *)
Lemma parts_warn a tr st codes : parts_ok a tr st -> parts_ok a tr (add_part st (warn newResult codes) false).
Proof. intros [A F R T W L]. split; cbn; try done. intros Hr. apply elem_of_app. left. by apply L. Qed.

(** A row tried after a change. *)
Lemma parts_row a tr st evs res rec r : parts_ok a tr st -> pt_changed st = true -> attributed a offboard_rows rec -> row_attempts rec r evs ->
  parts_ok a (tr ++ evs) (add_part st (recorded res rec r) true).
Proof.
  intros [A F R T W L] Hc Hat (Ha & Hn & Hall & Hw).
  assert (Hch : pt_changed (add_part st (recorded res rec r) true) = true) by (by destruct r).
  split; rewrite ?Hch; try done.
  - by rewrite acts_app, A, Hc.
  - apply act_first_app; [by rewrite A|done].
  - rewrite tries_app. apply Forall_app. split; [done|]. eapply Forall_impl; [exact Hall|]. by intros x ->.
  - destruct r; [|done]. intros Hr. rewrite tries_app, written_app, Hw. apply Forall_app. split.
    + eapply Forall_impl; [by apply W|]. intros x Hx. apply elem_of_app. by left.
    + eapply Forall_impl; [exact Hall|]. intros x ->. apply elem_of_app. right. left.
  - destruct r; cbn; [intros Hr|intros _]; rewrite !elem_of_app; [left; by apply L|right; right; left].
Qed.

(** The summary row closes the answer. *)
Lemma parts_end a tr st evs rec r : parts_ok a tr st -> pt_changed st = true -> attributed a offboard_rows rec -> row_attempts rec r evs ->
  let st' := add_part st (recorded newResult rec r) true in
  fine a offboard_rows (tr ++ evs) {| Changed := pt_changed st'; Recorded := pt_recorded st'; Audit := pt_audit st'; Warnings := pt_warnings st' |} None.
Proof.
  intros Hp Hc Hat Hr st'. pose proof (parts_row a tr st evs newResult rec r Hp Hc Hat Hr) as [A F R T W L]. fold st' in A, T, W, L.
  assert (Hch : pt_changed st' = true) by (unfold st'; by destruct r). destruct Hr as (Ha & Hn & Hall & Hw).
  split; [|exact F]. split; cbn [Changed Recorded Audit Warnings]; try done.
  - intros _. by rewrite A, Hch.
  - intros _ _. rewrite tries_app. by intros [_ ?]%app_eq_nil.
  - intros Hrec. rewrite A, Hch. split; [done|]. split; [by apply W|]. destruct r as [[]|]; [|done].
    exists rec. split; [|done]. rewrite written_app, Hw. apply elem_of_app. right. left.
Qed.

Lemma parts_block a tr bo : block_placed a offboard_rows tr bo ->
  parts_ok a tr (with_did (add_part no_parts (bo_result bo) true) "blocked").
Proof.
  intros ([A F R] & [[_ _ _ _ _ Hrec Hlost] _] & Hc). unfold add_part. cbn [negb].
  destruct (Recorded (bo_result bo)) eqn:Er.
  - destruct (Hrec eq_refl) as (_ & Hall & rec & _ & ->). by split.
  - split; cbn; try done. intros _. by apply Hlost.
Qed.

Lemma wpa_offboard_note a block acc (Q : list aev -> outcome (result api_error string) -> Prop) :
  idle acc -> (forall tr v, idle tr -> Q tr (Done v)) -> wpa acc (offboard_note s a block) Q.
Proof.
  intros Hi H. unfold offboard_note. destruct (bool_decide _); [by apply wpa_ret, H|]. destruct (_ && _); [by apply wpa_ret, H|].
  apply wpa_bind, wpa_validateBlock; [done|]. intros tr v Hi' _. cbn beta iota. destruct v; by apply wpa_ret, H.
Qed.

Lemma wpa_offboard_block a block note acc (Q : list aev -> outcome (result api_error parts) -> Prop) : idle acc ->
  (forall tr e, idle tr -> Q tr (Done (Err e))) -> (forall tr st, parts_ok a tr st -> Q tr (Done (Ok st))) ->
  wpa acc (offboard_block s a block note) Q.
Proof.
  intros Hi He Ho. unfold offboard_block. destruct (bool_decide _); [by apply wpa_ret, Ho, parts_idle|].
  apply wpa_bind, (wpa_placeBlock s a offboard_rows); [done|left|..].
  - intros tr [e|] Hi'; cbn [snd fst bo_result]; apply wpa_ret; [by apply He|]. apply Ho. exact (parts_idle a tr Hi').
  - intros tr bo Hb. cbn [snd fst]. apply wpa_ret, Ho. destruct Hb as (Hm & Hf & Hc). rewrite Hc. by apply parts_block.
Qed.

Lemma wpa_offboard_disable a username cur st acc (Q : list aev -> outcome (result api_error (parts * bool)) -> Prop) : parts_ok a acc st ->
  (forall tr e, idle tr -> pt_changed st = false -> Q tr (Done (Err e))) ->
  (forall tr st' d, parts_ok a tr st' -> Q tr (Done (Ok (st', d)))) ->
  wpa acc (offboard_disable a username cur st) Q.
Proof.
  intros Hp He Ho. unfold offboard_disable. destruct (Disabled cur); [by apply wpa_ret, Ho|]. apply wpa_admin_ask. intros r. destruct r as [[]|f].
  - unfold record_now. apply wpa_bind, wpa_admin_ask. intros now. apply wpa_admin_record. intros evs r Hr. apply wpa_ret, Ho.
    apply parts_row; [|done|by eexists _, _, _; split; [right; left|]|done]. apply parts_quiet; [|done|done]. by apply parts_did.
  - destruct (pt_changed st) eqn:Ec; cbn [negb]; apply wpa_ret.
    + apply Ho, parts_warn. by apply parts_quiet.
    + apply He; [|done]. apply idle_snoc; [by eapply parts_is_idle|done|done].
Qed.

Lemma Offboard_fine a username req acc : idle acc -> wpa acc (Offboard s a username req) (said of_result a offboard_rows).
Proof.
  intros Hi. unfold Offboard, offboard_answer. cbv zeta. destruct (checkActor a); [done_idle|].
  apply wpa_bind, wpa_offboard_note; [done|]. intros tr v Hi1. cbn beta iota. destruct v as [note|]; [|done_idle].
  apply wpa_bind, wpa_directory; [done|]. intros tr1 dir Hi2. cbn beta iota. destruct dir as [cfg|]; [|done_idle].
  apply wpa_bind, wpa_findAccount; [done|]. intros tr2 found Hi3. cbn beta iota. destruct found as [cur|]; [|done_idle].
  destruct (inReach a cfg cur); [done_idle|]. apply wpa_bind, (wpa_offboard_block a); [done|intros tr3 e Hi4; cbn beta iota; done_idle|].
  intros tr3 st Hp. cbn beta iota. apply wpa_bind, (wpa_offboard_disable a); [done|..].
  - intros tr4 e Hi4 Hc. cbn beta iota. done_idle.
  - intros tr4 st' d Hp'. cbn beta iota. destruct (pt_changed st') eqn:Ec.
    + unfold record_now. apply wpa_bind, wpa_admin_ask. intros now. apply wpa_admin_record. intros evs r Hr. apply wpa_ret. intros _.
      apply parts_end; [by apply parts_quiet|done|by eexists _, _, _; split; [right; right; left|]|done].
    + apply wpa_ret. intros _. apply fine_idle; [by eapply parts_is_idle|done|done].
Qed.

(** ** The theorem *)

Lemma said_common {X} (ar : X -> ActionResult) a tools p acc :
  wpa acc p (said ar a tools) -> wpa acc (common ar p) (said (fun x => x) a tools).
Proof.
  intros H. unfold common. apply wpa_bind. eapply wpa_mono; [|exact H]. cbv beta. intros evs [[x err]|]; [|done]. intros Hf.
  apply wpa_ret. exact Hf.
Qed.

Lemma perform_fine a op : is_unblock op = false -> wpa [] (perform s a op) (said (fun x => x) a (rows_of op)).
Proof.
  intros Hu. pose proof idle_nil as Hi. destruct op; try done; cbn [perform rows_of]; apply said_common.
  - by apply Service_Block_fine.
  - by apply ApproveTool_fine.
  - by apply RevokeTool_fine.
  - by apply ClearTool_fine.
  - by apply ApproveToolSet_fine.
  - by apply StartMaintenance_fine.
  - by apply EndMaintenance_fine.
  - by apply RegisterUpstream_fine.
  - by apply DeregisterUpstream_fine.
  - by apply SignUpstream_fine.
  - by apply SetSecret_fine.
  - by apply DeleteSecret_fine.
  - by apply PutRoles_fine.
  - by apply AddAccount_fine.
  - by apply SetAccountGroups_fine.
  - by apply SetAccountDisabled_fine.
  - by apply ResetAccountPassword_fine.
  - by apply DeleteAccount_fine.
  - by apply Offboard_fine.
Qed.

End answers.

(** ** An office *)

Section demo.
#[local] Existing Instances Redact.demo_print AuditLog.demo_tables Blocklist.no_format.
#[local] Instance demo_mail : MailParser := {| ParseAddress := fun s => if contains_byte s "@"%char then Some s else None |}.

Definition demo_bia_account : Account := {| Username := "bia"; DisplayName := "Bia"; Email := "bia@example.org"; acct_groups := ["ir"]; Disabled := false |}.

(** The row of a disable cannot be written. *)
Definition demo_office (e : admin_effect) : reply (admin_answer e) :=
  match e with
  | AAccounts => Val (Ok [demo_bia_account])
  | ABlocks => Val (Ok [{| BSubject := "u-bia"; Blocklist.Reason := ""; By := "ana"; At := Time second 0; Until := zero_time |}])
  | ARecord rec => Val (if bool_decide (AuditLog.Tool rec = AccountDisable) then Err (Failed "disk full") else Ok tt)
  | e => demo_at_work demo_pending e
  end.

Definition demo_perform (op : operation) := exec (E := admin_effects) demo_office (perform demo_ports demo_ana op).
Definition demo_offboard := OpOffboard "bia" {| or_subject := "u-bia"; or_why := "left" |}.
Definition demo_unblock := OpUnblock {| br_subject := "u-bia"; br_reason := ""; br_until := None |}.
Definition demo_first_approval := OpApprove demo_approval.

Lemma demo_performed op : runs (perform demo_ports demo_ana op) (demo_perform op).1 (demo_perform op).2.
Proof. apply (exec_runs (E := admin_effects)). by intros []. Qed.

Example demo_reasons :
  map AuditLog.Reason (tries (demo_perform demo_offboard).1).*1
  = ["subject " +:+ Quote "u-bia" +:+ ": [cli] offboard of account " +:+ Quote "bia" +:+ "; left";
     "account " +:+ Quote "bia" +:+ ": offboard [cli]";
     "account " +:+ Quote "bia" +:+ ", subject " +:+ Quote "u-bia" +:+ ": blocked and disabled [cli] left"].
Proof. vm_compute. reflexivity. Qed.

Lemma demo_honest : honest (demo_perform demo_first_approval).1.
Proof. vm_compute. repeat first [constructor | exists demo_pending, zero_time; split; [vm_compute; reflexivity|discriminate] ]. Qed.

End demo.
