(* ===== verification/OpenapiDoc.v ===== *)
(** * Reading an OpenAPI document ([internal/gateway/resthttp/openapi.go], [parseDocument] and its parts)

    A document is JSON or YAML and becomes one tree: the [any] of [JsonCanon.v].  YAML's parser is a
    library's; the conversion of its nodes, by tag, with aliases expanded under a budget, is the code's.
    An alias names a node of the document, perhaps one it is inside of; the conversion ends all the same. *)
From Stdlib Require Import ZArith Lia Ascii.
From Stdlib Require Import SpecFloat.
From stdpp Require Import base strings list.
From S2P Require Import Prelude.
From S2P Require Import GoStrings.
From S2P Require Import GoTime.
From S2P Require Import Json.
From S2P Require Import ToolSchema.
From S2P Require Import RestOperations.
From S2P Require Import JsonCanon.
From S2P Require Import RestPath.
From S2P Require Import RestSets.
From S2P Require Import OciPlan.

Definition maxDocumentBytes : Z := Z.shiftl 4 20.
Definition maxDocumentDepth : nat := 64.
Definition maxRefDepth : nat := 32.
Definition maxYAMLAliasNodes : Z := Z.shiftl 1 18.

(** ** [yaml.v3] *)

Inductive yaml_kind := ZeroNode | DocumentNode | SequenceNode | MappingNode | ScalarNode | AliasNode | OtherNode (kind : Z).

(** A [yaml.Node], with its [ShortTag].  Its content is its own; an alias names a node of the document by
    number, so a document may name a node from inside it. *)
Inductive yaml_node := YamlNode {
  Kind : yaml_kind; ShortTag : string; Value : string; Line : Z; NodeContent : list yaml_node; Alias : option nat
}.

(** The library: the nodes a text is read into, and what [Decode] makes of a scalar of its tag. *)
Class YamlLibrary := {
  yaml_Unmarshal : string -> option (yaml_node * (nat -> yaml_node));
  decode_bool : yaml_node -> option bool;
  decode_int64 : yaml_node -> option Z;
  decode_uint64 : yaml_node -> option Z;
  decode_float64 : yaml_node -> option float64;
  format_g : float64 -> string (* strconv.FormatFloat(f, 'g', -1, 64) *)
}.

Inductive yaml_fault :=
| YamlTooDeep | YamlAliasing | YamlNoAnchor | YamlKind (kind : Z) | YamlKeyTwice (key : string) | YamlKeyCollection
| YamlKeyTag (tag : string) | YamlMerge | YamlBool | YamlInteger | YamlFloat | YamlNotFinite | YamlTag (tag : string)
| YamlUnfinished (* the model's fuel ran out: the code does not return *).

(** [yamlError]: where, innermost segment first. *)
Record yamlError := { ye_path : list string; ye_line : Z; ye_msg : yaml_fault }.

Definition yaml_refuse {A} (line : Z) (msg : yaml_fault) : result yamlError A :=
  Err {| ye_path := []; ye_line := line; ye_msg := msg |}.

Definition within {A} (segment : string) (r : result yamlError A) : result yamlError A :=
  match r with
  | Ok a => Ok a
  | Err e => Err {| ye_path := ye_path e ++ [segment]; ye_line := ye_line e; ye_msg := ye_msg e |}
  end.

(** [jsonNumberText], RFC 8259's grammar. *)
Definition jsonNumberText (s : string) : bool := match number s with Some (_, rest) => bool_decide (rest = "") | None => false end.

Definition decimalDigits (s : string) : bool := negb (bool_decide (s = "")) && str_forallb is_digit s.

Section yaml.
Context `{YL : YamlLibrary}.
Variable anchors : nat -> yaml_node.

Fixpoint deAlias_from (hops : nat) (n : yaml_node) : option yaml_node :=
  match hops, Kind n with
  | S hops, AliasNode => match Alias n with Some i => deAlias_from hops (anchors i) | None => None end
  | _, _ => Some n
  end.
Definition deAlias (n : yaml_node) : option yaml_node := deAlias_from maxRefDepth n.

Definition is_merge (kn : yaml_node) : bool := match Kind kn with ScalarNode => bool_decide (ShortTag kn = "!!merge") | _ => false end.

Definition yamlKey (kn : yaml_node) : result yamlError string :=
  match deAlias kn with
  | Some k =>
      match Kind k with
      | ScalarNode =>
          if bool_decide (ShortTag k = "!!str") || (bool_decide (ShortTag k = "!!int") && decimalDigits (Value k)) then Ok (Value k)
          else yaml_refuse (Line kn) (YamlKeyTag (ShortTag k))
      | _ => yaml_refuse (Line kn) YamlKeyCollection
      end
  | None => yaml_refuse (Line kn) YamlKeyCollection
  end.

Definition is_finite_float (f : float64) : bool := match f with S754_infinity _ | S754_nan => false | _ => true end.

Definition yamlScalar (n : yaml_node) : result yamlError doc :=
  let tag := ShortTag n in
  if bool_decide (tag = "!!str") then Ok (DStr (Value n))
  else if bool_decide (tag = "!!null") then Ok DNull
  else if bool_decide (tag = "!!bool") then
    match decode_bool n with Some b => Ok (DBool b) | None => yaml_refuse (Line n) YamlBool end
  else if bool_decide (tag = "!!timestamp") then Ok (DStr (Value n))
  else if bool_decide (tag = "!!int") || bool_decide (tag = "!!float") then
    if jsonNumberText (Value n) then Ok (DNum (Value n))
    else if bool_decide (tag = "!!int") then
      match decode_int64 n with
      | Some i => Ok (DNum (dec i))
      | None => match decode_uint64 n with Some u => Ok (DNum (dec u)) | None => yaml_refuse (Line n) YamlInteger end
      end
    else match decode_float64 n with
    | None => yaml_refuse (Line n) YamlFloat
    | Some f => if is_finite_float f then Ok (DNum (format_g f)) else yaml_refuse (Line n) YamlNotFinite
    end
  else yaml_refuse (Line n) (YamlTag tag).

(** The loops of [convert] and [mapping], over the conversion of a node: it answers the tree and the
    alias nodes counted so far. *)
Section loops.
Variable conv : yaml_node -> nat -> Z -> result yamlError (doc * Z).

Fixpoint sequence_items (i : nat) (items : list yaml_node) (depth : nat) (count : Z) : result yamlError (list doc * Z) :=
  match items with
  | [] => Ok ([], count)
  | item :: rest =>
      r <-? within (dec (Z.of_nat i)) (conv item (S depth) count);;
      rs <-? sequence_items (S i) rest depth r.2;;
      Ok (r.1 :: rs.1, rs.2)
  end.

Fixpoint mapping_entries (content : list yaml_node) (depth : nat) (count : Z) (out : list (string * doc)) (merges : list yaml_node)
  : result yamlError (list (string * doc) * list yaml_node * Z) :=
  match content with
  | kn :: vn :: rest =>
      if is_merge kn then
        mapping_entries rest depth count out (merges ++ [vn])
      else
        key <-? yamlKey kn;;
        if bool_decide (is_Some (assoc key out)) then yaml_refuse (Line kn) (YamlKeyTwice key)
        else
          r <-? within key (conv vn (S depth) count);;
          mapping_entries rest depth r.2 (put key r.1 out) merges
  | _ => Ok (out, merges, count)
  end.

(** What the keys of [mm] add: a key already there wins. *)
Definition add_missing (out mm : list (string * doc)) : list (string * doc) :=
  foldl (fun out m => if bool_decide (is_Some (assoc m.1 out)) then out else put m.1 m.2 out) out mm.

Fixpoint merge_sources (sources : list yaml_node) (depth : nat) (count : Z) (out : list (string * doc))
  : result yamlError (list (string * doc) * Z) :=
  match sources with
  | [] => Ok (out, count)
  | src :: rest =>
      r <-? within "<<" (conv src depth count);;
      match r.1 with
      | DObj mm => merge_sources rest depth r.2 (add_missing out mm)
      | _ => yaml_refuse (Line src) YamlMerge
      end
  end.

Definition sources_of (m : yaml_node) : list yaml_node :=
  match deAlias m with
  | Some resolved => match Kind resolved with SequenceNode => NodeContent resolved | _ => [m] end
  | None => [m]
  end.

Definition mapping (n : yaml_node) (depth : nat) (count : Z) : result yamlError (doc * Z) :=
  r <-? mapping_entries (NodeContent n) depth count [] [];;
  out <-? merge_sources (flat_map sources_of r.1.2) depth r.2 r.1.1;;
  Ok (DObj out.1, out.2).
End loops.

Fixpoint convert (fuel : nat) (n : yaml_node) (underAlias : bool) (depth : nat) (count : Z) : result yamlError (doc * Z) :=
  match fuel with
  | O => yaml_refuse (Line n) YamlUnfinished
  | S fuel =>
      if (maxDocumentDepth <? depth)%nat then yaml_refuse (Line n) YamlTooDeep
      else
        let count := if underAlias then count + 1 else count in
        if underAlias && (maxYAMLAliasNodes <? count) then yaml_refuse (Line n) YamlAliasing
        else match Kind n with
        | ZeroNode => Ok (DNull, count)
        | DocumentNode =>
            match NodeContent n with [] => Ok (DNull, count) | first :: _ => convert fuel first underAlias depth count end
        | AliasNode =>
            match Alias n with None => yaml_refuse (Line n) YamlNoAnchor | Some i => convert fuel (anchors i) true depth count end
        | SequenceNode =>
            r <-? sequence_items (fun m => convert fuel m underAlias) 0 (NodeContent n) depth count;; Ok (DArr r.1, r.2)
        | MappingNode => mapping (fun m => convert fuel m underAlias) n depth count
        | ScalarNode => v <-? yamlScalar n;; Ok (v, count)
        | OtherNode kind => yaml_refuse (Line n) (YamlKind kind)
        end
  end.
End yaml.

Fixpoint node_size (n : yaml_node) : nat := S (list_sum (map node_size (NodeContent n))).

(** ** The document *)

Inductive depth_fault := TooDeep.

Fixpoint checkDepth (v : doc) (depth : nat) : result depth_fault unit :=
  if (maxDocumentDepth <? depth)%nat then Err TooDeep
  else match v with
  | DArr items => (fix each l := match l with [] => Ok tt | item :: l => _ <-? checkDepth item (S depth);; each l end) items
  | DObj members => (fix each l := match l with [] => Ok tt | m :: l => _ <-? checkDepth m.2 (S depth);; each l end) members
  | _ => Ok tt
  end.

Inductive document_fault :=
| DocumentTooLarge | DocumentEmpty | DocumentJSON | DocumentTrailing | DocumentYAML | DocumentNodes (e : yamlError)
| DocumentDepth | DocumentNotObject | DocumentSwagger | DocumentVersionNumber (text : string) | DocumentNoVersion
| DocumentVersion (version : string).

Definition BOM : string := bytes [0xEF; 0xBB; 0xBF].

(** [bytes.TrimPrefix]. *)
Definition trim_prefix (s p : string) : string := match cut_prefix s p with Some rest => rest | None => s end.

(** The YAML half of [parseDocument]; the fuel is enough for any document on which the code returns
    whose merge keys do not name a sequence through an alias. *)
Definition parse_yaml `{YL : YamlLibrary} (text : string) : result document_fault doc :=
  match yaml_Unmarshal text with
  | None => Err DocumentYAML
  | Some (n, anchors) =>
      match convert anchors (node_size n + Z.to_nat (maxYAMLAliasNodes + 2)) n false 0 0 with
      | Err e => Err (DocumentNodes e)
      | Ok (v, _) => Ok v
      end
  end.

(** The JSON half: [json.Decoder] on the trimmed text. *)
Definition parse_document_json (text : string) : result document_fault doc :=
  match decode_first text with
  | None => Err DocumentJSON
  | Some (v, rest) => if more rest then Err DocumentTrailing else Ok (doc_of v)
  end.

Definition parseDocument `{YL : YamlLibrary} (text : string) : result document_fault (list (string * doc)) :=
  let text := trim_prefix text BOM in
  let trimmed := skip_space text in
  match trimmed with
  | EmptyString => Err DocumentEmpty
  | String c _ =>
      v <-? (if bool_decide (c = "{"%char) then parse_document_json trimmed else parse_yaml text);;
      match checkDepth v 0 with
      | Err _ => Err DocumentDepth
      | Ok _ => match v with DObj root => Ok root | _ => Err DocumentNotObject end
      end
  end.

Definition checkVersion (root : list (string * doc)) : option document_fault :=
  match assoc "swagger" root with
  | Some _ => Some DocumentSwagger
  | None =>
      match assoc "openapi" root with
      | Some (DStr v) => if has_prefix v "3.0." || has_prefix v "3.1." then None else Some (DocumentVersion v)
      | Some (DNum n) => Some (DocumentVersionNumber n)
      | _ => Some DocumentNoVersion
      end
  end.

(** ** The conversion ends

    Inside an alias every node is counted, so a document that names itself is refused, not walked forever.
    One way around is left: a merge key that names, through an alias, a sequence; its elements are
    converted without the count. *)

Definition finished {A} (r : result yamlError A) : Prop := forall e, r = Err e -> ye_msg e <> YamlUnfinished.

Lemma finished_Ok {A} (a : A) : finished (Ok a).
Proof. by intros e. Qed.
Lemma finished_refuse {A} line msg : msg <> YamlUnfinished -> finished (A := A) (yaml_refuse line msg).
Proof. by intros H e [= <-]. Qed.
Lemma finished_within {A} segment (r : result yamlError A) : finished r -> finished (within segment r).
Proof. intros H e. destruct r as [|e']; [done|]. intros [= <-]. by apply (H e'). Qed.
Lemma finished_bind {A B} (r : result yamlError A) (k : A -> result yamlError B) :
  finished r -> (forall a, r = Ok a -> finished (k a)) -> finished (rbind r k).
Proof. intros Hr Hk. destruct r as [a|e]; [by apply Hk|]. intros e' [= <-]. by apply Hr. Qed.

#[local] Hint Resolve finished_Ok finished_within : core.
#[local] Hint Extern 1 (finished (yaml_refuse _ _)) => apply finished_refuse; done : core.

Lemma yamlScalar_finished `{YL : YamlLibrary} n : finished (yamlScalar n).
Proof. unfold yamlScalar. repeat case_match; auto. Qed.

Lemma yamlKey_finished anchors n : finished (yamlKey anchors n).
Proof. unfold yamlKey. repeat case_match; auto. Qed.

(** The values of a mapping's merge keys. *)
Fixpoint merge_values (content : list yaml_node) : list yaml_node :=
  match content with
  | kn :: vn :: rest => if is_merge kn then vn :: merge_values rest else merge_values rest
  | _ => []
  end.

Section ends.
Context `{YL : YamlLibrary}.
Variable anchors : nat -> yaml_node.

(** What a node still costs: inside an alias the budget left, outside it the node itself too. *)
Definition enough (fuel : nat) (n : yaml_node) (underAlias : bool) (count : Z) : Prop :=
  (S (Z.to_nat (maxYAMLAliasNodes + 1 - count)) + (if underAlias then 0 else node_size n) <= fuel)%nat.

(** A conversion that ends from every count it can be met at, and never uncounts. *)
Definition ends (conv : nat -> Z -> result yamlError (doc * Z)) (count : Z) : Prop :=
  forall depth c, count <= c -> finished (conv depth c) /\ forall v c', conv depth c = Ok (v, c') -> c <= c'.

Lemma sequence_ends conv i items depth count : Forall (fun m => ends (conv m) count) items ->
  forall c, count <= c -> finished (sequence_items conv i items depth c)
    /\ forall r, sequence_items conv i items depth c = Ok r -> c <= r.2.
Proof.
  intros Hl. revert i. induction Hl as [|m l Hm _ IH]; intros i c Hc; cbn [sequence_items].
  { split; [done|]. by intros r [= <-]. }
  destruct (Hm (S depth) c Hc) as [Hf Hmono]. destruct (conv m (S depth) c) as [[v c']|e] eqn:Hv; cbn [within rbind snd fst].
  - specialize (Hmono _ _ eq_refl). destruct (IH (S i) c' ltac:(lia)) as [Hf' Hm']. split; [apply finished_bind; [done|]; intros; apply finished_Ok|].
    intros r (rs & Hrs & [= <-])%rbind_Ok_inv. cbn. apply Hm' in Hrs. lia.
  - split; [intros e' [= <-]; by apply (Hf e)|done].
Qed.

Lemma entries_ends conv content depth count out merges :
  Forall (fun m => ends (conv m) count) content ->
  forall c, count <= c -> finished (mapping_entries anchors conv content depth c out merges)
    /\ forall r, mapping_entries anchors conv content depth c out merges = Ok r -> c <= r.2 /\ r.1.2 = merges ++ merge_values content.
Proof.
  remember (length content) as k eqn:Hk. revert content Hk out merges. induction (lt_wf k) as [k _ IH].
  intros [|kn [|vn rest]] -> out merges Hl c Hc; cbn [mapping_entries merge_values];
    [split; [done|]; intros r [= <-]; cbn; rewrite app_nil_r; split; done..|].
  apply Forall_cons in Hl as [_ [Hvn Hl]%Forall_cons]. destruct (is_merge kn).
  { destruct (IH (length rest) ltac:(simpl; lia) rest eq_refl out (merges ++ [vn]) Hl c Hc) as [Hf Hr]. split; [done|].
    intros r H. destruct (Hr r H) as [? ->]. split; [done|]. by rewrite <- app_assoc. }
  destruct (yamlKey anchors kn) as [key|e] eqn:Hkey; cbn [rbind].
  2:{ split; [|done]. intros e' [= <-]. by apply (yamlKey_finished anchors kn e). }
  case_bool_decide as Hdup; [split; [by apply finished_refuse|done]|]. destruct (Hvn (S depth) c Hc) as [Hf Hmono].
  destruct (conv vn (S depth) c) as [[v' c'']|e] eqn:Hcv; cbn [within rbind fst snd]; [|split; [intros e' [= <-]; by apply (Hf e)|done]].
  specialize (Hmono _ _ eq_refl).
  destruct (IH (length rest) ltac:(simpl; lia) rest eq_refl (put key v' out) merges Hl c'' ltac:(lia)) as [Hf' Hr].
  split; [done|]. intros r H. destruct (Hr r H) as [? ->]. split; [lia|done].
Qed.

Lemma sources_end conv sources depth count out : Forall (fun m => ends (conv m) count) sources ->
  forall c, count <= c -> finished (merge_sources conv sources depth c out)
    /\ forall r, merge_sources conv sources depth c out = Ok r -> c <= r.2.
Proof.
  intros Hl. revert out. induction Hl as [|m l Hm _ IH]; intros out c Hc; cbn [merge_sources].
  { split; [done|]. by intros r [= <-]. }
  destruct (Hm depth c Hc) as [Hf Hmono]. destruct (conv m depth c) as [[v c']|e] eqn:Hv; cbn [within rbind snd fst].
  - specialize (Hmono _ _ eq_refl). destruct v; try (split; [by apply finished_refuse|done]).
    destruct (IH (add_missing out members) c' ltac:(lia)) as [Hf' Hm']. split; [done|]. intros r Hr%Hm'. lia.
  - split; [intros e' [= <-]; by apply (Hf e)|done].
Qed.

(** A merge key names no sequence through an alias. *)
Definition merges_directly (n : yaml_node) : Prop :=
  forall m r, m ∈ merge_values (NodeContent n) -> Kind m = AliasNode -> deAlias anchors m = Some r -> Kind r <> SequenceNode.

Fixpoint all_nodes (P : yaml_node -> Prop) (n : yaml_node) : Prop :=
  P n /\ foldr (fun m Q => all_nodes P m /\ Q) True (NodeContent n).

Lemma all_nodes_content P n : all_nodes P n -> P n /\ Forall (all_nodes P) (NodeContent n).
Proof. destruct n as [k t v l content a]. cbn [all_nodes NodeContent]. by rewrite foldr_Forall. Qed.

Lemma node_size_content n m : m ∈ NodeContent n -> (node_size m < node_size n)%nat.
Proof.
  destruct n as [k t v l content a]. cbn [node_size NodeContent]. intros Hm. enough (node_size m <= list_sum (map node_size content))%nat by lia.
  induction Hm as [|x y content' _ IH]; simpl; lia.
Qed.

Lemma merge_values_content content m : m ∈ merge_values content -> m ∈ content.
Proof.
  remember (length content) as k eqn:Hk. revert content Hk. induction (lt_wf k) as [k _ IH].
  intros [|kn [|vn rest]] ->; cbn [merge_values]; [set_solver..|].
  pose proof (IH (length rest) ltac:(simpl; lia) rest eq_refl). destruct (is_merge kn); set_solver.
Qed.

(** Outside an alias a merge key's sources are inside the mapping. *)
Lemma sources_inside n m src : merges_directly n -> m ∈ merge_values (NodeContent n) -> src ∈ sources_of anchors m ->
  src = m \/ src ∈ NodeContent m.
Proof.
  unfold sources_of, deAlias. intros Hd Hm. destruct (deAlias_from anchors maxRefDepth m) as [r|] eqn:Hr; [|by intros ->%list_elem_of_singleton; left].
  destruct (Kind m) eqn:Hk; try (cbn [deAlias_from] in Hr; unfold maxRefDepth in Hr; cbn [deAlias_from] in Hr; rewrite Hk in Hr; injection Hr as <-;
    rewrite Hk; by first [intros ->%list_elem_of_singleton; left | right]).
  specialize (Hd m r Hm Hk Hr). destruct (Kind r) eqn:Hkr; try done; by intros ->%list_elem_of_singleton; left.
Qed.

(** What a conversion of [n] needs of the nodes under it. *)
Lemma step_ends fuel n underAlias depth c :
  (depth <= maxDocumentDepth)%nat -> (underAlias = true -> c + 1 <= maxYAMLAliasNodes) ->
  let c' := if underAlias then c + 1 else c in
  let conv := fun m => convert anchors fuel m underAlias in
  (forall m, m ∈ NodeContent n -> ends (conv m) c') ->
  (Kind n = MappingNode -> forall m src, m ∈ merge_values (NodeContent n) -> src ∈ sources_of anchors m -> ends (conv src) c') ->
  (forall i, Alias n = Some i -> ends (convert anchors fuel (anchors i) true) c') ->
  let r := convert anchors (S fuel) n underAlias depth c in finished r /\ forall v k, r = Ok (v, k) -> c <= k.
Proof.
  intros Hd Hb c' conv Hcont Hsrc Hal. cbn [convert]. rewrite (proj2 (Nat.ltb_ge _ _) Hd). fold c'. assert (Hc : c <= c') by (unfold c'; destruct underAlias; lia).
  replace (underAlias && (maxYAMLAliasNodes <? c')) with false by (unfold c'; destruct underAlias; [rewrite (proj2 (Z.ltb_ge _ _)) by auto|]; done).
  destruct (Kind n) eqn:Hk; cbn zeta.
  - split; [auto|]. by intros ?? [= <- <-].
  - destruct (NodeContent n) as [|m l]; [split; [auto|]; by intros ?? [= <- <-]|].
    destruct (Hcont m ltac:(left) depth c' ltac:(done)) as [Hf Hm]. split; [done|]. intros v k H%Hm. lia.
  - destruct (sequence_ends conv 0 (NodeContent n) depth c') with (c := c') as [Hf Hm]; [by apply Forall_forall|done|].
    fold conv. split; [apply finished_bind; [done|]; intros; apply finished_Ok|]. intros v k (r & Hr & [= <- <-])%rbind_Ok_inv. apply Hm in Hr. lia.
  - unfold mapping. fold conv.
    destruct (entries_ends conv (NodeContent n) depth c' [] []) with (c := c') as [Hf Hm]; [by apply Forall_forall|done|].
    destruct (mapping_entries _ _ _ _ _ _ _) as [[[out merges] k1]|e] eqn:He; cbn [rbind fst snd]; [|split; [intros e' [= <-]; by apply (Hf e)|done]].
    destruct (Hm _ eq_refl) as [Hk1 Hms]. cbn in Hk1, Hms. subst merges.
    destruct (sources_end conv (flat_map (sources_of anchors) (merge_values (NodeContent n))) depth c' out) with (c := k1) as [Hf' Hm'].
    { apply Forall_forall. intros src (m & Hm1 & Hm2)%list_elem_of_In%in_flat_map. apply (Hsrc eq_refl m); by apply list_elem_of_In. }
    { done. }
    split; [apply finished_bind; [done|]; intros; apply finished_Ok|]. intros v k (r & Hr%Hm' & [= <- <-])%rbind_Ok_inv. lia.
  - split; [apply finished_bind; [apply yamlScalar_finished|auto]|]. intros v k (x & _ & [= <- <-])%rbind_Ok_inv. done.
  - destruct (Alias n) as [i|] eqn:Ha; [|by split; [apply finished_refuse|]]. destruct (Hal i eq_refl depth c' ltac:(done)) as [Hf Hm].
    split; [done|]. intros v k H%Hm. lia.
  - by split; [apply finished_refuse|].
Qed.

(** Every document ends that names no sequence in a merge key: there is fuel enough before the first
    alias, and the budget bounds what follows. *)
Lemma convert_ends : (forall i, all_nodes merges_directly (anchors i)) ->
  forall fuel n underAlias depth c, (underAlias = true \/ all_nodes merges_directly n) -> enough fuel n underAlias c ->
  let r := convert anchors fuel n underAlias depth c in finished r /\ forall v k, r = Ok (v, k) -> c <= k.
Proof.
  intros Hanch. induction fuel as [|fuel IH]; intros n underAlias depth c Hn He.
  { unfold enough in He. lia. }
  destruct (decide (depth <= maxDocumentDepth)%nat) as [Hd|Hd].
  2:{ cbn [convert]. rewrite (proj2 (Nat.ltb_lt _ _)) by lia. by split; [apply finished_refuse|]. }
  destruct (decide (underAlias = true /\ maxYAMLAliasNodes < c + 1)) as [[-> Hb]|Hb].
  { cbn [convert]. rewrite (proj2 (Nat.ltb_ge _ _) Hd), (proj2 (Z.ltb_lt _ _) Hb). by split; [apply finished_refuse|]. }
  assert (Hsub : forall m, (underAlias = true \/ all_nodes merges_directly m /\ (node_size m < node_size n)%nat) ->
    ends (convert anchors fuel m underAlias) (if underAlias then c + 1 else c)).
  { intros m Hm d k Hk. apply IH; [tauto|]. unfold enough in *; destruct underAlias; [lia|]. destruct Hm as [|[_ Hm]]; [done|lia]. }
  assert (Hin : underAlias = true \/ merges_directly n /\ forall m, m ∈ NodeContent n -> all_nodes merges_directly m /\ (node_size m < node_size n)%nat).
  { destruct Hn as [|[Hn Hl]%all_nodes_content]; [by left|right]. split; [done|]. intros m Hm. rewrite Forall_forall in Hl.
    split; [by apply Hl|by apply node_size_content]. }
  apply step_ends; [done|destruct underAlias; lia|..].
  - intros m Hm. apply Hsub. destruct Hin as [|[_ Hin]]; [by left|right; by apply Hin].
  - intros _ m src Hm Hs. apply Hsub. destruct Hin as [|[Hd' Hin]]; [by left|right].
    destruct (Hin m (merge_values_content _ _ Hm)) as [Ham Hsm]. destruct (sources_inside n m src Hd' Hm Hs) as [->|Hsrc]; [done|].
    pose proof (node_size_content _ _ Hsrc). apply all_nodes_content in Ham as [_ Ham]. rewrite Forall_forall in Ham. split; [by apply Ham|lia].
  - intros i _ d k Hk. assert (0 < node_size n)%nat by (destruct n; simpl; lia). apply IH; [by left|]. unfold enough in *; destruct underAlias; lia.
Qed.
End ends.

(** ** A document the code does not return on *)

(** [- &a [{<<: *a}]]: the mapping in the sequence merges the sequence it is in. *)
Definition merge_key : yaml_node :=
  {| Kind := ScalarNode; ShortTag := "!!merge"; Value := "<<"; Line := 1; NodeContent := []; Alias := None |}.
Definition back_to (i : nat) : yaml_node :=
  {| Kind := AliasNode; ShortTag := ""; Value := "a"; Line := 1; NodeContent := []; Alias := Some i |}.
Definition self_merged : yaml_node :=
  {| Kind := MappingNode; ShortTag := "!!map"; Value := ""; Line := 1; NodeContent := [merge_key; back_to 0]; Alias := None |}.
Definition self_sequence : yaml_node :=
  {| Kind := SequenceNode; ShortTag := "!!seq"; Value := ""; Line := 1; NodeContent := [self_merged]; Alias := None |}.

(** Fact [merge_into_itself_never_returns]: outside any alias, the conversion of a mapping that merges,
    through an alias, the sequence it is in calls itself on the same mapping at the same depth and with
    nothing counted: however far it is followed it has not returned, and neither ceiling is reached. *)
Theorem merge_into_itself_never_returns `{YL : YamlLibrary} fuel depth count : (depth < maxDocumentDepth)%nat ->
  convert (fun _ => self_sequence) fuel self_sequence false depth count <> Err {| ye_path := []; ye_line := 1; ye_msg := YamlAliasing |}
  /\ ~ finished (convert (fun _ => self_sequence) fuel self_sequence false depth count).
Proof.
  intros Hd. assert (Hm : forall fuel depth count, (depth <= maxDocumentDepth)%nat -> exists path,
    convert (fun _ => self_sequence) fuel self_merged false depth count = Err {| ye_path := path; ye_line := 1; ye_msg := YamlUnfinished |}).
  { clear. intros fuel. induction fuel as [|fuel IH]; intros depth count Hd; [by exists []|].
    cbn [convert]. rewrite (proj2 (Nat.ltb_ge _ _) Hd). cbn -[maxDocumentDepth mapping].
    change (mapping _ _ _ _ _) with (out <-? (r <-? within "<<" (convert (fun _ => self_sequence) fuel self_merged false depth count);;
      match r.1 with DObj mm => Ok (add_missing [] mm, r.2) | _ => yaml_refuse 1 YamlMerge end);; Ok (DObj out.1, out.2)).
    destruct (IH depth count Hd) as [path Hp]. rewrite Hp. cbn. eauto. }
  destruct fuel as [|fuel]; [split; [done|]; intros H; by apply (H _ eq_refl)|].
  cbn [convert]. rewrite (proj2 (Nat.ltb_ge _ _)) by lia. cbn -[maxDocumentDepth maxRefDepth maxYAMLAliasNodes convert deAlias].
  destruct (Hm fuel (S depth) count Hd) as [path Hp]. rewrite Hp. cbn. split; [by intros [= ?]|]. intros H. by apply (H _ eq_refl).
Qed.

(** ** What is read is a canonical tree

    Whatever the text, the tree has its keys in order, its strings in UTF-8, its numbers in JSON's grammar,
    and nests no deeper than the ceiling. *)

Lemma dec_digits_spec fuel z acc : 0 <= z < 10 ^ Z.of_nat fuel -> str_forallb is_digit acc = true ->
  exists a s, dec_digits fuel z acc = String a s /\ is_digit a = true /\ str_forallb is_digit s = true
      /\ (bz a = 48 -> z = 0 /\ s = acc) \/ fuel = 0%nat.
Proof.
  revert z acc. induction fuel as [|fuel IH]; intros z acc Hz Hacc; [exists zero, ""; by right|].
  cbn [dec_digits]. assert (Hd : forall d, 0 <= d < 10 -> is_digit (digit d) = true /\ bz (digit d) = 48 + d).
  { intros d Hd. unfold is_digit, digit, in_range. rewrite bz_zb, Z.mod_small by lia. lia. }
  destruct (Z.ltb_spec z 10).
  - exists (digit z), acc. left. destruct (Hd z ltac:(lia)) as [H1 H2]. split_and!; [done..|]. rewrite H2. intros. split; [lia|done].
  - rewrite Nat2Z.inj_succ, Z.pow_succ_r in Hz by lia. pose proof (Z.mod_pos_bound z 10).
    destruct (Hd (z mod 10) ltac:(lia)) as [H1 _].
    destruct (IH (z / 10) (String (digit (z mod 10)) acc)) as (a & s & Hs); [lia|cbn [str_forallb]; by rewrite H1|].
    exists a, s. left. destruct Hs as [(-> & Ha & Hs & Hz0)| ->].
    + split_and!; [done..|]. intros [? _]%Hz0. lia.
    + change (10 ^ Z.of_nat 0) with 1 in Hz. lia.
Qed.

Lemma digits_number a s : is_digit a = true -> str_forallb is_digit s = true -> (bz a = 48 -> s = "") ->
  int_part (String a s) = Some (String a s, "").
Proof.
  intros Ha Hs H0. cbn [int_part]. destruct (Z.eqb_spec (bz a) 48) as [He|]; [by rewrite (H0 He)|].
  pose proof (span_digits_stop (String a s) "") as Hsp. rewrite string_app_nil_r in Hsp. rewrite Hsp; [done| |done].
  cbn [str_forallb]. by rewrite Ha.
Qed.

Lemma dec_number z : - 10 ^ 40 < z < 10 ^ 40 -> number (dec z) = Some (dec z, "").
Proof.
  intros Hz. unfold dec. destruct (Z.ltb_spec z 0).
  - destruct (dec_digits_spec 40 (- z) "") as (a & s & [(Hs & Ha & Hd & Hz0)|]); [lia|done| |done].
    rewrite Hs. change ("-" +:+ String a s) with (String "-" (String a s)). unfold number. change (bz "-" =? 45) with true. cbn match.
    rewrite digits_number; [cbn [frac_part exp_part]; by rewrite !string_app_nil_r|done..|]. intros E. apply Hz0 in E as [E _]. lia.
  - destruct (dec_digits_spec 40 z "") as (a & s & [(Hs & Ha & Hd & Hz0)|]); [lia|done| |done].
    rewrite Hs. unfold number. pose proof Ha as Ha'. apply digit_range in Ha'. rewrite (proj2 (Z.eqb_neq _ _)) by lia. cbn match.
    rewrite digits_number; [cbn [frac_part exp_part]; by rewrite !string_app_nil_r|done..|]. by intros [_ ?]%Hz0.
Qed.

Lemma number_splits s t rest : number s = Some (t, rest) -> s = t +:+ rest.
Proof.
  assert (Hspan : forall s, s = (span_digits s).1 +:+ (span_digits s).2).
  { clear. induction s as [|a s IH]; [done|]. cbn [span_digits]. destruct (is_digit a); [|done]. destruct (span_digits s). cbn in *. by rewrite IH. }
  intros H. unfold number in H.
  destruct (match s with EmptyString => ("", s) | String a s' => _ end) as [sign s0] eqn:Hsign.
  assert (s = sign +:+ s0) as ->. { destruct s as [|a s]; [by injection Hsign as <- <-|]. destruct (bz a =? 45); by injection Hsign as <- <-. }
  destruct (int_part s0) as [[i s1]|] eqn:Hi; [|done]. cbn in H. destruct (frac_part s1) as [[f s2]|] eqn:Hf; [|done]. cbn in H.
  destruct (exp_part s2) as [[e s3]|] eqn:He; [|done]. injection H as <- <-. rewrite <- !string_app_assoc. f_equal.
  assert (s0 = i +:+ s1) as ->.
  { destruct s0 as [|a s0]; [done|]. unfold int_part in Hi. destruct (bz a =? 48); [by injection Hi as <- <-|].
    rewrite (Hspan (String a s0)). destruct (span_digits _) as [[|] ?]; [done|]. by injection Hi as <- <-. }
  f_equal. assert (s1 = f +:+ s2) as ->.
  { destruct s1 as [|a s1]; [by injection Hf as <- <-|]. unfold frac_part in Hf. destruct (bz a =? 46); [|by injection Hf as <- <-].
    rewrite (Hspan s1). destruct (span_digits _) as [[|] ?]; [done|]. by injection Hf as <- <-. }
  f_equal. destruct s2 as [|a s2]; [by injection He as <- <-|]. unfold exp_part in He. destruct (_ || _); [|by injection He as <- <-].
  destruct (match s2 with EmptyString => ("", s2) | String c s1 => _ end) as [sg s1'] eqn:Hsg.
  assert (s2 = sg +:+ s1') as ->. { destruct s2 as [|c s2]; [by injection Hsg as <- <-|]. destruct (_ || _); by injection Hsg as <- <-. }
  rewrite (Hspan s1'). destruct (span_digits _) as [[|] ?]; [done|]. injection He as <- <-. by rewrite !string_app_cons, string_app_assoc.
Qed.

Lemma put_Forall {A} (P : string * A -> Prop) k v l : P (k, v) -> Forall P l -> Forall P (put k v l).
Proof.
  intros Hk. induction l as [|[k0 v0] l IH]; cbn [put]; [by repeat constructor|]. intros [H0 Hl]%Forall_cons.
  case_bool_decide; [by constructor|]. case_match; repeat constructor; auto.
Qed.

(** What the YAML library documents of what it answers. *)
Record yaml_documented `{YL : YamlLibrary} : Prop := {
  yd_nodes : forall text n anchors, yaml_Unmarshal text = Some (n, anchors) ->
    all_nodes (fun m => valid_string (Value m) = true) n /\ forall i, all_nodes (fun m => valid_string (Value m) = true) (anchors i);
  yd_int64 : forall n i, decode_int64 n = Some i -> - 2 ^ 63 <= i < 2 ^ 63;
  yd_uint64 : forall n u, decode_uint64 n = Some u -> 0 <= u < 2 ^ 64;
  yd_float : forall f, is_finite_float f = true -> number (format_g f) = Some (format_g f, "")
}.

(** The members of an object, canonical inside it. *)
Definition canonical_members (depth : nat) (l : list (string * doc)) : Prop :=
  keys_sorted l /\ Forall (fun m => valid_string m.1 = true /\ canonical depth m.2) l.

Lemma canonical_DObj n l : canonical (S n) (DObj l) <-> canonical_members n l.
Proof. cbn [canonical]. unfold canonical_members. by rewrite foldr_Forall. Qed.
Lemma canonical_DArr n l : canonical (S n) (DArr l) <-> Forall (canonical n) l.
Proof. cbn [canonical]. by rewrite foldr_Forall. Qed.

Lemma canonical_put n k v l : valid_string k = true -> canonical n v -> canonical_members n l -> canonical_members n (put k v l).
Proof. intros Hk Hv [Hs Hl]. split; [by apply put_sorted|by apply put_Forall]. Qed.

Lemma canonical_missing n out mm : canonical_members n out -> canonical_members n mm -> canonical_members n (add_missing out mm).
Proof.
  intros Ho [_ Hm]. unfold add_missing. revert out Ho. induction Hm as [|m mm [Hk Hv] _ IH]; intros out Ho; cbn [foldl]; [done|].
  apply IH. case_bool_decide; [done|]. by apply canonical_put.
Qed.

Section canonical.
Context `{YL : YamlLibrary}.
Hypothesis Hyaml : yaml_documented.
Variable anchors : nat -> yaml_node.
Abbreviation valid_value := (fun m => valid_string (Value m) = true).
Hypothesis Hanchors : forall i, all_nodes valid_value (anchors i).

Lemma yamlScalar_canonical n depth v : valid_value n -> yamlScalar n = Ok v -> canonical depth v.
Proof.
  intros Hn. unfold yamlScalar. case_bool_decide; [by intros [= <-]|]. case_bool_decide; [by intros [= <-]|].
  case_bool_decide; [destruct (decode_bool n); [by intros [= <-]|done]|]. case_bool_decide; [by intros [= <-]|].
  destruct (_ || _); [|done]. destruct (jsonNumberText (Value n)) eqn:Hj.
  { intros [= <-]. cbn [canonical]. unfold jsonNumberText in Hj. destruct (number (Value n)) as [[t rest]|] eqn:Ht; [|done].
    apply bool_decide_eq_true in Hj as ->. f_equal. pose proof (number_splits _ _ _ Ht) as Hs. rewrite string_app_nil_r in Hs. congruence. }
  case_bool_decide.
  - destruct (decode_int64 n) as [i|] eqn:Hi; [|destruct (decode_uint64 n) as [i|] eqn:Hu; [|done]]; intros [= <-]; cbn [canonical]; apply dec_number.
    + apply (yd_int64 Hyaml) in Hi. lia.
    + apply (yd_uint64 Hyaml) in Hu. lia.
  - destruct (decode_float64 n) as [f|]; [|done]. destruct (is_finite_float f) eqn:Hf; [|done]. intros [= <-]. by apply (yd_float Hyaml).
Qed.

Lemma deAlias_valid n k : all_nodes valid_value n -> deAlias anchors n = Some k -> all_nodes valid_value k.
Proof.
  unfold deAlias. generalize maxRefDepth as hops. intros hops. revert n. induction hops as [|hops IH]; intros n Hn; cbn [deAlias_from]; [by intros [= <-]|].
  destruct (Kind n); try (by intros [= <-]). destruct (Alias n) as [i|]; [|done]. apply IH, Hanchors.
Qed.

Lemma yamlKey_valid n key : all_nodes valid_value n -> yamlKey anchors n = Ok key -> valid_string key = true.
Proof.
  unfold yamlKey. intros Hn. destruct (deAlias anchors n) as [k|] eqn:Hk; [|done]. pose proof (deAlias_valid _ _ Hn Hk) as Hv.
  apply all_nodes_content in Hv as [Hv _]. destruct (Kind k); try done. destruct (_ || _); [|done]. by intros [= <-].
Qed.

Lemma sources_valid m : all_nodes valid_value m -> Forall (all_nodes valid_value) (sources_of anchors m).
Proof.
  intros Hm. unfold sources_of. destruct (deAlias anchors m) as [r|] eqn:Hr; [|by repeat constructor].
  destruct (Kind r); try (by repeat constructor). by apply (deAlias_valid _ _ Hm) in Hr as [_ ?]%all_nodes_content.
Qed.

(** A conversion whose trees fit below the depth they are at. *)
Definition fits (conv : nat -> Z -> result yamlError (doc * Z)) : Prop :=
  forall depth c v k, conv depth c = Ok (v, k) -> (depth <= maxDocumentDepth)%nat /\ canonical (S (maxDocumentDepth - depth)) v.

Lemma fits_below (conv : nat -> Z -> result yamlError (doc * Z)) depth c v k segment :
  fits conv -> within segment (conv (S depth) c) = Ok (v, k) -> canonical (maxDocumentDepth - depth) v.
Proof.
  intros Hf. destruct (conv (S depth) c) as [[v' k']|] eqn:Hc; [|done]. intros [= <- <-]. destruct (Hf _ _ _ _ Hc) as [Hd Hv].
  eapply canonical_mono; [|exact Hv]. lia.
Qed.

Lemma sequence_fits conv i items depth c r : Forall (fun m => fits (conv m)) items ->
  sequence_items conv i items depth c = Ok r -> Forall (canonical (maxDocumentDepth - depth)) r.1.
Proof.
  intros Hl. revert i c r. induction Hl as [|m l Hm _ IH]; intros i c r; cbn [sequence_items]; [by intros [= <-]; constructor|].
  intros ([v k] & Hv & (rs & Hrs & [= <-])%rbind_Ok_inv)%rbind_Ok_inv. cbn. constructor; [by apply fits_below in Hv|by eapply IH].
Qed.

Lemma entries_fit conv content depth c out merges r :
  Forall (fun m => all_nodes valid_value m /\ fits (conv m)) content -> canonical_members (maxDocumentDepth - depth) out ->
  mapping_entries anchors conv content depth c out merges = Ok r ->
  canonical_members (maxDocumentDepth - depth) r.1.1 /\ r.1.2 = merges ++ merge_values content.
Proof.
  remember (length content) as k eqn:Hk. revert content Hk c out merges. induction (lt_wf k) as [k _ IH].
  intros [|kn [|vn rest]] -> c out merges Hl Ho; cbn [mapping_entries merge_values];
    [intros [= <-]; cbn; by rewrite app_nil_r..|].
  apply Forall_cons in Hl as [[Hkn _] [[Hvn Hfit] Hl]%Forall_cons]. destruct (is_merge kn).
  { intros H%(IH (length rest) ltac:(simpl; lia) rest eq_refl); [|done..]. by rewrite <- app_assoc in H. }
  intros (key & Hkey%yamlKey_valid & H)%rbind_Ok_inv; [|done]. case_bool_decide; [done|]. apply rbind_Ok_inv in H as ([v k] & Hv%fits_below & H); [|done].
  apply (IH (length rest) ltac:(simpl; lia) rest eq_refl) in H; [done..|]. by apply canonical_put.
Qed.

Lemma merges_fit conv sources depth c out r : Forall (fun m => fits (conv m)) sources -> canonical_members (maxDocumentDepth - depth) out ->
  merge_sources conv sources depth c out = Ok r -> canonical_members (maxDocumentDepth - depth) r.1.
Proof.
  intros Hl. revert c out. induction Hl as [|m l Hm _ IH]; intros c out Ho; cbn [merge_sources]; [by intros [= <-]|].
  intros ([v k] & Hv & H)%rbind_Ok_inv. cbn [fst snd] in H. destruct v as [| | | | |mm]; try done. revert H. apply IH, canonical_missing; [done|].
  destruct (conv m depth c) as [[v k']|] eqn:Hc; [|done]. injection Hv as -> _. destruct (Hm _ _ _ _ Hc) as [_ Hv]. by apply canonical_DObj.
Qed.

Lemma convert_fits fuel n underAlias : all_nodes valid_value n -> fits (convert anchors fuel n underAlias).
Proof.
  revert n underAlias. induction fuel as [|fuel IH]; intros n ua Hn depth c v k; cbn [convert]; [done|].
  destruct (Nat.ltb_spec maxDocumentDepth depth) as [|Hd]; [done|]. destruct (ua && _); [done|]. set (c' := if ua then c + 1 else c). clearbody c'.
  pose proof Hn as Hn'. apply all_nodes_content in Hn' as [Hval Hcont]. intros H. split; [done|]. revert H. destruct (Kind n).
  - by intros [= <- _].
  - destruct (NodeContent n) as [|m l]; [by intros [= <- _]|]. apply Forall_cons in Hcont as [Hm _]. intros H%IH; [by destruct H|done].
  - intros (r & Hr & [= <- _])%rbind_Ok_inv. apply sequence_fits in Hr; [by apply canonical_DArr|].
    eapply Forall_impl; [exact Hcont|]. intros m Hm. by apply IH.
  - unfold mapping. intros (r & Hr & (out & Ho & [= <- _])%rbind_Ok_inv)%rbind_Ok_inv. apply canonical_DObj.
    apply entries_fit in Hr as [Hout Hms]; [|eapply Forall_impl; [exact Hcont|]; intros m Hm; split; [done|by apply IH]|by split; constructor].
    apply merges_fit in Ho; [done| |done]. rewrite Hms. apply Forall_forall. intros src (m & Hm & Hs)%list_elem_of_In%in_flat_map.
    apply IH. rewrite <- list_elem_of_In in Hm, Hs. rewrite Forall_forall in Hcont.
    pose proof (sources_valid m (Hcont m (merge_values_content _ _ Hm))) as Hsv. rewrite Forall_forall in Hsv. by apply Hsv.
  - intros (x & Hx & [= <- _])%rbind_Ok_inv. by apply (yamlScalar_canonical n).
  - destruct (Alias n) as [i|]; [|done]. intros H%IH; [by destruct H|done].
  - done.
Qed.
End canonical.

Lemma checkDepth_canonical d n depth : canonical n d -> checkDepth d depth = Ok tt -> canonical (S (maxDocumentDepth - depth)) d.
Proof.
  revert n depth. induction d as [| | | |l IH|l IH] using doc_ind'; intros n depth Hn; cbn [checkDepth];
    (destruct (Nat.ltb_spec maxDocumentDepth depth) as [|Hd]; [done|]); try done.
  all: destruct n as [|n]; [done|].
  all: assert (Hs : forall v, checkDepth v (S depth) = Ok tt -> canonical (S (maxDocumentDepth - S depth)) v -> canonical (maxDocumentDepth - depth) v)
    by (intros v Hv; assert (S depth <= maxDocumentDepth)%nat by (destruct v; cbn [checkDepth] in Hv; destruct (Nat.ltb_spec maxDocumentDepth (S depth)); (done || lia)); apply (canonical_mono (S (maxDocumentDepth - S depth))); lia).
  - rewrite canonical_DArr. apply canonical_DArr in Hn. induction IH as [|v l Hv _ IHl]; [by constructor|]. apply Forall_cons in Hn as [Hv' Hn].
    intros ([] & H & Hl)%rbind_Ok_inv. constructor; [|by apply IHl]. apply Hs; [done|]. by apply (Hv n).
  - rewrite canonical_DObj. apply canonical_DObj in Hn as [Hk Hn]. intros H. split; [done|]. clear Hk. revert H.
    induction IH as [|m l Hm _ IHl]; [by constructor|]. apply Forall_cons in Hn as [[Hk Hv] Hn].
    intros ([] & H & Hl)%rbind_Ok_inv. constructor; [|by apply IHl]. split; [done|]. apply Hs; [done|]. by apply (Hm n).
Qed.

Lemma parseDocument_canonical `{YL : YamlLibrary} text root : yaml_documented -> parseDocument text = Ok root ->
  canonical (S maxDocumentDepth) (DObj root).
Proof.
  intros Hy. unfold parseDocument. destruct (skip_space _) as [|c rest]; [done|]. intros (v & Hv & H)%rbind_Ok_inv.
  destruct (checkDepth v 0) as [[]|] eqn:Hd; [|done]. destruct v as [| | | | |members]; try done. injection H as <-.
  case_bool_decide.
  - unfold parse_document_json in Hv. destruct (decode_first _) as [[v rest']|] eqn:Hf; [|done]. destruct (more rest'); [done|].
    injection Hv as Hv. apply decode_first_canonical in Hf. rewrite Hv in Hf. by apply (checkDepth_canonical _ _ 0) in Hf.
  - unfold parse_yaml in Hv. destruct (yaml_Unmarshal _) as [[n anchors]|] eqn:Hn; [|done].
    destruct (convert _ _ _ _ _ _) as [[v k]|] eqn:Hc; [|done]. injection Hv as ->. destruct (yd_nodes Hy _ _ _ Hn) as [H1 H2].
    by apply (convert_fits Hy anchors H2) in Hc as [_ Hc].
Qed.
