(* ===== verification/OpenapiSchema.v ===== *)
(** * The schemas of an OpenAPI document ([internal/gateway/resthttp/openapi.go], [translateSchema])

    One ingestion's state, as a state and error monad: the budgets, and what is reported.  References,
    [allOf], [nullable] and the boolean bounds of OpenAPI 3.0 are resolved into plain JSON Schema.  The
    ceilings are a parameter, so that theorems can speak of a translation no ceiling stops; the program's
    are [ceilings].  Where Go ranges over a map and the order can show, the order is a parameter. *)
From Stdlib Require Import ZArith Lia Ascii.
From stdpp Require Import base strings list.
From S2P Require Import Prelude.
From S2P Require Import GoStrings.
From S2P Require Import GoTime.
From S2P Require Import Json.
From S2P Require Import GatewayTypes.
From S2P Require Import RestOperations.
From S2P Require Import JsonCanon.
From S2P Require Import RestPath.
From S2P Require Import Oidc.
From S2P Require Import OpenapiDoc.

Abbreviation members := (list (string * doc)).

(** [for k, v := range m], where the order can show: some order, perhaps another at every visit. *)
Class RangeOrder := {
  range_doc : Z -> members -> members;
  range_doc_perm : forall visit m, range_doc visit m ≡ₚ m
}.

Definition maxSchemaNodes : Z := 250000.
Definition maxOperationsBytes : Z := Z.shiftl 4 20.

(** ** What an ingestion reports *)

Inductive fault :=
| SchemaNodes | OperationBytes | SetBytes
| SchemaNotObject | RefNotString | RefCyclic (ref : string) | RefDeep (ref : string) | RefRemote (ref : string)
| RefMissing (ref part : string) | RefIndex (ref part : string) | RefNotContainer (ref part : string)
| KeywordShape (key : string) | ItemsArray (key : string)
| PropertyTwice (name : string) | ConflictingTypes | Conflicting (key : string)
| NotAnObject (what : string) | NotAnArray
| ParameterName (i : nat) | ParameterIn (i : nat) | ParameterPlace (i : nat) (place : string)
| ParameterNoSchema (i : nat) | ParameterMediaSchema (i : nat)
| ContentNotObject | MediaNotObject (media : string)
| UnsupportedMedia (declared : list string)
| SafeMethodBody
| ParameterDeclaredTwice (name place : string)
| OperationIdNotString
| Panicked (* a failed type assertion *)
| Unfinished (* the model's fuel: never met, [translate_finishes] *).

Inductive reason := MethodNotServed | PathParameters (e : fault) | OperationSkipped (e : fault).

Record skip_entry := { sk_method : string; sk_path : string; sk_reason : reason }.

Inductive warning :=
| SecurityIgnored (label : string) | SecurityOverridden (label : string) | SecurityMany (n : nat) | SecurityNotInjectable (label : string)
| DescriptorDerived (kind name : string)
| ServersMany (n : nat) | ServerOrigin (origin : string) | ServerBasePath (own declared : string)
| VendorPath (path : string) | PathServers (path : string) | OperationServers (method path : string)
| SlotDropped (place name : string) | HeaderIgnored (name : string) | ResponseContent (method path : string)
| OutputNotTranslated (method path code : string) (e : fault) | OutputNotCompiled (method path : string).

Inductive budget := BudgetNone | BudgetOperation | BudgetSet.

(** [ingestion], without what is fixed for the whole of it (the document, the credential's slot) and the
    memo of [ownBytes], which is a function of the node alone. *)
Record ingestion := {
  nodes : Z; opBytes : Z; totalBytes : Z; overBudget : budget; skipped : list skip_entry; warnings : list warning
}.

Definition started : ingestion :=
  {| nodes := 0; opBytes := 0; totalBytes := 0; overBudget := BudgetNone; skipped := []; warnings := [] |}.

Definition with_nodes (n : Z) (s : ingestion) : ingestion :=
  {| nodes := n; opBytes := opBytes s; totalBytes := totalBytes s; overBudget := overBudget s; skipped := skipped s; warnings := warnings s |}.
Definition with_opBytes (n : Z) (s : ingestion) : ingestion :=
  {| nodes := nodes s; opBytes := n; totalBytes := totalBytes s; overBudget := overBudget s; skipped := skipped s; warnings := warnings s |}.
Definition with_totalBytes (n : Z) (s : ingestion) : ingestion :=
  {| nodes := nodes s; opBytes := opBytes s; totalBytes := n; overBudget := overBudget s; skipped := skipped s; warnings := warnings s |}.
Definition with_overBudget (b : budget) (s : ingestion) : ingestion :=
  {| nodes := nodes s; opBytes := opBytes s; totalBytes := totalBytes s; overBudget := b; skipped := skipped s; warnings := warnings s |}.
Definition with_skip (k : skip_entry) (s : ingestion) : ingestion :=
  {| nodes := nodes s; opBytes := opBytes s; totalBytes := totalBytes s; overBudget := overBudget s; skipped := skipped s ++ [k]; warnings := warnings s |}.
Definition with_warning (w : warning) (s : ingestion) : ingestion :=
  {| nodes := nodes s; opBytes := opBytes s; totalBytes := totalBytes s; overBudget := overBudget s; skipped := skipped s; warnings := warnings s ++ [w] |}.

(** A step of an ingestion: an error leaves the state it was met in. *)
Definition step_of (E A : Type) : Type := ingestion -> result E A * ingestion.

Definition done_with {E A} (a : A) : step_of E A := fun s => (Ok a, s).
Definition fail_with {E A} (e : E) : step_of E A := fun s => (Err e, s).
Definition then_do {E A B} (m : step_of E A) (k : A -> step_of E B) : step_of E B :=
  fun s => match m s with (Ok a, s') => k a s' | (Err e, s') => (Err e, s') end.
Definition look {E A} (f : ingestion -> A) : step_of E A := fun s => (Ok (f s), s).
Definition change {E} (f : ingestion -> ingestion) : step_of E unit := fun s => (Ok tt, f s).
Definition lift {E A} (r : result E A) : step_of E A := fun s => (r, s).
Definition relabel {E E' A} (f : E -> E') (m : step_of E A) : step_of E' A :=
  fun s => match m s with (Ok a, s') => (Ok a, s') | (Err e, s') => (Err (f e), s') end.
(** The outcome of a step, looked at by its caller. *)
Definition attempt {E E' A} (m : step_of E A) : step_of E' (result E A) := fun s => let '(r, s') := m s in (Ok r, s').

Notation "x <-! c ;; k" := (then_do c (fun x => k)) (at level 60, c at next level, right associativity) : gatte_scope.

Abbreviation step := (step_of fault).

Fixpoint collect {A B} (f : A -> step B) (l : list A) : step (list B) :=
  match l with
  | [] => done_with []
  | x :: l => y <-! f x;; ys <-! collect f l;; done_with (y :: ys)
  end.

(** ** References *)

(** [strconv.Atoi]. *)
Definition Atoi (s : string) : option Z :=
  let '(sign, ds) := match s with
    | String a s' => if bz a =? 45 then (-1, s') else if bz a =? 43 then (1, s') else (1, s)
    | EmptyString => (1, s) end in
  if bool_decide (ds = "") || negb (str_forallb is_digit ds) then None
  else let n := sign * uint 0 ds in if (n <? - 2 ^ 63) || (2 ^ 63 <=? n) then None else Some n.

Definition pointer_part (part : string) : string :=
  let part := match PathUnescape part with Some p => p | None => part end in ReplaceAll (ReplaceAll part "~1" "/") "~0" "~".

Fixpoint walk (ref : string) (cur : doc) (parts : list string) : result fault doc :=
  match parts with
  | [] => Ok cur
  | part :: parts =>
      let part := pointer_part part in
      match cur with
      | DObj node => match assoc part node with None => Err (RefMissing ref part) | Some next => walk ref next parts end
      | DArr node =>
          match Atoi part with
          | None => Err (RefIndex ref part)
          | Some i =>
              if (i <? 0) || (Z.of_nat (length node) <=? i) then Err (RefIndex ref part)
              else match node !! Z.to_nat i with None => Err Panicked | Some next => walk ref next parts end
          end
      | _ => Err (RefNotContainer ref part)
      end
  end.

Section ingest.
Variable root : members.

Definition resolvePointer (ref : string) : result fault doc :=
  if bool_decide (ref = "#") then Ok (DObj root)
  else match cut_prefix ref "#/" with
  | None => Err (RefRemote ref)
  | Some path => walk ref (DObj root) (split_on "/" path)
  end.

(** The loop of [deref], [hops] of it made. *)
Fixpoint deref_from (fuel hops : nat) (seen : list string) (v : doc) (what : string) : result fault members :=
  match fuel with
  | O => Err Unfinished
  | S fuel =>
      match v with
      | DObj obj =>
          match assoc "$ref" obj with
          | None => Ok obj
          | Some (DStr ref) =>
              if bool_decide (ref ∈ seen) then Err (RefCyclic ref)
              else if (maxRefDepth <=? hops)%nat then Err (RefDeep ref)
              else target <-? resolvePointer ref;; deref_from fuel (S hops) (ref :: seen) target what
          | Some _ => Err RefNotString
          end
      | _ => Err (NotAnObject what)
      end
  end.
Definition deref (v : doc) (what : string) : result fault members := deref_from (maxRefDepth + 2) 0 [] v what.
End ingest.

(** ** The byte budget *)

(** A ceiling: [None] is none. *)
Record limits := { l_nodes : option Z; l_operation : option Z; l_set : option Z }.
Definition ceilings : limits :=
  {| l_nodes := Some maxSchemaNodes; l_operation := Some MaxToolDefinitionBytes; l_set := Some maxOperationsBytes |}.
Definition no_ceiling : limits := {| l_nodes := None; l_operation := None; l_set := None |}.

Definition over (n : Z) (limit : option Z) : bool := match limit with Some m => m <? n | None => false end.

Definition keptKeywords : list string :=
  ["type"; "enum"; "const"; "format"; "default"; "title"; "description"; "example"; "examples"; "deprecated"; "readOnly"; "writeOnly";
   "minimum"; "maximum"; "multipleOf"; "minLength"; "maxLength"; "pattern"; "minItems"; "maxItems"; "uniqueItems";
   "minProperties"; "maxProperties"; "required"; "dependentRequired"].

(** One keyword's bytes, of the schema's own. *)
Definition keyword_bytes (m : string * doc) : Z :=
  let '(key, val) := m in
  if bool_decide (key ∈ ["properties"; "patternProperties"]) then
    match val with DObj props => foldr (fun p n => blen key + blen p.1 + n) 0 props | _ => 0 end
  else if bool_decide (key ∈ keptKeywords) || bool_decide (key ∈ ["nullable"; "exclusiveMinimum"; "exclusiveMaximum"]) then
    blen key + blen (doc_text val)
  else 0.

Definition ownBytes (s : members) : Z := foldr (fun m n => keyword_bytes m + n) 0 s.

Section translate.
Context `{RO : RangeOrder}.
Variable lim : limits.
Variable root : members.

Definition charge (n : Z) : step unit :=
  _ <-! change (fun s => with_opBytes (opBytes s + n) s);;
  s <-! look (fun s => s);;
  if over (opBytes s) (l_operation lim) then _ <-! change (with_overBudget BudgetOperation);; fail_with OperationBytes
  else if over (totalBytes s + opBytes s) (l_set lim) then _ <-! change (with_overBudget BudgetSet);; fail_with SetBytes
  else done_with tt.

Definition count_node : step unit :=
  _ <-! change (fun s => with_nodes (nodes s + 1) s);;
  n <-! look nodes;;
  if over n (l_nodes lim) then fail_with SchemaNodes else done_with tt.

(** ** [mergeInto] *)

Definition remove (key : string) (m : members) : members := filter (fun p => p.1 <> key) m.

(** [item.(string)] of every item. *)
Fixpoint names_of (l : list doc) : option (list string) :=
  match l with
  | [] => Some []
  | DStr s :: l => match names_of l with Some names => Some (s :: names) | None => None end
  | _ :: _ => None
  end.

Fixpoint merge_properties (dp sp : members) : result fault members :=
  match sp with
  | [] => Ok dp
  | (name, ps) :: sp =>
      match assoc name dp with
      | Some prev => if bool_decide (doc_text prev = doc_text ps) then merge_properties dp sp else Err (PropertyTwice name)
      | None => merge_properties (put name ps dp) sp
      end
  end.

Definition documentation : list string := ["description"; "title"; "example"; "examples"; "deprecated"; "default"].

Definition merge_keyword (dst : members) (key : string) (sv : doc) : result fault members :=
  let dv := assoc key dst in
  if bool_decide (key ∈ ["properties"; "patternProperties"]) then
    match sv with
    | DObj sp =>
        dp <-? merge_properties (match dv with Some (DObj dp) => dp | _ => [] end) sp;;
        Ok (put key (DObj dp) dst)
    | _ => Err Panicked
    end
  else if bool_decide (key = "required") then
    match names_of (match dv with Some (DArr dl) => dl | _ => [] end), sv with
    | Some names, DArr sl =>
        match names_of sl with
        | Some names' => Ok (put key (DArr (map DStr (sort_strings (dedup (names ++ names'))))) dst)
        | None => Err Panicked
        end
    | _, _ => Err Panicked
    end
  else if bool_decide (key ∈ documentation) then
    match dv with Some _ => Ok dst | None => Ok (put key sv dst) end
  else match dv with
  | Some d =>
      if bool_decide (doc_text d = doc_text sv) then Ok (put key sv dst)
      else Err (if bool_decide (key = "type") then ConflictingTypes else Conflicting key)
  | None => Ok (put key sv dst)
  end.

Fixpoint mergeInto (dst src : members) : result fault members :=
  match src with
  | [] => Ok dst
  | (key, sv) :: src => dst <-? merge_keyword dst key sv;; mergeInto dst src
  end.

(** ** What 3.0 spells otherwise *)

Definition is_null_type (d : doc) : bool := match d with DStr s => bool_decide (s = "null") | _ => false end.

Definition resolve_nullable (out : members) : members :=
  match assoc "nullable" out with
  | None => out
  | Some n =>
      let out := remove "nullable" out in
      match n, assoc "type" out with
      | DBool true, Some (DStr t) => put "type" (DArr [DStr t; DStr "null"]) out
      | DBool true, Some (DArr t) => if existsb is_null_type t then out else put "type" (DArr (t ++ [DStr "null"])) out
      | _, _ => out
      end
  end.

Definition resolve_bound (exclusive inclusive : string) (out : members) : members :=
  match assoc exclusive out with
  | Some (DBool b) =>
      let out := remove exclusive out in
      match assoc inclusive out with
      | Some bound => if b then remove inclusive (put exclusive bound out) else out
      | None => out
      end
  | _ => out
  end.

Definition resolve_30 (out : members) : members :=
  resolve_bound "exclusiveMaximum" "maximum" (resolve_bound "exclusiveMinimum" "minimum" (resolve_nullable out)).

(** ** [translateSchema] *)

(** What a keyword contributes: an entry, the branches to merge, nothing. *)
Inductive contribution := Entry (d : doc) | Branches (l : list doc) | Dropped.

Section keywords.
Variable tr : doc -> step members.

Fixpoint translate_members (l : members) (translated : members) : step members :=
  match l with
  | [] => done_with translated
  | (name, p) :: l => t <-! tr p;; translate_members l (put name (DObj t) translated)
  end.

Definition keyword (key : string) (val : doc) : step contribution :=
  if bool_decide (key ∈ ["properties"; "patternProperties"]) then
    match val with
    | DObj props => visit <-! look nodes;; t <-! translate_members (range_doc visit props) [];; done_with (Entry (DObj t))
    | _ => fail_with (KeywordShape key)
    end
  else if bool_decide (key ∈ ["items"; "not"]) then
    match val with DArr _ => fail_with (ItemsArray key) | _ => t <-! tr val;; done_with (Entry (DObj t)) end
  else if bool_decide (key = "additionalProperties") then
    match val with DBool b => done_with (Entry (DBool b)) | _ => t <-! tr val;; done_with (Entry (DObj t)) end
  else if bool_decide (key ∈ ["oneOf"; "anyOf"; "prefixItems"]) then
    match val with
    | DArr l => ts <-! collect tr l;; done_with (Entry (DArr (map DObj ts)))
    | _ => fail_with (KeywordShape key)
    end
  else if bool_decide (key = "allOf") then
    match val with DArr l => done_with (Branches l) | _ => fail_with (KeywordShape key) end
  else if bool_decide (key = "type") then
    match val with DStr _ | DArr _ => done_with (Entry val) | _ => fail_with (KeywordShape key) end
  else if bool_decide (key = "required") then
    match val with
    | DArr l => match names_of l with Some _ => done_with (Entry val) | None => fail_with (KeywordShape key) end
    | _ => fail_with (KeywordShape key)
    end
  else if bool_decide (key ∈ ["nullable"; "exclusiveMinimum"; "exclusiveMaximum"]) then done_with (Entry val)
  else if bool_decide (key ∈ keptKeywords) then done_with (Entry val)
  else done_with Dropped.

(** The loop over the sorted keys. *)
Fixpoint keywords (l : members) (out : members) (allOf : list doc) : step (members * list doc) :=
  match l with
  | [] => done_with (out, allOf)
  | (key, val) :: l =>
      c <-! keyword key val;;
      match c with
      | Entry d => keywords l (put key d out) allOf
      | Branches bs => keywords l out bs
      | Dropped => keywords l out allOf
      end
  end.

Fixpoint merge_branches (allOf : list doc) (out : members) : step members :=
  match allOf with
  | [] => done_with out
  | b :: allOf => t <-! tr b;; out <-! lift (mergeInto out t);; merge_branches allOf out
  end.
End keywords.

Fixpoint translate_from (fuel : nat) (v : doc) (stack : list string) : step members :=
  match fuel with
  | O => fail_with Unfinished
  | S fuel =>
      _ <-! count_node;;
      match v with
      | DBool true => done_with []
      | DBool false => done_with [("not", DObj [])]
      | DObj s =>
          match assoc "$ref" s with
          | Some (DStr ref) =>
              if bool_decide (ref ∈ stack) then fail_with (RefCyclic ref)
              else if (maxRefDepth <=? length stack)%nat then fail_with (RefDeep ref)
              else target <-! lift (resolvePointer root ref);; translate_from fuel target (stack ++ [ref])
          | Some _ => fail_with RefNotString
          | None =>
              let tr := fun v => translate_from fuel v stack in
              _ <-! charge (ownBytes s);;
              r <-! keywords tr s [] [];;
              out <-! merge_branches tr r.2 r.1;;
              done_with (resolve_30 out)
          end
      | _ => fail_with SchemaNotObject
      end
  end.

(** Every reference leads back to a node of the document, nested no deeper than it: enough for 32 of
    them, each followed to the bottom. *)
Definition translate_fuel : nat := (maxRefDepth + 1) * (maxDocumentDepth + 2).

Definition translateSchema (v : doc) : step members := translate_from translate_fuel v [].
End translate.

Definition key_order : RangeOrder := {| range_doc := fun _ m => m; range_doc_perm := fun _ m => Permutation_refl m |}.
#[local] Existing Instance key_order.

(** A document written as JSON, for the examples. *)
Definition doc_named (s : string) : doc := match parse_json (dq s) with Some j => doc_of j | None => DNull end.
Definition members_named (s : string) : members := match doc_named s with DObj m => m | _ => [] end.
Definition translated (root : members) (v : doc) : result fault string :=
  match (translateSchema ceilings root v started).1 with Ok m => Ok (doc_text (DObj m)) | Err e => Err e end.

Example translate_ex :
  let root := members_named "{'components':{'schemas':{'A':{'type':'object','properties':{'x':{'type':'integer','minimum':1,'exclusiveMinimum':true}},'required':['x'],'x-note':1},
    'B':{'allOf':[{'$ref':'#/components/schemas/A'},{'required':['y'],'properties':{'y':{'nullable':true,'type':'string'}}}]},
    'C':{'properties':{'c':{'$ref':'#/components/schemas/C'}}}}}}" in
  translated root (doc_named "{'$ref':'#/components/schemas/B','description':'gone'}")
  = Ok (dq "{'properties':{'x':{'exclusiveMinimum':1,'type':'integer'},'y':{'type':['string','null']}},'required':['x','y'],'type':'object'}")
  /\ translated root (doc_named "{'$ref':'#/components/schemas/C'}") = Err (RefCyclic "#/components/schemas/C")
  /\ translated root (doc_named "{'items':[1]}") = Err (ItemsArray "items").
Proof. vm_compute. done. Qed.
