(* ===== verification/OpenapiOps.v ===== *)
(** * The operations of an OpenAPI document ([internal/gateway/resthttp/openapi.go])

    From the paths of a document to operations: parameters, bodies, output schemas, descriptions, names;
    what the document may say of the credential and of the base path; and [Ingest], which puts them
    together and holds the result to the same [Validate], [Encode] and [Decode] the adapter uses. *)
From Stdlib Require Import ZArith Lia Ascii.
From stdpp Require Import base strings list.
From S2P Require Import Prelude.
From S2P Require Import GoStrings.
From S2P Require Import Utf8.
From S2P Require Import GoTime.
From S2P Require Import Json.
From S2P Require Import Encode.
From S2P Require Import Quarantine.
From S2P Require Import GatewayTypes.
From S2P Require Import ToolSchema.
From S2P Require Import RestEgress.
From S2P Require Import RestOperations.
From S2P Require Import JsonCanon.
From S2P Require Import RestPath.
From S2P Require Import RestRequest.
From S2P Require Import RestSets.
From S2P Require Import RestCall.
From S2P Require Import Config.
From S2P Require Import OpenapiDoc.
From S2P Require Import OpenapiSchema.

Definition maxOperations : nat := 512.
Definition maxDescriptionBytes : nat := 1024.
Definition nameHashLen : nat := 6.

(** ** Text *)

(** [strings.ToLower(s) == word], for a word of lower-case ASCII: two code points beyond ASCII lower into it. *)
Definition lower_rune (r : Z) : Z :=
  if in_range 65 90 r then r + 32 else if r =? 0x130 then 105 else if r =? 0x212a then 107 else r.
Definition lowers_to (s word : string) : bool := bool_decide (map (fun c => lower_rune c.1) (runes s) = map fst (runes word)).

(** [foldHeader(s) == word]. *)
Definition header_folds_to (s word : string) : bool :=
  bool_decide (map (fun c => let r := lower_rune c.1 in if r =? 95 then 45 else r) (runes s) = map fst (runes word)).

(** [strings.EqualFold(s, word)], for a word of ASCII. *)
Definition equal_fold (s word : string) : bool :=
  bool_decide (map (fun c => fold_rune c.1) (runes s) = map (fun c => fold_rune c.1) (runes word)).

Definition to_upper (s : string) : string := str_map (fun a => if in_range 97 122 (bz a) then zb (bz a - 32) else a) s.

(** [strings.TrimRight(s, "_")] and [strings.Trim(s, "_")]. *)
Fixpoint trim_left_byte (c : ascii) (s : string) : string :=
  match s with String a s' => if bool_decide (a = c) then trim_left_byte c s' else s | EmptyString => "" end.
Definition trim_right_byte (c : ascii) (s : string) : string := str_rev (trim_left_byte c (str_rev s)).
Definition trim_byte (c : ascii) (s : string) : string := trim_right_byte c (trim_left_byte c s).

(** The loop that moves a cut back to the start of a rune. *)
Fixpoint cut_back (cut : nat) (s : string) : nat :=
  match cut with
  | O => O
  | S n => match String.get cut s with Some a => if rune_start a then cut else cut_back n s | None => cut end
  end.

(** A value that is there and not [null]. *)
Definition given (key : string) (obj : members) : option doc :=
  match assoc key obj with Some DNull | None => None | Some v => Some v end.
Definition is_true (v : option doc) : bool := match v with Some (DBool b) => b | _ => false end.
Definition text_of (v : option doc) : string := match v with Some (DStr s) => s | _ => "" end.
Definition object_of (v : option doc) : members := match v with Some (DObj m) => m | _ => [] end.

Definition warn {E} (w : warning) : step_of E unit := change (with_warning w).
Definition skip {E} (method path : string) (why : reason) : step_of E unit :=
  change (with_skip {| sk_method := method; sk_path := path; sk_reason := why |}).

(** ** Media types *)

Section media.
Context `{MT : MediaTypes}.

Fixpoint choose_media (keys : list string) (chosen : string) : string :=
  match keys with
  | [] => chosen
  | k :: keys =>
      match ParseMediaType k with
      | None => choose_media keys chosen
      | Some mt =>
          if bool_decide (to_lower mt = "application/json") then k
          else choose_media keys (if bool_decide (chosen = "") && isJSONMediaType k then k else chosen)
      end
  end.

Definition pickJSONMedia (raw : option doc) : result fault (members * string) :=
  match raw with
  | Some (DObj content) =>
      let chosen := choose_media (map fst content) "" in
      if bool_decide (chosen = "") then Err (UnsupportedMedia (map fst content))
      else match assoc chosen content with
      | Some (DObj media) => Ok (media, chosen)
      | _ => Err (MediaNotObject chosen)
      end
  | _ => Err ContentNotObject
  end.
End media.

(** ** Parameters *)

Record param := { p_name : string; p_in : string; p_required : bool; p_schema : members; p_deprecated : bool }.

Definition places : list string := ["path"; "query"; "header"; "cookie"].

Section operations.
Context `{RO : RangeOrder} `{MT : MediaTypes}.
Variable lim : limits.
Variable root : members.

(** The description of a parameter or a body, on a schema that has none. *)
Definition described (obj schema : members) : step members :=
  match text_of (assoc "description" obj), assoc "description" schema with
  | EmptyString, _ | _, Some _ => done_with schema
  | d, None => _ <-! charge lim (blen d);; done_with (put "description" (DStr d) schema)
  end.

Definition parameter (i : nat) (item : doc) : step param :=
  obj <-! lift (deref root item "parameter");;
  match assoc "name" obj with
  | Some (DStr name) =>
      if bool_decide (name = "") then fail_with (ParameterName i)
      else match assoc "in" obj with
      | Some (DStr place) =>
          if negb (bool_decide (place ∈ places)) then fail_with (ParameterPlace i place)
          else
            node <-! match given "schema" obj with
                     | Some v => done_with v
                     | None =>
                         match given "content" obj with
                         | None => fail_with (ParameterNoSchema i)
                         | Some content =>
                             media <-! lift (pickJSONMedia (Some content));;
                             match given "schema" media.1 with None => fail_with (ParameterMediaSchema i) | Some v => done_with v end
                         end
                     end;;
            schema <-! translateSchema lim root node;;
            schema <-! described obj schema;;
            let deprecated := is_true (assoc "deprecated" obj) in
            done_with {| p_name := name; p_in := place; p_required := is_true (assoc "required" obj);
                         p_schema := if deprecated then put "deprecated" (DBool true) schema else schema; p_deprecated := deprecated |}
      | _ => fail_with (ParameterIn i)
      end
  | _ => fail_with (ParameterName i)
  end.

Definition parameters_of (raw : option doc) : step (list param) :=
  match raw with
  | None | Some DNull => done_with []
  | Some (DArr list) => collect (fun x => parameter x.1 x.2) (imap pair list)
  | Some _ => fail_with NotAnArray
  end.

Definition same_place (p q : param) : bool := bool_decide (p_in p = p_in q /\ p_name p = p_name q).

Definition mergeParams (inherited own : list param) : list param :=
  filter (fun p => existsb (same_place p) own = false) inherited ++ own.

(** ** Bodies *)

(** A branch of the alternation, its [additionalProperties: false] dropped. *)
Definition open_branch (b : doc) : doc :=
  match b with
  | DObj bm => match assoc "additionalProperties" bm with Some (DBool false) => DObj (remove "additionalProperties" bm) | _ => b end
  | _ => b
  end.

Definition open_branches (key : string) (schema : members) : members :=
  match assoc key schema with Some (DArr branches) => put key (DArr (map open_branch branches)) schema | _ => schema end.

Definition requestBody (raw : doc) : step (members * bool) :=
  obj <-! lift (deref root raw "requestBody");;
  media <-! lift (pickJSONMedia (assoc "content" obj));;
  schema <-! match given "schema" media.1 with None => done_with [] | Some v => translateSchema lim root v end;;
  schema <-! described obj (open_branches "anyOf" (open_branches "oneOf" schema));;
  done_with (schema, is_true (assoc "required" obj)).

(** ** Output schemas *)

Definition is2xx (code : string) : bool :=
  folds_to code "2xx"
  || match Atoi code with Some n => (String.length code =? 3)%nat && (200 <=? n) && (n <=? 299) | None => false end.

(** The loop of [declaresContent], in the order the map is ranged over. *)
Fixpoint any_content (responses : members) : result fault bool :=
  match responses with
  | [] => Ok false
  | (code, r) :: rest =>
      if is2xx code then
        resp <-? deref root r "response";;
        match object_of (assoc "content" resp) with [] => any_content rest | _ => Ok true end
      else any_content rest
  end.

Definition declaresContent (raw : option doc) : step bool :=
  match raw with
  | None | Some DNull => done_with false
  | Some (DObj responses) => visit <-! look nodes;; lift (any_content (range_doc visit responses))
  | Some _ => fail_with (NotAnObject "responses")
  end.

(** What the responses read so far agree on: no output schema, or perhaps one and what it cost. *)
Inductive agreement := NoOutput | Agreed (schema : option (string * Z)).

Section output.
Variables (method path code : string) (base : Z).

Fixpoint agree_media (content : members) (agreed : option (string * Z)) : step agreement :=
  match content with
  | [] => done_with (Agreed agreed)
  | (mt, m) :: content =>
      if negb (isJSONMediaType mt) then done_with NoOutput
      else match given "schema" (object_of (Some m)) with
      | None => done_with NoOutput
      | Some v =>
          _ <-! change (with_opBytes base);;
          r <-! attempt (translateSchema lim root v);;
          match r with
          | Err e =>
              b <-! look overBudget;;
              match b with
              | BudgetNone => _ <-! warn (OutputNotTranslated method path code e);; done_with NoOutput
              | _ => fail_with e
              end
          | Ok schema =>
              if negb (bool_decide (text_of (assoc "type" schema) = "object")) then done_with NoOutput
              else
                let b := doc_text (DObj schema) in
                match agreed with
                | Some (b0, _) => if bool_decide (b0 = b) then n <-! look opBytes;; agree_media content (Some (b, n - base)) else done_with NoOutput
                | None => n <-! look opBytes;; agree_media content (Some (b, n - base))
                end
          end
      end
  end.
End output.

Fixpoint agree_codes (method path : string) (base : Z) (responses : members) (agreed : option (string * Z)) : step agreement :=
  match responses with
  | [] => done_with (Agreed agreed)
  | (code, r) :: rest =>
      if is2xx code then
        resp <-! lift (deref root r "response");;
        match object_of (assoc "content" resp) with
        | [] => done_with NoOutput
        | content =>
            a <-! agree_media method path code base content agreed;;
            match a with NoOutput => done_with NoOutput | Agreed agreed => agree_codes method path base rest agreed end
        end
      else agree_codes method path base rest agreed
  end.

(** With its deferred function: only the schema emitted stays charged. *)
Definition outputSchema (raw : option doc) (method path : string) : step string :=
  match raw with
  | None | Some DNull => done_with ""
  | Some raw =>
      base <-! look opBytes;;
      r <-! attempt (match raw with
                     | DObj responses => agree_codes method path base responses None
                     | _ => fail_with (NotAnObject "responses")
                     end);;
      let out := match r with Ok (Agreed (Some (b, cost))) => Some (b, cost) | _ => None end in
      b <-! look overBudget;;
      _ <-! match b with
            | BudgetNone => change (with_opBytes (base + match out with Some (_, cost) => cost | None => 0 end))
            | _ => done_with tt
            end;;
      lift (match r with Ok _ => Ok match out with Some (b, _) => b | None => "" end | Err e => Err e end)
  end.

(** ** One operation *)

Definition describe (obj : members) (method path : string) : string :=
  let s := trim_space (text_of (assoc "summary" obj)) in
  let s := if bool_decide (s = "") then trim_space (text_of (assoc "description" obj)) else s in
  let s := if bool_decide (s = "") then method +:+ " " +:+ path else s in
  if (maxDescriptionBytes <? String.length s)%nat then str_take (cut_back maxDescriptionBytes s) s +:+ " [truncated]" else s.

(** What goes wrong with one operation: skipped, the document's fault, a ceiling's, or its size. *)
Inductive operation_error := OpSkipped (e : fault) | OpDocument (e : fault) | OpStopped (e : fault) | OpSize (n : Z).

Definition is_skip (e : fault) : bool := match e with UnsupportedMedia _ | SafeMethodBody => true | _ => false end.
Definition skip_or_document (e : fault) : operation_error := if is_skip e then OpSkipped e else OpDocument e.

Record draft := { d_method : string; d_path : string; d_opID : string; d_op : Operation }.

Section slots.
Variables (authHeader authQuery : string).

Definition prefix_of (place : string) : string :=
  if bool_decide (place = "path") then PrefixPath else if bool_decide (place = "query") then PrefixQuery
  else if bool_decide (place = "header") then PrefixHeader else PrefixCookie.

Definition ignored_headers : list string := ["accept"; "content-type"; "authorization"].

(** A parameter the loop passes over, and how it says so. *)
Definition passed_over (p : param) : option warning :=
  if bool_decide (p_in p = "query") then
    if negb (bool_decide (authQuery = "")) && lowers_to (p_name p) authQuery then Some (SlotDropped "query" (p_name p)) else None
  else if bool_decide (p_in p = "header") then
    if negb (bool_decide (authHeader = "")) && header_folds_to (p_name p) authHeader then Some (SlotDropped "header" (p_name p))
    else if existsb (lowers_to (p_name p)) ignored_headers then Some (HeaderIgnored (p_name p)) else None
  else None.

(** The loop over the parameters: the properties, and the names required. *)
Fixpoint place_params (ps : list param) (props : members) (required : list string) : step_of operation_error (members * list string) :=
  match ps with
  | [] => done_with (props, required)
  | p :: ps =>
      match passed_over p with
      | Some w => _ <-! warn w;; place_params ps props required
      | None =>
          let key := prefix_of (p_in p) +:+ p_name p in
          _ <-! relabel OpStopped (charge lim (blen key));;
          match assoc key props with
          | Some _ => fail_with (OpDocument (ParameterDeclaredTwice (p_name p) (p_in p)))
          | None =>
              place_params ps (put key (DObj (p_schema p)) props)
                (if bool_decide (p_in p = "path") || p_required p then key :: required else required)
          end
      end
  end.

Definition input_doc (props : members) (required : list string) : doc :=
  DObj ([("additionalProperties", DBool false); ("properties", DObj props)]
        ++ (match required with [] => [] | _ => [("required", DArr (map DStr (sort_strings (dedup required))))] end)
        ++ [("type", DStr "object")]).

Context `{SV : SchemaValidator}.

Definition add_body (obj props : members) (required : list string) : step_of operation_error (members * list string) :=
  match assoc "requestBody" obj with
  | None => done_with (props, required)
  | Some rb =>
      r <-! relabel skip_or_document (requestBody rb);;
      done_with (put BodyProperty (DObj r.1) props, if r.2 then BodyProperty :: required else required)
  end.

Definition output_of (method path : string) (obj : members) : step_of operation_error string :=
  let responses := assoc "responses" obj in
  if bool_decide (method = "HEAD") || bool_decide (method = "OPTIONS") then
    declared <-! relabel OpDocument (declaresContent responses);;
    _ <-! (if declared then warn (ResponseContent method path) else done_with tt);;
    done_with ""
  else
    before <-! look opBytes;;
    output <-! relabel OpDocument (outputSchema responses method path);;
    output <-! (if CheckOutputSchema output then done_with output
                else _ <-! warn (OutputNotCompiled method path);; done_with "");;
    _ <-! (if bool_decide (output = "") then change (with_opBytes before) else done_with tt);;
    done_with output.

Definition operation (method path : string) (raw : doc) (inherited : list param) : step_of operation_error draft :=
  match raw with
  | DObj obj =>
      _ <-! (if bool_decide (is_Some (assoc "servers" obj)) then warn (OperationServers method path) else done_with tt);;
      opID <-! match assoc "operationId" obj with
               | None => done_with ""
               | Some (DStr s) => done_with s
               | Some _ => fail_with (OpDocument OperationIdNotString)
               end;;
      if bool_decide (is_Some (assoc "requestBody" obj)) && bool_decide (ClassOf method = ClassSafe) then fail_with (OpSkipped SafeMethodBody)
      else
        own <-! relabel skip_or_document (parameters_of (assoc "parameters" obj));;
        placed <-! place_params (mergeParams inherited own) [] [];;
        full <-! add_body obj placed.1 placed.2;;
        output <-! output_of method path obj;;
        let op := {| OpName := ""; OpDescription := describe obj method path; Method := method; OpPath := path;
                     OpInput := doc_text (input_doc full.1 full.2); OpOutput := output |} in
        let n := DefinitionSize (op_ToolDef op) in
        if MaxToolDefinitionBytes <? n then fail_with (OpSize n)
        else done_with {| d_method := method; d_path := path; d_opID := opID; d_op := op |}
  | _ => fail_with (OpDocument (NotAnObject "operation"))
  end.
End slots.
End operations.
